(* ===== verification/_CoqProject ===== *)
-Q . S2P
Prelude.v
HashFunctions.v
Jenkins.v
Md5.v
Hashkit.v
Memcached.v
Text.v
KeyHash.v
Continuum.v
Distribution.v
ServerList.v
Rgroup.v
RgroupInfo.v
RgroupList.v
Error.v
StringBuf.v
Result.v
Io.v
Response.v
Write.v
Client.v
Command.v
Behavior.v
Storage.v
Fetch.v
KeyCommands.v
Get.v
Mget.v
Hexadecimal.v
Collection.v
Attributes.v
CollResult.v
CollResponse.v
Smget.v
Pool.v
