(* ===== verification/Prelude.v ===== *)
(** The arcus C client, verified: libhashkit and the core of libmemcached.

    The program.  A client holds a handle (struct memcached_st, memcached.h) with
    servers (struct memcached_server_st, server.h), in replication groups
    (rgroup.h) or not, follows the lists of servers that the pool of its handles
    or ZooKeeper give it, spreads keys over the servers by hashes from libhashkit,
    and talks to each of them over a connection with a read buffer and a write
    buffer in the text or the binary protocol.

    The files.  Each models the code named; the definitions have the names of the
    functions they translate, and an auxiliary definition is a loop or a part of
    the function next to it.

    - Prelude: bytes, machine words with their wrap-around and the notations of C's
      operators on them, record updates, and lemmas that the rest shares.
    - HashFunctions: one_at_a_time.cc, fnv_32.cc, fnv_64.cc, hsieh.cc, murmur.cc,
      crc32.cc (src/libhashkit).  Jenkins: jenkins.cc, over a memory that is
      addressed.  Md5: md5.cc.  Hashkit: the handles of hashkit.cc, function.cc,
      has.cc, digest.cc, algorithm.cc, strerror.cc and hashkit.hpp.
    - Memcached: the data of libmemcached: return.h, constants.h, server.h,
      rgroup.h, continuum.hpp, virtual_bucket.c, memcached.h, array.c, and the
      initial handle of memcached.cc.
    - Text: the functions of the C library that read text and numbers in memory.
    - KeyHash: key.cc, namespace.cc, virtual_bucket.c and hash.cc, from a key to
      the index of a server.
    - Continuum: the points of ketama in hosts.cc and the structure that the
      handles of a pool share (memcached.cc).  Distribution: run_distribution, the
      sorting of servers and groups, and the automatic rebuild of hash.cc.
    - ServerList: server.cc, server.hpp, server_list.cc and the operations on
      lists of servers in hosts.cc and memcached.cc.
    - Rgroup, RgroupInfo, RgroupList: rgroup.cc and the group half of memcached.cc:
      definitions, the information that is collected from a list of servers, and
      the list of groups.
    - Error: error.cc and strerror.cc.  StringBuf: string.cc.
    - Io: the input side of io.cc, quit.cc, and the request ids of datagrams.
    - Result: result.cc.  Response: the responses of both protocols, the first half
      of response.cc.
    - Write: the output side of io.cc, the vectors of do.cc, purge.cc, and quit.cc
      with what it sends.
    - Client: a handle with the connection of each of its servers.  Command: the steps
      that every command has (do.cc, hash.cc, the checks at the start, the switch to
      another server of the group, reading the response).  Behavior: behavior.cc.
      Storage: storage.cc.  Fetch: the first half of fetch.cc, and the choice of a
      server that can be read (io.cc).  KeyCommands: delete.cc, touch.cc, auto.cc, exist.cc, flush.cc,
      flush_buffers.cc, and the version of one server (version.cc).  Get: get.cc.
      Mget: no code of its own, the theorem on memcached_mget and the fetches after it.
    - Hexadecimal: byte arrays as text and their order.  Collection: the queries,
      filters and updates of collections, the text of them that is sent, and the
      sum of the answers of a pipe.  Attributes: the attributes of items, what is
      sent to set them, and reading the lines of an answer.  All three: collection.h
      and collection.cc.
    - CollResult: collection_result.cc.  CollResponse: the responses to commands on
      collections, in the second half of response.cc.  Smget: the responses to a
      sorted get, at its end, and the merge of those of several servers
      (merge_smget_results of fetch.cc).
    - Pool: the pool of handles that threads share, util/pool.cc, with the clients
      and the updates of servers that come between each other.

    How the state is modelled.  Structs are records and enums inductive types.  A
    w-bit integer is a Z kept in range by u8, u16, u32, u64, i32 where the code
    wraps.  Pointers are modelled where the code relies on them: a server that is
    in an array has the address of its read buffer (block, slot, offset), so that
    an array that is moved shows in it; the records of servers of replication
    groups live in a pool (a gmap) and groups hold keys of it; the ketama
    information of a pool lives in a store with reference counts.  An option is a
    failure where the code can fail, a NULL pointer, or, where it says so, an
    access that is not valid.  Functions that use a connection are computations
    of a state monad over one instance (Io.io): they are done, crash (an access that
    is not valid, or a failed assertion) or are blocked, which means that they wait
    for an outcome of recv, send or poll that is not given.  Commands are
    computations of a monad over a client (Client.cio), which holds the handle and,
    for each place of a server, the network behind its socket; Client.on_server
    runs a computation on one server, which changes the rest of the client in
    nothing.

    What surrounds the program is a parameter: the allocators and qsort
    (type classes Allocator and Qsort, with their laws, and instances), the clock,
    the texts of errno, the memory that malloc returns, what an array on the stack
    holds before it is written, the callbacks of the handle, the random numbers, and
    the outcomes of recv, send and poll, of one socket and of several.  The class Client.Surroundings has what a
    command needs of the hashes and the updates of the list of servers.

    Fuel.  Loops of the code that are not structural have a number that is
    computed from what they work on: the length of a key for the hashes, the
    number of points for the binary search of ketama, the wanted number of groups
    for the growth of their list, the size of the buffer for lines, the number of
    events for a connection, the number of switches to another server of a group
    for a command (each switch needs a server of the group that is alive), the
    responses that are still to come for a fetch (Fetch.debt).  The
    theorems on these functions state results that are not those of a run out of
    fuel, so that it is enough; those on commands hold from one unit on, since
    their servers answer.

    The properties, by their number, the most important first.  The words, codes and
    digits that they speak of are written out in their specifications, and not taken
    from the definitions that model the code:
    - 1 to 5, from a key to a server: after a rebuild a key goes to the server that
      owns it on the ring, a server that leaves gives away only its own keys,
      dispatching never leaves the list of servers, the search on the ring, and
      the points of a rebuild.
    - 6 and 7, storing: the value reaches the server of its key in exactly the
      command of the text protocol, the code is what that server said, and the
      other servers are left alone; many values at once are the same for each of
      them.
    - 8, 9 and 15, retrieving: each server gets one request for exactly its keys,
      with the numbers that it announces, and whatever the servers have, in whatever
      order they can be read, the caller gets each value once and then the end; one
      value; the fetches alone, from any state in which values are owed.
    - 10 to 14, connections and responses: what is written arrives in order however
      the network takes it, reads finish with the next bytes however they arrive, a
      value is read back as it was sent, the codes of the lines, and
      a connection is not used any more when the end of a response is not known.
    - 16 to 18, answers about collections: the elements that a server sends are those
      of the result, with their keys, flags and values; the codes of a pipe; the
      merge of the sorted answers of several servers is a sorted list of all their
      elements, of which the range that was asked for is taken.
    - 19 and 20, counting and deleting: as for storing.
    - 21 to 25, following a list of servers, of the master of the pool, or of
      replication groups: each is a refinement of an abstract update; one group;
      the groups of a list.
    - 26 and 27, memory: any sequence of operations on a string stays in its block
      and holds what it should; the shared points of a pool are counted right.
    - 28 and 29, the pool of handles: whatever clients and updates do, in whatever
      order, no handle is lost, freed twice or given to two clients, and no client
      sleeps while there is a handle for it.
    - 30 to 32, hashes: MD5 is the one of RFC 1321, lookup3 does not depend on how
      the key lies in memory, the table of crc32 computes the CRC.
    - 33 and 35, keys: keys with the same tag go together, which keys are accepted.
      34, options: what is set is what is read, but for two options that are read from
      something else, and no other option changes.
    - 36 to 39, collections: the text of a filter fits and is complete, byte arrays
      are read back from their text, what is made of the responses of a pipe, and
      reading attributes.
    - 40, namespaces stay well formed.
    The lemmas at the end of RgroupList, StringBuf, Io, Response, Hexadecimal, Write,
    Behavior, Storage, KeyCommands, Get, Collection, Attributes, CollResponse, Smget and
    Pool show, on concrete
    inputs, where the code does something else than it means to.

    Not modelled.  Opening a connection (connect.cc): a command on a server without
    one is given the outcome of the connect.  The commands that ask every server on a
    handle of their own and print what it says (verbosity.cc, dump.cc, stats.cc, and
    the version of all servers), the functions of collection.cc that send requests,
    and the fetches that read the answers of collections from several servers
    (memcached_coll_fetch_result and memcached_coll_smget_fetch_result of fetch.cc)
    are left out.  connect.cc and sasl.cc are sequences of
    system calls; arcus.cc is about threads and the ZooKeeper library; the parser
    and the scanner of the configuration are generated; protocol/ is a library for
    servers; clients/, tests/, example/ and libtest/ use the library.  Logging,
    locks and closing the connections of freed servers are left out of what is
    modelled. *)
From Stdlib Require Export ZArith Zdiv Lia.
From Stdlib Require Import Strings.String Strings.Byte.
From stdpp Require Export base list strings gmap.

Open Scope Z_scope.

(** * Bytes *)

(** A C [char] buffer is a [list byte]; [uchar] and [schar] are the values an
    [unsigned char] and a (signed, as on x86 and ARM64 with the default GCC
    flags of the library) [char] read from it have. *)
Abbreviation byte := Byte.byte.
Abbreviation bytes := (list Byte.byte).

#[export] Instance byte_eq_dec : EqDecision byte := Byte.byte_eq_dec.

Definition uchar (b : byte) : Z := Z.of_N (Byte.to_N b).

Definition schar (b : byte) : Z :=
  if uchar b <? 128 then uchar b else uchar b - 256.

Definition byte_of_Z (z : Z) : byte :=
  match Byte.of_N (Z.to_N (z mod 256)) with Some b => b | None => Byte.x00 end.

(** The bytes of a string literal of the source. *)
Definition str (s : string) : bytes := String.list_byte_of_string s.

Lemma uchar_range b : 0 <= uchar b < 256.
Proof. unfold uchar. pose proof (Byte.to_N_bounded b). lia. Qed.

Lemma uchar_inj b c : uchar b = uchar c -> b = c.
Proof.
  unfold uchar. intros H%N2Z.inj.
  apply (f_equal Byte.of_N) in H. rewrite !Byte.of_to_N in H. congruence.
Qed.

Lemma uchar_byte_of_Z z : uchar (byte_of_Z z) = z mod 256.
Proof.
  unfold byte_of_Z, uchar.
  pose proof (Z.mod_pos_bound z 256 ltac:(lia)).
  destruct (Byte.of_N (Z.to_N (z mod 256))) as [b|] eqn:E.
  - apply Byte.to_of_N in E. rewrite E. lia.
  - apply Byte.of_N_None_iff in E. lia.
Qed.

Lemma byte_of_uchar b : byte_of_Z (uchar b) = b.
Proof.
  apply uchar_inj. rewrite uchar_byte_of_Z.
  apply Z.mod_small, uchar_range.
Qed.

Lemma byte_of_Z_mod z : byte_of_Z (z mod 256) = byte_of_Z z.
Proof. unfold byte_of_Z. rewrite Zmod_mod. done. Qed.

Lemma schar_mod b m : (256 | m) -> 0 < m -> schar b mod m mod 256 = uchar b.
Proof.
  intros Hd Hm. rewrite Z.mod_mod_divide by done.
  unfold schar. pose proof (uchar_range b). case_match.
  - apply Z.mod_small. lia.
  - rewrite <-(Z.mod_small (uchar b) 256) at 2 by lia.
    rewrite <-(Z_mod_plus_full (uchar b - 256) 1 256). f_equal. lia.
Qed.

(** * Machine words *)

Definition u8 (z : Z) : Z := z mod 2 ^ 8.
Definition u16 (z : Z) : Z := z mod 2 ^ 16.
Definition u32 (z : Z) : Z := z mod 2 ^ 32.
Definition u64 (z : Z) : Z := z mod 2 ^ 64.
(** The conversion to a two's complement [int32_t]. *)
Definition i32 (z : Z) : Z := (z + 2 ^ 31) mod 2 ^ 32 - 2 ^ 31.

Abbreviation is_u8 z := (0 <= z < 2 ^ 8).
Abbreviation is_u16 z := (0 <= z < 2 ^ 16).
Abbreviation is_u32 z := (0 <= z < 2 ^ 32).
Abbreviation is_u64 z := (0 <= z < 2 ^ 64).
Abbreviation is_i32 z := (- 2 ^ 31 <= z < 2 ^ 31).

(** C's operators on [uint32_t]: [⊞], [⊟], [⊠] and [<<] wrap modulo [2 ^ 32];
    [⊕], [.|], [.&] and [>>] cannot leave the range; [⊠₆₄] wraps modulo
    [2 ^ 64].  The symbols are new ones, so that the scope a numeric argument
    is read in never changes their meaning. *)
Declare Scope word_scope.
Delimit Scope word_scope with word.
Notation "a ⊞ b" := (u32 (a + b)) (at level 50, left associativity) : word_scope.
Notation "a ⊟ b" := (u32 (a - b)) (at level 50, left associativity) : word_scope.
Notation "a ⊠ b" := (u32 (a * b)) (at level 40, left associativity) : word_scope.
Notation "a ⊠₆₄ b" := (u64 (a * b)) (at level 40, left associativity) : word_scope.
Notation "a ⊕ b" := (Z.lxor a b) (at level 50, left associativity) : word_scope.
Notation "a .| b" := (Z.lor a b) (at level 50, left associativity) : word_scope.
Notation "a .& b" := (Z.land a b) (at level 40, left associativity) : word_scope.
Notation "a << n" := (u32 (Z.shiftl a n)) (at level 34, left associativity) : word_scope.
Notation "a >> n" := (Z.shiftr a n) (at level 34, left associativity) : word_scope.
Notation "∼ a" := (u32 (Z.lnot a)) (at level 30, right associativity) : word_scope.
Open Scope word_scope.

Lemma u32_range z : is_u32 (u32 z).
Proof. apply Z.mod_pos_bound. lia. Qed.

Lemma u64_range z : is_u64 (u64 z).
Proof. apply Z.mod_pos_bound. lia. Qed.

Lemma u64_small z : is_u64 z -> u64 z = z.
Proof. apply Z.mod_small. Qed.

Lemma u64_add_l a b : u64 (u64 a + b) = u64 (a + b).
Proof. apply Zplus_mod_idemp_l. Qed.

Lemma u32_small z : is_u32 z -> u32 z = z.
Proof. apply Z.mod_small. Qed.

Lemma u32_idemp z : u32 (u32 z) = u32 z.
Proof. apply Zmod_mod. Qed.

Lemma u32_add_l a b : u32 (u32 a + b) = u32 (a + b).
Proof. apply Zplus_mod_idemp_l. Qed.

Lemma u32_add_r a b : u32 (a + u32 b) = u32 (a + b).
Proof. apply Zplus_mod_idemp_r. Qed.

(** [u32_ring] proves an equation between two wrapping sums: it drops the
    inner [u32]s on both sides and compares the sums as integers. *)
Definition same32 (a b : Z) : Prop := a mod 2 ^ 32 = b mod 2 ^ 32.

Lemma same32_refl a : same32 a a.
Proof. done. Qed.

Lemma same32_u32 a b : same32 a b -> same32 (u32 a) b.
Proof. intros H. unfold same32, u32. by rewrite Zmod_mod. Qed.

Lemma same32_add a a' b b' : same32 a a' -> same32 b b' -> same32 (a + b) (a' + b').
Proof. unfold same32. intros Ha Hb. by rewrite Zplus_mod, Ha, Hb, <-Zplus_mod. Qed.

Lemma same32_sub a a' b b' : same32 a a' -> same32 b b' -> same32 (a - b) (a' - b').
Proof. unfold same32. intros Ha Hb. by rewrite Zminus_mod, Ha, Hb, <-Zminus_mod. Qed.

Lemma same32_mul a a' b b' : same32 a a' -> same32 b b' -> same32 (a * b) (a' * b').
Proof. unfold same32. intros Ha Hb. by rewrite Zmult_mod, Ha, Hb, <-Zmult_mod. Qed.

Lemma u32_congr a b a' b' : same32 a a' -> same32 b b' -> a' = b' -> u32 a = u32 b.
Proof. unfold same32, u32. congruence. Qed.

Ltac same32 :=
  lazymatch goal with
  | |- same32 (u32 _) _ => apply same32_u32; same32
  | |- same32 (_ + _) _ => apply same32_add; [same32|same32]
  | |- same32 (_ - _) _ => apply same32_sub; [same32|same32]
  | |- same32 (_ * _) _ => apply same32_mul; [same32|same32]
  | |- _ => apply same32_refl
  end.
Ltac u32_ring := eapply u32_congr; [same32|same32|lia].

(** A number is below [2 ^ n] exactly when its high bits are clear. *)
Lemma bits_below n z :
  0 <= n -> 0 <= z -> (forall i, n <= i -> Z.testbit z i = false) -> z < 2 ^ n.
Proof.
  intros Hn Hz Hb. destruct (Z.eq_dec z 0) as [->|Hz0].
  - apply Z.pow_pos_nonneg; lia.
  - apply Z.log2_lt_pow2; [lia|].
    destruct (Z.le_gt_cases n (Z.log2 z)) as [Hle|]; [|done].
    specialize (Hb _ Hle). rewrite Z.bit_log2 in Hb by lia. done.
Qed.

Lemma testbit_high n z i : 0 <= z < 2 ^ n -> n <= i -> Z.testbit z i = false.
Proof.
  intros [H0 Hz] Hi. destruct (Z.eq_dec z 0) as [->|]; [apply Z.bits_0|].
  apply Z.bits_above_log2; [lia|].
  apply Z.log2_lt_pow2 in Hz; lia.
Qed.

Lemma lxor_range n a b :
  0 <= n -> 0 <= a < 2 ^ n -> 0 <= b < 2 ^ n -> 0 <= Z.lxor a b < 2 ^ n.
Proof.
  intros Hn Ha Hb. assert (0 <= Z.lxor a b) by (apply Z.lxor_nonneg; lia).
  split; [done|]. apply bits_below; [done..|]. intros i Hi.
  by rewrite Z.lxor_spec, (testbit_high n a), (testbit_high n b).
Qed.

Lemma lor_range n a b :
  0 <= n -> 0 <= a < 2 ^ n -> 0 <= b < 2 ^ n -> 0 <= Z.lor a b < 2 ^ n.
Proof.
  intros Hn Ha Hb. assert (0 <= Z.lor a b) by (apply Z.lor_nonneg; lia).
  split; [done|]. apply bits_below; [done..|]. intros i Hi.
  by rewrite Z.lor_spec, (testbit_high n a), (testbit_high n b).
Qed.

Lemma land_range_l n a b :
  0 <= n -> 0 <= a < 2 ^ n -> 0 <= Z.land a b < 2 ^ n.
Proof.
  intros Hn Ha. assert (0 <= Z.land a b) by (apply Z.land_nonneg; lia).
  split; [done|]. apply bits_below; [done..|]. intros i Hi.
  by rewrite Z.land_spec, (testbit_high n a).
Qed.

Lemma land_le_r a b : 0 <= b -> Z.land a b <= b.
Proof.
  intros Hb. assert (Z.land (Z.ldiff b a) (Z.land b a) = 0) as Hdisj.
  { apply Z.bits_inj'. intros i _. rewrite !Z.land_spec, Z.ldiff_spec, Z.bits_0.
    by destruct (Z.testbit b i), (Z.testbit a i). }
  pose proof (Z.lor_ldiff_and b a) as Hsum.
  rewrite <-Z.lxor_lor, <-Z.add_nocarry_lxor in Hsum by done.
  assert (0 <= Z.ldiff b a) by (apply Z.ldiff_nonneg; lia).
  rewrite Z.land_comm. lia.
Qed.

Lemma shiftr_range n a k :
  0 <= k -> 0 <= a < 2 ^ n -> 0 <= Z.shiftr a k < 2 ^ n.
Proof.
  intros Hk Ha. rewrite Z.shiftr_div_pow2 by done.
  assert (0 < 2 ^ k) by (apply Z.pow_pos_nonneg; lia).
  split; [apply Z.div_pos; lia|].
  apply Z.le_lt_trans with a; [|lia]. apply Z.div_le_upper_bound; nia.
Qed.

(** A number below [2 ^ n] and one shifted by [n] do not overlap. *)
Lemma lor_shiftl n a b : 0 <= n -> 0 <= a < 2 ^ n -> Z.lor a (Z.shiftl b n) = a + 2 ^ n * b.
Proof.
  intros Hn Ha. rewrite <-Z.lxor_lor, <-Z.add_nocarry_lxor, Z.shiftl_mul_pow2 by
    (lia || (apply Z.bits_inj'; intros i Hi; rewrite Z.land_spec, Z.bits_0;
             destruct (Z.lt_ge_cases i n);
             [rewrite (Z.shiftl_spec_low _ n) by lia; apply andb_false_r
             |by rewrite (testbit_high n)])).
  lia.
Qed.

Lemma uchar_u32 b : is_u32 (uchar b).
Proof. pose proof (uchar_range b). lia. Qed.

Create HintDb words discriminated.
#[export] Hint Resolve u32_range u64_range uchar_range uchar_u32 : words.
#[export] Hint Extern 3 (0 <= Z.lxor _ _ < _) => apply lxor_range; [lia| |] : words.
#[export] Hint Extern 3 (0 <= Z.lor _ _ < _) => apply lor_range; [lia| |] : words.
#[export] Hint Extern 3 (0 <= Z.land _ _ < _) => apply land_range_l; [lia|] : words.
#[export] Hint Extern 3 (0 <= Z.shiftr _ _ < _) => apply shiftr_range; [lia|] : words.
#[export] Hint Extern 9 (_ <= _ < _) => lia : words.

(** * Lists *)

Lemma fold_left_inv {A B} (P : A -> Prop) (f : A -> B -> A) l a :
  P a -> (forall a b, P a -> P (f a b)) -> P (fold_left f l a).
Proof. intros Ha Hf. revert a Ha. induction l; simpl; auto. Qed.

Lemma fold_left_ext {A B} (P : A -> Prop) (f g : A -> B -> A) l a :
  P a -> (forall a b, P a -> P (f a b)) -> (forall a b, P a -> f a b = g a b) ->
  fold_left f l a = fold_left g l a.
Proof.
  intros Ha Hf Hg. revert a Ha. induction l as [|b l IH]; simpl; [done|].
  intros a Ha. rewrite <-Hg by done. auto.
Qed.

(** A [flat_map] whose pieces all have [c] elements, read at position [k] of
    piece [i]. *)
Lemma flat_map_length {A} (f : nat -> list A) c s n :
  (forall i, length (f i) = c) -> length (flat_map f (seq s n)) = (c * n)%nat.
Proof.
  intros Hc. revert s. induction n as [|n IH]; intros s; simpl; [lia|].
  rewrite length_app, Hc, IH. lia.
Qed.

Lemma flat_map_nth {A} (f : nat -> list A) c n s i k d :
  (forall i, length (f i) = c) -> (k < c)%nat -> (i < n)%nat ->
  nth (c * i + k) (flat_map f (seq s n)) d = nth k (f (s + i)%nat) d.
Proof.
  intros Hc Hk. revert s i. induction n as [|n IH]; intros s i Hi; [lia|]. simpl.
  destruct i as [|i].
  - rewrite app_nth1 by (rewrite Hc; lia). f_equal; [lia|f_equal; lia].
  - rewrite app_nth2 by (rewrite Hc; lia). rewrite Hc.
    replace (c * S i + k - c)%nat with (c * i + k)%nat by lia.
    rewrite IH by lia. do 2 f_equal. lia.
Qed.

Lemma nth_map_seq {A} (f : nat -> A) n i d : (i < n)%nat -> nth i (map f (seq 0 n)) d = f i.
Proof.
  intros Hi. rewrite (nth_indep _ _ (f 0%nat)) by (by rewrite length_map, length_seq).
  by rewrite map_nth, seq_nth.
Qed.

(** Two lists of the same length that agree at every index. *)
Lemma nth_eq {A} (l l' : list A) d :
  length l = length l' -> (forall i, (i < length l)%nat -> nth i l d = nth i l' d) -> l = l'.
Proof. intros Hlen Hi. by apply (nth_ext _ _ d d). Qed.

Lemma filter_none {A} (P : A -> Prop) `{!forall x, Decision (P x)} (l : list A) :
  (forall x, x ∈ l -> ~ P x) -> filter P l = [].
Proof.
  induction l as [|x l IH]; intros HP; [done|].
  rewrite filter_cons_False by (apply HP; left). apply IH. intros y Hy. apply HP. by right.
Qed.

Lemma filter_all {A} (P : A -> Prop) `{!forall x, Decision (P x)} (l : list A) :
  (forall x, x ∈ l -> P x) -> filter P l = l.
Proof.
  induction l as [|x l IH]; intros HP; [done|].
  rewrite filter_cons_True by (apply HP; left). f_equal. apply IH. intros y Hy. apply HP. by right.
Qed.

Lemma filter_same_length {A} (P : A -> Prop) `{!forall x, Decision (P x)} (l : list A) :
  length (filter P l) = length l -> filter P l = l.
Proof.
  induction l as [|x l IH]; intros Hlen; [done|]. destruct (decide (P x)).
  - rewrite filter_cons_True in * by done. f_equal. apply IH. by injection Hlen.
  - rewrite filter_cons_False in Hlen by done. pose proof (length_filter P l). simpl in Hlen. lia.
Qed.

Lemma filter_iff_in {A} (P Q : A -> Prop) `{!forall x, Decision (P x), !forall x, Decision (Q x)}
    (l : list A) :
  (forall x, x ∈ l -> P x <-> Q x) -> filter P l = filter Q l.
Proof.
  induction l as [|x l IH]; intros HPQ; [done|].
  assert (filter P l = filter Q l) as E by (apply IH; intros y Hy; apply HPQ; by right).
  destruct (decide (P x)).
  - rewrite !filter_cons_True, E; [done| |done]. by apply HPQ; [left|].
  - rewrite !filter_cons_False, E; [done| |done]. by rewrite <-HPQ by left.
Qed.

(** * Updating a field of a record *)

(** [r <| field := v |>] is [r] with a new value in [field], and
    [r <| field ::= f |>] applies [f] to the old value.  A record takes part by
    giving its fields once, as an instance of [Fields]. *)
Class Fields (R : Type) := rebuild : R -> R.
Class Update {R T : Type} (field : R -> T) := update : (T -> T) -> R -> R.
Arguments update {R T} field {_} _ _.

Ltac derive_update :=
  lazymatch goal with
  | |- @Update ?R ?T ?field =>
      let inst := constr:(_ : Fields R) in
      let all := eval hnf in inst in
      let abstracted := eval pattern field in all in
      lazymatch abstracted with
      | ?g field => exact (fun (f : T -> T) (r : R) => g (fun r => f (field r)) r)
      end
  end.
#[export] Hint Extern 1 (Update _) => derive_update : typeclass_instances.

Notation "r <| p := v |>" := (update p (fun _ => v) r)
  (at level 1, left associativity, p at level 11, v at level 60).
Notation "r <| p ::= f |>" := (update p f r)
  (at level 1, left associativity, p at level 11, f at level 60).
