(* ===== verification/HashFunctions.v ===== *)
(** The byte-wise hash functions of libhashkit: one_at_a_time.cc, fnv_32.cc,
    fnv_64.cc, hsieh.cc, murmur.cc and crc32.cc.

    A key is the list of its [key_length] bytes; a [while (key_length--)] loop
    is a fold over them, a loop that consumes four bytes at a time a recursion
    on the list.  [BuildConfig] holds the three configure switches that remove
    a function's body. *)
From S2P Require Import Prelude.

(** [HAVE_FNV64_HASH] (with a 64-bit word size), [HAVE_HSIEH_HASH] and
    [HAVE_MURMUR_HASH]: configure.ac decides them. *)
Class BuildConfig := {
  have_fnv64_hash : bool;
  have_hsieh_hash : bool;
  have_murmur_hash : bool;
}.

(** ** Definitions *)

(** [(uint32_t) c] for a [char] [c]: the sign is extended. *)
Definition char_u32 (b : byte) : Z := u32 (schar b).

(** A little-endian load of [n] bytes. *)
Fixpoint load_le (bs : bytes) : Z :=
  match bs with
  | [] => 0
  | b :: bs' => uchar b .| Z.shiftl (load_le bs') 8
  end.

Definition one_at_a_time_step (value : Z) (c : byte) : Z :=
  let val := char_u32 c in
  let value := value ⊞ val in
  let value := value ⊞ (value << 10) in
  value ⊕ (value >> 6).

Definition hashkit_one_at_a_time (key : bytes) : Z :=
  let value := fold_left one_at_a_time_step key 0 in
  let value := value ⊞ (value << 3) in
  let value := value ⊕ (value >> 11) in
  value ⊞ (value << 15).

Definition FNV_32_INIT : Z := 2166136261.
Definition FNV_32_PRIME : Z := 16777619.

Definition hashkit_fnv1_32 (key : bytes) : Z :=
  fold_left (fun hash c => (hash ⊠ FNV_32_PRIME) ⊕ char_u32 c) key FNV_32_INIT.

Definition hashkit_fnv1a_32 (key : bytes) : Z :=
  fold_left (fun hash c => (hash ⊕ char_u32 c) ⊠ FNV_32_PRIME) key FNV_32_INIT.

Definition FNV_64_INIT : Z := 0xcbf29ce484222325.
Definition FNV_64_PRIME : Z := 0x100000001b3.

Definition hashkit_fnv1_64 `{BuildConfig} (key : bytes) : Z :=
  if have_fnv64_hash then
    u32 (fold_left
           (fun hash c => (hash ⊠₆₄ FNV_64_PRIME) ⊕ u64 (schar c))
           key FNV_64_INIT)
  else 0.

(** The 64-bit FNV-1a keeps a 32-bit accumulator. *)
Definition hashkit_fnv1a_64 `{BuildConfig} (key : bytes) : Z :=
  if have_fnv64_hash then
    fold_left
      (fun hash c => (hash ⊕ char_u32 c) ⊠ u32 FNV_64_PRIME)
      key (u32 FNV_64_INIT)
  else 0.

(** *** hsieh.cc *)

Definition get16bits (b0 b1 : byte) : Z := (uchar b1 << 8) ⊞ uchar b0.

Definition hsieh_round (hash : Z) (b0 b1 b2 b3 : byte) : Z :=
  let hash := hash ⊞ get16bits b0 b1 in
  let tmp := (get16bits b2 b3 << 11) ⊕ hash in
  let hash := (hash << 16) ⊕ tmp in
  hash ⊞ (hash >> 11).

(** The switch on [rem], the one to three bytes after the main loop. *)
Definition hsieh_tail (hash : Z) (key : bytes) : Z :=
  match key with
  | [b0; b1; b2] =>
      let hash := hash ⊞ get16bits b0 b1 in
      let hash := hash ⊕ (hash << 16) in
      let hash := hash ⊕ (char_u32 b2 << 18) in
      hash ⊞ (hash >> 11)
  | [b0; b1] =>
      let hash := hash ⊞ get16bits b0 b1 in
      let hash := hash ⊕ (hash << 11) in
      hash ⊞ (hash >> 17)
  | [b0] =>
      let hash := hash ⊞ uchar b0 in
      let hash := hash ⊕ (hash << 10) in
      hash ⊞ (hash >> 1)
  | _ => hash
  end.

Fixpoint hsieh_loop (hash : Z) (key : bytes) : Z :=
  match key with
  | b0 :: b1 :: b2 :: b3 :: key' => hsieh_loop (hsieh_round hash b0 b1 b2 b3) key'
  | _ => hsieh_tail hash key
  end.

Definition hashkit_hsieh `{BuildConfig} (key : bytes) : Z :=
  if have_hsieh_hash then
    match key with
    | [] => 0
    | _ =>
        let hash := hsieh_loop 0 key in
        let hash := hash ⊕ (hash << 3) in
        let hash := hash ⊞ (hash >> 5) in
        let hash := hash ⊕ (hash << 4) in
        let hash := hash ⊞ (hash >> 17) in
        let hash := hash ⊕ (hash << 25) in
        hash ⊞ (hash >> 6)
    end
  else 0.

(** *** murmur.cc *)

Definition murmur_m : Z := 0x5bd1e995.

Definition murmur_round (h : Z) (chunk : bytes) : Z :=
  let k := load_le chunk in
  let k := k ⊠ murmur_m in
  let k := k ⊕ (k >> 24) in
  let k := k ⊠ murmur_m in
  (h ⊠ murmur_m) ⊕ k.

(** The switch with its fall-through cases. *)
Definition murmur_tail (h : Z) (data : bytes) : Z :=
  match data with
  | [d0; d1; d2] =>
      (h ⊕ (uchar d2 << 16) ⊕ (uchar d1 << 8) ⊕ uchar d0) ⊠ murmur_m
  | [d0; d1] => (h ⊕ (uchar d1 << 8) ⊕ uchar d0) ⊠ murmur_m
  | [d0] => (h ⊕ uchar d0) ⊠ murmur_m
  | _ => h
  end.

Fixpoint murmur_loop (h : Z) (data : bytes) : Z :=
  match data with
  | d0 :: d1 :: d2 :: d3 :: data' => murmur_loop (murmur_round h [d0; d1; d2; d3]) data'
  | _ => murmur_tail h data
  end.

Definition hashkit_murmur `{BuildConfig} (key : bytes) : Z :=
  if have_murmur_hash then
    let length := u32 (Z.of_nat (length key)) in
    let seed := 0xdeadbeef ⊠ length in
    let h := murmur_loop (seed ⊕ length) key in
    let h := h ⊕ (h >> 13) in
    let h := h ⊠ murmur_m in
    h ⊕ (h >> 15)
  else 0.

(** *** crc32.cc *)

Definition crc32tab : list Z := [
  0x00000000; 0x77073096; 0xee0e612c; 0x990951ba;
  0x076dc419; 0x706af48f; 0xe963a535; 0x9e6495a3;
  0x0edb8832; 0x79dcb8a4; 0xe0d5e91e; 0x97d2d988;
  0x09b64c2b; 0x7eb17cbd; 0xe7b82d07; 0x90bf1d91;
  0x1db71064; 0x6ab020f2; 0xf3b97148; 0x84be41de;
  0x1adad47d; 0x6ddde4eb; 0xf4d4b551; 0x83d385c7;
  0x136c9856; 0x646ba8c0; 0xfd62f97a; 0x8a65c9ec;
  0x14015c4f; 0x63066cd9; 0xfa0f3d63; 0x8d080df5;
  0x3b6e20c8; 0x4c69105e; 0xd56041e4; 0xa2677172;
  0x3c03e4d1; 0x4b04d447; 0xd20d85fd; 0xa50ab56b;
  0x35b5a8fa; 0x42b2986c; 0xdbbbc9d6; 0xacbcf940;
  0x32d86ce3; 0x45df5c75; 0xdcd60dcf; 0xabd13d59;
  0x26d930ac; 0x51de003a; 0xc8d75180; 0xbfd06116;
  0x21b4f4b5; 0x56b3c423; 0xcfba9599; 0xb8bda50f;
  0x2802b89e; 0x5f058808; 0xc60cd9b2; 0xb10be924;
  0x2f6f7c87; 0x58684c11; 0xc1611dab; 0xb6662d3d;
  0x76dc4190; 0x01db7106; 0x98d220bc; 0xefd5102a;
  0x71b18589; 0x06b6b51f; 0x9fbfe4a5; 0xe8b8d433;
  0x7807c9a2; 0x0f00f934; 0x9609a88e; 0xe10e9818;
  0x7f6a0dbb; 0x086d3d2d; 0x91646c97; 0xe6635c01;
  0x6b6b51f4; 0x1c6c6162; 0x856530d8; 0xf262004e;
  0x6c0695ed; 0x1b01a57b; 0x8208f4c1; 0xf50fc457;
  0x65b0d9c6; 0x12b7e950; 0x8bbeb8ea; 0xfcb9887c;
  0x62dd1ddf; 0x15da2d49; 0x8cd37cf3; 0xfbd44c65;
  0x4db26158; 0x3ab551ce; 0xa3bc0074; 0xd4bb30e2;
  0x4adfa541; 0x3dd895d7; 0xa4d1c46d; 0xd3d6f4fb;
  0x4369e96a; 0x346ed9fc; 0xad678846; 0xda60b8d0;
  0x44042d73; 0x33031de5; 0xaa0a4c5f; 0xdd0d7cc9;
  0x5005713c; 0x270241aa; 0xbe0b1010; 0xc90c2086;
  0x5768b525; 0x206f85b3; 0xb966d409; 0xce61e49f;
  0x5edef90e; 0x29d9c998; 0xb0d09822; 0xc7d7a8b4;
  0x59b33d17; 0x2eb40d81; 0xb7bd5c3b; 0xc0ba6cad;
  0xedb88320; 0x9abfb3b6; 0x03b6e20c; 0x74b1d29a;
  0xead54739; 0x9dd277af; 0x04db2615; 0x73dc1683;
  0xe3630b12; 0x94643b84; 0x0d6d6a3e; 0x7a6a5aa8;
  0xe40ecf0b; 0x9309ff9d; 0x0a00ae27; 0x7d079eb1;
  0xf00f9344; 0x8708a3d2; 0x1e01f268; 0x6906c2fe;
  0xf762575d; 0x806567cb; 0x196c3671; 0x6e6b06e7;
  0xfed41b76; 0x89d32be0; 0x10da7a5a; 0x67dd4acc;
  0xf9b9df6f; 0x8ebeeff9; 0x17b7be43; 0x60b08ed5;
  0xd6d6a3e8; 0xa1d1937e; 0x38d8c2c4; 0x4fdff252;
  0xd1bb67f1; 0xa6bc5767; 0x3fb506dd; 0x48b2364b;
  0xd80d2bda; 0xaf0a1b4c; 0x36034af6; 0x41047a60;
  0xdf60efc3; 0xa867df55; 0x316e8eef; 0x4669be79;
  0xcb61b38c; 0xbc66831a; 0x256fd2a0; 0x5268e236;
  0xcc0c7795; 0xbb0b4703; 0x220216b9; 0x5505262f;
  0xc5ba3bbe; 0xb2bd0b28; 0x2bb45a92; 0x5cb36a04;
  0xc2d7ffa7; 0xb5d0cf31; 0x2cd99e8b; 0x5bdeae1d;
  0x9b64c2b0; 0xec63f226; 0x756aa39c; 0x026d930a;
  0x9c0906a9; 0xeb0e363f; 0x72076785; 0x05005713;
  0x95bf4a82; 0xe2b87a14; 0x7bb12bae; 0x0cb61b38;
  0x92d28e9b; 0xe5d5be0d; 0x7cdcefb7; 0x0bdbdf21;
  0x86d3d2d4; 0xf1d4e242; 0x68ddb3f8; 0x1fda836e;
  0x81be16cd; 0xf6b9265b; 0x6fb077e1; 0x18b74777;
  0x88085ae6; 0xff0f6a70; 0x66063bca; 0x11010b5c;
  0x8f659eff; 0xf862ae69; 0x616bffd3; 0x166ccf45;
  0xa00ae278; 0xd70dd2ee; 0x4e048354; 0x3903b3c2;
  0xa7672661; 0xd06016f7; 0x4969474d; 0x3e6e77db;
  0xaed16a4a; 0xd9d65adc; 0x40df0b66; 0x37d83bf0;
  0xa9bcae53; 0xdebb9ec5; 0x47b2cf7f; 0x30b5ffe9;
  0xbdbdf21c; 0xcabac28a; 0x53b39330; 0x24b4a3a6;
  0xbad03605; 0xcdd70693; 0x54de5729; 0x23d967bf;
  0xb3667a2e; 0xc4614ab8; 0x5d681b02; 0x2a6f2b94;
  0xb40bbe37; 0xc30c8ea1; 0x5a05df1b; 0x2d02ef8d
].

Definition crc32_step (crc : Z) (c : byte) : Z :=
  (crc >> 8) ⊕ nth (Z.to_nat ((crc ⊕ u64 (schar c)) .& 0xff)) crc32tab 0.

Definition hashkit_crc32 (key : bytes) : Z :=
  let crc := fold_left crc32_step key 0xffffffff in
  (∼ crc >> 16) .& 0x7fff.

(** ** Every hash fits a [uint32_t] *)

Lemma char_u32_range b : is_u32 (char_u32 b).
Proof. apply u32_range. Qed.

#[export] Hint Resolve char_u32_range : words.

Lemma load_le_range bs : 0 <= load_le bs < 2 ^ (8 * Z.of_nat (length bs)).
Proof.
  induction bs as [|b bs IH]; [simpl; lia|].
  cbn [load_le length]. apply lor_range; [lia| |].
  - pose proof (uchar_range b). split; [lia|].
    apply Z.lt_le_trans with (2 ^ 8); [lia|]. apply Z.pow_le_mono_r; lia.
  - rewrite Z.shiftl_mul_pow2 by lia.
    replace (8 * Z.of_nat (S (length bs))) with (8 * Z.of_nat (length bs) + 8) by lia.
    rewrite Z.pow_add_r by lia. lia.
Qed.

Lemma load_le_cons b bs : load_le (b :: bs) = uchar b + 256 * load_le bs.
Proof.
  cbn [load_le]. rewrite lor_shiftl by (lia || apply uchar_range). done.
Qed.

Lemma one_at_a_time_range key : is_u32 (hashkit_one_at_a_time key).
Proof. apply u32_range. Qed.

Lemma fnv1_32_range key : is_u32 (hashkit_fnv1_32 key).
Proof.
  unfold hashkit_fnv1_32, FNV_32_INIT.
  apply fold_left_inv; auto with words.
Qed.

Lemma fnv1a_32_range key : is_u32 (hashkit_fnv1a_32 key).
Proof.
  unfold hashkit_fnv1a_32, FNV_32_INIT.
  apply fold_left_inv; auto with words.
Qed.

Section Ranges.
Context `{BuildConfig}.

Lemma fnv1_64_range key : is_u32 (hashkit_fnv1_64 key).
Proof. unfold hashkit_fnv1_64. case_match; auto with words. Qed.

Lemma fnv1a_64_range key : is_u32 (hashkit_fnv1a_64 key).
Proof.
  unfold hashkit_fnv1a_64. case_match; [|lia].
  apply fold_left_inv; auto with words.
Qed.

Lemma hsieh_range key : is_u32 (hashkit_hsieh key).
Proof.
  unfold hashkit_hsieh. case_match; [|lia].
  destruct key; auto with words.
Qed.

Lemma murmur_range key : is_u32 (hashkit_murmur key).
Proof.
  unfold hashkit_murmur. case_match; [|lia]. auto 6 with words.
Qed.
End Ranges.

(** ** crc32.cc computes the bit-serial CRC-32 *)

(** One step of the reflected CRC-32 register, polynomial [0xedb88320]. *)
Definition crc_bit (x : Z) : Z :=
  if Z.odd x then (x >> 1) ⊕ 0xedb88320 else x >> 1.

Definition crc_bits (n : nat) (x : Z) : Z := Nat.iter n crc_bit x.

(** The reference: the eight bits of each byte are shifted through in turn. *)
Definition crc32_bitwise (key : bytes) : Z :=
  ∼ (fold_left (fun crc c => crc_bits 8 (crc ⊕ uchar c)) key 0xffffffff).

Lemma crc_bit_lxor a b : crc_bit (a ⊕ b) = crc_bit a ⊕ crc_bit b.
Proof.
  unfold crc_bit. rewrite Z.shiftr_lxor, <-!Z.bit0_odd, Z.lxor_spec.
  destruct (Z.testbit a 0), (Z.testbit b 0); simpl xorb; cbn [xorb];
    apply Z.bits_inj'; intros i _; rewrite !Z.lxor_spec;
    by destruct (Z.testbit (a >> 1) i), (Z.testbit (b >> 1) i),
      (Z.testbit 0xedb88320 i).
Qed.

Lemma crc_bits_lxor n a b : crc_bits n (a ⊕ b) = crc_bits n a ⊕ crc_bits n b.
Proof.
  induction n as [|n IH]; [done|].
  unfold crc_bits in *. simpl. by rewrite IH, crc_bit_lxor.
Qed.

Lemma crc_bits_shiftl n x : crc_bits n (Z.shiftl x (Z.of_nat n)) = x.
Proof.
  revert x. induction n as [|n IH]; intros x; [apply Z.shiftl_0_r|].
  unfold crc_bits. rewrite Nat.iter_succ_r. fold (crc_bits n).
  rewrite <-(IH x) at 2. f_equal. unfold crc_bit.
  rewrite <-Z.bit0_odd, Z.shiftl_spec_low by lia.
  rewrite Z.shiftr_shiftl_l by lia. f_equal. lia.
Qed.

(** A low byte and the bits above it. *)
Lemma split_low_byte x : x = Z.shiftl (x >> 8) 8 ⊕ (x .& 0xff).
Proof.
  apply Z.bits_inj'. intros i Hi. rewrite Z.lxor_spec, Z.land_spec.
  change 0xff with (Z.ones 8). destruct (Z.lt_ge_cases i 8).
  - rewrite Z.shiftl_spec_low, Z.ones_spec_low by lia. by destruct (Z.testbit x i).
  - rewrite Z.shiftl_spec, Z.shiftr_spec, Z.ones_spec_high by lia.
    rewrite Z.sub_add. by destruct (Z.testbit x i).
Qed.

Lemma crc32tab_spec i :
  (i < 256)%nat -> nth i crc32tab 0 = crc_bits 8 (Z.of_nat i).
Proof.
  intros Hi.
  assert (forallb (fun j => nth j crc32tab 0 =? crc_bits 8 (Z.of_nat j)) (seq 0 256) = true)
    as Hall by (vm_compute; reflexivity).
  rewrite forallb_forall in Hall. apply Z.eqb_eq, Hall, in_seq. lia.
Qed.

Lemma land_ff_schar x c : (x ⊕ u64 (schar c)) .& 0xff = (x ⊕ uchar c) .& 0xff.
Proof.
  change 0xff with (Z.ones 8).
  apply Z.bits_inj'. intros i Hi. rewrite !Z.land_spec, !Z.lxor_spec.
  destruct (Z.lt_ge_cases i 8); [|by rewrite Z.ones_spec_high, !andb_false_r by lia].
  assert (Z.testbit (u64 (schar c)) i = Z.testbit (uchar c) i) as ->; [|done].
  rewrite <-(schar_mod c (2 ^ 64)) by (reflexivity || by exists (2 ^ 56)).
  change 256 with (2 ^ 8). by rewrite Z.mod_pow2_bits_low by lia.
Qed.

Lemma crc32_step_bitwise crc c :
  is_u32 crc -> crc32_step crc c = crc_bits 8 (crc ⊕ uchar c).
Proof.
  intros Hcrc. unfold crc32_step. rewrite land_ff_schar.
  set (x := crc ⊕ uchar c).
  assert (0 <= x .& 0xff < 2 ^ 8).
  { rewrite Z.land_comm. apply land_range_l; lia. }
  rewrite crc32tab_spec, Z2Nat.id by lia.
  rewrite (split_low_byte x) at 2. rewrite crc_bits_lxor.
  change 8 with (Z.of_nat 8) at 2. rewrite crc_bits_shiftl.
  f_equal. subst x. rewrite Z.shiftr_lxor.
  rewrite (Z.shiftr_div_pow2 (uchar c)), Z.div_small, Z.lxor_0_r by
    (pose proof (uchar_range c); lia). done.
Qed.

Lemma crc_bit_range x : is_u32 x -> is_u32 (crc_bit x).
Proof. intros Hx. unfold crc_bit. case_match; auto with words. Qed.

Lemma crc_bits_range n x : is_u32 x -> is_u32 (crc_bits n x).
Proof. intros Hx. induction n; [done|]. by apply crc_bit_range. Qed.

#[export] Hint Resolve crc_bits_range : words.

(** C32: the table-driven CRC of crc32.cc is the standard bit-serial CRC-32 of
    the key, of which the code returns bits 16 to 30. *)
Theorem hashkit_crc32_bitwise key :
  hashkit_crc32 key = (crc32_bitwise key >> 16) .& 0x7fff.
Proof.
  unfold hashkit_crc32, crc32_bitwise. do 4 f_equal.
  apply (fold_left_ext (fun z => is_u32 z)); [lia| |].
  - intros crc c Hcrc. rewrite crc32_step_bitwise by done. auto with words.
  - intros crc c. apply crc32_step_bitwise.
Qed.

Lemma crc32_range key : 0 <= hashkit_crc32 key < 2 ^ 15.
Proof.
  unfold hashkit_crc32. rewrite Z.land_comm. apply land_range_l; lia.
Qed.
