(* ===== verification/Jenkins.v ===== *)
(** Bob Jenkins' lookup3, libhashkit/jenkins.cc.

    The function reads its key through 32-bit words, 16-bit halves or single
    bytes, depending on the alignment of the key's address; the word path
    also reads past the end of the key and masks the excess off.  Memory is a
    function from addresses to bytes, little-endian as on the targets the
    paths are compiled for, so both facts are visible, and the main theorem
    says that neither matters. *)
From S2P Require Import Prelude HashFunctions.

(** ** Definitions *)

(** The internal state [a], [b], [c]. *)
Definition abc : Type := Z * Z * Z.

Definition rot (x k : Z) : Z := (x << k) .| (x >> (32 - k)).

Definition JENKINS_MIX (s : abc) : abc :=
  let '(a, b, c) := s in
  let a := a ⊟ c in let a := a ⊕ rot c 4 in  let c := c ⊞ b in
  let b := b ⊟ a in let b := b ⊕ rot a 6 in  let a := a ⊞ c in
  let c := c ⊟ b in let c := c ⊕ rot b 8 in  let b := b ⊞ a in
  let a := a ⊟ c in let a := a ⊕ rot c 16 in let c := c ⊞ b in
  let b := b ⊟ a in let b := b ⊕ rot a 19 in let a := a ⊞ c in
  let c := c ⊟ b in let c := c ⊕ rot b 4 in  let b := b ⊞ a in
  (a, b, c).

Definition JENKINS_FINAL (s : abc) : abc :=
  let '(a, b, c) := s in
  let c := c ⊕ b in let c := c ⊟ rot b 14 in
  let a := a ⊕ c in let a := a ⊟ rot c 11 in
  let b := b ⊕ a in let b := b ⊟ rot a 25 in
  let c := c ⊕ b in let c := c ⊟ rot b 16 in
  let a := a ⊕ c in let a := a ⊟ rot c 4 in
  let b := b ⊕ a in let b := b ⊟ rot a 14 in
  let c := c ⊕ b in let c := c ⊟ rot b 24 in
  (a, b, c).

Definition JENKINS_INITVAL : Z := 13.

(** [while (length > 12) { add; JENKINS_MIX; length -= 12; k += 12 bytes; }]:
    twelve successors of a positive number.  [add] is what the three versions
    of the loop differ in. *)
Fixpoint jenkins_loop (add : Z -> abc -> abc) (k : Z) (length : nat) (s : abc)
    : Z * nat * abc :=
  match length with
  | S (S (S (S (S (S (S (S (S (S (S (S (S _ as length')))))))))))) =>
      jenkins_loop add (k + 12) length' (JENKINS_MIX (add k s))
  | _ => (k, length, s)
  end.

(** After the loop: the switch on the remaining [length], where [None] stands
    for its two [return c] cases, then JENKINS_FINAL. *)
Definition jenkins_run (add : Z -> abc -> abc) (tail : Z -> nat -> abc -> option abc)
    (key : Z) (length : nat) : Z :=
  let init := 0xdeadbeef ⊞ u32 (Z.of_nat length) ⊞ JENKINS_INITVAL in
  let '(k, length, s) := jenkins_loop add key length (init, init, init) in
  match tail k length s with
  | Some s => let '(_, _, c) := JENKINS_FINAL s in c
  | None => let '(_, _, c) := s in c
  end.

Section Memory.
Variable mem : Z -> byte.

Definition load8 (p : Z) : Z := uchar (mem p).
Definition load16 (p : Z) : Z := load_le [mem p; mem (p + 1)].
Definition load32 (p : Z) : Z :=
  load_le [mem p; mem (p + 1); mem (p + 2); mem (p + 3)].

(** *** [(u.i & 0x3) == 0]: aligned 32-bit reads, [k[i]] is at [p + 4 i] *)

Definition add32 (p : Z) (s : abc) : abc :=
  let '(a, b, c) := s in
  (a ⊞ load32 p, b ⊞ load32 (p + 4), c ⊞ load32 (p + 8)).

Definition tail32 (p : Z) (length : nat) (s : abc) : option abc :=
  let '(a, b, c) := s in
  let k0 := load32 p in
  let k1 := load32 (p + 4) in
  let k2 := load32 (p + 8) in
  match length with
  | 12%nat => Some (a ⊞ k0, b ⊞ k1, c ⊞ k2)
  | 11%nat => Some (a ⊞ k0, b ⊞ k1, c ⊞ (k2 .& 0xffffff))
  | 10%nat => Some (a ⊞ k0, b ⊞ k1, c ⊞ (k2 .& 0xffff))
  | 9%nat => Some (a ⊞ k0, b ⊞ k1, c ⊞ (k2 .& 0xff))
  | 8%nat => Some (a ⊞ k0, b ⊞ k1, c)
  | 7%nat => Some (a ⊞ k0, b ⊞ (k1 .& 0xffffff), c)
  | 6%nat => Some (a ⊞ k0, b ⊞ (k1 .& 0xffff), c)
  | 5%nat => Some (a ⊞ k0, b ⊞ (k1 .& 0xff), c)
  | 4%nat => Some (a ⊞ k0, b, c)
  | 3%nat => Some (a ⊞ (k0 .& 0xffffff), b, c)
  | 2%nat => Some (a ⊞ (k0 .& 0xffff), b, c)
  | 1%nat => Some (a ⊞ (k0 .& 0xff), b, c)
  | _ => None
  end.

(** *** [(u.i & 0x1) == 0]: 16-bit reads, [k[i]] is at [p + 2 i] *)

Definition add16 (p : Z) (s : abc) : abc :=
  let '(a, b, c) := s in
  (a ⊞ (load16 p ⊞ (load16 (p + 2) << 16)),
   b ⊞ (load16 (p + 4) ⊞ (load16 (p + 6) << 16)),
   c ⊞ (load16 (p + 8) ⊞ (load16 (p + 10) << 16))).

Definition tail16 (p : Z) (length : nat) (s : abc) : option abc :=
  let '(a, b, c) := s in
  let k := fun i => load16 (p + 2 * i) in
  let k8 := fun i => load8 (p + i) in
  match length with
  | 12%nat => Some (a ⊞ (k 0 ⊞ (k 1 << 16)), b ⊞ (k 2 ⊞ (k 3 << 16)),
                    c ⊞ (k 4 ⊞ (k 5 << 16)))
  | 11%nat => Some (a ⊞ (k 0 ⊞ (k 1 << 16)), b ⊞ (k 2 ⊞ (k 3 << 16)),
                    c ⊞ (k8 10 << 16) ⊞ k 4)
  | 10%nat => Some (a ⊞ (k 0 ⊞ (k 1 << 16)), b ⊞ (k 2 ⊞ (k 3 << 16)), c ⊞ k 4)
  | 9%nat => Some (a ⊞ (k 0 ⊞ (k 1 << 16)), b ⊞ (k 2 ⊞ (k 3 << 16)), c ⊞ k8 8)
  | 8%nat => Some (a ⊞ (k 0 ⊞ (k 1 << 16)), b ⊞ (k 2 ⊞ (k 3 << 16)), c)
  | 7%nat => Some (a ⊞ (k 0 ⊞ (k 1 << 16)), b ⊞ (k8 6 << 16) ⊞ k 2, c)
  | 6%nat => Some (a ⊞ (k 0 ⊞ (k 1 << 16)), b ⊞ k 2, c)
  | 5%nat => Some (a ⊞ (k 0 ⊞ (k 1 << 16)), b ⊞ k8 4, c)
  | 4%nat => Some (a ⊞ (k 0 ⊞ (k 1 << 16)), b, c)
  | 3%nat => Some (a ⊞ (k8 2 << 16) ⊞ k 0, b, c)
  | 2%nat => Some (a ⊞ k 0, b, c)
  | 1%nat => Some (a ⊞ k8 0, b, c)
  | _ => None
  end.

(** *** One byte at a time *)

Definition add8 (p : Z) (s : abc) : abc :=
  let '(a, b, c) := s in
  let k := fun i => load8 (p + i) in
  (a ⊞ k 0 ⊞ (k 1 << 8) ⊞ (k 2 << 16) ⊞ (k 3 << 24),
   b ⊞ k 4 ⊞ (k 5 << 8) ⊞ (k 6 << 16) ⊞ (k 7 << 24),
   c ⊞ k 8 ⊞ (k 9 << 8) ⊞ (k 10 << 16) ⊞ (k 11 << 24)).

(** Every case falls through to the ones below it. *)
Definition tail8 (p : Z) (length : nat) (s : abc) : option abc :=
  let '(a, b, c) := s in
  let k := fun i => load8 (p + i) in
  let from := fun n (v : Z) w => if (n <=? length)%nat then v ⊞ w else v in
  let c := from 12%nat c (k 11 << 24) in
  let c := from 11%nat c (k 10 << 16) in
  let c := from 10%nat c (k 9 << 8) in
  let c := from 9%nat c (k 8) in
  let b := from 8%nat b (k 7 << 24) in
  let b := from 7%nat b (k 6 << 16) in
  let b := from 6%nat b (k 5 << 8) in
  let b := from 5%nat b (k 4) in
  let a := from 4%nat a (k 3 << 24) in
  let a := from 3%nat a (k 2 << 16) in
  let a := from 2%nat a (k 1 << 8) in
  let a := from 1%nat a (k 0) in
  if (length =? 0)%nat || (12 <? length)%nat then None else Some (a, b, c).

Definition hashkit_jenkins_at (key : Z) (length : nat) : Z :=
  if key .& 0x3 =? 0 then jenkins_run add32 tail32 key length
  else if key .& 0x1 =? 0 then jenkins_run add16 tail16 key length
  else jenkins_run add8 tail8 key length.
End Memory.

(** The hash of a key as a value: the key placed at address 1. *)
Definition hashkit_jenkins (key : bytes) : Z :=
  hashkit_jenkins_at (fun p => nth (Z.to_nat (p - 1)) key Byte.x00) 1 (length key).

(** ** The loop *)

Lemma jenkins_loop_small add k n s :
  (n <= 12)%nat -> jenkins_loop add k n s = (k, n, s).
Proof. intros Hn. do 13 (destruct n as [|n]; [done|]). lia. Qed.

Lemma jenkins_loop_step add k n s :
  (0 < n)%nat ->
  jenkins_loop add k (12 + n) s = jenkins_loop add (k + 12) n (JENKINS_MIX (add k s)).
Proof. destruct n; [lia|done]. Qed.

(** The induction that follows the loop. *)
Lemma jenkins_loop_ind (P : nat -> Prop) :
  (forall n, (n <= 12)%nat -> P n) ->
  (forall n, (0 < n)%nat -> P n -> P (12 + n)%nat) ->
  forall n, P n.
Proof.
  intros Hsmall Hstep n. induction n as [n IH] using lt_wf_ind.
  destruct (decide (n <= 12)%nat); [auto|].
  replace n with (12 + (n - 12))%nat by lia.
  apply Hstep; [lia|]. apply IH. lia.
Qed.

(** ** All three versions absorb the same bytes *)

Lemma load16_sum mem p : load16 mem p = load8 mem p + 2 ^ 8 * load8 mem (p + 1).
Proof. unfold load16, load8. rewrite !load_le_cons. cbn [load_le]. lia. Qed.

Lemma load32_sum mem p :
  load32 mem p = load8 mem p + 2 ^ 8 * load8 mem (p + 1)
                 + 2 ^ 16 * load8 mem (p + 2) + 2 ^ 24 * load8 mem (p + 3).
Proof. unfold load32, load8. rewrite !load_le_cons. cbn [load_le]. lia. Qed.

Lemma load32_mask mem p :
  load32 mem p .& 0xffffff =
    load8 mem p + 2 ^ 8 * load8 mem (p + 1) + 2 ^ 16 * load8 mem (p + 2)
  /\ load32 mem p .& 0xffff = load8 mem p + 2 ^ 8 * load8 mem (p + 1)
  /\ load32 mem p .& 0xff = load8 mem p.
Proof.
  change 0xffffff with (Z.ones 24); change 0xffff with (Z.ones 16);
    change 0xff with (Z.ones 8).
  rewrite !Z.land_ones, load32_sum by lia. unfold load8.
  pose proof (uchar_range (mem p)); pose proof (uchar_range (mem (p + 1)));
    pose proof (uchar_range (mem (p + 2))).
  change (2 ^ 24) with 16777216; change (2 ^ 16) with 65536; change (2 ^ 8) with 256.
  split_and!; Z.div_mod_to_equations; lia.
Qed.

(** Adds up the constant offsets of the addresses in the goal. *)
Ltac norm_addr :=
  repeat match goal with
  | |- context [?p + ?i + ?j] =>
      lazymatch isZcst i with true => idtac end;
      lazymatch isZcst j with true => idtac end;
      let r := eval vm_compute in (i + j) in
      replace (p + i + j) with (p + r) by lia
  end.

(** Closes an equation between wrapping sums of bytes of memory. *)
Ltac word_sum :=
  rewrite ?load32_sum, ?load16_sum, ?Z.shiftl_mul_pow2 by lia; norm_addr;
  u32_ring.

(** Compares two states word by word. *)
Ltac abc_eq :=
  repeat match goal with
  | |- Some _ = Some _ => f_equal
  | |- (_, _) = (_, _) => f_equal
  end; (reflexivity || word_sum).

Lemma add32_add8 mem p s : add32 mem p s = add8 mem p s.
Proof.
  destruct s as [[a b] c]. unfold add32, add8. cbv zeta.
  rewrite !Z.add_0_r. abc_eq.
Qed.

Lemma add16_add8 mem p s : add16 mem p s = add8 mem p s.
Proof.
  destruct s as [[a b] c]. unfold add16, add8. cbv zeta.
  rewrite !Z.add_0_r. abc_eq.
Qed.

Lemma tail32_tail8 mem p n s : (n <= 12)%nat -> tail32 mem p n s = tail8 mem p n s.
Proof.
  intros Hn. destruct s as [[a b] c]. unfold tail32, tail8. cbv zeta.
  destruct (load32_mask mem p) as (-> & -> & ->),
    (load32_mask mem (p + 4)) as (-> & -> & ->),
    (load32_mask mem (p + 8)) as (-> & -> & ->).
  do 13 (destruct n as [|n]; [cbn [Nat.leb Nat.eqb Nat.ltb orb]; rewrite ?Z.add_0_r; abc_eq|]).
  lia.
Qed.

Lemma tail16_tail8 mem p n s : (n <= 12)%nat -> tail16 mem p n s = tail8 mem p n s.
Proof.
  intros Hn. destruct s as [[a b] c]. unfold tail16, tail8. cbv zeta.
  change (2 * 1) with 2; change (2 * 2) with 4; change (2 * 3) with 6;
    change (2 * 4) with 8; change (2 * 5) with 10; rewrite !Z.mul_0_r.
  do 13 (destruct n as [|n]; [cbn [Nat.leb Nat.eqb Nat.ltb orb]; rewrite ?Z.add_0_r; abc_eq|]).
  lia.
Qed.

(** The loop runs the same steps when [add] agrees, and leaves at most twelve
    bytes. *)
Lemma jenkins_loop_ext add add' n k s :
  (forall k s, add k s = add' k s) ->
  jenkins_loop add k n s = jenkins_loop add' k n s.
Proof.
  intros Hadd. revert k s. induction n as [n Hn|n Hn IH] using jenkins_loop_ind;
    intros k s; [by rewrite !jenkins_loop_small|].
  by rewrite !jenkins_loop_step, Hadd, IH.
Qed.

Lemma jenkins_loop_length add n k s : ((jenkins_loop add k n s).1.2 <= 12)%nat.
Proof.
  revert k s. induction n as [n Hn|n Hn IH] using jenkins_loop_ind; intros k s.
  - by rewrite jenkins_loop_small.
  - by rewrite jenkins_loop_step.
Qed.

Lemma jenkins_run_ext add add' tail tail' key n :
  (forall k s, add k s = add' k s) ->
  (forall k n s, (n <= 12)%nat -> tail k n s = tail' k n s) ->
  jenkins_run add tail key n = jenkins_run add' tail' key n.
Proof.
  intros Hadd Htail. unfold jenkins_run. cbv zeta.
  rewrite (jenkins_loop_ext _ _ _ _ _ Hadd).
  pose proof (jenkins_loop_length add' n key) as Hlen.
  specialize (Hlen (0xdeadbeef ⊞ u32 (Z.of_nat n) ⊞ JENKINS_INITVAL,
                    0xdeadbeef ⊞ u32 (Z.of_nat n) ⊞ JENKINS_INITVAL,
                    0xdeadbeef ⊞ u32 (Z.of_nat n) ⊞ JENKINS_INITVAL)).
  destruct (jenkins_loop add' key n _) as [[k m] s]. by rewrite Htail.
Qed.

Lemma hashkit_jenkins_at_bytes mem key n :
  hashkit_jenkins_at mem key n = jenkins_run (add8 mem) (tail8 mem) key n.
Proof.
  unfold hashkit_jenkins_at. repeat case_match; [..|done];
    apply jenkins_run_ext; intros;
    auto using add32_add8, add16_add8, tail32_tail8, tail16_tail8.
Qed.

(** ** The byte version reads the key only *)

Section Placement.
Variables (mem mem' : Z -> byte).

Lemma add8_agree p p' s :
  (forall i, 0 <= i < 12 -> mem (p + i) = mem' (p' + i)) ->
  add8 mem p s = add8 mem' p' s.
Proof.
  intros Hagree. destruct s as [[a b] c]. unfold add8, load8. cbv zeta.
  by rewrite !Hagree by lia.
Qed.

Lemma tail8_agree p p' n s :
  (forall i, 0 <= i < Z.of_nat n -> mem (p + i) = mem' (p' + i)) ->
  tail8 mem p n s = tail8 mem' p' n s.
Proof.
  intros Hagree. destruct s as [[a b] c]. unfold tail8, load8. cbv zeta.
  do 12 (destruct n as [|n]; [cbn; by rewrite ?Hagree by lia|]).
  destruct n as [|n]; cbn; [by rewrite !Hagree by lia|done].
Qed.

Lemma jenkins_loop_agree n p p' s :
  (forall i, 0 <= i < Z.of_nat n -> mem (p + i) = mem' (p' + i)) ->
  let r := jenkins_loop (add8 mem) p n s in
  let r' := jenkins_loop (add8 mem') p' n s in
  r.1.2 = r'.1.2 /\ r.2 = r'.2 /\
  forall i, 0 <= i < Z.of_nat r.1.2 -> mem (r.1.1 + i) = mem' (r'.1.1 + i).
Proof.
  revert p p' s. induction n as [n Hn|n Hn IH] using jenkins_loop_ind;
    intros p p' s Hagree; cbv zeta.
  - by rewrite !jenkins_loop_small.
  - rewrite !jenkins_loop_step by done.
    rewrite (add8_agree p p') by (intros; apply Hagree; lia).
    apply IH. intros i Hi. rewrite <-!Z.add_assoc. apply Hagree. lia.
Qed.

Lemma jenkins_run_agree n p p' :
  (forall i, 0 <= i < Z.of_nat n -> mem (p + i) = mem' (p' + i)) ->
  jenkins_run (add8 mem) (tail8 mem) p n = jenkins_run (add8 mem') (tail8 mem') p' n.
Proof.
  intros Hagree. unfold jenkins_run. cbv zeta.
  set (s := (_, _, _)).
  destruct (jenkins_loop_agree n p p' s Hagree) as (Hn & Hs & Hm).
  destruct (jenkins_loop (add8 mem) p n s) as [[k m] t],
    (jenkins_loop (add8 mem') p' n s) as [[k' m'] t']; simpl in *; subst.
  by rewrite (tail8_agree k k').
Qed.
End Placement.

(** C31: whatever the alignment of the key's address, and whatever lies in
    memory around the key, the function computes the same hash of the key's
    bytes: the word and half-word paths are equivalent to the byte path, and
    the word path's reads past the end have no effect. *)
Theorem hashkit_jenkins_placement mem addr key :
  (forall i, (i < length key)%nat -> mem (addr + Z.of_nat i) = nth i key Byte.x00) ->
  hashkit_jenkins_at mem addr (length key) = hashkit_jenkins key.
Proof.
  intros Hkey. unfold hashkit_jenkins. rewrite !hashkit_jenkins_at_bytes.
  apply jenkins_run_agree. intros i Hi.
  replace i with (Z.of_nat (Z.to_nat i)) at 1 by lia.
  rewrite Hkey by lia. f_equal. lia.
Qed.

(** Thirteen bytes at an address that is a multiple of four, followed by a
    byte that is not zero: one loop iteration and the word path's tail. *)
Lemma hashkit_jenkins_placement_witness :
  let key := str "consistenthas" in
  let mem := fun p => nth (Z.to_nat (p - 1000)) (key ++ str "hing") Byte.xff in
  hashkit_jenkins_at mem 1000 13 = hashkit_jenkins key.
Proof.
  intros key mem. apply (hashkit_jenkins_placement mem 1000 key).
  intros i Hi. do 13 (destruct i as [|i]; [reflexivity|]). simpl in Hi. lia.
Defined.

Lemma JENKINS_FINAL_range s : is_u32 (JENKINS_FINAL s).2.
Proof. destruct s as [[a b] c]. apply u32_range. Qed.

Lemma jenkins_tail8_None mem p n s : tail8 mem p n s = None -> n = 0%nat \/ (12 < n)%nat.
Proof.
  destruct s as [[a b] c]. unfold tail8. cbv zeta.
  destruct (Nat.eqb_spec n 0), (Nat.ltb_spec 12 n); simpl; naive_solver.
Qed.

Lemma jenkins_loop_pos add n k s : (0 < n)%nat -> (0 < (jenkins_loop add k n s).1.2)%nat.
Proof.
  revert k s. induction n as [n Hn|n Hn IH] using jenkins_loop_ind; intros k s Hpos.
  - by rewrite jenkins_loop_small.
  - rewrite jenkins_loop_step; auto.
Qed.

Lemma jenkins_loop_none add n k s :
  (jenkins_loop add k n s).1.2 = 0%nat -> jenkins_loop add k n s = (k, 0%nat, s).
Proof. destruct n; [done|]. pose proof (jenkins_loop_pos add (S n) k s). lia. Qed.

Lemma jenkins_range key : is_u32 (hashkit_jenkins key).
Proof.
  unfold hashkit_jenkins. rewrite hashkit_jenkins_at_bytes.
  unfold jenkins_run. cbv zeta. set (s := (_, _, _)).
  pose proof (jenkins_loop_length (add8 (fun p => nth (Z.to_nat (p - 1)) key Byte.x00))
    (length key) 1 s) as Hlen.
  pose proof (jenkins_loop_none (add8 (fun p => nth (Z.to_nat (p - 1)) key Byte.x00))
    (length key) 1 s) as Hnone.
  destruct (jenkins_loop _ _ _ _) as [[k m] t]; simpl in *.
  destruct (tail8 _ k m t) as [t'|] eqn:Ht.
  - pose proof (JENKINS_FINAL_range t'). by destruct (JENKINS_FINAL t') as [[??]?].
  - apply jenkins_tail8_None in Ht as [->|?]; [|lia].
    specialize (Hnone eq_refl). simplify_eq. subst s. apply u32_range.
Qed.
