(* ===== verification/Md5.v ===== *)
(** MD5, libhashkit/md5.cc.

    The streaming implementation (a context with a bit count and a 64-byte
    buffer) is modelled as it is, with its 32-bit counters and its unsigned
    loop variable, and proved equal to the definition of RFC 1321: pad the
    whole message, cut it into blocks, fold the compression function. *)
From S2P Require Import Prelude HashFunctions.

(** ** Definitions *)

(** [UINT4 state\[4\]]. *)
Definition md5_state : Type := Z * Z * Z * Z.

Record MD5_CTX := {
  state : md5_state;
  count : Z * Z;
  buffer : bytes;
}.

Definition S11 := 7.
Definition S12 := 12.
Definition S13 := 17.
Definition S14 := 22.
Definition S21 := 5.
Definition S22 := 9.
Definition S23 := 14.
Definition S24 := 20.
Definition S31 := 4.
Definition S32 := 11.
Definition S33 := 16.
Definition S34 := 23.
Definition S41 := 6.
Definition S42 := 10.
Definition S43 := 15.
Definition S44 := 21.

Definition PADDING : bytes := byte_of_Z 0x80 :: replicate 63 Byte.x00.

Definition F (x y z : Z) : Z := (x .& y) .| ((∼ x) .& z).
Definition G (x y z : Z) : Z := (x .& z) .| (y .& (∼ z)).
Definition H (x y z : Z) : Z := x ⊕ y ⊕ z.
Definition I (x y z : Z) : Z := y ⊕ (x .| (∼ z)).

Definition ROTATE_LEFT (x n : Z) : Z := (x << n) .| (x >> (32 - n)).

(** The new value of [a]; FF, GG, HH and II differ in the function only. *)
Definition round_op (f : Z -> Z -> Z -> Z) (a b c d x s ac : Z) : Z :=
  let a := a ⊞ (f b c d ⊞ x ⊞ ac) in
  let a := ROTATE_LEFT a s in
  a ⊞ b.
Definition FF := round_op F.
Definition GG := round_op G.
Definition HH := round_op H.
Definition II := round_op I.

(** [Encode] writes [len] bytes, [Decode] reads them, both as little-endian
    words of four bytes. *)
Definition Encode (input : list Z) (len : nat) : bytes :=
  flat_map (fun i =>
    let w := nth i input 0 in
    [byte_of_Z (w .& 0xff); byte_of_Z ((w >> 8) .& 0xff);
     byte_of_Z ((w >> 16) .& 0xff); byte_of_Z ((w >> 24) .& 0xff)])
  (seq 0 (len / 4)).

Definition Decode (input : bytes) (len : nat) : list Z :=
  map (fun i =>
    let c := fun k => uchar (nth (4 * i + k) input Byte.x00) in
    c 0%nat .| (c 1%nat << 8) .| (c 2%nat << 16) .| (c 3%nat << 24))
  (seq 0 (len / 4)).

(** Four consecutive lines of the unrolled code: the registers take turns as
    the one that is assigned, with the word and the constant of each line. *)
Definition four (op : Z -> Z -> Z -> Z -> Z -> Z -> Z -> Z) (x : nat -> Z)
    (s1 s2 s3 s4 : Z) (s : md5_state)
    (k1 : nat) (ac1 : Z) (k2 : nat) (ac2 : Z) (k3 : nat) (ac3 : Z) (k4 : nat) (ac4 : Z)
    : md5_state :=
  let '(a, b, c, d) := s in
  let a := op a b c d (x k1) s1 ac1 in
  let d := op d a b c (x k2) s2 ac2 in
  let c := op c d a b (x k3) s3 ac3 in
  let b := op b c d a (x k4) s4 ac4 in
  (a, b, c, d).

(** The four rounds. *)
Definition md5_rounds (x : nat -> Z) (s : md5_state) : md5_state :=
  let s := four FF x S11 S12 S13 S14 s 0 0xd76aa478 1 0xe8c7b756 2 0x242070db 3 0xc1bdceee in
  let s := four FF x S11 S12 S13 S14 s 4 0xf57c0faf 5 0x4787c62a 6 0xa8304613 7 0xfd469501 in
  let s := four FF x S11 S12 S13 S14 s 8 0x698098d8 9 0x8b44f7af 10 0xffff5bb1 11 0x895cd7be in
  let s := four FF x S11 S12 S13 S14 s 12 0x6b901122 13 0xfd987193 14 0xa679438e 15 0x49b40821 in
  let s := four GG x S21 S22 S23 S24 s 1 0xf61e2562 6 0xc040b340 11 0x265e5a51 0 0xe9b6c7aa in
  let s := four GG x S21 S22 S23 S24 s 5 0xd62f105d 10 0x2441453 15 0xd8a1e681 4 0xe7d3fbc8 in
  let s := four GG x S21 S22 S23 S24 s 9 0x21e1cde6 14 0xc33707d6 3 0xf4d50d87 8 0x455a14ed in
  let s := four GG x S21 S22 S23 S24 s 13 0xa9e3e905 2 0xfcefa3f8 7 0x676f02d9 12 0x8d2a4c8a in
  let s := four HH x S31 S32 S33 S34 s 5 0xfffa3942 8 0x8771f681 11 0x6d9d6122 14 0xfde5380c in
  let s := four HH x S31 S32 S33 S34 s 1 0xa4beea44 4 0x4bdecfa9 7 0xf6bb4b60 10 0xbebfbc70 in
  let s := four HH x S31 S32 S33 S34 s 13 0x289b7ec6 0 0xeaa127fa 3 0xd4ef3085 6 0x4881d05 in
  let s := four HH x S31 S32 S33 S34 s 9 0xd9d4d039 12 0xe6db99e5 15 0x1fa27cf8 2 0xc4ac5665 in
  let s := four II x S41 S42 S43 S44 s 0 0xf4292244 7 0x432aff97 14 0xab9423a7 5 0xfc93a039 in
  let s := four II x S41 S42 S43 S44 s 12 0x655b59c3 3 0x8f0ccc92 10 0xffeff47d 1 0x85845dd1 in
  let s := four II x S41 S42 S43 S44 s 8 0x6fa87e4f 15 0xfe2ce6e0 6 0xa3014314 13 0x4e0811a1 in
  let s := four II x S41 S42 S43 S44 s 4 0xf7537e82 11 0xbd3af235 2 0x2ad7d2bb 9 0xeb86d391 in
  s.

Definition MD5Transform (state : md5_state) (block : bytes) : md5_state :=
  let words := Decode block 64 in
  let '(a0, b0, c0, d0) := state in
  let '(a, b, c, d) := md5_rounds (fun i => nth i words 0) state in
  (a0 ⊞ a, b0 ⊞ b, c0 ⊞ c, d0 ⊞ d).

Definition MD5Init (context : MD5_CTX) : MD5_CTX :=
  {| state := (0x67452301, 0xefcdab89, 0x98badcfe, 0x10325476);
     count := (0, 0);
     buffer := buffer context |}.

(** [memcpy(&buf\[off\], data, length data)]. *)
Definition memcpy_at (buf : bytes) (off : nat) (data : bytes) : bytes :=
  take off buf ++ data ++ drop (off + length data) buf.

(** [for (i = partLen; i + 63 < inputLen; i += 64)]: the sum wraps.  [None] is
    the fuel running out. *)
Fixpoint update_loop (fuel : nat) (s : md5_state) (input : bytes) (i : Z)
    : option (md5_state * Z) :=
  match fuel with
  | O => None
  | S fuel =>
      if i ⊞ 63 <? Z.of_nat (length input) then
        update_loop fuel
          (MD5Transform s (take 64 (drop (Z.to_nat i) input))) input (i ⊞ 64)
      else Some (s, i)
  end.

Definition MD5Update (context : MD5_CTX) (input : bytes) : option MD5_CTX :=
  let inputLen := Z.of_nat (length input) in
  let idx := ((count context).1 >> 3) .& 0x3F in
  let c0 := (count context).1 ⊞ (inputLen << 3) in
  let c1 := if c0 <? (inputLen << 3) then (count context).2 ⊞ 1 else (count context).2 in
  let c1 := c1 ⊞ (inputLen >> 29) in
  let partLen := 64 - idx in
  if partLen <=? inputLen then
    let buf := memcpy_at (buffer context) (Z.to_nat idx) (take (Z.to_nat partLen) input) in
    match update_loop (S (length input)) (MD5Transform (state context) buf) input partLen with
    | Some (s, i) =>
        Some {| state := s; count := (c0, c1);
                buffer := memcpy_at buf 0 (drop (Z.to_nat i) input) |}
    | None => None
    end
  else
    Some {| state := state context; count := (c0, c1);
            buffer := memcpy_at (buffer context) (Z.to_nat idx) input |}.

(** The digest; the context is zeroed. *)
Definition MD5Final (context : MD5_CTX) : option bytes :=
  let bits := Encode [(count context).1; (count context).2] 8 in
  let idx := ((count context).1 >> 3) .& 0x3f in
  let padLen := if idx <? 56 then 56 - idx else 120 - idx in
  match MD5Update context (take (Z.to_nat padLen) PADDING) with
  | Some context =>
      match MD5Update context bits with
      | Some context =>
          let '(a, b, c, d) := state context in Some (Encode [a; b; c; d] 16)
      | None => None
      end
  | None => None
  end.

(** [stack] is what the uninitialised [MD5_CTX my_md5] holds. *)
Definition md5_signature (stack : MD5_CTX) (key : bytes) : option bytes :=
  match MD5Update (MD5Init stack) key with
  | Some my_md5 => MD5Final my_md5
  | None => None
  end.

(** [(unsigned int)key_length] truncates the length. *)
Definition hashkit_md5 (stack : MD5_CTX) (key : bytes) : option Z :=
  match md5_signature stack (take (Z.to_nat (u32 (Z.of_nat (length key)))) key) with
  | Some results =>
      let r := fun i => uchar (nth i results Byte.x00) .& 0xFF in
      Some ((r 3%nat << 24) .| (r 2%nat << 16) .| (r 1%nat << 8) .| r 0%nat)
  | None => None
  end.

(** A context to start from, for the definitions that need no particular one. *)
Definition zero_ctx : MD5_CTX :=
  {| state := (0, 0, 0, 0); count := (0, 0); buffer := replicate 64 Byte.x00 |}.

Example md5_apple : hashkit_md5 zero_ctx (str "apple") = Some 3195025439.
Proof. vm_compute. reflexivity. Qed.

(** ** The reference: RFC 1321 *)

(** Section 3.4 of the RFC as the usual loop over sixty-four operations: the
    word index, the shift and the constant are given by tables, and the four
    registers rotate. *)
Definition rfc_K : list Z :=
  [0xd76aa478; 0xe8c7b756; 0x242070db; 0xc1bdceee; 0xf57c0faf; 0x4787c62a; 0xa8304613;
   0xfd469501; 0x698098d8; 0x8b44f7af; 0xffff5bb1; 0x895cd7be; 0x6b901122; 0xfd987193;
   0xa679438e; 0x49b40821; 0xf61e2562; 0xc040b340; 0x265e5a51; 0xe9b6c7aa; 0xd62f105d;
   0x02441453; 0xd8a1e681; 0xe7d3fbc8; 0x21e1cde6; 0xc33707d6; 0xf4d50d87; 0x455a14ed;
   0xa9e3e905; 0xfcefa3f8; 0x676f02d9; 0x8d2a4c8a; 0xfffa3942; 0x8771f681; 0x6d9d6122;
   0xfde5380c; 0xa4beea44; 0x4bdecfa9; 0xf6bb4b60; 0xbebfbc70; 0x289b7ec6; 0xeaa127fa;
   0xd4ef3085; 0x04881d05; 0xd9d4d039; 0xe6db99e5; 0x1fa27cf8; 0xc4ac5665; 0xf4292244;
   0x432aff97; 0xab9423a7; 0xfc93a039; 0x655b59c3; 0x8f0ccc92; 0xffeff47d; 0x85845dd1;
   0x6fa87e4f; 0xfe2ce6e0; 0xa3014314; 0x4e0811a1; 0xf7537e82; 0xbd3af235; 0x2ad7d2bb;
   0xeb86d391].

Definition rfc_shift : list (list Z) :=
  [[7; 12; 17; 22]; [5; 9; 14; 20]; [4; 11; 16; 23]; [6; 10; 15; 21]].

Definition rfc_f (r : nat) : Z -> Z -> Z -> Z :=
  match r with 0%nat => F | 1%nat => G | 2%nat => H | _ => I end.

Definition rfc_g (r i : nat) : nat :=
  match r with
  | 0%nat => i
  | 1%nat => (5 * i + 1) mod 16
  | 2%nat => (3 * i + 5) mod 16
  | _ => (7 * i) mod 16
  end.

Definition rfc_step (x : nat -> Z) (s : md5_state) (i : nat) : md5_state :=
  let '(a, b, c, d) := s in
  let r := (i / 16)%nat in
  (d, round_op (rfc_f r) a b c d (x (rfc_g r i)) (nth (i mod 4) (nth r rfc_shift []) 0)
        (nth i rfc_K 0), b, c).

Definition rfc_compress (s : md5_state) (block : bytes) : md5_state :=
  let words := Decode block 64 in
  let '(a0, b0, c0, d0) := s in
  let '(a, b, c, d) := fold_left (rfc_step (fun i => nth i words 0)) (seq 0 64) s in
  (a0 ⊞ a, b0 ⊞ b, c0 ⊞ c, d0 ⊞ d).

(** Sections 3.1 and 3.2: a one bit, zeros up to 56 bytes modulo 64, and the
    length in bits as two words. *)
Definition rfc_pad (m : bytes) : bytes :=
  let bits := 8 * Z.of_nat (length m) in
  m ++ byte_of_Z 0x80 :: replicate (Z.to_nat ((55 - Z.of_nat (length m)) mod 64)) Byte.x00
    ++ Encode [u32 bits; u32 (bits / 2 ^ 32)] 8.

Fixpoint md5_blocks (n : nat) (s : md5_state) (bs : bytes) : md5_state :=
  match n with
  | O => s
  | S n => md5_blocks n (MD5Transform s (take 64 bs)) (drop 64 bs)
  end.

Definition md5_init : md5_state := (0x67452301, 0xefcdab89, 0x98badcfe, 0x10325476).

Definition rfc_md5 (m : bytes) : bytes :=
  let p := rfc_pad m in
  let '(a, b, c, d) := md5_blocks (length p / 64) md5_init p in
  Encode [a; b; c; d] 16.

(** ** The compression function *)

(** ** The compression function *)

Lemma rfc_four x q l s :
  (q < 16)%nat ->
  fold_left (rfc_step x) (4 * q :: 4 * q + 1 :: 4 * q + 2 :: 4 * q + 3 :: l)%nat s =
  let r := (q / 4)%nat in
  let k := fun j => rfc_g r (4 * q + j) in
  let ac := fun j => nth (4 * q + j) rfc_K 0 in
  let s' := fun j => nth j (nth r rfc_shift []) 0 in
  fold_left (rfc_step x) l
    (four (round_op (rfc_f r)) x (s' 0%nat) (s' 1%nat) (s' 2%nat) (s' 3%nat) s
       (k 0%nat) (ac 0%nat) (k 1%nat) (ac 1%nat) (k 2%nat) (ac 2%nat) (k 3%nat) (ac 3%nat)).
Proof.
  intros Hq. destruct s as [[[a b] c] d].
  do 16 (destruct q as [|q]; [reflexivity|]). lia.
Qed.

Lemma md5_rounds_rfc x s : md5_rounds x s = fold_left (rfc_step x) (seq 0 64) s.
Proof.
  change (seq 0 64) with
    (concat (map (fun q => [4 * q; 4 * q + 1; 4 * q + 2; 4 * q + 3]%nat) (seq 0 16))).
  cbn [seq map concat app]. rewrite !rfc_four by lia. unfold md5_rounds. cbv zeta.
  lazymatch goal with |- _ = ?r =>
    let r' := eval cbv [rfc_f rfc_g rfc_shift rfc_K nth Nat.div Nat.modulo Nat.divmod
                        Nat.add Nat.mul Nat.sub fst snd fold_left] in r in
    change r with r'
  end.
  reflexivity.
Qed.

(** The unrolled compression function is the table-driven loop of the RFC:
    every word index, shift, constant and register role of its sixty-four lines
    is the one the loop computes. *)
Theorem MD5Transform_rfc s block : MD5Transform s block = rfc_compress s block.
Proof. unfold MD5Transform, rfc_compress. by rewrite md5_rounds_rfc. Qed.

(** ** Words and bytes *)

Lemma quarter n : (4 * n / 4)%nat = n.
Proof. rewrite Nat.mul_comm. by apply Nat.div_mul. Qed.

Lemma word_bytes w i :
  is_u32 w -> 0 <= i <= 3 ->
  uchar (byte_of_Z ((w >> (8 * i)) .& 0xff)) = w / 2 ^ (8 * i) mod 256.
Proof.
  intros Hw Hi. change 0xff with (Z.ones 8).
  rewrite uchar_byte_of_Z, Z.land_ones, Z.shiftr_div_pow2 by lia.
  change (2 ^ 8) with 256. apply Zmod_mod.
Qed.

Lemma lor4 a b c d :
  is_u8 a -> is_u8 b -> is_u8 c -> is_u8 d ->
  a .| (b << 8) .| (c << 16) .| (d << 24) = a + 2 ^ 8 * b + 2 ^ 16 * c + 2 ^ 24 * d.
Proof.
  intros Ha Hb Hc Hd.
  rewrite (u32_small (Z.shiftl b 8)), (u32_small (Z.shiftl c 16)),
    (u32_small (Z.shiftl d 24)) by (rewrite Z.shiftl_mul_pow2; lia).
  rewrite (lor_shiftl 8 a b), (lor_shiftl 16 _ c), (lor_shiftl 24 _ d) by lia. done.
Qed.

Lemma word_split w :
  is_u32 w ->
  w / 2 ^ 0 mod 256 + 2 ^ 8 * (w / 2 ^ 8 mod 256) + 2 ^ 16 * (w / 2 ^ 16 mod 256)
    + 2 ^ 24 * (w / 2 ^ 24 mod 256) = w.
Proof.
  intros Hw. change (2 ^ 0) with 1. change (2 ^ 8) with 256.
  change (2 ^ 16) with 65536. change (2 ^ 24) with 16777216.
  Z.div_mod_to_equations. lia.
Qed.

Lemma word_part a b c d k :
  is_u8 a -> is_u8 b -> is_u8 c -> is_u8 d -> (k < 4)%nat ->
  (a + 2 ^ 8 * b + 2 ^ 16 * c + 2 ^ 24 * d) / 2 ^ (8 * Z.of_nat k) mod 256
  = nth k [a; b; c; d] 0.
Proof.
  intros Ha Hb Hc Hd Hk.
  do 4 (destruct k as [|k]; [
    simpl nth; simpl Z.of_nat; rewrite ?Z.mul_0_r;
    match goal with |- context [_ / 2 ^ ?e] => let r := eval vm_compute in (2 ^ e) in
      change (2 ^ e) with r end;
    change (2 ^ 8) with 256 in *; change (2 ^ 16) with 65536;
    change (2 ^ 24) with 16777216; Z.div_mod_to_equations; lia|]).
  lia.
Qed.

Lemma Forall_nth_u32 ws i : Forall (fun w => is_u32 w) ws -> is_u32 (nth i ws 0).
Proof.
  intros Hws. destruct (nth_in_or_default i ws 0) as [Hin| ->]; [|lia].
  rewrite List.Forall_forall in Hws. auto.
Qed.

Lemma Decode_length bs n : length (Decode bs (4 * n)) = n.
Proof.
  unfold Decode. by rewrite length_map, length_seq, quarter.
Qed.

Lemma Decode_nth bs n i :
  (i < n)%nat ->
  nth i (Decode bs (4 * n)) 0 =
    let c := fun k => uchar (nth (4 * i + k) bs Byte.x00) in
    c 0%nat + 2 ^ 8 * c 1%nat + 2 ^ 16 * c 2%nat + 2 ^ 24 * c 3%nat.
Proof.
  intros Hi. unfold Decode. rewrite quarter, nth_map_seq by done. cbv zeta.
  apply lor4; apply uchar_range.
Qed.

Lemma Decode_u32 bs n : Forall (fun w => is_u32 w) (Decode bs (4 * n)).
Proof.
  apply List.Forall_forall. intros w [i [Hi <-]]%(In_nth _ _ 0).
  rewrite Decode_length in Hi. rewrite Decode_nth by done. cbv beta zeta.
  repeat match goal with |- context [uchar ?b] =>
    lazymatch goal with H : 0 <= uchar b < _ |- _ => fail | _ => idtac end;
    pose proof (uchar_range b) end.
  change (2 ^ 8) with 256. change (2 ^ 16) with 65536. change (2 ^ 24) with 16777216. lia.
Qed.

Lemma Encode_length ws n : length (Encode ws (4 * n)) = (4 * n)%nat.
Proof.
  unfold Encode. rewrite (flat_map_length _ 4) by done. by rewrite quarter.
Qed.

Lemma Encode_nth ws n i k :
  Forall (fun w => is_u32 w) ws -> (i < n)%nat -> (k < 4)%nat ->
  uchar (nth (4 * i + k) (Encode ws (4 * n)) Byte.x00)
  = nth i ws 0 / 2 ^ (8 * Z.of_nat k) mod 256.
Proof.
  intros Hws Hi Hk. unfold Encode.
  rewrite quarter.
  rewrite (flat_map_nth _ 4) by done. cbv zeta.
  pose proof (Forall_nth_u32 ws i Hws) as Hw.
  replace (0 + i)%nat with i by lia.
  do 4 (destruct k as [|k];
    [simpl nth; rewrite <-word_bytes by lia; try done;
     f_equal; f_equal; f_equal; by rewrite Z.shiftr_0_r|]).
  lia.
Qed.

(** [Decode] inverts [Encode] on any number of 32-bit words, and [Encode]
    inverts [Decode] on any number of groups of four bytes. *)
Theorem Encode_Decode n ws bs :
  length ws = n -> Forall (fun w => is_u32 w) ws -> length bs = (4 * n)%nat ->
  Decode (Encode ws (4 * n)) (4 * n) = ws /\ Encode (Decode bs (4 * n)) (4 * n) = bs.
Proof.
  intros Hn Hws Hbs. split.
  - apply (nth_eq _ _ 0); [by rewrite Decode_length|].
    rewrite Decode_length. intros i Hi. rewrite Decode_nth by lia. cbv beta zeta.
    rewrite !Encode_nth by (done || lia).
    pose proof (Forall_nth_u32 ws i Hws).
    change (8 * Z.of_nat 0) with 0; change (8 * Z.of_nat 1) with 8;
      change (8 * Z.of_nat 2) with 16; change (8 * Z.of_nat 3) with 24.
    apply word_split; lia.
  - apply (nth_eq _ _ Byte.x00); [by rewrite Encode_length|].
    rewrite Encode_length. intros i Hi. apply uchar_inj.
    rewrite (Nat.div_mod_eq i 4).
    pose proof (Nat.mod_upper_bound i 4 ltac:(lia)).
    assert (i / 4 < n)%nat by (apply Nat.Div0.div_lt_upper_bound; lia).
    rewrite Encode_nth, Decode_nth by (done || apply Decode_u32). cbv beta zeta.
    set (q := (i / 4)%nat) in *. generalize dependent (i mod 4)%nat. intros k Hk.
    clear -Hk. do 4 (destruct k as [|k]; [apply word_part; auto with words; lia|]). lia.
Qed.

(** ** Streaming *)

Lemma md5_blocks_add n k s bs :
  md5_blocks (n + k) s bs = md5_blocks k (md5_blocks n s bs) (drop (64 * n) bs).
Proof.
  revert s bs. induction n as [|n IH]; intros s bs; [done|].
  cbn [md5_blocks Nat.add]. rewrite IH, drop_drop. do 2 f_equal. lia.
Qed.

Lemma md5_blocks_app n s a b :
  (64 * n <= length a)%nat -> md5_blocks n s (a ++ b) = md5_blocks n s a.
Proof.
  revert s a. induction n as [|n IH]; intros s a Hn; [done|]. cbn [md5_blocks].
  rewrite take_app_le, drop_app_le by lia. apply IH. rewrite length_drop. lia.
Qed.

(** The loop runs the blocks that are left and stops, as long as its variable
    does not wrap. *)
Lemma update_loop_spec fuel s input i :
  let len := Z.of_nat (length input) in
  let n := Z.to_nat ((len - i) / 64) in
  0 <= i <= len -> (n < fuel)%nat -> i + 64 * Z.of_nat n + 63 < 2 ^ 32 ->
  update_loop fuel s input i
  = Some (md5_blocks n s (drop (Z.to_nat i) input), i + 64 * Z.of_nat n).
Proof.
  cbv zeta. revert s i. induction fuel as [|fuel IH]; intros s i Hi Hfuel Hwrap; [lia|].
  cbn [update_loop]. rewrite u32_small by lia.
  destruct (Z.ltb_spec (i + 63) (Z.of_nat (length input))) as [Hlt|Hge].
  - assert ((Z.of_nat (length input) - i) / 64
            = (Z.of_nat (length input) - (i + 64)) / 64 + 1) as Hdiv.
    { rewrite <-Z.div_add by lia. f_equal. lia. }
    assert (0 <= (Z.of_nat (length input) - (i + 64)) / 64) by (apply Z.div_pos; lia).
    rewrite (u32_small (i + 64)), IH by lia. rewrite Hdiv.
    set (n := (Z.of_nat (length input) - (i + 64)) / 64) in *.
    replace (Z.to_nat (n + 1)) with (S (Z.to_nat n)) by lia. cbn [md5_blocks].
    rewrite drop_drop. replace (Z.to_nat (i + 64)) with (Z.to_nat i + 64)%nat by lia.
    f_equal. f_equal. lia.
  - rewrite Z.div_small by lia. simpl. f_equal. f_equal. lia.
Qed.

(** What the context holds after the bytes [m]: the state after their full
    blocks, the rest of them at the start of the buffer, and their number of
    bits modulo [2 ^ 64]. *)
Record md5_rep (ctx : MD5_CTX) (m : bytes) : Prop := {
  rep_state : state ctx = md5_blocks (length m / 64) md5_init m;
  rep_count : count ctx = (u32 (8 * Z.of_nat (length m)),
                           u32 (8 * Z.of_nat (length m) / 2 ^ 32));
  rep_buffer : length (buffer ctx) = 64%nat;
  rep_rest : take (length m mod 64) (buffer ctx) = drop (64 * (length m / 64)) m;
}.

Lemma md5_count_add L n :
  0 <= L -> is_u32 n ->
  let c0 := u32 (8 * L) ⊞ (n << 3) in
  let c1 := if c0 <? (n << 3) then u32 (8 * L / 2 ^ 32) ⊞ 1 else u32 (8 * L / 2 ^ 32) in
  c0 = u32 (8 * (L + n)) /\ c1 ⊞ (n >> 29) = u32 (8 * (L + n) / 2 ^ 32).
Proof.
  intros HL Hn c0 c1.
  rewrite Z.shiftr_div_pow2 by lia. subst c0 c1.
  rewrite Z.shiftl_mul_pow2 by lia. split; [u32_ring|].
  match goal with |- context [if ?b then _ else _] => destruct b eqn:E end;
    [apply Z.ltb_lt in E|apply Z.ltb_ge in E];
    (eapply u32_congr; [same32|same32|]); unfold u32 in E;
    change (2 ^ 3) with 8 in *; change (2 ^ 29) with 536870912;
    change (2 ^ 32) with 4294967296 in *; Z.div_mod_to_equations; lia.
Qed.

Lemma md5_idx L : 0 <= L -> (u32 (8 * L) >> 3) .& 0x3F = L mod 64.
Proof.
  intros HL. change 0x3F with (Z.ones 6). rewrite Z.land_ones, Z.shiftr_div_pow2 by lia.
  unfold u32. change (2 ^ 3) with 8. change (2 ^ 6) with 64. change (2 ^ 32) with 4294967296.
  Z.div_mod_to_equations; lia.
Qed.

Lemma memcpy_at_length buf off data :
  (off + length data <= length buf)%nat -> length (memcpy_at buf off data) = length buf.
Proof. intros Hlen. unfold memcpy_at. rewrite !length_app, length_take, length_drop. lia. Qed.

Lemma take_memcpy_at buf off data :
  (off + length data <= length buf)%nat ->
  take (off + length data) (memcpy_at buf off data) = take off buf ++ data.
Proof.
  intros Hlen. unfold memcpy_at. rewrite app_assoc. apply take_app_length'.
  rewrite length_app, length_take. lia.
Qed.

(** The length of [m ++ input] in blocks when [input] does or does not
    complete the block that [m] has begun. *)
Lemma blocks_split L n q r :
  q = (L / 64)%nat -> r = (L mod 64)%nat ->
  (64 - r <= n)%nat ->
  ((L + n) / 64 = q + S ((n - (64 - r)) / 64)
   /\ (L + n) mod 64 = (n - (64 - r)) mod 64)%nat.
Proof.
  intros -> -> Hn. pose proof (Nat.mod_upper_bound L 64 ltac:(lia)).
  replace (L + n)%nat with ((n - (64 - L mod 64)) + (L / 64 + 1) * 64)%nat
    by (rewrite (Nat.div_mod_eq L 64) at 3; lia).
  rewrite Nat.div_add, Nat.Div0.mod_add by lia. lia.
Qed.

Section Split.
Variables (m input : bytes) (q r : nat).
Hypothesis (Hm : length m = (64 * q + r)%nat) (Hr : (r < 64)%nat).

Lemma md5_blocks_split s k :
  md5_blocks (q + S k) s (m ++ input) =
  md5_blocks k
    (MD5Transform (md5_blocks q s m) (drop (64 * q) m ++ take (64 - r) input))
    (drop (64 - r) input).
Proof.
  rewrite md5_blocks_add, md5_blocks_app, drop_app_le by lia. cbn [md5_blocks].
  rewrite take_app_ge, drop_app_ge, length_drop by (rewrite length_drop; lia).
  by replace (64 - (length m - 64 * q))%nat with (64 - r)%nat by lia.
Qed.

Lemma drop_split k : drop (64 * (q + S k)) (m ++ input) = drop (64 - r + 64 * k) input.
Proof. rewrite drop_app_ge by lia. f_equal. lia. Qed.
End Split.

Lemma MD5Update_full ctx m input :
  md5_rep ctx m ->
  let r := (length m mod 64)%nat in
  (64 - r <= length input)%nat ->
  Z.of_nat r + Z.of_nat (length input) < 2 ^ 32 ->
  exists ctx', MD5Update ctx input = Some ctx' /\ md5_rep ctx' (m ++ input).
Proof.
  intros [Hstate Hcount Hbuf Hrest] r Hlen Hwrap.
  destruct (md5_count_add (Z.of_nat (length m)) (Z.of_nat (length input)))
    as [Hc0 Hc1]; [lia..|].
  destruct (blocks_split (length m) (length input) _ r eq_refl eq_refl Hlen) as [Hq Hr].
  pose proof (Nat.mod_upper_bound (length m) 64 ltac:(lia)) as Hr64. fold r in Hr64.
  set (n := (length input - (64 - r))%nat) in *.
  unfold MD5Update. cbv zeta. rewrite Hcount. cbn [fst snd].
  rewrite md5_idx, Hc1, Hc0 by lia.
  replace (Z.of_nat (length m) mod 64) with (Z.of_nat r)
    by (apply (Nat2Z.inj_mod (length m) 64)).
  rewrite (proj2 (Z.leb_le _ _)) by lia.
  replace (Z.to_nat (64 - Z.of_nat r)) with (64 - r)%nat by lia. rewrite Nat2Z.id.
  set (buf := memcpy_at (buffer ctx) r (take (64 - r) input)).
  assert (length buf = 64%nat) as Hbuf'.
  { unfold buf. rewrite memcpy_at_length; rewrite ?length_take; lia. }
  assert (buf = drop (64 * (length m / 64)) m ++ take (64 - r) input) as Hblock.
  { rewrite <-Hrest. fold r. unfold buf, memcpy_at.
    by rewrite (drop_ge (buffer ctx)), app_nil_r by (rewrite length_take; lia). }
  assert (Z.to_nat ((Z.of_nat (length input) - (64 - Z.of_nat r)) / 64) = (n / 64)%nat) as Hn.
  { replace (Z.of_nat (length input) - (64 - Z.of_nat r)) with (Z.of_nat n) by lia.
    change 64 with (Z.of_nat 64). rewrite <-Nat2Z.inj_div. apply Nat2Z.id. }
  assert (64 * (n / 64) <= n)%nat by apply Nat.Div0.mul_div_le.
  rewrite update_loop_spec; rewrite ?Hn; [|lia..].
  eexists. split; [done|].
  pose proof (Nat.div_mod_eq (length m) 64) as Hm. fold r in Hm.
  replace (Z.to_nat (64 - Z.of_nat r)) with (64 - r)%nat by lia.
  replace (Z.to_nat (64 - Z.of_nat r + 64 * Z.of_nat (n / 64)))
    with (64 - r + 64 * (n / 64))%nat by lia.
  pose proof (Nat.div_mod_eq n 64).
  assert (length (drop (64 - r + 64 * (n / 64)) input) = n mod 64)%nat as Hdrop
    by (rewrite length_drop; lia).
  pose proof (Nat.mod_upper_bound n 64 ltac:(lia)).
  split; cbn [state count buffer]; rewrite ?length_app, ?Nat2Z.inj_add, ?Hq, ?Hr.
  - by rewrite (md5_blocks_split _ _ _ r), Hstate, Hblock.
  - done.
  - rewrite memcpy_at_length; lia.
  - rewrite (drop_split _ _ _ r), <-Hdrop by lia.
    rewrite <-(Nat.add_0_l (length _)), take_memcpy_at by lia. done.
Qed.

Lemma MD5Update_part ctx m input :
  md5_rep ctx m ->
  let r := (length m mod 64)%nat in
  (length input < 64 - r)%nat ->
  exists ctx', MD5Update ctx input = Some ctx' /\ md5_rep ctx' (m ++ input).
Proof.
  intros [Hstate Hcount Hbuf Hrest] r Hlen.
  destruct (md5_count_add (Z.of_nat (length m)) (Z.of_nat (length input)))
    as [Hc0 Hc1]; [lia..|].
  pose proof (Nat.mod_upper_bound (length m) 64 ltac:(lia)) as Hr64.
  pose proof (Nat.div_mod_eq (length m) 64) as Hm. fold r in Hr64, Hm, Hrest.
  set (q := (length m / 64)%nat) in *.
  assert ((length m + length input) / 64 = q
    /\ (length m + length input) mod 64 = r + length input)%nat as [Hq Hr].
  { replace (length m + length input)%nat with (r + length input + q * 64)%nat by lia.
    rewrite Nat.div_add, Nat.Div0.mod_add, Nat.div_small, Nat.mod_small by lia. lia. }
  unfold MD5Update. cbv zeta. rewrite Hcount. cbn [fst snd].
  rewrite md5_idx, Hc1, Hc0 by lia.
  replace (Z.of_nat (length m) mod 64) with (Z.of_nat r)
    by (apply (Nat2Z.inj_mod (length m) 64)).
  rewrite (proj2 (Z.leb_gt _ _)) by lia. rewrite Nat2Z.id.
  eexists. split; [done|].
  split; cbn [state count buffer]; rewrite ?length_app, ?Nat2Z.inj_add, ?Hq, ?Hr.
  - rewrite md5_blocks_app by lia. done.
  - done.
  - rewrite memcpy_at_length; lia.
  - rewrite take_memcpy_at, Hrest, drop_app_le by lia. done.
Qed.

Lemma MD5Update_rep ctx m input :
  md5_rep ctx m ->
  Z.of_nat (length m mod 64) + Z.of_nat (length input) < 2 ^ 32 ->
  exists ctx', MD5Update ctx input = Some ctx' /\ md5_rep ctx' (m ++ input).
Proof.
  intros Hrep Hwrap. destruct (decide (64 - length m mod 64 <= length input)%nat).
  - by apply MD5Update_full.
  - apply MD5Update_part; [done|lia].
Qed.

Lemma MD5Init_rep stack : length (buffer stack) = 64%nat -> md5_rep (MD5Init stack) [].
Proof. intros Hlen. by split. Qed.

(** ** The digest *)

Lemma pad_length L :
  let r := (L mod 64)%nat in
  let pad := Z.to_nat (if Z.of_nat r <? 56 then 56 - Z.of_nat r else 120 - Z.of_nat r) in
  take pad PADDING
    = byte_of_Z 0x80 :: replicate (Z.to_nat ((55 - Z.of_nat L) mod 64)) Byte.x00
  /\ (pad <= 64)%nat.
Proof.
  intros r pad. pose proof (Nat.mod_upper_bound L 64 ltac:(lia)) as Hr. fold r in Hr.
  assert ((55 - Z.of_nat L) mod 64 = (55 - Z.of_nat r) mod 64) as ->.
  { unfold r. rewrite Nat2Z.inj_mod. symmetry. apply Zminus_mod_idemp_r. }
  unfold PADDING. subst pad. destruct (Z.ltb_spec (Z.of_nat r) 56).
  - rewrite Z.mod_small by lia. split; [|lia].
    replace (Z.to_nat (56 - Z.of_nat r)) with (S (55 - r)) by lia.
    cbn [take]. f_equal. rewrite take_replicate. f_equal. lia.
  - rewrite <-(Z_mod_plus_full _ 1), Z.mod_small by lia. split; [|lia].
    replace (Z.to_nat (120 - Z.of_nat r)) with (S (119 - r)) by lia.
    cbn [take]. f_equal. rewrite take_replicate. f_equal. lia.
Qed.

Lemma MD5Final_rep ctx m : md5_rep ctx m -> MD5Final ctx = Some (rfc_md5 m).
Proof.
  intros Hrep. pose proof (rep_count _ _ Hrep) as Hcount.
  unfold MD5Final. rewrite Hcount. cbn [fst snd]. cbv zeta.
  rewrite md5_idx by lia.
  replace (Z.of_nat (length m) mod 64) with (Z.of_nat (length m mod 64))
    by apply (Nat2Z.inj_mod (length m) 64).
  destruct (pad_length (length m)) as [Hpad Hle]. cbv zeta in Hpad, Hle.
  set (pad := Z.to_nat _) in *.
  pose proof (Nat.mod_upper_bound (length m) 64 ltac:(lia)).
  assert (length (take pad PADDING) <= 64)%nat by (rewrite length_take; lia).
  destruct (MD5Update_rep ctx m (take pad PADDING) Hrep) as (ctx1 & -> & Hrep1); [lia|].
  set (bits := Encode _ 8). assert (length bits = 8%nat) as Hbits.
  { apply (Encode_length _ 2). }
  pose proof (Nat.mod_upper_bound (length (m ++ take pad PADDING)) 64 ltac:(lia)).
  destruct (MD5Update_rep ctx1 _ bits Hrep1) as (ctx2 & -> & Hrep2); [lia|].
  rewrite (rep_state _ _ Hrep2). unfold rfc_md5, rfc_pad. cbv zeta. fold bits.
  rewrite Hpad, <-app_assoc. cbn [app]. by destruct (md5_blocks _ _ _) as [[[a b] c] d].
Qed.

(** C30: the digest of a key shorter than [2 ^ 32] bytes is the one RFC 1321
    defines: the whole padded message folded block by block.  The code returns
    it whatever the uninitialised context on the stack holds. *)
Theorem md5_signature_rfc stack key :
  length (buffer stack) = 64%nat -> Z.of_nat (length key) < 2 ^ 32 ->
  md5_signature stack key = Some (rfc_md5 key).
Proof.
  intros Hbuf Hlen. unfold md5_signature.
  destruct (MD5Update_rep (MD5Init stack) [] key) as (ctx & -> & Hrep).
  - by apply MD5Init_rep.
  - simpl length. change (Z.of_nat (0 mod 64)) with 0. lia.
  - by apply MD5Final_rep.
Qed.

Lemma md5_signature_rfc_witness :
  md5_signature zero_ctx (str "message digest")
  = Some (rfc_md5 (str "message digest")).
Proof. apply (md5_signature_rfc zero_ctx); [reflexivity|vm_compute; reflexivity]. Defined.

(** The RFC's own test vector, so that the reference is the MD5 of the RFC. *)
Example rfc_md5_abc :
  map uchar (rfc_md5 (str "abc"))
  = [0x90; 0x01; 0x50; 0x98; 0x3c; 0xd2; 0x4f; 0xb0;
     0xd6; 0x96; 0x3f; 0x7d; 0x28; 0xe1; 0x7f; 0x72].
Proof. vm_compute. reflexivity. Qed.

(** What the rest of libhashkit uses: the sixteen bytes of a signature and the
    hash value they give. *)
Definition md5_bytes (key : bytes) : bytes :=
  default [] (md5_signature zero_ctx key).

Definition md5_hash (key : bytes) : Z := default 0 (hashkit_md5 zero_ctx key).

Lemma md5_hash_range key : is_u32 (md5_hash key).
Proof.
  unfold md5_hash, hashkit_md5. case_match; simpl; [|lia]. auto 10 with words.
Qed.

Lemma Encode_Decode_witness :
  Decode (Encode [1; 0xdeadbeef] 8) 8 = [1; 0xdeadbeef].
Proof.
  apply (Encode_Decode 2 [1; 0xdeadbeef] (str "eightbyt")); [done| |done].
  repeat constructor; lia.
Defined.
