(* ===== verification/Hashkit.v ===== *)
(** libhashkit's front end: types.h, has.cc, algorithm.cc, digest.cc,
    function.cc, hashkit.cc, str_algorithm.cc, strerror.cc and the C++ class of
    hashkit.hpp.

    A [hashkit_hash_fn] is a function pointer that the code compares with the
    addresses of its own functions; [hashkit_fn] is that pointer: one
    constructor per function of the library, and [fn_custom] for the
    application's functions, whose bodies are the parameter [custom]. *)
From S2P Require Import Prelude HashFunctions Jenkins Md5.

(** ** Definitions *)

Inductive hashkit_return_t :=
  | HASHKIT_SUCCESS
  | HASHKIT_FAILURE
  | HASHKIT_MEMORY_ALLOCATION_FAILURE
  | HASHKIT_INVALID_HASH
  | HASHKIT_INVALID_ARGUMENT
  | HASHKIT_MAXIMUM_RETURN.

#[export] Instance hashkit_return_t_eq_dec : EqDecision hashkit_return_t.
Proof. solve_decision. Defined.

Definition hashkit_success (rc : hashkit_return_t) : bool := bool_decide (rc = HASHKIT_SUCCESS).
Definition hashkit_failed (rc : hashkit_return_t) : bool := bool_decide (rc <> HASHKIT_SUCCESS).

Inductive hashkit_hash_algorithm_t :=
  | HASHKIT_HASH_DEFAULT
  | HASHKIT_HASH_MD5
  | HASHKIT_HASH_CRC
  | HASHKIT_HASH_FNV1_64
  | HASHKIT_HASH_FNV1A_64
  | HASHKIT_HASH_FNV1_32
  | HASHKIT_HASH_FNV1A_32
  | HASHKIT_HASH_HSIEH
  | HASHKIT_HASH_MURMUR
  | HASHKIT_HASH_JENKINS
  | HASHKIT_HASH_CUSTOM
  | HASHKIT_HASH_MAX.

#[export] Instance hashkit_hash_algorithm_t_eq_dec : EqDecision hashkit_hash_algorithm_t.
Proof. solve_decision. Defined.

(** A function pointer; [fn_custom id] is a function of the application. *)
Inductive hashkit_fn :=
  | fn_one_at_a_time
  | fn_md5
  | fn_crc32
  | fn_fnv1_64
  | fn_fnv1a_64
  | fn_fnv1_32
  | fn_fnv1a_32
  | fn_hsieh
  | fn_murmur
  | fn_jenkins
  | fn_custom (id : nat).

#[export] Instance hashkit_fn_eq_dec : EqDecision hashkit_fn.
Proof. solve_decision. Defined.

(** [context] is the pointer given with the function, [None] for NULL. *)
Record hashkit_function_st := {
  function : hashkit_fn;
  context : option Z;
}.

#[export] Instance hashkit_function_st_eq_dec : EqDecision hashkit_function_st.
Proof. solve_decision. Defined.

Record hashkit_st := {
  base_hash : hashkit_function_st;
  distribution_hash : hashkit_function_st;
  is_base_same_distributed : bool;
  is_allocated : bool;
}.

Section Hashkit.
Context {config : BuildConfig}.

(** The application's hash functions: the key and the context. *)
Variable custom : nat -> bytes -> option Z -> Z.

Definition libhashkit_has_algorithm (algo : hashkit_hash_algorithm_t) : bool :=
  match algo with
  | HASHKIT_HASH_FNV1_64 | HASHKIT_HASH_FNV1A_64 => have_fnv64_hash
  | HASHKIT_HASH_HSIEH => have_hsieh_hash
  | HASHKIT_HASH_MURMUR => have_murmur_hash
  | HASHKIT_HASH_FNV1_32 | HASHKIT_HASH_FNV1A_32 | HASHKIT_HASH_DEFAULT
  | HASHKIT_HASH_MD5 | HASHKIT_HASH_CRC | HASHKIT_HASH_JENKINS
  | HASHKIT_HASH_CUSTOM => true
  | HASHKIT_HASH_MAX => false
  end.

(** A call through the function pointer. *)
Definition call_hash_fn (f : hashkit_fn) (key : bytes) (ctx : option Z) : Z :=
  match f with
  | fn_one_at_a_time => hashkit_one_at_a_time key
  | fn_md5 => md5_hash key
  | fn_crc32 => hashkit_crc32 key
  | fn_fnv1_64 => hashkit_fnv1_64 key
  | fn_fnv1a_64 => hashkit_fnv1a_64 key
  | fn_fnv1_32 => hashkit_fnv1_32 key
  | fn_fnv1a_32 => hashkit_fnv1a_32 key
  | fn_hsieh => hashkit_hsieh key
  | fn_murmur => hashkit_murmur key
  | fn_jenkins => hashkit_jenkins key
  | fn_custom id => custom id key ctx
  end.

Definition hashkit_digest (self : hashkit_st) (key : bytes) : Z :=
  call_hash_fn (function (base_hash self)) key (context (base_hash self)).

Definition libhashkit_digest (key : bytes) (hash_algorithm : hashkit_hash_algorithm_t) : Z :=
  match hash_algorithm with
  | HASHKIT_HASH_DEFAULT => hashkit_one_at_a_time key
  | HASHKIT_HASH_MD5 => md5_hash key
  | HASHKIT_HASH_CRC => hashkit_crc32 key
  | HASHKIT_HASH_FNV1_64 => hashkit_fnv1_64 key
  | HASHKIT_HASH_FNV1A_64 => hashkit_fnv1a_64 key
  | HASHKIT_HASH_FNV1_32 => hashkit_fnv1_32 key
  | HASHKIT_HASH_FNV1A_32 => hashkit_fnv1a_32 key
  | HASHKIT_HASH_HSIEH => if have_hsieh_hash then hashkit_hsieh key else 1
  | HASHKIT_HASH_MURMUR => if have_murmur_hash then hashkit_murmur key else 1
  | HASHKIT_HASH_JENKINS => hashkit_jenkins key
  | HASHKIT_HASH_CUSTOM | HASHKIT_HASH_MAX => 1
  end.

(** The new contents of the function record, which some error branches
    change as well: HASHKIT_HASH_MAX installs the default function and leaves
    the old context. *)
Definition _set_function (self : hashkit_function_st)
    (hash_algorithm : hashkit_hash_algorithm_t) : hashkit_return_t * hashkit_function_st :=
  let install f := (HASHKIT_SUCCESS, {| function := f; context := None |}) in
  let guarded a f :=
    if libhashkit_has_algorithm a then install f else (HASHKIT_INVALID_ARGUMENT, self) in
  match hash_algorithm with
  | HASHKIT_HASH_MD5 => install fn_md5
  | HASHKIT_HASH_CRC => install fn_crc32
  | HASHKIT_HASH_FNV1_64 => guarded HASHKIT_HASH_FNV1_64 fn_fnv1_64
  | HASHKIT_HASH_FNV1A_64 => guarded HASHKIT_HASH_FNV1_64 fn_fnv1a_64
  | HASHKIT_HASH_FNV1_32 => install fn_fnv1_32
  | HASHKIT_HASH_FNV1A_32 => install fn_fnv1a_32
  | HASHKIT_HASH_HSIEH => guarded HASHKIT_HASH_HSIEH fn_hsieh
  | HASHKIT_HASH_MURMUR => guarded HASHKIT_HASH_MURMUR fn_murmur
  | HASHKIT_HASH_JENKINS => install fn_jenkins
  | HASHKIT_HASH_CUSTOM => (HASHKIT_INVALID_ARGUMENT, self)
  | HASHKIT_HASH_DEFAULT => install fn_one_at_a_time
  | HASHKIT_HASH_MAX =>
      (HASHKIT_INVALID_HASH, {| function := fn_one_at_a_time; context := context self |})
  end.

Definition with_base_hash (self : hashkit_st) (f : hashkit_function_st) : hashkit_st :=
  {| base_hash := f; distribution_hash := distribution_hash self;
     is_base_same_distributed := is_base_same_distributed self;
     is_allocated := is_allocated self |}.

Definition with_distribution_hash (self : hashkit_st) (f : hashkit_function_st) : hashkit_st :=
  {| base_hash := base_hash self; distribution_hash := f;
     is_base_same_distributed := is_base_same_distributed self;
     is_allocated := is_allocated self |}.

Definition hashkit_set_function (self : hashkit_st) (a : hashkit_hash_algorithm_t)
    : hashkit_return_t * hashkit_st :=
  let '(rc, f) := _set_function (base_hash self) a in (rc, with_base_hash self f).

Definition hashkit_set_distribution_function (self : hashkit_st)
    (a : hashkit_hash_algorithm_t) : hashkit_return_t * hashkit_st :=
  let '(rc, f) := _set_function (distribution_hash self) a in
  (rc, with_distribution_hash self f).

(** [fn = None] is a NULL function pointer. *)
Definition _set_custom_function (self : hashkit_function_st) (fn : option nat)
    (ctx : option Z) : hashkit_return_t * hashkit_function_st :=
  match fn with
  | Some id => (HASHKIT_SUCCESS, {| function := fn_custom id; context := ctx |})
  | None => (HASHKIT_FAILURE, self)
  end.

Definition hashkit_set_custom_function (self : hashkit_st) (fn : option nat)
    (ctx : option Z) : hashkit_return_t * hashkit_st :=
  let '(rc, f) := _set_custom_function (base_hash self) fn ctx in (rc, with_base_hash self f).

Definition hashkit_set_custom_distribution_function (self : hashkit_st) (fn : option nat)
    (ctx : option Z) : hashkit_return_t * hashkit_st :=
  let '(rc, f) := _set_custom_function (distribution_hash self) fn ctx in
  (rc, with_distribution_hash self f).

Definition get_function_type (f : hashkit_fn) : hashkit_hash_algorithm_t :=
  match f with
  | fn_one_at_a_time => HASHKIT_HASH_DEFAULT
  | fn_md5 => HASHKIT_HASH_MD5
  | fn_crc32 => HASHKIT_HASH_CRC
  | fn_fnv1_64 => HASHKIT_HASH_FNV1_64
  | fn_fnv1a_64 => HASHKIT_HASH_FNV1A_64
  | fn_fnv1_32 => HASHKIT_HASH_FNV1_32
  | fn_fnv1a_32 => HASHKIT_HASH_FNV1A_32
  | fn_hsieh => HASHKIT_HASH_HSIEH
  | fn_murmur => HASHKIT_HASH_MURMUR
  | fn_jenkins => HASHKIT_HASH_JENKINS
  | fn_custom _ => HASHKIT_HASH_CUSTOM
  end.

(** [self] may be NULL. *)
Definition hashkit_get_function (self : option hashkit_st) : hashkit_hash_algorithm_t :=
  match self with
  | None => HASHKIT_HASH_DEFAULT
  | Some self => get_function_type (function (base_hash self))
  end.

Definition hashkit_get_distribution_function (self : option hashkit_st)
    : hashkit_hash_algorithm_t :=
  match self with
  | None => HASHKIT_HASH_DEFAULT
  | Some self => get_function_type (function (distribution_hash self))
  end.

Definition _hashkit_init (self : hashkit_st) : hashkit_st :=
  {| base_hash := {| function := fn_one_at_a_time; context := None |};
     distribution_hash := {| function := fn_one_at_a_time; context := None |};
     is_base_same_distributed := true;
     is_allocated := is_allocated self |}.

(** The memory [calloc] returns is zero; [calloc_ok] is whether it returns
    any.  A zero function pointer is not one of the model's, so the fields
    that [calloc] clears hold an arbitrary one until they are assigned. *)
Definition hashkit_calloc : hashkit_st :=
  {| base_hash := {| function := fn_custom 0; context := None |};
     distribution_hash := {| function := fn_custom 0; context := None |};
     is_base_same_distributed := false;
     is_allocated := false |}.

Definition with_is_allocated (self : hashkit_st) (b : bool) : hashkit_st :=
  {| base_hash := base_hash self; distribution_hash := distribution_hash self;
     is_base_same_distributed := is_base_same_distributed self;
     is_allocated := b |}.

Definition _hashkit_create (calloc_ok : bool) (self : option hashkit_st) : option hashkit_st :=
  match self with
  | None => if calloc_ok then Some (with_is_allocated hashkit_calloc true) else None
  | Some self => Some (with_is_allocated self false)
  end.

Definition hashkit_create (calloc_ok : bool) (self : option hashkit_st) : option hashkit_st :=
  match _hashkit_create calloc_ok self with
  | None => None
  | Some self => Some (_hashkit_init self)
  end.

Definition hashkit_clone (calloc_ok : bool) (destination source : option hashkit_st)
    : option hashkit_st :=
  match source with
  | None => hashkit_create calloc_ok destination
  | Some source =>
      match _hashkit_create calloc_ok destination with
      | None => None
      | Some destination =>
          Some {| base_hash := base_hash source;
                  distribution_hash := distribution_hash source;
                  is_base_same_distributed := is_base_same_distributed source;
                  is_allocated := is_allocated destination |}
      end
  end.

Definition hashkit_compare (first second : option hashkit_st) : bool :=
  match first, second with
  | Some first, Some second =>
      bool_decide (function (base_hash first) = function (base_hash second))
      && bool_decide (context (base_hash first) = context (base_hash second))
      && bool_decide (function (distribution_hash first) = function (distribution_hash second))
      && bool_decide (context (distribution_hash first) = context (distribution_hash second))
      && eqb (is_base_same_distributed first) (is_base_same_distributed second)
  | _, _ => false
  end.

(** The methods of the C++ class [Hashkit]. *)
Definition Hashkit_set_function := hashkit_set_function.
Definition Hashkit_set_distribution_function := hashkit_set_function.
Definition Hashkit_digest := hashkit_digest.
End Hashkit.

Definition libhashkit_string_hash (type : hashkit_hash_algorithm_t) : string :=
  match type with
  | HASHKIT_HASH_DEFAULT => "DEFAULT"
  | HASHKIT_HASH_MD5 => "MD5"
  | HASHKIT_HASH_CRC => "CRC"
  | HASHKIT_HASH_FNV1_64 => "FNV1_64"
  | HASHKIT_HASH_FNV1A_64 => "FNV1A_64"
  | HASHKIT_HASH_FNV1_32 => "FNV1_32"
  | HASHKIT_HASH_FNV1A_32 => "FNV1A_32"
  | HASHKIT_HASH_HSIEH => "HSIEH"
  | HASHKIT_HASH_MURMUR => "MURMUR"
  | HASHKIT_HASH_JENKINS => "JENKINS"
  | HASHKIT_HASH_CUSTOM => "CUSTOM"
  | HASHKIT_HASH_MAX => "INVALID"
  end.

Definition hashkit_strerror (rc : hashkit_return_t) : string :=
  match rc with
  | HASHKIT_SUCCESS => "SUCCESS"
  | HASHKIT_FAILURE => "FAILURE"
  | HASHKIT_MEMORY_ALLOCATION_FAILURE => "MEMORY ALLOCATION FAILURE"
  | HASHKIT_INVALID_ARGUMENT => "INVALID ARGUMENT"
  | HASHKIT_INVALID_HASH => "INVALID hashkit_hash_algorithm_t"
  | HASHKIT_MAXIMUM_RETURN => "INVALID hashkit_return_t"
  end.

(** ** Properties *)

Create HintDb hashes discriminated.
#[export] Hint Resolve one_at_a_time_range fnv1_32_range fnv1a_32_range fnv1_64_range
  fnv1a_64_range hsieh_range murmur_range jenkins_range md5_hash_range : hashes.

Section Properties.
Context {config : BuildConfig}.
Variable custom : nat -> bytes -> option Z -> Z.

(** Every algorithm's digest is a 32-bit value. *)
Theorem libhashkit_digest_range key a : is_u32 (libhashkit_digest key a).
Proof.
  pose proof (crc32_range key).
  destruct a; cbn [libhashkit_digest]; try case_match; auto with hashes; lia.
Qed.

(** After [hashkit_set_function] succeeds, the handle computes what the
    one-shot function computes for that algorithm, [hashkit_get_function]
    reports it, and the distribution hash is untouched. *)
Theorem hashkit_set_function_digest self self' a :
  hashkit_set_function self a = (HASHKIT_SUCCESS, self') ->
  (forall key, hashkit_digest custom self' key = libhashkit_digest key a)
  /\ hashkit_get_function (Some self') = a
  /\ distribution_hash self' = distribution_hash self.
Proof.
  destruct a; unfold hashkit_set_function, libhashkit_digest; simpl;
    repeat case_match; intros; by simplify_eq/=.
Qed.

(** [hashkit_set_function] succeeds exactly on the algorithms
    [libhashkit_has_algorithm] reports, except HASHKIT_HASH_CUSTOM, which
    needs [hashkit_set_custom_function]; and an error leaves the handle as it
    is, except for HASHKIT_HASH_MAX, which installs the default function. *)
Theorem hashkit_set_function_errors self a :
  let r := hashkit_set_function self a in
  (r.1 = HASHKIT_SUCCESS <->
     libhashkit_has_algorithm a = true /\ a <> HASHKIT_HASH_CUSTOM)
  /\ (r.1 <> HASHKIT_SUCCESS ->
      if bool_decide (a = HASHKIT_HASH_MAX)
      then hashkit_get_function (Some r.2) = HASHKIT_HASH_DEFAULT
           /\ context (base_hash r.2) = context (base_hash self)
      else r.2 = self).
Proof.
  unfold hashkit_set_function. destruct self as [[] ? ? ?].
  destruct a; simpl; repeat case_match; naive_solver.
Qed.

(** A clone compares equal to its source, computes the same digests and
    keeps its own allocation flag; and handles that compare equal compute
    the same digests. *)
Theorem hashkit_clone_compare ok destination source clone :
  hashkit_clone ok destination (Some source) = Some clone ->
  hashkit_compare (Some source) (Some clone) = true
  /\ is_allocated clone = bool_decide (destination = None)
  /\ forall other key, hashkit_compare (Some other) (Some clone) = true ->
       hashkit_digest custom other key = hashkit_digest custom source key.
Proof.
  unfold hashkit_clone, _hashkit_create. intros Hclone.
  destruct destination, ok; simplify_eq/=; split_and!; try done;
    rewrite ?bool_decide_eq_true_2, ?eqb_reflx by done; try done;
    intros other key; unfold hashkit_digest;
    rewrite !andb_true_iff, !bool_decide_eq_true;
    intros ((((-> & ->) & _) & _) & _); done.
Qed.
End Properties.

(** A configuration with every hash, and a handle. *)
Definition all_hashes : BuildConfig :=
  {| have_fnv64_hash := true; have_hsieh_hash := true; have_murmur_hash := true |}.
#[local] Existing Instance all_hashes.

Definition some_hashkit : hashkit_st :=
  {| base_hash := {| function := fn_custom 7; context := Some 1 |};
     distribution_hash := {| function := fn_md5; context := None |};
     is_base_same_distributed := true; is_allocated := true |}.

Lemma hashkit_set_function_digest_witness :
  let self' := with_base_hash some_hashkit {| function := fn_murmur; context := None |} in
  hashkit_digest (fun _ _ _ => 0) self' (str "apple") = 4142305122.
Proof.
  intros self'.
  destruct (@hashkit_set_function_digest all_hashes (fun _ _ _ => 0) some_hashkit self'
    HASHKIT_HASH_MURMUR eq_refl) as (Hdigest & _ & _).
  rewrite Hdigest. reflexivity.
Defined.

Lemma hashkit_clone_compare_witness :
  hashkit_compare (Some some_hashkit)
    (hashkit_clone true None (Some some_hashkit)) = true.
Proof.
  exact (proj1 (@hashkit_clone_compare all_hashes (fun _ _ _ => 0) true None some_hashkit
    _ eq_refl)).
Defined.
