(* ===== verification/Memcached.v ===== *)
(** The data model of libmemcached: return.h, constants.h, server.h,
    continuum.hpp, array.c and memcached.h.

    Records follow the C structures.  An array that the code indexes is a
    list; the servers of a handle are the initialised slots of its array,
    with [number_of_hosts] kept separately as the code does.  A pointer into
    an array of servers is a block, a slot and an offset, since the code moves
    servers between slots and blocks.  The ketama information, which several
    handles share, lives in a store. *)
From S2P Require Import Prelude HashFunctions Hashkit.

(** ** Return codes *)

Inductive memcached_return_t :=
  | MEMCACHED_SUCCESS
  | MEMCACHED_FAILURE
  | MEMCACHED_HOST_LOOKUP_FAILURE
  | MEMCACHED_CONNECTION_FAILURE
  | MEMCACHED_CONNECTION_BIND_FAILURE
  | MEMCACHED_WRITE_FAILURE
  | MEMCACHED_READ_FAILURE
  | MEMCACHED_UNKNOWN_READ_FAILURE
  | MEMCACHED_PROTOCOL_ERROR
  | MEMCACHED_CLIENT_ERROR
  | MEMCACHED_SERVER_ERROR
  | MEMCACHED_CONNECTION_SOCKET_CREATE_FAILURE
  | MEMCACHED_DATA_EXISTS
  | MEMCACHED_DATA_DOES_NOT_EXIST
  | MEMCACHED_NOTSTORED
  | MEMCACHED_STORED
  | MEMCACHED_NOTFOUND
  | MEMCACHED_MEMORY_ALLOCATION_FAILURE
  | MEMCACHED_PARTIAL_READ
  | MEMCACHED_SOME_ERRORS
  | MEMCACHED_NO_SERVERS
  | MEMCACHED_END
  | MEMCACHED_DELETED
  | MEMCACHED_VALUE
  | MEMCACHED_STAT
  | MEMCACHED_ITEM
  | MEMCACHED_ERRNO
  | MEMCACHED_FAIL_UNIX_SOCKET
  | MEMCACHED_NOT_SUPPORTED
  | MEMCACHED_NO_KEY_PROVIDED
  | MEMCACHED_FETCH_NOTFINISHED
  | MEMCACHED_TIMEOUT
  | MEMCACHED_BUFFERED
  | MEMCACHED_BAD_KEY_PROVIDED
  | MEMCACHED_INVALID_HOST_PROTOCOL
  | MEMCACHED_SERVER_MARKED_DEAD
  | MEMCACHED_UNKNOWN_STAT_KEY
  | MEMCACHED_E2BIG
  | MEMCACHED_INVALID_ARGUMENTS
  | MEMCACHED_KEY_TOO_BIG
  | MEMCACHED_AUTH_PROBLEM
  | MEMCACHED_AUTH_FAILURE
  | MEMCACHED_AUTH_CONTINUE
  | MEMCACHED_PARSE_ERROR
  | MEMCACHED_PARSE_USER_ERROR
  | MEMCACHED_DEPRECATED
  | MEMCACHED_IN_PROGRESS
  | MEMCACHED_SERVER_TEMPORARILY_DISABLED
  | MEMCACHED_ATTR
  | MEMCACHED_ATTR_ERROR_NOT_FOUND
  | MEMCACHED_ATTR_ERROR_BAD_VALUE
  | MEMCACHED_COUNT
  | MEMCACHED_ATTR_MISMATCH
  | MEMCACHED_BKEY_MISMATCH
  | MEMCACHED_EFLAG_MISMATCH
  | MEMCACHED_UNREADABLE
  | MEMCACHED_TRIMMED
  | MEMCACHED_DUPLICATED
  | MEMCACHED_RESPONSE
  | MEMCACHED_UPDATED
  | MEMCACHED_CREATED
  | MEMCACHED_NOTHING_TO_UPDATE
  | MEMCACHED_EXISTS
  | MEMCACHED_ALL_EXIST
  | MEMCACHED_SOME_EXIST
  | MEMCACHED_ALL_NOT_EXIST
  | MEMCACHED_ALL_SUCCESS
  | MEMCACHED_SOME_SUCCESS
  | MEMCACHED_ALL_FAILURE
  | MEMCACHED_CREATED_STORED
  | MEMCACHED_ELEMENT_EXISTS
  | MEMCACHED_NOTFOUND_ELEMENT
  | MEMCACHED_OUT_OF_RANGE
  | MEMCACHED_OVERFLOWED
  | MEMCACHED_TYPE_MISMATCH
  | MEMCACHED_EXIST
  | MEMCACHED_NOT_EXIST
  | MEMCACHED_DELETED_DROPPED
  | MEMCACHED_PIPE_ERROR_COMMAND_OVERFLOW
  | MEMCACHED_PIPE_ERROR_MEMORY_OVERFLOW
  | MEMCACHED_PIPE_ERROR_BAD_ERROR
  | MEMCACHED_REPLACED
  | MEMCACHED_POSITION
  | MEMCACHED_INVALID_COMMAND
  | MEMCACHED_UNDEFINED_RESPONSE
  | MEMCACHED_SWITCHOVER
  | MEMCACHED_REPL_SLAVE
  | MEMCACHED_MAXIMUM_RETURN.

(** Every code, in the order of the enumeration. *)
Definition all_returns : list memcached_return_t :=
  [MEMCACHED_SUCCESS; MEMCACHED_FAILURE;
   MEMCACHED_HOST_LOOKUP_FAILURE; MEMCACHED_CONNECTION_FAILURE;
   MEMCACHED_CONNECTION_BIND_FAILURE; MEMCACHED_WRITE_FAILURE;
   MEMCACHED_READ_FAILURE; MEMCACHED_UNKNOWN_READ_FAILURE;
   MEMCACHED_PROTOCOL_ERROR; MEMCACHED_CLIENT_ERROR;
   MEMCACHED_SERVER_ERROR; MEMCACHED_CONNECTION_SOCKET_CREATE_FAILURE;
   MEMCACHED_DATA_EXISTS; MEMCACHED_DATA_DOES_NOT_EXIST;
   MEMCACHED_NOTSTORED; MEMCACHED_STORED;
   MEMCACHED_NOTFOUND; MEMCACHED_MEMORY_ALLOCATION_FAILURE;
   MEMCACHED_PARTIAL_READ; MEMCACHED_SOME_ERRORS;
   MEMCACHED_NO_SERVERS; MEMCACHED_END;
   MEMCACHED_DELETED; MEMCACHED_VALUE;
   MEMCACHED_STAT; MEMCACHED_ITEM;
   MEMCACHED_ERRNO; MEMCACHED_FAIL_UNIX_SOCKET;
   MEMCACHED_NOT_SUPPORTED; MEMCACHED_NO_KEY_PROVIDED;
   MEMCACHED_FETCH_NOTFINISHED; MEMCACHED_TIMEOUT;
   MEMCACHED_BUFFERED; MEMCACHED_BAD_KEY_PROVIDED;
   MEMCACHED_INVALID_HOST_PROTOCOL; MEMCACHED_SERVER_MARKED_DEAD;
   MEMCACHED_UNKNOWN_STAT_KEY; MEMCACHED_E2BIG;
   MEMCACHED_INVALID_ARGUMENTS; MEMCACHED_KEY_TOO_BIG;
   MEMCACHED_AUTH_PROBLEM; MEMCACHED_AUTH_FAILURE;
   MEMCACHED_AUTH_CONTINUE; MEMCACHED_PARSE_ERROR;
   MEMCACHED_PARSE_USER_ERROR; MEMCACHED_DEPRECATED;
   MEMCACHED_IN_PROGRESS; MEMCACHED_SERVER_TEMPORARILY_DISABLED;
   MEMCACHED_ATTR; MEMCACHED_ATTR_ERROR_NOT_FOUND;
   MEMCACHED_ATTR_ERROR_BAD_VALUE; MEMCACHED_COUNT;
   MEMCACHED_ATTR_MISMATCH; MEMCACHED_BKEY_MISMATCH;
   MEMCACHED_EFLAG_MISMATCH; MEMCACHED_UNREADABLE;
   MEMCACHED_TRIMMED; MEMCACHED_DUPLICATED;
   MEMCACHED_RESPONSE; MEMCACHED_UPDATED;
   MEMCACHED_CREATED; MEMCACHED_NOTHING_TO_UPDATE;
   MEMCACHED_EXISTS; MEMCACHED_ALL_EXIST;
   MEMCACHED_SOME_EXIST; MEMCACHED_ALL_NOT_EXIST;
   MEMCACHED_ALL_SUCCESS; MEMCACHED_SOME_SUCCESS;
   MEMCACHED_ALL_FAILURE; MEMCACHED_CREATED_STORED;
   MEMCACHED_ELEMENT_EXISTS; MEMCACHED_NOTFOUND_ELEMENT;
   MEMCACHED_OUT_OF_RANGE; MEMCACHED_OVERFLOWED;
   MEMCACHED_TYPE_MISMATCH; MEMCACHED_EXIST;
   MEMCACHED_NOT_EXIST; MEMCACHED_DELETED_DROPPED;
   MEMCACHED_PIPE_ERROR_COMMAND_OVERFLOW; MEMCACHED_PIPE_ERROR_MEMORY_OVERFLOW;
   MEMCACHED_PIPE_ERROR_BAD_ERROR; MEMCACHED_REPLACED;
   MEMCACHED_POSITION; MEMCACHED_INVALID_COMMAND;
   MEMCACHED_UNDEFINED_RESPONSE; MEMCACHED_SWITCHOVER;
   MEMCACHED_REPL_SLAVE; MEMCACHED_MAXIMUM_RETURN].

(** The value of a code is its position. *)
Definition memcached_return_value (rc : memcached_return_t) : nat :=
  match rc with
  | MEMCACHED_SUCCESS => 0
  | MEMCACHED_FAILURE => 1
  | MEMCACHED_HOST_LOOKUP_FAILURE => 2
  | MEMCACHED_CONNECTION_FAILURE => 3
  | MEMCACHED_CONNECTION_BIND_FAILURE => 4
  | MEMCACHED_WRITE_FAILURE => 5
  | MEMCACHED_READ_FAILURE => 6
  | MEMCACHED_UNKNOWN_READ_FAILURE => 7
  | MEMCACHED_PROTOCOL_ERROR => 8
  | MEMCACHED_CLIENT_ERROR => 9
  | MEMCACHED_SERVER_ERROR => 10
  | MEMCACHED_CONNECTION_SOCKET_CREATE_FAILURE => 11
  | MEMCACHED_DATA_EXISTS => 12
  | MEMCACHED_DATA_DOES_NOT_EXIST => 13
  | MEMCACHED_NOTSTORED => 14
  | MEMCACHED_STORED => 15
  | MEMCACHED_NOTFOUND => 16
  | MEMCACHED_MEMORY_ALLOCATION_FAILURE => 17
  | MEMCACHED_PARTIAL_READ => 18
  | MEMCACHED_SOME_ERRORS => 19
  | MEMCACHED_NO_SERVERS => 20
  | MEMCACHED_END => 21
  | MEMCACHED_DELETED => 22
  | MEMCACHED_VALUE => 23
  | MEMCACHED_STAT => 24
  | MEMCACHED_ITEM => 25
  | MEMCACHED_ERRNO => 26
  | MEMCACHED_FAIL_UNIX_SOCKET => 27
  | MEMCACHED_NOT_SUPPORTED => 28
  | MEMCACHED_NO_KEY_PROVIDED => 29
  | MEMCACHED_FETCH_NOTFINISHED => 30
  | MEMCACHED_TIMEOUT => 31
  | MEMCACHED_BUFFERED => 32
  | MEMCACHED_BAD_KEY_PROVIDED => 33
  | MEMCACHED_INVALID_HOST_PROTOCOL => 34
  | MEMCACHED_SERVER_MARKED_DEAD => 35
  | MEMCACHED_UNKNOWN_STAT_KEY => 36
  | MEMCACHED_E2BIG => 37
  | MEMCACHED_INVALID_ARGUMENTS => 38
  | MEMCACHED_KEY_TOO_BIG => 39
  | MEMCACHED_AUTH_PROBLEM => 40
  | MEMCACHED_AUTH_FAILURE => 41
  | MEMCACHED_AUTH_CONTINUE => 42
  | MEMCACHED_PARSE_ERROR => 43
  | MEMCACHED_PARSE_USER_ERROR => 44
  | MEMCACHED_DEPRECATED => 45
  | MEMCACHED_IN_PROGRESS => 46
  | MEMCACHED_SERVER_TEMPORARILY_DISABLED => 47
  | MEMCACHED_ATTR => 48
  | MEMCACHED_ATTR_ERROR_NOT_FOUND => 49
  | MEMCACHED_ATTR_ERROR_BAD_VALUE => 50
  | MEMCACHED_COUNT => 51
  | MEMCACHED_ATTR_MISMATCH => 52
  | MEMCACHED_BKEY_MISMATCH => 53
  | MEMCACHED_EFLAG_MISMATCH => 54
  | MEMCACHED_UNREADABLE => 55
  | MEMCACHED_TRIMMED => 56
  | MEMCACHED_DUPLICATED => 57
  | MEMCACHED_RESPONSE => 58
  | MEMCACHED_UPDATED => 59
  | MEMCACHED_CREATED => 60
  | MEMCACHED_NOTHING_TO_UPDATE => 61
  | MEMCACHED_EXISTS => 62
  | MEMCACHED_ALL_EXIST => 63
  | MEMCACHED_SOME_EXIST => 64
  | MEMCACHED_ALL_NOT_EXIST => 65
  | MEMCACHED_ALL_SUCCESS => 66
  | MEMCACHED_SOME_SUCCESS => 67
  | MEMCACHED_ALL_FAILURE => 68
  | MEMCACHED_CREATED_STORED => 69
  | MEMCACHED_ELEMENT_EXISTS => 70
  | MEMCACHED_NOTFOUND_ELEMENT => 71
  | MEMCACHED_OUT_OF_RANGE => 72
  | MEMCACHED_OVERFLOWED => 73
  | MEMCACHED_TYPE_MISMATCH => 74
  | MEMCACHED_EXIST => 75
  | MEMCACHED_NOT_EXIST => 76
  | MEMCACHED_DELETED_DROPPED => 77
  | MEMCACHED_PIPE_ERROR_COMMAND_OVERFLOW => 78
  | MEMCACHED_PIPE_ERROR_MEMORY_OVERFLOW => 79
  | MEMCACHED_PIPE_ERROR_BAD_ERROR => 80
  | MEMCACHED_REPLACED => 81
  | MEMCACHED_POSITION => 82
  | MEMCACHED_INVALID_COMMAND => 83
  | MEMCACHED_UNDEFINED_RESPONSE => 84
  | MEMCACHED_SWITCHOVER => 85
  | MEMCACHED_REPL_SLAVE => 86
  | MEMCACHED_MAXIMUM_RETURN => 87
  end.

Lemma memcached_return_value_nth rc :
  nth_error all_returns (memcached_return_value rc) = Some rc.
Proof. by destruct rc. Qed.

#[export] Instance memcached_return_t_eq_dec : EqDecision memcached_return_t.
Proof.
  intros a b. destruct (decide (memcached_return_value a = memcached_return_value b)) as [E|E].
  - left. pose proof (memcached_return_value_nth a) as Ha.
    rewrite E, memcached_return_value_nth in Ha. congruence.
  - right. congruence.
Defined.

Definition memcached_success (rc : memcached_return_t) : bool :=
  match rc with
  | MEMCACHED_BUFFERED | MEMCACHED_DELETED | MEMCACHED_END | MEMCACHED_ITEM
  | MEMCACHED_STAT | MEMCACHED_STORED | MEMCACHED_SUCCESS | MEMCACHED_VALUE => true
  | _ => false
  end.

Definition memcached_failed (rc : memcached_return_t) : bool :=
  match rc with
  | MEMCACHED_SUCCESS | MEMCACHED_END | MEMCACHED_STORED | MEMCACHED_STAT
  | MEMCACHED_DELETED | MEMCACHED_BUFFERED | MEMCACHED_VALUE => false
  | _ => true
  end.

(** ** Constants *)

Inductive memcached_server_distribution_t :=
  | MEMCACHED_DISTRIBUTION_MODULA
  | MEMCACHED_DISTRIBUTION_CONSISTENT
  | MEMCACHED_DISTRIBUTION_CONSISTENT_KETAMA
  | MEMCACHED_DISTRIBUTION_RANDOM
  | MEMCACHED_DISTRIBUTION_CONSISTENT_KETAMA_SPY
  | MEMCACHED_DISTRIBUTION_VIRTUAL_BUCKET
  | MEMCACHED_DISTRIBUTION_CONSISTENT_MAX.

#[export] Instance distribution_eq_dec : EqDecision memcached_server_distribution_t.
Proof. solve_decision. Defined.

Inductive memcached_connection_t :=
  | MEMCACHED_CONNECTION_TCP
  | MEMCACHED_CONNECTION_UDP
  | MEMCACHED_CONNECTION_UNIX_SOCKET.

#[export] Instance connection_eq_dec : EqDecision memcached_connection_t.
Proof. solve_decision. Defined.

Definition MEMCACHED_DEFAULT_PORT : Z := 11211.
Definition MEMCACHED_MAX_KEY : Z := 4001.
Definition MEMCACHED_MAX_HOST_SORT_LENGTH : Z := 86.
Definition MEMCACHED_POINTS_PER_SERVER : Z := 160.
Definition MEMCACHED_CONTINUUM_ADDITION : Z := 10.
Definition MEMCACHED_PREFIX_KEY_MAX_SIZE : Z := 128.
Definition MEMCACHED_NI_MAXHOST : Z := 1025.
Definition MEMCACHED_NI_MAXSERV : Z := 32.
Definition UDP_DATAGRAM_HEADER_LENGTH : Z := 8.

(** [MEMCACHED_DEFAULT_COMMAND_SIZE] of common.h. *)
Definition MEMCACHED_DEFAULT_COMMAND_SIZE : Z := 512.

(** ** Servers *)

Inductive memcached_server_state_t :=
  | MEMCACHED_SERVER_STATE_NEW
  | MEMCACHED_SERVER_STATE_ADDRINFO
  | MEMCACHED_SERVER_STATE_IN_PROGRESS
  | MEMCACHED_SERVER_STATE_CONNECTED
  | MEMCACHED_SERVER_STATE_IN_TIMEOUT.

#[export] Instance server_state_eq_dec : EqDecision memcached_server_state_t.
Proof. solve_decision. Defined.

(** A pointer into the read buffer of the server in a slot of an array; the
    block tells the arrays that [realloc] returns apart. *)
Record buffer_ptr := {
  ptr_block : Z;
  ptr_slot : Z;
  ptr_offset : Z;
}.

#[export] Instance buffer_ptr_eq_dec : EqDecision buffer_ptr.
Proof. solve_decision. Defined.

(** [struct memcached_server_st], less the contents of its buffers and its
    address information.  [next] is the next server of a replication group. *)
Record memcached_server_st := {
  server_is_allocated : bool;
  is_initialized : bool;
  is_shutting_down : bool;
  is_dead : bool;
  server_number_of_hosts : Z;
  cursor_active : Z;
  port : Z;
  fd : Z;
  io_bytes_sent : Z;
  server_failure_counter : Z;
  server_failure_counter_query_id : Z;
  weight : Z;
  version : Z;
  server_state : memcached_server_state_t;
  major_version : Z;
  minor_version : Z;
  micro_version : Z;
  is_enterprise : bool;
  send_failed : bool;
  in_sasl_mech : bool;
  type : memcached_connection_t;
  read_ptr : option buffer_ptr;
  read_buffer_length : Z;
  read_data_length : Z;
  write_buffer_offset : Z;
  next_retry : Z;
  immediate_reconnect : bool;
  groupindex : Z;
  switchover_sidx : Z;
  switchover_peer : bytes;
  next : option nat;
  switchover_state : memcached_return_t;
  limit_maxbytes : Z;
  hostname : bytes;
  str_port : bytes;
}.

#[export] Instance server_fields : Fields memcached_server_st := fun s =>
  {| server_is_allocated := server_is_allocated s;
     is_initialized := is_initialized s;
     is_shutting_down := is_shutting_down s;
     is_dead := is_dead s;
     server_number_of_hosts := server_number_of_hosts s;
     cursor_active := cursor_active s;
     port := port s;
     fd := fd s;
     io_bytes_sent := io_bytes_sent s;
     server_failure_counter := server_failure_counter s;
     server_failure_counter_query_id := server_failure_counter_query_id s;
     weight := weight s;
     version := version s;
     server_state := server_state s;
     major_version := major_version s;
     minor_version := minor_version s;
     micro_version := micro_version s;
     is_enterprise := is_enterprise s;
     send_failed := send_failed s;
     in_sasl_mech := in_sasl_mech s;
     type := type s;
     read_ptr := read_ptr s;
     read_buffer_length := read_buffer_length s;
     read_data_length := read_data_length s;
     write_buffer_offset := write_buffer_offset s;
     next_retry := next_retry s;
     immediate_reconnect := immediate_reconnect s;
     groupindex := groupindex s;
     switchover_sidx := switchover_sidx s;
     switchover_peer := switchover_peer s;
     next := next s;
     switchover_state := switchover_state s;
     limit_maxbytes := limit_maxbytes s;
     hostname := hostname s;
     str_port := str_port s |}.

(** What the distribution and the server lists compare servers by. *)
Definition endpoint (s : memcached_server_st) : bytes * Z := (hostname s, port s).

(** ** Replication groups *)

Definition RGROUP_NAME_LENGTH : Z := 128.
Definition RGROUP_MAX_REPLICA : nat := 3.

(** [struct memcached_rgroup_st] (rgroup.h): [replicas] has
    [RGROUP_MAX_REPLICA] entries, pointers to servers of the handle's pool. *)
Record memcached_rgroup_st := {
  rgroup_is_allocated : bool;
  rgroup_is_initialized : bool;
  rgroup_is_shutting_down : bool;
  rgroup_is_dead : bool;
  rgroup_groupindex : Z;
  groupname : bytes;
  rgroup_weight : Z;
  nreplica : nat;
  replicas : list (option nat);
}.

#[export] Instance rgroup_fields : Fields memcached_rgroup_st := fun g =>
  {| rgroup_is_allocated := rgroup_is_allocated g;
     rgroup_is_initialized := rgroup_is_initialized g;
     rgroup_is_shutting_down := rgroup_is_shutting_down g;
     rgroup_is_dead := rgroup_is_dead g;
     rgroup_groupindex := rgroup_groupindex g;
     groupname := groupname g;
     rgroup_weight := rgroup_weight g;
     nreplica := nreplica g;
     replicas := replicas g |}.

(** ** Ketama information *)

Record memcached_continuum_item_st := {
  index : Z;
  value : Z;
}.

Record memcached_ketama_info_st := {
  continuum_refcount : Z;
  continuum_points_counter : Z;
  continuum : list memcached_continuum_item_st;
}.

#[export] Instance ketama_info_fields : Fields memcached_ketama_info_st := fun i =>
  {| continuum_refcount := continuum_refcount i;
     continuum_points_counter := continuum_points_counter i;
     continuum := continuum i |}.

(** Handles of one pool share their ketama information, so it lives in a
    store; a key that is absent is freed memory. *)
Abbreviation ketama_store := (gmap nat memcached_ketama_info_st).

Record bucket_t := { master : Z; forward : Z }.

Record memcached_virtual_bucket_t := {
  size : Z;
  vb_replicas : Z;
  buckets : list bucket_t;
}.

(** ** The handle *)

(** [ptr->flags]. *)
Record memcached_flags := {
  auto_eject_hosts : bool;
  binary_protocol : bool;
  buffer_requests : bool;
  hash_with_namespace : bool;
  enable_shard_key : bool;
  no_block : bool;
  no_reply : bool;
  piped : bool;
  multi_store : bool;
  randomize_replica_read : bool;
  support_cas : bool;
  tcp_nodelay : bool;
  use_sort_hosts : bool;
  use_udp : bool;
  verify_key : bool;
  tcp_keepalive : bool;
  repl_enabled : bool;
}.

#[export] Instance flags_fields : Fields memcached_flags := fun f =>
  {| auto_eject_hosts := auto_eject_hosts f;
     binary_protocol := binary_protocol f;
     buffer_requests := buffer_requests f;
     hash_with_namespace := hash_with_namespace f;
     enable_shard_key := enable_shard_key f;
     no_block := no_block f;
     no_reply := no_reply f;
     piped := piped f;
     multi_store := multi_store f;
     randomize_replica_read := randomize_replica_read f;
     support_cas := support_cas f;
     tcp_nodelay := tcp_nodelay f;
     use_sort_hosts := use_sort_hosts f;
     use_udp := use_udp f;
     verify_key := verify_key f;
     tcp_keepalive := tcp_keepalive f;
     repl_enabled := repl_enabled f |}.

(** [struct memcached_st], the fields that the components modelled here read
    or write.  [servers] holds the initialised slots of the server array, in
    [servers_block]; with replication the same pointer of the code heads the
    list of unused server records, which is [free_server] here, and the
    records live in [server_pool].  [ketama_info] is a key of the store. *)
Record memcached_st := {
  flags : memcached_flags;
  is_purging : bool;
  is_time_for_rebuild : bool;
  distribution : memcached_server_distribution_t;
  hashkit : hashkit_st;
  server_info_version : Z;
  number_of_hosts : Z;
  rgroup_ntotal : Z;
  server_ntotal : Z;
  server_navail : Z;
  rgroups : list memcached_rgroup_st;
  server_pool : gmap nat memcached_server_st;
  free_server : option nat;
  servers : list memcached_server_st;
  servers_block : Z;
  last_disconnected_server : option memcached_server_st;
  snd_timeout : Z;
  rcv_timeout : Z;
  server_failure_limit : Z;
  io_msg_watermark : Z;
  io_bytes_watermark : Z;
  io_key_prefetch : Z;
  tcp_keepidle : Z;
  poll_timeout : Z;
  connect_timeout : Z;
  retry_timeout : Z;
  send_size : Z;
  recv_size : Z;
  user_data : Z;
  query_id : Z;
  number_of_replicas : Z;
  ketama_weighted : bool;
  next_distribution_rebuild : Z;
  ketama_info : option nat;
  virtual_bucket : option memcached_virtual_bucket_t;
  _namespace : option bytes;
}.

#[export] Instance memcached_fields : Fields memcached_st := fun m =>
  {| flags := flags m;
     is_purging := is_purging m;
     is_time_for_rebuild := is_time_for_rebuild m;
     distribution := distribution m;
     hashkit := hashkit m;
     server_info_version := server_info_version m;
     number_of_hosts := number_of_hosts m;
     rgroup_ntotal := rgroup_ntotal m;
     server_ntotal := server_ntotal m;
     server_navail := server_navail m;
     rgroups := rgroups m;
     server_pool := server_pool m;
     free_server := free_server m;
     servers := servers m;
     servers_block := servers_block m;
     last_disconnected_server := last_disconnected_server m;
     snd_timeout := snd_timeout m;
     rcv_timeout := rcv_timeout m;
     server_failure_limit := server_failure_limit m;
     io_msg_watermark := io_msg_watermark m;
     io_bytes_watermark := io_bytes_watermark m;
     io_key_prefetch := io_key_prefetch m;
     tcp_keepidle := tcp_keepidle m;
     poll_timeout := poll_timeout m;
     connect_timeout := connect_timeout m;
     retry_timeout := retry_timeout m;
     send_size := send_size m;
     recv_size := recv_size m;
     user_data := user_data m;
     query_id := query_id m;
     number_of_replicas := number_of_replicas m;
     ketama_weighted := ketama_weighted m;
     next_distribution_rebuild := next_distribution_rebuild m;
     ketama_info := ketama_info m;
     virtual_bucket := virtual_bucket m;
     _namespace := _namespace m |}.

Definition memcached_server_count (self : memcached_st) : Z := number_of_hosts self.

(** [memcached_array_size] and [memcached_array_string] of a namespace. *)
Definition memcached_array_size (array : option bytes) : Z :=
  match array with None => 0 | Some s => Z.of_nat (length s) end.
Definition memcached_array_string (array : option bytes) : bytes :=
  default [] array.

(** [memcached_string_make_from_cstr]: the bytes up to the terminating NUL. *)
Fixpoint cstr (s : bytes) : bytes :=
  match s with
  | [] => []
  | c :: s' => if bool_decide (c = Byte.x00) then [] else c :: cstr s'
  end.

Definition no_nul (s : bytes) : Prop := Forall (fun c => c <> Byte.x00) s.

Lemma cstr_no_nul s : no_nul s -> cstr s = s.
Proof.
  induction 1 as [|c s Hc _ IH]; simpl; [done|].
  by rewrite bool_decide_eq_false_2, IH.
Qed.

(** [strcmp] on strings without NUL bytes: the sign of the difference of the
    first two bytes that differ, as [unsigned char]. *)
Fixpoint strcmp (a b : bytes) : comparison :=
  match a, b with
  | [], [] => Eq
  | [], _ => Lt
  | _, [] => Gt
  | x :: a', y :: b' =>
      match uchar x ?= uchar y with Eq => strcmp a' b' | c => c end
  end.

(** The decimal digits of a number, as [%u] prints them. *)
Fixpoint digits_fuel (fuel : nat) (n : Z) (acc : bytes) : bytes :=
  match fuel with
  | O => acc
  | S fuel =>
      let acc := byte_of_Z (48 + n mod 10) :: acc in
      if n <? 10 then acc else digits_fuel fuel (n / 10) acc
  end.
Definition print_u32 (n : Z) : bytes := digits_fuel 10 n [].
Definition print_u64 (n : Z) : bytes := digits_fuel 20 n [].
Definition print_i64 (n : Z) : bytes := if n <? 0 then str "-" ++ print_u64 (- n) else print_u64 n.

(** [_memcached_init]: every field is assigned. *)
Definition _memcached_init : memcached_st :=
  {| flags :=
       {| auto_eject_hosts := false; binary_protocol := false; buffer_requests := false;
          hash_with_namespace := false; enable_shard_key := false; no_block := false;
          no_reply := false; piped := false; multi_store := false;
          randomize_replica_read := false; support_cas := false; tcp_nodelay := false;
          use_sort_hosts := false; use_udp := false; verify_key := false;
          tcp_keepalive := false; repl_enabled := false |};
     is_purging := false;
     is_time_for_rebuild := false;
     distribution := MEMCACHED_DISTRIBUTION_MODULA;
     hashkit := _hashkit_init (with_is_allocated hashkit_calloc false);
     server_info_version := 0;
     number_of_hosts := 0;
     rgroup_ntotal := 0;
     server_ntotal := 0;
     server_navail := 0;
     rgroups := [];
     server_pool := ∅;
     free_server := None;
     servers := [];
     servers_block := 0;
     last_disconnected_server := None;
     snd_timeout := 0;
     rcv_timeout := 0;
     server_failure_limit := 5;
     io_msg_watermark := 500;
     io_bytes_watermark := 65 * 1024;
     io_key_prefetch := 0;
     tcp_keepidle := 0;
     poll_timeout := 700;
     connect_timeout := 1000;
     retry_timeout := 1;
     send_size := -1;
     recv_size := -1;
     user_data := 0;
     query_id := 1;
     number_of_replicas := 0;
     ketama_weighted := false;
     next_distribution_rebuild := 0;
     ketama_info := None;
     virtual_bucket := None;
     _namespace := None |}.

(** ** Decimal numbers *)

Definition isdigit (c : byte) : bool := (48 <=? uchar c) && (uchar c <=? 57).

(** The value of a string of digits. *)
Definition decimal (s : bytes) : Z := fold_left (fun v c => 10 * v + (uchar c - 48)) s 0.

Lemma digit_byte d : 0 <= d < 10 -> uchar (byte_of_Z (48 + d)) = 48 + d.
Proof. intros Hd. rewrite uchar_byte_of_Z. apply Z.mod_small. lia. Qed.

Lemma digits_fuel_spec fuel n acc :
  0 <= n < 10 ^ Z.of_nat fuel ->
  exists ds, digits_fuel fuel n acc = ds ++ acc
    /\ Forall (fun c => isdigit c = true) ds
    /\ fold_left (fun v c => 10 * v + (uchar c - 48)) ds 0 = n.
Proof.
  revert n acc. induction fuel as [|fuel IH]; intros n acc Hn.
  - simpl in Hn. exists []. split_and!; [done|constructor|simpl; lia].
  - cbn [digits_fuel]. pose proof (Z.mod_pos_bound n 10 ltac:(lia)) as Hmod.
    pose proof (digit_byte (n mod 10) ltac:(lia)) as Hd.
    assert (isdigit (byte_of_Z (48 + n mod 10)) = true) as Hdigit
      by (unfold isdigit; rewrite Hd; lia).
    destruct (Z.ltb_spec n 10) as [Hlt|Hge].
    + exists [byte_of_Z (48 + n mod 10)]. split_and!; [done|by repeat constructor|].
      cbn [fold_left]. rewrite Hd, Z.mod_small by lia. lia.
    + rewrite Nat2Z.inj_succ, Z.pow_succ_r in Hn by lia.
      destruct (IH (n / 10) (byte_of_Z (48 + n mod 10) :: acc)) as (ds & -> & Hds & Hv);
        [Z.div_mod_to_equations; lia|].
      exists (ds ++ [byte_of_Z (48 + n mod 10)]). rewrite <-app_assoc. split_and!; [done| |].
      * apply Forall_app. split; [done|by repeat constructor].
      * rewrite fold_left_app, Hv. cbn [fold_left]. rewrite Hd.
        pose proof (Z.div_mod n 10 ltac:(lia)). lia.
Qed.

Lemma print_u32_spec n :
  is_u32 n -> Forall (fun c => isdigit c = true) (print_u32 n) /\ decimal (print_u32 n) = n.
Proof.
  intros Hn. unfold print_u32, decimal.
  destruct (digits_fuel_spec 10 n []) as (ds & -> & Hds & Hv); [lia|].
  by rewrite app_nil_r.
Qed.

Lemma print_u32_inj m n : is_u32 m -> is_u32 n -> print_u32 m = print_u32 n -> m = n.
Proof.
  intros Hm Hn E. rewrite <-(proj2 (print_u32_spec m Hm)), <-(proj2 (print_u32_spec n Hn)).
  by rewrite E.
Qed.

(** A separator that does not occur after its last use determines both sides. *)
Lemma app_last_inj (c : byte) a b d d' :
  c ∉ d -> c ∉ d' -> a ++ c :: d = b ++ c :: d' -> a = b /\ d = d'.
Proof.
  intros Hd Hd'. revert b. induction a as [|x a IH]; intros [|y b]; simpl; intros E.
  - by simplify_eq.
  - simplify_eq. exfalso. apply Hd. set_solver.
  - simplify_eq. exfalso. apply Hd'. set_solver.
  - simplify_eq. destruct (IH b) as [-> ->]; done.
Qed.

Lemma isdigit_not_in c s :
  isdigit c = false -> Forall (fun c => isdigit c = true) s -> c ∉ s.
Proof. intros Hc Hs Hin. rewrite Forall_forall in Hs. apply Hs in Hin. congruence. Qed.
