(* ===== verification/Text.v ===== *)
(** Text in memory: the functions of the C library that the readers of responses
    use, on the bytes from a pointer to the end of its buffer.  [None] is a read
    behind the buffer. *)
From S2P Require Import Prelude HashFunctions Hashkit Memcached.

(** In the C locale; a [char] above 127 is in none of the classes. *)
Definition isspace (c : byte) : bool := (uchar c =? 32) || ((9 <=? uchar c) && (uchar c <=? 13)).
Definition iscntrl (c : byte) : bool := (uchar c <? 32) || (uchar c =? 127).

(** The bytes before the first one that is not in a class, and those from it
    on. *)
Fixpoint span (p : byte -> bool) (s : bytes) : option (bytes * bytes) :=
  match s with
  | [] => None
  | c :: s' =>
      if p c then
        '(a, b) ← span p s';
        Some (c :: a, b)
      else Some ([], s)
  end.

(** The sign, the digits and the length of a number, 0 when there is none. *)
Definition scan_number (s : bytes) : option (bool * bytes * nat) :=
  '(spaces, s) ← span isspace s;
  c ← s !! 0%nat;
  let signed : bool := (uchar c =? 45) || (uchar c =? 43) in
  '(digits, _) ← span isdigit (if signed then drop 1 s else s);
  Some (uchar c =? 45, digits,
        match digits with
        | [] => 0%nat
        | _ :: _ => (length spaces + (if signed then 1 else 0) + length digits)%nat
        end).

(** [strtoull] and [strtoul], in base 10, for an [unsigned long] of 64 bits: the
    value and the number of bytes taken. *)
Definition strtoull (s : bytes) : option (Z * nat) :=
  '(negative, digits, n) ← scan_number s;
  let v := decimal digits in
  Some (if v >=? 2 ^ 64 then 2 ^ 64 - 1 else if negative : bool then u64 (- v) else v, n).

Definition LONG_MIN : Z := - 2 ^ 63.
Definition LONG_MAX : Z := 2 ^ 63 - 1.

(** [strtol]: the value, the number of bytes taken and whether it is out of
    range. *)
Definition strtol (s : bytes) : option (Z * nat * bool) :=
  '(negative, digits, n) ← scan_number s;
  let v := if negative : bool then - decimal digits else decimal digits in
  Some (if v >? LONG_MAX then (LONG_MAX, n, true)
        else if v <? LONG_MIN then (LONG_MIN, n, true) else (v, n, false)).

(** [memcmp(s, lit, sizeof(lit)) == 0]. *)
Fixpoint starts (lit s : bytes) : bool :=
  match lit, s with
  | [], _ => true
  | c :: lit, x :: s => bool_decide (x = c) && starts lit s
  | _, [] => false
  end.

Definition memcmp_eq (s lit : bytes) : option bool :=
  if (length lit <=? length s)%nat then Some (starts lit s) else None.

(** The rest of [s] at the first [c], when it is in the string. *)
Definition strchr (s : bytes) (c : byte) : option (option bytes) :=
  '(_, rest) ← span (fun x => negb (bool_decide (x = c)) && negb (bool_decide (x = Byte.x00))) s;
  Some (match rest with
        | x :: _ => if bool_decide (x = c) then Some rest else None
        | [] => None
        end).

(** Whether [c] is in the string: [strrchr] is not NULL. *)
Definition strrchr_found (s : bytes) (c : byte) : option bool :=
  '(string, _) ← span (fun x => negb (bool_decide (x = Byte.x00))) s;
  Some (bool_decide (c ∈ string)).

(** ** Numbers in memory *)

(** The value of bytes in big endian and in little endian order. *)
Definition of_be (s : bytes) : Z := fold_left (fun v c => 256 * v + uchar c) s 0.
Definition of_le (s : bytes) : Z := of_be (rev s).

(** The [n] bytes of a number in little endian order. *)
Fixpoint to_le (n : nat) (v : Z) : bytes :=
  match n with O => [] | S n => byte_of_Z v :: to_le n (v / 256) end.

(** ** Lemmas *)

Lemma span_app p s c t :
  Forall (fun c => p c = true) s -> p c = false -> span p (s ++ c :: t) = Some (s, c :: t).
Proof.
  intros Hs Hc. induction Hs as [|x s Hx _ IH]; cbn; [by rewrite Hc|].
  by rewrite Hx, IH.
Qed.

Lemma isdigit_isspace c : isdigit c = true -> isspace c = false.
Proof. unfold isdigit, isspace. lia. Qed.

Lemma isdigit_sign c : isdigit c = true -> (uchar c =? 45) = false /\ (uchar c =? 43) = false.
Proof. unfold isdigit. lia. Qed.

Lemma scan_digits ds c t :
  Forall (fun c => isdigit c = true) ds -> ds <> [] -> isdigit c = false ->
  scan_number (ds ++ c :: t) = Some (false, ds, length ds).
Proof.
  intros Hds Hne Hc. destruct ds as [|d ds]; [done|].
  pose proof (Forall_inv Hds) as Hd. destruct (isdigit_sign d Hd) as [H45 H43].
  unfold scan_number. cbn [app span]. rewrite (isdigit_isspace d Hd). cbn. rewrite H45, H43. cbn.
  rewrite Hd. rewrite (span_app isdigit ds c t (Forall_inv_tail Hds) Hc). done.
Qed.

Lemma strtoull_digits ds c t :
  Forall (fun c => isdigit c = true) ds -> ds <> [] -> isdigit c = false ->
  decimal ds < 2 ^ 64 -> strtoull (ds ++ c :: t) = Some (decimal ds, length ds).
Proof.
  intros Hds Hne Hc Hv. unfold strtoull. rewrite scan_digits by done. cbn.
  by rewrite (proj2 (Z.geb_leb _ _)) || (replace (decimal ds >=? 2 ^ 64) with false by lia).
Qed.

Lemma starts_spec lit s : starts lit s = true <-> take (length lit) s = lit.
Proof.
  revert s; induction lit as [|c lit IH]; intros s; [done|]. destruct s as [|x s]; [done|].
  cbn [starts length take]. rewrite andb_true_iff, IH, bool_decide_eq_true.
  split; [by intros [-> ->] | by intros [= -> ->]].
Qed.

Lemma memcmp_eq_long s lit : (length lit <= length s)%nat -> memcmp_eq s lit = Some (starts lit s).
Proof. intros Hl. unfold memcmp_eq. by rewrite (proj2 (Nat.leb_le _ _)). Qed.

(** ** Printed numbers *)

Lemma digits_fuel_length fuel n : forall acc, (length (digits_fuel fuel n acc) <= fuel + length acc)%nat.
Proof.
  revert n. induction fuel as [|fuel IH]; intros n acc; cbn [digits_fuel]; [lia|].
  cbv zeta. destruct (n <? 10); cbn; [lia|].
  etransitivity; [apply IH|]. cbn. lia.
Qed.

(** Fewer digits for smaller numbers. *)
Lemma digits_fuel_short fuel k : forall n acc,
  0 <= n < 10 ^ Z.of_nat (S k) -> (length (digits_fuel fuel n acc) <= S k + length acc)%nat.
Proof.
  revert k. induction fuel as [|fuel IH]; intros k n acc Hn; cbn [digits_fuel]; [lia|].
  cbv zeta. destruct (Z.ltb_spec n 10); [cbn; lia|]. destruct k as [|k]; [lia|].
  etransitivity; [apply (IH k)|cbn; lia].
  rewrite (Nat2Z.inj_succ (S k)), Z.pow_succ_r in Hn by lia. Z.div_mod_to_equations. lia.
Qed.

Lemma print_u32_length n : (length (print_u32 n) <= 10)%nat.
Proof. etransitivity; [apply digits_fuel_length|]. cbn. lia. Qed.

Lemma print_u64_length n : (length (print_u64 n) <= 20)%nat.
Proof. etransitivity; [apply digits_fuel_length|]. cbn. lia. Qed.

Lemma print_i64_length n : - 2 ^ 63 <= n < 2 ^ 63 -> (length (print_i64 n) <= 20)%nat.
Proof.
  intros Hn. unfold print_i64. destruct (Z.ltb_spec n 0); [|apply print_u64_length].
  rewrite length_app. change (length (str "-")) with 1%nat.
  pose proof (digits_fuel_short 20 18 (- n) []). unfold print_u64. cbn [length] in *. lia.
Qed.

Lemma print_u64_spec n :
  is_u64 n -> Forall (fun c => isdigit c = true) (print_u64 n) /\ decimal (print_u64 n) = n.
Proof.
  intros Hn. unfold print_u64, decimal.
  destruct (digits_fuel_spec 20 n []) as (ds & -> & Hds & Hv); [lia|]. by rewrite app_nil_r.
Qed.

Lemma digits_fuel_cons fuel n acc :
  exists c s, digits_fuel (S fuel) n acc = c :: s.
Proof.
  revert n acc. induction fuel as [|fuel IH]; intros n acc; cbn [digits_fuel]; cbv zeta.
  - case_match; eauto.
  - destruct (n <? 10); [eauto|]. apply IH.
Qed.

(** The first byte of a number, to be read as a token. *)
Lemma print_u32_cons n : exists c s, print_u32 n = c :: s.
Proof. apply digits_fuel_cons. Qed.
Lemma print_u64_cons n : exists c s, print_u64 n = c :: s.
Proof. apply digits_fuel_cons. Qed.
