(* ===== verification/KeyHash.v ===== *)
(** From a key to the position of its server: key.cc, namespace.cc, hash.cc and
    virtual_bucket.c.

    Reads of the C code that have no defined result (an empty continuum, a
    NULL ketama information, a division by zero servers) are [None]. *)
From S2P Require Import Prelude HashFunctions Hashkit Memcached.

(** ** Definitions *)

Definition isgraph (c : byte) : bool := (33 <=? uchar c) && (uchar c <=? 126).

Definition memcached_validate_key_length (key_length : Z) (binary : bool)
    : memcached_return_t :=
  if key_length =? 0 then MEMCACHED_BAD_KEY_PROVIDED
  else if binary then
    if 0xffff <? key_length then MEMCACHED_BAD_KEY_PROVIDED else MEMCACHED_SUCCESS
  else if MEMCACHED_MAX_KEY <=? key_length then MEMCACHED_BAD_KEY_PROVIDED
  else MEMCACHED_SUCCESS.

(** The loop over the keys returns at the first key that fails. *)
Fixpoint key_test_loop (memc : memcached_st) (keys : list bytes) : memcached_return_t :=
  match keys with
  | [] => MEMCACHED_SUCCESS
  | key :: keys =>
      let is_binary := binary_protocol (flags memc) in
      let rc := memcached_validate_key_length (Z.of_nat (length key)) is_binary in
      if bool_decide (rc <> MEMCACHED_SUCCESS) then rc
      else if verify_key (flags memc) && negb is_binary && negb (forallb isgraph key)
      then MEMCACHED_BAD_KEY_PROVIDED
      else key_test_loop memc keys
  end.

(** [keys = None] is a NULL array of keys or of lengths. *)
Definition memcached_key_test (memc : memcached_st) (keys : option (list bytes))
    : memcached_return_t :=
  match keys with
  | None | Some [] => MEMCACHED_INVALID_ARGUMENTS
  | Some keys => key_test_loop memc keys
  end.

(** [key = None] is NULL; [malloc_ok] is whether [memcached_strcpy] gets its
    memory. *)
Definition memcached_set_namespace (malloc_ok : bool) (self : memcached_st)
    (key : option bytes) (key_length : Z) : memcached_return_t * memcached_st :=
  match key with
  | Some key =>
      if key_length =? 0 then (MEMCACHED_INVALID_ARGUMENTS, self)
      else
        let key := take (Z.to_nat key_length) key in
        let rc := memcached_key_test (self <| flags ::= fun f => f <| verify_key := true |> |>)
                    (Some [key]) in
        if memcached_failed rc then (rc, self)
        else if MEMCACHED_PREFIX_KEY_MAX_SIZE - 1 <? key_length
        then (MEMCACHED_KEY_TOO_BIG, self)
        else if malloc_ok then (MEMCACHED_SUCCESS, self <| _namespace := Some key |>)
        else (MEMCACHED_MEMORY_ALLOCATION_FAILURE, self <| _namespace := None |>)
  | None =>
      if key_length =? 0 then (MEMCACHED_SUCCESS, self <| _namespace := None |>)
      else (MEMCACHED_INVALID_ARGUMENTS, self)
  end.

(** [memchr]: the offset of the first byte equal to [c]. *)
Fixpoint memchr (c : byte) (s : bytes) : option nat :=
  match s with
  | [] => None
  | x :: s => if bool_decide (x = c) then Some 0%nat else S <$> memchr c s
  end.

(** The bytes between the first ['{'] and the first ['}'] after it, when there
    are any. *)
Definition get_shard_key (key : bytes) : bytes :=
  match memchr (byte_of_Z 123) key with
  | None => key
  | Some lpos =>
      let rest := drop (S lpos) key in
      match memchr (byte_of_Z 125) rest with
      | None => key
      | Some 0%nat => key
      | Some rpos => take rpos rest
      end
  end.

(** [strncpy(dst, s, n)] fills the rest of [dst] with NUL bytes once it has
    met one. *)
Definition strncpy (s : bytes) (n : nat) : bytes :=
  let c := cstr (take n s) in c ++ replicate (n - length c) Byte.x00.

Section Dispatch.
Context {config : BuildConfig}.
Variable custom : nat -> bytes -> option Z -> Z.

Definition memcached_generate_hash_value (key : bytes) (a : hashkit_hash_algorithm_t) : Z :=
  libhashkit_digest key a.

Definition generate_hash (ptr : memcached_st) (key : bytes) : Z :=
  let key := if enable_shard_key (flags ptr) then get_shard_key key else key in
  hashkit_digest custom (hashkit ptr) key.

Definition _generate_hash_wrapper (ptr : memcached_st) (key : bytes) : Z :=
  if memcached_server_count ptr =? 1 then 0
  else if 0 <? memcached_array_size (_namespace ptr) then
    let ns := memcached_array_string (_namespace ptr) in
    let temp_length := memcached_array_size (_namespace ptr) + Z.of_nat (length key) in
    if MEMCACHED_MAX_KEY <=? temp_length then 0
    else generate_hash ptr (strncpy ns (length ns) ++ strncpy key (length key))
  else generate_hash ptr key.

(** [while (left < right)] over positions of the continuum.  [None] is the
    fuel running out; a middle outside the array would be an invalid read. *)
Fixpoint ketama_search (fuel : nat) (items : list memcached_continuum_item_st)
    (hash : Z) (left right : nat) : option nat :=
  match fuel with
  | O => None
  | S fuel =>
      if (left <? right)%nat then
        let middle := (left + (right - left) / 2)%nat in
        match items !! middle with
        | None => None
        | Some item =>
            if value item <? hash then ketama_search fuel items hash (S middle) right
            else ketama_search fuel items hash left middle
        end
      else Some right
  end.

(** [while (right > begin && (right-1)->value == hash) right= right-1;]. *)
Fixpoint ketama_first (items : list memcached_continuum_item_st) (hash : Z) (right : nat)
    : nat :=
  match right with
  | O => O
  | S right' =>
      match items !! right' with
      | Some item => if value item =? hash then ketama_first items hash right' else right
      | None => right
      end
  end.

Definition ketama_dispatch (info : memcached_ketama_info_st) (hash : Z) : option Z :=
  let num := Z.to_nat (continuum_points_counter info) in
  match ketama_search (S num) (continuum info) hash 0 num with
  | None => None
  | Some pos =>
      let pos := if (pos =? num)%nat then 0%nat else pos in
      let pos := ketama_first (continuum info) hash pos in
      index <$> continuum info !! pos
  end.

(** The function tests [virtual_bucket] twice; its last line is not reached. *)
Definition memcached_virtual_bucket_get (self : memcached_st) (digest : Z) : option Z :=
  match virtual_bucket self with
  | None => Some 0
  | Some vb => master <$> buckets vb !! Z.to_nat (digest .& (size vb ⊟ 1))
  end.

(** [rnd] is what [random()] returns. *)
Definition dispatch_host (store : ketama_store) (rnd : Z) (ptr : memcached_st) (hash : Z)
    : option Z :=
  let modula v :=
    if memcached_server_count ptr =? 0 then None else Some (v mod memcached_server_count ptr) in
  match distribution ptr with
  | MEMCACHED_DISTRIBUTION_CONSISTENT
  | MEMCACHED_DISTRIBUTION_CONSISTENT_KETAMA
  | MEMCACHED_DISTRIBUTION_CONSISTENT_KETAMA_SPY =>
      match ketama_info ptr with
      | None => None
      | Some k =>
          match store !! k with
          | None => None
          | Some info => ketama_dispatch info hash
          end
      end
  | MEMCACHED_DISTRIBUTION_MODULA => modula hash
  | MEMCACHED_DISTRIBUTION_RANDOM => modula (u32 rnd)
  | MEMCACHED_DISTRIBUTION_VIRTUAL_BUCKET => memcached_virtual_bucket_get ptr hash
  | MEMCACHED_DISTRIBUTION_CONSISTENT_MAX => modula hash
  end.

Definition memcached_generate_hash (store : ketama_store) (rnd : Z) (ptr : memcached_st)
    (key : bytes) : option Z :=
  dispatch_host store rnd ptr (_generate_hash_wrapper ptr key).
End Dispatch.

Definition memcached_virtual_bucket_free (self : memcached_st) : memcached_st :=
  self <| virtual_bucket := None |>.

(** The maps are the caller's arrays of [nbuckets] entries; [None] is NULL. *)
Definition memcached_virtual_bucket_create (malloc_ok : bool) (self : memcached_st)
    (host_map forward_map : option (list Z)) (nbuckets replicas : Z)
    : memcached_return_t * memcached_st :=
  match host_map with
  | None => (MEMCACHED_INVALID_ARGUMENTS, self)
  | Some host_map =>
      if nbuckets =? 0 then (MEMCACHED_INVALID_ARGUMENTS, self)
      else
        let self := memcached_virtual_bucket_free self in
        if negb malloc_ok then (MEMCACHED_MEMORY_ALLOCATION_FAILURE, self)
        else
          let bucket x :=
            {| master := nth x host_map 0;
               forward := match forward_map with Some m => nth x m 0 | None => 0 end |} in
          (MEMCACHED_SUCCESS,
           self <| virtual_bucket :=
             Some {| size := nbuckets; vb_replicas := replicas;
                     buckets := map bucket (seq 0 (Z.to_nat nbuckets)) |} |>)
  end.

(** ** The continuum as a specification *)

(** The first item, in the order of the list, whose value is at least [hash];
    past the last one the ring wraps to the first item. *)
Definition ketama_successor (items : list memcached_continuum_item_st) (hash : Z)
    : option memcached_continuum_item_st :=
  match List.find (fun item => hash <=? value item) items with
  | Some item => Some item
  | None => head items
  end.

Definition sorted_by_value (items : list memcached_continuum_item_st) : Prop :=
  forall i j a b, (i <= j)%nat -> items !! i = Some a -> items !! j = Some b ->
    value a <= value b.

(** ** Binary search *)

(** The search returns, whatever the fuel above the width of the interval, and
    the position it returns splits the items into those below [hash] and the
    others. *)
Lemma ketama_search_spec items hash fuel left right :
  sorted_by_value items ->
  (left <= right <= length items)%nat -> (right - left < fuel)%nat ->
  (forall i item, (i < left)%nat -> items !! i = Some item -> value item < hash) ->
  (forall i item, (right <= i)%nat -> items !! i = Some item -> hash <= value item) ->
  exists p, ketama_search fuel items hash left right = Some p
    /\ (p <= length items)%nat
    /\ (forall i item, (i < p)%nat -> items !! i = Some item -> value item < hash)
    /\ (forall i item, (p <= i)%nat -> items !! i = Some item -> hash <= value item).
Proof.
  intros Hsorted. revert left right.
  induction fuel as [|fuel IH]; intros left right Hlr Hfuel Hbelow Habove; [lia|].
  cbn [ketama_search]. destruct (Nat.ltb_spec left right) as [Hlt|Hge].
  - set (middle := (left + (right - left) / 2)%nat).
    assert (left <= middle < right)%nat as Hm.
    { pose proof (Nat.div_lt (right - left) 2 ltac:(lia) ltac:(lia)). unfold middle. lia. }
    destruct (lookup_lt_is_Some_2 items middle ltac:(lia)) as [item Hitem].
    rewrite Hitem. destruct (Z.ltb_spec (value item) hash) as [Hv|Hv].
    + apply IH; [lia|lia| |done]. intros i it Hi Hit.
      pose proof (Hsorted i middle it item ltac:(lia) Hit Hitem). lia.
    + apply IH; [lia|lia|done|]. intros i it Hi Hit.
      pose proof (Hsorted middle i item it ltac:(lia) Hitem Hit). lia.
  - exists right. split_and!; [done|lia| |done].
    intros i item Hi. apply Hbelow. lia.
Qed.

Lemma find_split {A} (f : A -> bool) l p x :
  (forall i y, (i < p)%nat -> l !! i = Some y -> f y = false) ->
  l !! p = Some x -> f x = true -> List.find f l = Some x.
Proof.
  revert p. induction l as [|y l IH]; intros p Hbelow Hp Hx; [done|]. simpl.
  destruct p as [|p]; simplify_eq/=; [by rewrite Hx|].
  rewrite (Hbelow 0%nat y) by (done || lia). apply (IH p); [|done..].
  intros i z Hi Hz. apply (Hbelow (S i)); [lia|done].
Qed.

Lemma find_none_all {A} (f : A -> bool) l :
  (forall i y, l !! i = Some y -> f y = false) -> List.find f l = None.
Proof.
  induction l as [|y l IH]; intros Hall; simpl; [done|].
  rewrite (Hall 0%nat y) by done. apply IH. intros i z Hz. by apply (Hall (S i)).
Qed.

(** The loop over equal values has nothing to do after a search for the first
    position. *)
Lemma ketama_first_done items hash p :
  (forall i item, (i < p)%nat -> items !! i = Some item -> value item < hash) ->
  ketama_first items hash p = p.
Proof.
  destruct p as [|p]; intros Hbelow; [done|]. simpl.
  destruct (items !! p) as [item|] eqn:Hp; [|done].
  pose proof (Hbelow p item ltac:(lia) Hp).
  by rewrite (proj2 (Z.eqb_neq _ _)) by lia.
Qed.

Lemma ketama_dispatch_spec info hash :
  sorted_by_value (continuum info) ->
  continuum_points_counter info = Z.of_nat (length (continuum info)) ->
  ketama_dispatch info hash = index <$> ketama_successor (continuum info) hash.
Proof.
  intros Hsorted Hnum. unfold ketama_dispatch. rewrite Hnum, Nat2Z.id.
  destruct (ketama_search_spec (continuum info) hash (S (length (continuum info)))
    0 (length (continuum info))) as (p & -> & Hp & Hbelow & Habove);
    [done|lia|lia|lia| |].
  { intros i item Hi Hl. apply lookup_lt_Some in Hl. lia. }
  unfold ketama_successor.
  destruct (Nat.eqb_spec p (length (continuum info))) as [->|Hne].
  - rewrite find_none_all; [|intros i item Hi; apply Z.leb_gt;
      eapply Hbelow; [by eapply lookup_lt_Some|done]].
    by destruct (continuum info).
  - rewrite ketama_first_done by done.
    destruct (lookup_lt_is_Some_2 (continuum info) p ltac:(lia)) as [item Hitem].
    rewrite Hitem, (find_split _ _ p item); [done| |done|].
    + intros i y Hi Hy. apply Z.leb_gt. eauto.
    + apply Z.leb_le. eapply Habove; [|done]. lia.
Qed.

(** ** Properties *)

(** C4: on a sorted continuum the binary search terminates and the server it
    selects is the one of the first point at or after the hash, wrapping to the
    first point of the ring; every step reads inside the array. *)
Theorem dispatch_host_ketama store rnd ptr k info hash :
  distribution ptr ∈ [MEMCACHED_DISTRIBUTION_CONSISTENT;
                      MEMCACHED_DISTRIBUTION_CONSISTENT_KETAMA;
                      MEMCACHED_DISTRIBUTION_CONSISTENT_KETAMA_SPY] ->
  ketama_info ptr = Some k -> store !! k = Some info ->
  sorted_by_value (continuum info) ->
  continuum_points_counter info = Z.of_nat (length (continuum info)) ->
  dispatch_host store rnd ptr hash = index <$> ketama_successor (continuum info) hash.
Proof.
  intros Hdist Hk Hinfo Hsorted Hnum. unfold dispatch_host.
  rewrite Hk, Hinfo, (ketama_dispatch_spec info) by done.
  set_unfold. by destruct Hdist as [-> | [-> | [-> | []]]].
Qed.

Lemma dispatch_host_ketama_witness :
  let items := [{| index := 1; value := 10 |}; {| index := 0; value := 20 |};
                {| index := 2; value := 20 |}] in
  let info := {| continuum_refcount := 1; continuum_points_counter := 3;
                 continuum := items |} in
  let ptr := _memcached_init <| ketama_info := Some 0%nat |>
               <| distribution := MEMCACHED_DISTRIBUTION_CONSISTENT_KETAMA_SPY |> in
  dispatch_host {[ 0%nat := info ]} 0 ptr 15 = Some 0
  /\ dispatch_host {[ 0%nat := info ]} 0 ptr 21 = Some 1.
Proof.
  intros items info ptr. assert (sorted_by_value items) as Hsorted.
  { intros i j a b Hij Ha Hb.
    do 3 (destruct i as [|i]; [do 3 (destruct j as [|j]; [simplify_eq/=; lia|]); done|]).
    done. }
  split; rewrite (dispatch_host_ketama _ _ ptr 0 info); try done; set_solver.
Defined.

(** *** Range *)

(** What [run_distribution] establishes for the distributions that use the
    continuum, and [memcached_virtual_bucket_create] for its own. *)
Definition dispatch_ready (store : ketama_store) (ptr : memcached_st) : Prop :=
  0 < number_of_hosts ptr /\
  match distribution ptr with
  | MEMCACHED_DISTRIBUTION_CONSISTENT
  | MEMCACHED_DISTRIBUTION_CONSISTENT_KETAMA
  | MEMCACHED_DISTRIBUTION_CONSISTENT_KETAMA_SPY =>
      exists k info, ketama_info ptr = Some k /\ store !! k = Some info
        /\ sorted_by_value (continuum info) /\ continuum info <> []
        /\ continuum_points_counter info = Z.of_nat (length (continuum info))
        /\ Forall (fun item => 0 <= index item < number_of_hosts ptr) (continuum info)
  | MEMCACHED_DISTRIBUTION_VIRTUAL_BUCKET =>
      exists vb, virtual_bucket ptr = Some vb /\ 0 < size vb < 2 ^ 32
        /\ size vb = Z.of_nat (length (buckets vb))
        /\ Forall (fun b => 0 <= master b < number_of_hosts ptr) (buckets vb)
  | _ => True
  end.

Lemma ketama_successor_in items hash :
  items <> [] -> exists item, ketama_successor items hash = Some item /\ item ∈ items.
Proof.
  intros Hne. unfold ketama_successor. destruct (List.find _ items) as [item|] eqn:Hfind.
  - apply find_some in Hfind as [Hin _]. exists item. by rewrite list_elem_of_In.
  - destruct items as [|item items]; [done|]. exists item. split; [done|left].
Qed.

(** C3: on a handle that is ready, every hash is dispatched to a position
    within the server list, under every distribution; no read of the
    continuum or of the buckets is out of bounds, also when the number of
    buckets is not a power of two. *)
Theorem dispatch_host_range store rnd ptr hash :
  dispatch_ready store ptr -> 0 <= hash ->
  exists i, dispatch_host store rnd ptr hash = Some i /\ 0 <= i < number_of_hosts ptr.
Proof.
  intros [Hn Hready] Hhash. unfold dispatch_host, memcached_server_count.
  rewrite (proj2 (Z.eqb_neq _ _)) by lia.
  assert (forall v, exists i, Some (v mod number_of_hosts ptr) = Some i
    /\ 0 <= i < number_of_hosts ptr) as Hmod.
  { intros v. eexists. split; [done|]. apply Z.mod_pos_bound. lia. }
  destruct (distribution ptr); try apply Hmod.
  4: { destruct Hready as (vb & Hvb & Hsize & Hlen & Hall).
    unfold memcached_virtual_bucket_get. rewrite Hvb, u32_small by lia.
    assert (0 <= hash .& (size vb - 1) <= size vb - 1) as Hb.
    { split; [apply Z.land_nonneg; lia|]. apply land_le_r; lia. }
    destruct (lookup_lt_is_Some_2 (buckets vb) (Z.to_nat (hash .& (size vb - 1))))
      as [b Hl]; [lia|].
    rewrite Hl. exists (master b). split; [done|].
    rewrite Forall_lookup in Hall. eauto. }
  all: destruct Hready as (k & info & Hk & Hinfo & Hsorted & Hne & Hnum & Hall);
    rewrite Hk, Hinfo, (ketama_dispatch_spec info) by done;
    destruct (ketama_successor_in (continuum info) hash Hne) as (item & -> & Hin);
    rewrite Forall_forall in Hall; exists (index item); split; [done|auto].
Qed.

Lemma dispatch_host_range_witness :
  let vb := {| size := 3; vb_replicas := 0;
               buckets := [{| master := 0; forward := 0 |}; {| master := 1; forward := 0 |};
                           {| master := 1; forward := 0 |}] |} in
  let ptr := _memcached_init <| distribution := MEMCACHED_DISTRIBUTION_VIRTUAL_BUCKET |>
               <| virtual_bucket := Some vb |> <| number_of_hosts := 2 |> in
  exists i, dispatch_host ∅ 0 ptr 7 = Some i /\ 0 <= i < 2.
Proof.
  intros vb ptr. apply (dispatch_host_range ∅ 0 ptr 7); [|lia].
  split; [done|]. exists vb. split_and!; [done|done|done|done|].
  repeat constructor; simpl; lia.
Defined.

(** *** Keys *)

(** What [memcached_key_test] accepts. *)
Definition valid_key (memc : memcached_st) (key : bytes) : Prop :=
  0 < Z.of_nat (length key) /\
  if binary_protocol (flags memc) then Z.of_nat (length key) <= 0xffff
  else Z.of_nat (length key) < MEMCACHED_MAX_KEY
       /\ (verify_key (flags memc) = true -> Forall (fun c => isgraph c = true) key).

Lemma validate_key_length_success n binary :
  0 <= n ->
  memcached_validate_key_length n binary = MEMCACHED_SUCCESS <->
  0 < n /\ if binary then n <= 0xffff else n < MEMCACHED_MAX_KEY.
Proof.
  intros Hn. unfold memcached_validate_key_length.
  destruct (Z.eqb_spec n 0), binary, (Z.ltb_spec 0xffff n),
    (Z.leb_spec MEMCACHED_MAX_KEY n); split; intros; first [done|lia].
Qed.

Lemma key_test_loop_spec memc l :
  (key_test_loop memc l = MEMCACHED_SUCCESS /\ Forall (valid_key memc) l)
  \/ (key_test_loop memc l = MEMCACHED_BAD_KEY_PROVIDED /\ ~ Forall (valid_key memc) l).
Proof.
  induction l as [|key l IH]; [left; split; [done|constructor]|]. cbn [key_test_loop].
  rewrite Forall_cons. unfold valid_key at 1 3.
  pose proof (validate_key_length_success (Z.of_nat (length key))
    (binary_protocol (flags memc)) ltac:(lia)) as Hlen.
  case_bool_decide as Hrc.
  - right. split; [|intros [Hkey _]; apply Hrc, Hlen; destruct (binary_protocol _); tauto].
    revert Hrc. unfold memcached_validate_key_length. by repeat case_match.
  - apply Hlen in Hrc as [Hpos Hrc].
    destruct (binary_protocol (flags memc)); simpl in *.
    + rewrite andb_false_r. simpl. naive_solver.
    + rewrite andb_true_r. destruct (verify_key (flags memc)); simpl; [|naive_solver].
      destruct (forallb isgraph key) eqn:Hg; simpl.
      * rewrite forallb_forall in Hg.
        assert (Forall (fun c => isgraph c = true) key) by (by apply List.Forall_forall).
        naive_solver.
      * right. split; [done|]. intros [(_ & _ & Hall) _].
        specialize (Hall eq_refl). rewrite List.Forall_forall in Hall.
        apply forallb_forall in Hall. congruence.
Qed.

(** C35: [memcached_key_test] succeeds exactly when there is a key and every
    key has an allowed length and, in the text protocol with verification,
    only graphic characters; any other outcome is BAD_KEY_PROVIDED or, without
    keys, INVALID_ARGUMENTS. *)
Theorem memcached_key_test_spec memc keys :
  let rc := memcached_key_test memc keys in
  (rc = MEMCACHED_SUCCESS <->
     exists l, keys = Some l /\ l <> [] /\ Forall (valid_key memc) l)
  /\ (rc <> MEMCACHED_SUCCESS ->
      rc = if bool_decide (default [] keys = []) then MEMCACHED_INVALID_ARGUMENTS
           else MEMCACHED_BAD_KEY_PROVIDED).
Proof.
  destruct keys as [[|key keys]|]; simpl; [naive_solver| |naive_solver].
  destruct (key_test_loop_spec memc (key :: keys)) as [[Hrc Hall]|[Hrc Hall]];
    cbn [key_test_loop] in Hrc; rewrite Hrc; naive_solver.
Qed.

(** *** Shard keys *)

Lemma memchr_app c s t : c ∉ s -> memchr c (s ++ c :: t) = Some (length s).
Proof.
  induction s as [|x s IH]; intros Hc; simpl.
  - by rewrite bool_decide_eq_true_2.
  - rewrite bool_decide_eq_false_2 by set_solver. by rewrite IH by set_solver.
Qed.

(** A key that carries a tag in braces. *)
Definition tagged (pre tag post : bytes) : bytes :=
  pre ++ byte_of_Z 123 :: tag ++ byte_of_Z 125 :: post.

Lemma tagged_app ns pre tag post : ns ++ tagged pre tag post = tagged (ns ++ pre) tag post.
Proof. unfold tagged. by rewrite app_assoc. Qed.

Lemma get_shard_key_tagged pre tag post :
  byte_of_Z 123 ∉ pre -> byte_of_Z 125 ∉ tag -> tag <> [] ->
  get_shard_key (tagged pre tag post) = tag.
Proof.
  intros Hpre Htag Hne. unfold get_shard_key, tagged. rewrite memchr_app by done.
  rewrite drop_app_ge by lia.
  replace (S (length pre) - length pre)%nat with 1%nat by lia.
  cbn [drop]. rewrite drop_0, memchr_app by done. destruct tag as [|c tag]; [done|].
  apply (take_app_length (c :: tag)).
Qed.

Lemma strncpy_no_nul s : no_nul s -> strncpy s (length s) = s.
Proof.
  intros Hs. unfold strncpy. rewrite firstn_all, cstr_no_nul by done.
  by rewrite Nat.sub_diag, app_nil_r.
Qed.

(** What [memcached_set_namespace] lets a handle have. *)
Definition namespace_ok (ptr : memcached_st) : Prop :=
  match _namespace ptr with
  | None => True
  | Some ns => 0 < Z.of_nat (length ns) < MEMCACHED_PREFIX_KEY_MAX_SIZE
               /\ Forall (fun c => isgraph c = true) ns
  end.

Lemma isgraph_no_nul s : Forall (fun c => isgraph c = true) s -> no_nul s.
Proof. intros Hs. apply (Forall_impl _ _ _ Hs). intros c Hc ->. done. Qed.

Section Wrapper.
Context {config : BuildConfig}.
Variable custom : nat -> bytes -> option Z -> Z.

(** The string that is hashed for a key without NUL bytes: the namespace, if
    there is one, in front of the key. *)
Lemma generate_hash_wrapper_spec ptr key :
  namespace_ok ptr -> number_of_hosts ptr <> 1 -> no_nul key ->
  memcached_array_size (_namespace ptr) + Z.of_nat (length key) < MEMCACHED_MAX_KEY ->
  _generate_hash_wrapper custom ptr key
  = generate_hash custom ptr (memcached_array_string (_namespace ptr) ++ key).
Proof.
  intros Hns Hone Hkey Hlen. unfold _generate_hash_wrapper, memcached_server_count.
  rewrite (proj2 (Z.eqb_neq _ _)) by done. unfold namespace_ok in Hns.
  destruct (_namespace ptr) as [ns|]; simpl in *; [|done].
  destruct Hns as [Hns Hgraph].
  rewrite (proj2 (Z.ltb_lt _ _)), (proj2 (Z.leb_gt _ _)) by lia.
  by rewrite !strncpy_no_nul by (done || by apply isgraph_no_nul).
Qed.

(** Only the random distribution looks at the random number. *)
Lemma dispatch_host_fixed store rnd rnd' ptr hash :
  distribution ptr <> MEMCACHED_DISTRIBUTION_RANDOM ->
  dispatch_host store rnd ptr hash = dispatch_host store rnd' ptr hash.
Proof. intros Hd. unfold dispatch_host. by destruct (distribution ptr). Qed.

(** C33: with shard keys enabled, all keys that carry the same tag in braces, the
    first of the key, are sent to the same server, whatever surrounds the tag, on any
    handle whose distribution is not random, with any namespace that has no brace of
    its own, as long as the tag is not empty and each key has no NUL and fits, with the
    namespace, the longest key that is allowed. *)
Theorem shard_tag_same_server store rnd rnd' ptr tag pre post pre' post' :
  enable_shard_key (flags ptr) = true -> namespace_ok ptr ->
  distribution ptr <> MEMCACHED_DISTRIBUTION_RANDOM ->
  byte_of_Z 123 ∉ memcached_array_string (_namespace ptr) ->
  tag <> [] -> byte_of_Z 125 ∉ tag -> byte_of_Z 123 ∉ pre -> byte_of_Z 123 ∉ pre' ->
  Forall (fun key => no_nul key /\
    memcached_array_size (_namespace ptr) + Z.of_nat (length key) < MEMCACHED_MAX_KEY)
    [tagged pre tag post; tagged pre' tag post'] ->
  memcached_generate_hash custom store rnd ptr (tagged pre tag post)
  = memcached_generate_hash custom store rnd' ptr (tagged pre' tag post').
Proof.
  intros Hshard Hns Hdist Hbrace Hne Htag Hpre Hpre' Hkeys.
  apply Forall_cons in Hkeys as [[Hk1 Hl1] Hkeys].
  apply Forall_cons in Hkeys as [[Hk2 Hl2] _].
  unfold memcached_generate_hash. rewrite (dispatch_host_fixed store rnd rnd') by done. f_equal.
  destruct (decide (number_of_hosts ptr = 1)) as [Hone|Hone].
  - unfold _generate_hash_wrapper, memcached_server_count. by rewrite Hone.
  - rewrite !generate_hash_wrapper_spec by done. unfold generate_hash. rewrite Hshard.
    by rewrite !tagged_app, !get_shard_key_tagged by (done || set_solver).
Qed.
End Wrapper.

Lemma shard_tag_same_server_witness :
  let ptr := _memcached_init <| flags ::= fun f => f <| enable_shard_key := true |> |>
    <| number_of_hosts := 3 |> <| _namespace := Some (str "app:") |> in
  @memcached_generate_hash all_hashes (fun _ _ _ => 0) ∅ 0 ptr (str "user{42}:name")
  = @memcached_generate_hash all_hashes (fun _ _ _ => 0) ∅ 1 ptr (str "cart{42}").
Proof.
  apply (@shard_tag_same_server all_hashes (fun _ _ _ => 0) ∅ 0 1 _ (str "42")
    (str "user") (str ":name") (str "cart") []); try done.
  - split; [done|]. repeat constructor.
  - vm_compute. set_solver.
  - vm_compute. set_solver.
  - vm_compute. set_solver.
  - vm_compute. set_solver.
  - repeat constructor; done.
Defined.

(** C40: in the text protocol [memcached_set_namespace] keeps the namespace
    well formed on every path, stores the given bytes on success, and leaves
    the handle alone when it rejects its arguments; a NULL takes the namespace away
    when its length is zero and is rejected when it is not. *)
Theorem memcached_set_namespace_spec malloc_ok self key key_length :
  binary_protocol (flags self) = false -> namespace_ok self -> 0 <= key_length ->
  (forall k, key = Some k -> key_length <= Z.of_nat (length k)) ->
  let '(rc, self') := memcached_set_namespace malloc_ok self key key_length in
  namespace_ok self'
  /\ (rc = MEMCACHED_SUCCESS -> _namespace self' = (fun k => take (Z.to_nat key_length) k) <$> key)
  /\ (rc <> MEMCACHED_SUCCESS -> rc <> MEMCACHED_MEMORY_ALLOCATION_FAILURE -> self' = self)
  /\ (rc = MEMCACHED_MEMORY_ALLOCATION_FAILURE -> malloc_ok = false /\ _namespace self' = None)
  /\ (key = None ->
      rc = if decide (key_length = 0) then MEMCACHED_SUCCESS else MEMCACHED_INVALID_ARGUMENTS).
Proof.
  intros Hbinary Hns H0 Hlen. unfold memcached_set_namespace.
  destruct key as [key|].
  2: { rewrite decide_bool_decide. by destruct (Z.eqb_spec key_length 0);
         rewrite ?bool_decide_true, ?bool_decide_false by done; split_and!. }
  specialize (Hlen key eq_refl).
  destruct (Z.eqb_spec key_length 0); [by split_and!|].
  set (k := take (Z.to_nat key_length) key).
  assert (Z.of_nat (length k) = key_length) as Hk by (unfold k; rewrite length_take; lia).
  set (memc := self <| flags ::= _ |>).
  destruct (key_test_loop_spec memc [k]) as [[Hrc Hall]|[Hrc _]]; cbn [memcached_key_test];
    rewrite Hrc; simpl; [|by split_and!].
  destruct (Z.ltb_spec (MEMCACHED_PREFIX_KEY_MAX_SIZE - 1) key_length); [by split_and!|].
  apply Forall_cons in Hall as [[_ Hall] _]. unfold memc in Hall. simpl in Hall.
  rewrite Hbinary in Hall. destruct Hall as [_ Hgraph]. specialize (Hgraph eq_refl).
  destruct malloc_ok; split_and!; try done. unfold namespace_ok. simpl. rewrite Hk.
  unfold MEMCACHED_PREFIX_KEY_MAX_SIZE in *. split; [lia|done].
Qed.

Lemma memcached_set_namespace_spec_witness :
  _namespace (memcached_set_namespace true _memcached_init (Some (str "app:xyz")) 4).2
  = Some (str "app:").
Proof.
  pose proof (memcached_set_namespace_spec true _memcached_init (Some (str "app:xyz")) 4
    eq_refl I ltac:(discriminate)
    ltac:(intros k [= <-]; vm_compute; discriminate)) as H.
  exact (proj1 (proj2 H) eq_refl).
Defined.
