(* ===== verification/Continuum.v ===== *)
(** The ketama continuum: continuum.hpp, the comparison functions and
    [update_continuum] of hosts.cc with its variant for replication groups, and
    the reference counting of memcached.cc.

    [None] is an assertion that fails or a use of freed memory.  Computations on
    [float] and [double] are those of SpecFloat with IEEE's binary32 and binary64
    formats.  [qsort] leaves the order of equal elements open, so it is an
    interface, [Qsort], with insertion sort as an instance. *)
From Stdlib Require Import Floats.SpecFloat.
From Stdlib Require Import Sorting.Sorted.
From S2P Require Import Prelude HashFunctions Md5 Hashkit Memcached KeyHash.

(** ** Comparing servers *)

(** The sign of [(int) (a->port - b->port)]. *)
Definition compare_servers (a b : memcached_server_st) : comparison :=
  match strcmp (hostname a) (hostname b) with
  | Eq => port a ?= port b
  | c => c
  end.

(** ["%s:%s"]; the buffer is large enough for any host name and port. *)
Definition hostport (s : memcached_server_st) : bytes := hostname s ++ str ":" ++ str_port s.

Definition compare_server_hostport (a b : memcached_server_st) : comparison :=
  match strcmp (hostname a) (hostname b) with
  | Eq => strcmp (str_port a) (str_port b)
  | c =>
      if negb (length (hostname a) =? length (hostname b))%nat
      then strcmp (hostport a) (hostport b)
      else c
  end.

(** ** qsort *)

(** The comparison function is consistent on the elements of the array. *)
Definition total_preorder {A} (P : A -> Prop) (cmp : A -> A -> comparison) : Prop :=
  (forall a b, P a -> P b -> cmp b a = CompOpp (cmp a b)) /\
  (forall a b c, P a -> P b -> P c -> cmp a b <> Gt -> cmp b c <> Gt -> cmp a c <> Gt).

(** What the C standard promises. *)
Class Qsort := {
  qsort : forall {A : Type}, (A -> A -> comparison) -> list A -> list A;
  qsort_perm : forall A cmp (l : list A), qsort cmp l ≡ₚ l;
  qsort_sorted : forall A cmp (l : list A),
    total_preorder (.∈ l) cmp -> StronglySorted (fun a b => cmp a b <> Gt) (qsort cmp l);
}.

(** ** Points *)

Definition ketama_server_hash (key : bytes) (alignment : nat) : Z :=
  let results := md5_bytes key in
  let r i := uchar (nth (i + alignment * 4) results Byte.x00) .& 0xFF in
  (r 3%nat << 24) .| (r 2%nat << 16) .| (r 1%nat << 8) .| r 0%nat.

(** [cmp_rgroups] and [cmp_servers] are file variables that are set around the
    call of [qsort]. *)
Definition continuum_item_cmp (cmp_rgroups : option (list memcached_rgroup_st))
    (cmp_servers : option (list memcached_server_st))
    (ct1 ct2 : memcached_continuum_item_st) : comparison :=
  if value ct1 =? value ct2 then
    match cmp_rgroups with
    | Some groups =>
        match groups !! Z.to_nat (index ct1), groups !! Z.to_nat (index ct2) with
        | Some a, Some b => strcmp (groupname a) (groupname b)
        | _, _ => Eq
        end
    | None =>
        match cmp_servers with
        | Some servers =>
            match servers !! Z.to_nat (index ct1), servers !! Z.to_nat (index ct2) with
            | Some a, Some b => compare_server_hostport a b
            | _, _ => Eq
            end
        | None => Eq
        end
    end
  else if value ct2 <? value ct1 then Gt else Lt.

(** [float] and [double]. *)
Definition float_of_Z (z : Z) : spec_float := binary_normalize 24 128 z 0 false.
Definition round_to (prec emax : Z) (f : spec_float) : spec_float :=
  match f with
  | S754_finite s m e => binary_normalize prec emax (if s then Zneg m else Zpos m) e s
  | _ => f
  end.
Definition floor_float (f : spec_float) : Z :=
  match f with
  | S754_finite s m e => Z.shiftl (if s then Zneg m else Zpos m) e
  | _ => 0
  end.

(** The [double] nearest to [0.0000000001]. *)
Definition tiny : spec_float := S754_finite false 7737125245533627 (-86).

(** The number of points of a server with a weight of its own. *)
Definition weighted_points (weight total_weight live_servers : Z) : Z :=
  let pct := SFdiv 24 128 (float_of_Z weight) (float_of_Z total_weight) in
  let x := SFmul 24 128 pct (float_of_Z MEMCACHED_POINTS_PER_SERVER) in
  let x := SFdiv 24 128 x (float_of_Z 4) in
  let x := SFmul 24 128 x (float_of_Z live_servers) in
  let x := SFadd 53 1024 (round_to 53 1024 x) tiny in
  u32 (floor_float (round_to 24 128 x) * 4).

(** The string that is hashed for a point of a server. *)
Definition sort_host (dist : memcached_server_distribution_t) (s : memcached_server_st)
    (pointer_index : nat) : bytes :=
  if (port s =? MEMCACHED_DEFAULT_PORT)
     && bool_decide (dist <> MEMCACHED_DISTRIBUTION_CONSISTENT_KETAMA_SPY)
  then hostname s ++ str "-" ++ print_u32 (Z.of_nat pointer_index)
  else hostname s ++ str ":" ++ print_u32 (port s) ++ str "-"
         ++ print_u32 (Z.of_nat pointer_index).

Definition rgroup_sort_host (g : memcached_rgroup_st) (pointer_index : nat) : bytes :=
  groupname g ++ str "-" ++ print_u32 (Z.of_nat pointer_index).

(** The four points of one string. *)
Definition points_of (host_index : nat) (key : bytes) : list memcached_continuum_item_st :=
  map (fun x => {| index := Z.of_nat host_index; value := ketama_server_hash key x |})
    (seq 0 4).

(** The loop over [pointer_index]: [None] is the error return for a string that
    does not fit [MEMCACHED_MAX_HOST_SORT_LENGTH]. *)
Fixpoint host_points (name : nat -> bytes) (host_index : nat) (indexes : list nat)
    : option (list memcached_continuum_item_st) :=
  match indexes with
  | [] => Some []
  | pointer_index :: indexes =>
      let key := name pointer_index in
      if MEMCACHED_MAX_HOST_SORT_LENGTH <=? Z.of_nat (length key) then None
      else
        match host_points name host_index indexes with
        | Some items => Some (points_of host_index key ++ items)
        | None => None
        end
  end.

(** The loop over the hosts.  A host is its number of points, [None] for one
    that is skipped, and the strings of its points. *)
Fixpoint all_points (hosts : list (option Z * (nat -> bytes))) (host_index : nat)
    : option (list memcached_continuum_item_st * Z) :=
  match hosts with
  | [] => Some ([], 0)
  | (None, _) :: hosts => all_points hosts (S host_index)
  | (Some pointer_per_server, name) :: hosts =>
      match host_points name host_index (seq 0 (Z.to_nat (pointer_per_server / 4))) with
      | None => None
      | Some items =>
          match all_points hosts (S host_index) with
          | None => None
          | Some (rest, counter) => Some (items ++ rest, pointer_per_server ⊞ counter)
          end
      end
  end.

(** ** Reference counts *)

Definition memcached_ketama_set (store : ketama_store) (ptr : memcached_st)
    (info : memcached_ketama_info_st) : option (ketama_store * memcached_st) :=
  match ketama_info ptr with
  | Some _ => None
  | None =>
      let k := fresh (dom store) in
      Some (<[k := info <| continuum_refcount ::= fun c => c ⊞ 1 |>]> store,
            ptr <| ketama_info := Some k |>)
  end.

(** [master] is the master's [ketama.info]. *)
Definition memcached_ketama_reference (store : ketama_store) (ptr : memcached_st)
    (master : option nat) : option (ketama_store * memcached_st) :=
  match ketama_info ptr with
  | Some _ => None
  | None =>
      match master with
      | None => Some (store, ptr)
      | Some k =>
          match store !! k with
          | None => None
          | Some info =>
              Some (<[k := info <| continuum_refcount ::= fun c => c ⊞ 1 |>]> store,
                    ptr <| ketama_info := Some k |>)
          end
      end
  end.

Definition memcached_ketama_release (store : ketama_store) (ptr : memcached_st)
    : option (ketama_store * memcached_st) :=
  match ketama_info ptr with
  | None => Some (store, ptr)
  | Some k =>
      match store !! k with
      | None => None
      | Some info =>
          let count := continuum_refcount info ⊟ 1 in
          let store :=
            if count =? 0 then delete k store
            else <[k := info <| continuum_refcount := count |>]> store in
          Some (store, ptr <| ketama_info := None |>)
      end
  end.

(** ** Rebuilding the continuum *)

(** What the calls to the system and the allocator return: the seconds of
    [gettimeofday], unless it fails, whether each [malloc] succeeds, and, for a
    handle that is a member of a pool and not its master, the master's
    [ketama.info]. *)
Record env := {
  gettimeofday : option Z;
  malloc_ketama_info : bool;
  malloc_continuum : bool;
  pool_master : option (option nat);
}.

Definition outcome : Type := option (memcached_return_t * ketama_store * memcached_st).

Section Update.
Context `{Qsort}.
Variable e : env.

(** The part that both variants share: a member of a pool takes the master's
    continuum. *)
Definition follow_master (store : ketama_store) (ptr : memcached_st)
    (master : option nat) : outcome :=
  match memcached_ketama_release store ptr with
  | None => None
  | Some (store, ptr) =>
      match memcached_ketama_reference store ptr master with
      | None => None
      | Some (store, ptr) => Some (MEMCACHED_SUCCESS, store, ptr)
      end
  end.

(** The new structure replaces the old one. *)
Definition replace_ketama_info (store : ketama_store) (ptr : memcached_st)
    (items : list memcached_continuum_item_st) (pointer_counter : Z) : outcome :=
  let info := {| continuum_refcount := 0; continuum_points_counter := pointer_counter;
                 continuum := items |} in
  match memcached_ketama_release store ptr with
  | None => None
  | Some (store, ptr) =>
      match memcached_ketama_set store ptr info with
      | None => None
      | Some (store, ptr) => Some (MEMCACHED_SUCCESS, store, ptr)
      end
  end.

(** Servers without a retry delay, when ejecting; and the earliest retry of the
    others. *)
Definition is_live (ejecting : bool) (now : Z) (s : memcached_server_st) : bool :=
  negb ejecting || (next_retry s <=? now).

Definition next_rebuild (now : Z) (list : list memcached_server_st) : Z :=
  fold_left (fun next s =>
    if next_retry s <=? now then next
    else if (next =? 0) || (next_retry s <? next) then next_retry s else next) list 0.

(** [total_weight], a [uint64_t], and [all_weights_same] over the given
    weights. *)
Definition sum_weights (weights : list Z) : Z := fold_left (fun t w => u64 (t + w)) weights 0.
Definition all_weights_same (weights : list Z) : bool :=
  match weights with
  | [] => true
  | w :: ws => forallb (Z.eqb w) ws
  end.

(** The number of points of every host, given whether it is live. *)
Definition pointers_per_server (weighted : bool) (hosts : list (bool * Z)) (live_servers : Z)
    : list (option Z) :=
  let weights := map snd (List.filter fst hosts) in
  map (fun '(live, w) =>
    if live : bool then
      Some (if weighted && negb (all_weights_same weights)
            then weighted_points w (sum_weights weights) live_servers
            else MEMCACHED_POINTS_PER_SERVER)
    else None) hosts.

Definition update_continuum (store : ketama_store) (ptr : memcached_st) : outcome :=
  match pool_master e with
  | Some master => follow_master store ptr master
  | None =>
      match gettimeofday e with
      | None => Some (MEMCACHED_ERRNO, store, ptr)
      | Some now =>
          let list := take (Z.to_nat (memcached_server_count ptr)) (servers ptr) in
          let ejecting := auto_eject_hosts (flags ptr) in
          let ptr :=
            if ejecting then ptr <| next_distribution_rebuild := next_rebuild now list |>
            else ptr in
          let live_servers :=
            if ejecting then Z.of_nat (length (List.filter (is_live ejecting now) list))
            else memcached_server_count ptr in
          if live_servers =? 0 then Some (MEMCACHED_SUCCESS, store, ptr)
          else if negb (malloc_ketama_info e) then
            Some (MEMCACHED_MEMORY_ALLOCATION_FAILURE, store, ptr)
          else if negb (malloc_continuum e) then
            Some (MEMCACHED_MEMORY_ALLOCATION_FAILURE, store, ptr)
          else
            let pointers := pointers_per_server (ketama_weighted ptr)
              (map (fun s => (is_live ejecting now s, weight s)) list) live_servers in
            match all_points (zip pointers (map (sort_host (distribution ptr)) list)) 0 with
            | None => Some (MEMCACHED_MEMORY_ALLOCATION_FAILURE, store, ptr)
            | Some (new_continuum, pointer_counter) =>
                let new_continuum :=
                  qsort (continuum_item_cmp None (Some (servers ptr))) new_continuum in
                replace_ketama_info store ptr new_continuum pointer_counter
            end
      end
  end.

Definition update_continuum_based_on_rgroups (store : ketama_store) (ptr : memcached_st)
    : outcome :=
  match pool_master e with
  | Some master => follow_master store ptr master
  | None =>
      match gettimeofday e with
      | None => Some (MEMCACHED_ERRNO, store, ptr)
      | Some now =>
          if auto_eject_hosts (flags ptr) then None
          else
            let live_servers := memcached_server_count ptr in
            if live_servers =? 0 then Some (MEMCACHED_SUCCESS, store, ptr)
            else if negb (malloc_ketama_info e) then
              Some (MEMCACHED_MEMORY_ALLOCATION_FAILURE, store, ptr)
            else if negb (malloc_continuum e) then
              Some (MEMCACHED_MEMORY_ALLOCATION_FAILURE, store, ptr)
            else if bool_decide (distribution ptr <> MEMCACHED_DISTRIBUTION_CONSISTENT_KETAMA_SPY)
            then None
            else
              let list := take (Z.to_nat live_servers) (rgroups ptr) in
              let pointers := pointers_per_server (ketama_weighted ptr)
                (map (fun g => (true, rgroup_weight g)) list) live_servers in
              match all_points (zip pointers (map rgroup_sort_host list)) 0 with
              | None => Some (MEMCACHED_MEMORY_ALLOCATION_FAILURE, store, ptr)
              | Some (new_continuum, pointer_counter) =>
                  let new_continuum :=
                    qsort (continuum_item_cmp (Some (rgroups ptr)) None) new_continuum in
                  replace_ketama_info store ptr new_continuum pointer_counter
              end
      end
  end.
End Update.

(** ** A sort *)

Fixpoint insert {A} (cmp : A -> A -> comparison) (x : A) (l : list A) : list A :=
  match l with
  | [] => [x]
  | y :: l' => match cmp x y with Gt => y :: insert cmp x l' | _ => x :: l end
  end.

Definition insertion_sort {A} (cmp : A -> A -> comparison) (l : list A) : list A :=
  fold_right (insert cmp) [] l.

Lemma insert_perm {A} cmp (x : A) l : insert cmp x l ≡ₚ x :: l.
Proof.
  induction l as [|y l IH]; simpl; [done|]. destruct (cmp x y); [done|done|].
  rewrite IH. apply Permutation_swap.
Qed.

Lemma insertion_sort_perm {A} cmp (l : list A) : insertion_sort cmp l ≡ₚ l.
Proof. induction l as [|x l IH]; simpl; [done|]. by rewrite insert_perm, IH. Qed.

Lemma insert_sorted {A} cmp (x : A) l :
  total_preorder (.∈ x :: l) cmp ->
  StronglySorted (fun a b => cmp a b <> Gt) l ->
  StronglySorted (fun a b => cmp a b <> Gt) (insert cmp x l).
Proof.
  intros [Hopp Htrans] Hl. revert Hopp Htrans.
  induction Hl as [|y l Hl IH Hall]; simpl; intros Hopp Htrans; [repeat constructor|].
  destruct (cmp x y) eqn:Hxy.
  1-2: constructor; [by constructor|]; constructor; [congruence|];
    rewrite Forall_forall in Hall |- *; intros z Hz; apply (Htrans x y z);
    [set_solver..|congruence|by apply Hall].
  constructor; [apply IH; intros; [apply Hopp|eapply (Htrans a b)]; set_solver|].
  rewrite insert_perm. constructor; [|done].
  rewrite Hopp, Hxy by set_solver. done.
Qed.

Lemma total_preorder_incl {A} (P P' : A -> Prop) cmp :
  (forall a, P' a -> P a) -> total_preorder P cmp -> total_preorder P' cmp.
Proof. intros HP [Hopp Htrans]. split; eauto 10. Qed.

Lemma insertion_sort_sorted {A} cmp (l : list A) :
  total_preorder (.∈ l) cmp ->
  StronglySorted (fun a b => cmp a b <> Gt) (insertion_sort cmp l).
Proof.
  induction l as [|x l IH]; simpl; intros Hcmp; [constructor|]. apply insert_sorted.
  - eapply total_preorder_incl; [|done]. intros a. cbn beta. by rewrite insertion_sort_perm.
  - apply IH. eapply total_preorder_incl; [|done]. set_solver.
Qed.

#[export] Instance insertion_qsort : Qsort := {|
  qsort := @insertion_sort;
  qsort_perm := @insertion_sort_perm;
  qsort_sorted := @insertion_sort_sorted;
|}.

(** The test data of the repository (tests/ketama_test_cases.h): eight servers
    with weights 600, 300, 200, 350, 1000, 800, 950 and 100. *)
Definition ketama_test_handle : memcached_st :=
  let server (h : string) w :=
    {| server_is_allocated := false; is_initialized := true; is_shutting_down := false;
       is_dead := false; server_number_of_hosts := 8; cursor_active := 0; port := 11211;
       fd := -1; io_bytes_sent := 0; server_failure_counter := 0;
       server_failure_counter_query_id := 0; weight := w; version := 1;
       server_state := MEMCACHED_SERVER_STATE_NEW; major_version := 255;
       minor_version := 255; micro_version := 255; is_enterprise := false;
       send_failed := false; in_sasl_mech := false; type := MEMCACHED_CONNECTION_TCP;
       read_ptr := None; read_buffer_length := 0; read_data_length := 0;
       write_buffer_offset := 0; next_retry := 0; immediate_reconnect := false;
       groupindex := -1; switchover_sidx := 0; switchover_peer := []; next := None;
       switchover_state := MEMCACHED_SUCCESS; limit_maxbytes := 0; hostname := str h;
       str_port := str "11211" |} in
  _memcached_init
    <| distribution := MEMCACHED_DISTRIBUTION_CONSISTENT_KETAMA |>
    <| ketama_weighted := true |> <| number_of_hosts := 8 |>
    <| servers := [server "10.0.1.1" 600; server "10.0.1.2" 300; server "10.0.1.3" 200;
                   server "10.0.1.4" 350; server "10.0.1.5" 1000; server "10.0.1.6" 800;
                   server "10.0.1.7" 950; server "10.0.1.8" 100] |>.

(** ** Order of strings and servers *)

Lemma strcmp_opp a b : strcmp b a = CompOpp (strcmp a b).
Proof.
  revert b. induction a as [|x a IH]; destruct b as [|y b]; simpl; try done.
  rewrite (Z.compare_antisym (uchar x)). destruct (uchar x ?= uchar y); simpl; auto.
Qed.

Lemma strcmp_eq a b : strcmp a b = Eq <-> a = b.
Proof.
  revert b. induction a as [|x a IH]; destruct b as [|y b]; simpl; try done.
  destruct (Z.compare_spec (uchar x) (uchar y)) as [E|E|E].
  - rewrite IH. apply uchar_inj in E. naive_solver.
  - split; [done|]. intros [= -> ->]. lia.
  - split; [done|]. intros [= -> ->]. lia.
Qed.

Lemma strcmp_trans a b c : strcmp a b <> Gt -> strcmp b c <> Gt -> strcmp a c <> Gt.
Proof.
  revert b c. induction a as [|x a IH]; destruct b as [|y b], c as [|z c]; simpl; try done.
  destruct (Z.compare_spec (uchar x) (uchar y)), (Z.compare_spec (uchar y) (uchar z)),
    (Z.compare_spec (uchar x) (uchar z)); try done; try lia. eauto.
Qed.

Lemma strcmp_app_same p a b : strcmp (p ++ a) (p ++ b) = strcmp a b.
Proof. induction p as [|x p IH]; simpl; [done|]. by rewrite Z.compare_refl. Qed.

Lemma strcmp_app_neq a b c d :
  length a = length b -> a <> b -> strcmp (a ++ c) (b ++ d) = strcmp a b.
Proof.
  revert b. induction a as [|x a IH]; destruct b as [|y b]; simpl; try done.
  intros [= Hlen] Hne. destruct (Z.compare_spec (uchar x) (uchar y)) as [E| |]; try done.
  apply uchar_inj in E. subst. apply IH; congruence.
Qed.

(** The comparison that breaks ties between equal points is the order of
    the "host:port" strings, on all of its branches. *)
Theorem compare_server_hostport_spec a b :
  compare_server_hostport a b = strcmp (hostport a) (hostport b).
Proof.
  unfold compare_server_hostport, hostport.
  destruct (decide (hostname a = hostname b)) as [E|E].
  - rewrite E, !strcmp_app_same, (proj2 (strcmp_eq _ _)) by done. done.
  - destruct (Nat.eqb_spec (length (hostname a)) (length (hostname b))) as [El|El]; simpl.
    + rewrite strcmp_app_neq by done.
      destruct (strcmp (hostname a) (hostname b)) eqn:Es; [|done..].
      by apply strcmp_eq in Es.
    + destruct (strcmp (hostname a) (hostname b)) eqn:Es; [|done..].
      by apply strcmp_eq in Es.
Qed.

(** ** The points of a list of hosts *)

Lemma host_points_eq name i idx :
  host_points name i idx =
    if forallb (fun j => Z.of_nat (length (name j)) <? MEMCACHED_MAX_HOST_SORT_LENGTH) idx
    then Some (flat_map (fun j => points_of i (name j)) idx) else None.
Proof.
  induction idx as [|j idx IH]; [done|]. cbn [host_points forallb flat_map].
  rewrite IH. destruct (Z.leb_spec MEMCACHED_MAX_HOST_SORT_LENGTH (Z.of_nat (length (name j)))).
  - by rewrite (proj2 (Z.ltb_ge _ _)) by lia.
  - rewrite (proj2 (Z.ltb_lt _ _)) by lia. simpl. by case_match.
Qed.

(** The points of a host, and of the hosts from position [k] on, when each has
    [MEMCACHED_POINTS_PER_SERVER] of them. *)
Definition full_points (name : nat -> bytes) (i : nat) : list memcached_continuum_item_st :=
  flat_map (fun j => points_of i (name j)) (seq 0 40).

Definition short_names (name : nat -> bytes) : Prop :=
  forall j, (j < 40)%nat -> Z.of_nat (length (name j)) < MEMCACHED_MAX_HOST_SORT_LENGTH.

Fixpoint even_points (names : list (nat -> bytes)) (k : nat)
    : list memcached_continuum_item_st :=
  match names with
  | [] => []
  | name :: names => full_points name k ++ even_points names (S k)
  end.

Lemma full_points_length name i : length (full_points name i) = 160%nat.
Proof. by apply (flat_map_length _ 4). Qed.

Lemma even_points_length names k : length (even_points names k) = (160 * length names)%nat.
Proof.
  revert k. induction names as [|name names IH]; intros k; cbn [even_points]; [done|].
  rewrite length_app, full_points_length, IH. cbn [length]. lia.
Qed.

Lemma all_points_even names k :
  160 * Z.of_nat (length names) < 2 ^ 32 -> Forall short_names names ->
  all_points (zip (replicate (length names) (Some MEMCACHED_POINTS_PER_SERVER)) names) k
  = Some (even_points names k, 160 * Z.of_nat (length names)).
Proof.
  intros Hlen Hshort. revert k Hlen.
  induction Hshort as [|name names Hname _ IH]; intros k Hlen; [done|].
  cbn [length replicate zip zip_with all_points even_points]. rewrite host_points_eq.
  change (Z.to_nat (MEMCACHED_POINTS_PER_SERVER / 4)) with 40%nat.
  rewrite (proj2 (forallb_forall _ _)).
  - cbn [length] in Hlen. rewrite IH, u32_small; unfold MEMCACHED_POINTS_PER_SERVER; [|lia..].
    do 2 f_equal. lia.
  - intros j Hj. apply in_seq in Hj. apply Z.ltb_lt, Hname. lia.
Qed.

Lemma points_of_in item i key :
  item ∈ points_of i key <->
  exists x, (x < 4)%nat /\ item = {| index := Z.of_nat i; value := ketama_server_hash key x |}.
Proof.
  unfold points_of. rewrite list_elem_of_In, in_map_iff. setoid_rewrite in_seq.
  naive_solver lia.
Qed.

Lemma even_points_in item names k :
  item ∈ even_points names k <->
  exists i name j x, names !! i = Some name /\ (j < 40)%nat /\ (x < 4)%nat
    /\ item = {| index := Z.of_nat (k + i); value := ketama_server_hash (name j) x |}.
Proof.
  revert k. induction names as [|name names IH]; intros k; cbn [even_points].
  - split; [by intros ?%not_elem_of_nil|]. intros (i & ? & ? & ? & Hi & _).
    by rewrite lookup_nil in Hi.
  - rewrite elem_of_app, IH. unfold full_points. rewrite list_elem_of_In, in_flat_map.
    setoid_rewrite in_seq. setoid_rewrite <-list_elem_of_In. setoid_rewrite points_of_in.
    split.
    + intros [(j & Hj & x & Hx & ->)|(i & name' & j & x & Hi & Hj & Hx & ->)].
      * exists 0%nat, name, j, x. rewrite Nat.add_0_r. split_and!; [done|lia..|done].
      * exists (S i), name', j, x. rewrite <-Nat.add_succ_comm. done.
    + intros ([|i] & name' & j & x & Hi & Hj & Hx & ->); simplify_eq/=.
      * left. exists j. split; [lia|]. exists x. by rewrite Nat.add_0_r.
      * right. exists i, name', j, x. by rewrite <-Nat.add_succ_comm.
Qed.

(** Every host has its 160 points. *)
Lemma even_points_count names k i :
  (i < length names)%nat ->
  length (filter (fun item => index item = Z.of_nat (k + i)) (even_points names k)) = 160%nat.
Proof.
  revert k i. induction names as [|name names IH]; intros k i Hi; simpl in Hi; [lia|].
  cbn [even_points]. rewrite filter_app, length_app.
  assert (forall m, (forall item, item ∈ full_points name m -> index item = Z.of_nat m)) as Hidx.
  { intros m item. unfold full_points. rewrite list_elem_of_In, in_flat_map.
    intros (j & _ & Hin). apply list_elem_of_In, points_of_in in Hin as (x & _ & ->). done. }
  assert (forall names' m, (k + i < m)%nat ->
    filter (fun item => index item = Z.of_nat (k + i)) (even_points names' m) = []) as Hnone.
  { intros names' m Hm. apply filter_none. intros item Hin Heq.
    apply even_points_in in Hin as (? & ? & ? & ? & _ & _ & _ & ->). simpl in Heq. lia. }
  destruct i as [|i].
  - rewrite Hnone by lia. rewrite filter_all, full_points_length; [done|].
    intros item Hin. rewrite (Hidx _ _ Hin). f_equal. lia.
  - assert (filter (fun item => index item = Z.of_nat (k + S i)) (full_points name k) = []) as ->.
    { apply filter_none. intros item Hin. rewrite (Hidx _ _ Hin). lia. }
    replace (k + S i)%nat with (S k + i)%nat by lia. apply IH. lia.
Qed.

(** ** A rebuild with even weights *)

Lemma pointers_per_server_even weighted weights n :
  (weighted = true -> all_weights_same weights = true) ->
  pointers_per_server weighted (map (fun w => (true, w)) weights) n
  = replicate (length weights) (Some MEMCACHED_POINTS_PER_SERVER).
Proof.
  intros Hsame. unfold pointers_per_server. rewrite map_map.
  assert (forall ws, map snd (List.filter fst (map (fun w : Z => (true, w)) ws)) = ws) as ->.
  { induction ws as [|w ws IH]; [done|]. simpl. by f_equal. }
  assert (weighted && negb (all_weights_same weights) = false) as ->
    by (destruct weighted; [rewrite Hsame|]; done).
  clear Hsame. induction weights as [|w ws IH]; simpl; [done|]. by f_equal.
Qed.

(** A handle whose servers all get the same number of points, and whose point
    strings fit. *)
Record even_handle (ptr : memcached_st) : Prop := {
  even_eject : auto_eject_hosts (flags ptr) = false;
  even_count : number_of_hosts ptr = Z.of_nat (length (servers ptr));
  even_some : servers ptr <> [];
  even_bound : 160 * number_of_hosts ptr < 2 ^ 32;
  even_weights : ketama_weighted ptr = true ->
    all_weights_same (map weight (servers ptr)) = true;
  even_short : Forall (fun s => short_names (sort_host (distribution ptr) s)) (servers ptr);
}.

(** The calls succeed, and the handle is not a follower in a pool. *)
Record env_ok (e : env) : Prop := {
  env_master : pool_master e = None;
  env_time : gettimeofday e <> None;
  env_malloc_info : malloc_ketama_info e = true;
  env_malloc_continuum : malloc_continuum e = true;
}.

Definition no_dangling (store : ketama_store) (ptr : memcached_st) : Prop :=
  forall k, ketama_info ptr = Some k -> is_Some (store !! k).

Lemma ketama_release_ok store ptr :
  no_dangling store ptr ->
  exists store', memcached_ketama_release store ptr
    = Some (store', ptr <| ketama_info := None |>).
Proof.
  intros Hok. unfold memcached_ketama_release. destruct (ketama_info ptr) as [k|] eqn:Hk.
  - destruct (Hok k Hk) as [info ->]. eauto.
  - exists store. do 2 f_equal. destruct ptr. simpl in *. by subst.
Qed.

Lemma replace_ketama_info_ok store ptr items n :
  no_dangling store ptr ->
  exists store' k, replace_ketama_info store ptr items n
    = Some (MEMCACHED_SUCCESS, store', ptr <| ketama_info := Some k |>)
    /\ store' !! k = Some {| continuum_refcount := 1; continuum_points_counter := n;
                             continuum := items |}.
Proof.
  intros Hok. unfold replace_ketama_info.
  destruct (ketama_release_ok store ptr Hok) as [store' ->]. unfold memcached_ketama_set.
  cbv zeta. cbn [ketama_info]. eexists _, _. split; [reflexivity|]. by rewrite lookup_insert_eq.
Qed.

Section Even.
Context `{Qsort}.

(** The continuum that a rebuild of such a handle installs. *)
Definition even_continuum (ptr : memcached_st) : list memcached_continuum_item_st :=
  qsort (continuum_item_cmp None (Some (servers ptr)))
    (even_points (map (sort_host (distribution ptr)) (servers ptr)) 0).

Lemma update_continuum_even e store ptr :
  env_ok e -> even_handle ptr -> no_dangling store ptr ->
  exists store' k,
    update_continuum e store ptr
    = Some (MEMCACHED_SUCCESS, store', ptr <| ketama_info := Some k |>)
    /\ store' !! k = Some {| continuum_refcount := 1;
                             continuum_points_counter := 160 * number_of_hosts ptr;
                             continuum := even_continuum ptr |}.
Proof.
  intros [Hmaster Htime Hm1 Hm2] [Heject Hcount Hsome Hbound Hweights Hshort] Hdangling.
  unfold update_continuum, memcached_server_count.
  rewrite Hmaster, Hm1, Hm2, Heject, Hcount, Nat2Z.id, firstn_all.
  destruct (gettimeofday e) as [now|]; [|done]. clear Htime.
  rewrite (proj2 (Z.eqb_neq _ _)) by (destruct (servers ptr); [done|simpl; lia]).
  cbn [negb]. unfold is_live. cbn [negb orb].
  rewrite <-(map_map weight (fun w => (true, w))), pointers_per_server_even by done.
  rewrite length_map. set (names := map _ _).
  assert (length names = length (servers ptr)) as Hnames by apply length_map.
  rewrite <-Hnames, all_points_even.
  - rewrite Hnames. by apply replace_ketama_info_ok.
  - rewrite Hnames, <-Hcount. done.
  - unfold names. apply Forall_map. done.
Qed.

(** *** The order of the continuum *)

Lemma even_points_index ptr item :
  item ∈ even_points (map (sort_host (distribution ptr)) (servers ptr)) 0 ->
  exists s j x, servers ptr !! Z.to_nat (index item) = Some s /\ (j < 40)%nat /\ (x < 4)%nat
    /\ 0 <= index item < Z.of_nat (length (servers ptr))
    /\ value item = ketama_server_hash (sort_host (distribution ptr) s j) x.
Proof.
  rewrite even_points_in. intros (i & name & j & x & Hi & Hj & Hx & ->).
  apply list_lookup_fmap_Some in Hi as (s & -> & Hs). cbn [index value Nat.add].
  rewrite Nat2Z.id. exists s, j, x. pose proof (lookup_lt_Some _ _ _ Hs).
  split_and!; [done..|lia|lia|done].
Qed.

Lemma continuum_item_cmp_preorder ptr :
  total_preorder
    (.∈ even_points (map (sort_host (distribution ptr)) (servers ptr)) 0)
    (continuum_item_cmp None (Some (servers ptr))).
Proof.
  split.
  - intros a b Ha Hb.
    apply even_points_index in Ha as (sa & ? & ? & Ha & _).
    apply even_points_index in Hb as (sb & ? & ? & Hb & _).
    unfold continuum_item_cmp. rewrite Ha, Hb.
    destruct (Z.eqb_spec (value a) (value b)), (Z.eqb_spec (value b) (value a)),
      (Z.ltb_spec (value a) (value b)), (Z.ltb_spec (value b) (value a)); try lia; try done.
    rewrite !compare_server_hostport_spec. apply strcmp_opp.
  - intros a b c Ha Hb Hc.
    apply even_points_index in Ha as (sa & ? & ? & Ha & _).
    apply even_points_index in Hb as (sb & ? & ? & Hb & _).
    apply even_points_index in Hc as (sc & ? & ? & Hc & _).
    unfold continuum_item_cmp. rewrite Ha, Hb, Hc, !compare_server_hostport_spec.
    destruct (Z.eqb_spec (value a) (value b)), (Z.eqb_spec (value b) (value c)),
      (Z.eqb_spec (value a) (value c)), (Z.ltb_spec (value b) (value a)),
      (Z.ltb_spec (value c) (value b)), (Z.ltb_spec (value c) (value a));
      try lia; try done. apply strcmp_trans.
Qed.

Lemma even_continuum_sorted ptr :
  StronglySorted (fun a b => continuum_item_cmp None (Some (servers ptr)) a b <> Gt)
    (even_continuum ptr).
Proof. apply qsort_sorted, continuum_item_cmp_preorder. Qed.

Lemma StronglySorted_lookup {A} (R : A -> A -> Prop) l i j a b :
  StronglySorted R l -> (i < j)%nat -> l !! i = Some a -> l !! j = Some b -> R a b.
Proof.
  intros Hl. revert i j. induction Hl as [|x l _ IH Hall]; intros [|i] [|j] Hij Hi Hj;
    simplify_eq/=; try lia.
  - rewrite Forall_lookup in Hall. eauto.
  - apply (IH i j); [lia|done..].
Qed.

Lemma even_continuum_sorted_by_value ptr : sorted_by_value (even_continuum ptr).
Proof.
  intros i j a b Hij Ha Hb. destruct (decide (i = j)) as [->|]; [simplify_eq; lia|].
  pose proof (StronglySorted_lookup _ _ i j a b (even_continuum_sorted ptr)
    ltac:(lia) Ha Hb) as Hcmp.
  unfold continuum_item_cmp in Hcmp.
  destruct (Z.eqb_spec (value a) (value b)), (Z.ltb_spec (value b) (value a)); try lia. done.
Qed.

Lemma even_continuum_in ptr item :
  item ∈ even_continuum ptr <->
  item ∈ even_points (map (sort_host (distribution ptr)) (servers ptr)) 0.
Proof. unfold even_continuum. by rewrite qsort_perm. Qed.

Lemma even_continuum_length ptr :
  length (even_continuum ptr) = (160 * length (servers ptr))%nat.
Proof. unfold even_continuum. by rewrite qsort_perm, even_points_length, length_map. Qed.
End Even.

(** ** The ring as a specification *)

(** A point of the ring is its value and the "host:port" string of its server;
    equal values are ordered by that string.  [ring_owner pts h o] says that
    [o] owns the hash [h]: its point is the first at or after [h] or, when
    there is none, the first of all. *)
Definition ring_le (p q : Z * bytes) : Prop :=
  p.1 < q.1 \/ (p.1 = q.1 /\ strcmp p.2 q.2 <> Gt).

Definition ring_owner (pts : list (Z * bytes)) (h : Z) (o : bytes) : Prop :=
  exists p, p ∈ pts /\ p.2 = o /\
    ((h <= p.1 /\ forall q, q ∈ pts -> h <= q.1 -> ring_le p q)
     \/ ((forall q, q ∈ pts -> q.1 < h) /\ forall q, q ∈ pts -> ring_le p q)).

Lemma ring_le_antisym p q : ring_le p q -> ring_le q p -> p = q.
Proof.
  destruct p as [v a], q as [w b]. unfold ring_le. simpl.
  intros [|[-> Hab]] [|[Hwv Hba]]; try lia. f_equal.
  rewrite strcmp_opp in Hba. apply strcmp_eq. by destruct (strcmp a b).
Qed.

Lemma ring_owner_unique pts h o o' : ring_owner pts h o -> ring_owner pts h o' -> o = o'.
Proof.
  intros (p & Hp & <- & Hc) (q & Hq & <- & Hc').
  assert (p = q) as ->; [|done]. apply ring_le_antisym.
  - destruct Hc as [[Hh Hmin]|[Hall Hmin]], Hc' as [[Hh' _]|[Hall' _]]; auto.
    exfalso. specialize (Hall' p Hp). lia.
  - destruct Hc' as [[Hh Hmin]|[Hall Hmin]], Hc as [[Hh' _]|[Hall' _]]; auto.
    exfalso. specialize (Hall' q Hq). lia.
Qed.

(** Taking away points of others does not change the owner. *)
Lemma ring_owner_incl pts pts' h o :
  (forall p, p ∈ pts' -> p ∈ pts) -> (forall p, p ∈ pts -> p.2 = o -> p ∈ pts') ->
  ring_owner pts h o -> ring_owner pts' h o.
Proof. intros Hincl Ho (p & Hp & Hpo & Hc). exists p. split_and!; [auto|done|]. naive_solver. Qed.

Definition server_ring (ptr : memcached_st) : list (Z * bytes) :=
  flat_map (fun s =>
    flat_map (fun j =>
      map (fun x => (ketama_server_hash (sort_host (distribution ptr) s j) x, hostport s))
        (seq 0 4))
      (seq 0 40))
    (servers ptr).

Lemma server_ring_in ptr p :
  p ∈ server_ring ptr <->
  exists s j x, s ∈ servers ptr /\ (j < 40)%nat /\ (x < 4)%nat
    /\ p = (ketama_server_hash (sort_host (distribution ptr) s j) x, hostport s).
Proof.
  unfold server_ring. rewrite list_elem_of_In, in_flat_map.
  setoid_rewrite in_flat_map. setoid_rewrite in_map_iff. setoid_rewrite in_seq.
  setoid_rewrite <-list_elem_of_In. split.
  - intros (s & Hs & j & Hj & x & <- & Hx). exists s, j, x. split_and!; [done|lia|lia|done].
  - intros (s & j & x & Hs & Hj & Hx & ->). exists s. split; [done|].
    exists j. split; [lia|]. exists x. split; [done|lia].
Qed.

Section Ring.
Context `{Qsort}.

(** The point of the ring that an item of the continuum stands for. *)
Definition ring_point (ptr : memcached_st) (item : memcached_continuum_item_st)
    (p : Z * bytes) : Prop :=
  exists s, servers ptr !! Z.to_nat (index item) = Some s /\ p = (value item, hostport s).

Lemma even_continuum_point ptr item :
  item ∈ even_continuum ptr -> exists p, ring_point ptr item p /\ p ∈ server_ring ptr.
Proof.
  rewrite even_continuum_in. intros Hin.
  destruct (even_points_index ptr item Hin) as (s & j & x & Hs & Hj & Hx & _ & Hv).
  exists (value item, hostport s). split; [by exists s|].
  apply server_ring_in. exists s, j, x. rewrite Hv. split_and!; [|done..].
  by eapply list_elem_of_lookup_2.
Qed.

Lemma server_ring_item ptr p :
  p ∈ server_ring ptr -> exists item, item ∈ even_continuum ptr /\ ring_point ptr item p.
Proof.
  rewrite server_ring_in. intros (s & j & x & Hs & Hj & Hx & ->).
  apply list_elem_of_lookup_1 in Hs as [i Hs].
  eexists {| index := Z.of_nat i; value := _ |}. split.
  - apply even_continuum_in, even_points_in. exists i, (sort_host (distribution ptr) s), j, x.
    split_and!; [by apply list_lookup_fmap_Some; eauto|done..].
  - exists s. cbn [index value]. rewrite Nat2Z.id. done.
Qed.

Lemma item_cmp_ring_le ptr a b p q :
  ring_point ptr a p -> ring_point ptr b q ->
  continuum_item_cmp None (Some (servers ptr)) a b <> Gt -> ring_le p q.
Proof.
  intros (sa & Ha & ->) (sb & Hb & ->). unfold continuum_item_cmp, ring_le.
  rewrite Ha, Hb, compare_server_hostport_spec. simpl.
  destruct (Z.eqb_spec (value a) (value b)), (Z.ltb_spec (value b) (value a)); intros;
    try done; lia || by right.
Qed.

Lemma ring_le_refl p : ring_le p p.
Proof. right. split; [done|]. by rewrite (proj2 (strcmp_eq _ _)). Qed.

Lemma even_continuum_ordered ptr i j a b p q :
  (i <= j)%nat -> even_continuum ptr !! i = Some a -> even_continuum ptr !! j = Some b ->
  ring_point ptr a p -> ring_point ptr b q -> ring_le p q.
Proof.
  intros Hij Ha Hb Hp Hq. destruct (decide (i = j)) as [->|].
  - simplify_eq. destruct Hp as (s & Hs & ->), Hq as (s' & Hs' & ->). simplify_eq.
    apply ring_le_refl.
  - eapply item_cmp_ring_le; [done..|].
    eapply (StronglySorted_lookup (fun a b => continuum_item_cmp _ _ a b <> Gt));
      [apply even_continuum_sorted| |done..]. lia.
Qed.

(** What [ketama_successor] returns sits at a position such that everything
    before it is below the hash, or at the first one. *)
Lemma ketama_successor_position items h item :
  ketama_successor items h = Some item ->
  (exists i, items !! i = Some item /\ h <= value item
     /\ forall j it, (j < i)%nat -> items !! j = Some it -> value it < h)
  \/ (items !! 0%nat = Some item /\ forall j it, items !! j = Some it -> value it < h).
Proof.
  unfold ketama_successor. destruct (List.find _ items) as [it|] eqn:Hfind.
  - intros [= ->]. left. induction items as [|x items IH]; [done|]. simpl in Hfind.
    destruct (Z.leb_spec h (value x)) as [Hle|Hgt].
    + simplify_eq. exists 0%nat. split_and!; [done..|lia].
    + destruct (IH Hfind) as (i & Hi & Hh & Hbelow). exists (S i). split_and!; [done..|].
      intros [|j] y Hj Hy; simplify_eq/=; [done|]. apply (Hbelow j); [lia|done].
  - intros Hhead. right. split; [by destruct items; simplify_eq/=|].
    intros j it Hj. eapply find_none in Hfind; [by apply Z.leb_gt|].
    apply list_elem_of_In. by eapply list_elem_of_lookup_2.
Qed.

Lemma ketama_successor_owner ptr h item :
  ketama_successor (even_continuum ptr) h = Some item ->
  exists s, servers ptr !! Z.to_nat (index item) = Some s
    /\ ring_owner (server_ring ptr) h (hostport s).
Proof.
  intros Hsucc.
  assert (item ∈ even_continuum ptr) as Hin.
  { destruct (ketama_successor_position _ _ _ Hsucc) as [(i & Hi & _)|[Hi _]];
      by eapply list_elem_of_lookup_2. }
  destruct (even_continuum_point _ _ Hin) as (p & Hp & Hpin).
  destruct Hp as (s & Hs & Ep). exists s. split; [done|].
  exists p. split_and!; [done|by subst|].
  assert (ring_point ptr item p) as Hp by (by exists s).
  destruct (ketama_successor_position _ _ _ Hsucc) as [(i & Hi & Hh & Hbelow)|[Hi Hall]].
  - left. split; [by subst|]. intros q Hq Hhq.
    destruct (server_ring_item _ _ Hq) as (it & Hit & Hqp).
    apply list_elem_of_lookup_1 in Hit as [j Hj].
    destruct (decide (i <= j)%nat) as [Hle|Hgt].
    + by eapply (even_continuum_ordered ptr i j).
    + pose proof (Hbelow j it ltac:(lia) Hj). destruct Hqp as (? & _ & ->). simpl in Hhq. lia.
  - right. split; intros q Hq; destruct (server_ring_item _ _ Hq) as (it & Hit & Hqp);
      apply list_elem_of_lookup_1 in Hit as [j Hj].
    + specialize (Hall j it Hj). by destruct Hqp as (? & _ & ->).
    + eapply (even_continuum_ordered ptr 0 j); [lia|done..].
Qed.

(** *** Theorems about a rebuild *)

Definition is_ketama (d : memcached_server_distribution_t) : Prop :=
  d = MEMCACHED_DISTRIBUTION_CONSISTENT \/ d = MEMCACHED_DISTRIBUTION_CONSISTENT_KETAMA
  \/ d = MEMCACHED_DISTRIBUTION_CONSISTENT_KETAMA_SPY.

Lemma dispatch_even store ptr rnd k n h :
  is_ketama (distribution ptr) -> ketama_info ptr = Some k ->
  store !! k = Some {| continuum_refcount := n;
                       continuum_points_counter := 160 * number_of_hosts ptr;
                       continuum := even_continuum ptr |} ->
  number_of_hosts ptr = Z.of_nat (length (servers ptr)) ->
  dispatch_host store rnd ptr h = index <$> ketama_successor (even_continuum ptr) h.
Proof.
  intros Hdist Hk Hinfo Hcount. unfold dispatch_host. rewrite Hk, Hinfo.
  rewrite (ketama_dispatch_spec _ h) by
    (apply even_continuum_sorted_by_value ||
     (cbn [continuum continuum_points_counter]; rewrite even_continuum_length; lia)).
  by destruct Hdist as [->|[->| ->]].
Qed.

Lemma even_continuum_ne ptr : servers ptr <> [] -> even_continuum ptr <> [].
Proof.
  intros Hne E. pose proof (even_continuum_length ptr) as Hlen. rewrite E in Hlen.
  destruct (servers ptr); [done|]. simpl in Hlen. lia.
Qed.

(** What dispatching returns after a rebuild: the owner on the ring. *)
Lemma dispatch_after_update e store ptr rnd h :
  env_ok e -> even_handle ptr -> no_dangling store ptr -> is_ketama (distribution ptr) ->
  exists store' ptr' i s,
    update_continuum e store ptr = Some (MEMCACHED_SUCCESS, store', ptr')
    /\ dispatch_host store' rnd ptr' h = Some i
    /\ servers ptr !! Z.to_nat i = Some s
    /\ ring_owner (server_ring ptr) h (hostport s).
Proof.
  intros He Heven Hdangling Hdist.
  destruct (update_continuum_even e store ptr He Heven Hdangling) as (store' & k & Hup & Hinfo).
  destruct (ketama_successor_in (even_continuum ptr) h
    (even_continuum_ne _ (even_some _ Heven))) as (item & Hsucc & _).
  destruct (ketama_successor_owner ptr h item Hsucc) as (s & Hs & Howner).
  eexists _, _, (index item), s. split_and!; [done| |done..].
  rewrite (dispatch_even _ _ rnd k 1 h); [|done..|exact (even_count _ Heven)].
  change (even_continuum (ptr <| ketama_info := Some k |>)) with (even_continuum ptr).
  by rewrite Hsucc.
Qed.
End Ring.

(** ** Properties of a rebuild *)

(** C5: a rebuild of a handle whose servers have even weights succeeds; its
    continuum has exactly 160 points for every server, which fit the array that
    was allocated, is sorted, and only holds positions of servers, so the
    handle is ready for dispatching; nothing else of the handle changes. *)
Theorem update_continuum_ready `{Qsort} e store ptr :
  env_ok e -> even_handle ptr -> no_dangling store ptr -> is_ketama (distribution ptr) ->
  exists store' k info,
    update_continuum e store ptr
    = Some (MEMCACHED_SUCCESS, store', ptr <| ketama_info := Some k |>)
    /\ dispatch_ready store' (ptr <| ketama_info := Some k |>)
    /\ store' !! k = Some info
    /\ length (continuum info) = (160 * length (servers ptr))%nat
    /\ (forall s i, servers ptr !! i = Some s ->
         length (filter (fun item => index item = Z.of_nat i) (continuum info)) = 160%nat)
    /\ Z.of_nat (length (continuum info))
       <= (number_of_hosts ptr + MEMCACHED_CONTINUUM_ADDITION) * MEMCACHED_POINTS_PER_SERVER.
Proof.
  intros He Heven Hdangling Hdist.
  destruct (update_continuum_even e store ptr He Heven Hdangling) as (store' & k & Hup & Hinfo).
  pose proof (even_continuum_length ptr) as Hlen.
  destruct Heven as [_ Hcount Hsome _ _ _].
  eexists store', k, _. split_and!; [done| |done|done| |].
  - split; [destruct (servers ptr); [done|]; simpl in *; lia|].
    assert (exists k' info, Some k = Some k' /\ store' !! k' = Some info
      /\ sorted_by_value (continuum info) /\ continuum info <> []
      /\ continuum_points_counter info = Z.of_nat (length (continuum info))
      /\ Forall (fun item => 0 <= index item < number_of_hosts ptr) (continuum info)).
    { eexists k, _. split_and!; [done..| | | |].
      - apply even_continuum_sorted_by_value.
      - by apply even_continuum_ne.
      - cbn [continuum continuum_points_counter]. lia.
      - apply Forall_forall. intros item Hin%even_continuum_in%even_points_index.
        destruct Hin as (? & ? & ? & _ & _ & _ & Hrange & _). lia. }
    change (distribution (ptr <| ketama_info := Some k |>)) with (distribution ptr).
    by destruct Hdist as [->|[->| ->]].
  - intros s i Hs. cbn [continuum]. unfold even_continuum. rewrite qsort_perm.
    rewrite (even_points_count _ 0 i); [done|]. rewrite length_map.
    by eapply lookup_lt_Some.
  - cbn [continuum]. rewrite Hlen, Hcount.
    unfold MEMCACHED_CONTINUUM_ADDITION, MEMCACHED_POINTS_PER_SERVER. lia.
Qed.

(** C1: after a rebuild every hash is dispatched to the server that owns it on
    the ring: the owner of the first of all the servers' points at or after the
    hash, equal points ordered by "host:port".  The ring does not mention the
    order of the servers.  This is for a handle that does not eject hosts, whose
    servers have no weights or all the same one, whose points are fewer than 2^32
    and have strings that fit their buffer, that takes no points over from the master
    of a pool, and calls that do not fail. *)
Theorem update_continuum_owner `{Qsort} e store ptr rnd hash :
  env_ok e -> even_handle ptr -> no_dangling store ptr -> is_ketama (distribution ptr) ->
  exists store' ptr' i s,
    update_continuum e store ptr = Some (MEMCACHED_SUCCESS, store', ptr')
    /\ dispatch_host store' rnd ptr' hash = Some i
    /\ servers ptr !! Z.to_nat i = Some s
    /\ forall o, ring_owner (server_ring ptr) hash o <-> o = hostport s.
Proof.
  intros He Heven Hdangling Hdist.
  destruct (dispatch_after_update e store ptr rnd hash) as (store' & ptr' & i & s & Hup & Hi & Hs & Ho);
    [done..|].
  exists store', ptr', i, s. split_and!; [done..|].
  intros o. split; [|by intros ->]. intros Ho'. by eapply ring_owner_unique.
Qed.

(** The endpoint and the printed port agree, as [_server_init] leaves them. *)
Definition str_port_ok (s : memcached_server_st) : Prop :=
  is_u32 (port s) /\ str_port s = print_u32 (port s).

Lemma hostport_endpoint s t :
  str_port_ok s -> str_port_ok t -> hostport s = hostport t -> endpoint s = endpoint t.
Proof.
  intros [Hs Es] [Ht Et]. unfold hostport, endpoint. rewrite Es, Et.
  change (str ":") with [byte_of_Z 58]. cbn [app].
  intros [-> Hport]%app_last_inj; [|eapply isdigit_not_in; [done|by apply print_u32_spec]..].
  f_equal. by apply print_u32_inj.
Qed.

Lemma endpoint_hostport s t :
  str_port_ok s -> str_port_ok t -> endpoint s = endpoint t -> hostport s = hostport t.
Proof.
  intros [_ Es] [_ Et] [= Hh Hp]. unfold hostport. by rewrite Es, Et, Hh, Hp.
Qed.

Lemma endpoint_sort_host d s t j : endpoint s = endpoint t -> sort_host d s j = sort_host d t j.
Proof. intros [= Hh Hp]. unfold sort_host. by rewrite Hh, Hp. Qed.

(** C2: consistent hashing between handles with even weights.  Take two handles
    that do not eject hosts, each of which has servers without weights or all of
    one weight, fewer points than 2^32 and host names whose point strings fit
    their buffer, with the ports that are printed in these strings.  When the servers
    of one are among those of the other, as after removing servers or reordering
    them, and both were rebuilt with the same ketama distribution, not taken over from
    the master of a pool, by calls that did not fail, every hash whose server is still there is dispatched to that same server
    by both handles: only the hashes of the removed servers move. *)
Theorem ketama_minimal_disruption `{Qsort} e storeA A rndA storeB B rndB hash i s :
  env_ok e -> even_handle A -> even_handle B -> no_dangling storeA A -> no_dangling storeB B ->
  is_ketama (distribution A) -> distribution B = distribution A ->
  Forall str_port_ok (servers A ++ servers B) ->
  (forall t, t ∈ servers B -> exists u, u ∈ servers A /\ endpoint u = endpoint t) ->
  forall storeA' A' storeB' B',
  update_continuum e storeA A = Some (MEMCACHED_SUCCESS, storeA', A') ->
  update_continuum e storeB B = Some (MEMCACHED_SUCCESS, storeB', B') ->
  dispatch_host storeA' rndA A' hash = Some i -> servers A !! Z.to_nat i = Some s ->
  (exists t, t ∈ servers B /\ endpoint t = endpoint s) ->
  exists j t, dispatch_host storeB' rndB B' hash = Some j
    /\ servers B !! Z.to_nat j = Some t /\ endpoint t = endpoint s.
Proof.
  intros He HA HB HdA HdB Hdist Heq Hports Hsub storeA' A' storeB' B' HupA HupB Hi Hs Hkept.
  rewrite Forall_app, !Forall_forall in Hports. destruct Hports as [HpA HpB].
  destruct (dispatch_after_update e storeA A rndA hash) as (? & ? & i' & s' & E & Hi' & Hs' & HoA);
    [done..|]. simplify_eq.
  destruct (dispatch_after_update e storeB B rndB hash) as (? & ? & j & t & E & Hj & Ht & HoB);
    [done..|by rewrite Heq|]. simplify_eq.
  exists j, t. split_and!; [done..|].
  apply list_elem_of_lookup_2 in Hs as HsA. apply list_elem_of_lookup_2 in Ht as HtB.
  apply hostport_endpoint; [auto..|]. eapply ring_owner_unique; [done|].
  eapply ring_owner_incl; [| |done].
  - intros p. rewrite !server_ring_in. intros (u & x & y & Hu & Hx & Hy & ->).
    destruct (Hsub u Hu) as (v & Hv & Ev). exists v, x, y. rewrite Heq. split_and!; [done..|].
    f_equal; [f_equal; by apply endpoint_sort_host|]. apply endpoint_hostport; auto.
  - intros p. rewrite !server_ring_in. intros (u & x & y & Hu & Hx & Hy & ->) Hp. simpl in Hp.
    destruct Hkept as (v & Hv & Ev). exists v, x, y.
    assert (endpoint u = endpoint v) as Euv.
    { rewrite Ev. apply hostport_endpoint; auto. }
    rewrite Heq. split_and!; [done..|].
    f_equal; [f_equal; by apply endpoint_sort_host|apply endpoint_hostport; auto].
Qed.

(** Three servers with the default weight, and two of them in another order. *)
Definition even_test_handle : memcached_st :=
  let server (h : string) :=
    match servers ketama_test_handle with
    | s :: _ => [s <| hostname := str h |> <| weight := 1 |>]
    | [] => []
    end in
  ketama_test_handle <| ketama_weighted := false |> <| number_of_hosts := 3 |>
    <| distribution := MEMCACHED_DISTRIBUTION_CONSISTENT_KETAMA_SPY |>
    <| servers := server "10.0.1.1" ++ server "10.0.1.2" ++ server "10.0.1.3" |>.

Definition even_test_handle' : memcached_st :=
  even_test_handle <| number_of_hosts := 2 |>
    <| servers ::= fun l => match l with [a; b; c] => [c; a] | _ => [] end |>.

Definition test_env : env :=
  {| gettimeofday := Some 100; malloc_ketama_info := true; malloc_continuum := true;
     pool_master := None |}.

Lemma test_env_ok : env_ok test_env.
Proof. by split. Qed.

Lemma short_names_check name :
  forallb (fun j => Z.of_nat (length (name j)) <? MEMCACHED_MAX_HOST_SORT_LENGTH) (seq 0 40) = true ->
  short_names name.
Proof.
  rewrite forallb_forall. intros Hall j Hj. apply Z.ltb_lt, Hall, in_seq. lia.
Qed.

Lemma even_test_handle_ok : even_handle even_test_handle.
Proof.
  split; try done. repeat constructor; by apply short_names_check.
Qed.

Lemma even_test_handle'_ok : even_handle even_test_handle'.
Proof.
  split; try done. repeat constructor; by apply short_names_check.
Qed.

Lemma update_continuum_ready_witness :
  exists store' k info, update_continuum test_env ∅ even_test_handle
    = Some (MEMCACHED_SUCCESS, store', even_test_handle <| ketama_info := Some k |>)
    /\ store' !! k = Some info /\ length (continuum info) = 480%nat.
Proof.
  destruct (update_continuum_ready test_env ∅ even_test_handle) as
    (store' & k & info & Hup & _ & Hinfo & Hlen & _);
    [exact test_env_ok|exact even_test_handle_ok|done|by right; right|].
  exists store', k, info. split_and!; [exact Hup|exact Hinfo|exact Hlen].
Defined.

Lemma update_continuum_owner_witness :
  exists store' ptr' i s, update_continuum test_env ∅ even_test_handle
    = Some (MEMCACHED_SUCCESS, store', ptr')
    /\ dispatch_host store' 0 ptr' 12345 = Some i
    /\ servers even_test_handle !! Z.to_nat i = Some s
    /\ forall o, ring_owner (server_ring even_test_handle) 12345 o <-> o = hostport s.
Proof.
  apply (update_continuum_owner test_env ∅ even_test_handle 0 12345);
    [exact test_env_ok|exact even_test_handle_ok|done|by right; right].
Defined.

Definition dispatch_result (r : outcome) (hash : Z) : option Z :=
  match r with
  | Some (_, store, ptr) => dispatch_host store 0 ptr hash
  | None => None
  end.

(** The server of this hash is the first of one handle and the second of the
    other. *)
Lemma ketama_minimal_disruption_witness :
  let A := even_test_handle in
  let B := even_test_handle' in
  exists storeB' B' j t,
    update_continuum test_env ∅ B = Some (MEMCACHED_SUCCESS, storeB', B')
    /\ dispatch_host storeB' 0 B' 3000000000 = Some j
    /\ servers B !! Z.to_nat j = Some t /\ endpoint t = (str "10.0.1.1", 11211).
Proof.
  intros A B.
  destruct (update_continuum_even test_env ∅ A test_env_ok even_test_handle_ok ltac:(done))
    as (storeA' & kA & HA & _).
  destruct (update_continuum_even test_env ∅ B test_env_ok even_test_handle'_ok ltac:(done))
    as (storeB' & kB & HB & _).
  assert (dispatch_result (update_continuum test_env ∅ A) 3000000000 = Some 0) as Hi
    by (vm_compute; reflexivity).
  rewrite HA in Hi.
  assert (exists t, t ∈ servers B /\ endpoint t = (str "10.0.1.1", 11211)) as Hkept.
  { eexists. split; [right; left|reflexivity]. }
  assert (Forall str_port_ok (servers A ++ servers B)) as Hports by (repeat constructor; done).
  assert (forall t, t ∈ servers B -> exists u, u ∈ servers A /\ endpoint u = endpoint t) as Hsub.
  { intros t Ht. exists t. split; [|done]. revert Ht. unfold B. simpl.
    intros [->|[->|[]%elem_of_nil]%elem_of_cons]%elem_of_cons;
      [right; right; left|left]. }
  destruct (ketama_minimal_disruption test_env ∅ A 0 ∅ B 0 3000000000 0
    _
    test_env_ok even_test_handle_ok even_test_handle'_ok ltac:(done) ltac:(done)
    ltac:(by right; right) eq_refl Hports Hsub _ _ _ _ HA HB Hi eq_refl Hkept)
    as (j & t & Hj & Ht & Et).
  exists storeB', (B <| ketama_info := Some kB |>), j, t.
  split_and!; [exact HB|exact Hj|exact Ht|exact Et].
Defined.

(** ** Reference counts *)

(** [refs store infos] holds when the handles of a pool, given by their
    [ketama.info], and the store agree: every structure of the store is in use
    and counts its users, and no handle points to freed memory. *)
Definition refs_to (k : nat) (infos : list (option nat)) : Z :=
  Z.of_nat (length (filter (fun i => i = Some k) infos)).

Definition refs (store : ketama_store) (infos : list (option nat)) : Prop :=
  Z.of_nat (length infos) < 2 ^ 32 /\
  forall k, match store !! k with
            | Some info => continuum_refcount info = refs_to k infos /\ 0 < refs_to k infos
            | None => refs_to k infos = 0
            end.

Lemma refs_to_cons k i infos :
  refs_to k (i :: infos) = (if decide (i = Some k) then 1 else 0) + refs_to k infos.
Proof. unfold refs_to. rewrite filter_cons. case_decide; simpl; lia. Qed.

Lemma refs_to_bound k infos : 0 <= refs_to k infos <= Z.of_nat (length infos).
Proof. unfold refs_to. pose proof (length_filter (fun i => i = Some k) infos). lia. Qed.

Lemma refs_to_in k infos : Some k ∈ infos -> 0 < refs_to k infos.
Proof.
  induction infos as [|i infos IH]; [by intros ?%not_elem_of_nil|].
  rewrite refs_to_cons. pose proof (refs_to_bound k infos).
  intros [<-|Hin]%elem_of_cons; [rewrite decide_True by done; lia|].
  specialize (IH Hin). case_decide; lia.
Qed.

Lemma ketama_release_refs store ptr others :
  refs store (ketama_info ptr :: others) ->
  exists store', memcached_ketama_release store ptr = Some (store', ptr <| ketama_info := None |>)
    /\ refs store' (None :: others).
Proof.
  intros [Hlen Hrefs]. unfold memcached_ketama_release.
  destruct (ketama_info ptr) as [k|] eqn:Hk.
  2: { exists store. split; [|done]. do 2 f_equal. destruct ptr. simpl in *. by subst. }
  pose proof (Hrefs k) as Hkk. rewrite refs_to_cons, decide_True in Hkk by done.
  destruct (store !! k) as [info|] eqn:Hinfo; [|pose proof (refs_to_bound k others); lia].
  destruct Hkk as [Hcount _]. pose proof (refs_to_bound k others). simpl in Hlen.
  rewrite Hcount, u32_small by lia. eexists. split; [done|]. split; [done|].
  intros k'. specialize (Hrefs k'). rewrite refs_to_cons in Hrefs |- *.
  rewrite (decide_False (P := None = Some k')) by done.
  destruct (decide (k' = k)) as [->|Hne].
  - destruct (Z.eqb_spec (1 + refs_to k others - 1) 0).
    + rewrite lookup_delete_eq. lia.
    + rewrite lookup_insert_eq. cbn [continuum_refcount update]. lia.
  - rewrite decide_False in Hrefs by congruence.
    destruct (_ =? 0); [by rewrite lookup_delete_ne|by rewrite lookup_insert_ne].
Qed.

Lemma ketama_set_refs store ptr info others :
  ketama_info ptr = None -> continuum_refcount info = 0 ->
  refs store (None :: others) ->
  exists store' k, memcached_ketama_set store ptr info
      = Some (store', ptr <| ketama_info := Some k |>)
    /\ refs store' (Some k :: others).
Proof.
  intros Hptr Hinfo [Hlen Hrefs]. unfold memcached_ketama_set. rewrite Hptr. cbv zeta.
  pose proof (is_fresh (dom store)) as Hfresh. apply not_elem_of_dom in Hfresh.
  eexists _, _. split; [done|]. split; [done|]. intros k'.
  pose proof (Hrefs k') as Hk'. rewrite refs_to_cons, decide_False in Hk' by done.
  rewrite refs_to_cons. destruct (decide (k' = fresh (dom store))) as [->|Hne].
  - rewrite lookup_insert_eq, decide_True by done. rewrite Hfresh in Hk'.
    cbn [continuum_refcount update]. rewrite Hinfo, u32_small by lia. lia.
  - by rewrite lookup_insert_ne, decide_False by congruence.
Qed.

Lemma ketama_reference_refs store ptr master others :
  ketama_info ptr = None -> master ∈ None :: others ->
  refs store (None :: others) ->
  exists store', memcached_ketama_reference store ptr master
      = Some (store', ptr <| ketama_info := master |>)
    /\ refs store' (master :: others).
Proof.
  intros Hptr Hmaster [Hlen Hrefs]. unfold memcached_ketama_reference. rewrite Hptr.
  destruct master as [k|].
  2: { exists store. split; [|done]. do 2 f_equal. destruct ptr. simpl in *. by subst. }
  apply elem_of_cons in Hmaster as [|Hin]; [done|]. apply refs_to_in in Hin.
  pose proof (Hrefs k) as Hk. rewrite refs_to_cons, decide_False in Hk by done.
  destruct (store !! k) as [info|] eqn:Hinfo; [|lia].
  eexists. split; [done|]. split; [done|]. intros k'. pose proof (Hrefs k') as Hk'.
  rewrite refs_to_cons, decide_False in Hk' by done. rewrite refs_to_cons.
  destruct (decide (k' = k)) as [->|Hne].
  - rewrite lookup_insert_eq, decide_True by done. cbn [continuum_refcount update].
    pose proof (refs_to_bound k others). simpl in Hlen.
    destruct Hk as [-> _]. rewrite u32_small by lia. lia.
  - by rewrite lookup_insert_ne, decide_False by congruence.
Qed.

Definition refs_kept (others : list (option nat)) (r : outcome) : Prop :=
  exists rc store' ptr', r = Some (rc, store', ptr') /\ refs store' (ketama_info ptr' :: others).

Lemma follow_master_refs store ptr master others :
  refs store (ketama_info ptr :: others) -> master ∈ None :: others ->
  refs_kept others (follow_master store ptr master).
Proof.
  intros Hrefs Hmaster. unfold follow_master.
  destruct (ketama_release_refs _ _ _ Hrefs) as (store1 & -> & Hrefs1).
  destruct (ketama_reference_refs store1 (ptr <| ketama_info := None |>) master others)
    as (store2 & -> & Hrefs2); [done..|].
  by eexists _, _, _.
Qed.

Lemma replace_ketama_info_refs store ptr items n others :
  refs store (ketama_info ptr :: others) ->
  refs_kept others (replace_ketama_info store ptr items n).
Proof.
  intros Hrefs. unfold replace_ketama_info.
  destruct (ketama_release_refs _ _ _ Hrefs) as (store1 & -> & Hrefs1).
  match goal with |- context [memcached_ketama_set _ _ ?info] =>
    destruct (ketama_set_refs store1 (ptr <| ketama_info := None |>) info others)
      as (store2 & k & -> & Hrefs2); [done..|] end.
  by eexists _, _, _.
Qed.

(** C27: rebuilding the continuum of a handle of a pool, the master or a
    member, never uses freed memory and never trips the assertions of the
    reference counting, on any branch and with any weights, and afterwards the
    counts again equal the number of handles that share each structure, so a
    structure is freed exactly when its last user leaves it. *)
Theorem update_continuum_refs `{Qsort} e store ptr others :
  refs store (ketama_info ptr :: others) ->
  (forall master, pool_master e = Some master -> master ∈ None :: others) ->
  exists rc store' ptr',
    update_continuum e store ptr = Some (rc, store', ptr')
    /\ refs store' (ketama_info ptr' :: others).
Proof.
  intros Hrefs Hmaster. change (refs_kept others (update_continuum e store ptr)).
  unfold update_continuum. destruct (pool_master e) as [master|].
  { apply follow_master_refs; auto. }
  assert (forall rc ptr', ketama_info ptr' = ketama_info ptr ->
    refs_kept others (Some (rc, store, ptr'))) as Hkeep.
  { intros rc ptr' Hp. eexists _, _, _. split; [done|]. by rewrite Hp. }
  destruct (gettimeofday e) as [now|]; [|by apply Hkeep]. cbv zeta.
  set (ptr1 := if auto_eject_hosts (flags ptr) then _ else ptr).
  assert (ketama_info ptr1 = ketama_info ptr) as Hp1 by (unfold ptr1; by case_match).
  destruct (_ =? 0); [by apply Hkeep|].
  destruct (malloc_ketama_info e), (malloc_continuum e); try by apply Hkeep. cbn [negb].
  destruct (all_points _ _) as [[items n]|]; [|by apply Hkeep].
  apply replace_ketama_info_refs. by rewrite Hp1.
Qed.

Lemma update_continuum_refs_witness :
  let info := {| continuum_refcount := 2; continuum_points_counter := 0; continuum := [] |} in
  exists rc store' ptr',
    update_continuum test_env {[ 4%nat := info ]}
      (even_test_handle <| ketama_info := Some 4%nat |>) = Some (rc, store', ptr')
    /\ refs store' [ketama_info ptr'; Some 4%nat].
Proof.
  intros info. apply (update_continuum_refs test_env); [|done].
  split; [done|]. intros k. destruct (decide (k = 4%nat)) as [->|Hne].
  - rewrite lookup_singleton_eq. done.
  - rewrite lookup_singleton_ne by done. rewrite !refs_to_cons, !decide_False by naive_solver.
    done.
Defined.
