(* ===== verification/Distribution.v ===== *)
(** [run_distribution] of hosts.cc with the sorting of servers and groups, and
    the automatic rebuild of hash.cc. *)
From S2P Require Import Prelude HashFunctions Hashkit Memcached KeyHash Continuum.

(** ** Definitions *)

(** Writes to the first slot, an invalid access when there is none. *)
Definition set_first_count (l : list memcached_server_st) (count : Z)
    : option (list memcached_server_st) :=
  match l with
  | [] => None
  | s :: l => Some (s <| server_number_of_hosts := count |> :: l)
  end.

(** The group index of the servers that a group's first [nreplica] pointers
    refer to; a NULL or freed pointer is an invalid access. *)
Fixpoint set_groupindex (pool : gmap nat memcached_server_st) (replicas : list (option nat))
    (idx : Z) : option (gmap nat memcached_server_st) :=
  match replicas with
  | [] => Some pool
  | None :: _ => None
  | Some id :: replicas =>
      match pool !! id with
      | None => None
      | Some s => set_groupindex (<[id := s <| groupindex := i32 idx |>]> pool) replicas idx
      end
  end.

Definition do_rgroup_index_set (pool : gmap nat memcached_server_st)
    (self : memcached_rgroup_st) (idx : Z)
    : option (gmap nat memcached_server_st * memcached_rgroup_st) :=
  if rgroup_groupindex self =? idx then Some (pool, self)
  else
    match set_groupindex pool (take (nreplica self) (replicas self)) idx with
    | None => None
    | Some pool => Some (pool, self <| rgroup_groupindex := idx |>)
    end.

Definition do_rgroup_compare (a b : memcached_rgroup_st) : comparison :=
  strcmp (groupname a) (groupname b).

(** The loop that adjusts the group indexes, from position [x] on. *)
Fixpoint index_groups (pool : gmap nat memcached_server_st)
    (groups : list memcached_rgroup_st) (x : Z)
    : option (gmap nat memcached_server_st * list memcached_rgroup_st) :=
  match groups with
  | [] => Some (pool, [])
  | g :: groups =>
      match do_rgroup_index_set pool g x with
      | None => None
      | Some (pool, g) =>
          match index_groups pool groups (x + 1) with
          | None => None
          | Some (pool, groups) => Some (pool, g :: groups)
          end
      end
  end.

Section Distribution.
Context `{Qsort}.
Variable e : env.

Definition sort_hosts (ptr : memcached_st) : option memcached_st :=
  let count := memcached_server_count ptr in
  if count =? 0 then Some ptr
  else
    let n := Z.to_nat count in
    let sorted := qsort compare_servers (take n (servers ptr)) ++ drop n (servers ptr) in
    match set_first_count sorted count with
    | None => None
    | Some l => Some (ptr <| servers := l |>)
    end.

Definition memcached_rgroup_sort (memc : memcached_st) : option memcached_st :=
  match rgroups memc with
  | [] => Some memc
  | _ =>
      let n := Z.to_nat (number_of_hosts memc) in
      let sorted := qsort do_rgroup_compare (take n (rgroups memc)) in
      match index_groups (server_pool memc) sorted 0 with
      | None => None
      | Some (pool, groups) =>
          Some (memc <| rgroups := groups ++ drop n (rgroups memc) |>
                     <| server_pool := pool |>)
      end
  end.

(** The last distribution is an assertion. *)
Definition run_distribution (store : ketama_store) (ptr : memcached_st) : outcome :=
  let sorted :=
    if use_sort_hosts (flags ptr) then
      if repl_enabled (flags ptr) then memcached_rgroup_sort ptr else sort_hosts ptr
    else Some ptr in
  match sorted with
  | None => None
  | Some ptr =>
      match distribution ptr with
      | MEMCACHED_DISTRIBUTION_CONSISTENT
      | MEMCACHED_DISTRIBUTION_CONSISTENT_KETAMA
      | MEMCACHED_DISTRIBUTION_CONSISTENT_KETAMA_SPY =>
          if repl_enabled (flags ptr) then update_continuum_based_on_rgroups e store ptr
          else update_continuum e store ptr
      | MEMCACHED_DISTRIBUTION_VIRTUAL_BUCKET
      | MEMCACHED_DISTRIBUTION_MODULA
      | MEMCACHED_DISTRIBUTION_RANDOM => Some (MEMCACHED_SUCCESS, store, ptr)
      | MEMCACHED_DISTRIBUTION_CONSISTENT_MAX => None
      end
  end.

(** The return code of [run_distribution] is ignored. *)
Definition _regen_for_auto_eject (store : ketama_store) (ptr : memcached_st)
    : option (ketama_store * memcached_st) :=
  if auto_eject_hosts (flags ptr) && negb (next_distribution_rebuild ptr =? 0) then
    match gettimeofday e with
    | Some now =>
        if next_distribution_rebuild ptr <? now then
          match run_distribution store ptr with
          | None => None
          | Some (_, store, ptr) => Some (store, ptr)
          end
        else Some (store, ptr)
    | None => Some (store, ptr)
    end
  else Some (store, ptr).

Definition memcached_autoeject := _regen_for_auto_eject.

Context {config : BuildConfig}.
Variable custom : nat -> bytes -> option Z -> Z.

(** The hash is computed before the rebuild, the dispatch happens after it. *)
Definition memcached_generate_hash_with_redistribution (store : ketama_store) (rnd : Z)
    (ptr : memcached_st) (key : bytes) : option (option Z * ketama_store * memcached_st) :=
  let hash := _generate_hash_wrapper custom ptr key in
  match _regen_for_auto_eject store ptr with
  | None => None
  | Some (store, ptr) => Some (dispatch_host store rnd ptr hash, store, ptr)
  end.
End Distribution.

(** ** Lemmas *)

(** What the theorems about server lists need to know of [run_distribution]:
    it keeps the servers, up to their order, and the count of hosts. *)
Lemma set_first_count_endpoints l count l' :
  set_first_count l count = Some l' -> map endpoint l' = map endpoint l.
Proof. destruct l; simpl; [done|]. by intros [= <-]. Qed.

Definition same_servers (p q : memcached_st) : Prop :=
  map endpoint (servers q) ≡ₚ map endpoint (servers p)
  /\ number_of_hosts q = number_of_hosts p
  /\ (use_sort_hosts (flags p) = false -> servers q = servers p).

Section Lemmas.
Context `{Qsort}.

Definition only_ketama (p q : memcached_st) : Prop := exists i, q = p <| ketama_info := i |>.

Lemma only_ketama_refl p : only_ketama p p.
Proof. exists (ketama_info p). by destruct p. Qed.

Lemma only_ketama_trans p q r : only_ketama p q -> only_ketama q r -> only_ketama p r.
Proof. intros [i ->] [j ->]. by exists j. Qed.

Lemma only_ketama_set p i : only_ketama p (p <| ketama_info := i |>).
Proof. by exists i. Qed.

Lemma ketama_release_only store ptr store' ptr' :
  memcached_ketama_release store ptr = Some (store', ptr') -> only_ketama ptr ptr'.
Proof.
  unfold memcached_ketama_release.
  repeat case_match; intros; simplify_eq; auto using only_ketama_refl, only_ketama_set.
Qed.

Lemma follow_master_servers store ptr master rc store' ptr' :
  follow_master store ptr master = Some (rc, store', ptr') -> only_ketama ptr ptr'.
Proof.
  unfold follow_master. intros Hf.
  destruct (memcached_ketama_release store ptr) as [[store1 ptr1]|] eqn:Hrel; [|done].
  apply ketama_release_only in Hrel. eapply only_ketama_trans; [done|].
  unfold memcached_ketama_reference in Hf.
  repeat case_match; simplify_eq; auto using only_ketama_refl, only_ketama_set.
Qed.

Lemma replace_ketama_info_servers store ptr items n rc store' ptr' :
  replace_ketama_info store ptr items n = Some (rc, store', ptr') -> only_ketama ptr ptr'.
Proof.
  unfold replace_ketama_info. intros Hf.
  destruct (memcached_ketama_release store ptr) as [[store1 ptr1]|] eqn:Hrel; [|done].
  apply ketama_release_only in Hrel. eapply only_ketama_trans; [done|].
  unfold memcached_ketama_set in Hf.
  repeat case_match; simplify_eq; auto using only_ketama_refl, only_ketama_set.
Qed.

(** A rebuild changes the continuum, and the time of the next one. *)
Lemma update_continuum_servers e store ptr rc store' ptr' :
  update_continuum e store ptr = Some (rc, store', ptr') ->
  servers ptr' = servers ptr /\ number_of_hosts ptr' = number_of_hosts ptr
  /\ flags ptr' = flags ptr.
Proof.
  unfold update_continuum. intros Hup.
  repeat case_match; simplify_eq; try done;
    first [apply follow_master_servers in Hup as [? ->]
          |apply replace_ketama_info_servers in Hup as [? ->]]; done.
Qed.

Lemma rgroups_continuum_servers e store ptr rc store' ptr' :
  update_continuum_based_on_rgroups e store ptr = Some (rc, store', ptr') ->
  only_ketama ptr ptr'.
Proof.
  unfold update_continuum_based_on_rgroups. intros Hup.
  repeat case_match; simplify_eq;
    first [apply only_ketama_refl|by eapply follow_master_servers
          |by eapply replace_ketama_info_servers].
Qed.

Lemma run_distribution_servers e store ptr rc store' ptr' :
  repl_enabled (flags ptr) = false ->
  run_distribution e store ptr = Some (rc, store', ptr') -> same_servers ptr ptr'.
Proof.
  intros Hrepl Hrun. unfold run_distribution in Hrun. rewrite Hrepl in Hrun.
  destruct (if use_sort_hosts (flags ptr) then sort_hosts ptr else Some ptr)
    as [ptr1|] eqn:Hsort; [|done].
  assert (same_servers ptr ptr1 /\ flags ptr1 = flags ptr) as [Hsame Hflags].
  { destruct (use_sort_hosts (flags ptr)) eqn:Huse; [|by simplify_eq].
    unfold sort_hosts in Hsort. destruct (_ =? 0); [by simplify_eq|].
    destruct (set_first_count _ _) as [l|] eqn:Hl; simplify_eq/=.
    apply set_first_count_endpoints in Hl. split; [|done]. split_and!; [|done|].
    - cbn [servers update]. rewrite Hl, map_app, qsort_perm.
      by rewrite <-map_app, take_drop.
    - by rewrite Huse. }
  rewrite Hflags, Hrepl in Hrun.
  assert (servers ptr' = servers ptr1 /\ number_of_hosts ptr' = number_of_hosts ptr1) as [Hs Hn].
  { destruct (distribution ptr1); simplify_eq; try done;
      apply update_continuum_servers in Hrun as (? & ? & _); done. }
  destruct Hsame as (Hperm & Hcount & Hkeep). split_and!; rewrite ?Hs, ?Hn; auto.
Qed.
End Lemmas.
