(* ===== verification/ServerList.v ===== *)
(** The server list of a handle: server.cc, server.hpp, server_list.cc, the
    operations of hosts.cc that add, push and prune servers, and the updates of
    memcached.cc that follow ZooKeeper or the master of a pool.

    [servers] holds the slots up to [number_of_hosts]; what the array has
    beyond them is never read.  The network side of freeing a server is not
    modelled.  [None] is an assertion that fails or an invalid access. *)
From S2P Require Import Prelude HashFunctions Hashkit Memcached KeyHash Continuum Distribution.

(** ** Servers *)

Definition memcached_is_valid_servername (name : bytes) : bool :=
  Z.of_nat (length name) <? MEMCACHED_NI_MAXHOST.

Definition memcached_mark_server_as_clean (s : memcached_server_st) : memcached_server_st :=
  s <| server_failure_counter := 0 |> <| next_retry := 0 |>.

(** Every assignment of the function, in its order; [self] is the memory
    before, of which some fields are left.  [root_version] is
    [root->server_info.version] after it was incremented, [None] without a
    root; [here] is the read buffer of [self]. *)
Definition _server_init (self : memcached_server_st) (root_version : option Z)
    (here : buffer_ptr) (h : bytes) (p w : Z) (t : memcached_connection_t)
    : memcached_server_st :=
  self
    <| is_shutting_down := false |> <| is_dead := false |>
    <| server_number_of_hosts := 0 |> <| cursor_active := 0 |>
    <| port := p |> <| fd := -1 |> <| io_bytes_sent := 0 |>
    <| server_failure_counter := 0 |> <| server_failure_counter_query_id := 0 |>
    <| weight := if w =? 0 then 1 else w |>
    <| major_version := 255 |> <| minor_version := 255 |> <| micro_version := 255 |>
    <| is_enterprise := false |> <| send_failed := false |> <| in_sasl_mech := false |>
    <| type := t |> <| read_ptr := Some here |>
    <| read_buffer_length := 0 |> <| read_data_length := 0 |> <| write_buffer_offset := 0 |>
    <| server_state := MEMCACHED_SERVER_STATE_NEW |> <| next_retry := 0 |>
    <| immediate_reconnect := false |>
    <| version := default (2 ^ 32 - 1) root_version |>
    <| limit_maxbytes := 0 |> <| hostname := h |>
    <| str_port := print_u32 p |>
    <| groupindex := -1 |> <| next := None |> <| switchover_state := MEMCACHED_SUCCESS |>.

(** [allocated] is whether the memory is not given but comes from [malloc]. *)
Definition _server_create (self : memcached_server_st) (allocated : bool)
    : memcached_server_st :=
  self <| server_is_allocated := allocated |> <| is_initialized := true |>.

(** [root] is [root->server_info.version] before and after, [None] without a
    root. *)
Definition __server_create_with (root : option Z) (self : memcached_server_st)
    (allocated : bool) (here : buffer_ptr) (h : bytes) (p w : Z)
    (t : memcached_connection_t) : memcached_server_st * option Z :=
  let self := _server_create self allocated in
  let root := (fun v => v ⊞ 1) <$> root in
  let self := _server_init self root here h p w t in
  let self :=
    if bool_decide (t = MEMCACHED_CONNECTION_UDP)
    then self <| write_buffer_offset := UDP_DATAGRAM_HEADER_LENGTH |> else self in
  (self, root).

(** The start of the read buffer of a slot of an array. *)
Definition buffer_of (block slot : Z) : buffer_ptr :=
  {| ptr_block := block; ptr_slot := slot; ptr_offset := 0 |}.

(** [memcached_server_clone(NULL, source)] in the block that [malloc] returns,
    unless it fails, and what that memory holds. *)
Definition memcached_server_clone (root : memcached_st) (source : memcached_server_st)
    (malloc : option (Z * memcached_server_st)) : option memcached_server_st * memcached_st :=
  let h := cstr (hostname source) in
  if negb (memcached_is_valid_servername h) then (None, root)
  else
    match malloc with
    | None => (None, root)
    | Some (block, junk) =>
        let '(s, v) := __server_create_with (Some (server_info_version root)) junk true
          (buffer_of block 0) h (port source) (weight source) (type source) in
        (Some s, root <| server_info_version := default 0 v |>)
    end.

Definition set_last_disconnected_host (root : memcached_st) (self : memcached_server_st)
    (malloc : option (Z * memcached_server_st)) : option memcached_st :=
  let same := match last_disconnected_server root with
              | Some s => version s =? version self | None => false end in
  if same then Some root
  else
    match memcached_server_clone root self malloc with
    | (None, _) => None
    | (Some s, root) =>
        Some (root <| last_disconnected_server := Some (s <| version := version self |>) |>)
    end.

(** [root] is the server's handle and [now] what [gettimeofday] returns. *)
Definition memcached_mark_server_for_timeout (now : option Z) (root : memcached_st)
    (s : memcached_server_st) (malloc : option (Z * memcached_server_st))
    : option (memcached_server_st * memcached_st) :=
  if bool_decide (server_state s <> MEMCACHED_SERVER_STATE_IN_TIMEOUT) then
    let s :=
      match now with
      | Some now =>
          if retry_timeout root =? 0 then s <| next_retry := 1 |>
          else s <| next_retry := now + retry_timeout root |>
      | None => s <| next_retry := 1 |>
      end in
    let s :=
      if immediate_reconnect s
      then s <| next_retry := 1 |> <| immediate_reconnect := false |> else s in
    let s := s <| server_state := MEMCACHED_SERVER_STATE_IN_TIMEOUT |> in
    let s :=
      if server_failure_counter_query_id s =? query_id root then s
      else s <| server_failure_counter ::= fun c => c ⊞ 1 |>
             <| server_failure_counter_query_id := query_id root |> in
    (s,.) <$> set_last_disconnected_host root s malloc
  else Some (s, root).

(** ** Server lists *)

Section ServerList.
Context `{Qsort}.
Variable e : env.
(** What memory holds before a server is created in it, and the block that
    [realloc] returns, unless it fails. *)
Variable junk : memcached_server_st.
Variable new_block : option Z.

(** Creates a server in the slot behind the last one. *)
Definition create_server (ptr : memcached_st) (h : bytes) (p w : Z)
    (t : memcached_connection_t) : memcached_st :=
  let n := number_of_hosts ptr in
  let '(s, v) := __server_create_with (Some (server_info_version ptr)) junk false
    (buffer_of (servers_block ptr) n) h p w t in
  ptr <| server_info_version := default 0 v |>
      <| servers ::= fun l => take (Z.to_nat n) l ++ [s] |>.

Definition wrong_protocol (ptr : memcached_st) (t : memcached_connection_t) : bool :=
  (use_udp (flags ptr) && bool_decide (t <> MEMCACHED_CONNECTION_UDP))
  || (bool_decide (t = MEMCACHED_CONNECTION_UDP) && negb (use_udp (flags ptr))).

(** [memcached_servers_set_count(instance 0, count)], then [run_distribution]. *)
Definition finish_push (store : ketama_store) (ptr : memcached_st) : outcome :=
  match set_first_count (servers ptr) (number_of_hosts ptr) with
  | None => None
  | Some l => run_distribution e store (ptr <| servers := l |>)
  end.

Definition server_add (store : ketama_store) (ptr : memcached_st) (h : bytes) (p w : Z)
    (t : memcached_connection_t) : outcome :=
  if wrong_protocol ptr t then Some (MEMCACHED_INVALID_HOST_PROTOCOL, store, ptr)
  else if negb (memcached_is_valid_servername h) then
    Some (MEMCACHED_INVALID_ARGUMENTS, store, ptr)
  else
    match new_block with
    | None => Some (MEMCACHED_MEMORY_ALLOCATION_FAILURE, store, ptr)
    | Some b =>
        let ptr := create_server (ptr <| servers_block := b |>) h p w t in
        let ptr := if 1 <? w then ptr <| ketama_weighted := true |> else ptr in
        finish_push store (ptr <| number_of_hosts ::= fun n => n ⊞ 1 |>)
    end.

(** [hostname = None] is NULL. *)
Definition memcached_server_add_with_weight (store : ketama_store) (ptr : memcached_st)
    (hostname : option bytes) (p w : Z) : outcome :=
  let p := if p =? 0 then MEMCACHED_DEFAULT_PORT else p in
  let h := cstr (default [] hostname) in
  let h := if (length h =? 0)%nat then str "localhost" else h in
  server_add store ptr h p w
    (if bool_decide (head h = Some (byte_of_Z 47))
     then MEMCACHED_CONNECTION_UNIX_SOCKET else MEMCACHED_CONNECTION_TCP).

Definition memcached_server_add_udp_with_weight (store : ketama_store) (ptr : memcached_st)
    (hostname : option bytes) (p w : Z) : outcome :=
  let p := if p =? 0 then MEMCACHED_DEFAULT_PORT else p in
  let h := cstr (default (str "localhost") hostname) in
  server_add store ptr h p w MEMCACHED_CONNECTION_UDP.

Definition memcached_server_add_unix_socket_with_weight (store : ketama_store)
    (ptr : memcached_st) (filename : bytes) (w : Z) : outcome :=
  server_add store ptr (cstr filename) 0 w MEMCACHED_CONNECTION_UNIX_SOCKET.

(** The loop of [memcached_server_push_with_count]; a return code is an early
    return. *)
Fixpoint push_loop (ptr : memcached_st) (list : list memcached_server_st)
    : option memcached_return_t * memcached_st :=
  match list with
  | [] => (None, ptr)
  | s :: list =>
      if wrong_protocol ptr (type s) then (Some MEMCACHED_INVALID_HOST_PROTOCOL, ptr)
      else if negb (memcached_is_valid_servername (cstr (hostname s))) then
        (Some MEMCACHED_INVALID_ARGUMENTS, ptr)
      else
        let ptr := create_server ptr (cstr (hostname s)) (port s) (weight s) (type s) in
        let ptr := if 1 <? weight s then ptr <| ketama_weighted := true |> else ptr in
        push_loop (ptr <| number_of_hosts ::= fun n => n ⊞ 1 |>) list
  end.

(** [list] is the [count] servers from the given one on. *)
Definition memcached_server_push_with_count (store : ketama_store) (ptr : memcached_st)
    (list : option (list memcached_server_st)) : outcome :=
  match list with
  | None => Some (MEMCACHED_SUCCESS, store, ptr)
  | Some list =>
      match new_block with
      | None => Some (MEMCACHED_MEMORY_ALLOCATION_FAILURE, store, ptr)
      | Some b =>
          match push_loop (ptr <| servers_block := b |>) list with
          | (Some rc, ptr) => Some (rc, store, ptr)
          | (None, ptr) => finish_push store ptr
          end
      end
  end.

(** The number of hosts of a list is kept in its first server. *)
Definition memcached_server_list_count (self : list memcached_server_st) : Z :=
  match self with [] => 0 | s :: _ => server_number_of_hosts s end.

Definition memcached_server_push (store : ketama_store) (ptr : memcached_st)
    (list : list memcached_server_st) : outcome :=
  match list with
  | [] => Some (MEMCACHED_SUCCESS, store, ptr)
  | _ =>
      let count := Z.to_nat (memcached_server_list_count list) in
      if (length list <? count)%nat then None
      else memcached_server_push_with_count store ptr (Some (take count list))
  end.

(** [ptr = None] is NULL.  The result is the new list, or NULL, and what
    [*error] is set to, if it is. *)
Definition memcached_server_list_append_with_weight (ptr : option (list memcached_server_st))
    (hostname : option bytes) (p w : Z)
    : option (option (list memcached_server_st) * option memcached_return_t) :=
  let h := default (str "localhost") hostname in
  let p :=
    if bool_decide (head h = Some (byte_of_Z 47)) then 0
    else if p =? 0 then MEMCACHED_DEFAULT_PORT else p in
  let h := cstr h in
  if negb (memcached_is_valid_servername h) then
    match ptr with None => None | Some _ => Some (None, None) end
  else
    let count := 1 ⊞ match ptr with None => 0 | Some l => memcached_server_list_count l end in
    match new_block with
    | None =>
        match ptr with
        | None => None
        | Some _ => Some (None, Some MEMCACHED_MEMORY_ALLOCATION_FAILURE)
        end
    | Some b =>
        let slot := count ⊟ 1 in
        let '(s, _) := __server_create_with None junk false (buffer_of b slot) h p w
          (if p =? 0 then MEMCACHED_CONNECTION_UNIX_SOCKET else MEMCACHED_CONNECTION_TCP) in
        match set_first_count (take (Z.to_nat slot) (default [] ptr) ++ [s]) count with
        | None => None
        | Some l => Some (Some l, Some MEMCACHED_SUCCESS)
        end
    end.

(** [struct memcached_server_info_st] (types.h). *)
Record memcached_server_info_st := {
  info_groupname : bytes;
  info_hostname : bytes;
  info_port : Z;
  info_master : bool;
  exist : bool;
}.

#[export] Instance server_info_fields : Fields memcached_server_info_st := fun i =>
  {| info_groupname := info_groupname i; info_hostname := info_hostname i;
     info_port := info_port i; info_master := info_master i; exist := exist i |}.

Definition info_endpoint (i : memcached_server_info_st) : bytes * Z :=
  (info_hostname i, info_port i).

(** The array has room for [capacity] servers. *)
Fixpoint push_info_loop (capacity : Z) (ptr : memcached_st)
    (infos : list memcached_server_info_st)
    : option (option memcached_return_t * memcached_st) :=
  match infos with
  | [] => Some (None, ptr)
  | i :: infos =>
      if exist i then push_info_loop capacity ptr infos
      else if negb (memcached_is_valid_servername (cstr (info_hostname i))) then
        Some (Some MEMCACHED_INVALID_ARGUMENTS, ptr)
      else if capacity <=? number_of_hosts ptr then None
      else
        let ptr := create_server ptr (cstr (info_hostname i)) (info_port i) 0
          (if info_port i =? 0 then MEMCACHED_CONNECTION_UNIX_SOCKET
           else MEMCACHED_CONNECTION_TCP) in
        push_info_loop capacity (ptr <| number_of_hosts ::= fun n => n ⊞ 1 |>) infos
  end.

Definition memcached_server_push_with_serverinfo (store : ketama_store) (ptr : memcached_st)
    (serverinfo : list memcached_server_info_st) : outcome :=
  match serverinfo with
  | [] => Some (MEMCACHED_SUCCESS, store, ptr)
  | _ =>
      if use_udp (flags ptr) then Some (MEMCACHED_INVALID_HOST_PROTOCOL, store, ptr)
      else
        match new_block with
        | None => Some (MEMCACHED_MEMORY_ALLOCATION_FAILURE, store, ptr)
        | Some b =>
            match push_info_loop (Z.of_nat (length serverinfo))
                    (ptr <| servers_block := b |>) serverinfo with
            | None => None
            | Some (Some rc, ptr) => Some (rc, store, ptr)
            | Some (None, ptr) => finish_push store ptr
            end
        end
  end.

(** ** Pruning *)

Definition memcached_servers_reset (self : memcached_st) : memcached_st :=
  self <| servers := [] |> <| number_of_hosts := 0 |> <| last_disconnected_server := None |>.

(** [ptr->servers\[cursor\]= ptr->servers\[i\]] with the adjustment of
    [read_ptr]: its distance from the buffer of slot [i] is kept, so that a
    pointer that is not into that buffer is moved as many slots. *)
Definition move_server (i cursor : nat) (s : memcached_server_st) : memcached_server_st :=
  s <| read_ptr ::= option_map (fun p =>
         {| ptr_block := ptr_block p; ptr_slot := ptr_slot p - Z.of_nat i + Z.of_nat cursor;
            ptr_offset := ptr_offset p |}) |>.

(** The loop over the slots: [n] of them are left, from slot [i] on; the array
    is updated in place. *)
Fixpoint prune_loop (n i cursor : nat) (l : list memcached_server_st)
    : option (nat * list memcached_server_st) :=
  match n with
  | O => Some (cursor, l)
  | S n =>
      match l !! i with
      | None => None
      | Some s =>
          if is_dead s then
            prune_loop n (S i) cursor (<[i := s <| is_initialized := false |>]> l)
          else if (cursor <? i)%nat then
            prune_loop n (S i) (S cursor) (<[cursor := move_server i cursor s]> l)
          else prune_loop n (S i) (S cursor) l
      end
  end.

Definition memcached_server_prune (ptr : memcached_st) (all_flag : bool)
    : option memcached_st :=
  let server_count := memcached_server_count ptr in
  if server_count =? 0 then Some ptr
  else if all_flag then Some (memcached_servers_reset ptr)
  else
    match prune_loop (Z.to_nat server_count) 0 0 (servers ptr) with
    | None => None
    | Some (cursor, l) =>
        Some (ptr <| servers := map (fun s =>
                       s <| server_number_of_hosts := Z.of_nat cursor |>) (take cursor l) |>
                  <| number_of_hosts := Z.of_nat cursor |>)
    end.

(** ** Following a list of servers *)

(** The inner loop: the first entry that is not taken yet and has the
    server's endpoint becomes taken. *)
Fixpoint take_info (s : memcached_server_st) (infos : list memcached_server_info_st)
    : option (list memcached_server_info_st) :=
  match infos with
  | [] => None
  | i :: infos =>
      if exist i then (i ::.) <$> take_info s infos
      else if bool_decide (strcmp (hostname s) (info_hostname i) = Eq) && (port s =? info_port i)
      then Some (i <| exist := true |> :: infos)
      else (i ::.) <$> take_info s infos
  end.

(** The outer loop: the servers that are not found die.  The result is the
    servers, the entries, [validcount] and [prune_flag]. *)
Fixpoint match_servers (l : list memcached_server_st) (infos : list memcached_server_info_st)
    (validcount : Z) (prune_flag : bool)
    : list memcached_server_st * list memcached_server_info_st * Z * bool :=
  match l with
  | [] => ([], infos, validcount, prune_flag)
  | s :: l =>
      match take_info s infos with
      | Some infos =>
          let '(l, infos, v, f) := match_servers l infos (validcount ⊟ 1) prune_flag in
          (s :: l, infos, v, f)
      | None =>
          let '(l, infos, v, f) := match_servers l infos validcount true in
          (s <| is_dead := true |> :: l, infos, v, f)
      end
  end.

(** The result says also whether [serverlist_changed] is set. *)
Definition do_memcached_update_serverlist (store : ketama_store) (mc : memcached_st)
    (serverinfo : list memcached_server_info_st)
    : option (memcached_return_t * ketama_store * memcached_st * bool) :=
  let changed (r : outcome) := (fun r => (r, true)) <$> r in
  match serverinfo with
  | [] =>
      if memcached_server_count mc =? 0 then Some (MEMCACHED_SUCCESS, store, mc, false)
      else
        match memcached_server_prune mc true with
        | None => None
        | Some mc => changed (run_distribution e store mc)
        end
  | _ =>
      let '(l, infos, validcount, prune_flag) :=
        match_servers (servers mc) serverinfo (Z.of_nat (length serverinfo)) false in
      let mc := mc <| servers := l |> in
      if (0 <? validcount) || prune_flag then
        match (if prune_flag then memcached_server_prune mc false else Some mc) with
        | None => None
        | Some mc =>
            changed (if 0 <? validcount
                     then memcached_server_push_with_serverinfo store mc infos
                     else run_distribution e store mc)
        end
      else Some (MEMCACHED_SUCCESS, store, mc, false)
  end.

(** ** Following the master of a pool *)

Definition same_endpoint (s t : memcached_server_st) : bool :=
  bool_decide (strcmp (hostname s) (hostname t) = Eq) && (port s =? port t).

(** The comparison loop: the servers, how many of the master's were met, and
    [prune_flag]. *)
Fixpoint compare_with_master (l master : list memcached_server_st) (prune_flag : bool)
    : list memcached_server_st * nat * bool :=
  match l with
  | [] => ([], 0%nat, prune_flag)
  | s :: l =>
      match master with
      | t :: master' =>
          if same_endpoint s t then
            let '(l, y, f) := compare_with_master l master' prune_flag in (s :: l, S y, f)
          else
            let '(l, y, f) := compare_with_master l master true in
            (s <| is_dead := true |> :: l, y, f)
      | [] =>
          let '(l, y, f) := compare_with_master l master true in
          (s <| is_dead := true |> :: l, y, f)
      end
  end.

Definition do_memcached_update_serverlist_with_master (store : ketama_store)
    (mc master : memcached_st) : outcome :=
  if memcached_server_count master =? 0 then
    if memcached_server_count mc =? 0 then Some (MEMCACHED_SUCCESS, store, mc)
    else
      match memcached_server_prune mc true with
      | None => None
      | Some mc => run_distribution e store mc
      end
  else if memcached_server_count mc =? 0 then
    memcached_server_push store mc (servers master)
  else
    let '(l, y, prune_flag) := compare_with_master (servers mc) (servers master) false in
    let mc := mc <| servers := l |> in
    match (if prune_flag then memcached_server_prune mc false else Some mc) with
    | None => None
    | Some mc =>
        if Z.of_nat y <? memcached_server_count master then
          memcached_server_push_with_count store mc
            (Some (drop y (servers master)))
        else if prune_flag then run_distribution e store mc
        else Some (MEMCACHED_SUCCESS, store, mc)
    end.
End ServerList.

(** ** Pruning keeps the live servers *)

(** The slots up to [number_of_hosts] are the servers. *)
Definition well_formed (ptr : memcached_st) : Prop :=
  number_of_hosts ptr = Z.of_nat (length (servers ptr)).

(** Every server's [read_ptr] is into its own buffer, the servers being those
    from slot [k] of a block on. *)
Definition own_buffers_from (block k : Z) (l : list memcached_server_st) : Prop :=
  forall i s p, l !! i = Some s -> read_ptr s = Some p ->
    ptr_block p = block /\ ptr_slot p = k + Z.of_nat i.
Definition own_buffers (ptr : memcached_st) : Prop :=
  own_buffers_from (servers_block ptr) 0 (servers ptr).

(** A server in another slot, all else being as it was. *)
Definition same_connection (s t : memcached_server_st) : Prop :=
  t = s <| read_ptr := read_ptr t |> <| server_number_of_hosts := server_number_of_hosts t |>
  /\ ptr_offset <$> read_ptr t = ptr_offset <$> read_ptr s.

Definition live (s : memcached_server_st) : Prop := is_dead s = false.

#[export] Instance live_dec s : Decision (live s).
Proof. unfold live. apply _. Defined.

Lemma same_connection_refl s : same_connection s s.
Proof. split; [by destruct s|done]. Qed.

#[export] Instance same_connection_reflexive : Reflexive same_connection :=
  same_connection_refl.

Lemma same_connection_trans s t u :
  same_connection s t -> same_connection t u -> same_connection s u.
Proof.
  intros [Hst Ho] [Htu Ho']. split; [|by rewrite Ho'].
  rewrite Htu. rewrite Hst. by destruct s.
Qed.

#[export] Instance same_connection_transitive : Transitive same_connection :=
  same_connection_trans.

Lemma same_connection_endpoint s t : same_connection s t -> endpoint t = endpoint s.
Proof. intros [-> _]. by destruct s. Qed.

Lemma same_connection_endpoints l l' :
  Forall2 same_connection l l' -> map endpoint l' = map endpoint l.
Proof. induction 1 as [|s t l l' Hst _ IH]; simpl; [done|]. by rewrite IH, (same_connection_endpoint s t). Qed.

Lemma same_connection_count s n : same_connection s (s <| server_number_of_hosts := n |>).
Proof. split; by destruct s. Qed.

Lemma move_server_connection i c s : same_connection s (move_server i c s).
Proof. split; destruct s as [????????????????????? [] ?]; done. Qed.

Lemma move_server_same i s : move_server i i s = s.
Proof.
  destruct s as [????????????????????? [[]|] ?]; [|done].
  unfold move_server, update. simpl. do 3 f_equal. lia.
Qed.

(** What the loop leaves of the servers from slot [i] on, moved to the slots
    from [cursor] on. *)
Fixpoint relocate (i cursor : nat) (l : list memcached_server_st) : list memcached_server_st :=
  match l with
  | [] => []
  | s :: l =>
      if is_dead s then relocate (S i) cursor l
      else move_server i cursor s :: relocate (S i) (S cursor) l
  end.

Lemma prune_loop_relocate rest kept gap :
  exists left,
    prune_loop (length rest) (length (kept ++ gap)) (length kept) (kept ++ gap ++ rest)
    = Some (length (kept ++ relocate (length (kept ++ gap)) (length kept) rest),
            kept ++ relocate (length (kept ++ gap)) (length kept) rest ++ left).
Proof.
  revert kept gap. induction rest as [|s rest IH]; intros kept gap; cbn [length prune_loop relocate].
  { exists gap. by rewrite !app_nil_r. }
  assert ((kept ++ gap ++ s :: rest) !! length (kept ++ gap) = Some s) as ->
    by (rewrite app_assoc; apply list_lookup_middle; done).
  destruct (is_dead s) eqn:Hdead.
  - destruct (IH kept (gap ++ [s <| is_initialized := false |>])) as [left IHeq].
    exists left. rewrite app_assoc, length_app in IHeq. simpl in IHeq.
    rewrite Nat.add_1_r, <-app_assoc in IHeq. rewrite <-IHeq. f_equal.
    rewrite app_assoc, insert_app_r_alt, Nat.sub_diag by lia. simpl.
    by rewrite <-!app_assoc.
  - destruct (Nat.ltb_spec (length kept) (length (kept ++ gap))) as [Hlt|Hge].
    + destruct gap as [|g gap]; [rewrite app_nil_r in Hlt; lia|].
      destruct (IH (kept ++ [move_server (length (kept ++ g :: gap)) (length kept) s]) (gap ++ [s]))
        as [left IHeq].
      exists left.
      replace (length ((kept ++ [move_server (length (kept ++ g :: gap)) (length kept) s])
                        ++ gap ++ [s])) with (S (length (kept ++ g :: gap))) in IHeq
        by (rewrite !length_app; simpl; rewrite ?length_app; simpl; lia).
      rewrite (length_app kept [_]), Nat.add_1_r, <-!app_assoc in IHeq.
      cbn [app] in IHeq |- *. rewrite <-IHeq. f_equal.
      by rewrite insert_app_r_alt, Nat.sub_diag by lia.
    + destruct gap as [|g gap]; [|rewrite length_app in Hge; simpl in Hge; lia].
      rewrite app_nil_r, move_server_same. destruct (IH (kept ++ [s]) []) as [left IHeq].
      exists left. rewrite app_nil_r, (length_app kept [_]), Nat.add_1_r, <-!app_assoc in IHeq.
      cbn [app] in IHeq |- *. exact IHeq.
Qed.

Lemma relocate_connection i c l :
  Forall2 same_connection (filter live l) (relocate i c l).
Proof.
  revert i c. induction l as [|s l IH]; intros i c; [constructor|]. cbn [relocate].
  destruct (is_dead s) eqn:Hdead.
  - rewrite filter_cons_False by (unfold live; congruence). apply IH.
  - rewrite filter_cons_True by done. constructor; [apply move_server_connection|apply IH].
Qed.

Lemma relocate_own block l i c :
  own_buffers_from block (Z.of_nat i) l -> own_buffers_from block (Z.of_nat c) (relocate i c l).
Proof.
  revert i c. induction l as [|s l IH]; intros i c Hown j t p Ht Hp; [done|]. cbn [relocate] in Ht.
  assert (own_buffers_from block (Z.of_nat (S i)) l) as Hown'.
  { intros k u q Hu Hq. destruct (Hown (S k) u q Hu Hq) as [? ->]. split; [done|lia]. }
  destruct (is_dead s); [by eapply IH|]. destruct j as [|j]; simplify_eq/=.
  - destruct (read_ptr s) as [q|] eqn:Hq;
      [|destruct s as [????????????????????? [] ?]; done].
    destruct (Hown 0%nat s q eq_refl Hq) as [Hb Hs].
    destruct s as [????????????????????? [] ?]; simplify_eq/=. split; [done|lia].
  - destruct (IH (S i) (S c) Hown' j t p Ht Hp) as [? ->]. split; [done|lia].
Qed.

(** Nothing but the servers and what counts them changes. *)
Definition only_servers (p q : memcached_st) : Prop :=
  q = p <| servers := servers q |> <| number_of_hosts := number_of_hosts q |>
        <| servers_block := servers_block q |>
        <| server_info_version := server_info_version q |>
        <| last_disconnected_server := last_disconnected_server q |>.

Lemma only_servers_trans p q r : only_servers p q -> only_servers q r -> only_servers p r.
Proof. unfold only_servers. intros -> ->. by destruct p. Qed.

Lemma only_servers_refl p : only_servers p p.
Proof. by destruct p. Qed.

Lemma only_servers_flags p q : only_servers p q -> flags q = flags p.
Proof. by intros ->. Qed.

Lemma only_servers_block p b : only_servers p (p <| servers_block := b |>).
Proof. by destruct p. Qed.

Lemma only_servers_servers p l : only_servers p (p <| servers := l |>).
Proof. by destruct p. Qed.

Lemma only_servers_reset p : only_servers p (memcached_servers_reset p).
Proof. by destruct p. Qed.

Lemma prune_ok ptr :
  well_formed ptr ->
  exists ptr', memcached_server_prune ptr false = Some ptr'
    /\ well_formed ptr'
    /\ Forall2 same_connection (filter live (servers ptr)) (servers ptr')
    /\ Forall (fun s => servers ptr = [] \/ server_number_of_hosts s = number_of_hosts ptr')
         (servers ptr')
    /\ (own_buffers ptr -> own_buffers ptr')
    /\ only_servers ptr ptr'.
Proof.
  intros Hwf. unfold memcached_server_prune, memcached_server_count. rewrite Hwf.
  destruct (Z.eqb_spec (Z.of_nat (length (servers ptr))) 0) as [E|E].
  { exists ptr. destruct (servers ptr) eqn:Hs; [|done]. split_and!; rewrite ?Hs; try done. by destruct ptr. }
  rewrite Nat2Z.id. destruct (prune_loop_relocate (servers ptr) [] []) as [left Hloop].
  cbn [app length] in Hloop. rewrite Hloop, take_app_length. cbn [app].
  eexists. split; [done|]. split_and!.
  - unfold well_formed. cbn [number_of_hosts servers update]. by rewrite length_map.
  - cbn [servers update].
    apply (Forall2_fmap_r _ _ _ _), (Forall2_impl same_connection);
      [apply relocate_connection|].
    intros s t Hst. eapply same_connection_trans; [done|apply same_connection_count].
  - cbn [servers number_of_hosts update]. apply Forall_map. apply Forall_true. by right.
  - intros Hown i s p Hs Hp. cbn [servers update] in Hs.
    apply list_lookup_fmap_Some in Hs as (t & -> & Ht).
    eapply (relocate_own _ _ 0 0 Hown i t p Ht).
    by destruct t as [????????????????????? [] ?].
  - by destruct ptr.
Qed.

(** pruning keeps exactly the live servers, in their order, with their
    connections and what they have buffered, and the counts follow; a server
    that is moved reads from the buffer of its new slot. *)
Theorem memcached_server_prune_spec ptr :
  well_formed ptr ->
  exists ptr', memcached_server_prune ptr false = Some ptr'
    /\ well_formed ptr'
    /\ Forall2 same_connection (filter live (servers ptr)) (servers ptr')
    /\ Forall (fun s => server_number_of_hosts s = number_of_hosts ptr') (servers ptr')
    /\ (own_buffers ptr -> own_buffers ptr').
Proof.
  intros Hwf. destruct (prune_ok ptr Hwf) as (ptr' & H1 & H2 & H3 & H4 & H5 & _).
  exists ptr'. split_and!; try done. apply Forall_forall. intros s Hs.
  rewrite Forall_forall in H4. destruct (H4 s Hs) as [E|E]; [|done].
  rewrite E in H3. apply Forall2_nil_inv_l in H3. rewrite H3 in Hs. by apply not_elem_of_nil in Hs.
Qed.

(** ** Following a list of servers *)

(** The endpoints of the entries that are not taken. *)
Definition pending (infos : list memcached_server_info_st) : list (bytes * Z) :=
  map info_endpoint (filter (fun i => exist i = false) infos).

Definition same_info (i j : memcached_server_info_st) : Prop := j = i <| exist := exist j |>.

Lemma same_info_refl i : same_info i i.
Proof. by destruct i. Qed.

Lemma same_info_trans i j k : same_info i j -> same_info j k -> same_info i k.
Proof. unfold same_info. intros -> ->. by destruct i. Qed.

#[export] Instance same_info_reflexive : Reflexive same_info := same_info_refl.
#[export] Instance same_info_transitive : Transitive same_info := same_info_trans.

Lemma pending_cons i infos :
  pending (i :: infos) = if exist i then pending infos else info_endpoint i :: pending infos.
Proof.
  unfold pending. destruct (exist i) eqn:E.
  - by rewrite filter_cons_False by congruence.
  - by rewrite filter_cons_True.
Qed.

Lemma take_info_match s i :
  bool_decide (strcmp (hostname s) (info_hostname i) = Eq) && (port s =? info_port i) = true
  <-> info_endpoint i = endpoint s.
Proof.
  rewrite andb_true_iff, bool_decide_eq_true, strcmp_eq, Z.eqb_eq.
  unfold info_endpoint, endpoint. split; [by intros [-> ->]|by intros [= -> ->]].
Qed.

Lemma take_info_Some s infos infos' :
  take_info s infos = Some infos' ->
  pending infos ≡ₚ endpoint s :: pending infos' /\ Forall2 same_info infos infos'.
Proof.
  revert infos'. induction infos as [|i infos IH]; intros infos' Ht; simpl in Ht; [done|].
  rewrite pending_cons. destruct (exist i) eqn:Hi; [|destruct (_ && _) eqn:Hm].
  - apply fmap_Some in Ht as (l & Hl & ->). destruct (IH l Hl) as [Hp Hf].
    rewrite pending_cons, Hi. split; [done|by constructor].
  - simplify_eq. apply take_info_match in Hm. rewrite pending_cons. simpl. rewrite Hm.
    split; [done|]. by constructor.
  - apply fmap_Some in Ht as (l & Hl & ->). destruct (IH l Hl) as [Hp Hf].
    rewrite pending_cons, Hi, Hp. split; [apply Permutation_swap|by constructor].
Qed.

Lemma take_info_None s infos : take_info s infos = None -> endpoint s ∉ pending infos.
Proof.
  induction infos as [|i infos IH]; simpl; intros Ht; [apply not_elem_of_nil|].
  rewrite pending_cons. destruct (exist i) eqn:Hi; [|destruct (_ && _) eqn:Hm]; try done.
  - apply fmap_None in Ht. by apply IH.
  - apply fmap_None in Ht. apply not_elem_of_cons. split; [|by apply IH].
    intros E. symmetry in E. apply take_info_match in E. congruence.
Qed.

(** A server that is marked dead or left alone. *)
Definition marked (s t : memcached_server_st) : Prop := t = s <| is_dead := is_dead t |>.

Lemma match_servers_spec l infos v f l' infos' v' f' :
  Forall live l -> NoDup (map endpoint l) ->
  match_servers l infos v f = (l', infos', v', f') ->
  Forall2 marked l l' /\ Forall2 same_info infos infos'
  /\ filter live l' = filter (fun s => endpoint s ∈ pending infos) l
  /\ pending infos ≡ₚ map endpoint (filter live l') ++ pending infos'
  /\ (is_u32 v -> v' = v ⊟ Z.of_nat (length (filter live l')))
  /\ (f' = false <-> f = false /\ l' = l).
Proof.
  revert infos v f l' infos' v' f'.
  induction l as [|s l IH]; intros infos v f l' infos' v' f' Hlive Hnd Hm; simpl in Hm.
  { simplify_eq. rewrite Z.sub_0_r. split_and!; try done; [|tauto]. intros Hv. by rewrite u32_small. }
  apply Forall_cons_1 in Hlive as [Hs Hlive]. apply NoDup_cons in Hnd as [Hnew Hnd].
  destruct (take_info s infos) as [infos1|] eqn:Ht.
  - destruct (match_servers l infos1 (v ⊟ 1) f) as [[[l1 i1] v1] f1] eqn:Hm1. simplify_eq.
    apply take_info_Some in Ht as [Hp Hinfos].
    destruct (IH _ _ _ _ _ _ _ Hlive Hnd Hm1) as (H1 & H2 & H3 & H4 & H5 & H6).
    rewrite filter_cons_True by done. split_and!.
    + constructor; [by destruct s|done].
    + by etransitivity.
    + rewrite filter_cons_True, H3 by (rewrite Hp; left). f_equal.
      apply filter_iff_in. intros t Ht. rewrite Hp, elem_of_cons.
      assert (endpoint t <> endpoint s) as Hne; [intros E|by split; [right|intros [|]]]. apply Hnew. rewrite <-E. by apply list_elem_of_fmap_2.
    + by rewrite Hp, H4.
    + intros _. rewrite H5 by apply u32_range. cbn [length]. u32_ring.
    + rewrite H6. split; intros [-> E]; (split; [done|congruence]).
  - destruct (match_servers l infos v true) as [[[l1 i1] v1] f1] eqn:Hm1. simplify_eq.
    apply take_info_None in Ht.
    destruct (IH _ _ _ _ _ _ _ Hlive Hnd Hm1) as (H1 & H2 & H3 & H4 & H5 & H6).
    rewrite filter_cons_False by done. split_and!; try done.
    + by constructor.
    + by rewrite filter_cons_False.
    + split; [intros E; by destruct (proj1 H6 E)|]. intros [_ E]. unfold live in Hs. destruct s; simplify_eq/=.
Qed.

(** *** Adding servers *)

Definition valid_name (h : bytes) : Prop :=
  no_nul h /\ Z.of_nat (length h) < MEMCACHED_NI_MAXHOST.

(** A server that was just created. *)
Definition fresh_server (s : memcached_server_st) : Prop :=
  fd s = -1 /\ server_state s = MEMCACHED_SERVER_STATE_NEW /\ is_dead s = false
  /\ server_failure_counter s = 0 /\ read_data_length s = 0.

Lemma same_connection_fresh s t : same_connection s t -> fresh_server s -> fresh_server t.
Proof. intros [-> _]. by destruct s. Qed.

Lemma Forall_fresh l l' :
  Forall2 same_connection l l' -> Forall fresh_server l -> Forall fresh_server l'.
Proof.
  induction 1 as [|s t l l' Hst _ IH]; [done|]. intros [Hs Hl]%Forall_cons_1.
  constructor; [by eapply same_connection_fresh|by apply IH].
Qed.

Lemma valid_name_ok h : valid_name h -> cstr h = h /\ memcached_is_valid_servername h = true.
Proof. intros [Hn Hl]. split; [by apply cstr_no_nul|]. by apply Z.ltb_lt. Qed.

(** The server that [create_server] makes, and what it does to the handle. *)
Lemma create_server_ok junk ptr h p w t :
  well_formed ptr ->
  exists s, servers (create_server junk ptr h p w t) = servers ptr ++ [s]
    /\ endpoint s = (h, p) /\ fresh_server s /\ type s = t
    /\ weight s = (if w =? 0 then 1 else w)
    /\ read_ptr s = Some (buffer_of (servers_block ptr) (number_of_hosts ptr))
    /\ number_of_hosts (create_server junk ptr h p w t) = number_of_hosts ptr
    /\ only_servers ptr (create_server junk ptr h p w t).
Proof.
  intros Hwf. unfold create_server, __server_create_with. eexists.
  cbn [servers update]. rewrite Hwf, Nat2Z.id, firstn_all. split; [done|].
  case_bool_decide; subst; split_and!; done || by destruct ptr.
Qed.

Lemma push_one_ok junk ptr h p w t :
  well_formed ptr -> number_of_hosts ptr < 2 ^ 32 - 1 ->
  let ptr' := (create_server junk ptr h p w t) <| number_of_hosts ::= fun n => n ⊞ 1 |> in
  exists s, servers ptr' = servers ptr ++ [s] /\ well_formed ptr'
    /\ endpoint s = (h, p) /\ fresh_server s /\ only_servers ptr ptr'.
Proof.
  intros Hwf Hlt ptr'.
  destruct (create_server_ok junk ptr h p w t Hwf) as (s & Hs & He & Hf & _ & _ & _ & Hn & Ho).
  exists s. subst ptr'. split_and!; [done| |done..|].
  - unfold well_formed in *. cbn [number_of_hosts servers update].
    change (servers _) with (servers (create_server junk ptr h p w t)) at 1.
    rewrite Hs, Hn, length_app, u32_small; simpl; lia.
  - eapply only_servers_trans; [exact Ho|]. unfold only_servers.
    generalize (create_server junk ptr h p w t). by intros [].
Qed.

Lemma push_info_loop_ok junk capacity infos ptr :
  well_formed ptr -> Forall (fun i => valid_name (info_hostname i)) infos ->
  number_of_hosts ptr + Z.of_nat (length (pending infos)) <= capacity -> capacity < 2 ^ 32 ->
  exists ptr' new, push_info_loop junk capacity ptr infos = Some (None, ptr')
    /\ servers ptr' = servers ptr ++ new /\ well_formed ptr'
    /\ map endpoint new = pending infos /\ Forall fresh_server new /\ only_servers ptr ptr'.
Proof.
  revert ptr. induction infos as [|i infos IH]; intros ptr Hwf Hvalid Hcap Hmax; simpl.
  { exists ptr, []. rewrite app_nil_r. split_and!; [done..|constructor|by destruct ptr]. }
  apply Forall_cons_1 in Hvalid as [Hi Hvalid]. rewrite pending_cons in Hcap |- *.
  destruct (exist i); [by apply IH|]. cbn [length] in Hcap.
  destruct (valid_name_ok _ Hi) as [-> ->]. cbn [negb].
  rewrite (proj2 (Z.leb_gt _ _)) by lia.
  edestruct (push_one_ok junk ptr (info_hostname i) (info_port i) 0) as (s & Hs & Hwf' & He & Hf & Ho);
    [done|lia|].
  edestruct (IH _ Hwf') as (ptr' & new & Hpush & Hs' & Hw & Hn & Hfs & Ho'); [done| |done|].
  { rewrite Hwf', Hs, length_app. rewrite Hwf in Hcap. simpl. lia. }
  exists ptr', (s :: new). split; [exact Hpush|]. rewrite Hs', Hs, <-app_assoc.
  split; [reflexivity|]. split; [exact Hw|].
  split; [cbn [map]; by rewrite He, Hn|]. split; [by constructor|].
  exact (only_servers_trans _ _ _ Ho Ho').
Qed.

Lemma set_first_count_ok l n :
  l <> [] -> exists l', set_first_count l n = Some l' /\ Forall2 same_connection l l'.
Proof.
  destruct l as [|s l]; [done|]. intros _. eexists. split; [done|].
  constructor; [apply same_connection_count|]. reflexivity.
Qed.

(** *** The whole update *)

Section Update.
Context `{Qsort}.

Lemma finish_push_ok e store ptr :
  servers ptr <> [] ->
  exists l, Forall2 same_connection (servers ptr) l
    /\ finish_push e store ptr = run_distribution e store (ptr <| servers := l |>).
Proof.
  intros Hne. unfold finish_push.
  destruct (set_first_count_ok (servers ptr) (number_of_hosts ptr) Hne) as (l & -> & Hl). by exists l.
Qed.

(** What remains after the servers that are not found were marked. *)
Lemma prune_marked_ok mc l (f : bool) :
  well_formed mc -> Forall live (servers mc) -> Forall2 marked (servers mc) l ->
  (f = false -> l = servers mc) ->
  exists mc', (if f then memcached_server_prune (mc <| servers := l |>) false
               else Some (mc <| servers := l |>)) = Some mc'
    /\ well_formed mc' /\ Forall2 same_connection (filter live l) (servers mc')
    /\ only_servers mc mc'.
Proof.
  intros Hwf Hlive H1 H6.
  destruct f.
  - destruct (prune_ok (mc <| servers := l |>)) as (mc' & Hp & Hw & Hc & _ & _ & Ho).
    { unfold well_formed in *. cbn [servers number_of_hosts update].
      by rewrite Hwf, (Forall2_length _ _ _ H1). }
    exists mc'. by split_and!.
  - rewrite H6 by done. exists mc. replace (mc <| servers := _ |>) with mc by (by destruct mc).
    split; [done|]. split; [done|]. split; [|by destruct mc].
    rewrite filter_all; [reflexivity|]. by apply Forall_forall.
Qed.

(** The handle that the update of [mc] leads to, before the distribution is
    computed: it has the servers of the list, those that [mc] had keep their
    order and connections, and the others are new. *)
Definition follows (mc mc' : memcached_st) (endpoints : list (bytes * Z)) : Prop :=
  well_formed mc' /\ only_servers mc mc'
  /\ map endpoint (servers mc') ≡ₚ endpoints
  /\ exists kept new, servers mc' = kept ++ new
       /\ Forall2 same_connection (filter (fun s => endpoint s ∈ endpoints) (servers mc)) kept
       /\ Forall fresh_server new.

Lemma finish_push_follows e store mc mc' endpoints :
  follows mc mc' endpoints -> servers mc' <> [] ->
  exists mc2, follows mc mc2 endpoints
    /\ finish_push e store mc' = run_distribution e store mc2.
Proof.
  intros (Hw & Ho & Hp & kept & new & Hs & Hk & Hn) Hne.
  destruct (finish_push_ok e store mc' Hne) as (l & Hl & ->). eexists. split; [|done].
  rewrite Hs in Hl. apply Forall2_app_inv_l in Hl as (kept' & new' & Hk' & Hn' & ->).
  split_and!.
  - unfold well_formed in *. cbn [servers number_of_hosts update].
    rewrite Hw, Hs, !length_app. by rewrite (Forall2_length _ _ _ Hk'), (Forall2_length _ _ _ Hn').
  - eapply only_servers_trans; [exact Ho|]. by destruct mc'.
  - cbn [servers update]. rewrite map_app, (same_connection_endpoints _ _ Hk'),
      (same_connection_endpoints _ _ Hn'), <-map_app, <-Hs. done.
  - exists kept', new'. split_and!; [done| |].
    + by etransitivity.
    + by eapply Forall_fresh.
Qed.

Lemma update_serverlist_nonempty e junk block store mc infos l infos' v f :
  infos <> [] ->
  match_servers (servers mc) infos (Z.of_nat (length infos)) false = (l, infos', v, f) ->
  do_memcached_update_serverlist e junk block store mc infos =
    if (0 <? v) || f then
      match (if f then memcached_server_prune (mc <| servers := l |>) false
             else Some (mc <| servers := l |>)) with
      | None => None
      | Some mc =>
          (fun r => (r, true)) <$>
            (if 0 <? v then memcached_server_push_with_serverinfo e junk block store mc infos'
             else run_distribution e store mc)
      end
    else Some (MEMCACHED_SUCCESS, store, mc <| servers := l |>, false).
Proof. intros Hne Hm. destruct infos; [done|]. unfold do_memcached_update_serverlist. by rewrite Hm. Qed.

(** Pushing the entries that are left over. *)
Lemma push_serverinfo_follows e junk block store mc mc1 infos infos' :
  Forall2 same_info infos infos' -> Forall (fun i => valid_name (info_hostname i)) infos ->
  Z.of_nat (length infos) < 2 ^ 32 -> use_udp (flags mc) = false ->
  pending infos' <> [] -> length infos = (length (servers mc1) + length (pending infos'))%nat ->
  well_formed mc1 -> only_servers mc mc1 ->
  Forall2 same_connection
    (filter (fun s => endpoint s ∈ map info_endpoint infos) (servers mc)) (servers mc1) ->
  map endpoint (servers mc1) ++ pending infos' ≡ₚ map info_endpoint infos ->
  exists mc', follows mc mc' (map info_endpoint infos)
    /\ memcached_server_push_with_serverinfo e junk (Some block) store mc1 infos'
       = run_distribution e store mc'.
Proof.
  intros Hsame Hvalid Hmax Hudp Hne Hlen Hwf1 Ho1 Hkept Hperm.
  destruct (push_info_loop_ok junk (Z.of_nat (length infos')) infos' (mc1 <| servers_block := block |>))
    as (mc2 & new & Hpush & Hs2 & Hw2 & Hn2 & Hf2 & Ho2).
  - exact Hwf1.
  - rewrite Forall_forall in Hvalid |- *. intros j Hj.
    apply list_elem_of_lookup in Hj as [k Hk].
    destruct (Forall2_lookup_r _ _ _ _ _ Hsame Hk) as (i & Hi & Hij).
    rewrite Hij. apply (Hvalid i). by eapply list_elem_of_lookup_2.
  - rewrite <-(Forall2_length _ _ _ Hsame). cbn [number_of_hosts update]. rewrite Hwf1. lia.
  - by rewrite <-(Forall2_length _ _ _ Hsame).
  - unfold memcached_server_push_with_serverinfo.
    destruct infos' as [|i0 rest] eqn:Hi; [by destruct (Hne eq_refl)|]. rewrite <-Hi in *.
    rewrite (only_servers_flags _ _ Ho1), Hudp.
    rewrite Hpush. cbn [servers update] in Hs2. apply finish_push_follows.
    + split_and!; [done| | |].
      * exact (only_servers_trans _ _ _ Ho1
          (only_servers_trans _ _ _ (only_servers_block mc1 block) Ho2)).
      * by rewrite Hs2, map_app, Hn2.
      * by exists (servers mc1), new.
    + rewrite Hs2. intros E. apply Hne. rewrite <-Hn2. by apply app_eq_nil in E as [_ ->].
Qed.

(** C21: following a list of servers.  When the list has the endpoints of the
    handle, the handle is left as it is and no change is reported; otherwise
    the servers become those of the list, before the distribution is computed
    anew: no more, no less, the old ones in their order with their connections,
    and the array that is reallocated for them is never overrun. *)
Theorem do_memcached_update_serverlist_spec e junk block store mc infos :
  well_formed mc -> Forall live (servers mc) -> NoDup (map endpoint (servers mc)) ->
  Forall (fun i => exist i = false /\ valid_name (info_hostname i)) infos ->
  Z.of_nat (length infos) < 2 ^ 32 -> use_udp (flags mc) = false ->
  let update := do_memcached_update_serverlist e junk (Some block) store mc infos in
  let endpoints := map info_endpoint infos in
  (map endpoint (servers mc) ≡ₚ endpoints /\ update = Some (MEMCACHED_SUCCESS, store, mc, false))
  \/ (~ map endpoint (servers mc) ≡ₚ endpoints /\
      exists mc', follows mc mc' endpoints
        /\ update = (fun r => (r, true)) <$> run_distribution e store mc').
Proof.
  intros Hwf Hlive Hnd Hinfos Hmax Hudp update endpoints.
  destruct (decide (infos = [])) as [->|Hne].
  { destruct (servers mc) as [|s0 l0] eqn:Hs.
    - left. split; [done|]. unfold update, do_memcached_update_serverlist, memcached_server_count.
      by rewrite Hwf, Hs.
    - right. split; [by intros ?%Permutation_nil_r|].
      exists (memcached_servers_reset mc). split;
        [|by unfold update, do_memcached_update_serverlist, memcached_server_prune,
           memcached_server_count; rewrite Hwf, Hs].
      split_and!; [done|by destruct mc|done|].
      exists [], []. split_and!; [done| |constructor].
      rewrite filter_none; [constructor|]. intros ? _. apply not_elem_of_nil. }
  assert (pending infos = endpoints) as Hpend.
  { unfold pending. by rewrite filter_all by (rewrite Forall_forall in Hinfos; intros; by apply Hinfos). }
  destruct (match_servers (servers mc) infos (Z.of_nat (length infos)) false)
    as [[[l infos'] v'] f] eqn:Hm.
  destruct (match_servers_spec _ _ _ _ _ _ _ _ Hlive Hnd Hm) as (H1 & H2 & H3 & H4 & H5 & H6).
  destruct (prune_marked_ok mc l f Hwf Hlive H1 ltac:(tauto))
    as (mc1 & Hprune & Hwf1 & Hc1 & Ho1).
  rewrite Hpend in H3, H4. pose proof (Permutation_length H4) as Hlen.
  unfold endpoints in Hlen. rewrite length_app, !length_map in Hlen.
  rewrite u32_small in H5 by lia. specialize (H5 ltac:(lia)).
  assert (map endpoint (servers mc) ≡ₚ endpoints -> filter live l = servers mc) as Hall.
  { intros Hp. rewrite H3. apply filter_all. intros s Hs. rewrite <-Hp.
    by apply list_elem_of_fmap_2. }
  unfold update. rewrite (update_serverlist_nonempty _ _ _ _ _ _ _ _ _ _ Hne Hm).
  assert (pending infos' = [] -> (0 <? v') = false) as Hv0.
  { intros E. rewrite E in Hlen. cbn [length] in Hlen. lia. }
  assert (pending infos' <> [] -> (0 <? v') = true) as Hv1.
  { intros E. destruct (pending infos'); [done|]. cbn [length] in Hlen.
    lia. }
  assert (pending infos' = [] -> f = false -> map endpoint (servers mc) ≡ₚ endpoints) as Hsame.
  { intros E Hf. rewrite H4, E, app_nil_r. destruct (proj1 H6 Hf) as [_ ->].
    by rewrite filter_all by (by apply Forall_forall). }
  destruct (decide (map endpoint (servers mc) ≡ₚ endpoints)) as [Hp|Hp].
  - left. split; [done|]. specialize (Hall Hp).
    assert (l = servers mc) as ->.
    { rewrite <-Hall. symmetry. apply filter_same_length.
      by rewrite Hall, (Forall2_length _ _ _ H1). }
    rewrite (proj2 H6) by done.
    rewrite Hv0; [by destruct mc|]. apply length_zero_iff_nil.
    rewrite Hall in Hlen. apply Permutation_length in Hp. unfold endpoints in Hp.
    rewrite !length_map in Hp. lia.
  - right. split; [done|]. rewrite Hprune.
    pose proof (same_connection_endpoints _ _ Hc1) as He1.
    pose proof (Forall2_length _ _ _ Hc1) as Hlen1.
    rewrite H3 in Hc1. rewrite <-He1 in H4. rewrite Hlen1 in Hlen.
    assert ((0 <? v') || f = true) as ->.
    { apply not_false_iff_true. intros [E ->]%orb_false_iff. apply Hp, Hsame; [|done].
      destruct (pending infos') eqn:Ep; [done|]. by rewrite Hv1 in E. }
    destruct (decide (pending infos' = [])) as [E|E].
    + rewrite (Hv0 E). exists mc1. split; [|done].
      rewrite E, app_nil_r in H4. split_and!; try done.
      exists (servers mc1), []. rewrite app_nil_r. by split_and!.
    + rewrite (Hv1 E). edestruct push_serverinfo_follows as (mc' & Hf' & ->);
        [exact H2| |done|exact Hudp|done|done|done|exact Ho1|exact Hc1|done|by exists mc'].
      eapply Forall_impl; [exact Hinfos|]. by intros i [].
Qed.

(** *** Following the master *)

Lemma same_endpoint_spec s t : same_endpoint s t = true <-> endpoint s = endpoint t.
Proof.
  unfold same_endpoint, endpoint.
  rewrite andb_true_iff, bool_decide_eq_true, strcmp_eq, Z.eqb_eq.
  split; [by intros [-> ->]|by intros [= -> ->]].
Qed.

Lemma compare_with_master_spec l master f l' y f' :
  Forall live l -> compare_with_master l master f = (l', y, f') ->
  Forall2 marked l l' /\ sublist (filter live l') l
  /\ map endpoint (filter live l') = map endpoint (take y master) /\ (y <= length master)%nat
  /\ (f' = false <-> f = false /\ l' = l).
Proof.
  revert master f l' y f'. induction l as [|s l IH]; intros master f l' y f' Hlive Hc; simpl in Hc.
  { simplify_eq. rewrite take_0. split_and!; try done; [lia|tauto]. }
  apply Forall_cons_1 in Hlive as [Hs Hlive].
  assert (forall l1 y1 f1, compare_with_master l master true = (l1, y1, f1) ->
    (s <| is_dead := true |> :: l1, y1, f1) = (l', y, f') ->
    Forall2 marked (s :: l) l' /\ sublist (filter live l') (s :: l)
    /\ map endpoint (filter live l') = map endpoint (take y master) /\ (y <= length master)%nat
    /\ (f' = false <-> f = false /\ l' = s :: l)) as Hdead.
  { intros l1 y1 f1 Hc1 E. simplify_eq. destruct (IH _ _ _ _ _ Hlive Hc1) as (H1 & H2 & H3 & H4 & H5).
    rewrite filter_cons_False by done. split_and!; try done; [by constructor|by constructor|].
    split; [intros E; by destruct (proj1 H5 E)|]. intros [_ E]. unfold live in Hs.
    destruct s; simplify_eq/=. }
  destruct master as [|t master].
  { destruct (compare_with_master l [] true) as [[l1 y1] f1] eqn:Hc1. by eapply Hdead. }
  destruct (same_endpoint s t) eqn:Hst.
  - destruct (compare_with_master l master f) as [[l1 y1] f1] eqn:Hc1. simplify_eq.
    apply same_endpoint_spec in Hst.
    destruct (IH _ _ _ _ _ Hlive Hc1) as (H1 & H2 & H3 & H4 & H5).
    rewrite filter_cons_True by done. cbn [take map length]. rewrite H3, Hst. split_and!; try done.
    + constructor; [by destruct s|done].
    + by constructor.
    + lia.
    + rewrite H5. split; intros [-> E]; (split; [done|congruence]).
  - destruct (compare_with_master l (t :: master) true) as [[l1 y1] f1] eqn:Hc1. by eapply Hdead.
Qed.

(** No longer beginning of the master's list is among the servers, in its order. *)
Lemma compare_with_master_longest l : forall master f l' y f' shared rest,
  compare_with_master l master f = (l', y, f') -> map endpoint master = shared ++ rest ->
  sublist shared (map endpoint l) -> (length shared <= y)%nat.
Proof.
  induction l as [|s l IH]; intros master f l' y f' shared rest Hc E Hsub.
  { apply sublist_nil_r in Hsub as ->. cbn. lia. }
  destruct shared as [|p shared]; [cbn; lia|]. destruct master as [|t master]; [done|].
  cbn [map app] in E. injection E as Ep E. cbn [compare_with_master] in Hc.
  destruct (same_endpoint s t) eqn:Hst.
  - destruct (compare_with_master l master f) as [[l1 y1] f1] eqn:Hc1. injection Hc as <- <- <-.
    cbn [length]. apply le_n_S. apply (IH _ _ _ _ _ shared rest Hc1 E).
    cbn [map] in Hsub. inversion Hsub as [|? ? ? Hs1|? ? ? Hs1]; subst; [done|].
    etransitivity; [|exact Hs1]. by constructor.
  - destruct (compare_with_master l (t :: master) true) as [[l1 y1] f1] eqn:Hc1. injection Hc as <- <- <-.
    apply (IH _ _ _ _ _ (p :: shared) rest Hc1); [cbn [map app]; congruence|].
    cbn [map] in Hsub. inversion Hsub as [|? ? ? Hs1|? ? ? Hs1]; subst; [|done].
    exfalso. assert (same_endpoint s t = true); [|congruence].
    apply same_endpoint_spec. congruence.
Qed.

Lemma compare_with_master_same l master f :
  map endpoint l = map endpoint master -> compare_with_master l master f = (l, length master, f).
Proof.
  revert master f. induction l as [|s l IH]; intros [|t master] f E; try done.
  cbn [map] in E. injection E as Hst1 Hst2 E. simpl.
  rewrite (proj2 (same_endpoint_spec s t)), IH by (done || (unfold endpoint; congruence)). done.
Qed.

(** [only_servers], but for the flag that a server with a weight sets. *)
Definition only_servers_weighted (weights : bool) (p q : memcached_st) : Prop :=
  only_servers (p <| ketama_weighted := ketama_weighted p || weights |>) q.

Lemma only_servers_weighted_trans a b p q r :
  only_servers_weighted a p q -> only_servers_weighted b q r ->
  only_servers_weighted (a || b) p r.
Proof.
  unfold only_servers_weighted, only_servers. intros -> ->. destruct p. cbn. by rewrite orb_assoc.
Qed.

Lemma only_servers_weighted_false p q : only_servers p q <-> only_servers_weighted false p q.
Proof.
  unfold only_servers_weighted. replace (p <| ketama_weighted := _ |>) with p; [done|].
  destruct p. cbn. by rewrite orb_false_r.
Qed.

Lemma only_servers_weighted_set p q :
  only_servers p q -> only_servers_weighted true p (q <| ketama_weighted := true |>).
Proof.
  unfold only_servers_weighted, only_servers. intros E. rewrite orb_true_r.
  rewrite E at 1. destruct p. reflexivity.
Qed.

Lemma only_servers_count p f : only_servers p (p <| number_of_hosts ::= f |>).
Proof. by destruct p. Qed.

Lemma wrong_protocol_flags p q t : flags q = flags p -> wrong_protocol q t = wrong_protocol p t.
Proof. unfold wrong_protocol. by intros ->. Qed.

Lemma push_loop_ok junk list ptr :
  well_formed ptr -> number_of_hosts ptr + Z.of_nat (length list) < 2 ^ 32 ->
  Forall (fun s => valid_name (hostname s) /\ wrong_protocol ptr (type s) = false) list ->
  exists ptr' new, push_loop junk ptr list = (None, ptr')
    /\ servers ptr' = servers ptr ++ new /\ well_formed ptr'
    /\ map endpoint new = map endpoint list /\ Forall fresh_server new
    /\ only_servers_weighted (existsb (fun s => 1 <? weight s) list) ptr ptr'.
Proof.
  revert ptr. induction list as [|s list IH]; intros ptr Hwf Hmax Hvalid.
  { exists ptr, []. rewrite app_nil_r. split_and!; [done..|constructor|].
    apply (only_servers_weighted_false ptr ptr), only_servers_refl. }
  apply Forall_cons_1 in Hvalid as [[Hs Hprot] Hvalid]. cbn [length] in Hmax. cbn [push_loop].
  rewrite Hprot. destruct (valid_name_ok _ Hs) as [-> ->]. cbn [negb].
  edestruct (push_one_ok junk ptr (hostname s) (port s) (weight s) (type s))
    as (t & Ht & Hwf' & He & Hf & Ho); [done|lia|].
  set (ptr1 := create_server _ _ _ _ _ _) in *.
  assert (exists ptr2, (if 1 <? weight s then ptr1 <| ketama_weighted := true |> else ptr1)
                 <| number_of_hosts ::= fun n => n ⊞ 1 |> = ptr2
    /\ servers ptr2 = servers ptr ++ [t] /\ well_formed ptr2
    /\ only_servers_weighted (1 <? weight s) ptr ptr2) as (ptr2 & -> & Hs2 & Hw2 & Ho2).
  { eexists. split; [done|]. destruct (1 <? weight s); split_and!; try done.
    - revert Ho. unfold only_servers_weighted, only_servers. generalize ptr1.
      intros [] Ho. rewrite orb_true_r. destruct ptr. cbn in *. by simplify_eq.
    - by apply (only_servers_weighted_false ptr). }
  edestruct (IH ptr2 Hw2) as (ptr' & new & Hpush & Hs' & Hw & Hn & Hfs & Ho').
  - rewrite Hw2, Hs2, length_app. rewrite Hwf in Hmax. simpl. lia.
  - eapply Forall_impl; [exact Hvalid|]. intros u [Hu Hu']. split; [done|].
    by rewrite (wrong_protocol_flags ptr) by exact (only_servers_flags _ _ Ho2).
  - exists ptr', (t :: new). split; [done|]. rewrite Hs', Hs2, <-app_assoc.
    split; [done|]. split; [done|]. split; [cbn [map]; by rewrite He, Hn|].
    split; [by constructor|]. exact (only_servers_weighted_trans _ _ _ _ _ Ho2 Ho').
Qed.

(** The handle that following the master leads to: its servers are the master's, in that
    order; the first of them, as many as the handle had in that order, are its own
    and keep their connections, and only the others are new. *)
Definition follows_master (mc mc' master : memcached_st) : Prop :=
  well_formed mc' /\ map endpoint (servers mc') = map endpoint (servers master)
  /\ (exists weights, only_servers_weighted weights mc mc')
  /\ exists old kept new, servers mc' = kept ++ new
       /\ sublist old (servers mc) /\ Forall2 same_connection old kept
       /\ Forall fresh_server new
       /\ forall shared rest, map endpoint (servers master) = shared ++ rest ->
            sublist shared (map endpoint (servers mc)) -> (length shared <= length kept)%nat.

Lemma push_with_count_follows e junk block store mc mc1 master old list :
  well_formed mc1 -> only_servers mc mc1 -> list <> [] ->
  Z.of_nat (length (servers mc1) + length list) < 2 ^ 32 ->
  Forall (fun s => valid_name (hostname s) /\ wrong_protocol mc (type s) = false) list ->
  sublist old (servers mc) -> Forall2 same_connection old (servers mc1) ->
  map endpoint (servers mc1) ++ map endpoint list = map endpoint (servers master) ->
  (forall shared rest, map endpoint (servers master) = shared ++ rest ->
     sublist shared (map endpoint (servers mc)) -> (length shared <= length old)%nat) ->
  exists mc', follows_master mc mc' master
    /\ memcached_server_push_with_count e junk (Some block) store mc1 (Some list)
       = run_distribution e store mc'.
Proof.
  intros Hwf Ho Hne Hmax Hvalid Hold Hc He Hlong.
  destruct (push_loop_ok junk list (mc1 <| servers_block := block |>))
    as (mc2 & new & Hpush & Hs2 & Hw2 & Hn2 & Hf2 & Ho2).
  - exact Hwf.
  - cbn [number_of_hosts update]. rewrite Hwf. lia.
  - eapply Forall_impl; [exact Hvalid|]. intros u [Hu Hu']. split; [done|].
    by rewrite (wrong_protocol_flags mc) by exact (only_servers_flags _ _ Ho).
  - cbn [servers update] in Hs2. destruct (finish_push_ok e store mc2) as (l & Hl & Hrun).
    { rewrite Hs2. intros E%app_eq_nil. destruct E as [_ ->]. by destruct list. }
    rewrite Hs2 in Hl. apply Forall2_app_inv_l in Hl as (kept & new' & Hk & Hn' & ->).
    exists (mc2 <| servers := kept ++ new' |>). split.
    + split_and!.
      * unfold well_formed in *. cbn [servers number_of_hosts update].
        rewrite Hw2, Hs2, !length_app.
        by rewrite (Forall2_length _ _ _ Hk), (Forall2_length _ _ _ Hn').
      * cbn [servers update]. rewrite map_app, (same_connection_endpoints _ _ Hk),
          (same_connection_endpoints _ _ Hn'), Hn2. done.
      * exists (false || (false || existsb (fun s => 1 <? weight s) list)).
        apply (only_servers_weighted_trans _ _ mc mc1 _ (proj1 (only_servers_weighted_false mc mc1) Ho)).
        apply (only_servers_weighted_trans _ _ mc1 (mc1 <| servers_block := block |>) _
          (proj1 (only_servers_weighted_false mc1 _) (only_servers_block mc1 block))).
        exact (only_servers_trans _ mc2 _ Ho2 (only_servers_servers mc2 _)).
      * exists old, kept, new'. split_and!; [done..| | |].
        -- by etransitivity.
        -- by eapply Forall_fresh.
        -- intros shared rest E Hsub. rewrite <-(Forall2_length _ _ _ Hk), <-(Forall2_length _ _ _ Hc).
           by eapply Hlong.
    + unfold memcached_server_push_with_count. by rewrite Hpush.
Qed.

(** C22: following the master of a pool, whose servers have valid names and protocols.
    When the member has the servers of the master in the same order nothing happens;
    otherwise the member's servers become the master's, in the master's order: the
    longest beginning of the master's list that the member has in this order keeps its
    connections, and only the others are new, before the distribution is run. *)
Theorem do_memcached_update_serverlist_with_master_spec e junk block store mc master :
  well_formed mc -> Forall live (servers mc) -> well_formed master ->
  memcached_server_list_count (servers master) = number_of_hosts master ->
  number_of_hosts master < 2 ^ 32 ->
  Forall (fun s => valid_name (hostname s) /\ wrong_protocol mc (type s) = false)
    (servers master) ->
  let update := do_memcached_update_serverlist_with_master e junk (Some block) store mc master in
  let same := map endpoint (servers mc) = map endpoint (servers master) in
  (same /\ update = Some (MEMCACHED_SUCCESS, store, mc))
  \/ (~ same /\ exists mc', follows_master mc mc' master
        /\ update = run_distribution e store mc').
Proof.
  intros Hwf Hlive Hwfm Hcount Hmax Hvalid update same.
  unfold update, do_memcached_update_serverlist_with_master, memcached_server_count.
  rewrite Hwfm in *. rewrite Hwf.
  destruct (Z.eqb_spec (Z.of_nat (length (servers master))) 0) as [Em|Em].
  { assert (servers master = []) as Hm by (apply length_zero_iff_nil; lia).
    unfold same. rewrite Hm. destruct (servers mc) as [|s0 l0] eqn:Hs; [by left|].
    right. split; [done|]. exists (memcached_servers_reset mc). split.
    - split; [done|]. split; [by rewrite Hm|]. split.
      { exists false. exact (proj1 (only_servers_weighted_false _ _) (only_servers_reset mc)). }
      exists [], [], []. rewrite Hs, Hm.
      split_and!; [done|apply sublist_nil_l|constructor..|]. by intros [|] rest; cbn; [lia|].
    - by unfold memcached_server_prune, memcached_server_count; rewrite Hwf, Hs. }
  destruct (Z.eqb_spec (Z.of_nat (length (servers mc))) 0) as [Ec|Ec].
  { assert (servers mc = []) as Hc by (apply length_zero_iff_nil; lia).
    right. unfold same. rewrite Hc. split.
    { intros E. symmetry in E. apply map_eq_nil in E. by rewrite E in Em. }
    edestruct (push_with_count_follows e junk block store mc mc master [] (servers master))
      as (mc' & Hf & Hpush); rewrite ?Hc; try done.
    - apply only_servers_refl.
    - intros E. by rewrite E in Em.
    - by intros shared rest _ ->%sublist_nil_r.
    - exists mc'. split; [done|]. rewrite <-Hpush. unfold memcached_server_push.
      rewrite Hcount, Nat2Z.id, firstn_all, Nat.ltb_irrefl.
      destruct (servers master); [done|]. done. }
  destruct (compare_with_master (servers mc) (servers master) false) as [[l y] f] eqn:Hm.
  destruct (compare_with_master_spec _ _ _ _ _ _ Hlive Hm) as (H1 & H2 & H3 & H4 & H5).
  destruct (prune_marked_ok mc l f Hwf Hlive H1 ltac:(tauto)) as (mc1 & Hprune & Hwf1 & Hc1 & Ho1).
  assert (Hlong : forall shared rest, map endpoint (servers master) = shared ++ rest ->
    sublist shared (map endpoint (servers mc)) -> (length shared <= length (filter live l))%nat).
  { intros shared rest E Hsub. rewrite <-(length_map endpoint (filter live l)), H3, length_map, length_take_le by done.
    by eapply compare_with_master_longest. }
  pose proof (same_connection_endpoints _ _ Hc1) as He1. rewrite H3 in He1.
  destruct (decide (map endpoint (servers mc) = map endpoint (servers master))) as [E|E].
  - left. split; [exact E|]. rewrite compare_with_master_same in Hm by exact E.
    injection Hm as <- <- <-. rewrite Z.ltb_irrefl. by destruct mc.
  - right. split; [exact E|]. rewrite Hprune. pose proof (f_equal length He1) as Hlen.
    rewrite !length_map, length_take_le in Hlen by lia.
    destruct (Z.ltb_spec (Z.of_nat y) (Z.of_nat (length (servers master)))) as [Hy|Hy].
    + apply (push_with_count_follows e junk block store mc mc1 master (filter live l)
        (drop y (servers master))); try done.
      * intros Ed. apply (f_equal length) in Ed. rewrite length_drop in Ed. simpl in Ed. lia.
      * rewrite length_drop. lia.
      * by apply Forall_drop.
      * by rewrite He1, <-map_app, take_drop.
    + rewrite firstn_all2 in He1 by lia. destruct f.
      * exists mc1. split; [|done]. split; [done|]. split; [done|]. split.
        -- exists false. exact (proj1 (only_servers_weighted_false _ _) Ho1).
        -- exists (filter live l), (servers mc1), []. rewrite app_nil_r.
           split_and!; [done..|constructor|]. intros shared rest Es Hsub.
           rewrite <-(Forall2_length _ _ _ Hc1). by eapply Hlong.
      * destruct (proj1 H5 eq_refl) as [_ ->]. rewrite filter_all in H3 by (by apply Forall_forall).
        by rewrite firstn_all2 in H3 by lia.
Qed.

(** *** Adding a server *)

(** The handle that adding a server leads to. *)
Definition adds_server (ptr mc : memcached_st) (h : bytes) (p w : Z) (t : memcached_connection_t)
    : Prop :=
  well_formed mc /\ memcached_server_list_count (servers mc) = number_of_hosts mc
  /\ only_servers_weighted (1 <? w) ptr mc
  /\ exists old s, servers mc = old ++ [s] /\ Forall2 same_connection (servers ptr) old
       /\ endpoint s = (h, p) /\ type s = t /\ weight s = (if w =? 0 then 1 else w)
       /\ fresh_server s.

Lemma server_add_ok e junk block store ptr h p w t :
  well_formed ptr -> number_of_hosts ptr < 2 ^ 32 - 1 ->
  wrong_protocol ptr t = false -> memcached_is_valid_servername h = true ->
  exists mc, adds_server ptr mc h p w t
    /\ server_add e junk (Some block) store ptr h p w t = run_distribution e store mc.
Proof.
  intros Hwf Hmax Hprot Hname. unfold server_add. cbv zeta. rewrite Hprot, Hname. cbn [negb].
  destruct (create_server_ok junk (ptr <| servers_block := block |>) h p w t)
    as (s & Hs & He & Hf & Ht & Hwt & _ & Hn & Ho); [exact Hwf|].
  pose proof (only_servers_trans _ _ _ (only_servers_block ptr block) Ho) as Ho1.
  set (p1 := create_server _ _ _ _ _ _) in *. cbn [servers number_of_hosts update] in Hs, Hn.
  assert (exists p2, (if 1 <? w then p1 <| ketama_weighted := true |> else p1)
            <| number_of_hosts ::= fun n => n ⊞ 1 |> = p2 /\ servers p2 = servers ptr ++ [s]
          /\ number_of_hosts p2 = number_of_hosts ptr + 1
          /\ only_servers_weighted (1 <? w) ptr p2) as (p2 & -> & Hs2 & Hn2 & Ho2).
  { eexists. split; [done|]. rewrite Hwf in Hmax.
    split; [by destruct (1 <? w)|]. split.
    { transitivity (number_of_hosts p1 ⊞ 1); [|rewrite Hn, Hwf; apply u32_small; lia].
      by destruct (1 <? w). }
    destruct (1 <? w).
    - exact (only_servers_trans _ _ _ (only_servers_weighted_set _ _ Ho1) (only_servers_count _ _)).
    - apply (only_servers_weighted_false ptr).
      exact (only_servers_trans _ _ _ Ho1 (only_servers_count _ _)). }
  unfold finish_push. destruct (servers ptr ++ [s]) as [|s0 l0] eqn:Happ; [by destruct (servers ptr)|].
  rewrite Hs2. cbn [set_first_count]. eexists. split; [|done].
  unfold adds_server, well_formed. cbn [servers number_of_hosts update].
  assert (number_of_hosts p2 = Z.of_nat (S (length l0))) as Hlen.
  { rewrite Hn2, Hwf. apply (f_equal length) in Happ. rewrite length_app in Happ. simpl in Happ. lia. }
  split; [done|]. split; [done|]. split.
  { exact (only_servers_trans _ p2 _ Ho2 (only_servers_servers p2 _)). }
  destruct (servers ptr) as [|s1 l1]; cbn [app] in Happ; injection Happ as <- <-.
  - exists [], (s <| server_number_of_hosts := number_of_hosts p2 |>).
    by split_and!.
  - exists (s1 <| server_number_of_hosts := number_of_hosts p2 |> :: l1), s.
    split_and!; try done. constructor; [apply same_connection_count|reflexivity].
Qed.

(** Adding a server.  A handle for UDP, a host name that is too long and an
    array that cannot be extended are reported and leave the handle alone;
    otherwise the server, with the defaults for what is not given, comes behind
    the others, which keep their connections, and the counts follow, before the
    distribution is computed anew. *)
Theorem memcached_server_add_with_weight_spec e junk block store ptr host p w :
  well_formed ptr -> number_of_hosts ptr < 2 ^ 32 - 1 ->
  let h := match cstr (default [] host) with [] => str "localhost" | h => h end in
  let port := if p =? 0 then 11211 else p in
  let t := if bool_decide (head h = Some (byte_of_Z 47)) then MEMCACHED_CONNECTION_UNIX_SOCKET
           else MEMCACHED_CONNECTION_TCP in
  let add := memcached_server_add_with_weight e junk block store ptr host p w in
  if use_udp (flags ptr) then add = Some (MEMCACHED_INVALID_HOST_PROTOCOL, store, ptr)
  else if 1025 <=? Z.of_nat (length h) then add = Some (MEMCACHED_INVALID_ARGUMENTS, store, ptr)
  else if bool_decide (block = None)
  then add = Some (MEMCACHED_MEMORY_ALLOCATION_FAILURE, store, ptr)
  else exists mc, adds_server ptr mc h port w t /\ add = run_distribution e store mc.
Proof.
  intros Hwf Hmax h port t add.
  assert (add = server_add e junk block store ptr h port w t) as ->.
  { subst h t. unfold add, memcached_server_add_with_weight.
    by destruct (cstr (default [] host)) eqn:E. }
  assert (wrong_protocol ptr t = use_udp (flags ptr)) as Hprot.
  { unfold wrong_protocol. assert (t <> MEMCACHED_CONNECTION_UDP) by (subst t; by case_bool_decide).
    rewrite bool_decide_eq_true_2, bool_decide_eq_false_2, andb_true_r by done. apply orb_false_r. }
  assert (memcached_is_valid_servername h = negb (1025 <=? Z.of_nat (length h))) as Hname.
  { unfold memcached_is_valid_servername, MEMCACHED_NI_MAXHOST. by rewrite Z.ltb_antisym. }
  destruct (use_udp (flags ptr)) eqn:Hudp; [by unfold server_add; rewrite Hprot|].
  destruct (1025 <=? _) eqn:Hlong; [by unfold server_add; rewrite Hprot, Hname|].
  destruct block as [b|]; [|by unfold server_add; rewrite Hprot, Hname].
  rewrite bool_decide_eq_false_2 by done. by apply server_add_ok.
Qed.

End Update.

(** ** Concrete handles *)

Definition zero_server : memcached_server_st :=
  {| server_is_allocated := false; is_initialized := false; is_shutting_down := false;
     is_dead := false; server_number_of_hosts := 0; cursor_active := 0; port := 0; fd := 0;
     io_bytes_sent := 0; server_failure_counter := 0; server_failure_counter_query_id := 0;
     weight := 0; version := 0; server_state := MEMCACHED_SERVER_STATE_NEW;
     major_version := 0; minor_version := 0; micro_version := 0; is_enterprise := false;
     send_failed := false; in_sasl_mech := false; type := MEMCACHED_CONNECTION_TCP;
     read_ptr := None; read_buffer_length := 0; read_data_length := 0;
     write_buffer_offset := 0; next_retry := 0; immediate_reconnect := false; groupindex := 0;
     switchover_sidx := 0; switchover_peer := []; next := None;
     switchover_state := MEMCACHED_SUCCESS; limit_maxbytes := 0; hostname := []; str_port := [] |}.

Definition server_of (h : string) : memcached_server_st :=
  zero_server <| hostname := str h |> <| port := 11211 |>.

(** A handle with servers of the given names, in block 1. *)
Definition handle_of (names : list string) : memcached_st :=
  let ptr := snd (push_loop zero_server (_memcached_init <| servers_block := 1 |>)
                    (map server_of names)) in
  match set_first_count (servers ptr) (number_of_hosts ptr) with
  | Some l => ptr <| servers := l |>
  | None => ptr
  end.

Definition info_of (h : string) : memcached_server_info_st :=
  {| info_groupname := []; info_hostname := str h; info_port := 11211; info_master := false;
     exist := false |}.

Definition some_env : env :=
  {| gettimeofday := Some 1000; malloc_ketama_info := true; malloc_continuum := true;
     pool_master := None |}.

Lemma info_of_ok h : (Z.of_nat (length (str h)) <? 1025) = true ->
  forallb (fun c => negb (bool_decide (c = Byte.x00))) (str h) = true ->
  exist (info_of h) = false /\ valid_name (info_hostname (info_of h)).
Proof.
  intros Hl Hn. split; [done|]. split; [|by apply Z.ltb_lt].
  apply Forall_forall. intros c Hc. eapply forallb_forall in Hn; [|by apply list_elem_of_In].
  by apply negb_true_iff, bool_decide_eq_false in Hn.
Qed.

(** The second of three servers is dead. *)
Definition pruned_handle : memcached_st :=
  (handle_of ["a"; "b"; "c"]%string) <| servers ::= alter (fun s => s <| is_dead := true |>) 1%nat |>.

Lemma memcached_server_prune_spec_witness :
  exists ptr', memcached_server_prune pruned_handle false = Some ptr'
    /\ map hostname (servers ptr') = [str "a"; str "c"] /\ own_buffers ptr'.
Proof.
  destruct (memcached_server_prune_spec pruned_handle eq_refl) as (ptr' & Hp & _ & Hc & _ & Hown).
  exists ptr'. split; [done|]. split.
  - vm_compute in Hp. injection Hp as <-. reflexivity.
  - apply Hown. intros i s p Hs Hr.
    do 3 (destruct i as [|i]; [vm_compute in Hs; simplify_eq; vm_compute in Hr; by simplify_eq|]).
    done.
Defined.

Lemma do_memcached_update_serverlist_spec_witness :
  let handle := handle_of ["a"; "b"; "c"]%string in
  let infos := [info_of "c"; info_of "d"] in
  exists mc', follows handle mc' (map info_endpoint infos)
    /\ do_memcached_update_serverlist some_env zero_server (Some 2) ∅ handle infos
       = (fun r => (r, true)) <$> run_distribution some_env ∅ mc'.
Proof.
  intros handle infos.
  destruct (do_memcached_update_serverlist_spec some_env zero_server 2 ∅ handle infos)
    as [[Hp _]|[_ H]].
  - vm_compute. reflexivity.
  - vm_compute. by repeat constructor.
  - apply (bool_decide_unpack _). vm_compute. exact I.
  - do 2 (apply Forall_cons; split; [apply info_of_ok; vm_compute; reflexivity|]). constructor.
  - vm_compute. reflexivity.
  - vm_compute. reflexivity.
  - exfalso. apply Permutation_length in Hp. vm_compute in Hp. discriminate Hp.
  - exact H.
Defined.

Lemma do_memcached_update_serverlist_with_master_spec_witness :
  let handle := handle_of ["a"; "b"]%string in
  let master := handle_of ["a"; "c"; "d"]%string in
  exists mc', follows_master handle mc' master
    /\ do_memcached_update_serverlist_with_master some_env zero_server (Some 2) ∅ handle master
       = run_distribution some_env ∅ mc'.
Proof.
  intros handle master.
  destruct (do_memcached_update_serverlist_with_master_spec some_env zero_server 2 ∅ handle master)
    as [[Hp _]|[_ H]].
  - vm_compute. reflexivity.
  - vm_compute. by repeat constructor.
  - vm_compute. reflexivity.
  - vm_compute. reflexivity.
  - vm_compute. reflexivity.
  - vm_compute. repeat constructor; discriminate.
  - exfalso. apply (f_equal length) in Hp. vm_compute in Hp. discriminate Hp.
  - exact H.
Defined.

Lemma memcached_server_add_with_weight_spec_witness :
  let handle := handle_of ["a"]%string in
  exists mc, adds_server handle mc (str "localhost") 11211 3 MEMCACHED_CONNECTION_TCP
    /\ memcached_server_add_with_weight some_env zero_server (Some 2) ∅ handle None 0 3
       = run_distribution some_env ∅ mc.
Proof.
  intros handle.
  exact (memcached_server_add_with_weight_spec some_env zero_server (Some 2) ∅ handle None 0 3
    ltac:(vm_compute; reflexivity) ltac:(vm_compute; reflexivity)).
Defined.

(** The array that is extended may move, and [read_ptr] of the servers that
    were in it is not adjusted, as it is when servers are pruned. *)
Lemma server_add_stale_read_ptr :
  exists mc, server_add some_env zero_server (Some 2) ∅ (handle_of ["a"]%string) (str "b") 11211 0
               MEMCACHED_CONNECTION_TCP = Some (MEMCACHED_SUCCESS, ∅, mc)
    /\ own_buffers (handle_of ["a"]%string) /\ ~ own_buffers mc.
Proof.
  eexists. split; [vm_compute; reflexivity|]. split.
  - intros [|[|i]] s p Hs Hr; [|done..]. vm_compute in Hs. simplify_eq. vm_compute in Hr. by simplify_eq.
  - intros Hown. by destruct (Hown 0%nat _ (buffer_of 1 0) eq_refl eq_refl).
Qed.
