(* ===== verification/Rgroup.v ===== *)
(** Replication groups: rgroup.cc and the group list updates of memcached.cc.

    The server records of a handle with replication live in [server_pool] and
    are shared by pointers: a group refers to those of its replicas, and the
    unused ones are chained through [next] from [free_server], which is the
    pointer [memc->servers] of the code.  A function that changes a group
    through a pointer takes it and returns it; the callers write it back to its
    slot of [rgroups].  [rgroups] holds the slots that were initialised, and the
    array is NULL while [rgroup_ntotal] is 0.

    [None] is an assertion that fails or an invalid access.  Closing the
    connection of a freed server is not modelled. *)
From S2P Require Import Prelude HashFunctions Hashkit Memcached Text KeyHash Continuum Distribution.
From S2P Require Import ServerList.

(** ** Group information *)

(** [struct memcached_rgroup_info_st]: the pointers of [replicas] are into the
    array of server information, whose entries they stand for. *)
Record memcached_rgroup_info_st := {
  info_group : bytes;
  info_replicas : list (option memcached_server_info_st);
  info_nreplica : nat;
  valid : bool;
}.

#[export] Instance rgroup_info_fields : Fields memcached_rgroup_info_st := fun g =>
  {| info_group := info_group g; info_replicas := info_replicas g;
     info_nreplica := info_nreplica g; valid := valid g |}.

(** The entries of the array after [memset]. *)
Definition zero_rgroup_info : memcached_rgroup_info_st :=
  {| info_group := []; info_replicas := replicate RGROUP_MAX_REPLICA None;
     info_nreplica := 0; valid := false |}.

Definition new_rgroup_info (s : memcached_server_info_st) : memcached_rgroup_info_st :=
  zero_rgroup_info
    <| info_group := info_groupname s |>
    <| info_replicas ::= <[(if info_master s then 0 else 1)%nat := Some s]> |>
    <| info_nreplica := 1%nat |> <| valid := true |>.

(** Whether one of the replicas [k .. nreplica] has the endpoint of [s]. *)
Fixpoint duplicate_server (s : memcached_server_info_st) (g : memcached_rgroup_info_st)
    (ks : list nat) : option bool :=
  match ks with
  | [] => Some false
  | k :: ks =>
      match info_replicas g !! k with
      | Some (Some r) =>
          if bool_decide (strcmp (info_hostname s) (info_hostname r) = Eq)
             && (info_port s =? info_port r)
          then Some true else duplicate_server s g ks
      | _ => None
      end
  end.

(** The server [s] joins the group [g] that was found for it; the result says
    whether the group was found invalid now. *)
Definition join_rgroup_info (s : memcached_server_info_st) (g : memcached_rgroup_info_st)
    : option (memcached_rgroup_info_st * bool) :=
  if negb (valid g) then Some (g, false)
  else if info_master s then
    match info_replicas g !! 0%nat with
    | Some (Some _) => Some (g <| valid := false |>, true)
    | Some None =>
        match duplicate_server s g (seq 1 (info_nreplica g)) with
        | None => None
        | Some true => Some (g <| valid := false |>, true)
        | Some false =>
            Some (g <| info_replicas ::= <[0%nat := Some s]> |> <| info_nreplica ::= S |>, false)
        end
    | None => None
    end
  else
    match info_replicas g !! 0%nat with
    | None => None
    | Some r0 =>
        let k := (info_nreplica g + match r0 with Some _ => 0 | None => 1 end)%nat in
        if (RGROUP_MAX_REPLICA <=? k)%nat then Some (g <| valid := false |>, true)
        else Some (g <| info_replicas ::= <[k := Some s]> |> <| info_nreplica ::= S |>, false)
    end.

(** One step of the loop over the servers: the groups found so far and
    [valid_ngroup]. *)
Fixpoint add_server_info (s : memcached_server_info_st) (groups : list memcached_rgroup_info_st)
    : option (list memcached_rgroup_info_st * Z) :=
  match groups with
  | [] => Some ([new_rgroup_info s], 1)
  | g :: groups =>
      if bool_decide (strcmp (info_groupname s) (info_group g) = Eq) then
        '(g, failed) ← join_rgroup_info s g;
        Some (g :: groups, if failed : bool then -1 else 0)
      else
        '(groups, d) ← add_server_info s groups;
        Some (g :: groups, d)
  end.

Fixpoint collect_rgroup_info (serverinfo : list memcached_server_info_st)
    (groups : list memcached_rgroup_info_st) (valid_ngroup : Z)
    : option (list memcached_rgroup_info_st * Z) :=
  match serverinfo with
  | [] => Some (groups, valid_ngroup)
  | s :: serverinfo =>
      '(groups, d) ← add_server_info s groups;
      collect_rgroup_info serverinfo groups (valid_ngroup ⊞ d)
  end.

(** The loop that looks for groups without a master. *)
Fixpoint check_masters (groups : list memcached_rgroup_info_st) (valid_ngroup : Z)
    : option (list memcached_rgroup_info_st * Z) :=
  match groups with
  | [] => Some ([], valid_ngroup)
  | g :: groups =>
      match info_replicas g !! 0%nat with
      | None => None
      | Some None =>
          '(groups, v) ← check_masters groups (valid_ngroup ⊟ 1);
          Some (g <| valid := false |> :: groups, v)
      | Some (Some _) =>
          '(groups, v) ← check_masters groups valid_ngroup;
          Some (g :: groups, v)
      end
  end.

(** The groups and [*validcount]; [*groupcount] is the length of the groups. *)
Definition memcached_rgroup_info_create (serverinfo : list memcached_server_info_st)
    : option (list memcached_rgroup_info_st * Z) :=
  '(groups, valid_ngroup) ← collect_rgroup_info serverinfo [] 0;
  check_masters groups valid_ngroup.

(** ** Servers of groups *)

Definition do_rgroup_server_alloc (memc : memcached_st) : option (option nat * memcached_st) :=
  match free_server memc with
  | None => Some (None, memc)
  | Some id =>
      s ← server_pool memc !! id;
      Some (Some id, memc <| free_server := next s |> <| server_navail ::= fun n => n ⊟ 1 |>)
  end.

Definition do_rgroup_server_free (memc : memcached_st) (id : nat) : option memcached_st :=
  s ← server_pool memc !! id;
  Some (memc <| server_pool ::= <[id := s <| next := free_server memc |>]> |>
             <| free_server := Some id |> <| server_navail ::= fun n => n ⊞ 1 |>).

Definition __server_free (memc : memcached_st) (id : nat) : option memcached_st :=
  s ← server_pool memc !! id;
  Some (memc <| server_pool ::= if server_is_allocated s then delete id
                                else <[id := s <| is_initialized := false |>]> |>).

(** [do_rgroup_server_alloc], [__server_create_with] and the group index, the
    part that inserting and replacing share: [None] in the result is a host
    name that is not valid. *)
Definition new_group_server (memc : memcached_st) (g : memcached_rgroup_st) (h : bytes) (p : Z)
    : option (option nat * memcached_st) :=
  let h := cstr h in
  if negb (memcached_is_valid_servername h) then Some (None, memc)
  else
    '(server, memc) ← do_rgroup_server_alloc memc;
    id ← server;
    s ← server_pool memc !! id;
    let '(s, v) := __server_create_with (Some (server_info_version memc)) s false
      (buffer_of (Z.of_nat id) 0) h p 0 MEMCACHED_CONNECTION_TCP in
    let s := s <| groupindex := i32 (rgroup_groupindex g) |> in
    Some (Some id, memc <| server_info_version := default 0 v |>
                        <| server_pool ::= <[id := s]> |>).

(** [sindex = None] is -1. *)
Definition do_rgroup_server_insert (memc : memcached_st) (g : memcached_rgroup_st)
    (sindex : option nat) (h : bytes) (p : Z) : option (memcached_st * memcached_rgroup_st) :=
  let n := nreplica g in
  let sindex := default n sindex in
  if negb ((n <? RGROUP_MAX_REPLICA)%nat && (sindex <=? n)%nat) then None
  else
    '(server, memc) ← new_group_server memc g h p;
    match server with
    | None => Some (memc, g)
    | Some id =>
        Some (memc, g <| replicas ::= fun l =>
                           take sindex l ++ Some id :: drop sindex (take n l) ++ drop (S n) l |>
                      <| nreplica := S n |>)
    end.

Definition do_rgroup_server_remove (memc : memcached_st) (g : memcached_rgroup_st) (sindex : nat)
    : option (memcached_st * memcached_rgroup_st) :=
  let n := nreplica g in
  if negb (sindex <? n)%nat then None
  else
    server ← replicas g !! sindex;
    let g := g <| replicas ::= fun l =>
                    take sindex l ++ drop (S sindex) (take n l) ++ None :: drop n l |>
               <| nreplica := (n - 1)%nat |> in
    id ← server;
    memc ← __server_free memc id;
    memc ← do_rgroup_server_free memc id;
    Some (memc, g).

Definition do_rgroup_server_replace (memc : memcached_st) (g : memcached_rgroup_st)
    (sindex : nat) (h : bytes) (p : Z) : option (memcached_st * memcached_rgroup_st) :=
  if negb (sindex <? nreplica g)%nat then None
  else
    '(server, memc) ← new_group_server memc g h p;
    match server with
    | None => Some (memc, g)
    | Some id =>
        old ← replicas g !! sindex;
        let g := g <| replicas ::= <[sindex := Some id]> |> in
        old ← old;
        memc ← __server_free memc old;
        memc ← do_rgroup_server_free memc old;
        Some (memc, g)
    end.

Definition do_rgroup_server_switchover (g : memcached_rgroup_st) (sindex : nat)
    : option memcached_rgroup_st :=
  if negb ((0 <? sindex)%nat && (sindex <? nreplica g)%nat) then None
  else
    server ← replicas g !! 0%nat;
    other ← replicas g !! sindex;
    Some (g <| replicas ::= fun l => <[sindex := server]> (<[0%nat := other]> l) |>).

(** ** Groups *)

(** On memory that is given, so nothing is allocated and it cannot fail. *)
Definition do_rgroup_create (self : memcached_rgroup_st) : memcached_rgroup_st :=
  self <| rgroup_is_allocated := false |> <| rgroup_is_initialized := true |>.

Definition do_rgroup_init (self : memcached_rgroup_st) (name : bytes) (index w : Z)
    : option memcached_rgroup_st :=
  if negb (Z.of_nat (length name) <? RGROUP_NAME_LENGTH) then None
  else
    Some (self <| rgroup_is_shutting_down := false |> <| rgroup_is_dead := false |>
               <| groupname := name |> <| rgroup_groupindex := index |>
               <| rgroup_weight := if w =? 0 then 1 else w |> <| nreplica := 0%nat |>
               <| replicas := replicate RGROUP_MAX_REPLICA None |>).

(** [while (self->nreplica > n) do_rgroup_server_remove(self, nreplica-1)]; each
    round removes one, so the number of replicas is enough fuel. *)
Fixpoint remove_replicas (fuel : nat) (memc : memcached_st) (g : memcached_rgroup_st) (n : nat)
    : option (memcached_st * memcached_rgroup_st) :=
  if (n <? nreplica g)%nat then
    match fuel with
    | O => None
    | S fuel =>
        '(memc, g) ← do_rgroup_server_remove memc g (nreplica g - 1);
        remove_replicas fuel memc g n
    end
  else Some (memc, g).

Definition do_rgroup_destroy (memc : memcached_st) (g : memcached_rgroup_st)
    : option (memcached_st * memcached_rgroup_st) :=
  '(memc, g) ← remove_replicas (nreplica g) memc g 0;
  Some (memc, if rgroup_is_allocated g then g else g <| rgroup_is_initialized := false |>).

(** The new size of the array of groups: tens are added until it is enough. *)
Fixpoint grow_count (fuel : nat) (count new_count : Z) : Z :=
  match fuel with
  | O => new_count
  | S fuel => if new_count <? count then grow_count fuel count (new_count ⊞ 10) else new_count
  end.

(** The loop that allocates servers: [malloc] is how many times it succeeds and
    [junk] what the memory holds. *)
Fixpoint expand_servers (fuel : nat) (junk : memcached_server_st) (malloc : nat)
    (memc : memcached_st) (count : Z) : bool * memcached_st :=
  if server_ntotal memc <? count then
    match fuel, malloc with
    | S fuel, S malloc =>
        let id := fresh (dom (server_pool memc)) in
        expand_servers fuel junk malloc
          (memc <| server_pool := <[id := junk <| next := free_server memc |>]> (server_pool memc) |>
                <| free_server := Some id |>
                <| server_ntotal := server_ntotal memc ⊞ 1 |>
                <| server_navail := server_navail memc ⊞ 1 |>) count
    | _, _ => (false, memc)
    end
  else (true, memc).

(** [realloc] is whether the array of groups can be extended; the result is
    whether the function returns 0. *)
Definition memcached_rgroup_expand (junk : memcached_server_st) (realloc : bool) (malloc : nat)
    (memc : memcached_st) (rgroupcount servercount : Z) : bool * memcached_st :=
  let servers_fuel := Z.to_nat (servercount ⊞ 1) in
  if rgroup_ntotal memc <? rgroupcount then
    if realloc then
      let new_count := grow_count (Z.to_nat rgroupcount) rgroupcount (rgroup_ntotal memc ⊞ 10) in
      expand_servers servers_fuel junk malloc (memc <| rgroup_ntotal := new_count |>)
        (servercount ⊞ 1)
    else (false, memc)
  else expand_servers servers_fuel junk malloc memc (servercount ⊞ 1).

(** ** Updating a group *)

(** [RGROUP_SERVER_IS_SAME(rgroup, n, ...)] with the endpoint of the other
    side. *)
Definition server_is_same (memc : memcached_st) (g : memcached_rgroup_st) (n : nat)
    (other : bytes * Z) : option bool :=
  id ← replicas g !! n;
  id ← id;
  s ← server_pool memc !! id;
  Some (bool_decide (strcmp (hostname s) (fst other) = Eq) && (port s =? snd other)).

(** The loop that looks for the new master among the slaves, from [i] on. *)
Fixpoint find_replica (memc : memcached_st) (g : memcached_rgroup_st) (idx : list nat)
    (other : bytes * Z) : option (option nat) :=
  match idx with
  | [] => Some None
  | i :: idx =>
      same ← server_is_same memc g i other;
      if same : bool then Some (Some i) else find_replica memc g idx other
  end.

(** New slaves with their marks of [new_slave_exist]: the first one that is not
    marked and has the endpoint of replica [n] is marked. *)
Fixpoint mark_slave (memc : memcached_st) (g : memcached_rgroup_st) (n : nat)
    (slaves : list ((bytes * Z) * bool)) : option (option (list ((bytes * Z) * bool))) :=
  match slaves with
  | [] => Some None
  | (other, true) :: slaves =>
      r ← mark_slave memc g n slaves;
      Some (option_map (cons (other, true)) r)
  | (other, false) :: slaves =>
      same ← server_is_same memc g n other;
      if same : bool then Some (Some ((other, true) :: slaves))
      else r ← mark_slave memc g n slaves; Some (option_map (cons (other, false)) r)
  end.

(** The loop that removes the old slaves that disappeared; a round either goes
    on to the next replica or removes one, so the number of replicas behind [i]
    is enough fuel. *)
Fixpoint remove_slaves (fuel : nat) (memc : memcached_st) (g : memcached_rgroup_st) (i : nat)
    (slaves : list ((bytes * Z) * bool)) (changed : bool)
    : option (memcached_st * memcached_rgroup_st * list ((bytes * Z) * bool) * bool) :=
  if (i <? nreplica g)%nat then
    match fuel with
    | O => None
    | S fuel =>
        found ← mark_slave memc g i slaves;
        match found with
        | Some slaves => remove_slaves fuel memc g (S i) slaves changed
        | None =>
            '(memc, g) ← do_rgroup_server_remove memc g i;
            remove_slaves fuel memc g i slaves true
        end
    end
  else Some (memc, g, slaves, changed).

(** The loop that inserts the new slaves that are not marked. *)
Fixpoint insert_slaves (memc : memcached_st) (g : memcached_rgroup_st)
    (slaves : list ((bytes * Z) * bool)) (changed : bool)
    : option (memcached_st * memcached_rgroup_st * bool) :=
  match slaves with
  | [] => Some (memc, g, changed)
  | (other, true) :: slaves => insert_slaves memc g slaves changed
  | (other, false) :: slaves =>
      '(memc, g) ← do_rgroup_server_insert memc g None (fst other) (snd other);
      insert_slaves memc g slaves true
  end.

(** The loop that inserts servers at their positions, from [i] on. *)
Fixpoint insert_servers (memc : memcached_st) (g : memcached_rgroup_st) (i : nat)
    (others : list (bytes * Z)) : option (memcached_st * memcached_rgroup_st) :=
  match others with
  | [] => Some (memc, g)
  | other :: others =>
      '(memc, g) ← do_rgroup_server_insert memc g (Some i) (fst other) (snd other);
      insert_servers memc g (S i) others
  end.

(** The body that [memcached_rgroup_update_with_groupinfo] and
    [memcached_rgroup_update] share; [others] are the endpoints of the new
    group, its master first. *)
Definition update_rgroup (memc : memcached_st) (g : memcached_rgroup_st)
    (others : list (bytes * Z)) : option (memcached_st * memcached_rgroup_st * bool) :=
  match others with
  | [] => None
  | new_master :: new_slaves =>
      if (nreplica g =? 1)%nat then
        same ← server_is_same memc g 0 new_master;
        '(memc, g) ← (if same : bool then Some (memc, g)
                      else do_rgroup_server_replace memc g 0 (fst new_master) (snd new_master));
        '(memc, g) ← insert_servers memc g 1 new_slaves;
        Some (memc, g, negb same || (0 <? length new_slaves)%nat)
      else
        same ← server_is_same memc g 0 new_master;
        '(memc, g) ← (if same : bool then Some (memc, g)
                      else
                        found ← find_replica memc g (seq 1 (nreplica g - 1)) new_master;
                        match found with
                        | Some i => g ← do_rgroup_server_switchover g i; Some (memc, g)
                        | None => do_rgroup_server_replace memc g 0 (fst new_master) (snd new_master)
                        end);
        match new_slaves with
        | [] =>
            '(memc, g) ← remove_replicas (nreplica g) memc g 1;
            Some (memc, g, true)
        | _ =>
            '(memc, g, slaves, changed) ←
              remove_slaves (nreplica g) memc g 1 (map (fun o => (o, false)) new_slaves)
                (negb same);
            insert_slaves memc g slaves changed
        end
  end.

(** The endpoints that the pointers of a [memcached_rgroup_info_st] refer to,
    and those of a group of the handle [memc]. *)
Definition info_endpoints (info : memcached_rgroup_info_st) : option (list (bytes * Z)) :=
  mapM (fun r => info_endpoint <$> r) (take (info_nreplica info) (info_replicas info)).

Definition rgroup_endpoints (memc : memcached_st) (g : memcached_rgroup_st)
    : option (list (bytes * Z)) :=
  mapM (fun r => id ← r; endpoint <$> server_pool memc !! id) (take (nreplica g) (replicas g)).

Definition memcached_rgroup_update_with_groupinfo (memc : memcached_st)
    (g : memcached_rgroup_st) (info : memcached_rgroup_info_st)
    : option (memcached_st * memcached_rgroup_st * bool) :=
  others ← info_endpoints info; update_rgroup memc g others.

Definition memcached_rgroup_update (memc : memcached_st) (g : memcached_rgroup_st)
    (master : memcached_st) (new_rgroup : memcached_rgroup_st)
    : option (memcached_st * memcached_rgroup_st * bool) :=
  others ← rgroup_endpoints master new_rgroup; update_rgroup memc g others.

(** ** Lists of groups *)

Section GroupList.
Context `{Qsort}.
Variable e : env.
(** What memory holds before a group or a server is created in it, whether
    [realloc] succeeds and how many times [malloc] does. *)
Variable junk_group : memcached_rgroup_st.
Variable junk : memcached_server_st.
Variable realloc : bool.
Variable malloc : nat.

(** [memc->rgroups\[number_of_hosts\]] is initialised with the given servers and
    [number_of_hosts] is incremented: the body that both push loops share. *)
Definition push_rgroup (memc : memcached_st) (name : bytes) (others : list (bytes * Z))
    : option memcached_st :=
  let n := number_of_hosts memc in
  if rgroup_ntotal memc <=? n then None
  else
    g ← do_rgroup_init
          (do_rgroup_create (default junk_group (rgroups memc !! Z.to_nat n))) (cstr name) n 0;
    '(memc, g) ← insert_servers memc g 0 others;
    Some (memc <| rgroups ::= fun l => take (Z.to_nat n) l ++ g :: drop (S (Z.to_nat n)) l |>
               <| number_of_hosts := n ⊞ 1 |>).

Fixpoint push_groupinfo_loop (memc : memcached_st) (groupinfo : list memcached_rgroup_info_st)
    : option memcached_st :=
  match groupinfo with
  | [] => Some memc
  | info :: groupinfo =>
      if valid info then
        others ← info_endpoints info;
        memc ← push_rgroup memc (info_group info) others;
        push_groupinfo_loop memc groupinfo
      else push_groupinfo_loop memc groupinfo
  end.

Definition memcached_rgroup_push_with_groupinfo (store : ketama_store) (memc : memcached_st)
    (groupinfo : list memcached_rgroup_info_st) : outcome :=
  if rgroup_ntotal memc <? Z.of_nat (length groupinfo) then None
  else
    memc ← push_groupinfo_loop memc groupinfo;
    run_distribution e store memc.

(** The groups of the list belong to the handle [source]. *)
Fixpoint push_group_loop (memc source : memcached_st) (grouplist : list memcached_rgroup_st)
    : option memcached_st :=
  match grouplist with
  | [] => Some memc
  | g :: grouplist =>
      others ← rgroup_endpoints source g;
      let weighted := 1 <? rgroup_weight g in
      memc ← push_rgroup memc (groupname g) others;
      let memc := if weighted then memc <| ketama_weighted := true |> else memc in
      push_group_loop memc source grouplist
  end.

(** [grouplist = None] is NULL. *)
Definition memcached_rgroup_push (store : ketama_store) (memc source : memcached_st)
    (grouplist : option (list memcached_rgroup_st)) : outcome :=
  match grouplist with
  | None => Some (MEMCACHED_SUCCESS, store, memc)
  | Some grouplist =>
      let sum_gcount := Z.of_nat (length grouplist) ⊞ number_of_hosts memc in
      match memcached_rgroup_expand junk realloc malloc memc sum_gcount
              (sum_gcount ⊠ Z.of_nat RGROUP_MAX_REPLICA) with
      | (false, memc) => Some (MEMCACHED_MEMORY_ALLOCATION_FAILURE, store, memc)
      | (true, memc) =>
          memc ← push_group_loop memc source grouplist;
          run_distribution e store memc
      end
  end.

Definition memcached_push (store : ketama_store) (block : option Z)
    (destination source : memcached_st) : outcome :=
  if repl_enabled (flags source) then
    memcached_rgroup_push store destination source
      (if rgroup_ntotal source =? 0 then None
       else Some (take (Z.to_nat (number_of_hosts source)) (rgroups source)))
  else memcached_server_push e junk block store destination (servers source).

Fixpoint destroy_groups (memc : memcached_st) (groups : list memcached_rgroup_st)
    : option memcached_st :=
  match groups with
  | [] => Some memc
  | g :: groups =>
      '(memc, _) ← do_rgroup_destroy memc g;
      destroy_groups memc groups
  end.

(** The loop that frees the unused servers; no more than there are. *)
Fixpoint free_servers (fuel : nat) (memc : memcached_st) : option memcached_st :=
  '(server, memc) ← do_rgroup_server_alloc memc;
  match server, fuel with
  | None, _ => Some memc
  | Some id, S fuel => free_servers fuel (memc <| server_pool ::= delete id |>)
  | Some _, O => None
  end.

Definition memcached_rgroup_list_free (memc : memcached_st) : option memcached_st :=
  if rgroup_ntotal memc =? 0 then Some memc
  else
    memc ← destroy_groups memc (take (Z.to_nat (number_of_hosts memc)) (rgroups memc));
    let memc := memc <| rgroups := [] |> <| rgroup_ntotal := 0 |> in
    memc ← free_servers (base.size (server_pool memc)) memc;
    Some (memc <| server_ntotal := 0 |> <| number_of_hosts := 0 |>).

(** The loop over the slots: [n] of them are left, from slot [x] on; the array
    is updated in place. *)
Fixpoint rgroup_prune_loop (n x cursor : nat) (memc : memcached_st)
    : option (nat * memcached_st) :=
  match n with
  | O => Some (cursor, memc)
  | S n =>
      g ← rgroups memc !! x;
      if rgroup_is_dead g then
        '(memc, g) ← do_rgroup_destroy memc g;
        rgroup_prune_loop n (S x) cursor (memc <| rgroups ::= <[x := g]> |>)
      else if (cursor <? x)%nat then
        '(pool, g) ← do_rgroup_index_set (server_pool memc) g (Z.of_nat cursor);
        rgroup_prune_loop n (S x) (S cursor)
          (memc <| server_pool := pool |> <| rgroups ::= <[cursor := g]> |>)
      else rgroup_prune_loop n (S x) (S cursor) memc
  end.

Definition memcached_rgroup_prune (memc : memcached_st) (all_flag : bool)
    : option memcached_st :=
  if all_flag then memcached_rgroup_list_free memc
  else
    '(cursor, memc) ← rgroup_prune_loop (Z.to_nat (number_of_hosts memc)) 0 0 memc;
    Some (if number_of_hosts memc =? 0 then memc
          else memc <| number_of_hosts := Z.of_nat cursor |>).

(** ** Following a list of servers *)

Fixpoint find_groupinfo (name : bytes) (groupinfo : list memcached_rgroup_info_st)
    : option nat :=
  match groupinfo with
  | [] => None
  | info :: groupinfo =>
      if bool_decide (strcmp name (info_group info) = Eq) then Some 0%nat
      else S <$> find_groupinfo name groupinfo
  end.

(** The loop over the groups of the handle, from [x] on: the handle, the group
    information, [validcount], [prune_flag] and whether a group changed. *)
Fixpoint match_groups (n x : nat) (mc : memcached_st)
    (groupinfo : list memcached_rgroup_info_st) (validcount : Z) (prune_flag changed : bool)
    : option (memcached_st * list memcached_rgroup_info_st * Z * bool * bool) :=
  match n with
  | O => Some (mc, groupinfo, validcount, prune_flag, changed)
  | S n =>
      g ← rgroups mc !! x;
      match find_groupinfo (groupname g) groupinfo with
      | Some y =>
          info ← groupinfo !! y;
          if valid info then
            '(mc, g, c) ← memcached_rgroup_update_with_groupinfo mc g info;
            match_groups n (S x) (mc <| rgroups ::= <[x := g]> |>)
              (<[y := info <| valid := false |>]> groupinfo) (validcount ⊟ 1) prune_flag
              (changed || c)
          else match_groups n (S x) mc groupinfo validcount prune_flag changed
      | None =>
          match_groups n (S x)
            (mc <| rgroups ::= <[x := g <| rgroup_is_dead := true |>]> |>)
            groupinfo validcount true changed
      end
  end.

(** The result says also whether [serverlist_changed] is set; [malloc_info] is
    whether the memory for the group information is there. *)
Definition do_memcached_update_rgrouplist (malloc_info : bool) (store : ketama_store)
    (mc : memcached_st) (serverinfo : list memcached_server_info_st)
    : option (memcached_return_t * ketama_store * memcached_st * bool) :=
  let changed (r : outcome) := (fun r => (r, true)) <$> r in
  match serverinfo with
  | [] =>
      if memcached_server_count mc =? 0 then Some (MEMCACHED_SUCCESS, store, mc, false)
      else
        mc ← memcached_rgroup_prune mc true;
        changed (run_distribution e store mc)
  | _ =>
      if negb malloc_info then Some (MEMCACHED_MEMORY_ALLOCATION_FAILURE, store, mc, false)
      else
        '(groupinfo, validcount) ← memcached_rgroup_info_create serverinfo;
        match memcached_rgroup_expand junk realloc malloc mc (Z.of_nat (length groupinfo))
                (Z.of_nat (length serverinfo)) with
        | (false, mc) => Some (MEMCACHED_MEMORY_ALLOCATION_FAILURE, store, mc, false)
        | (true, mc) =>
            '(mc, groupinfo, validcount, prune_flag, c) ←
              match_groups (Z.to_nat (memcached_server_count mc)) 0 mc groupinfo validcount
                false false;
            if (0 <? validcount) || prune_flag then
              mc ← (if prune_flag : bool then memcached_rgroup_prune mc false else Some mc);
              changed (if 0 <? validcount
                       then memcached_rgroup_push_with_groupinfo store mc groupinfo
                       else run_distribution e store mc)
            else Some (MEMCACHED_SUCCESS, store, mc, c)
        end
  end.

(** ** Following the master of a pool *)

(** The comparison loop over the groups of [mc], from [x] on, and those of the
    master, from [y] on. *)
Fixpoint compare_groups (n x : nat) (mc master : memcached_st) (y : nat) (prune_flag : bool)
    : option (memcached_st * nat * bool) :=
  match n with
  | O => Some (mc, y, prune_flag)
  | S n =>
      g ← rgroups mc !! x;
      let dead := mc <| rgroups ::= <[x := g <| rgroup_is_dead := true |>]> |> in
      if Z.of_nat y <? memcached_server_count master then
        new_rgroup ← rgroups master !! y;
        if bool_decide (strcmp (groupname g) (groupname new_rgroup) = Eq) then
          '(mc, g, _) ← memcached_rgroup_update mc g master new_rgroup;
          compare_groups n (S x) (mc <| rgroups ::= <[x := g]> |>) master (S y) prune_flag
        else compare_groups n (S x) dead master y true
      else compare_groups n (S x) dead master y true
  end.

Definition do_memcached_update_rgrouplist_with_master (store : ketama_store)
    (mc master : memcached_st) : outcome :=
  let groups y := take (Z.to_nat (memcached_server_count master) - y) (drop y (rgroups master)) in
  if memcached_server_count master =? 0 then
    if memcached_server_count mc =? 0 then Some (MEMCACHED_SUCCESS, store, mc)
    else
      mc ← memcached_rgroup_prune mc true;
      run_distribution e store mc
  else if memcached_server_count mc =? 0 then
    memcached_rgroup_push store mc master (Some (groups 0%nat))
  else
    '(mc, y, prune_flag) ←
      compare_groups (Z.to_nat (memcached_server_count mc)) 0 mc master 0 false;
    mc ← (if prune_flag : bool then memcached_rgroup_prune mc false else Some mc);
    if Z.of_nat y <? memcached_server_count master then
      memcached_rgroup_push store mc master (Some (groups y))
    else if prune_flag : bool then run_distribution e store mc
    else Some (MEMCACHED_SUCCESS, store, mc).
End GroupList.

(** ** Switchover *)

(** [strtok_r(s, ":", &rest)]: the token, what the string has become as a C
    string, since the delimiter behind the token is overwritten, and the
    rest. *)
Fixpoint span_colon (s : bytes) : bytes * option bytes :=
  match s with
  | [] => ([], None)
  | c :: s =>
      if bool_decide (c = byte_of_Z 58) then ([], Some s)
      else let '(token, rest) := span_colon s in (c :: token, rest)
  end.

Fixpoint skip_colons (s : bytes) : bytes :=
  match s with
  | [] => []
  | c :: s' => if bool_decide (c = byte_of_Z 58) then skip_colons s' else s
  end.

Definition strtok_colon (s : bytes) : option (bytes * bytes) :=
  match skip_colons s with
  | [] => None
  | s => let '(token, rest) := span_colon s in Some (token, default [] rest)
  end.

Fixpoint digits_of (s : bytes) : bytes :=
  match s with
  | [] => []
  | c :: s => if isdigit c then c :: digits_of s else []
  end.

Fixpoint skip_spaces (s : bytes) : bytes :=
  match s with
  | [] => []
  | c :: s' => if isspace c then skip_spaces s' else s
  end.

(** [atoi] for values that an [int] can hold. *)
Definition atoi (s : bytes) : Z :=
  match skip_spaces s with
  | [] => 0
  | c :: s' =>
      if uchar c =? 45 then - decimal (digits_of s')
      else if uchar c =? 43 then decimal (digits_of s')
      else decimal (digits_of (c :: s'))
  end.

(** The bytes of the peer up to the end of its first token. *)
Definition cut_peer (peer : bytes) : bytes :=
  let colons := (length peer - length (skip_colons peer))%nat in
  take colons peer ++ fst (span_colon (skip_colons peer)).

(** The server's peer as it is left, and the slave of the group it names. *)
Definition find_peer (memc : memcached_st) (g : memcached_rgroup_st) (peer : bytes)
    : option (option nat) :=
  match strtok_colon peer with
  | None => Some None
  | Some (host, rest) =>
      let p := match strtok_colon rest with Some (token, _) => u16 (atoi token) | None => 0 end in
      if 0 <? p then find_replica memc g (seq 1 (nreplica g - 1)) (host, p) else Some None
  end.

(** The result is what the function returns, and the handle. *)
Definition memcached_rgroup_switchover (memc : memcached_st) (server : nat)
    : option (bool * memcached_st) :=
  s ← server_pool memc !! server;
  if groupindex s <? 0 then None
  else
    let gi := Z.to_nat (groupindex s) in
    g ← rgroups memc !! gi;
    let switch memc (i : Z) :=
      if i <? 0 then None
      else
        g ← do_rgroup_server_switchover g (Z.to_nat i);
        Some (true, memc <| rgroups ::= <[gi := g]> |>) in
    if switchover_sidx s =? -1 then
      found ← find_peer memc g (switchover_peer s);
      let s := s <| switchover_peer := cut_peer (switchover_peer s) |> in
      match found with
      | None => Some (false, memc <| server_pool ::= <[server := s]> |>)
      | Some i =>
          let s := s <| switchover_sidx := Z.of_nat i |> in
          switch (memc <| server_pool ::= <[server := s]> |>) (Z.of_nat i)
      end
    else switch memc (switchover_sidx s).

(** ** The pool of servers *)

(** The unused servers, from [free] on. *)
Fixpoint chain (pool : gmap nat memcached_server_st) (free : option nat) (l : list nat) : Prop :=
  match l with
  | [] => free = None
  | id :: l => free = Some id /\ exists s, pool !! id = Some s /\ chain pool (next s) l
  end.

(** [used] are the servers that groups refer to; every record of the pool is
    either used once or in the list of unused ones once, and the counts say how
    many there are. *)
Record pool_inv (memc : memcached_st) (used : list nat) : Prop := {
  pool_unused : exists unused, chain (server_pool memc) (free_server memc) unused
    /\ NoDup (unused ++ used)
    /\ (forall id, id ∈ dom (server_pool memc) -> id ∈ unused ++ used)
    /\ server_navail memc = Z.of_nat (length unused)
    /\ server_ntotal memc = Z.of_nat (length (unused ++ used));
  pool_used : Forall (fun id => exists s, server_pool memc !! id = Some s
                                          /\ server_is_allocated s = false) used;
  pool_bound : server_ntotal memc < 2 ^ 32;
}.

Lemma chain_insert pool free l id s :
  id ∉ l -> chain pool free l -> chain (<[id := s]> pool) free l.
Proof.
  revert free. induction l as [|i l IH]; intros free Hid Hc; [done|].
  apply not_elem_of_cons in Hid as [Hne Hid]. destruct Hc as [-> (t & Ht & Hc)].
  split; [done|]. exists t. rewrite lookup_insert_ne by congruence. split; [done|by apply IH].
Qed.

(** What an operation on a group leaves alone: the servers of the other groups
    and everything of the handle but its pool. *)
Definition only_pool (p q : memcached_st) : Prop :=
  q = p <| server_pool := server_pool q |> <| free_server := free_server q |>
        <| server_navail := server_navail q |>
        <| server_info_version := server_info_version q |>.

Lemma only_pool_refl p : only_pool p p.
Proof. by destruct p. Qed.

Lemma only_pool_trans p q r : only_pool p q -> only_pool q r -> only_pool p r.
Proof. unfold only_pool. intros -> ->. by destruct p. Qed.

Lemma only_pool_ntotal p q : only_pool p q -> server_ntotal q = server_ntotal p.
Proof. by intros ->. Qed.

Definition frame (others : list nat) (p q : memcached_st) : Prop :=
  only_pool p q /\ forall id, id ∈ others -> server_pool q !! id = server_pool p !! id.

Lemma frame_refl others p : frame others p p.
Proof. split; [apply only_pool_refl|done]. Qed.

Lemma frame_trans others p q r : frame others p q -> frame others q r -> frame others p r.
Proof.
  intros [Hp Hid] [Hq Hid']. split; [exact (only_pool_trans _ _ _ Hp Hq)|].
  intros id Hin. by rewrite Hid', Hid.
Qed.

(** Taking an unused server. *)
Lemma do_rgroup_server_alloc_ok memc used :
  pool_inv memc used -> Z.of_nat (length used) < server_ntotal memc ->
  exists id s unused,
    do_rgroup_server_alloc memc
      = Some (Some id, (memc <| free_server := next s |> <| server_navail ::= (fun n => n ⊟ 1) |>))
    /\ server_pool memc !! id = Some s /\ id ∉ used /\ id ∉ unused
    /\ chain (server_pool memc) (next s) unused /\ NoDup (unused ++ used)
    /\ (forall i, i ∈ dom (server_pool memc) -> i ∈ unused ++ id :: used)
    /\ server_navail memc = Z.of_nat (S (length unused))
    /\ server_ntotal memc = Z.of_nat (S (length (unused ++ used))).
Proof.
  intros [(unused & Hc & Hnd & Hdom & Hav & Htot) Hused Hb] Hlt.
  destruct unused as [|id unused]; [simpl in Htot; lia|].
  destruct Hc as [Hfree (s & Hs & Hc)]. simpl in Hnd. apply NoDup_cons in Hnd as [Hnew Hnd].
  rewrite elem_of_app in Hnew. unfold do_rgroup_server_alloc. rewrite Hfree, Hs.
  exists id, s, unused. split_and!; try done; [tauto|tauto|].
  intros i Hi. specialize (Hdom i Hi). set_solver.
Qed.

(** *** Creating and freeing a server of a group *)

Lemma new_group_server_ok memc g h p used :
  pool_inv memc used -> Z.of_nat (length used) < server_ntotal memc -> valid_name h ->
  exists memc' id s, new_group_server memc g h p = Some (Some id, memc')
    /\ pool_inv memc' (id :: used) /\ server_pool memc' !! id = Some s
    /\ endpoint s = (h, p) /\ fresh_server s /\ groupindex s = i32 (rgroup_groupindex g)
    /\ frame used memc memc' /\ id ∉ used.
Proof.
  intros Hinv Hlt Hname.
  destruct (do_rgroup_server_alloc_ok memc used Hinv Hlt)
    as (id & s & unused & Halloc & Hs & Hid & Hid' & Hc & Hnd & Hdom & Hav & Htot).
  destruct Hinv as [_ Hused Hb]. unfold new_group_server.
  destruct (valid_name_ok h Hname) as [-> ->]. cbn [negb]. rewrite Halloc. cbn [mbind option_bind].
  cbn [server_pool update]. rewrite Hs. cbn [mbind option_bind].
  eexists _, id, _. split; [reflexivity|]. cbn [server_pool update].
  rewrite lookup_insert_eq. split_and!; try reflexivity; try done.
  - split; cbn [server_pool free_server server_navail server_ntotal update].
    + exists unused. split_and!.
      * by apply chain_insert.
      * rewrite <-Permutation_middle. apply NoDup_cons. split; [|done].
        rewrite elem_of_app. tauto.
      * intros i. rewrite dom_insert, elem_of_union, elem_of_singleton. intros [->|Hi]; [set_solver|].
        by apply Hdom.
      * rewrite Hav, u32_small; [lia|]. rewrite length_app in Htot. lia.
      * rewrite Htot, <-Permutation_middle. done.
    + apply Forall_cons. split.
      * rewrite lookup_insert_eq. by eexists.
      * rewrite Forall_forall in Hused |- *. intros i Hi.
        rewrite lookup_insert_ne by (intros ->; done). by apply Hused.
    + done.
  - split; [by destruct memc|]. intros i Hi. cbn [server_pool update].
    rewrite lookup_insert_ne by (intros ->; done). done.
Qed.

#[export] Instance pool_inv_proper memc : Proper ((≡ₚ) ==> iff) (pool_inv memc).
Proof.
  assert (forall used used', used ≡ₚ used' -> pool_inv memc used -> pool_inv memc used') as Himp.
  { intros used used' Hp [(unused & Hc & Hnd & Hdom & Hav & Htot) Hused Hb].
    split; [|by rewrite <-Hp|done]. exists unused. rewrite <-Hp. by setoid_rewrite <-Hp. }
  intros used used' Hp. split; by apply Himp.
Qed.

Lemma chain_member pool free l id :
  chain pool free l -> id ∈ l -> is_Some (pool !! id).
Proof.
  revert free. induction l as [|i l IH]; intros free Hc Hid; [by apply not_elem_of_nil in Hid|].
  destruct Hc as [_ (s & Hs & Hc)]. apply elem_of_cons in Hid as [->|Hid]; [done|by eapply IH].
Qed.

Lemma free_group_server_ok memc id used :
  pool_inv memc (id :: used) ->
  exists memc' memc'', __server_free memc id = Some memc'
    /\ do_rgroup_server_free memc' id = Some memc''
    /\ pool_inv memc'' used /\ frame used memc memc''.
Proof.
  intros [(unused & Hc & Hnd & Hdom & Hav & Htot) Hused Hb].
  apply Forall_cons in Hused as [(s & Hs & Halloc) Hused].
  rewrite <-Permutation_middle in Hnd. apply NoDup_cons in Hnd as [Hid Hnd].
  rewrite elem_of_app in Hid. unfold __server_free. rewrite Hs. cbn [mbind option_bind].
  rewrite Halloc. eexists _, _. split; [reflexivity|]. unfold do_rgroup_server_free.
  cbn [server_pool update]. rewrite lookup_insert_eq. cbn [mbind option_bind].
  split; [reflexivity|].
  rewrite length_app in Htot. cbn [length] in Htot. split.
  - split; cbn [server_pool free_server server_navail server_ntotal update].
    + exists (id :: unused). rewrite insert_insert_eq. split_and!.
      * split; [done|]. eexists. split; [apply lookup_insert_eq|].
        apply chain_insert; [tauto|done].
      * simpl. apply NoDup_cons. split; [|done]. rewrite elem_of_app. tauto.
      * intros i. rewrite dom_insert, elem_of_union, elem_of_singleton.
        intros [->|Hi]; [by left|]. specialize (Hdom i Hi). set_solver.
      * rewrite Hav, u32_small by lia. simpl. lia.
      * simpl. rewrite length_app. lia.
    + rewrite Forall_forall in Hused |- *. intros i Hi. rewrite insert_insert_eq.
      rewrite lookup_insert_ne by (intros ->; tauto). by apply Hused.
    + done.
  - split; [by destruct memc|]. intros i Hi. cbn [server_pool update].
    rewrite insert_insert_eq, lookup_insert_ne by (intros ->; tauto). done.
Qed.

(** ** Groups and their servers *)

(** The replicas of a group are the servers [ids]. *)
Definition group_of (g : memcached_rgroup_st) (ids : list nat) : Prop :=
  replicas g = map Some ids ++ replicate (RGROUP_MAX_REPLICA - length ids) None
  /\ nreplica g = length ids /\ (length ids <= RGROUP_MAX_REPLICA)%nat.

Definition records (memc : memcached_st) : list nat -> list memcached_server_st -> Prop :=
  Forall2 (fun id s => server_pool memc !! id = Some s).

(** What the operations on a group keep: its replicas are servers of the pool,
    with the records [ss], none is shared with the [others], and they know the
    index of the group. *)
Definition group_state (memc : memcached_st) (g : memcached_rgroup_st) (others : list nat)
    (ss : list memcached_server_st) : Prop :=
  (exists ids, group_of g ids /\ pool_inv memc (ids ++ others) /\ records memc ids ss)
  /\ Forall (fun s => groupindex s = i32 (rgroup_groupindex g)) ss.

(** All but its replicas. *)
Definition same_group (g g' : memcached_rgroup_st) : Prop :=
  g' = g <| replicas := replicas g' |> <| nreplica := nreplica g' |>.

Lemma same_group_refl g : same_group g g.
Proof. by destruct g. Qed.

Lemma same_group_trans g g' g'' : same_group g g' -> same_group g' g'' -> same_group g g''.
Proof. unfold same_group. intros -> ->. by destruct g. Qed.

Lemma records_frame memc memc' ids ss :
  (forall id, id ∈ ids -> server_pool memc' !! id = server_pool memc !! id) ->
  records memc ids ss -> records memc' ids ss.
Proof.
  intros Hf Hr. induction Hr as [|id s ids ss Hs _ IH]; constructor.
  - rewrite Hf; [done|left].
  - apply IH. intros i Hi. apply Hf. by right.
Qed.

Lemma group_of_insert g ids id i :
  group_of g ids -> (length ids < RGROUP_MAX_REPLICA)%nat -> (i <= length ids)%nat ->
  group_of (g <| replicas ::= fun l =>
               take i l ++ Some id :: drop i (take (nreplica g) l) ++ drop (S (nreplica g)) l |>
              <| nreplica := S (nreplica g) |>) (take i ids ++ id :: drop i ids).
Proof.
  intros (Hr & Hn & Hlen) Hlt Hi. unfold group_of, RGROUP_MAX_REPLICA in *.
  cbn [replicas nreplica update]. rewrite Hr, Hn.
  destruct ids as [|a [|b [|c [|d ids]]]]; simpl in *; try lia;
    destruct i as [|[|[|i]]]; simpl; try lia; split_and!; done || lia.
Qed.

Lemma group_of_remove g ids i :
  group_of g ids -> (i < length ids)%nat ->
  group_of (g <| replicas ::= fun l =>
               take i l ++ drop (S i) (take (nreplica g) l) ++ None :: drop (nreplica g) l |>
              <| nreplica := (nreplica g - 1)%nat |>) (take i ids ++ drop (S i) ids).
Proof.
  intros (Hr & Hn & Hlen) Hi. unfold group_of, RGROUP_MAX_REPLICA in *.
  cbn [replicas nreplica update]. rewrite Hr, Hn.
  destruct ids as [|a [|b [|c [|d ids]]]]; simpl in *; try lia;
    destruct i as [|[|[|i]]]; simpl; try lia; split_and!; done || lia.
Qed.

Lemma group_of_lookup g ids i : group_of g ids -> (i < length ids)%nat ->
  exists id, ids !! i = Some id /\ replicas g !! i = Some (Some id).
Proof.
  intros (Hr & _ & _) Hi. destruct (lookup_lt_is_Some_2 ids i Hi) as [id Hid].
  exists id. split; [done|]. rewrite Hr, lookup_app_l by (by rewrite length_map).
  rewrite list_lookup_fmap. by rewrite Hid.
Qed.

(** *** The operations on one group *)

Section Operations.
Context (others : list nat).

Lemma group_state_length memc g ss : group_state memc g others ss -> nreplica g = length ss.
Proof. intros [(ids & (_ & -> & _) & _ & Hr) _]. by apply Forall2_length in Hr. Qed.

Lemma group_state_bound memc g ss : group_state memc g others ss -> (length ss <= 3)%nat.
Proof.
  intros [(ids & (_ & _ & Hlen) & _ & Hr) _]. by rewrite <-(Forall2_length _ _ _ Hr).
Qed.

Lemma insert_ok memc g ss i h p :
  group_state memc g others ss -> (length ss < 3)%nat -> (i <= length ss)%nat -> valid_name h ->
  Z.of_nat (length ss + length others) < server_ntotal memc ->
  exists memc' g' s, do_rgroup_server_insert memc g (Some i) h p = Some (memc', g')
    /\ group_state memc' g' others (take i ss ++ s :: drop i ss)
    /\ endpoint s = (h, p) /\ fresh_server s /\ frame others memc memc' /\ same_group g g'.
Proof.
  intros [(ids & Hg & Hinv & Hr) Hidx] Hlt Hi Hname Htot.
  pose proof (Forall2_length _ _ _ Hr) as Hlen. destruct (id Hg) as (_ & Hn & _).
  destruct (new_group_server_ok memc g h p (ids ++ others) Hinv)
    as (memc' & id & s & Hnew & Hinv' & Hs & He & Hf & Hsidx & [Ho Hkeep] & Hid);
    [by rewrite length_app, Hlen|done|].
  unfold do_rgroup_server_insert. cbn [default].
  rewrite (proj2 (Nat.ltb_lt _ _)) by (rewrite Hn, Hlen; done).
  rewrite (proj2 (Nat.leb_le _ _)) by (rewrite Hn, Hlen; done).
  cbn [negb andb]. rewrite Hnew. cbn [mbind option_bind].
  eexists _, _, s. split; [reflexivity|]. split_and!; [|done..| |by destruct g].
  - split.
    2:{ apply Forall_app. split; [by apply Forall_take|].
        apply Forall_cons. split; [done|by apply Forall_drop]. }
    exists (take i ids ++ id :: drop i ids). split_and!.
    + apply group_of_insert; [done|unfold RGROUP_MAX_REPLICA; lia|lia].
    + rewrite <-Permutation_middle, take_drop. done.
    + apply Forall2_app; [|constructor; [done|]];
        [apply Forall2_take|apply Forall2_drop];
        (eapply records_frame; [|exact Hr]); intros j Hj; apply Hkeep, elem_of_app; by left.
  - split; [done|]. intros j Hj. apply Hkeep, elem_of_app. by right.
Qed.

Lemma remove_ok memc g ss i :
  group_state memc g others ss -> (i < length ss)%nat ->
  exists memc' g', do_rgroup_server_remove memc g i = Some (memc', g')
    /\ group_state memc' g' others (take i ss ++ drop (S i) ss)
    /\ frame others memc memc' /\ same_group g g'.
Proof.
  intros [(ids & Hg & Hinv & Hr) Hidx] Hi.
  pose proof (Forall2_length _ _ _ Hr) as Hlen. destruct (id Hg) as (_ & Hn & _).
  destruct (group_of_lookup g ids i Hg ltac:(lia)) as (id & Hid & Hrep).
  rewrite <-(take_drop_middle ids i id Hid), <-app_assoc in Hinv. cbn [app] in Hinv.
  rewrite <-Permutation_middle, app_assoc in Hinv.
  destruct (free_group_server_ok memc id _ Hinv) as (memc' & memc'' & Hfree & Hlist & Hinv' & Ho & Hkeep).
  unfold do_rgroup_server_remove.
  rewrite (proj2 (Nat.ltb_lt _ _)) by (rewrite Hn, Hlen; done).
  cbn [negb]. rewrite Hrep. cbn [mbind option_bind]. rewrite Hfree. cbn [mbind option_bind].
  rewrite Hlist. cbn [mbind option_bind].
  eexists _, _. split; [reflexivity|]. split_and!; [| |by destruct g].
  - split; [|apply Forall_app; split; [by apply Forall_take|by apply Forall_drop]].
    exists (take i ids ++ drop (S i) ids). split_and!.
    + apply group_of_remove; [done|lia].
    + done.
    + apply (records_frame memc).
      * intros j Hj. apply Hkeep, elem_of_app. by left.
      * apply Forall2_app; [by apply Forall2_take|by apply Forall2_drop].
  - split; [done|]. intros j Hj. apply Hkeep, elem_of_app. by right.
Qed.

Lemma group_of_replace g ids id i :
  group_of g ids -> (i < length ids)%nat ->
  group_of (g <| replicas ::= <[i := Some id]> |>) (<[i := id]> ids).
Proof.
  intros (Hr & Hn & Hlen) Hi. unfold group_of. cbn [replicas nreplica update].
  rewrite length_insert. split_and!; [|done..].
  rewrite Hr, insert_app_l by (by rewrite length_map). f_equal. symmetry. apply list_fmap_insert.
Qed.

Lemma replace_ok memc g ss i h p :
  group_state memc g others ss -> (i < length ss)%nat -> valid_name h ->
  Z.of_nat (length ss + length others) < server_ntotal memc ->
  exists memc' g' s, do_rgroup_server_replace memc g i h p = Some (memc', g')
    /\ group_state memc' g' others (<[i := s]> ss)
    /\ endpoint s = (h, p) /\ fresh_server s /\ frame others memc memc' /\ same_group g g'.
Proof.
  intros [(ids & Hg & Hinv & Hr) Hidx] Hi Hname Htot.
  pose proof (Forall2_length _ _ _ Hr) as Hlen. destruct (id Hg) as (_ & Hn & _).
  destruct (new_group_server_ok memc g h p (ids ++ others) Hinv)
    as (memc' & id & s & Hnew & Hinv' & Hs & He & Hf & Hsidx & [Ho Hkeep] & Hid);
    [by rewrite length_app, Hlen|done|].
  destruct (group_of_lookup g ids i Hg ltac:(lia)) as (old & Hold & Hrep).
  assert (pool_inv memc' (old :: <[i := id]> ids ++ others)) as Hinv2.
  { revert Hinv'. rewrite <-(take_drop_middle ids i old Hold) at 1.
    rewrite (insert_take_drop ids i id) by lia. rewrite <-!app_assoc. cbn [app].
    rewrite <-!Permutation_middle. intros Hinv'. by rewrite Permutation_swap. }
  destruct (free_group_server_ok memc' old _ Hinv2) as (memc2 & memc3 & Hfree & Hlist & Hinv3 & Ho3 & Hkeep3).
  unfold do_rgroup_server_replace.
  rewrite (proj2 (Nat.ltb_lt _ _)) by (rewrite Hn, Hlen; done).
  cbn [negb]. rewrite Hnew. cbn [mbind option_bind]. rewrite Hrep. cbn [mbind option_bind].
  rewrite Hfree. cbn [mbind option_bind]. rewrite Hlist. cbn [mbind option_bind].
  eexists _, _, s. split; [reflexivity|]. split_and!; [|done..| |by destruct g].
  - split; [|by apply Forall_insert].
    exists (<[i := id]> ids). split_and!; [apply group_of_replace; [done|lia]|done|].
    apply (records_frame memc').
    + intros j Hj. apply Hkeep3, elem_of_app. by left.
    + apply Forall2_insert; [|done]. apply (records_frame memc); [|done].
      intros j Hj. apply Hkeep, elem_of_app. by left.
  - split; [exact (only_pool_trans _ _ _ Ho Ho3)|]. intros j Hj.
    rewrite Hkeep3, Hkeep by (apply elem_of_app; by right). done.
Qed.

Lemma group_of_swap g ids id id0 i :
  group_of g ids -> (i < length ids)%nat ->
  group_of (g <| replicas ::= fun l => <[i := Some id0]> (<[0%nat := Some id]> l) |>)
    (<[i := id0]> (<[0%nat := id]> ids)).
Proof.
  intros (Hr & Hn & Hlen) Hi. unfold group_of. cbn [replicas nreplica update].
  rewrite !length_insert. split_and!; [|done..].
  rewrite Hr, !insert_app_l by (rewrite ?length_insert, length_map; lia). f_equal.
  change (map Some) with (fmap (M:=list) (@Some nat)). by rewrite !list_fmap_insert.
Qed.

Lemma switchover_ok memc g ss i s0 s :
  group_state memc g others ss -> ss !! 0%nat = Some s0 -> ss !! i = Some s -> (0 < i)%nat ->
  exists g', do_rgroup_server_switchover g i = Some g'
    /\ group_state memc g' others (<[i := s0]> (<[0%nat := s]> ss)) /\ same_group g g'.
Proof.
  intros [(ids & Hg & Hinv & Hr) Hidx] Hs0 Hs Hi.
  pose proof (lookup_lt_Some _ _ _ Hs) as Hlt. rewrite <-(Forall2_length _ _ _ Hr) in Hlt.
  destruct (id Hg) as (_ & Hn & _).
  destruct (group_of_lookup g ids i Hg Hlt) as (id & Hid & Hrep).
  destruct (group_of_lookup g ids 0 Hg ltac:(lia)) as (id0 & Hid0 & Hrep0).
  unfold do_rgroup_server_switchover.
  rewrite (proj2 (Nat.ltb_lt 0 _)), (proj2 (Nat.ltb_lt i _)) by (rewrite ?Hn; done).
  cbn [negb andb]. rewrite Hrep0, Hrep. cbn [mbind option_bind].
  eexists. split; [reflexivity|]. split; [|by destruct g].
  split.
  2:{ pose proof Hidx as Hidx'. rewrite Forall_forall in Hidx'.
      apply Forall_insert; [apply Forall_insert; [done|]|]; apply Hidx'; by eapply list_elem_of_lookup_2. }
  exists (<[i := id0]> (<[0%nat := id]> ids)). split_and!.
  - by apply group_of_swap.
  - by rewrite (Permutation_insert_swap ids 0 i id0 id).
  - apply Forall2_insert.
    + apply Forall2_insert; [done|]. exact (Forall2_lookup_lr _ _ _ _ _ _ Hr Hid Hs).
    + exact (Forall2_lookup_lr _ _ _ _ _ _ Hr Hid0 Hs0).
Qed.

(** *** The loops *)

Definition valid_endpoint (ep : bytes * Z) : Prop := valid_name (fst ep).

Lemma server_is_same_ok memc g ss n s ep :
  group_state memc g others ss -> ss !! n = Some s ->
  server_is_same memc g n ep = Some (bool_decide (endpoint s = ep)).
Proof.
  intros [(ids & Hg & _ & Hr) _] Hs. unfold server_is_same.
  destruct (Forall2_lookup_r _ _ _ _ _ Hr Hs) as (id & Hid & Hpool).
  destruct (group_of_lookup g ids n Hg) as (id' & Hid' & ->); [by apply lookup_lt_Some in Hid|].
  simplify_eq. cbn [mbind option_bind]. rewrite Hpool. cbn [mbind option_bind]. f_equal.
  destruct ep as [h p]. unfold endpoint. cbn [fst snd].
  apply eq_true_iff_eq. rewrite andb_true_iff, !bool_decide_eq_true, strcmp_eq, Z.eqb_eq.
  split; [by intros [-> ->]|by intros [= -> ->]].
Qed.

Lemma find_replica_ok memc g ss ep n k :
  group_state memc g others ss -> length ss = (k + n)%nat ->
  find_replica memc g (seq k n) ep = Some None
  \/ exists i s, find_replica memc g (seq k n) ep = Some (Some i)
       /\ (k <= i)%nat /\ ss !! i = Some s /\ endpoint s = ep.
Proof.
  intros Hst. revert k. induction n as [|n IH]; intros k Hlen; simpl; [by left|].
  destruct (lookup_lt_is_Some_2 ss k ltac:(lia)) as [s Hs].
  rewrite (server_is_same_ok memc g ss k s ep Hst Hs). cbn [mbind option_bind].
  case_bool_decide as E.
  - right. by exists k, s.
  - destruct (IH (S k) ltac:(lia)) as [?|(i & s' & ? & ? & ? & ?)]; [by left|].
    right. exists i, s'. split_and!; [done|lia|done..].
Qed.

Lemma insert_servers_ok eps memc g ss :
  group_state memc g others ss -> (length ss + length eps <= 3)%nat ->
  Forall valid_endpoint eps -> Z.of_nat (3 + length others) <= server_ntotal memc ->
  exists memc' g' new, insert_servers memc g (length ss) eps = Some (memc', g')
    /\ group_state memc' g' others (ss ++ new) /\ map endpoint new = eps
    /\ Forall fresh_server new /\ frame others memc memc' /\ same_group g g'.
Proof.
  revert memc g ss. induction eps as [|[h p] eps IH]; intros memc g ss Hst Hlen Hv Htot.
  { exists memc, g, []. rewrite app_nil_r.
    split_and!; [done..|constructor|apply frame_refl|apply same_group_refl]. }
  apply Forall_cons in Hv as [Hh Hv]. cbn [length] in Hlen. cbn [insert_servers fst snd].
  destruct (insert_ok memc g ss (length ss) h p Hst) as (m1 & g1 & s & -> & Hst1 & He & Hf & Hfr & Hsg);
    [lia|lia|done|lia|].
  cbn [mbind option_bind]. rewrite firstn_all, drop_all in Hst1.
  destruct (IH m1 g1 (ss ++ [s]) Hst1) as (m2 & g2 & new & Hins & Hst2 & He2 & Hf2 & Hfr2 & Hsg2);
    [rewrite length_app; simpl; lia|done|by rewrite (only_pool_ntotal _ _ (proj1 Hfr))|].
  rewrite length_app, Nat.add_1_r in Hins.
  exists m2, g2, (s :: new). split; [done|]. rewrite <-app_assoc in Hst2.
  split_and!; [done|simpl; by rewrite He, He2|by constructor| |].
  - exact (frame_trans _ _ _ _ Hfr Hfr2).
  - exact (same_group_trans _ _ _ Hsg Hsg2).
Qed.

Lemma remove_replicas_ok fuel n memc g ss :
  group_state memc g others ss -> (length ss <= fuel + n)%nat ->
  exists memc' g', remove_replicas fuel memc g n = Some (memc', g')
    /\ group_state memc' g' others (take n ss) /\ frame others memc memc' /\ same_group g g'.
Proof.
  revert memc g ss. induction fuel as [|fuel IH]; intros memc g ss Hst Hlen; cbn [remove_replicas];
    rewrite (group_state_length _ _ _ Hst); destruct (Nat.ltb_spec n (length ss)) as [Hlt|Hge].
  - lia.
  - exists memc, g. rewrite take_ge by lia.
    split_and!; [done..|apply frame_refl|apply same_group_refl].
  - destruct (remove_ok memc g ss (length ss - 1) Hst) as (m1 & g1 & -> & Hst1 & Hfr & Hsg); [lia|].
    cbn [mbind option_bind]. rewrite drop_ge, app_nil_r in Hst1 by lia.
    destruct (IH m1 g1 _ Hst1) as (m2 & g2 & Hrem & Hst2 & Hfr2 & Hsg2); [rewrite length_take; lia|].
    rewrite take_take, Nat.min_l in Hst2 by lia.
    exists m2, g2. split_and!; [done..| |].
    + exact (frame_trans _ _ _ _ Hfr Hfr2).
    + exact (same_group_trans _ _ _ Hsg Hsg2).
  - exists memc, g. rewrite take_ge by lia.
    split_and!; [done..|apply frame_refl|apply same_group_refl].
Qed.

(** The new slaves that are not marked. *)
Definition unmarked (slaves : list ((bytes * Z) * bool)) : list (bytes * Z) :=
  map fst (filter (fun o => snd o = false) slaves).

Lemma unmarked_cons ep (b : bool) slaves :
  unmarked ((ep, b) :: slaves) = if b then unmarked slaves else ep :: unmarked slaves.
Proof.
  unfold unmarked. destruct b; [by rewrite filter_cons_False|by rewrite filter_cons_True].
Qed.

Lemma mark_slave_ok memc g ss n s slaves :
  group_state memc g others ss -> ss !! n = Some s ->
  mark_slave memc g n slaves = Some None /\ endpoint s ∉ unmarked slaves
  \/ exists slaves', mark_slave memc g n slaves = Some (Some slaves')
       /\ unmarked slaves ≡ₚ endpoint s :: unmarked slaves'.
Proof.
  intros Hst Hs. induction slaves as [|[ep [|]] slaves IH]; cbn [mark_slave].
  - left. split; [done|apply not_elem_of_nil].
  - rewrite unmarked_cons. destruct IH as [[-> ?]|(slaves' & -> & ?)]; cbn [mbind option_bind].
    + by left.
    + right. eexists. split; [done|]. by rewrite unmarked_cons.
  - rewrite unmarked_cons, (server_is_same_ok memc g ss n s ep Hst Hs). cbn [mbind option_bind].
    case_bool_decide as E.
    + right. eexists. split; [done|]. by rewrite unmarked_cons, E.
    + destruct IH as [[-> ?]|(slaves' & -> & Hp)]; cbn [mbind option_bind].
      * left. split; [done|]. by apply not_elem_of_cons.
      * right. eexists. split; [done|]. rewrite unmarked_cons, Hp. apply Permutation_swap.
Qed.

Lemma remove_slaves_ok fuel rest memc g front slaves changed :
  group_state memc g others (front ++ rest) -> (length rest <= fuel)%nat ->
  exists memc' g' kept slaves' changed',
    remove_slaves fuel memc g (length front) slaves changed = Some (memc', g', slaves', changed')
    /\ group_state memc' g' others (front ++ kept) /\ sublist kept rest
    /\ unmarked slaves ≡ₚ map endpoint kept ++ unmarked slaves'
    /\ (changed' = false -> changed = false /\ kept = rest /\ memc' = memc /\ g' = g)
    /\ frame others memc memc' /\ same_group g g'.
Proof.
  revert fuel memc g front slaves changed.
  induction rest as [|s rest IH]; intros fuel memc g front slaves changed Hst Hfuel.
  - destruct fuel; cbn [remove_slaves]; rewrite (group_state_length _ _ _ Hst), app_nil_r, Nat.ltb_irrefl;
      exists memc, g, [], slaves, changed; rewrite app_nil_r in *;
      split_and!; try done; [apply frame_refl|apply same_group_refl|apply frame_refl|apply same_group_refl].
  - destruct fuel as [|fuel]; [simpl in Hfuel; lia|]. cbn [remove_slaves].
    rewrite (group_state_length _ _ _ Hst), length_app.
    rewrite (proj2 (Nat.ltb_lt _ _)) by (simpl; lia).
    destruct (mark_slave_ok memc g (front ++ s :: rest) (length front) s slaves Hst)
      as [[-> Hno]|(slaves1 & -> & Hp)]; [by apply list_lookup_middle|..]; cbn [mbind option_bind].
    + destruct (remove_ok memc g (front ++ s :: rest) (length front) Hst)
        as (m1 & g1 & -> & Hst1 & Hfr & Hsg); [rewrite length_app; simpl; lia|].
      cbn [mbind option_bind].
      rewrite take_app_length, drop_app, drop_ge, Nat.sub_succ_l, Nat.sub_diag in Hst1 by lia.
      cbn [drop app] in Hst1.
      destruct (IH fuel m1 g1 front slaves true Hst1) as
        (m2 & g2 & kept & slaves2 & c2 & Hrem & Hst2 & Hsub & Hperm & Hch & Hfr2 & Hsg2);
        [simpl in Hfuel; lia|].
      exists m2, g2, kept, slaves2, c2. split_and!; try done.
      * by constructor.
      * intros E. by destruct (Hch E).
      * exact (frame_trans _ _ _ _ Hfr Hfr2).
      * exact (same_group_trans _ _ _ Hsg Hsg2).
    + rewrite (cons_middle s front rest), app_assoc in Hst.
      destruct (IH fuel memc g (front ++ [s]) slaves1 changed Hst) as
        (m2 & g2 & kept & slaves2 & c2 & Hrem & Hst2 & Hsub & Hperm & Hch & Hfr2 & Hsg2);
        [simpl in Hfuel; lia|].
      rewrite length_app, Nat.add_1_r in Hrem.
      exists m2, g2, (s :: kept), slaves2, c2. split_and!; try done.
      * by rewrite <-app_assoc in Hst2.
      * by constructor.
      * rewrite Hp, Hperm. done.
      * intros E. destruct (Hch E) as (? & -> & ? & ?). done.
Qed.

Lemma insert_slaves_ok slaves memc g ss changed :
  group_state memc g others ss -> (length ss + length (unmarked slaves) <= 3)%nat ->
  Forall valid_endpoint (unmarked slaves) -> Z.of_nat (3 + length others) <= server_ntotal memc ->
  exists memc' g' new changed', insert_slaves memc g slaves changed = Some (memc', g', changed')
    /\ group_state memc' g' others (ss ++ new) /\ map endpoint new = unmarked slaves
    /\ Forall fresh_server new
    /\ (changed' = false -> changed = false /\ new = [] /\ memc' = memc /\ g' = g)
    /\ frame others memc memc' /\ same_group g g'.
Proof.
  revert memc g ss changed.
  induction slaves as [|[[h p] [|]] slaves IH]; intros memc g ss changed Hst Hlen Hv Htot;
    cbn [insert_slaves].
  - exists memc, g, [], changed. rewrite app_nil_r.
    split_and!; [done..|constructor|done|apply frame_refl|apply same_group_refl].
  - rewrite unmarked_cons in *. by apply IH.
  - rewrite unmarked_cons in *. apply Forall_cons in Hv as [Hh Hv]. cbn [length] in Hlen.
    destruct (insert_ok memc g ss (length ss) h p Hst) as (m1 & g1 & s & Hins & Hst1 & He & Hf & Hfr & Hsg);
      [lia|lia|done|lia|].
    assert (do_rgroup_server_insert memc g None h p = Some (m1, g1)) as Hins'.
    { rewrite <-Hins, <-(group_state_length _ _ _ Hst). done. }
    cbn [fst snd]. rewrite Hins'. cbn [mbind option_bind]. rewrite firstn_all, drop_all in Hst1.
    destruct (IH m1 g1 (ss ++ [s]) true Hst1) as
      (m2 & g2 & new & c2 & Hloop & Hst2 & He2 & Hf2 & Hch & Hfr2 & Hsg2);
      [rewrite length_app; simpl; lia|done|by rewrite (only_pool_ntotal _ _ (proj1 Hfr))|].
    exists m2, g2, (s :: new), c2. rewrite <-app_assoc in Hst2.
    split_and!; [done|done|simpl; by rewrite He, He2|by constructor| | |].
    + intros E. by destruct (Hch E).
    + exact (frame_trans _ _ _ _ Hfr Hfr2).
    + exact (same_group_trans _ _ _ Hsg Hsg2).
Qed.

(** *** The whole update *)

(** What the update of a group promises: the servers become the new ones, the
    master first; they were there or are new; and when no change is reported
    nothing changed. *)
Definition group_updated (memc : memcached_st) (g : memcached_rgroup_st)
    (ss : list memcached_server_st) (master : bytes * Z) (slaves : list (bytes * Z))
    (memc' : memcached_st) (g' : memcached_rgroup_st) (changed : bool) : Prop :=
  frame others memc memc' /\ same_group g g'
  /\ exists s ss', group_state memc' g' others (s :: ss')
       /\ endpoint s = master /\ map endpoint ss' ≡ₚ slaves
       /\ Forall (fun t => t ∈ ss \/ fresh_server t) (s :: ss')
       /\ (changed = false -> s :: ss' = ss /\ memc' = memc /\ g' = g).

Lemma sublist_Forall {A} (P : A -> Prop) l l' : sublist l l' -> Forall P l' -> Forall P l.
Proof.
  intros Hs. rewrite !Forall_forall. intros HP t Ht. apply HP.
  by eapply elem_of_submseteq, sublist_submseteq.
Qed.

(** Putting the new master in front. *)
Lemma promote_master memc g s0 rest master :
  group_state memc g others (s0 :: rest) -> valid_endpoint master ->
  Z.of_nat (3 + length others) < server_ntotal memc ->
  exists memc' g' s rest',
    (if bool_decide (endpoint s0 = master) then Some (memc, g)
     else
       found ← find_replica memc g (seq 1 (nreplica g - 1)) master;
       match found with
       | Some i => g ← do_rgroup_server_switchover g i; Some (memc, g)
       | None => do_rgroup_server_replace memc g 0 (fst master) (snd master)
       end) = Some (memc', g')
    /\ group_state memc' g' others (s :: rest') /\ endpoint s = master
    /\ length rest' = length rest
    /\ Forall (fun t => t ∈ s0 :: rest \/ fresh_server t) (s :: rest')
    /\ (endpoint s0 = master -> s = s0 /\ rest' = rest /\ memc' = memc /\ g' = g)
    /\ frame others memc memc' /\ same_group g g'.
Proof.
  intros Hst Hv Htot. case_bool_decide as E.
  { exists memc, g, s0, rest. split_and!; try done; [|apply frame_refl|apply same_group_refl].
    apply Forall_forall. by left. }
  pose proof (group_state_length _ _ _ Hst) as Hn. rewrite Hn. cbn [length].
  replace (S (length rest) - 1)%nat with (length rest) by lia.
  destruct (find_replica_ok memc g (s0 :: rest) master (length rest) 1 Hst)
    as [->|(i & s & -> & Hi & Hs & Hse)]; [done|..]; cbn [mbind option_bind].
  - pose proof (group_state_bound _ _ _ Hst) as Hb. cbn [length] in Hb.
    destruct (replace_ok memc g (s0 :: rest) 0 (fst master) (snd master) Hst)
      as (m1 & g1 & s & Hrep & Hst1 & He & Hf & Hfr & Hsg); [simpl; lia|done|simpl; lia|].
    exists m1, g1, s, rest. split_and!; try done; [by destruct master|].
    apply Forall_cons. split; [by right|]. apply Forall_forall. intros t Ht. left. by right.
  - destruct (switchover_ok memc g (s0 :: rest) i s0 s Hst eq_refl Hs) as (g1 & -> & Hst1 & Hsg); [lia|].
    destruct i as [|i]; [lia|]. cbn [mbind option_bind]. exists memc, g1, s, (<[i := s0]> rest).
    split_and!; try done; [by rewrite length_insert| |apply frame_refl].
    simpl in Hs. apply Forall_cons. split.
    + left. right. by eapply list_elem_of_lookup_2.
    + apply Forall_insert; [|left; left]. apply Forall_forall. intros t Ht. left. by right.
Qed.

Lemma update_rgroup_ok memc g ss master slaves :
  group_state memc g others ss -> ss <> [] -> (length slaves <= 2)%nat ->
  Forall valid_endpoint (master :: slaves) ->
  Z.of_nat (3 + length others) < server_ntotal memc ->
  exists memc' g' changed, update_rgroup memc g (master :: slaves) = Some (memc', g', changed)
    /\ group_updated memc g ss master slaves memc' g' changed.
Proof.
  intros Hst Hne Hlen Hv Htot. apply Forall_cons in Hv as [Hm Hv].
  destruct ss as [|s0 rest]; [done|]. unfold update_rgroup.
  rewrite (group_state_length _ _ _ Hst), (server_is_same_ok memc g _ 0 s0 master Hst eq_refl).
  cbn [length mbind option_bind]. destruct rest as [|s1 rest].
  - cbn [Nat.eqb length].
    assert (exists m1 g1 s, (if bool_decide (endpoint s0 = master) then Some (memc, g)
              else do_rgroup_server_replace memc g 0 (fst master) (snd master)) = Some (m1, g1)
      /\ group_state m1 g1 others [s] /\ endpoint s = master /\ (s = s0 \/ fresh_server s)
      /\ (endpoint s0 = master -> s = s0 /\ m1 = memc /\ g1 = g)
      /\ frame others memc m1 /\ same_group g g1)
      as (m1 & g1 & s & -> & Hst1 & He & Hor & Hsame & Hfr & Hsg).
    { case_bool_decide as E.
      - exists memc, g, s0. split_and!; try done; [by left|apply frame_refl|apply same_group_refl].
      - destruct (replace_ok memc g [s0] 0 (fst master) (snd master) Hst)
          as (m1 & g1 & s & Hrep & Hst1 & He & Hf & Hfr & Hsg); [simpl; lia|done|simpl; lia|].
        exists m1, g1, s. split_and!; try done; [by destruct master|by right]. }
    cbn [mbind option_bind].
    destruct (insert_servers_ok slaves m1 g1 [s] Hst1) as
      (m2 & g2 & new & Hins & Hst2 & Hne2 & Hf2 & Hfr2 & Hsg2);
      [simpl; lia|done|rewrite (only_pool_ntotal _ _ (proj1 Hfr)); lia|].
    cbn [length] in Hins. rewrite Hins. cbn [mbind option_bind]. eexists m2, g2, _. split; [done|].
    split; [exact (frame_trans _ _ _ _ Hfr Hfr2)|]. split; [exact (same_group_trans _ _ _ Hsg Hsg2)|].
    exists s, new. split_and!; [done|done|by rewrite Hne2| |].
    + apply Forall_cons. split; [destruct Hor as [->|]; [left; left|by right]|].
      eapply Forall_impl; [exact Hf2|]. by right.
    + intros [E%negb_false_iff%bool_decide_eq_true Hsl]%orb_false_iff.
      destruct slaves; [|done]. destruct (Hsame E) as (-> & -> & ->).
      injection Hins as <- <-. apply map_eq_nil in Hne2. by rewrite Hne2.
  - cbn [Nat.eqb length].
    destruct (promote_master memc g s0 (s1 :: rest) master Hst Hm Htot)
      as (m1 & g1 & s & rest' & Hpro & Hst1 & He & Hlen1 & Hor & Hsame & Hfr & Hsg).
    rewrite (group_state_length _ _ _ Hst) in Hpro. cbn [length] in Hpro. rewrite Hpro. clear Hpro.
    cbn [mbind option_bind]. destruct slaves as [|sl slaves].
    + destruct (remove_replicas_ok (nreplica g1) 1 m1 g1 (s :: rest') Hst1) as
        (m2 & g2 & -> & Hst2 & Hfr2 & Hsg2); [rewrite (group_state_length _ _ _ Hst1); lia|].
      cbn [mbind option_bind]. eexists m2, g2, _. split; [done|].
      split; [exact (frame_trans _ _ _ _ Hfr Hfr2)|]. split; [exact (same_group_trans _ _ _ Hsg Hsg2)|].
      exists s, []. split_and!; try done. apply Forall_cons in Hor as [Hor _]. by constructor.
    + set (new := sl :: slaves) in *.
      destruct (remove_slaves_ok (nreplica g1) rest' m1 g1 [s] (map (fun o => (o, false)) new)
        (negb (bool_decide (endpoint s0 = master))) Hst1) as
        (m2 & g2 & kept & slaves2 & c2 & Hrem & Hst2 & Hsub & Hperm & Hch & Hfr2 & Hsg2);
        [rewrite (group_state_length _ _ _ Hst1); simpl; lia|].
      cbn [length] in Hrem. rewrite Hrem. cbn [mbind option_bind].
      assert (unmarked (map (fun o => (o, false)) new) = new) as Hun.
      { clear. induction new as [|o l IH]; [done|]. cbn [map]. by rewrite unmarked_cons, IH. }
      rewrite Hun in Hperm. pose proof (Permutation_length Hperm) as Hpl.
      rewrite length_app, length_map in Hpl.
      destruct (insert_slaves_ok slaves2 m2 g2 (s :: kept) c2 Hst2) as
        (m3 & g3 & add & c3 & Hins & Hst3 & He3 & Hf3 & Hch3 & Hfr3 & Hsg3).
      * simpl. lia.
      * rewrite Hperm, Forall_app in Hv. tauto.
      * rewrite (only_pool_ntotal _ _ (proj1 Hfr2)), (only_pool_ntotal _ _ (proj1 Hfr)). lia.
      * exists m3, g3, c3. split; [exact Hins|].
        split; [exact (frame_trans _ _ _ _ (frame_trans _ _ _ _ Hfr Hfr2) Hfr3)|].
        split; [exact (same_group_trans _ _ _ (same_group_trans _ _ _ Hsg Hsg2) Hsg3)|].
        exists s, (kept ++ add). split_and!; [done|done|by rewrite map_app, He3| |].
        -- apply Forall_cons in Hor as [Hor Hor']. apply Forall_cons. split; [done|].
           apply Forall_app. split; [by eapply sublist_Forall|].
           eapply Forall_impl; [exact Hf3|]. by right.
        -- intros E. destruct (Hch3 E) as (Ec & -> & -> & ->).
           destruct (Hch Ec) as (E0 & -> & -> & ->).
           apply negb_false_iff, bool_decide_eq_true in E0.
           destruct (Hsame E0) as (-> & -> & -> & ->). by rewrite app_nil_r.
Qed.
End Operations.
