(* ===== verification/RgroupInfo.v ===== *)
(** What [memcached_rgroup_info_create] of rgroup.cc computes: the groups of a
    list of servers, which of them are valid, and the count it returns. *)
From S2P Require Import Prelude HashFunctions Hashkit Memcached KeyHash Continuum Distribution.
From S2P Require Import ServerList Rgroup.

(** ** The groups of a list of servers *)

Definition masters (ms : list memcached_server_info_st) : list memcached_server_info_st :=
  filter (fun s => info_master s = true) ms.
Definition slaves (ms : list memcached_server_info_st) : list memcached_server_info_st :=
  filter (fun s => info_master s = false) ms.

(** A master that has the endpoint of a slave listed before it. *)
Fixpoint duplicate_before (seen ms : list memcached_server_info_st) : bool :=
  match ms with
  | [] => false
  | s :: ms =>
      (info_master s
       && existsb (fun t => negb (info_master t)
                            && bool_decide (info_endpoint s = info_endpoint t)) seen)
      || duplicate_before (seen ++ [s]) ms
  end.

(** What the members of a group that is not found invalid satisfy. *)
Definition members_ok (ms : list memcached_server_info_st) : bool :=
  (length (masters ms) <=? 1)%nat && (length (slaves ms) <=? 2)%nat
  && negb (duplicate_before [] ms).

(** The replicas of a group with these members: the master, NULL when there is
    none, and the slaves in the order of the list. *)
Definition replicas_of (ms : list memcached_server_info_st)
    : list (option memcached_server_info_st) :=
  head (masters ms) :: map Some (slaves ms) ++ replicate (2 - length (slaves ms)) None.

Definition group_members (name : bytes) (serverinfo : list memcached_server_info_st)
    : list memcached_server_info_st :=
  filter (fun s => info_groupname s = name) serverinfo.

(** What is known of a group when its members up to now are [ms]. *)
Definition collected (g : memcached_rgroup_info_st) (ms : list memcached_server_info_st) : Prop :=
  valid g = members_ok ms
  /\ (valid g = true -> info_replicas g = replicas_of ms /\ info_nreplica g = length ms)
  /\ length (info_replicas g) = RGROUP_MAX_REPLICA.

Lemma duplicate_before_snoc seen ms s :
  duplicate_before seen (ms ++ [s]) =
  duplicate_before seen ms
  || (info_master s && existsb (fun t => negb (info_master t)
                                 && bool_decide (info_endpoint s = info_endpoint t)) (seen ++ ms)).
Proof.
  revert seen. induction ms as [|m ms IH]; intros seen; simpl.
  - by rewrite app_nil_r, orb_false_r.
  - rewrite IH, <-app_assoc. by rewrite orb_assoc.
Qed.

Lemma members_split ms : length ms = (length (masters ms) + length (slaves ms))%nat.
Proof.
  induction ms as [|s ms IH]; [done|]. unfold masters, slaves in *.
  destruct (info_master s) eqn:E.
  - rewrite filter_cons_True, filter_cons_False by congruence. simpl. lia.
  - rewrite filter_cons_False, filter_cons_True by congruence. simpl. lia.
Qed.

Lemma masters_snoc ms s :
  masters (ms ++ [s]) = masters ms ++ (if info_master s then [s] else []).
Proof.
  unfold masters. rewrite filter_app. f_equal. destruct (info_master s) eqn:E.
  - by rewrite filter_cons_True.
  - by rewrite filter_cons_False by congruence.
Qed.

Lemma slaves_snoc ms s :
  slaves (ms ++ [s]) = slaves ms ++ (if info_master s then [] else [s]).
Proof.
  unfold slaves. rewrite filter_app. f_equal. destruct (info_master s) eqn:E.
  - by rewrite filter_cons_False by congruence.
  - by rewrite filter_cons_True.
Qed.

(** A group that is found invalid stays invalid. *)
Lemma members_ok_snoc_false ms s : members_ok ms = false -> members_ok (ms ++ [s]) = false.
Proof.
  unfold members_ok. rewrite masters_snoc, slaves_snoc, duplicate_before_snoc, !length_app.
  rewrite !andb_false_iff, !Nat.leb_gt, !negb_false_iff, orb_true_iff.
  intros [[H|H]|H]; [left; left; lia|left; right; lia|by right; left].
Qed.

Lemma duplicate_server_ok s g ms :
  info_replicas g = replicas_of ms -> (length (slaves ms) <= 2)%nat ->
  forall k, (k <= length (slaves ms))%nat ->
  duplicate_server s g (seq (S (length (slaves ms) - k)) k)
  = Some (existsb (fun t => bool_decide (info_endpoint s = info_endpoint t))
            (drop (length (slaves ms) - k) (slaves ms))).
Proof.
  intros Hr Hlen. induction k as [|k IH]; intros Hk.
  { rewrite Nat.sub_0_r, drop_all. done. }
  cbn [seq duplicate_server]. set (i := (length (slaves ms) - S k)%nat).
  destruct (lookup_lt_is_Some_2 (slaves ms) i) as [t Ht]; [lia|].
  assert (info_replicas g !! S i = Some (Some t)) as ->.
  { rewrite Hr. unfold replicas_of. cbn [lookup list_lookup].
    change ((map Some (slaves ms) ++ replicate (2 - length (slaves ms)) None) !! i = Some (Some t)).
    rewrite lookup_app_l by (rewrite length_map; lia).
    change (map Some (slaves ms)) with (Some <$> slaves ms). by rewrite list_lookup_fmap, Ht. }
  rewrite (drop_S _ t i Ht). cbn [existsb].
  replace (bool_decide _ && (info_port s =? info_port t))
    with (bool_decide (info_endpoint s = info_endpoint t)).
  2:{ apply eq_true_iff_eq. rewrite andb_true_iff, !bool_decide_eq_true, strcmp_eq, Z.eqb_eq.
      unfold info_endpoint. split; [by intros [= -> ->]|by intros [-> ->]]. }
  case_bool_decide; [done|]. cbn [orb].
  replace (S i) with (length (slaves ms) - k)%nat by lia. apply IH. lia.
Qed.

Lemma existsb_slaves (P : memcached_server_info_st -> bool) ms :
  existsb (fun t => negb (info_master t) && P t) ms = existsb P (slaves ms).
Proof.
  induction ms as [|s ms IH]; [done|]. unfold slaves in *. simpl. destruct (info_master s) eqn:E.
  - by rewrite filter_cons_False by congruence.
  - rewrite filter_cons_True by done. simpl. by rewrite IH.
Qed.

Lemma members_ok_snoc ms s :
  members_ok (ms ++ [s]) =
  members_ok ms &&
  if info_master s
  then bool_decide (masters ms = [])
       && negb (existsb (fun t => bool_decide (info_endpoint s = info_endpoint t)) (slaves ms))
  else (length (slaves ms) <=? 1)%nat.
Proof.
  unfold members_ok.
  rewrite masters_snoc, slaves_snoc, duplicate_before_snoc, existsb_slaves, !length_app.
  destruct (info_master s); cbn [app length andb].
  - destruct (masters ms) as [|m l] eqn:Hm.
    + rewrite bool_decide_eq_true_2, Nat.add_0_r by done. simpl. rewrite negb_orb, !andb_assoc. done.
    + rewrite bool_decide_eq_false_2 by done. simpl. rewrite andb_false_r, Nat.add_comm. done.
  - rewrite Nat.add_0_r, orb_false_r.
    destruct (Nat.leb_spec (length (slaves ms) + 1) 2), (Nat.leb_spec (length (slaves ms)) 2),
      (Nat.leb_spec (length (slaves ms)) 1); try lia;
      rewrite ?andb_true_r, ?andb_false_r; done.
Qed.

Lemma join_rgroup_info_ok s g ms :
  collected g ms ->
  exists g' failed, join_rgroup_info s g = Some (g', failed)
    /\ collected g' (ms ++ [s]) /\ info_group g' = info_group g
    /\ failed = valid g && negb (valid g').
Proof.
  intros (Hv & Hshape & Hlen). unfold join_rgroup_info.
  destruct (valid g) eqn:Hvalid; cbn [negb]; symmetry in Hv.
  2:{ exists g, false. rewrite Hvalid. split_and!; try done. split_and!; [|congruence|done].
      by rewrite members_ok_snoc_false. }
  destruct (Hshape eq_refl) as [Hr Hn].
  assert (exists m, info_replicas g !! 0%nat = Some m /\ m = head (masters ms)) as (m & -> & Hm)
    by (eexists; rewrite Hr; split; done).
  unfold members_ok in Hv. rewrite !andb_true_iff, !Nat.leb_le in Hv. destruct Hv as [[Hv1 Hv2] Hv3].
  assert (members_ok ms = true) as Hok
    by (unfold members_ok; rewrite !andb_true_iff, !Nat.leb_le; done).
  pose proof (members_split ms) as Hsplit.
  destruct (info_master s) eqn:Hs.
  - destruct (masters ms) as [|m0 l] eqn:Hms; simpl in Hm; subst m.
    + cbn [length Nat.add] in Hsplit. rewrite Hn, Hsplit.
      pose proof (duplicate_server_ok s g ms Hr Hv2 (length (slaves ms)) ltac:(lia)) as Hdup.
      rewrite Nat.sub_diag in Hdup. rewrite Hdup, drop_0.
      destruct (existsb (fun t => bool_decide (info_endpoint s = info_endpoint t)) (slaves ms)) eqn:He.
      * eexists _, true. split; [done|]. split_and!; [|done|done].
        split_and!; [|done|done]. rewrite members_ok_snoc, Hok, Hs, He. by rewrite andb_false_r.
      * eexists _, false. split; [done|]. split_and!; [|done|by cbn; rewrite Hvalid].
        split_and!.
        -- cbn [valid update]. rewrite members_ok_snoc, Hok, Hs, He, Hms. by rewrite Hvalid.
        -- intros _. cbn [info_replicas info_nreplica update]. rewrite length_app, Hn, Hr.
           unfold replicas_of. rewrite masters_snoc, slaves_snoc, Hs, Hms, app_nil_r.
           split; [done|]. simpl. lia.
        -- cbn [info_replicas update]. by rewrite length_insert.
    + eexists _, true. split; [done|]. split_and!; [|done|done].
      split_and!; [|done|done]. rewrite members_ok_snoc, Hs, Hms, Hok. done.
  - assert ((info_nreplica g + match m with Some _ => 0 | None => 1 end)%nat
            = S (length (slaves ms))) as ->.
    { rewrite Hn, Hsplit, Hm. destruct (masters ms) as [|m0 [|m1 l]]; simpl in *; lia. }
    unfold RGROUP_MAX_REPLICA.
    destruct (Nat.leb_spec 3 (S (length (slaves ms)))) as [Hk|Hk].
    + eexists _, true. split; [done|]. split_and!; [|done|done].
      split_and!; [|done|done]. rewrite members_ok_snoc, Hs, Hok.
      by rewrite (proj2 (Nat.leb_gt _ _)) by lia.
    + eexists _, false. split; [done|]. split_and!; [|done|by cbn; rewrite Hvalid].
      split_and!.
      * cbn [valid update]. rewrite members_ok_snoc, Hok, Hs, Hvalid.
        by rewrite (proj2 (Nat.leb_le _ _)) by lia.
      * intros _. cbn [info_replicas info_nreplica update]. rewrite length_app, Hn, Hr.
        unfold replicas_of. rewrite masters_snoc, slaves_snoc, Hs, app_nil_r.
        split; [|simpl; lia]. cbn [base.insert list_insert]. f_equal.
        destruct (slaves ms) as [|s1 [|s2 l]]; simpl in *; try lia; done.
      * cbn [info_replicas update]. by rewrite length_insert.
Qed.

Fixpoint count {A} (f : A -> bool) (l : list A) : Z :=
  match l with [] => 0 | x :: l => (if f x then 1 else 0) + count f l end.

Lemma group_members_snoc name pre s :
  group_members name (pre ++ [s]) =
  group_members name pre ++ (if bool_decide (info_groupname s = name) then [s] else []).
Proof.
  unfold group_members. rewrite filter_app. f_equal. case_bool_decide.
  - by rewrite filter_cons_True.
  - by rewrite filter_cons_False.
Qed.

Lemma new_rgroup_info_collected s : collected (new_rgroup_info s) [s].
Proof.
  pose proof (masters_snoc [] s) as Hm. pose proof (slaves_snoc [] s) as Hsl.
  cbn [app] in Hm, Hsl. unfold collected, new_rgroup_info, replicas_of, members_ok.
  rewrite Hm, Hsl. destruct (info_master s) eqn:E; split_and!; try done; cbn; by rewrite E.
Qed.

Definition collected_from (pre : list memcached_server_info_st) (g : memcached_rgroup_info_st)
    : Prop := collected g (group_members (info_group g) pre).

Lemma add_server_info_ok s pre groups :
  NoDup (map info_group groups) -> Forall (collected_from pre) groups ->
  (group_members (info_groupname s) pre = [] \/ info_groupname s ∈ map info_group groups) ->
  exists groups' d, add_server_info s groups = Some (groups', d)
    /\ Forall (collected_from (pre ++ [s])) groups'
    /\ map info_group groups' = map info_group groups
         ++ (if bool_decide (info_groupname s ∈ map info_group groups) then []
             else [info_groupname s])
    /\ count valid groups' = count valid groups + d.
Proof.
  induction groups as [|g groups IH]; intros Hnd Hall Hmem; cbn [add_server_info].
  - destruct Hmem as [Hmem|Hmem]; [|by apply not_elem_of_nil in Hmem].
    eexists _, 1. split; [done|]. split_and!; [|done|done]. constructor; [|constructor].
    unfold collected_from. rewrite group_members_snoc.
    change (info_group (new_rgroup_info s)) with (info_groupname s).
    rewrite Hmem, bool_decide_eq_true_2 by done. apply new_rgroup_info_collected.
  - cbn [map] in *. apply NoDup_cons in Hnd as [Hnew Hnd]. apply Forall_cons in Hall as [Hg Hall].
    destruct (decide (info_groupname s = info_group g)) as [E|E].
    + rewrite bool_decide_eq_true_2 by (by apply strcmp_eq).
      destruct (join_rgroup_info_ok s g _ Hg) as (g' & failed & -> & Hc & Hname & Hf).
      cbn [mbind option_bind]. eexists _, _. split; [done|]. split_and!.
      * apply Forall_cons. split.
        -- unfold collected_from. rewrite Hname, group_members_snoc, bool_decide_eq_true_2 by done.
           exact Hc.
        -- apply Forall_forall. intros g0 Hg0. rewrite Forall_forall in Hall.
           specialize (Hall g0 Hg0). unfold collected_from in *. rewrite group_members_snoc.
           rewrite bool_decide_eq_false_2, app_nil_r; [done|].
           intros E'. apply Hnew. rewrite <-E, E'. by apply list_elem_of_fmap_2.
      * rewrite bool_decide_eq_true_2 by (rewrite E; left). cbn [map]. by rewrite Hname, app_nil_r.
      * cbn [count]. rewrite Hf. destruct Hg as (Hv & _ & _), Hc as (Hv' & _ & _).
        rewrite Hv, Hv'. destruct (members_ok (group_members (info_group g) pre)) eqn:Ho.
        -- destruct (members_ok (group_members (info_group g) pre ++ [s])); simpl; lia.
        -- rewrite members_ok_snoc_false by done. simpl. lia.
    + rewrite bool_decide_eq_false_2 by (by rewrite strcmp_eq).
      destruct IH as (groups' & d & -> & Hc & Hnames & Hcount); [done|done|set_solver|].
      cbn [mbind option_bind]. eexists _, d. split; [done|]. split_and!.
      * apply Forall_cons. split; [|done]. unfold collected_from. rewrite group_members_snoc.
        by rewrite bool_decide_eq_false_2, app_nil_r.
      * cbn [map app]. rewrite Hnames. f_equal. f_equal.
        erewrite (bool_decide_ext (info_groupname s ∈ map info_group groups)); [done|].
        rewrite elem_of_cons. tauto.
      * cbn [count]. rewrite Hcount. lia.
Qed.

Lemma collect_rgroup_info_ok serverinfo pre groups v :
  NoDup (map info_group groups) -> Forall (collected_from pre) groups ->
  (forall name, name ∈ map info_group groups <-> name ∈ map info_groupname pre) ->
  v = u32 (count valid groups) ->
  exists groups' v', collect_rgroup_info serverinfo groups v = Some (groups', v')
    /\ NoDup (map info_group groups')
    /\ Forall (collected_from (pre ++ serverinfo)) groups'
    /\ (forall name, name ∈ map info_group groups'
          <-> name ∈ map info_groupname (pre ++ serverinfo))
    /\ v' = u32 (count valid groups').
Proof.
  revert pre groups v. induction serverinfo as [|s serverinfo IH]; intros pre groups v Hnd Hall Hn Hv.
  { exists groups, v. by rewrite app_nil_r. }
  cbn [collect_rgroup_info]. destruct (add_server_info_ok s pre groups Hnd Hall)
    as (groups1 & d & -> & Hall1 & Hnames & Hcount).
  { rewrite Hn. destruct (decide (info_groupname s ∈ map info_groupname pre)) as [|Hno]; [by right|].
    left. apply filter_none. intros t Ht E. apply Hno. rewrite <-E. by apply list_elem_of_fmap_2. }
  cbn [mbind option_bind].
  destruct (IH (pre ++ [s]) groups1 (v ⊞ d)) as (groups' & v' & Hc & H1 & H2 & H3 & H4).
  - rewrite Hnames. case_bool_decide as E; [by rewrite app_nil_r|].
    apply NoDup_app. split; [done|]. split; [|apply NoDup_singleton].
    intros x Hx ->%list_elem_of_singleton. done.
  - done.
  - intros name. rewrite Hnames, map_app, !elem_of_app, (Hn name). cbn [map].
    rewrite list_elem_of_singleton. case_bool_decide as E.
    + apply Hn in E. split; [intros [?|?%not_elem_of_nil]; [by left|done]|].
      by intros [?| ->]; left.
    + by rewrite list_elem_of_singleton.
  - rewrite Hcount, Hv. u32_ring.
  - exists groups', v'. rewrite <-app_assoc in *. cbn [app] in *. done.
Qed.

Definition no_master (g : memcached_rgroup_info_st) : bool :=
  match info_replicas g !! 0%nat with Some None => true | _ => false end.

Lemma check_masters_ok groups v :
  Forall (fun g => length (info_replicas g) = RGROUP_MAX_REPLICA) groups ->
  exists v', check_masters groups v
    = Some (map (fun g => if no_master g then g <| valid := false |> else g) groups, v')
    /\ (is_u32 v -> v' = u32 (v - count no_master groups)).
Proof.
  intros Hall. revert v. induction Hall as [|g groups Hg Hall IH]; intros v; cbn [check_masters].
  { exists v. split; [done|]. intros Hv. simpl. by rewrite Z.sub_0_r, u32_small. }
  destruct (lookup_lt_is_Some_2 (info_replicas g) 0) as [r Hr]; [rewrite Hg; unfold RGROUP_MAX_REPLICA; lia|].
  assert (no_master g = match r with None => true | _ => false end) as Hno
    by (unfold no_master; by rewrite Hr).
  cbn [map count]. rewrite Hno, Hr. destruct r as [r|].
  - destruct (IH v) as (v' & -> & Hv'). cbn [mbind option_bind].
    exists v'. split; [done|]. intros Hv. by rewrite Hv'.
  - destruct (IH (v ⊟ 1)) as (v' & -> & Hv'). cbn [mbind option_bind].
    exists v'. split; [done|]. intros Hv.
    rewrite Hv' by apply u32_range. u32_ring.
Qed.

(** What the check for masters makes of a group. *)
Definition checked (g : memcached_rgroup_info_st) : memcached_rgroup_info_st :=
  if no_master g then g <| valid := false |> else g.

Lemma checked_group g : info_group (checked g) = info_group g.
Proof. unfold checked. by destruct (no_master g). Qed.

Lemma checked_no_master g : no_master (checked g) = no_master g.
Proof. unfold checked. by destruct (no_master g) eqn:E. Qed.

Lemma mapM_info_endpoints l :
  mapM (fun r => info_endpoint <$> r) (map Some l) = Some (map info_endpoint l).
Proof. induction l as [|i l IH]; [done|]. cbn. by rewrite IH. Qed.

Lemma checked_ok g ms :
  collected g ms -> ms <> [] ->
  (valid (checked g) = true <-> members_ok ms = true /\ masters ms <> [])
  /\ (valid (checked g) = true -> exists m, masters ms = [m]
       /\ info_endpoints (checked g) = Some (map info_endpoint (m :: slaves ms))).
Proof.
  intros (Hv & Hshape & Hlen) Hne. unfold checked. destruct (valid g) eqn:Hvalid; symmetry in Hv.
  - destruct (Hshape eq_refl) as [Hr Hn].
    assert (no_master g = bool_decide (masters ms = [])) as ->.
    { unfold no_master. rewrite Hr. cbn. by destruct (masters ms). }
    rewrite Hv. case_bool_decide as E; cbn [valid update].
    { split; [|done]. split; [done|]. by intros [_ ?]. }
    rewrite Hvalid. split; [done|]. intros _.
    pose proof Hv as Hok. unfold members_ok in Hok. rewrite !andb_true_iff, !Nat.leb_le in Hok.
    pose proof (members_split ms) as Hsplit.
    destruct (masters ms) as [|m [|m' l]] eqn:Hm; [done| |simpl in Hok; lia].
    exists m. split; [done|]. unfold info_endpoints. rewrite Hr, Hn, Hsplit.
    unfold replicas_of. rewrite Hm. cbn [length Nat.add take head].
    rewrite take_app_le by (rewrite length_map; lia). rewrite take_ge by (rewrite length_map; lia).
    change (Some m :: map Some (slaves ms)) with (map Some (m :: slaves ms)).
    apply mapM_info_endpoints.
  - assert (valid (if no_master g then g <| valid := false |> else g) = false) as E
      by (by destruct (no_master g)).
    rewrite E, Hv. split; [|done]. split; [done|]. by intros [? _].
Qed.

Lemma count_checked (ok : bytes -> bool) groups :
  Forall (fun g => valid g = ok (info_group g)) groups ->
  count valid groups - count no_master groups
  = count valid (map checked groups)
    - count (fun g => no_master g && negb (ok (info_group g))) (map checked groups).
Proof.
  induction 1 as [|g groups Hg _ IH]; [done|]. cbn [map count].
  rewrite checked_group, checked_no_master, <-Hg. unfold checked at 1.
  destruct (no_master g), (valid g) eqn:E; cbn [valid update andb negb]; rewrite ?E; lia.
Qed.

Lemma info_create_ok serverinfo :
  exists groups validcount,
    memcached_rgroup_info_create serverinfo = Some (groups, validcount)
    /\ NoDup (map info_group groups)
    /\ (forall name, name ∈ map info_group groups <-> name ∈ map info_groupname serverinfo)
    /\ Forall (fun g =>
         let ms := group_members (info_group g) serverinfo in
         (valid g = true <-> members_ok ms = true /\ masters ms <> [])
         /\ (valid g = true -> exists m, masters ms = [m]
              /\ info_endpoints g = Some (map info_endpoint (m :: slaves ms)))) groups
    /\ validcount = u32 (count valid groups
         - count (fun g => no_master g
                  && negb (members_ok (group_members (info_group g) serverinfo))) groups).
Proof.
  destruct (collect_rgroup_info_ok serverinfo [] [] 0) as (groups & v & Hc & Hnd & Hall & Hn & Hv);
    [constructor|constructor|done|done|].
  cbn [app] in *. unfold memcached_rgroup_info_create. rewrite Hc. cbn [mbind option_bind].
  destruct (check_masters_ok groups v) as (v' & -> & Hv').
  { eapply Forall_impl; [exact Hall|]. by intros g (_ & _ & ?). }
  change (map _ groups) with (map checked groups).
  assert (map info_group (map checked groups) = map info_group groups) as Hnames.
  { rewrite map_map. apply map_ext, checked_group. }
  exists (map checked groups), v'. rewrite Hnames. split_and!; [done..| |].
  - apply Forall_forall. intros g' Hg'.
    apply list_elem_of_fmap in Hg' as (g & -> & Hg). rewrite checked_group.
    rewrite Forall_forall in Hall. apply checked_ok; [by apply Hall|].
    apply list_elem_of_fmap_2 with (f := info_group) in Hg. apply Hn in Hg.
    apply list_elem_of_fmap in Hg as (s & Hname & Hs). intros E.
    assert (s ∈ group_members (info_group g) serverinfo) as Hin
      by (by apply list_elem_of_filter). rewrite E in Hin. by apply not_elem_of_nil in Hin.
  - rewrite Hv' by (rewrite Hv; apply u32_range). rewrite Hv.
    transitivity (u32 (count valid groups - count no_master groups)); [u32_ring|f_equal].
    apply (count_checked (fun name => members_ok (group_members name serverinfo))).
    eapply Forall_impl; [exact Hall|]. by intros g (? & _ & _).
Qed.

(** C25: grouping a list of servers never reads an absent replica, and makes one
    group of every name that is listed.  A group is valid exactly when it has
    one master and at most two slaves and no slave before the master has the
    master's endpoint, and its replicas are the master and the slaves in the
    order of the list.  The count of valid groups that is returned is too small
    by the number of groups that were found invalid before a master joined. *)
Theorem memcached_rgroup_info_create_spec serverinfo :
  exists groups validcount,
    memcached_rgroup_info_create serverinfo = Some (groups, validcount)
    /\ NoDup (map info_group groups)
    /\ (forall name, name ∈ map info_group groups <-> name ∈ map info_groupname serverinfo)
    /\ Forall (fun g =>
         let ms := group_members (info_group g) serverinfo in
         (valid g = true <-> members_ok ms = true /\ masters ms <> [])
         /\ (valid g = true -> exists m, masters ms = [m]
              /\ info_endpoints g = Some (map info_endpoint (m :: slaves ms)))) groups
    /\ validcount = u32 (count valid groups
         - count (fun g => no_master g
                  && negb (members_ok (group_members (info_group g) serverinfo))) groups).
Proof. apply info_create_ok. Qed.
