(* ===== verification/RgroupList.v ===== *)
(** The pool of servers and the list of groups of a handle with replication:
    extending the pool, and what the list operations of rgroup.cc and the
    updates of memcached.cc do to the groups of a handle. *)
From S2P Require Import Prelude HashFunctions Hashkit Memcached KeyHash Continuum Distribution.
From S2P Require Import ServerList Rgroup RgroupInfo.

(** ** Updating a group to the servers of a [memcached_rgroup_info_st] *)

(** C24: updating a group to a valid list of servers succeeds: no assertion
    fails and no absent server is read.  Afterwards the group has the master of
    the list first and the slaves of the list, in some order; a replica that is
    not new was in the group before; the servers of other groups and the rest of
    the handle are left alone; and when no change is reported there was none.
    The pool must hold a server more than the groups use at most. *)
Theorem memcached_rgroup_update_with_groupinfo_spec others memc g ss info master slaves :
  group_state memc g others ss -> ss <> [] ->
  info_endpoints info = Some (master :: slaves) -> (length slaves <= 2)%nat ->
  Forall valid_endpoint (master :: slaves) ->
  Z.of_nat (3 + length others) < server_ntotal memc ->
  exists memc' g' changed,
    memcached_rgroup_update_with_groupinfo memc g info = Some (memc', g', changed)
    /\ group_updated others memc g ss master slaves memc' g' changed.
Proof.
  intros Hst Hne Hinfo Hlen Hv Htot. unfold memcached_rgroup_update_with_groupinfo. rewrite Hinfo.
  by apply update_rgroup_ok.
Qed.

(** ** Extending the pool *)

Lemma grow_count_ok fuel count new_count :
  0 <= new_count -> count + 10 < 2 ^ 32 -> count <= new_count + 10 * Z.of_nat fuel ->
  new_count < 2 ^ 32 ->
  count <= grow_count fuel count new_count < 2 ^ 32 /\ new_count <= grow_count fuel count new_count.
Proof.
  revert new_count. induction fuel as [|fuel IH]; intros new_count Hpos Hc Hf Hn; cbn [grow_count]; [lia|].
  destruct (Z.ltb_spec new_count count); [|lia].
  rewrite u32_small by lia. destruct (IH (new_count + 10)); lia.
Qed.

Lemma chain_ids pool free l used :
  chain pool free l -> Forall (fun id => exists s, pool !! id = Some s /\ server_is_allocated s = false) used ->
  forall id, id ∈ l ++ used -> id ∈ dom pool.
Proof.
  intros Hc Hu id. rewrite elem_of_app, elem_of_dom. intros [Hid|Hid].
  - by eapply chain_member.
  - rewrite Forall_forall in Hu. destruct (Hu id Hid) as (s & -> & _). by eexists.
Qed.

Lemma pool_inv_ntotal memc used n : pool_inv memc used -> pool_inv (memc <| rgroup_ntotal := n |>) used.
Proof. by intros [? ? ?]. Qed.

Lemma rgroup_ntotal_same memc : memc <| rgroup_ntotal := rgroup_ntotal memc |> = memc.
Proof. by destruct memc. Qed.

(** What extending the pool changes. *)
Definition pool_extended (used : list nat) (p q : memcached_st) : Prop :=
  pool_inv q used
  /\ q = p <| server_pool := server_pool q |> <| free_server := free_server q |>
           <| server_ntotal := server_ntotal q |> <| server_navail := server_navail q |>
  /\ forall id, id ∈ used -> server_pool q !! id = server_pool p !! id.

Lemma pool_extended_trans used p q r :
  pool_extended used p q -> pool_extended used q r -> pool_extended used p r.
Proof.
  intros (_ & Hp & Hid) (Hr & Hq & Hid'). split; [done|]. split.
  - rewrite Hq, Hp. by destruct p.
  - intros id Hin. by rewrite Hid', Hid.
Qed.

Lemma add_server_ok junk memc used id :
  pool_inv memc used -> server_ntotal memc + 1 < 2 ^ 32 -> id ∉ dom (server_pool memc) ->
  pool_extended used memc
    (memc <| server_pool := <[id := junk <| next := free_server memc |>]> (server_pool memc) |>
          <| free_server := Some id |>
          <| server_ntotal := server_ntotal memc ⊞ 1 |>
          <| server_navail := server_navail memc ⊞ 1 |>).
Proof.
  intros [(unused & Hc & Hnd & Hdom & Hav & Htot) Hused Hb] Hlt Hid.
  assert (id ∉ unused ++ used) as Hnew.
  { intros Hin. exact (Hid (chain_ids _ _ _ _ Hc Hused _ Hin)). }
  rewrite not_elem_of_app in Hnew. destruct Hnew as [Hnew Hnew'].
  pose proof (length_app unused used) as Hl.
  split; [split|split; [reflexivity|]];
    cbn [server_pool free_server server_navail server_ntotal update].
  - exists (id :: unused). split_and!.
    + split; [done|]. eexists. split; [apply lookup_insert_eq|]. by apply chain_insert.
    + simpl. apply NoDup_cons. rewrite not_elem_of_app. tauto.
    + intros i. rewrite dom_insert, elem_of_union, elem_of_singleton.
      intros [->|Hi]; [by left|]. right. by apply Hdom.
    + rewrite Hav, u32_small; simpl; lia.
    + rewrite Htot, u32_small; simpl; lia.
  - rewrite Forall_forall in Hused |- *. intros i Hi.
    rewrite lookup_insert_ne by (intros ->; tauto). by apply Hused.
  - rewrite u32_small; lia.
  - intros i Hi. rewrite lookup_insert_ne by (intros ->; tauto). done.
Qed.

Lemma expand_servers_ok fuel junk malloc memc count used :
  pool_inv memc used -> count < 2 ^ 32 -> count <= server_ntotal memc + Z.of_nat fuel ->
  exists memc', expand_servers fuel junk malloc memc count
                = (bool_decide (count <= server_ntotal memc + Z.of_nat malloc), memc')
    /\ pool_extended used memc memc'
    /\ server_ntotal memc' = Z.max (server_ntotal memc) (Z.min count (server_ntotal memc + Z.of_nat malloc)).
Proof.
  revert malloc memc. induction fuel as [|fuel IH]; intros malloc memc Hinv Hc Hf; cbn [expand_servers];
    destruct (Z.ltb_spec (server_ntotal memc) count) as [Hlt|Hge]; try lia.
  1, 3: exists memc; rewrite bool_decide_true by lia; split_and!; [done|split_and!; [done|by destruct memc|done]|lia].
  destruct malloc as [|malloc].
  { exists memc. rewrite bool_decide_false by lia.
    split_and!; [done|split_and!; [done|by destruct memc|done]|lia]. }
  pose proof (add_server_ok junk memc used _ Hinv ltac:(lia) (is_fresh (dom (server_pool memc)))) as Hadd.
  set (m1 := update _ _ _) in Hadd |- *.
  assert (server_ntotal m1 = server_ntotal memc + 1) as Hn1.
  { subst m1. cbn [server_ntotal update]. apply u32_small.
    destruct Hinv as [(? & ? & ? & ? & ? & Htot) _ _]. lia. }
  destruct (IH malloc m1 (proj1 Hadd)) as (m2 & -> & Hext & Hn2); [done|lia|].
  exists m2. split; [f_equal; apply bool_decide_ext; lia|].
  split; [exact (pool_extended_trans _ _ _ _ Hadd Hext)|lia].
Qed.

Lemma expand_ok junk realloc malloc memc used rgroupcount servercount :
  pool_inv memc used -> 0 <= servercount < 2 ^ 32 - 1 -> 0 <= rgroup_ntotal memc ->
  0 <= rgroupcount < 2 ^ 32 - 10 ->
  exists ok memc', memcached_rgroup_expand junk realloc malloc memc rgroupcount servercount = (ok, memc')
    /\ ok = (realloc || (rgroupcount <=? rgroup_ntotal memc))
            && (servercount + 1 <=? server_ntotal memc + Z.of_nat malloc)
    /\ pool_extended used (memc <| rgroup_ntotal := rgroup_ntotal memc' |>) memc'
    /\ rgroup_ntotal memc <= rgroup_ntotal memc' <= Z.max (rgroup_ntotal memc) (2 ^ 32 - 1)
    /\ (ok = true -> rgroupcount <= rgroup_ntotal memc'
                     /\ server_ntotal memc' = Z.max (server_ntotal memc) (servercount + 1)).
Proof.
  intros Hinv Hs Hpos Hr. unfold memcached_rgroup_expand.
  pose proof Hinv as [(unused & _ & _ & _ & _ & Htot) _ Hb].
  rewrite (u32_small (servercount + 1)) by lia.
  assert (forall m, pool_inv m used -> server_ntotal m = server_ntotal memc ->
    exists m', expand_servers (Z.to_nat (servercount + 1)) junk malloc m (servercount + 1)
                 = (servercount + 1 <=? server_ntotal memc + Z.of_nat malloc, m')
      /\ pool_extended used m m'
      /\ (servercount + 1 <= server_ntotal memc + Z.of_nat malloc ->
          server_ntotal m' = Z.max (server_ntotal memc) (servercount + 1))) as Hserv.
  { intros m Hm Hn.
    destruct (expand_servers_ok (Z.to_nat (servercount + 1)) junk malloc m (servercount + 1) used Hm)
      as (m' & -> & Hext & Hn'); [lia|lia|].
    exists m'. rewrite Hn in *. split; [|split; [done|lia]].
    f_equal. case_bool_decide; symmetry; [apply Z.leb_le|apply Z.leb_gt]; lia. }
  destruct (Z.ltb_spec (rgroup_ntotal memc) rgroupcount) as [Hlt|Hge].
  - replace (rgroupcount <=? rgroup_ntotal memc) with false by (symmetry; apply Z.leb_gt; lia).
    destruct realloc; cbn [orb andb].
    + rewrite (u32_small (rgroup_ntotal memc + 10)) by lia.
      destruct (grow_count_ok (Z.to_nat rgroupcount) rgroupcount (rgroup_ntotal memc + 10))
        as [Hg Hg']; [lia..|].
      set (n := grow_count _ _ _) in *.
      destruct (Hserv (memc <| rgroup_ntotal := n |>)) as (m & -> & Hext & Hn);
        [exact (pool_inv_ntotal _ _ _ Hinv)|done|].
      assert (rgroup_ntotal m = n) as Hm by by rewrite (proj1 (proj2 Hext)).
      eexists _, m. rewrite Hm. split; [done|]. split; [done|]. split; [exact Hext|]. split; [lia|].
      intros E%Z.leb_le. split; [lia|by apply Hn].
    + exists false, memc. split; [done|]. split; [done|]. split; [|split; [lia|done]].
      rewrite rgroup_ntotal_same. split; [exact Hinv|]. split; [by destruct memc|done].
  - replace (rgroupcount <=? rgroup_ntotal memc) with true by (symmetry; apply Z.leb_le; lia).
    rewrite orb_true_r. cbn [andb]. destruct (Hserv memc Hinv eq_refl) as (m & -> & Hext & Hn).
    assert (rgroup_ntotal m = rgroup_ntotal memc) as Hm by by rewrite (proj1 (proj2 Hext)).
    eexists _, m. rewrite Hm. split; [done|]. split; [done|]. split.
    + rewrite rgroup_ntotal_same. exact Hext.
    + split; [lia|]. intros E%Z.leb_le. split; [lia|by apply Hn].
Qed.

(** both loops that extend the space of a handle end.  The function
    succeeds exactly when the array can be extended, if it must be, and enough
    of the servers that are missing can be allocated; then there is room for the
    groups and for one server more than asked for.  Also when it fails the pool
    stays consistent and the servers in use are not touched. *)
Theorem memcached_rgroup_expand_spec junk realloc malloc memc used rgroupcount servercount :
  pool_inv memc used -> 0 <= servercount < 2 ^ 32 - 1 -> 0 <= rgroup_ntotal memc ->
  0 <= rgroupcount < 2 ^ 32 - 10 ->
  exists ok memc', memcached_rgroup_expand junk realloc malloc memc rgroupcount servercount = (ok, memc')
    /\ ok = (realloc || (rgroupcount <=? rgroup_ntotal memc))
            && (servercount + 1 <=? server_ntotal memc + Z.of_nat malloc)
    /\ pool_extended used (memc <| rgroup_ntotal := rgroup_ntotal memc' |>) memc'
    /\ rgroup_ntotal memc <= rgroup_ntotal memc' <= Z.max (rgroup_ntotal memc) (2 ^ 32 - 1)
    /\ (ok = true -> rgroupcount <= rgroup_ntotal memc'
                     /\ server_ntotal memc' = Z.max (server_ntotal memc) (servercount + 1)).
Proof. apply expand_ok. Qed.

(** ** The groups of a handle *)

(** The group [g] is in slot [x]: its replicas are the servers [ids] of the
    pool, and they know where their group is. *)
Definition slot (memc : memcached_st) (x : nat) (g : memcached_rgroup_st) (ids : list nat) : Prop :=
  group_of g ids /\ rgroup_groupindex g = Z.of_nat x
  /\ Forall (fun id => exists s, server_pool memc !! id = Some s
                                 /\ groupindex s = i32 (Z.of_nat x)) ids.

Fixpoint groups_at (memc : memcached_st) (x : nat) (gs : list memcached_rgroup_st)
    (idss : list (list nat)) : Prop :=
  match gs, idss with
  | [], [] => True
  | g :: gs, ids :: idss => slot memc x g ids /\ groups_at memc (S x) gs idss
  | _, _ => False
  end.

(** The slots in use. *)
Definition groups_of (memc : memcached_st) : list memcached_rgroup_st :=
  take (Z.to_nat (number_of_hosts memc)) (rgroups memc).

(** The invariant of a handle with replication: the groups are in their slots,
    every server of a group belongs to it alone, and the other servers of the
    pool are in the list of unused ones. *)
Record groups_inv (memc : memcached_st) (idss : list (list nat)) : Prop := {
  groups_count : number_of_hosts memc = Z.of_nat (length idss);
  groups_slots : groups_at memc 0 (groups_of memc) idss;
  groups_pool : pool_inv memc (concat idss);
}.

(** What a client sees of the groups: their names, weights and servers. *)
Definition group_view (memc : memcached_st) (g : memcached_rgroup_st)
    : bytes * Z * option (list (bytes * Z)) :=
  (groupname g, rgroup_weight g, rgroup_endpoints memc g).

Lemma groups_at_length memc x gs idss : groups_at memc x gs idss -> length gs = length idss.
Proof.
  revert x idss. induction gs as [|g gs IH]; intros x [|ids idss]; try done.
  intros [_ H]. simpl. by erewrite IH.
Qed.

Lemma groups_at_app memc x gs gs' idss idss' : length gs = length idss ->
  groups_at memc x (gs ++ gs') (idss ++ idss')
    <-> groups_at memc x gs idss /\ groups_at memc (x + length gs) gs' idss'.
Proof.
  revert x idss. induction gs as [|g gs IH]; intros x [|ids idss] Hlen; try done.
  - simpl. rewrite Nat.add_0_r. tauto.
  - simpl. rewrite IH by (by injection Hlen). rewrite <-plus_n_Sm. tauto.
Qed.

Lemma slot_frame memc memc' x g ids :
  (forall id, id ∈ ids -> server_pool memc' !! id = server_pool memc !! id) ->
  slot memc x g ids -> slot memc' x g ids /\ group_view memc' g = group_view memc g.
Proof.
  intros Hf (Hg & Hx & Hs). split.
  - split_and!; [done..|]. rewrite Forall_forall in Hs |- *. intros id Hid.
    rewrite Hf by done. by apply Hs.
  - unfold group_view, rgroup_endpoints. f_equal. destruct Hg as (-> & -> & Hlen).
    rewrite take_app_length' by (by rewrite length_map).
    clear -Hf. induction ids as [|id ids IH]; [done|]. cbn [map mapM mbind option_bind].
    rewrite Hf by left. rewrite IH; [done|]. intros i Hi. apply Hf. by right.
Qed.

Lemma groups_at_frame memc memc' x gs idss :
  (forall id, id ∈ concat idss -> server_pool memc' !! id = server_pool memc !! id) ->
  groups_at memc x gs idss ->
  groups_at memc' x gs idss /\ map (group_view memc') gs = map (group_view memc) gs.
Proof.
  revert x idss. induction gs as [|g gs IH]; intros x [|ids idss] Hf Hat; try done.
  destruct Hat as [Hs Hat].
  destruct (slot_frame memc memc' x g ids) as [Hs' Hv]; [|done|].
  { intros id Hid. apply Hf. simpl. apply elem_of_app. by left. }
  destruct (IH (S x) idss) as [Hat' Hv']; [|done|].
  { intros id Hid. apply Hf. simpl. apply elem_of_app. by right. }
  split; [done|]. simpl. by rewrite Hv, Hv'.
Qed.

Lemma chain_agree pool pool' free l :
  (forall id, id ∈ l -> pool' !! id = pool !! id) -> chain pool free l -> chain pool' free l.
Proof.
  revert free. induction l as [|i l IH]; intros free Hf Hc; [done|].
  destruct Hc as [-> (s & Hs & Hc)]. split; [done|]. exists s. rewrite Hf by left.
  split; [done|]. apply IH; [|done]. intros id Hid. apply Hf. by right.
Qed.

(** Changing the records of servers in use. *)
Lemma pool_inv_update memc used pool' :
  pool_inv memc used ->
  (forall id, id ∉ used -> pool' !! id = server_pool memc !! id) ->
  Forall (fun id => exists s, pool' !! id = Some s /\ server_is_allocated s = false) used ->
  pool_inv (memc <| server_pool := pool' |>) used.
Proof.
  intros [(unused & Hc & Hnd & Hdom & Hav & Htot) Hused Hb] Hf Hs.
  split; cbn [server_pool free_server server_navail server_ntotal update]; [|done..].
  exists unused. split_and!; [|done| |done..].
  - eapply chain_agree; [|exact Hc]. intros id Hid. apply Hf. intros Hu.
    apply NoDup_app in Hnd as (_ & Hnd & _). exact (Hnd id Hid Hu).
  - intros id Hid. destruct (decide (id ∈ used)) as [Hu|Hu]; [apply elem_of_app; by right|].
    apply Hdom. apply elem_of_dom in Hid. apply elem_of_dom. by rewrite <-(Hf id Hu).
Qed.

Lemma set_groupindex_ok pool ids y :
  NoDup ids -> Forall (fun id => is_Some (pool !! id)) ids ->
  exists pool', set_groupindex pool (map Some ids) y = Some pool'
    /\ (forall id, id ∉ ids -> pool' !! id = pool !! id)
    /\ Forall (fun id => exists s, pool !! id = Some s
                            /\ pool' !! id = Some (s <| groupindex := i32 y |>)) ids.
Proof.
  revert pool. induction ids as [|id ids IH]; intros pool Hnd Hs; cbn [map set_groupindex].
  { by exists pool. }
  apply NoDup_cons in Hnd as [Hid Hnd]. apply Forall_cons in Hs as [[s Hs] Hss]. rewrite Hs.
  destruct (IH (<[id := s <| groupindex := i32 y |>]> pool) Hnd) as (pool' & -> & Hf & Hset).
  { eapply Forall_impl; [exact Hss|]. intros i. cbn beta.
    rewrite <-!elem_of_dom, dom_insert. set_solver. }
  exists pool'. split; [done|]. split.
  - intros i. rewrite not_elem_of_cons. intros [Hi Hi']. rewrite Hf by done.
    by rewrite lookup_insert_ne.
  - constructor.
    + exists s. split; [done|]. by rewrite Hf, lookup_insert_eq.
    + rewrite Forall_forall in Hset |- *. intros i Hi. destruct (Hset i Hi) as (t & Ht & Ht').
      rewrite lookup_insert_ne in Ht by (intros ->; done). by exists t.
Qed.

(** *** Moving and destroying a group *)

Lemma slot_endpoints memc x g ids : slot memc x g ids ->
  rgroup_endpoints memc g = mapM (fun id => endpoint <$> server_pool memc !! id) ids.
Proof.
  intros ((Hr & Hn & Hlen) & _ & _). unfold rgroup_endpoints.
  rewrite Hr, Hn, take_app_length' by (by rewrite length_map). clear.
  induction ids as [|id ids IH]; [done|]. cbn [map mapM mbind option_bind]. by rewrite IH.
Qed.

Lemma index_set_ok memc x y g ids others :
  slot memc x g ids -> pool_inv memc (ids ++ others) ->
  exists pool' g', do_rgroup_index_set (server_pool memc) g (Z.of_nat y) = Some (pool', g')
    /\ let memc' := memc <| server_pool := pool' |> in
       slot memc' y g' ids /\ pool_inv memc' (ids ++ others)
       /\ (forall id, id ∈ others -> server_pool memc' !! id = server_pool memc !! id)
       /\ group_view memc' g' = group_view memc g /\ rgroup_is_dead g' = rgroup_is_dead g.
Proof.
  intros Hslot Hinv. pose proof Hslot as (Hg & Hx & Hs). unfold do_rgroup_index_set.
  destruct (Z.eqb_spec (rgroup_groupindex g) (Z.of_nat y)) as [E|E].
  { exists (server_pool memc), g. split; [done|]. cbv zeta.
    assert (memc <| server_pool := server_pool memc |> = memc) as -> by by destruct memc.
    assert (y = x) as -> by lia. by split_and!. }
  pose proof Hinv as [(unused & _ & Hnd & _) Hused _].
  apply NoDup_app in Hnd as (_ & _ & Hnd). apply NoDup_app in Hnd as (Hnd & Hdis & _).
  pose proof Hg as (Hr & Hn & Hlen). rewrite Hr, Hn, take_app_length' by (by rewrite length_map).
  apply Forall_app in Hused as [Hused Hothers].
  destruct (set_groupindex_ok (server_pool memc) ids (Z.of_nat y) Hnd) as (pool' & -> & Hf & Hset).
  { eapply Forall_impl; [exact Hs|]. intros id (s & -> & _). done. }
  eexists pool', _. split; [done|]. cbv zeta.
  assert (slot (memc <| server_pool := pool' |>) y (g <| rgroup_groupindex := Z.of_nat y |>) ids) as Hslot'.
  { split_and!; [done|done|]. eapply Forall_impl; [exact Hset|]. intros id (s & _ & Hs').
    eexists. by split. }
  assert (forall id, id ∈ others -> pool' !! id = server_pool memc !! id) as Ho.
  { intros id Hid. apply Hf. intros Hi. exact (Hdis id Hi Hid). }
  split; [done|]. split; [|split; [done|split; [|done]]].
  - apply pool_inv_update; [done| |].
    + intros id. rewrite not_elem_of_app. intros [Hid _]. by apply Hf.
    + apply Forall_app. split; rewrite Forall_forall in *; intros id Hid.
      * destruct (Hset id Hid) as (s & Hs1 & Hs2), (Hused id Hid) as (t & Ht & Ha).
        eexists. split; [exact Hs2|]. rewrite Hs1 in Ht. by injection Ht as ->.
      * rewrite Ho by done. by apply Hothers.
  - unfold group_view. cbn [groupname rgroup_weight update]. f_equal.
    rewrite (slot_endpoints _ _ _ _ Hslot'), (slot_endpoints _ _ _ _ Hslot).
    clear -Hset. induction Hset as [|id ids (s & Hs & Hs') _ IH]; [done|].
    cbn [mapM mbind option_bind server_pool update]. rewrite Hs, Hs'. cbn [fmap option_fmap option_map].
    cbn [server_pool update] in IH. by rewrite IH.
Qed.

Lemma slot_state memc x g ids others : slot memc x g ids -> pool_inv memc (ids ++ others) ->
  exists ss, group_state memc g others ss.
Proof.
  intros (Hg & Hx & Hs) Hinv.
  assert (exists ss, records memc ids ss /\ Forall (fun s => groupindex s = i32 (Z.of_nat x)) ss)
    as (ss & Hr & Hi).
  { clear -Hs. induction Hs as [|id ids (s & Hs & Hi) _ (ss & Hr & IH)].
    { exists []. split; constructor. }
    exists (s :: ss). split; by constructor. }
  exists ss. split; [by exists ids|]. by rewrite Hx.
Qed.

Lemma destroy_ok memc x g ids others :
  slot memc x g ids -> pool_inv memc (ids ++ others) ->
  exists memc' g', do_rgroup_destroy memc g = Some (memc', g')
    /\ pool_inv memc' others /\ frame others memc memc'.
Proof.
  intros Hslot Hinv. destruct (slot_state _ _ _ _ _ Hslot Hinv) as [ss Hst].
  pose proof (group_state_length _ _ _ _ Hst) as Hn. unfold do_rgroup_destroy.
  destruct (remove_replicas_ok others (nreplica g) 0 memc g ss Hst) as (m & g' & -> & Hst' & Hfr & _);
    [lia|].
  cbn [mbind option_bind]. eexists m, _. split; [done|]. split; [|done].
  destruct Hst' as [(ids' & _ & Hinv' & Hr) _]. by inversion Hr; subst.
Qed.

(** *** Removing the dead groups *)

Definition alive (g : memcached_rgroup_st) : Prop := rgroup_is_dead g = false.
#[export] Instance alive_dec g : Decision (alive g).
Proof. unfold alive. apply _. Defined.

(** Everything but the groups and the pool. *)
Definition only_groups (p q : memcached_st) : Prop :=
  q = p <| server_pool := server_pool q |> <| free_server := free_server q |>
        <| server_navail := server_navail q |>
        <| server_info_version := server_info_version q |> <| rgroups := rgroups q |>.

Lemma only_groups_refl p : only_groups p p.
Proof. by destruct p. Qed.

Lemma only_groups_trans p q r : only_groups p q -> only_groups q r -> only_groups p r.
Proof. unfold only_groups. intros -> ->. by destruct p. Qed.

Lemma only_pool_rgroups p q gs : only_pool p q -> only_groups p (q <| rgroups := gs |>).
Proof. unfold only_pool. intros ->. by destruct p. Qed.

Lemma set_pool_rgroups p pool gs : only_groups p (p <| server_pool := pool |> <| rgroups := gs |>).
Proof. by destruct p. Qed.

(** One round of the loop turns the state (kept, stale, left) into the next. *)
Record pruning (memc : memcached_st) (kept stale left : list memcached_rgroup_st)
    (kids lids : list (list nat)) : Prop := {
  pruning_slots : exists tail, rgroups memc = kept ++ stale ++ left ++ tail;
  pruning_kept : groups_at memc 0 kept kids;
  pruning_left : groups_at memc (length (kept ++ stale)) left lids;
  pruning_pool : pool_inv memc (concat kids ++ concat lids);
  pruning_alive : Forall alive kept;
}.

Lemma pruning_dead memc kept stale g left kids lids :
  pruning memc kept stale (g :: left) kids lids ->
  exists memc' g' lids', do_rgroup_destroy memc g = Some (memc', g')
    /\ let memc'' := memc' <| rgroups ::= <[length (kept ++ stale) := g']> |> in
       pruning memc'' kept (stale ++ [g']) left kids lids' /\ only_groups memc memc''
       /\ map (group_view memc'') (kept ++ left) = map (group_view memc) (kept ++ left).
Proof.
  intros [(tail & Hrg) Hk Hl Hp Ha]. destruct lids as [|ids lids]; [done|].
  destruct Hl as [Hslot Hl]. cbn [concat] in Hp.
  assert (pool_inv memc (ids ++ concat kids ++ concat lids)) as Hinv.
  { eapply pool_inv_proper; [|exact Hp]. solve_Permutation. }
  destruct (destroy_ok _ _ _ _ _ Hslot Hinv) as (m & g' & -> & Hinv' & [Ho Hf]).
  exists m, g', lids. split; [done|]. cbv zeta.
  assert (rgroups m = rgroups memc) as Hr by by rewrite Ho.
  set (m' := m <| rgroups ::= _ |>).
  destruct (groups_at_frame memc m' 0 kept kids) as [Hk' Hvk]; [|done|].
  { intros id Hid. apply Hf, elem_of_app. by left. }
  destruct (groups_at_frame memc m' (S (length (kept ++ stale))) left lids) as [Hl' Hvl]; [|done|].
  { intros id Hid. apply Hf, elem_of_app. by right. }
  split; [split|].
  - exists tail. subst m'. cbn [rgroups update]. rewrite Hr, Hrg, !app_assoc.
    rewrite <-!app_assoc, (app_assoc kept stale), insert_app_r_alt by lia.
    rewrite Nat.sub_diag. cbn. by rewrite <-!app_assoc.
  - done.
  - rewrite !length_app in *. cbn [length]. replace (_ + (_ + 1))%nat with (S (length kept + length stale)) by lia.
    done.
  - by destruct Hinv'.
  - done.
  - split; [exact (only_pool_rgroups _ _ _ Ho)|]. rewrite !map_app. by rewrite Hvk, Hvl.
Qed.

Lemma pruning_alive_stay memc kept g left kids lids :
  pruning memc kept [] (g :: left) kids lids -> alive g ->
  exists kids' lids', pruning memc (kept ++ [g]) [] left kids' lids'.
Proof.
  intros [(tail & Hrg) Hk Hl Hp Ha] Hg. destruct lids as [|ids lids]; [done|].
  destruct Hl as [Hslot Hl]. rewrite app_nil_r in *. exists (kids ++ [ids]), lids. split.
  - exists tail. rewrite Hrg. by rewrite <-!app_assoc.
  - apply groups_at_app; [by eapply groups_at_length|]. by split_and!.
  - rewrite app_nil_r, length_app, Nat.add_1_r. done.
  - rewrite concat_app. simpl. rewrite app_nil_r, <-app_assoc. done.
  - apply Forall_app. split; [done|by constructor].
Qed.

Lemma pruning_alive_move memc kept s0 stale g left kids lids :
  pruning memc kept (s0 :: stale) (g :: left) kids lids -> alive g ->
  exists pool' g' kids' lids',
    do_rgroup_index_set (server_pool memc) g (Z.of_nat (length kept)) = Some (pool', g')
    /\ let memc' := memc <| server_pool := pool' |> <| rgroups ::= <[length kept := g']> |> in
       pruning memc' (kept ++ [g']) (stale ++ [g]) left kids' lids' /\ only_groups memc memc'
       /\ map (group_view memc') (kept ++ [g'] ++ left) = map (group_view memc) (kept ++ [g] ++ left).
Proof.
  intros [(tail & Hrg) Hk Hl Hp Ha] Hg. destruct lids as [|ids lids]; [done|].
  destruct Hl as [Hslot Hl]. cbn [concat] in Hp.
  assert (pool_inv memc (ids ++ concat kids ++ concat lids)) as Hinv.
  { eapply pool_inv_proper; [|exact Hp]. solve_Permutation. }
  destruct (index_set_ok _ _ (length kept) _ _ _ Hslot Hinv)
    as (pool' & g' & -> & Hslot' & Hinv' & Hf & Hv & Hd).
  exists pool', g', (kids ++ [ids]), lids. split; [done|]. cbv zeta.
  set (m' := _ <| rgroups ::= _ |>).
  destruct (groups_at_frame memc m' 0 kept kids) as [Hk' Hvk]; [|done|].
  { intros id Hid. apply Hf, elem_of_app. by left. }
  destruct (groups_at_frame memc m' (S (length (kept ++ s0 :: stale))) left lids) as [Hl' Hvl];
    [|done|].
  { intros id Hid. apply Hf, elem_of_app. by right. }
  split; [split|].
  - exists tail. subst m'. cbn [rgroups update]. rewrite Hrg, insert_app_r_alt by lia.
    rewrite Nat.sub_diag. cbn. by rewrite <-!app_assoc.
  - apply groups_at_app; [by eapply groups_at_length|]. split; [done|]. cbn. split; [exact Hslot'|done].
  - rewrite !length_app in *. cbn [length] in *.
    replace (length kept + 1 + (length stale + 1))%nat with (S (length kept + S (length stale))) by lia.
    done.
  - rewrite concat_app. simpl. rewrite app_nil_r.
    eapply (pool_inv_proper m'); [|destruct Hinv'; by split]. solve_Permutation.
  - apply Forall_app. split; [done|]. constructor; [|done]. unfold alive. by rewrite Hd.
  - split; [apply set_pool_rgroups|]. rewrite !map_app. f_equal; [done|]. f_equal; [|done].
    cbn. f_equal. exact Hv.
Qed.

Lemma filter_alive_cons g gs :
  filter alive (g :: gs) = (if rgroup_is_dead g then [] else [g]) ++ filter alive gs.
Proof.
  unfold alive. destruct (rgroup_is_dead g) eqn:E.
  - by rewrite filter_cons_False by (by rewrite E).
  - by rewrite filter_cons_True.
Qed.

Lemma map_filter_alive memc memc' gs :
  map (group_view memc') gs = map (group_view memc) gs ->
  map (group_view memc') (filter alive gs) = map (group_view memc) (filter alive gs).
Proof.
  induction gs as [|g gs IH]; [done|]. cbn [map]. intros Hv.
  pose proof (inj Some _ _ (f_equal head Hv)) as Hv1. apply (f_equal tail) in Hv. cbn [tail] in Hv. rewrite filter_alive_cons.
  destruct (rgroup_is_dead g); [by apply IH|]. cbn. by rewrite IH, Hv1.
Qed.

Lemma rgroup_prune_loop_ok left memc kept stale kids lids :
  pruning memc kept stale left kids lids ->
  exists memc' gs kids' lost,
    rgroup_prune_loop (length left) (length (kept ++ stale)) (length kept) memc
      = Some (length gs, memc')
    /\ pruning memc' gs lost [] kids' [] /\ only_groups memc memc'
    /\ map (group_view memc') gs = map (group_view memc) (kept ++ filter alive left).
Proof.
  revert memc kept stale kids lids.
  induction left as [|g left IH]; intros memc kept stale kids lids Hp; cbn [length rgroup_prune_loop].
  { exists memc, kept, kids, stale. rewrite filter_nil, app_nil_r.
    destruct lids as [|ids lids]; [|by destruct Hp].
    split_and!; [done|done|apply only_groups_refl|done]. }
  pose proof Hp as [(tail & Hrg) _ _ _ _].
  assert (rgroups memc !! length (kept ++ stale) = Some g) as ->.
  { rewrite Hrg, app_assoc. by apply list_lookup_middle. }
  cbn [mbind option_bind]. rewrite filter_alive_cons. destruct (rgroup_is_dead g) eqn:Hd.
  - destruct (pruning_dead _ _ _ _ _ _ _ Hp) as (m & g' & lids' & -> & Hp' & Ho & Hv).
    cbn [mbind option_bind]. destruct (IH _ _ _ _ _ Hp') as (m2 & gs & kids' & lost & Hl & Hp2 & Ho2 & Hv2).
    rewrite app_assoc, length_app, Nat.add_1_r in Hl.
    exists m2, gs, kids', lost. split; [exact Hl|]. split; [done|].
    split; [exact (only_groups_trans _ _ _ Ho Ho2)|]. rewrite Hv2. cbn [app].
    rewrite !map_app in Hv |- *. apply app_inj_1 in Hv as [Hv1 Hv3]; [|by rewrite !length_map].
    rewrite Hv1. f_equal. by apply map_filter_alive.
  - destruct stale as [|s0 stale].
    + rewrite app_nil_r. rewrite Nat.ltb_irrefl.
      destruct (pruning_alive_stay _ _ _ _ _ _ Hp Hd) as (kids' & lids' & Hp').
      destruct (IH _ _ _ _ _ Hp') as (m2 & gs & kids2 & lost & Hl & Hp2 & Ho2 & Hv2).
      rewrite app_nil_r, length_app, Nat.add_1_r in Hl.
      exists m2, gs, kids2, lost. rewrite app_assoc. by split_and!.
    + rewrite length_app, (proj2 (Nat.ltb_lt _ _)) by (simpl; lia).
      destruct (pruning_alive_move _ _ _ _ _ _ _ _ Hp Hd)
        as (pool' & g' & kids' & lids' & -> & Hp' & Ho & Hv).
      cbn [mbind option_bind].
      destruct (IH _ _ _ _ _ Hp') as (m2 & gs & kids2 & lost & Hl & Hp2 & Ho2 & Hv2).
      rewrite !length_app in Hl. cbn [length] in Hl |- *.
      replace (length kept + 1 + (length stale + 1))%nat with (S (length kept + S (length stale))) in Hl by lia.
      rewrite Nat.add_1_r in Hl.
      exists m2, gs, kids2, lost. split; [exact Hl|]. split; [done|].
      split; [exact (only_groups_trans _ _ _ Ho Ho2)|]. rewrite Hv2.
      rewrite <-app_assoc, !map_app in *. apply app_inj_1 in Hv as [Hv1 Hv3]; [|by rewrite !length_map].
      apply app_inj_1 in Hv3 as [Hv3 Hv4]; [|done]. rewrite Hv1, Hv3. do 2 f_equal.
      by apply map_filter_alive.
Qed.

Lemma only_groups_count p q n :
  only_groups p q -> only_groups (p <| number_of_hosts := n |>) (q <| number_of_hosts := n |>).
Proof. unfold only_groups. intros ->. by destruct p. Qed.

Lemma groups_inv_start memc idss : groups_inv memc idss ->
  pruning memc [] [] (groups_of memc) [] idss
  /\ Z.to_nat (number_of_hosts memc) = length (groups_of memc).
Proof.
  intros [Hn Hs Hp]. pose proof (groups_at_length _ _ _ _ Hs) as Hl. split; [|rewrite Hl, Hn; lia].
  split; [|done|done|done|done]. eexists. symmetry. apply take_drop.
Qed.

Lemma pruning_end memc gs lost kids :
  pruning memc gs lost [] kids [] ->
  let memc' := memc <| number_of_hosts := Z.of_nat (length gs) |> in
  groups_inv memc' kids /\ groups_of memc' = gs.
Proof.
  intros [(tail & Hrg) Hk _ Hp Ha] memc'. pose proof (groups_at_length _ _ _ _ Hk) as Hl.
  assert (groups_of memc' = gs) as E.
  { unfold groups_of, memc'. cbn [number_of_hosts rgroups update].
    by rewrite Hrg, Nat2Z.id, take_app_length. }
  split; [|done]. split.
  - cbn. by rewrite Hl.
  - rewrite E. by apply (groups_at_frame memc memc').
  - rewrite app_nil_r in Hp. by destruct Hp.
Qed.

Lemma prune_groups_ok memc idss :
  groups_inv memc idss ->
  exists memc' idss', memcached_rgroup_prune memc false = Some memc'
    /\ groups_inv memc' idss'
    /\ map (group_view memc') (groups_of memc')
       = map (group_view memc) (filter alive (groups_of memc))
    /\ Forall alive (groups_of memc')
    /\ only_groups (memc <| number_of_hosts := number_of_hosts memc' |>) memc'.
Proof.
  intros Hinv. destruct (groups_inv_start _ _ Hinv) as [Hp Hn]. unfold memcached_rgroup_prune.
  destruct (rgroup_prune_loop_ok _ _ _ _ _ _ Hp) as (m & gs & kids & lost & Hl & Hp' & Ho & Hv).
  cbn [app length] in Hl. rewrite Hn, Hl. cbn [mbind option_bind].
  assert (number_of_hosts memc = 0 -> m = m <| number_of_hosts := Z.of_nat (length gs) |>) as Hnone.
  { intros E. rewrite E in Hn. destruct (groups_of memc); [|done]. cbn in Hl. injection Hl as Hlen <-.
    destruct gs; [|done]. clear -E. destruct memc. cbn in E. by subst. }
  destruct (pruning_end _ _ _ _ Hp') as [Hinv' Hgs].
  exists (m <| number_of_hosts := Z.of_nat (length gs) |>), kids.
  assert (number_of_hosts m = number_of_hosts memc) as -> by by rewrite Ho.
  split; [destruct (Z.eqb_spec (number_of_hosts memc) 0); [f_equal; by apply Hnone|reflexivity]|]. split; [exact Hinv'|]. rewrite Hgs. split; [exact Hv|].
  split; [by destruct Hp'|]. by apply only_groups_count.
Qed.

(** removing the dead groups never fails an assertion and never touches an
    absent server.  The groups that are left are exactly those that were not
    dead, in their order, with their names, weights and servers; each is in its
    slot and its servers know the slot; the servers of the dead groups are
    unused again; and nothing else of the handle changes. *)
Theorem memcached_rgroup_prune_spec memc idss :
  groups_inv memc idss ->
  exists memc' idss', memcached_rgroup_prune memc false = Some memc'
    /\ groups_inv memc' idss'
    /\ map (group_view memc') (groups_of memc')
       = map (group_view memc) (filter alive (groups_of memc))
    /\ Forall alive (groups_of memc')
    /\ only_groups (memc <| number_of_hosts := number_of_hosts memc' |>) memc'.
Proof. apply prune_groups_ok. Qed.

(** ** Freeing the list *)

Lemma destroy_groups_ok gs memc x idss :
  groups_at memc x gs idss -> pool_inv memc (concat idss) ->
  exists memc', destroy_groups memc gs = Some memc' /\ pool_inv memc' [] /\ only_pool memc memc'.
Proof.
  revert memc x idss. induction gs as [|g gs IH]; intros memc x [|ids idss] Hat Hp; try done.
  { exists memc. split_and!; [done|done|apply only_pool_refl]. }
  destruct Hat as [Hslot Hat]. cbn [destroy_groups concat] in *.
  destruct (destroy_ok _ _ _ _ _ Hslot Hp) as (m & g' & -> & Hp' & [Ho Hf]).
  cbn [mbind option_bind].
  destruct (IH m (S x) idss) as (m' & -> & Hp2 & Ho2); [by apply (groups_at_frame memc)|done|].
  exists m'. split; [done|]. split; [done|]. exact (only_pool_trans _ _ _ Ho Ho2).
Qed.

Definition pool_empty (p q : memcached_st) : Prop :=
  q = p <| server_pool := ∅ |> <| free_server := None |> <| server_navail := 0 |>.

Lemma free_servers_ok unused memc fuel :
  chain (server_pool memc) (free_server memc) unused -> NoDup unused ->
  (forall id, id ∈ dom (server_pool memc) -> id ∈ unused) ->
  server_navail memc = Z.of_nat (length unused) -> Z.of_nat (length unused) < 2 ^ 32 ->
  (length unused <= fuel)%nat ->
  exists memc', free_servers fuel memc = Some memc' /\ pool_empty memc memc'.
Proof.
  revert memc fuel. induction unused as [|id unused IH]; intros memc fuel Hc Hnd Hdom Hav Hlt Hf.
  - exists memc. cbn in Hc. assert (server_pool memc = ∅) as He.
    { apply dom_empty_inv_L, elem_of_equiv_empty_L. intros id Hid. apply Hdom in Hid.
      by apply not_elem_of_nil in Hid. }
    split.
    + destruct fuel; cbn [free_servers]; unfold do_rgroup_server_alloc; by rewrite Hc.
    + unfold pool_empty. cbn in Hav. destruct memc. cbn in *. by subst.
  - destruct Hc as [Hfree (s & Hs & Hc)]. apply NoDup_cons in Hnd as [Hid Hnd].
    destruct fuel as [|fuel]; cbn [length] in *; [lia|]. cbn [free_servers].
    unfold do_rgroup_server_alloc. rewrite Hfree, Hs. cbn [mbind option_bind].
    destruct (IH ((memc <| free_server := next s |> <| server_navail ::= (fun n => n ⊟ 1) |>)
                   <| server_pool ::= delete id |>) fuel) as (m' & Hm & He).
    + cbn [server_pool free_server update]. eapply chain_agree; [|exact Hc].
      intros i Hi. by rewrite lookup_delete_ne by (intros ->; done).
    + done.
    + cbn [server_pool update]. intros i. rewrite dom_delete, elem_of_difference, elem_of_singleton.
      intros [Hi Hne]. apply Hdom, elem_of_cons in Hi. tauto.
    + cbn [server_navail update]. rewrite Hav, u32_small; lia.
    + lia.
    + lia.
    + exists m'. split; [exact Hm|]. unfold pool_empty in *. rewrite He. by destruct memc.
Qed.

Lemma pool_inv_none memc : pool_inv memc [] ->
  exists memc', free_servers (base.size (server_pool memc)) memc = Some memc' /\ pool_empty memc memc'.
Proof.
  intros [(unused & Hc & Hnd & Hdom & Hav & Htot) _ Hb]. rewrite app_nil_r in *.
  apply (free_servers_ok unused); [done..|lia|].
  rewrite <-size_dom, <-(size_list_to_set (C := gset nat) unused) by done.
  apply subseteq_size. intros id Hid. apply elem_of_list_to_set in Hid. apply elem_of_dom.
  by eapply chain_member.
Qed.

(** freeing the groups of a handle gives back every server exactly once: the
    loop over the unused servers ends, no record is freed twice or while in use,
    and nothing is left in the pool.  The handle then has no groups, and nothing
    else of it changes but the version of the list. *)
Theorem memcached_rgroup_list_free_spec memc idss :
  groups_inv memc idss -> rgroup_ntotal memc <> 0 ->
  exists memc', memcached_rgroup_list_free memc = Some memc'
    /\ server_pool memc' = ∅ /\ free_server memc' = None /\ groups_of memc' = []
    /\ groups_inv memc' []
    /\ memc' = memc <| server_pool := ∅ |> <| free_server := None |> <| server_navail := 0 |>
                    <| server_info_version := server_info_version memc' |>
                    <| rgroups := [] |> <| rgroup_ntotal := 0 |>
                    <| server_ntotal := 0 |> <| number_of_hosts := 0 |>.
Proof.
  intros [Hn Hs Hp] Hnt. unfold memcached_rgroup_list_free.
  rewrite (proj2 (Z.eqb_neq _ _) Hnt).
  destruct (destroy_groups_ok _ _ _ _ Hs Hp) as (m & Hd & Hp' & Ho).
  unfold groups_of in Hd. rewrite Hd. cbn [mbind option_bind].
  destruct (pool_inv_none (m <| rgroups := [] |> <| rgroup_ntotal := 0 |>)) as (m' & Hm & He).
  { by destruct Hp'. }
  cbv zeta. rewrite Hm. cbn [mbind option_bind].
  eexists. split; [reflexivity|].
  set (q := m' <| server_ntotal := 0 |> <| number_of_hosts := 0 |>).
  assert (q = memc <| server_pool := ∅ |> <| free_server := None |> <| server_navail := 0 |>
                   <| server_info_version := server_info_version q |>
                   <| rgroups := [] |> <| rgroup_ntotal := 0 |>
                   <| server_ntotal := 0 |> <| number_of_hosts := 0 |>) as Hq.
  { subst q. rewrite He, Ho. by destruct memc. }
  clearbody q. split_and!; [by rewrite Hq..| |done]. rewrite Hq. split; [done|done|].
  split; [|done|done]. exists [].
  split_and!; [done|constructor| |done|done]. intros id Hid. cbn in Hid. by rewrite dom_empty_L in Hid.
Qed.

(** ** Adding groups *)

Definition valid_groupname (name : bytes) : Prop :=
  cstr name = name /\ Z.of_nat (length name) < RGROUP_NAME_LENGTH.

Lemma groups_bound memc x gs idss : groups_at memc x gs idss ->
  (length (concat idss) <= 3 * length idss)%nat.
Proof.
  revert x idss. induction gs as [|g gs IH]; intros x [|ids idss] Hat; try done.
  destruct Hat as [((_ & _ & Hlen) & _) Hat]. specialize (IH _ _ Hat).
  cbn [concat length]. rewrite length_app. unfold RGROUP_MAX_REPLICA in Hlen. lia.
Qed.

Lemma records_endpoints memc ids ss : records memc ids ss ->
  mapM (fun id => endpoint <$> server_pool memc !! id) ids = Some (map endpoint ss).
Proof.
  intros Hr. induction Hr as [|id s ids ss Hs _ IH]; [done|].
  cbn [mapM mbind option_bind]. rewrite Hs. cbn. by rewrite IH.
Qed.

Lemma records_slots memc ids ss x : records memc ids ss ->
  Forall (fun s => groupindex s = x) ss ->
  Forall (fun id => exists s, server_pool memc !! id = Some s /\ groupindex s = x) ids.
Proof.
  intros Hr. induction Hr as [|id s ids ss Hs _ IH]; [constructor|].
  intros [Hx Hss]%Forall_cons. constructor; [by exists s|by apply IH].
Qed.

Lemma only_pool_push p q gs n : only_pool p q ->
  only_groups (p <| number_of_hosts := n |>) (q <| rgroups := gs |> <| number_of_hosts := n |>).
Proof. unfold only_pool, only_groups. intros ->. by destruct p. Qed.

(** A group that is added. *)
Definition pushed (memc memc' : memcached_st) (idss : list (list nat))
    (new : list (bytes * Z * option (list (bytes * Z)))) : Prop :=
  exists idss', groups_inv memc' idss'
    /\ map (group_view memc') (groups_of memc') = map (group_view memc) (groups_of memc) ++ new
    /\ only_groups (memc <| number_of_hosts := number_of_hosts memc' |>) memc'
    /\ length idss' = (length idss + length new)%nat.

Lemma push_rgroup_ok junk_group memc idss name others :
  groups_inv memc idss -> valid_groupname name -> Forall valid_endpoint others ->
  (length others <= 3)%nat -> Z.of_nat (length idss) < rgroup_ntotal memc ->
  rgroup_ntotal memc < 2 ^ 32 -> 3 * Z.of_nat (S (length idss)) <= server_ntotal memc ->
  exists memc', push_rgroup junk_group memc name others = Some memc'
    /\ pushed memc memc' idss [(name, 1, Some others)].
Proof.
  intros [Hn Hs Hp] [Hname Hlen] Hv Ho Hroom Hr Hserv. unfold push_rgroup.
  rewrite (proj2 (Z.leb_gt _ _)) by lia. unfold do_rgroup_init.
  rewrite Hname, (proj2 (Z.ltb_lt _ _) Hlen). cbn [negb mbind option_bind].
  set (g0 := update replicas _ _).
  pose proof (groups_bound _ _ _ _ Hs) as Hbound. pose proof (groups_at_length _ _ _ _ Hs) as Hl.
  assert (group_state memc g0 (concat idss) []) as Hst.
  { split; [|constructor]. exists []. split_and!; [|done|constructor].
    unfold group_of, RGROUP_MAX_REPLICA. split_and!; [done|done|simpl; lia]. }
  destruct (insert_servers_ok (concat idss) others memc g0 [] Hst)
    as (m & g & new & Hins & Hst' & He & Hf & Hfr & Hsg); [simpl; lia|done|lia|].
  cbn [length app] in Hins, Hst'. rewrite Hins. cbn [mbind option_bind].
  eexists. split; [reflexivity|].
  destruct Hst' as [(ids & Hg & Hp' & Hrec) Hidx]. destruct Hfr as [Hop Hfr].
  set (q := m <| rgroups ::= _ |> <| number_of_hosts := _ |>).
  assert (rgroups m = rgroups memc) as Hrg by by rewrite Hop.
  assert (number_of_hosts q = Z.of_nat (length idss + 1)) as Hnq.
  { subst q. cbn [number_of_hosts update]. rewrite Hn, u32_small; lia. }
  assert (groups_of q = groups_of memc ++ [g]) as Hgq.
  { unfold groups_of at 1. rewrite Hnq. subst q. cbn [rgroups update]. rewrite Hrg.
    fold (groups_of memc). rewrite Nat2Z.id, cons_middle, app_assoc.
    apply take_app_length'. rewrite length_app. simpl. lia. }
  assert (group_view q g = (name, 1, Some others)) as Hvg.
  { unfold group_view. rewrite Hsg. f_equal. rewrite <-Hsg.
    pose proof Hg as (Hr1 & Hr2 & Hr3). unfold rgroup_endpoints.
    rewrite Hr1, Hr2, take_app_length' by (by rewrite length_map).
    rewrite <-He, <-(records_endpoints _ _ _ Hrec). clear. induction ids as [|id ids IH]; [done|].
    cbn [map mapM mbind option_bind]. by rewrite IH. }
  destruct (groups_at_frame memc q 0 (groups_of memc) idss) as [Hat Hvs]; [exact Hfr|exact Hs|].
  exists (idss ++ [ids]). split; [split|split; [|split]].
  - by rewrite Hnq, length_app.
  - rewrite Hgq. apply groups_at_app; [done|]. split; [done|]. cbn. split; [|done].
    split; [done|]. rewrite Hl. assert (rgroup_groupindex g = Z.of_nat (length idss)) as Hgi.
    { rewrite Hsg. cbn. by rewrite Hn. }
    split; [done|]. rewrite Hgi in Hidx. by apply records_slots with new.
  - rewrite concat_app. cbn. rewrite app_nil_r. rewrite (Permutation_app_comm (concat idss) ids). by destruct Hp'.
  - by rewrite Hgq, map_app, Hvs, <-Hvg.
  - exact (only_pool_push _ _ _ _ Hop).
  - by rewrite length_app.
Qed.

Lemma pushed_refl memc idss : groups_inv memc idss -> pushed memc memc idss [].
Proof.
  intros Hinv. exists idss. rewrite app_nil_r, Nat.add_0_r. split; [done|]. split; [done|]. split; [|done].
  assert (memc <| number_of_hosts := number_of_hosts memc |> = memc) as -> by by destruct memc.
  apply only_groups_refl.
Qed.

(** What the groups to be added must be like: [endpoints] are their servers. *)
Definition pushable (name : bytes) (endpoints : option (list (bytes * Z))) : Prop :=
  valid_groupname name
  /\ exists others, endpoints = Some others /\ Forall valid_endpoint others /\ (length others <= 3)%nat.

Lemma only_groups_count_trans p q r :
  only_groups (p <| number_of_hosts := number_of_hosts q |>) q ->
  only_groups (q <| number_of_hosts := number_of_hosts r |>) r ->
  only_groups (p <| number_of_hosts := number_of_hosts r |>) r.
Proof. unfold only_groups. intros -> ->. by destruct p. Qed.

Lemma pushed_room memc memc' idss new : pushed memc memc' idss new ->
  rgroup_ntotal memc' = rgroup_ntotal memc /\ server_ntotal memc' = server_ntotal memc.
Proof. intros (? & _ & _ & Ho & _). by rewrite Ho. Qed.

Lemma groups_extended memc memc' idss : groups_inv memc idss ->
  pool_extended (concat idss) (memc <| rgroup_ntotal := rgroup_ntotal memc' |>) memc' ->
  groups_inv memc' idss
  /\ map (group_view memc') (groups_of memc') = map (group_view memc) (groups_of memc).
Proof.
  intros [Hn Hs Hp] (Hp' & Heq & Hf).
  destruct (groups_at_frame memc memc' 0 (groups_of memc) idss) as [Hat Hv]; [exact Hf|done|].
  assert (groups_of memc' = groups_of memc) as Hg by (unfold groups_of; by rewrite Heq).
  rewrite Hg. split; [|done]. split; [by rewrite Heq|by rewrite Hg|done].
Qed.

Lemma groups_inv_weighted memc idss b : groups_inv memc idss ->
  groups_inv (memc <| ketama_weighted := b |>) idss.
Proof.
  intros [Hn Hs Hp]. split; [done| |by destruct Hp].
  by apply (groups_at_frame memc (memc <| ketama_weighted := b |>)).
Qed.

Definition weighted_group (g : memcached_rgroup_st) : bool := 1 <? rgroup_weight g.

(** What a client sees of a group of another handle that was pushed: the weight
    is not copied. *)
Definition pushed_view (source : memcached_st) (g : memcached_rgroup_st) :=
  (groupname g, 1, rgroup_endpoints source g).

Lemma push_group_loop_ok junk_group source gl memc idss :
  groups_inv memc idss ->
  Forall (fun g => pushable (groupname g) (rgroup_endpoints source g)) gl ->
  Z.of_nat (length idss + length gl) <= rgroup_ntotal memc < 2 ^ 32 ->
  3 * Z.of_nat (length idss + length gl) <= server_ntotal memc ->
  exists memc', push_group_loop junk_group memc source gl = Some memc'
    /\ pushed (memc <| ketama_weighted := ketama_weighted memc' |>) memc' idss
         (map (pushed_view source) gl)
    /\ ketama_weighted memc' = ketama_weighted memc || existsb weighted_group gl.
Proof.
  revert memc idss. induction gl as [|g gl IH]; intros memc idss Hinv Hgl Hr Hs; cbn [push_group_loop].
  { exists memc. rewrite orb_false_r. split; [done|]. split; [|done].
    assert (memc <| ketama_weighted := ketama_weighted memc |> = memc) as -> by by destruct memc.
    by apply pushed_refl. }
  apply Forall_cons in Hgl as [(Hname & others & He & Hv & Hlen) Hgl]. rewrite He.
  cbn [mbind option_bind length] in *.
  destruct (push_rgroup_ok junk_group memc idss (groupname g) others Hinv Hname Hv Hlen)
    as (m1 & -> & Hp1); [lia..|].
  cbn [mbind option_bind]. destruct (pushed_room _ _ _ _ Hp1) as [Hr1 Hs1].
  destruct Hp1 as (idss1 & Hinv1 & Hv1 & Ho1 & Hl1). cbn [length] in Hl1.
  set (m2 := if 1 <? rgroup_weight g then _ else _).
  assert (m2 = m1 <| ketama_weighted := ketama_weighted m1 || weighted_group g |>) as Hm2.
  { subst m2. unfold weighted_group. destruct (1 <? rgroup_weight g).
    - by rewrite orb_true_r.
    - rewrite orb_false_r. by destruct m1. }
  clearbody m2.
  destruct (IH m2 idss1) as (m3 & -> & (idss3 & Hinv3 & Hv3 & Ho3 & Hl3) & Hw3).
  { rewrite Hm2. by apply groups_inv_weighted. }
  { done. }
  { rewrite Hm2. cbn. rewrite Hr1, Hl1. lia. }
  { rewrite Hm2. cbn. rewrite Hs1, Hl1. lia. }
  exists m3. split; [done|]. split.
  - exists idss3. split; [done|]. split; [|split].
    + rewrite Hv3, Hm2. cbn [map]. rewrite cons_middle, app_assoc. f_equal.
      change (pushed_view source g) with (groupname g, 1, rgroup_endpoints source g).
      rewrite He. exact Hv1.
    + clear -Ho1 Ho3 Hm2. unfold only_groups in *. rewrite Ho3, Hm2, Ho1. by destruct memc.
    + cbn [map length] in *. lia.
  - rewrite Hw3, Hm2. cbn [ketama_weighted update existsb].
    assert (ketama_weighted m1 = ketama_weighted memc) as -> by by rewrite Ho1.
    by rewrite orb_assoc.
Qed.

(** Pushing the groups of another handle onto a consistent one succeeds and
    keeps it consistent: the servers allocated are always enough, no assertion
    fails, and the groups are those there were followed by copies of the pushed
    ones, with the same names and servers; ketama becomes weighted when a pushed
    group has a weight above one, although the copies have weight one. *)
Theorem memcached_rgroup_push_spec `{Qsort} e junk_group junk malloc store memc source gl idss :
  groups_inv memc idss ->
  Forall (fun g => pushable (groupname g) (rgroup_endpoints source g)) gl ->
  0 <= rgroup_ntotal memc < 2 ^ 32 -> 3 * Z.of_nat (length idss + length gl) < 2 ^ 32 - 10 ->
  3 * Z.of_nat (length idss + length gl) < server_ntotal memc + Z.of_nat malloc ->
  exists memc' idss',
    memcached_rgroup_push e junk_group junk true malloc store memc source (Some gl)
      = run_distribution e store memc'
    /\ groups_inv memc' idss'
    /\ map (group_view memc') (groups_of memc')
       = map (group_view memc) (groups_of memc) ++ map (pushed_view source) gl
    /\ number_of_hosts memc' = number_of_hosts memc + Z.of_nat (length gl)
    /\ ketama_weighted memc' = ketama_weighted memc || existsb weighted_group gl.
Proof.
  intros Hinv Hgl Hr Hsum Hmalloc. pose proof Hinv as [Hn Hs Hp].
  unfold memcached_rgroup_push, RGROUP_MAX_REPLICA. rewrite Hn.
  rewrite (u32_small (_ + _)), (u32_small (_ * _)) by lia.
  destruct (expand_ok junk true malloc memc (concat idss) (Z.of_nat (length gl) + Z.of_nat (length idss))
    ((Z.of_nat (length gl) + Z.of_nat (length idss)) * Z.of_nat 3) Hp)
    as (ok & m & -> & Hok & Hext & Hr1 & Hroom); [lia..|].
  cbn [orb andb] in Hok. rewrite (proj2 (Z.leb_le _ _)) in Hok by lia. subst ok.
  destruct Hroom as [Hroom Hserv]; [done|].
  destruct (groups_extended _ _ _ Hinv Hext) as [Hinv1 Hv1].
  destruct (push_group_loop_ok junk_group source gl m idss Hinv1 Hgl)
    as (m' & -> & (idss' & Hinv2 & Hv2 & Ho2 & Hl2) & Hw); [lia..|].
  exists m', idss'. split; [done|]. split; [done|]. split; [|split].
  - rewrite Hv2. f_equal. exact Hv1.
  - destruct Hinv2 as [-> _ _]. rewrite Hl2, length_map. lia.
  - rewrite Hw. f_equal. by rewrite (proj1 (proj2 Hext)).
Qed.

(** ** Following a list of servers *)

(** No group is empty. *)
Definition full (idss : list (list nat)) : Prop := Forall (fun ids => ids <> []) idss.

Lemma groups_at_split memc x gs1 g gs2 idss : groups_at memc x (gs1 ++ g :: gs2) idss ->
  exists ids1 ids ids2, idss = ids1 ++ ids :: ids2 /\ length ids1 = length gs1.
Proof.
  intros Hl%groups_at_length. rewrite length_app in Hl. simpl in Hl.
  destruct (lookup_lt_is_Some_2 idss (length gs1)) as [ids Hids]; [lia|].
  exists (take (length gs1) idss), ids, (drop (S (length gs1)) idss).
  split; [by rewrite take_drop_middle|]. rewrite length_take. lia.
Qed.

Lemma groups_of_set memc gs1 g gs2 g' :
  groups_of memc = gs1 ++ g :: gs2 ->
  groups_of (memc <| rgroups ::= <[length gs1 := g']> |>) = gs1 ++ g' :: gs2.
Proof.
  intros Hg. unfold groups_of in *. cbn [number_of_hosts rgroups update].
  assert (length gs1 < Z.to_nat (number_of_hosts memc))%nat as Hlt.
  { apply (f_equal length) in Hg. rewrite length_take, length_app in Hg. simpl in Hg. lia. }
  rewrite take_insert_lt, Hg, insert_app_r_alt, Nat.sub_diag by lia. done.
Qed.

Lemma groups_of_lookup memc gs1 g gs2 :
  groups_of memc = gs1 ++ g :: gs2 -> rgroups memc !! length gs1 = Some g.
Proof.
  intros Hg. rewrite <-(take_drop (Z.to_nat (number_of_hosts memc)) (rgroups memc)).
  unfold groups_of in Hg. rewrite Hg, <-app_assoc. by apply list_lookup_middle.
Qed.

Lemma set_same_group memc gs1 g gs2 :
  groups_of memc = gs1 ++ g :: gs2 -> memc <| rgroups ::= <[length gs1 := g]> |> = memc.
Proof.
  intros Hg. apply groups_of_lookup in Hg. destruct memc. unfold update. cbn in *. by rewrite list_insert_id.
Qed.

(** Changing the group in a slot, whose servers may change. *)
Lemma update_slot_ok memc idss gs1 g gs2 info master slaves :
  groups_inv memc idss -> full idss -> groups_of memc = gs1 ++ g :: gs2 ->
  info_endpoints info = Some (master :: slaves) -> (length slaves <= 2)%nat ->
  Forall valid_endpoint (master :: slaves) -> 3 * Z.of_nat (length idss) < server_ntotal memc ->
  exists m g' c idss' slaves',
    memcached_rgroup_update_with_groupinfo memc g info = Some (m, g', c)
    /\ let memc' := m <| rgroups ::= <[length gs1 := g']> |> in
       groups_inv memc' idss' /\ full idss' /\ groups_of memc' = gs1 ++ g' :: gs2
       /\ group_view memc' g' = (groupname g, rgroup_weight g, Some (master :: slaves'))
       /\ slaves' ≡ₚ slaves /\ rgroup_is_dead g' = rgroup_is_dead g
       /\ map (group_view memc') gs1 = map (group_view memc) gs1
       /\ map (group_view memc') gs2 = map (group_view memc) gs2
       /\ only_groups memc memc' /\ (c = false -> memc' = memc /\ g' = g).
Proof.
  intros Hinv Hfull Hg Hinfo Hlen Hv Htot. pose proof Hinv as [Hn Hs Hp].
  pose proof (groups_at_length _ _ _ _ Hs) as Hl. rewrite Hg in Hs, Hl.
  assert (exists ids1 ids ids2, idss = ids1 ++ ids :: ids2 /\ length ids1 = length gs1)
    as (ids1 & ids & ids2 & -> & Hl1) by by eapply groups_at_split.
  apply groups_at_app in Hs as [Hs1 [Hslot Hs2]]; [|done].
  set (others := concat ids1 ++ concat ids2).
  assert (pool_inv memc (ids ++ others)) as Hp'.
  { eapply pool_inv_proper; [|exact Hp]. unfold others. rewrite concat_app. simpl. solve_Permutation. }
  destruct (slot_state _ _ _ _ _ Hslot Hp') as [ss Hst].
  assert (length others <= 3 * (length (ids1 ++ ids :: ids2) - 1))%nat as Hbound.
  { pose proof (groups_bound _ _ _ _ Hs1). pose proof (groups_bound _ _ _ _ Hs2).
    unfold others. rewrite !length_app. simpl. lia. }
  rewrite !length_app in *. cbn [length] in *.
  unfold memcached_rgroup_update_with_groupinfo. rewrite Hinfo. cbn [mbind option_bind].
  destruct (update_rgroup_ok others memc g ss master slaves Hst) as
    (m & g' & c & -> & [Ho Hf] & Hsg & s & ss' & Hst' & He & Hperm & _ & Hc); [|done|done|lia|].
  { intros ->. destruct Hst as [(i & (_ & Hi1 & _) & _ & Hr) _]. inversion Hr; subst.
    destruct Hslot as [(_ & Hi2 & _) _]. rewrite Hi1 in Hi2.
    apply Forall_app in Hfull as [_ Hfull]. apply Forall_cons in Hfull as [Hne _]. by destruct ids. }
  destruct Hst' as [(ids' & Hg' & Hp2 & Hr') Hidx].
  assert (groups_of m = groups_of memc) as Hgm by (unfold groups_of; by rewrite Ho).
  rewrite <-Hgm in Hg. pose proof (groups_of_set _ _ _ _ g' Hg) as Hgq.
  exists m, g', c, (ids1 ++ ids' :: ids2), (map endpoint ss'). split; [done|]. cbv zeta.
  set (q := m <| rgroups ::= _ |>) in *.
  destruct (groups_at_frame memc q 0 gs1 ids1) as [Ha1 Hv1]; [|done|].
  { intros id Hid. apply Hf, elem_of_app. by left. }
  destruct (groups_at_frame memc q (S (length gs1)) gs2 ids2) as [Ha2 Hv2]; [|done|].
  { intros id Hid. apply Hf, elem_of_app. by right. }
  pose proof Hslot as (_ & Hgi & _). rewrite Nat.add_0_l in Hgi.
  assert (rgroup_groupindex g' = Z.of_nat (length gs1)) as Hgi' by by rewrite Hsg.
  assert (slot q (length gs1) g' ids') as Hslot'.
  { split; [done|]. split; [done|]. rewrite Hgi' in Hidx. by apply records_slots with (s :: ss'). }
  split; [split|].
  - subst q. cbn [number_of_hosts update]. rewrite (f_equal number_of_hosts Ho). cbn.
    rewrite Hn, !length_app. done.
  - rewrite Hgq. by apply groups_at_app.
  - rewrite concat_app. cbn [concat]. eapply (pool_inv_proper q); [|destruct Hp2; by split].
    unfold others. solve_Permutation.
  - split; [|split; [done|split; [|split; [|split; [|split; [done|split; [done|split]]]]]]].
    + apply Forall_app in Hfull as [Hf1 Hf2]. apply Forall_cons in Hf2 as [_ Hf2].
      apply Forall_app. split; [done|]. apply Forall_cons. split; [|done].
      intros ->. inversion Hr'.
    + unfold group_view. rewrite (slot_endpoints _ _ _ _ Hslot').
      assert (records q ids' (s :: ss')) as Hrq by exact Hr'.
      rewrite (records_endpoints _ _ _ Hrq). cbn [map]. rewrite He. by rewrite Hsg.
    + done.
    + by rewrite Hsg.
    + exact (only_pool_rgroups _ _ _ Ho).
    + intros Ec. destruct (Hc Ec) as (_ & -> & ->). split; [|done]. subst q.
      by eapply set_same_group.
Qed.

Lemma mark_dead_ok memc idss gs1 g gs2 :
  groups_inv memc idss -> groups_of memc = gs1 ++ g :: gs2 ->
  let g' := g <| rgroup_is_dead := true |> in
  let memc' := memc <| rgroups ::= <[length gs1 := g']> |> in
  groups_inv memc' idss /\ groups_of memc' = gs1 ++ g' :: gs2
  /\ only_groups memc memc' /\ forall h, group_view memc' h = group_view memc h.
Proof.
  intros Hinv Hg g' memc'. pose proof (groups_of_set _ _ _ _ g' Hg) as Hgq. fold memc' in Hgq.
  split; [|split; [done|split; [by destruct memc|done]]].
  destruct Hinv as [Hn Hs Hp]. split; [done| |by destruct Hp]. rewrite Hgq. rewrite Hg in Hs.
  assert (exists ids1 ids ids2, idss = ids1 ++ ids :: ids2 /\ length ids1 = length gs1)
    as (ids1 & ids & ids2 & -> & Hl1) by by eapply groups_at_split.
  apply groups_at_app in Hs as [Hs1 [Hslot Hs2]]; [|done].
  apply groups_at_app; [done|]. split; [by apply (groups_at_frame memc)|].
  split; [done|by apply (groups_at_frame memc)].
Qed.

(** *** Matching the groups of a handle with the listed ones *)

Lemma groups_inv_length p q idss idss' :
  groups_inv p idss -> groups_inv q idss' -> only_groups p q -> length idss' = length idss.
Proof.
  intros [Hp _ _] [Hq _ _] Ho. assert (number_of_hosts q = number_of_hosts p) by by rewrite Ho. lia.
Qed.

Lemma map_view_app memc memc' gs1 gs2 l :
  map (group_view memc') gs1 ++ l = map (group_view memc) (gs1 ++ gs2) ->
  map (group_view memc') gs1 = map (group_view memc) gs1 /\ l = map (group_view memc) gs2.
Proof. rewrite map_app. intros H. apply app_inj_1 in H; [done|by rewrite !length_map]. Qed.

Section Follow.
(** The listed groups: complete, and of different names. *)
Variable infos : list memcached_rgroup_info_st.

Definition complete_info (info : memcached_rgroup_info_st) : Prop :=
  valid info = true /\ valid_groupname (info_group info)
  /\ exists master slaves, info_endpoints info = Some (master :: slaves)
       /\ (length slaves <= 2)%nat /\ Forall valid_endpoint (master :: slaves).

Hypothesis infos_complete : Forall complete_info infos.
Hypothesis infos_names : NoDup (map info_group infos).
Hypothesis infos_count : Z.of_nat (length infos) < 2 ^ 32.

(** The information after the groups called [seen] were matched. *)
Definition mark (seen : list bytes) (i : memcached_rgroup_info_st) : memcached_rgroup_info_st :=
  i <| valid := negb (bool_decide (info_group i ∈ seen)) |>.
Definition marks (seen : list bytes) : list memcached_rgroup_info_st := map (mark seen) infos.

(** The listed groups that are left. *)
Definition unmatched (seen : list bytes) : list memcached_rgroup_info_st :=
  filter (fun i => info_group i ∉ seen) infos.

Definition listed (name : bytes) : Prop := name ∈ map info_group infos.

(** The group is the one that is listed under its name. *)
Definition followed (memc : memcached_st) (g : memcached_rgroup_st) : Prop :=
  exists info master slaves slaves', info ∈ infos /\ info_group info = groupname g
    /\ info_endpoints info = Some (master :: slaves)
    /\ rgroup_endpoints memc g = Some (master :: slaves') /\ slaves' ≡ₚ slaves.

Lemma followed_view memc memc' g g' :
  group_view memc' g' = group_view memc g -> followed memc g -> followed memc' g'.
Proof.
  unfold group_view, followed. intros [= -> _ ->]. done.
Qed.

Lemma find_groupinfo_ok name l :
  match find_groupinfo name l with
  | Some y => exists info, l !! y = Some info /\ info_group info = name
  | None => name ∉ map info_group l
  end.
Proof.
  induction l as [|i l IH]; cbn [find_groupinfo map]; [apply not_elem_of_nil|].
  case_bool_decide as E; rewrite strcmp_eq in E.
  - by exists i.
  - destruct (find_groupinfo name l); cbn [fmap option_fmap option_map]; [done|].
    by apply not_elem_of_cons.
Qed.

Lemma mark_other seen name i : info_group i <> name -> mark (seen ++ [name]) i = mark seen i.
Proof.
  intros Hne. unfold mark.
  assert (bool_decide (info_group i ∈ seen ++ [name]) = bool_decide (info_group i ∈ seen)) as ->.
  { apply bool_decide_ext. rewrite elem_of_app, list_elem_of_singleton. tauto. }
  done.
Qed.

Lemma marks_names seen : map info_group (marks seen) = map info_group infos.
Proof. unfold marks. by rewrite map_map. Qed.

Lemma marks_nil : marks [] = infos.
Proof.
  unfold marks, mark. rewrite <-(map_id infos) at 2. apply map_ext_in. intros i Hi.
  apply list_elem_of_In in Hi. rewrite Forall_forall in infos_complete.
  destruct (infos_complete i Hi) as [Hv _]. rewrite bool_decide_false by apply not_elem_of_nil.
  destruct i. cbn in *. by subst.
Qed.

Lemma marks_set seen name y info :
  infos !! y = Some info -> info_group info = name ->
  <[y := (mark seen info) <| valid := false |>]> (marks seen) = marks (seen ++ [name]).
Proof.
  intros Hy Hname. apply list_eq. intros z. unfold marks.
  rewrite list_lookup_fmap. destruct (decide (z = y)) as [->|Hne].
  - rewrite list_lookup_insert_eq by (rewrite length_map; by eapply lookup_lt_Some).
    rewrite Hy. unfold mark. cbn. rewrite (bool_decide_true (_ ∈ _ ++ _)); [done|].
    rewrite elem_of_app, list_elem_of_singleton. by right.
  - rewrite list_lookup_insert_ne, list_lookup_fmap by done.
    destruct (infos !! z) as [i|] eqn:Hz; [|done]. cbn. f_equal. symmetry. apply mark_other.
    intros E. apply Hne. apply (NoDup_lookup (map info_group infos) _ _ name); [done|..];
      rewrite list_lookup_fmap; [rewrite Hz|rewrite Hy]; cbn; congruence.
Qed.

Lemma unmatched_set seen name : listed name -> name ∉ seen ->
  S (length (unmatched (seen ++ [name]))) = length (unmatched seen).
Proof.
  unfold listed, unmatched. clear infos_complete infos_count.
  induction infos as [|i l IH]; cbn [map]; [by intros ?%not_elem_of_nil|].
  apply NoDup_cons in infos_names as [Hi Hnd]. intros Hl Hd. rewrite !filter_cons.
  destruct (decide (name = info_group i)) as [->|Hne].
  - rewrite decide_False by (rewrite not_elem_of_app; intros [_ H]; apply H; by left).
    rewrite decide_True by done. cbn [length]. f_equal. f_equal. apply filter_iff_in.
    intros j Hj. rewrite not_elem_of_app, not_elem_of_cons.
    assert (info_group j <> info_group i).
    { intros E. apply Hi. rewrite <-E. by apply list_elem_of_fmap_2. }
    pose proof (not_elem_of_nil (info_group j)). tauto.
  - apply elem_of_cons in Hl as [?|Hl]; [done|]. specialize (IH Hnd Hl Hd).
    assert (info_group i ∉ seen ++ [name] <-> info_group i ∉ seen) as Hiff.
    { rewrite not_elem_of_app, not_elem_of_cons. pose proof (not_elem_of_nil (info_group i)).
      split; [tauto|]. intros ?. split_and!; [done|congruence|done]. }
    destruct (decide (info_group i ∉ seen)) as [Hd1|Hd1].
    + rewrite decide_True by tauto. cbn [length]. by rewrite IH.
    + rewrite decide_False by tauto. done.
Qed.

Lemma unmatched_skip seen name : ~ listed name -> unmatched (seen ++ [name]) = unmatched seen.
Proof.
  intros Hl. apply filter_iff_in. intros j Hj. rewrite not_elem_of_app, not_elem_of_cons.
  pose proof (not_elem_of_nil (info_group j)).
  assert (info_group j <> name); [|tauto]. intros <-. apply Hl. by apply list_elem_of_fmap_2.
Qed.

Lemma marks_skip seen name : ~ listed name -> marks (seen ++ [name]) = marks seen.
Proof.
  intros Hl. apply map_ext_in. intros j Hj%list_elem_of_In. apply mark_other. intros <-.
  destruct Hl. by apply list_elem_of_fmap_2.
Qed.
#[export] Instance listed_dec name : Decision (listed name).
Proof. unfold listed. apply _. Defined.

Lemma unmatched_length seen : Z.of_nat (length (unmatched seen)) < 2 ^ 32.
Proof. pose proof (length_filter (fun i => info_group i ∉ seen) infos). unfold unmatched. lia. Qed.

(** What became of a group of the handle. *)
Definition matched (memc : memcached_st) (g g' : memcached_rgroup_st) : Prop :=
  groupname g' = groupname g
  /\ if bool_decide (listed (groupname g)) then rgroup_is_dead g' = rgroup_is_dead g /\ followed memc g'
     else rgroup_is_dead g' = true.

Lemma match_groups_ok rest pre mc seen idss v prune c :
  groups_inv mc idss -> full idss -> groups_of mc = pre ++ rest ->
  NoDup (seen ++ map groupname rest) -> 3 * Z.of_nat (length idss) < server_ntotal mc ->
  v = Z.of_nat (length (unmatched seen)) ->
  exists mc' rest' idss' v' prune' c',
    match_groups (length rest) (length pre) mc (marks seen) v prune c
      = Some (mc', marks (seen ++ map groupname rest), v', prune', c')
    /\ groups_inv mc' idss' /\ full idss' /\ groups_of mc' = pre ++ rest'
    /\ map (group_view mc') pre = map (group_view mc) pre
    /\ Forall2 (matched mc') rest rest' /\ only_groups mc mc'
    /\ prune' = prune || existsb (fun g => negb (bool_decide (listed (groupname g)))) rest
    /\ v' = Z.of_nat (length (unmatched (seen ++ map groupname rest)))
    /\ (prune' = false -> c' = false -> c = false /\ mc' = mc).
Proof.
  revert pre mc seen idss v prune c.
  induction rest as [|g rest IH]; intros pre mc seen idss v prune c Hinv Hfull Hg Hnd Hs Hv;
    cbn [length match_groups map].
  { exists mc, [], idss, v, prune, c. rewrite orb_false_r, !app_nil_r in *.
    split_and!; try done. apply only_groups_refl. }
  rewrite (groups_of_lookup _ _ _ _ Hg). cbn [mbind option_bind].
  pose proof (find_groupinfo_ok (groupname g) (marks seen)) as Hfind.
  cbn [map] in Hnd. rewrite cons_middle, app_assoc in Hnd.
  assert (groupname g ∉ seen) as Hnew.
  { apply NoDup_app in Hnd as [Hnd _]. apply NoDup_app in Hnd as (_ & Hnd & _).
    intros Hin. apply (Hnd _ Hin). by left. }
  destruct (find_groupinfo (groupname g) (marks seen)) as [y|].
  - destruct Hfind as (info' & Hy & Hname). unfold marks in Hy. rewrite list_lookup_fmap in Hy.
    destruct (infos !! y) as [info|] eqn:Hinfo; [|done]. cbn in Hy. injection Hy as <-.
    assert (marks seen !! y = Some (mark seen info)) as ->
      by (unfold marks; by rewrite list_lookup_fmap, Hinfo).
    cbn [mbind option_bind].
    cbn [mark info_group update] in Hname.
    assert (valid (mark seen info) = true) as ->.
    { unfold mark. cbn. rewrite Hname. by rewrite bool_decide_false. }
    pose proof infos_complete as Hc. rewrite Forall_forall in Hc.
    destruct (Hc info) as (_ & _ & master & slaves & He & Hlen & Hval);
      [by eapply list_elem_of_lookup_2|].
    assert (listed (groupname g)) as Hlisted.
    { unfold listed. rewrite <-Hname. apply list_elem_of_fmap_2. by eapply list_elem_of_lookup_2. }
    destruct (update_slot_ok mc idss pre g rest (mark seen info) master slaves Hinv Hfull Hg He Hlen Hval Hs)
      as (m & g' & c1 & idss1 & slaves' & -> & Hinv1 & Hfull1 & Hg1 & Hv1 & Hperm & Hd1 & Hpre1 & Hrest1
          & Ho1 & Hc1).
    cbn [mbind option_bind]. rewrite (marks_set _ _ _ _ Hinfo Hname).
    pose proof (unmatched_set _ _ Hlisted Hnew) as Hun.
    rewrite cons_middle, app_assoc in Hg1.
    destruct (IH (pre ++ [g']) _ (seen ++ [groupname g]) idss1 (v ⊟ 1) prune (c || c1) Hinv1 Hfull1 Hg1 Hnd)
      as (m2 & rest2 & idss2 & v2 & p2 & c2 & Hm2 & Hinv2 & Hfull2 & Hg2 & Hv2 & Hall & Ho2 & Hp2 & Hvc & Hsame).
    { rewrite (groups_inv_length _ _ _ _ Hinv Hinv1 Ho1). by rewrite (f_equal server_ntotal Ho1). }
    { rewrite Hv, u32_small; [lia|]. pose proof (unmatched_length seen). lia. }
    rewrite length_app, Nat.add_1_r in Hm2. exists m2, (g' :: rest2), idss2, v2, p2, c2.
    rewrite <-!app_assoc in *. cbn [app] in *. split; [exact Hm2|].
    rewrite map_app in Hv2. apply map_view_app in Hv2 as [Hv2 Hv2'].
    split; [done|]. split; [done|]. split; [done|]. split; [by rewrite Hv2|]. split.
    { constructor; [|done]. split; [by injection Hv1|]. rewrite bool_decide_true by done. split; [done|].
      apply (followed_view _ _ _ _ (inj Some _ _ (f_equal head Hv2'))).
      exists info, master, slaves, slaves'. injection Hv1 as -> _ ->.
      split_and!; [by eapply list_elem_of_lookup_2|done..]. }
    split; [exact (only_groups_trans _ _ _ Ho1 Ho2)|].
    split; [cbn [existsb]; by rewrite bool_decide_true|]. split; [done|].
    intros E1 E2. destruct (Hsame E1 E2) as [[-> Ec]%orb_false_iff ->]. split; [done|]. by apply Hc1.
  - assert (~ listed (groupname g)) as Hnl by by rewrite marks_names in Hfind.
    destruct (mark_dead_ok _ _ _ _ _ Hinv Hg) as (Hinv1 & Hg1 & Ho1 & Hv1).
    rewrite <-(marks_skip _ _ Hnl). rewrite cons_middle, app_assoc in Hg1.
    destruct (IH (pre ++ [g <| rgroup_is_dead := true |>]) _ (seen ++ [groupname g]) idss v true c
                Hinv1 Hfull Hg1 Hnd)
      as (m2 & rest2 & idss2 & v2 & p2 & c2 & Hm2 & Hinv2 & Hfull2 & Hg2 & Hv2 & Hall & Ho2 & Hp2 & Hvc & Hsame).
    { done. }
    { by rewrite (unmatched_skip _ _ Hnl). }
    rewrite length_app, Nat.add_1_r in Hm2.
    exists m2, (g <| rgroup_is_dead := true |> :: rest2), idss2, v2, p2, c2.
    rewrite <-!app_assoc in *. cbn [app] in *. split; [exact Hm2|].
    rewrite map_app in Hv2. apply map_view_app in Hv2 as [Hv2 _].
    split; [done|]. split; [done|]. split; [done|].
    split; [rewrite Hv2; apply map_ext; apply Hv1|]. split.
    { constructor; [|done]. split; [done|]. by rewrite bool_decide_false. }
    split; [exact (only_groups_trans _ _ _ Ho1 Ho2)|].
    cbn [existsb]. rewrite (bool_decide_false _ Hnl), orb_true_r. cbn [negb orb].
    split; [by rewrite Hp2|]. split; [done|]. intros E. by rewrite E in Hp2.
Qed.
End Follow.

(** *** Adding the listed groups that are left *)

(** That no group is empty shows in what a client sees. *)
Lemma full_views memc x gs idss : groups_at memc x gs idss ->
  full idss <-> Forall (fun v => snd v <> Some []) (map (group_view memc) gs).
Proof.
  unfold full. revert x idss. induction gs as [|g gs IH]; intros x [|ids idss] Hat; try done.
  destruct Hat as [Hslot Hat]. cbn [map]. rewrite !Forall_cons, (IH _ _ Hat).
  unfold group_view. cbn [snd]. rewrite (slot_endpoints _ _ _ _ Hslot).
  destruct Hslot as (_ & _ & Hs).
  assert (ids <> [] <-> mapM (fun id => endpoint <$> server_pool memc !! id) ids <> Some []) as ->;
    [|done].
  destruct ids as [|id ids]; [done|]. split; [|done].
  intros _ H%mapM_Some_1%Forall2_length. done.
Qed.

Lemma push_groupinfo_loop_ok junk_group gl memc idss :
  groups_inv memc idss -> full idss ->
  Forall (fun i => valid i = true -> complete_info i) gl ->
  Z.of_nat (length idss + length (filter (fun i => valid i = true) gl)) <= rgroup_ntotal memc < 2 ^ 32 ->
  3 * Z.of_nat (length idss + length (filter (fun i => valid i = true) gl)) <= server_ntotal memc ->
  exists memc' idss', push_groupinfo_loop junk_group memc gl = Some memc'
    /\ groups_inv memc' idss' /\ full idss'
    /\ map (group_view memc') (groups_of memc')
       = map (group_view memc) (groups_of memc)
         ++ map (fun i => (info_group i, 1, info_endpoints i)) (filter (fun i => valid i = true) gl)
    /\ only_groups (memc <| number_of_hosts := number_of_hosts memc' |>) memc'.
Proof.
  revert memc idss. induction gl as [|i gl IH]; intros memc idss Hinv Hfull Hgl Hr Hs;
    cbn [push_groupinfo_loop].
  { destruct (pushed_refl _ _ Hinv) as (? & _ & Hv & Ho & _).
    exists memc, idss. split_and!; try done. }
  apply Forall_cons in Hgl as [Hi Hgl]. rewrite filter_cons in *.
  destruct (valid i) eqn:Hvalid; [rewrite decide_True in * by done|rewrite decide_False in * by done; by apply (IH memc idss)].
  destruct (Hi eq_refl) as (_ & Hname & master & slaves & He & Hlen & Hval). rewrite He.
  cbn [mbind option_bind length map] in *.
  destruct (push_rgroup_ok junk_group memc idss (info_group i) (master :: slaves) Hinv Hname Hval)
    as (m1 & -> & Hp1); [simpl; lia|lia|lia|lia|].
  cbn [mbind option_bind]. destruct (pushed_room _ _ _ _ Hp1) as [Hr1 Hs1].
  destruct Hp1 as (idss1 & Hinv1 & Hv1 & Ho1 & Hl1). cbn [length] in Hl1.
  destruct (IH m1 idss1 Hinv1) as (m2 & idss2 & -> & Hinv2 & Hfull2 & Hv2 & Ho2).
  { apply (full_views _ _ _ _ (groups_slots _ _ Hinv1)). rewrite Hv1. apply Forall_app. split.
    - by apply (full_views _ _ _ _ (groups_slots _ _ Hinv)).
    - by constructor. }
  { done. }
  { rewrite Hr1, Hl1. lia. }
  { rewrite Hs1, Hl1. lia. }
  exists m2, idss2. split; [done|]. split; [done|]. split; [done|]. split.
  - rewrite Hv2, Hv1, <-app_assoc, He. done.
  - exact (only_groups_count_trans _ _ _ Ho1 Ho2).
Qed.

(** *** The whole update *)

(** The description of a group in the list of servers is complete. *)
Definition listed_fully (serverinfo : list memcached_server_info_st) : Prop :=
  Forall (fun s => valid_groupname (info_groupname s) /\ valid_endpoint (info_endpoint s)
                   /\ members_ok (group_members (info_groupname s) serverinfo) = true
                   /\ masters (group_members (info_groupname s) serverinfo) <> []) serverinfo.

Lemma members_of name serverinfo s : s ∈ group_members name serverinfo ->
  s ∈ serverinfo /\ info_groupname s = name.
Proof. unfold group_members. rewrite list_elem_of_filter. tauto. Qed.

Lemma count_all {A} (f : A -> bool) l : Forall (fun x => f x = true) l -> count f l = Z.of_nat (length l).
Proof. intros Hl. induction Hl as [|x l Hx _ IH]; [done|]. cbn [count length]. rewrite Hx. lia. Qed.

Lemma count_none {A} (f : A -> bool) l : Forall (fun x => f x = false) l -> count f l = 0.
Proof. intros Hl. induction Hl as [|x l Hx _ IH]; [done|]. cbn [count]. by rewrite Hx. Qed.

(** A complete list makes complete groups, and the count of them is right. *)
Lemma info_create_complete serverinfo :
  listed_fully serverinfo -> Z.of_nat (length serverinfo) < 2 ^ 32 ->
  exists groups, memcached_rgroup_info_create serverinfo = Some (groups, Z.of_nat (length groups))
    /\ NoDup (map info_group groups)
    /\ (forall name, name ∈ map info_group groups <-> name ∈ map info_groupname serverinfo)
    /\ (length groups <= length serverinfo)%nat
    /\ Forall complete_info groups
    /\ Forall (fun g => exists m, masters (group_members (info_group g) serverinfo) = [m]
         /\ info_endpoints g
            = Some (map info_endpoint (m :: slaves (group_members (info_group g) serverinfo)))) groups.
Proof.
  intros Hfull Hlen. unfold listed_fully in Hfull. rewrite Forall_forall in Hfull.
  destruct (info_create_ok serverinfo) as (groups & v & Hc & Hnd & Hn & Hall & Hv).
  assert (length groups <= length serverinfo)%nat as Hle.
  { rewrite <-(length_map info_group), <-(length_map info_groupname serverinfo).
    apply submseteq_length, NoDup_submseteq; [done|]. intros name. by rewrite Hn. }
  assert (forall g, g ∈ groups -> exists s, s ∈ serverinfo /\ info_groupname s = info_group g) as Hs.
  { intros g Hg. assert (info_group g ∈ map info_group groups) as Hin by by apply list_elem_of_fmap_2.
    apply Hn in Hin. apply list_elem_of_fmap in Hin as (s & -> & Hin). by exists s. }
  rewrite Forall_forall in Hall.
  assert (forall g, g ∈ groups -> let ms := group_members (info_group g) serverinfo in
    valid g = true /\ members_ok ms = true /\ valid_groupname (info_group g)
    /\ exists m, masters ms = [m] /\ info_endpoints g = Some (map info_endpoint (m :: slaves ms))) as Hg.
  { intros g Hin. destruct (Hs g Hin) as (s & Hs1 & Hs2), (Hall g Hin) as [Hva Hm].
    destruct (Hfull s Hs1) as (Hname & _ & Hok & Hne). rewrite Hs2 in *. cbv zeta.
    assert (valid g = true) as E by by apply Hva. split_and!; [done..|]. by apply Hm. }
  exists groups. rewrite Hc. split_and!; [|done..| |].
  - do 2 f_equal. rewrite Hv, (count_all valid), count_none, Z.sub_0_r, u32_small; [done|lia|..];
      apply Forall_forall; intros g Hin; destruct (Hg g Hin) as (H1 & H2 & _); [|done].
    by rewrite H2, andb_false_r.
  - apply Forall_forall. intros g Hin. destruct (Hg g Hin) as (H1 & H2 & H3 & m & H4 & H5).
    split; [done|]. split; [done|]. exists (info_endpoint m), (map info_endpoint (slaves (group_members (info_group g) serverinfo))).
    split; [done|]. unfold members_ok in H2. apply andb_true_iff in H2 as [[_ H2]%andb_true_iff _].
    apply Nat.leb_le in H2. split; [by rewrite length_map|].
    assert (forall s, s ∈ group_members (info_group g) serverinfo -> valid_endpoint (info_endpoint s)) as Hep.
    { intros s [Hin1 _]%members_of. by destruct (Hfull s Hin1) as (_ & ? & _). }
    apply Forall_cons. split.
    + apply Hep. assert (m ∈ masters (group_members (info_group g) serverinfo)) as Hm
        by (rewrite H4; by left). unfold masters in Hm. apply list_elem_of_filter in Hm. tauto.
    + apply Forall_map, Forall_forall. intros s Hin1. apply Hep.
      unfold slaves in Hin1. apply list_elem_of_filter in Hin1. tauto.
  - apply Forall_forall. intros g Hin. by destruct (Hg g Hin) as (_ & _ & _ & ?).
Qed.

(** Removing the dead groups, when there are some. *)
Lemma maybe_prune_ok mc idss (prune : bool) :
  groups_inv mc idss -> full idss -> (prune = false -> Forall alive (groups_of mc)) ->
  exists mc' idss', (if prune then memcached_rgroup_prune mc false else Some mc) = Some mc'
    /\ groups_inv mc' idss' /\ full idss' /\ (length idss' <= length idss)%nat
    /\ map (group_view mc') (groups_of mc') = map (group_view mc) (filter alive (groups_of mc))
    /\ only_groups (mc <| number_of_hosts := number_of_hosts mc' |>) mc'.
Proof.
  intros Hinv Hfull Ha. destruct prune.
  - destruct (prune_groups_ok _ _ Hinv) as (mc' & idss' & Hp & Hinv' & Hv & _ & Ho).
    exists mc', idss'. split; [done|]. split; [done|].
    apply (full_views _ _ _ _ (groups_slots _ _ Hinv)) in Hfull.
    split; [|split; [|done]].
    + apply (full_views _ _ _ _ (groups_slots _ _ Hinv')). rewrite Hv.
      rewrite Forall_map, Forall_forall in Hfull |- *. intros g Hg. apply Hfull.
      apply list_elem_of_filter in Hg. tauto.
    + rewrite <-(groups_at_length _ _ _ _ (groups_slots _ _ Hinv)).
      rewrite <-(groups_at_length _ _ _ _ (groups_slots _ _ Hinv')).
      rewrite <-(length_map (group_view mc')), Hv, length_map. apply length_filter.
  - exists mc, idss. split_and!; try done.
    + f_equal. symmetry. apply filter_all. apply Forall_forall. by apply Ha.
    + by destruct (pushed_refl _ _ Hinv) as (? & _ & _ & ? & _).
Qed.

Lemma matched_names infos mc gs gs' :
  Forall alive gs -> Forall2 (matched infos mc) gs gs' ->
  map groupname (filter alive gs') = filter (listed infos) (map groupname gs)
  /\ Forall (followed infos mc) (filter alive gs')
  /\ (existsb (fun g => negb (bool_decide (listed infos (groupname g)))) gs = false -> Forall alive gs').
Proof.
  intros Ha Hm. induction Hm as [|g g' gs gs' [Hn Hg] _ IH]; [done|].
  apply Forall_cons in Ha as [Ha Has]. destruct (IH Has) as (IH1 & IH2 & IH3).
  rewrite filter_alive_cons. cbn [map existsb]. rewrite filter_cons. case_bool_decide as El.
  - destruct Hg as [Hd Hf]. rewrite Ha in Hd. rewrite Hd, decide_True by done. cbn [app map].
    split; [by rewrite Hn, IH1|]. split; [by constructor|]. cbn. intros E. constructor; [done|by apply IH3].
  - rewrite Hg, decide_False by done. split_and!; done.
Qed.

(** What a client finds in [mc'] after the handle [mc] followed a list: the
    groups called [names], the old ones first, each with the master and the
    slaves that the list gives it. *)
Definition follows (serverinfo : list memcached_server_info_st) (mc mc' : memcached_st) : Prop :=
  exists names,
    NoDup names /\ (forall name, name ∈ names <-> name ∈ map info_groupname serverinfo)
    /\ map groupname (groups_of mc')
       = filter (.∈ names) (map groupname (groups_of mc))
         ++ filter (.∉ map groupname (groups_of mc)) names
    /\ Forall (fun g => let ms := group_members (groupname g) serverinfo in
         exists m replicas, masters ms = [m]
           /\ rgroup_endpoints mc' g = Some (info_endpoint m :: replicas)
           /\ replicas ≡ₚ map info_endpoint (slaves ms)) (groups_of mc').

Lemma filter_map_comm {A B} (f : A -> B) (P : B -> Prop) `{!forall x, Decision (P x)} (l : list A) :
  filter P (map f l) = map f (filter (fun x => P (f x)) l).
Proof.
  induction l as [|x l IH]; [done|]. cbn [map]. rewrite !filter_cons, IH. by destruct (decide _).
Qed.

Lemma follow_views infos mc mc1 mc2 gs1 :
  map (group_view mc2) (groups_of mc2)
    = map (group_view mc1) gs1 ++ map (fun i => (info_group i, 1, info_endpoints i))
        (unmatched infos (map groupname (groups_of mc))) ->
  map groupname gs1 = filter (listed infos) (map groupname (groups_of mc)) ->
  Forall (followed infos mc1) gs1 -> Forall complete_info infos ->
  map groupname (groups_of mc2)
    = filter (.∈ map info_group infos) (map groupname (groups_of mc))
      ++ filter (.∉ map groupname (groups_of mc)) (map info_group infos)
  /\ Forall (followed infos mc2) (groups_of mc2).
Proof.
  intros Hv Hn Hf Hc. split.
  - apply (f_equal (map (fun v => fst (fst v)))) in Hv. rewrite map_app, !map_map in Hv.
    etransitivity; [exact Hv|]. f_equal; [exact Hn|]. symmetry.
    exact (filter_map_comm info_group (.∉ map groupname (groups_of mc)) infos).
  - assert (Forall (fun v => exists info master slaves slaves', info ∈ infos
      /\ info_group info = fst (fst v) /\ info_endpoints info = Some (master :: slaves)
      /\ snd v = Some (master :: slaves') /\ slaves' ≡ₚ slaves) (map (group_view mc2) (groups_of mc2)))
      as Hall.
    { rewrite Hv. apply Forall_app. split; apply Forall_map; [exact Hf|].
      apply Forall_forall. intros i [_ Hi]%list_elem_of_filter. rewrite Forall_forall in Hc.
      destruct (Hc i Hi) as (_ & _ & m & s & He & _). exists i, m, s, s. by cbn. }
    rewrite Forall_map in Hall. exact Hall.
Qed.

(** The old groups that stay and the new ones are the listed ones. *)
Lemma names_partition (old names : list bytes) :
  NoDup old -> NoDup names -> filter (.∈ names) old ++ filter (.∉ old) names ≡ₚ names.
Proof.
  intros Ho Hn. apply NoDup_Permutation; [|done|].
  - apply NoDup_app. split; [by apply NoDup_filter|]. split; [|by apply NoDup_filter].
    intros x Hx Hx'. rewrite list_elem_of_filter in *. tauto.
  - intros x. rewrite elem_of_app, !list_elem_of_filter. destruct (decide (x ∈ old)); tauto.
Qed.

Lemma unmatched_nil infos : unmatched infos [] = infos.
Proof. apply filter_all. intros i _. apply not_elem_of_nil. Qed.

Lemma marks_valid infos seen :
  filter (fun i => valid i = true) (marks infos seen) = map (mark seen) (unmatched infos seen).
Proof.
  unfold marks, unmatched. rewrite filter_map_comm. f_equal. apply filter_iff_in. intros i _.
  cbn. by rewrite negb_true_iff, bool_decide_eq_false.
Qed.

Lemma push_listed_ok `{Qsort} e junk_group store infos seen mc idss :
  groups_inv mc idss -> full idss -> Forall complete_info infos ->
  Z.of_nat (length idss + length (unmatched infos seen)) <= rgroup_ntotal mc < 2 ^ 32 ->
  Z.of_nat (length infos) <= rgroup_ntotal mc ->
  3 * Z.of_nat (length idss + length (unmatched infos seen)) <= server_ntotal mc ->
  exists mc' idss',
    memcached_rgroup_push_with_groupinfo e junk_group store mc (marks infos seen)
      = run_distribution e store mc'
    /\ groups_inv mc' idss' /\ full idss'
    /\ map (group_view mc') (groups_of mc')
       = map (group_view mc) (groups_of mc)
         ++ map (fun i => (info_group i, 1, info_endpoints i)) (unmatched infos seen).
Proof.
  intros Hinv Hfull Hc Hr Hi Hs. unfold memcached_rgroup_push_with_groupinfo.
  rewrite (proj2 (Z.ltb_ge _ _)) by (unfold marks; by rewrite length_map).
  destruct (push_groupinfo_loop_ok junk_group (marks infos seen) mc idss Hinv Hfull)
    as (mc' & idss' & -> & Hinv' & Hfull' & Hv & _).
  - apply Forall_map. eapply Forall_impl; [exact Hc|]. intros i (_ & Hn & He) Hvalid. by split_and!.
  - by rewrite marks_valid, length_map.
  - by rewrite marks_valid, length_map.
  - exists mc', idss'. rewrite marks_valid, map_map in Hv. by split_and!.
Qed.

(** The handle has a group of every name of the list, and no other. *)
Definition same_groups (mc : memcached_st) (serverinfo : list memcached_server_info_st) : Prop :=
  forall name, name ∈ map groupname (groups_of mc) <-> name ∈ map info_groupname serverinfo.

Lemma same_groups_kept serverinfo mc mc' :
  follows serverinfo mc mc' -> same_groups mc serverinfo ->
  map groupname (groups_of mc') = map groupname (groups_of mc).
Proof.
  intros (names & _ & Hn & -> & _) Hsame.
  rewrite filter_all by (intros name Hin; by apply Hn, Hsame).
  rewrite (filter_none (.∉ _)); [by rewrite app_nil_r|].
  intros name Hin Hno. by apply Hno, Hsame, Hn.
Qed.

Lemma same_groups_iff infos serverinfo mc :
  (forall name, name ∈ map info_group infos <-> name ∈ map info_groupname serverinfo) ->
  same_groups mc serverinfo <->
  existsb (fun g => negb (bool_decide (listed infos (groupname g)))) (groups_of mc) = false
  /\ unmatched infos (map groupname (groups_of mc)) = [].
Proof.
  intros Hnames. split.
  - intros Hsame. split.
    + apply not_true_is_false. intros (g & Hg & Hl)%existsb_exists.
      apply negb_true_iff, bool_decide_eq_false in Hl. apply Hl, Hnames, Hsame.
      by apply list_elem_of_fmap_2, list_elem_of_In.
    + apply filter_none. intros i Hi Hno. by apply Hno, Hsame, Hnames, list_elem_of_fmap_2.
  - intros [Hl Hu] name. rewrite <-Hnames. split.
    + intros (g & -> & Hg)%list_elem_of_fmap. destruct (decide (listed infos (groupname g))) as [|Hn]; [done|].
      exfalso. apply not_true_iff_false in Hl. apply Hl, existsb_exists. exists g.
      split; [by apply list_elem_of_In|]. by rewrite bool_decide_false.
    + intros (i & -> & Hi)%list_elem_of_fmap.
      destruct (decide (info_group i ∈ map groupname (groups_of mc))) as [|Hn]; [done|].
      exfalso. apply (not_elem_of_nil i). rewrite <-Hu. by apply list_elem_of_filter.
Qed.

Lemma update_rgrouplist_ok `{Qsort} e junk_group junk malloc store mc serverinfo idss :
  groups_inv mc idss -> full idss -> Forall alive (groups_of mc) ->
  NoDup (map groupname (groups_of mc)) -> serverinfo <> [] -> listed_fully serverinfo ->
  0 <= rgroup_ntotal mc < 2 ^ 32 ->
  3 * Z.of_nat (length idss + length serverinfo) < server_ntotal mc ->
  exists mc' idss', groups_inv mc' idss' /\ full idss' /\ follows serverinfo mc mc'
    /\ (~ same_groups mc serverinfo
         /\ do_memcached_update_rgrouplist e junk_group junk true malloc true store mc serverinfo
            = (fun r => (r, true)) <$> run_distribution e store mc'
        \/ same_groups mc serverinfo /\ map groupname (groups_of mc') = map groupname (groups_of mc)
         /\ exists c, do_memcached_update_rgrouplist e junk_group junk true malloc true store mc serverinfo
             = Some (MEMCACHED_SUCCESS, store, mc', c)
           /\ (c = false -> map (group_view mc') (groups_of mc') = map (group_view mc) (groups_of mc))).
Proof.
  intros Hinv Hfull Ha Hnd Hne Hlisted Hr Hpool. pose proof Hinv as [Hn Hslots Hp].
  assert (server_ntotal mc < 2 ^ 32) as Hb by by destruct Hp.
  destruct (info_create_complete _ Hlisted) as (infos & Hc & Hin & Hnames & Hle & Hcomp & Hms); [lia|].
  assert (Z.of_nat (length infos) < 2 ^ 32) as Hcount by lia.
  unfold do_memcached_update_rgrouplist.
  destruct serverinfo as [|s0 rest] eqn:Es; [done|]. rewrite <-Es in *. cbn [negb]. rewrite Hc. cbn [mbind option_bind].
  destruct (expand_ok junk true malloc mc (concat idss) (Z.of_nat (length infos))
    (Z.of_nat (length serverinfo)) Hp) as (ok & m & -> & Hok & Hext & Hr1 & Hroom); [lia..|].
  cbn [orb andb] in Hok. rewrite (proj2 (Z.leb_le _ _)) in Hok by lia. subst ok.
  destruct Hroom as [Hroom Hserv]; [done|].
  destruct (groups_extended _ _ _ Hinv Hext) as [Hinv1 Hv1].
  assert (groups_of m = groups_of mc) as Hgm.
  { unfold groups_of. by rewrite (proj1 (proj2 Hext)). }
  assert (Z.to_nat (memcached_server_count m) = length (groups_of mc)) as ->.
  { unfold memcached_server_count. destruct Hinv1 as [-> Hs1 _].
    rewrite Nat2Z.id, <-Hgm. symmetry. by eapply groups_at_length. }
  destruct (match_groups_ok infos Hcomp Hin Hcount (groups_of mc) [] m [] idss
      (Z.of_nat (length infos)) false false Hinv1 Hfull Hgm Hnd)
    as (m1 & gs1 & idss1 & v & prune & c & Hm & Hinv2 & Hfull2 & Hg2 & _ & Hmatch & Ho2 & Hprune & Hv & Hsame);
    [lia|by rewrite unmatched_nil|].
  cbn [length app] in *. rewrite (marks_nil infos Hcomp) in Hm. rewrite Hm. cbn [mbind option_bind].
  destruct (matched_names infos m1 _ _ Ha Hmatch) as (Hmn & Hmf & Hma). cbn [orb] in Hprune.
  destruct (maybe_prune_ok m1 idss1 prune Hinv2 Hfull2) as (m2 & idss2 & Hp2 & Hinv3 & Hfull3 & Hl3 & Hv3 & Ho3).
  { intros E. rewrite Hg2. apply Hma. by rewrite <-Hprune. }
  rewrite Hg2 in Hv3.
  set (new := unmatched infos (map groupname (groups_of mc))) in *.
  assert (length idss2 + length new = length infos)%nat as Hcnt.
  { pose proof (Permutation_length (names_partition (map groupname (groups_of mc)) _ Hnd Hin)) as Hpl.
    rewrite length_app, (filter_map_comm info_group), !length_map in Hpl.
    pose proof (f_equal length Hv3) as Hlv. pose proof (f_equal length Hmn) as Hln.
    rewrite !length_map in Hlv. rewrite length_map in Hln. unfold listed in Hln.
    rewrite <-(groups_at_length _ _ _ _ (groups_slots _ _ Hinv3)), Hlv, Hln. exact Hpl. }
  assert (rgroup_ntotal m2 = rgroup_ntotal m /\ server_ntotal m2 = server_ntotal m) as [Hrm Hsm].
  { rewrite (f_equal rgroup_ntotal Ho3), (f_equal server_ntotal Ho3).
    cbn. by rewrite (f_equal rgroup_ntotal Ho2), (f_equal server_ntotal Ho2). }
  assert (exists m3 idss3, (if 0 <? v then memcached_rgroup_push_with_groupinfo e junk_group store m2
                              (marks infos (map groupname (groups_of mc)))
                            else run_distribution e store m2) = run_distribution e store m3
    /\ groups_inv m3 idss3 /\ full idss3 /\ (v = 0 -> m3 = m2)
    /\ map (group_view m3) (groups_of m3) = map (group_view m1) (filter alive gs1)
         ++ map (fun i => (info_group i, 1, info_endpoints i)) new)
    as (m3 & idss3 & Hpush & Hinv4 & Hfull4 & Hm3 & Hv4).
  { destruct (Z.ltb_spec 0 v) as [Hpos|Hzero].
    - destruct (push_listed_ok e junk_group store infos (map groupname (groups_of mc)) m2 idss2 Hinv3 Hfull3 Hcomp)
        as (m3 & idss3 & Hpush & Hinv4 & Hfull4 & Hv4); [unfold new in *; lia..|].
      exists m3, idss3. rewrite <-Hv3. split_and!; try done. lia.
    - exists m2, idss2. assert (new = []) as -> by (destruct new; [done|]; simpl in Hv; lia).
      cbn [map]. rewrite app_nil_r. by split_and!. }
  destruct (follow_views infos mc m1 m3 (filter alive gs1) Hv4 Hmn Hmf Hcomp) as [Hnames3 Hf3].
  assert (follows serverinfo mc m3) as Hfollows.
  { exists (map info_group infos). split_and!; [done..|]. eapply Forall_impl; [exact Hf3|].
    intros g (i & master & sl & sl' & Hi & Hgn & He & Heps & Hperm).
    rewrite Forall_forall in Hms. destruct (Hms i Hi) as (mm & Hmm & He'). rewrite Hgn in *.
    rewrite He in He'. injection He' as -> ->. exists mm, sl'. by split_and!. }
  exists m3, idss3. split; [done|]. split; [done|]. split; [done|].
  pose proof (same_groups_iff infos serverinfo mc Hnames) as Hiff. fold new in Hiff. rewrite <-Hprune in Hiff.
  destruct (Z.ltb_spec 0 v) as [Hpos|Hzero]; [|destruct prune]; cbn [orb].
  - left. split; [rewrite Hiff; intros [_ E]; rewrite E in Hv; cbn in Hv; lia|].
    rewrite Hp2. cbn [mbind option_bind]. by rewrite Hpush.
  - left. split; [by rewrite Hiff; intros [? _]|]. rewrite Hp2. cbn [mbind option_bind]. by rewrite Hpush.
  - right. assert (same_groups mc serverinfo) as Hsg.
    { apply Hiff. split; [done|]. apply length_zero_iff_nil. lia. }
    split; [done|]. split; [by eapply same_groups_kept|].
    exists c. injection Hp2 as ->. rewrite Hm3 by lia. split; [done|].
    intros Ec. destruct (Hsame eq_refl Ec) as [_ ->]. done.
Qed.

(** C23: a handle follows a complete list of servers.  When every group of the
    list has one master and at most two slaves and the pool has room, then
    afterwards the groups of the handle are exactly the listed ones: those it had
    stay in their order and the new ones come after them, each has its listed
    master first and its listed slaves, and the pool is consistent.  When
    a group had to be added or removed the distribution is run on that handle and a
    change is reported; otherwise the handle had exactly the groups of the list, they
    stay as they are in number, name and order, and when no change is reported the
    client sees the same servers as before. *)
Theorem do_memcached_update_rgrouplist_spec `{Qsort} e junk_group junk malloc store mc serverinfo idss :
  groups_inv mc idss -> full idss -> Forall alive (groups_of mc) ->
  NoDup (map groupname (groups_of mc)) -> serverinfo <> [] -> listed_fully serverinfo ->
  0 <= rgroup_ntotal mc < 2 ^ 32 ->
  3 * Z.of_nat (length idss + length serverinfo) < server_ntotal mc ->
  exists mc' idss', groups_inv mc' idss' /\ full idss' /\ follows serverinfo mc mc'
    /\ (~ same_groups mc serverinfo
         /\ do_memcached_update_rgrouplist e junk_group junk true malloc true store mc serverinfo
            = (fun r => (r, true)) <$> run_distribution e store mc'
        \/ same_groups mc serverinfo /\ map groupname (groups_of mc') = map groupname (groups_of mc)
         /\ exists c, do_memcached_update_rgrouplist e junk_group junk true malloc true store mc serverinfo
             = Some (MEMCACHED_SUCCESS, store, mc', c)
           /\ (c = false -> map (group_view mc') (groups_of mc') = map (group_view mc) (groups_of mc))).
Proof. apply update_rgrouplist_ok. Qed.

(** ** Examples *)

Definition zero_group : memcached_rgroup_st :=
  {| rgroup_is_allocated := false; rgroup_is_initialized := false; rgroup_is_shutting_down := false;
     rgroup_is_dead := false; rgroup_groupindex := 0; groupname := []; rgroup_weight := 0;
     nreplica := 0; replicas := [] |}.

Definition or_init (memc : option memcached_st) : memcached_st := default _memcached_init memc.

(** A handle with two groups, of two servers and of one, and a large pool. *)
Definition example_room : memcached_st :=
  snd (memcached_rgroup_expand zero_server true 20 _memcached_init 2 18).
Definition example_group : memcached_st :=
  or_init (push_rgroup zero_group example_room (str "g1") [(str "a", 1); (str "b", 2)]).
Definition example_groups : memcached_st :=
  or_init (push_rgroup zero_group example_group (str "g2") [(str "c", 3)]).

(** A list that drops the second group, adds a third and promotes a slave. *)
Definition example_list : list memcached_server_info_st :=
  let server g h p m := {| info_groupname := str g; info_hostname := str h; info_port := p;
                           info_master := m; exist := false |} in
  [server "g1" "b" 2 true; server "g3" "d" 4 true; server "g1" "a" 1 false; server "g3" "e" 5 false]%string.

Lemma example_endpoints l :
  forallb (fun ep => bool_decide (no_nul (fst ep))
                     && (Z.of_nat (length (fst ep)) <? MEMCACHED_NI_MAXHOST)) l = true ->
  Forall valid_endpoint l.
Proof.
  rewrite forallb_forall. intros Hl. apply Forall_forall. intros ep Hep%list_elem_of_In.
  apply Hl, andb_true_iff in Hep as [H1%bool_decide_eq_true H2%Z.ltb_lt]. by split.
Qed.

Lemma example_name (s : string) :
  (bool_decide (cstr (str s) = str s) && (Z.of_nat (length (str s)) <? RGROUP_NAME_LENGTH)) = true ->
  valid_groupname (str s).
Proof. intros [H1%bool_decide_eq_true H2%Z.ltb_lt]%andb_true_iff. by split. Qed.

Lemma init_pool_ok : pool_inv _memcached_init [].
Proof.
  split; [|done|done]. exists []. split_and!; [done|constructor| |done|done].
  intros id Hid. cbn in Hid. by rewrite dom_empty_L in Hid.
Qed.

Lemma example_room_ok : groups_inv example_room [].
Proof.
  pose proof init_pool_ok as Hp.
  assert (groups_inv _memcached_init []) as Hinv by (by split).
  unfold example_room.
  destruct (expand_ok zero_server true 20 _memcached_init [] 2 18 Hp) as (ok & m & -> & _ & Hext & _);
    [done..|].
  exact (proj1 (groups_extended _ _ _ Hinv Hext)).
Qed.

Lemma example_push memc idss name others :
  groups_inv memc idss -> valid_groupname name -> Forall valid_endpoint others ->
  (length others <= 3)%nat -> Z.of_nat (length idss) < rgroup_ntotal memc ->
  rgroup_ntotal memc < 2 ^ 32 -> 3 * Z.of_nat (S (length idss)) <= server_ntotal memc ->
  exists idss', groups_inv (or_init (push_rgroup zero_group memc name others)) idss'
    /\ length idss' = (length idss + 1)%nat.
Proof.
  intros Hinv Hn Ho Hlen Hr Hr2 Hs.
  destruct (push_rgroup_ok zero_group memc idss name others Hinv Hn Ho Hlen Hr Hr2 Hs)
    as (m & -> & idss' & Hinv' & _ & _ & Hl). by exists idss'.
Qed.

(** A side condition on concrete numbers. *)
Ltac by_computing := vm_compute; first [done | lia].

Lemma example_groups_ok : exists idss, groups_inv example_groups idss /\ full idss /\ length idss = 2%nat.
Proof.
  destruct (example_push example_room [] (str "g1") [(str "a", 1); (str "b", 2)] example_room_ok)
    as (idss & Hinv & Hl); [by apply example_name| |by_computing..|].
  { by apply example_endpoints. }
  destruct (example_push example_group idss (str "g2") [(str "c", 3)] Hinv)
    as (idss' & Hinv' & Hl'); [by apply example_name| |rewrite ?Hl; by_computing..|].
  { by apply example_endpoints. }
  exists idss'. split; [exact Hinv'|]. split; [|by rewrite Hl', Hl].
  apply (full_views _ _ _ _ (groups_slots _ _ Hinv')). vm_compute. by repeat constructor.
Qed.

(** The first group of the handle, and the handle when it is dead. *)
Definition example_first : memcached_rgroup_st := default zero_group (head (rgroups example_groups)).
Definition example_dead : memcached_st :=
  example_groups <| rgroups ::= <[0%nat := example_first <| rgroup_is_dead := true |>]> |>.

Lemma example_split : exists rest, groups_of example_groups = [] ++ example_first :: rest.
Proof. eexists. vm_compute. reflexivity. Qed.

Lemma example_dead_ok : exists idss, groups_inv example_dead idss.
Proof.
  destruct example_groups_ok as (idss & Hinv & _ & _), example_split as [rest Hg].
  exists idss. exact (proj1 (mark_dead_ok _ _ [] _ _ Hinv Hg)).
Qed.

(** Another list for the first group. *)
Definition example_info : memcached_rgroup_info_st :=
  match memcached_rgroup_info_create example_list with
  | Some (info :: _, _) => info
  | _ => zero_rgroup_info
  end.

Lemma memcached_rgroup_update_with_groupinfo_spec_witness :
  exists memc' g' changed, memcached_rgroup_update_with_groupinfo example_groups example_first example_info
                           = Some (memc', g', changed) /\ rgroup_groupindex g' = 0.
Proof.
  destruct example_groups_ok as (idss & Hinv & Hfull & Hl), example_split as [rest Hg].
  destruct Hinv as [_ Hs Hp]. rewrite Hg in Hs. destruct idss as [|ids [|ids2 [|? ?]]]; try discriminate Hl.
  cbn [app concat] in Hs, Hp. rewrite app_nil_r in Hp. destruct Hs as [Hslot Hs].
  destruct (slot_state _ _ _ _ _ Hslot Hp) as [ss Hst].
  assert (ss <> []) as Hne.
  { intros ->. destruct Hst as [(i & (_ & Hi1 & _) & _ & Hr) _]. inversion Hr; subst.
    vm_compute in Hi1. done. }
  assert (length ids2 <= 3)%nat as Hlen.
  { apply groups_bound in Hs. cbn [concat length] in Hs. rewrite app_nil_r in Hs. exact Hs. }
  destruct (memcached_rgroup_update_with_groupinfo_spec ids2 example_groups example_first ss example_info
    (str "b", 2) [(str "a", 1)] Hst Hne) as (m & g & c & Hu & _ & Hsg & _);
    [by vm_compute|simpl; lia|by apply example_endpoints|
     assert (server_ntotal example_groups = 19) as -> by (by vm_compute); lia|].
  exists m, g, c. split; [exact Hu|]. rewrite Hsg. by vm_compute.
Defined.

Lemma memcached_rgroup_expand_spec_witness :
  exists memc', memcached_rgroup_expand zero_server true 20 _memcached_init 2 18 = (true, memc')
    /\ pool_inv memc' [] /\ server_ntotal memc' = 19.
Proof.
  destruct (memcached_rgroup_expand_spec zero_server true 20 _memcached_init [] 2 18 init_pool_ok)
    as (ok & m & He & Hok & Hext & _ & Hn); [by_computing..|].
  subst ok. exists m. split; [exact He|]. split; [exact (proj1 Hext)|]. by apply Hn.
Defined.

Lemma memcached_rgroup_prune_spec_witness :
  exists memc', memcached_rgroup_prune example_dead false = Some memc'
    /\ map groupname (groups_of memc') = [str "g2"].
Proof.
  destruct example_dead_ok as [idss Hinv].
  destruct (memcached_rgroup_prune_spec example_dead idss Hinv) as (m & idss' & Hp & _ & Hv & _).
  exists m. split; [exact Hp|]. apply (f_equal (map (fun v => fst (fst v)))) in Hv.
  rewrite !map_map in Hv. etransitivity; [exact Hv|]. by vm_compute.
Defined.

Lemma memcached_rgroup_list_free_spec_witness :
  exists memc', memcached_rgroup_list_free example_groups = Some memc' /\ server_pool memc' = ∅.
Proof.
  destruct example_groups_ok as (idss & Hinv & _).
  destruct (memcached_rgroup_list_free_spec example_groups idss Hinv) as (m & Hf & He & _);
    [by vm_compute|]. exists m. split; [exact Hf|exact He].
Defined.

Definition endpoints_check (l : list (bytes * Z)) : bool :=
  forallb (fun ep => bool_decide (no_nul (fst ep))
                     && (Z.of_nat (length (fst ep)) <? MEMCACHED_NI_MAXHOST)) l.
Definition name_check (name : bytes) : bool :=
  bool_decide (cstr name = name) && (Z.of_nat (length name) <? RGROUP_NAME_LENGTH).

Lemma name_check_ok name : name_check name = true -> valid_groupname name.
Proof. intros [H1%bool_decide_eq_true H2%Z.ltb_lt]%andb_true_iff. by split. Qed.

Lemma example_pushable memc gs :
  forallb (fun g => name_check (groupname g) &&
     match rgroup_endpoints memc g with
     | Some l => endpoints_check l && (length l <=? 3)%nat
     | None => false
     end) gs = true ->
  Forall (fun g => pushable (groupname g) (rgroup_endpoints memc g)) gs.
Proof.
  rewrite forallb_forall. intros Hall. apply Forall_forall. intros g Hg%list_elem_of_In.
  apply Hall, andb_true_iff in Hg as [Hn He]. split; [by apply name_check_ok|].
  destruct (rgroup_endpoints memc g) as [l|]; [|discriminate He].
  apply andb_true_iff in He as [He Hl%Nat.leb_le]. exists l.
  split; [done|]. split; [by apply example_endpoints|done].
Qed.

Lemma memcached_rgroup_push_spec_witness :
  exists memc', memcached_rgroup_push some_env zero_group zero_server true 20 ∅ example_room example_groups
                  (Some (groups_of example_groups)) = run_distribution some_env ∅ memc'
    /\ map groupname (groups_of memc') = [str "g1"; str "g2"].
Proof.
  destruct (memcached_rgroup_push_spec some_env zero_group zero_server 20 ∅ example_room example_groups
    (groups_of example_groups) [] example_room_ok) as (m & idss & Hp & _ & Hv & _).
  - apply example_pushable. by vm_compute.
  - by_computing.
  - by_computing.
  - by_computing.
  - exists m. split; [exact Hp|]. apply (f_equal (map (fun v => fst (fst v)))) in Hv.
    rewrite map_app, !map_map in Hv. etransitivity; [exact Hv|]. by vm_compute.
Defined.

(** The list is complete. *)
Lemma example_listed : listed_fully example_list.
Proof.
  apply Forall_forall. intros s Hs.
  assert (forallb (fun s => name_check (info_groupname s) && endpoints_check [info_endpoint s]
    && members_ok (group_members (info_groupname s) example_list)
    && negb (bool_decide (masters (group_members (info_groupname s) example_list) = []))) example_list = true)
    as Hall by by vm_compute.
  rewrite forallb_forall in Hall. apply list_elem_of_In, Hall in Hs.
  rewrite !andb_true_iff in Hs. destruct Hs as [[[H1 H2] H3] H4].
  split; [by apply name_check_ok|]. split.
  - apply example_endpoints in H2. by apply Forall_cons in H2 as [? _].
  - split; [done|]. by apply negb_true_iff, bool_decide_eq_false in H4.
Qed.

Lemma do_memcached_update_rgrouplist_spec_witness :
  exists mc', follows example_list example_groups mc'
    /\ do_memcached_update_rgrouplist some_env zero_group zero_server true 0 true ∅ example_groups example_list
       = (fun r => (r, true)) <$> run_distribution some_env ∅ mc'.
Proof.
  destruct example_groups_ok as (idss & Hinv & Hfull & Hl).
  destruct (do_memcached_update_rgrouplist_spec some_env zero_group zero_server 0 ∅ example_groups
    example_list idss Hinv Hfull) as (m & idss' & _ & _ & Hf & Hr).
  - apply Forall_forall. intros g Hg. assert (forallb (fun g => negb (rgroup_is_dead g)) (groups_of example_groups) = true)
      as Hall by by vm_compute. rewrite forallb_forall in Hall.
    apply list_elem_of_In, Hall, negb_true_iff in Hg. exact Hg.
  - apply (bool_decide_eq_true_1 _). by vm_compute.
  - discriminate.
  - exact example_listed.
  - by_computing.
  - rewrite Hl. by_computing.
  - exists m. split; [exact Hf|]. destruct Hr as [[_ Hr]|[Hs _]]; [exact Hr|exfalso].
    assert (bool_decide (str "g2" ∈ map info_groupname example_list) = false) as Hg by by vm_compute.
    apply bool_decide_eq_false in Hg. apply Hg, Hs. apply (bool_decide_eq_true_1 _). by vm_compute.
Defined.

(** ** What modelling showed *)

(** A group that has only slaves hides a new one with only a master: the group
    [A] of the list is valid, but the count of valid groups is zero, so that the
    handle stays without it. *)
Definition hidden_list : list memcached_server_info_st :=
  let server g h m := {| info_groupname := str g; info_hostname := str h; info_port := 1;
                         info_master := m; exist := false |} in
  [server "A" "a" true; server "B" "b1" false; server "B" "b2" false; server "B" "b3" false]%string.

Lemma valid_group_not_counted :
  (fun '(groups, validcount) => (map valid groups, validcount))
    <$> memcached_rgroup_info_create hidden_list = Some ([true; false], 0).
Proof. by vm_compute. Qed.

Lemma valid_group_not_followed :
  (fun '(rc, _, mc, changed) => (rc, number_of_hosts mc, changed))
    <$> do_memcached_update_rgrouplist some_env zero_group zero_server true 20 true ∅ _memcached_init
          hidden_list = Some (MEMCACHED_SUCCESS, 0, false).
Proof. by vm_compute. Qed.

(** The pool is extended for the listed servers and one more, but the old groups
    give theirs back only when it is their turn: when the first group grows
    before the second shrinks, the pool is exhausted and an assertion fails. *)
Definition grow_list (na nb : list string) : list memcached_server_info_st :=
  let servers g := imap (fun i h => {| info_groupname := str g; info_hostname := str h; info_port := 1;
                                       info_master := bool_decide (i = 0%nat); exist := false |}) in
  servers "A"%string na ++ servers "B"%string nb.

Definition follow (mc : memcached_st) (l : list memcached_server_info_st) : option memcached_st :=
  (fun r => snd (fst r)) <$>
    do_memcached_update_rgrouplist some_env zero_group zero_server true 20 true ∅ mc l.

Lemma pool_exhausted :
  exists mc, follow _memcached_init (grow_list ["a"] ["b"; "c"; "d"])%string = Some mc
    /\ follow mc (grow_list ["a"; "e"; "f"] ["b"])%string = None.
Proof.
  destruct (follow _memcached_init (grow_list ["a"] ["b"; "c"; "d"])%string) as [mc|] eqn:E;
    vm_compute in E; [|discriminate E].
  exists mc. split; [done|]. injection E as <-. by vm_compute.
Qed.
