(* ===== verification/Error.v ===== *)
(** Error messages: error.cc and strerror.cc.

    A handle and each of its servers keep a list of errors, the newest first;
    the model passes the list and the query number of the handle.  Every message
    is composed as the code does it.  What the C library says of an error number
    ([strerror_r]) and the header with the time and the numbers of the handle are
    parameters, and [malloc] is whether the memory for an error is there. *)
From S2P Require Import Prelude HashFunctions Hashkit Memcached KeyHash Continuum Distribution.
From S2P Require Import ServerList.

Definition memcached_strerror (rc : memcached_return_t) : bytes :=
  str match rc with
  | MEMCACHED_SUCCESS => "SUCCESS"
  | MEMCACHED_FAILURE => "FAILURE"
  | MEMCACHED_HOST_LOOKUP_FAILURE => "getaddrinfo() or getnameinfo() HOSTNAME LOOKUP FAILURE"
  | MEMCACHED_CONNECTION_FAILURE => "CONNECTION FAILURE"
  | MEMCACHED_CONNECTION_BIND_FAILURE => "CONNECTION BIND FAILURE"
  | MEMCACHED_READ_FAILURE => "READ FAILURE"
  | MEMCACHED_UNKNOWN_READ_FAILURE => "UNKNOWN READ FAILURE"
  | MEMCACHED_PROTOCOL_ERROR => "PROTOCOL ERROR"
  | MEMCACHED_CLIENT_ERROR => "CLIENT ERROR"
  | MEMCACHED_SERVER_ERROR => "SERVER ERROR"
  | MEMCACHED_WRITE_FAILURE => "WRITE FAILURE"
  | MEMCACHED_CONNECTION_SOCKET_CREATE_FAILURE => "CONNECTION SOCKET CREATE FAILURE"
  | MEMCACHED_DATA_EXISTS => "CONNECTION DATA EXISTS"
  | MEMCACHED_DATA_DOES_NOT_EXIST => "CONNECTION DATA DOES NOT EXIST"
  | MEMCACHED_NOTSTORED => "NOT STORED"
  | MEMCACHED_STORED => "STORED"
  | MEMCACHED_NOTFOUND => "NOT FOUND"
  | MEMCACHED_MEMORY_ALLOCATION_FAILURE => "MEMORY ALLOCATION FAILURE"
  | MEMCACHED_PARTIAL_READ => "PARTIAL READ"
  | MEMCACHED_SOME_ERRORS => "SOME ERRORS WERE REPORTED"
  | MEMCACHED_NO_SERVERS => "NO SERVERS DEFINED"
  | MEMCACHED_END => "SERVER END"
  | MEMCACHED_DELETED => "SERVER DELETE"
  | MEMCACHED_VALUE => "SERVER VALUE"
  | MEMCACHED_STAT => "STAT VALUE"
  | MEMCACHED_ITEM => "ITEM VALUE"
  | MEMCACHED_ERRNO => "SYSTEM ERROR"
  | MEMCACHED_FAIL_UNIX_SOCKET => "COULD NOT OPEN UNIX SOCKET"
  | MEMCACHED_NOT_SUPPORTED => "ACTION NOT SUPPORTED"
  | MEMCACHED_FETCH_NOTFINISHED => "FETCH WAS NOT COMPLETED"
  | MEMCACHED_NO_KEY_PROVIDED => "A KEY LENGTH OF ZERO WAS PROVIDED"
  | MEMCACHED_BUFFERED => "ACTION QUEUED"
  | MEMCACHED_TIMEOUT => "A TIMEOUT OCCURRED"
  | MEMCACHED_BAD_KEY_PROVIDED => "A BAD KEY WAS PROVIDED/CHARACTERS OUT OF RANGE"
  | MEMCACHED_INVALID_HOST_PROTOCOL => "THE HOST TRANSPORT PROTOCOL DOES NOT MATCH THAT OF THE CLIENT"
  | MEMCACHED_SERVER_MARKED_DEAD => "SERVER IS MARKED DEAD"
  | MEMCACHED_UNKNOWN_STAT_KEY => "ENCOUNTERED AN UNKNOWN STAT KEY"
  | MEMCACHED_E2BIG => "ITEM TOO BIG"
  | MEMCACHED_INVALID_ARGUMENTS => "INVALID ARGUMENTS"
  | MEMCACHED_KEY_TOO_BIG => "KEY RETURNED FROM SERVER WAS TOO LARGE"
  | MEMCACHED_AUTH_PROBLEM => "FAILED TO SEND AUTHENTICATION TO SERVER"
  | MEMCACHED_AUTH_FAILURE => "AUTHENTICATION FAILURE"
  | MEMCACHED_AUTH_CONTINUE => "CONTINUE AUTHENTICATION"
  | MEMCACHED_PARSE_ERROR => "ERROR OCCURRED WHILE PARSING"
  | MEMCACHED_PARSE_USER_ERROR => "USER INITIATED ERROR OCCURRED WHILE PARSING"
  | MEMCACHED_DEPRECATED => "DEPRECATED"
  | MEMCACHED_IN_PROGRESS => "OPERATION IN PROCESS"
  | MEMCACHED_SERVER_TEMPORARILY_DISABLED => "SERVER HAS FAILED AND IS DISABLED UNTIL TIMED RETRY"
  | MEMCACHED_ATTR => "ATTR VALUE"
  | MEMCACHED_ATTR_ERROR_NOT_FOUND => "ATTR ERROR not found"
  | MEMCACHED_ATTR_ERROR_BAD_VALUE => "ATTR ERROR bad value"
  | MEMCACHED_COUNT => "ITEMS COUNT"
  | MEMCACHED_ATTR_MISMATCH => "ATTR MISMATCH"
  | MEMCACHED_BKEY_MISMATCH => "BKEY MISMATCH"
  | MEMCACHED_EFLAG_MISMATCH => "EFLAG MISMATCH"
  | MEMCACHED_UNREADABLE => "KEY UNREADABLE"
  | MEMCACHED_TRIMMED => "TRIMMED"
  | MEMCACHED_DUPLICATED => "DUPLICATED"
  | MEMCACHED_RESPONSE => "NUMBER OF RESPONSE"
  | MEMCACHED_UPDATED => "UPDATED"
  | MEMCACHED_NOTHING_TO_UPDATE => "NOTHING TO UPDATE"
  | MEMCACHED_CREATED => "COLLECTION CREATED"
  | MEMCACHED_EXISTS => "COLLECTION EXISTS"
  | MEMCACHED_ALL_EXIST => "PIPED SET EXIST : ALL ITEMS EXIST"
  | MEMCACHED_SOME_EXIST => "PIPED SET EXIST : SOME ITEMS EXIST"
  | MEMCACHED_ALL_NOT_EXIST => "PIPED SET EXIST : ALL ITEMS DO NOT EXIST"
  | MEMCACHED_ALL_SUCCESS => "PIPED OPERATION : ALL SUCCESS"
  | MEMCACHED_SOME_SUCCESS => "PIPED OPERATION : SOME SUCCESS"
  | MEMCACHED_ALL_FAILURE => "PIPED OPERATION : ALL FAILURE"
  | MEMCACHED_CREATED_STORED => "COLLECTION CREATED AND STORED"
  | MEMCACHED_ELEMENT_EXISTS => "ELEMENT EXISTS IN THE COLLECTION"
  | MEMCACHED_NOTFOUND_ELEMENT => "NOT FOUND ELEMENT"
  | MEMCACHED_OUT_OF_RANGE => "OUT OF RANGE"
  | MEMCACHED_OVERFLOWED => "COLLECTION OVERFLOWED"
  | MEMCACHED_TYPE_MISMATCH => "COLLECTION TYPE MISMATCH"
  | MEMCACHED_EXIST => "COLLECTION MEMBERSHIP EXIST"
  | MEMCACHED_NOT_EXIST => "COLLECTION MEMBERSHIP NOT EXIST"
  | MEMCACHED_DELETED_DROPPED => "COLLECTION DELETED DROPPED"
  | MEMCACHED_PIPE_ERROR_COMMAND_OVERFLOW => "PIPE ERROR : COMMAND OVERFLOW"
  | MEMCACHED_PIPE_ERROR_MEMORY_OVERFLOW => "PIPE ERROR : MEMORY OVERFLOW"
  | MEMCACHED_PIPE_ERROR_BAD_ERROR => "PIPE ERROR : BAD ERROR"
  | MEMCACHED_REPLACED => "REPLACED"
  | MEMCACHED_POSITION => "ELEMENT POSITION"
  | MEMCACHED_INVALID_COMMAND => "INVALID COMMAND"
  | MEMCACHED_UNDEFINED_RESPONSE => "UNDEFINED RESPONSE"
  | MEMCACHED_SWITCHOVER => "REPLICATION SWITCHOVER"
  | MEMCACHED_REPL_SLAVE => "REPLICATION REPL_SLAVE"
  | MEMCACHED_MAXIMUM_RETURN => "INVALID memcached_return_t"
  end%string.

(** ** Errors *)

Definition MAX_ERROR_LENGTH : nat := 2048.
Definition ERROR_HDR_LENGTH : nat := 128.

Definition ENOMEM : Z := 12.
Definition EINVAL : Z := 22.
Definition ENOTCONN : Z := 107.
Definition ECONNREFUSED : Z := 111.

(** The handle that an error points to is not in the record. *)
Record memcached_error_t := {
  error_query_id : Z;
  error_rc : memcached_return_t;
  error_errno : Z;
  error_size : Z;
  message : bytes;
}.

#[export] Instance memcached_error_eq_dec : EqDecision memcached_error_t.
Proof. solve_decision. Defined.

(** [snprintf] of a text into [n] bytes: what is there up to the NUL, and the
    length that it returns. *)
Definition snprintf (n : nat) (text : bytes) : bytes * Z :=
  (take (n - 1) text, Z.of_nat (length text)).

(** [memcached_error_free]. *)
Definition memcached_error_free (errors : list memcached_error_t) : list memcached_error_t := [].

(** The errors of an older query are dropped. *)
Definition drop_stale (query : Z) (errors : list memcached_error_t) : list memcached_error_t :=
  match errors with
  | e :: _ => if error_query_id e =? query then errors else memcached_error_free errors
  | [] => []
  end.

(** The assignments to [rc] and [local_errno] of [_set]; [errno] is the global
    one. *)
Definition settle (errno : Z) (rc : memcached_return_t) (local_errno : Z)
    : memcached_return_t * Z :=
  let rc := if (local_errno =? ENOMEM) && bool_decide (rc = MEMCACHED_ERRNO)
            then MEMCACHED_MEMORY_ALLOCATION_FAILURE else rc in
  let local_errno := if bool_decide (rc = MEMCACHED_MEMORY_ALLOCATION_FAILURE)
                     then ENOMEM else local_errno in
  let local_errno := if bool_decide (rc = MEMCACHED_ERRNO) && (local_errno =? 0)
                     then errno else local_errno in
  let rc := if bool_decide (rc = MEMCACHED_ERRNO) && (local_errno =? ENOTCONN)
            then MEMCACHED_CONNECTION_FAILURE else rc in
  let rc := if local_errno =? EINVAL then MEMCACHED_INVALID_ARGUMENTS else rc in
  let rc := if local_errno =? ECONNREFUSED then MEMCACHED_CONNECTION_FAILURE else rc in
  (rc, local_errno).

(** [%.*s] *)
Definition printf_string (s : bytes) : bytes := cstr s.

Section Messages.
Variable strerror_r : Z -> bytes.
(** What [errmsg_header] holds. *)
Variable errmsg_header : bytes.
(** [errno] of the C library. *)
Variable errno : Z.

(** The text of a message; [s] is [None] for a null pointer. *)
Definition error_text (s : option bytes) (rc : memcached_return_t) (local_errno : Z) (at_ : bytes)
    : bytes :=
  let s := default [] s in
  let header := errmsg_header ++ str " " in
  let arrow := str " -> " ++ at_ in
  if negb (length s =? 0)%nat && negb (local_errno =? 0) then
    header ++ memcached_strerror rc ++ str "(" ++ strerror_r local_errno ++ str "), "
      ++ printf_string s ++ arrow
  else if negb (local_errno =? 0) then
    header ++ memcached_strerror rc ++ str "(" ++ strerror_r local_errno ++ str ")" ++ arrow
  else if bool_decide (rc = MEMCACHED_PARSE_ERROR) && negb (length s =? 0)%nat then
    header ++ printf_string s ++ arrow
  else if negb (length s =? 0)%nat then
    header ++ memcached_strerror rc ++ str ", " ++ printf_string s ++ arrow
  else header ++ memcached_strerror rc ++ arrow.

(** [_set] on a handle: the code, which the function changes through its
    reference, and the errors. *)
Definition _set (malloc : bool) (query : Z) (errors : list memcached_error_t)
    (s : option bytes) (rc : memcached_return_t) (at_ : bytes) (local_errno : Z)
    : memcached_return_t * list memcached_error_t :=
  let errors := drop_stale query errors in
  let '(rc, local_errno) := settle errno rc local_errno in
  if negb malloc then (rc, errors)
  else
    let '(text, len) := snprintf MAX_ERROR_LENGTH (error_text s rc local_errno at_) in
    (rc, {| error_query_id := query; error_rc := rc; error_errno := local_errno;
            error_size := i32 len; message := text |} :: errors).

(** [_set] on a server: the newest error of the handle is copied. *)
Definition _set_server (malloc : bool) (query : Z) (errors : list memcached_error_t)
    (root_errors : list memcached_error_t) : list memcached_error_t :=
  let errors := drop_stale query errors in
  match root_errors with
  | [] => errors
  | e :: _ => if malloc then e :: errors else errors
  end.

(** ** Setting an error of a handle *)

(** The overloads of [memcached_set_error] for a handle: [s] is [None] for the
    one without a text. *)
Definition memcached_set_error (malloc : bool) (query : Z) (errors : list memcached_error_t)
    (rc : memcached_return_t) (at_ : bytes) (s : option bytes)
    : memcached_return_t * list memcached_error_t :=
  if bool_decide (rc = MEMCACHED_ERRNO) then (rc, errors)
  else if memcached_success rc then (MEMCACHED_SUCCESS, errors)
  else _set malloc query errors s rc at_ 0.

Definition memcached_set_errno (malloc : bool) (query : Z) (errors : list memcached_error_t)
    (local_errno : Z) (at_ : bytes) (s : option bytes)
    : memcached_return_t * list memcached_error_t :=
  if local_errno =? 0 then (MEMCACHED_SUCCESS, errors)
  else _set malloc query errors s MEMCACHED_ERRNO at_ local_errno.

(** ** Setting an error of a server *)

(** The text with the host that the message of a server has. *)
Definition host_text (s : option bytes) (host : bytes) (port : Z) : bytes :=
  let where_ := str "host: " ++ host ++ str ":" ++ print_u32 port in
  match s with
  | Some s =>
      fst (snprintf MAX_ERROR_LENGTH
             (if negb (length s =? 0)%nat then printf_string s ++ str ", " ++ where_ else where_))
  | None => fst (snprintf (1025 + 32 + 8) where_)
  end.

(** The errors of a handle and of one of its servers. *)
Record error_lists := {
  root_errors : list memcached_error_t;
  server_errors : list memcached_error_t;
}.

Definition set_both (malloc : bool * bool) (query : Z) (errors : error_lists) (host : bytes) (port : Z)
    (rc : memcached_return_t) (at_ : bytes) (s : option bytes) (local_errno : Z)
    : memcached_return_t * error_lists :=
  let '(rc, root) := _set (fst malloc) query (root_errors errors)
                       (Some (host_text s host port)) rc at_ local_errno in
  (rc, {| root_errors := root;
          server_errors := _set_server (snd malloc) query (server_errors errors) root |}).

(** [None] is the assertion that the code is not [MEMCACHED_SOME_ERRORS]. *)
Definition memcached_server_set_error (malloc : bool * bool) (query : Z) (errors : error_lists)
    (host : bytes) (port : Z) (rc : memcached_return_t) (at_ : bytes) (s : option bytes)
    : option (memcached_return_t * error_lists) :=
  if bool_decide (rc = MEMCACHED_ERRNO) then Some (rc, errors)
  else if bool_decide (rc = MEMCACHED_SOME_ERRORS) then None
  else if memcached_success rc then Some (MEMCACHED_SUCCESS, errors)
  else Some (set_both malloc query errors host port rc at_ s 0).

Definition memcached_server_set_errno (malloc : bool * bool) (query : Z) (errors : error_lists)
    (host : bytes) (port : Z) (local_errno : Z) (at_ : bytes) (s : option bytes)
    : memcached_return_t * error_lists :=
  if local_errno =? 0 then (MEMCACHED_SUCCESS, errors)
  else set_both malloc query errors host port MEMCACHED_ERRNO at_ s local_errno.
End Messages.

(** ** Reading errors *)

Definition memcached_last_error (errors : list memcached_error_t) : memcached_return_t :=
  match errors with [] => MEMCACHED_SUCCESS | e :: _ => error_rc e end.

Definition memcached_last_error_errno (errors : list memcached_error_t) : Z :=
  match errors with [] => 0 | e :: _ => error_errno e end.

Definition memcached_last_error_message (errors : list memcached_error_t) : bytes :=
  match errors with
  | [] => memcached_strerror MEMCACHED_SUCCESS
  | e :: _ => if error_size e =? 0 then memcached_strerror (error_rc e) else message e
  end.

Definition memcached_has_current_error (query : Z) (errors : list memcached_error_t) : bool :=
  match errors with
  | [] => false
  | e :: _ => (error_query_id e =? query) && memcached_failed (error_rc e)
  end.

(** [memcached_server_error] is [memcached_last_error_message] of the errors of a
    server, and [memcached_server_error_return] is this. *)
Definition memcached_server_error_return (errors : list memcached_error_t) : memcached_return_t :=
  match errors with [] => MEMCACHED_SUCCESS | e :: _ => error_rc e end.

Definition memcached_error_copy (errors : list memcached_error_t) : option memcached_error_t :=
  head errors.

(** ** The detailed message *)

(** The buffer of a handle for it: its size, [None] when there is none. *)
Definition detail_size (errors : list memcached_error_t) : Z :=
  fold_left (fun size e => size + (error_size e + 1)) errors (Z.of_nat ERROR_HDR_LENGTH).

Definition _error_msg_buffer_alloc (malloc : bool) (buffer : option Z)
    (errors : list memcached_error_t) : bool * option Z :=
  let size := detail_size errors in
  let max := Z.of_nat MAX_ERROR_LENGTH in
  let buffer_size := max + max * (size / max) in
  match buffer with
  | Some old => if size <? old then (true, buffer)
                else if malloc then (true, Some buffer_size) else (false, buffer)
  | None => if malloc then (true, Some buffer_size) else (false, buffer)
  end.

(** The loop that appends the messages; the bytes of the buffer from the start,
    without the NUL, and [write_length].  [None] is a write behind the end of the
    buffer. *)
Fixpoint append_messages (buffer_size : Z) (errors : list memcached_error_t) (out : bytes)
    (write_length : Z) : option (bytes * Z) :=
  match errors with
  | [] => Some (out, write_length)
  | e :: errors =>
      let room := buffer_size - write_length in
      if room <? 0 then None
      else
        let '(text, len) := snprintf (Z.to_nat room) (message e ++ str "
") in
        append_messages buffer_size errors (take (Z.to_nat write_length) out ++ text)
          (write_length + len)
  end.

Definition memcached_detail_error_message (malloc : bool) (buffer : option Z)
    (errors : list memcached_error_t) (rc : memcached_return_t) : option (bytes * option Z) :=
  match errors with
  | [] => Some (memcached_strerror rc, buffer)
  | _ =>
      match _error_msg_buffer_alloc malloc buffer errors with
      | (false, buffer) => Some (memcached_strerror MEMCACHED_MEMORY_ALLOCATION_FAILURE, buffer)
      | (true, buffer) =>
          let '(head, len) := snprintf ERROR_HDR_LENGTH
                                (str "rc(" ++ memcached_strerror rc ++ str ")
") in
          '(text, _) ← append_messages (default 0 buffer) errors head len;
          Some (text, buffer)
      end
  end.

(** ** What the errors are *)

(** The errors of a list are of one query. *)
Definition one_query (errors : list memcached_error_t) : Prop :=
  Forall (fun e => error_query_id e = default 0 (error_query_id <$> head errors)) errors.

(** The code that an error number stands for. *)
Definition errno_return (local_errno : Z) : memcached_return_t :=
  if local_errno =? 0 then MEMCACHED_SUCCESS
  else if local_errno =? ENOMEM then MEMCACHED_MEMORY_ALLOCATION_FAILURE
  else if local_errno =? EINVAL then MEMCACHED_INVALID_ARGUMENTS
  else if (local_errno =? ENOTCONN) || (local_errno =? ECONNREFUSED)
       then MEMCACHED_CONNECTION_FAILURE
  else MEMCACHED_ERRNO.

Lemma settle_error errno rc : rc <> MEMCACHED_ERRNO ->
  settle errno rc 0 = (rc, if bool_decide (rc = MEMCACHED_MEMORY_ALLOCATION_FAILURE) then ENOMEM else 0).
Proof.
  intros Hrc. unfold settle. cbn [Z.eqb ENOMEM EINVAL ENOTCONN ECONNREFUSED andb].
  rewrite (bool_decide_false (rc = MEMCACHED_ERRNO)) by done. by case_bool_decide.
Qed.

Lemma settle_errno errno n : n <> 0 -> settle errno MEMCACHED_ERRNO n = (errno_return n, n).
Proof.
  intros Hn. unfold settle, errno_return, ENOMEM, EINVAL, ENOTCONN, ECONNREFUSED.
  destruct (Z.eqb_spec n 0); [done|].
  destruct (Z.eqb_spec n 12) as [->|]; [done|]. destruct (Z.eqb_spec n 22) as [->|]; [done|].
  destruct (Z.eqb_spec n 107) as [->|]; [done|]. destruct (Z.eqb_spec n 111) as [->|]; [done|].
  cbn [andb]. rewrite !(bool_decide_true (MEMCACHED_ERRNO = MEMCACHED_ERRNO)) by done.
  rewrite !(bool_decide_false (MEMCACHED_ERRNO = MEMCACHED_MEMORY_ALLOCATION_FAILURE)) by done.
  cbn [andb orb]. by rewrite !(proj2 (Z.eqb_neq n _)) by done.
Qed.

Lemma drop_stale_query query errors : one_query errors ->
  Forall (fun e => error_query_id e = query) (drop_stale query errors).
Proof.
  destruct errors as [|e errors]; [done|]. intros Hall. cbn [drop_stale].
  destruct (Z.eqb_spec (error_query_id e) query) as [<-|]; [exact Hall|constructor].
Qed.

(** After an error was set: the newest errors of the handle and of the server are
    it, and only errors of the current query are left. *)
Definition error_is_set (query : Z) (errors errors' : error_lists) (rc : memcached_return_t) : Prop :=
  exists e, root_errors errors' = e :: drop_stale query (root_errors errors)
    /\ server_errors errors' = e :: drop_stale query (server_errors errors)
    /\ error_rc e = rc /\ error_query_id e = query
    /\ Forall (fun e => error_query_id e = query) (root_errors errors' ++ server_errors errors').

Section Set_.
Context (strerror_r : Z -> bytes) (errmsg_header : bytes) (errno : Z).
Lemma set_both_ok query errors host port rc at_ s n rc' n' :
  settle errno rc n = (rc', n') -> one_query (root_errors errors) -> one_query (server_errors errors) ->
  exists errors', set_both strerror_r errmsg_header errno (true, true) query errors host port rc at_ s n = (rc', errors')
    /\ error_is_set query errors errors' rc'.
Proof.
  intros Hs Hr Hserv. unfold set_both, _set. cbn [fst snd negb]. rewrite Hs.
  eexists. split; [reflexivity|]. cbn [snd]. eexists.
  split_and!; [reflexivity|reflexivity|done|done|].
  cbn [root_errors server_errors _set_server]. apply Forall_app.
  split; apply Forall_cons; (split; [done|]); by apply drop_stale_query.
Qed.

(** reporting a failure of a server, by a code or by an error number, gives
    the code for it: a code stands for itself, and of the numbers those for no
    memory, a bad argument and a lost connection have codes of their own.  When
    memory is there, the failure is the newest error of the server and of its
    handle, which answers with the same code, and errors of older queries are
    gone from both. *)
Theorem memcached_server_set_error_spec query errors host port rc local_errno at_ s :
  one_query (root_errors errors) -> one_query (server_errors errors) ->
  memcached_success rc = false -> rc <> MEMCACHED_ERRNO -> rc <> MEMCACHED_SOME_ERRORS ->
  memcached_failed rc = true -> local_errno <> 0 ->
  (exists errors', memcached_server_set_error strerror_r errmsg_header errno (true, true) query errors
                     host port rc at_ s = Some (rc, errors')
     /\ error_is_set query errors errors' rc
     /\ memcached_last_error (root_errors errors') = rc
     /\ memcached_server_error_return (server_errors errors') = rc
     /\ memcached_has_current_error query (root_errors errors') = true)
  /\ exists errors', memcached_server_set_errno strerror_r errmsg_header errno (true, true) query errors
                       host port local_errno at_ s = (errno_return local_errno, errors')
     /\ error_is_set query errors errors' (errno_return local_errno)
     /\ memcached_last_error (root_errors errors') = errno_return local_errno.
Proof.
  intros Hr Hs Hsucc Hne Hsome Hfail Hn. split.
  - unfold memcached_server_set_error. rewrite !bool_decide_false, Hsucc by done.
    destruct (set_both_ok query errors host port rc at_ s 0 rc _ (settle_error errno rc Hne) Hr Hs)
      as (errors' & -> & Hset).
    exists errors'. split; [done|]. split; [done|]. destruct Hset as (e & He & He' & Hrc & Hq & _).
    rewrite He, He'. cbn. rewrite Hrc, Hq, Z.eqb_refl. done.
  - unfold memcached_server_set_errno. rewrite (proj2 (Z.eqb_neq _ _) Hn).
    destruct (set_both_ok query errors host port _ at_ s local_errno _ _ (settle_errno errno _ Hn) Hr Hs)
      as (errors' & -> & Hset).
    exists errors'. split; [done|]. split; [done|]. destruct Hset as (e & -> & _ & Hrc & _). exact Hrc.
Qed.
End Set_.

(** ** The detailed message *)

(** What [snprintf] wrote fits what the error says of its size. *)
Definition sized (e : memcached_error_t) : Prop := Z.of_nat (length (message e)) <= error_size e.

Definition lines (errors : list memcached_error_t) : bytes :=
  concat (map (fun e => message e ++ str "
") errors).

Lemma lines_cons e errors : lines (e :: errors) = (message e ++ str "
") ++ lines errors.
Proof. reflexivity. Qed.

Lemma detail_size_ge errors size : Forall sized errors ->
  size + Z.of_nat (length (lines errors)) <= fold_left (fun size e => size + (error_size e + 1)) errors size.
Proof.
  intros Hs. revert size. induction Hs as [|e errors He _ IH]; intros size; [cbn; lia|].
  cbn [fold_left]. specialize (IH (size + (error_size e + 1))). rewrite lines_cons, !length_app.
  unfold sized in He. assert (length (str "
") = 1%nat) as -> by reflexivity. lia.
Qed.

Lemma append_messages_ok buffer_size errors out :
  Z.of_nat (length out) + Z.of_nat (length (lines errors)) < buffer_size ->
  append_messages buffer_size errors out (Z.of_nat (length out))
    = Some (out ++ lines errors, Z.of_nat (length (out ++ lines errors))).
Proof.
  revert out. induction errors as [|e errors IH]; intros out Hlen; cbn [append_messages lines map concat].
  { by rewrite app_nil_r. }
  fold (lines errors). change (concat _) with (lines (e :: errors)).
  rewrite lines_cons in *. rewrite length_app in Hlen. set (text := message e ++ str "
") in *.
  destruct (Z.ltb_spec (buffer_size - Z.of_nat (length out)) 0) as [|_]; [lia|].
  cbn [snprintf]. rewrite Nat2Z.id, take_ge by lia. rewrite take_ge by lia.
  rewrite <-Nat2Z.inj_add, <-length_app, IH by (rewrite length_app; lia).
  by rewrite !app_assoc.
Qed.

Lemma strerror_fits rc : (length (str "rc(" ++ memcached_strerror rc ++ str ")
") <= ERROR_HDR_LENGTH - 1)%nat.
Proof. apply Nat.leb_le. by destruct rc. Qed.

(** The detailed message never runs over its buffer, however many errors
    there are and however long they are, and it is complete: the code and then
    every message on a line of its own.  Without memory for a longer buffer the
    message says so, and the buffer that is there stays. *)
Theorem memcached_detail_error_message_spec malloc buffer errors rc :
  Forall sized errors -> errors <> [] ->
  exists text buffer',
    memcached_detail_error_message malloc buffer errors rc = Some (text, buffer')
    /\ (buffer' = buffer /\ malloc = false
          /\ text = memcached_strerror MEMCACHED_MEMORY_ALLOCATION_FAILURE
        \/ (exists size, buffer' = Some size /\ Z.of_nat (length text) < size)
          /\ text = str "rc(" ++ memcached_strerror rc ++ str ")
" ++ lines errors).
Proof.
  intros Hs Hne. unfold memcached_detail_error_message. destruct errors as [|e0 l] eqn:El; [done|].
  rewrite <-El in *. clear El Hne. pose proof (strerror_fits rc) as Hfit.
  set (head := str "rc(" ++ memcached_strerror rc ++ str ")
") in *.
  pose proof (detail_size_ge errors (Z.of_nat ERROR_HDR_LENGTH) Hs) as Hge. fold (detail_size errors) in Hge.
  assert (forall size, detail_size errors < size ->
    append_messages size errors (take (ERROR_HDR_LENGTH - 1) head) (Z.of_nat (length head))
      = Some (head ++ lines errors, Z.of_nat (length (head ++ lines errors)))
    /\ Z.of_nat (length (head ++ lines errors)) < size) as Happ.
  { intros size Hlt. rewrite take_ge by done.
    split; [apply append_messages_ok|rewrite length_app]; unfold ERROR_HDR_LENGTH in *; lia. }
  assert (detail_size errors < Z.of_nat MAX_ERROR_LENGTH
            + Z.of_nat MAX_ERROR_LENGTH * (detail_size errors / Z.of_nat MAX_ERROR_LENGTH)) as Hnew.
  { pose proof (Z.div_mod (detail_size errors) (Z.of_nat MAX_ERROR_LENGTH)).
    pose proof (Z.mod_pos_bound (detail_size errors) (Z.of_nat MAX_ERROR_LENGTH)).
    unfold MAX_ERROR_LENGTH in *. lia. }
  assert (head ++ lines errors = str "rc(" ++ memcached_strerror rc ++ str ")
" ++ lines errors) as Htext by (unfold head; by rewrite <-!app_assoc).
  unfold _error_msg_buffer_alloc, snprintf. cbv zeta.
  destruct buffer as [old|]; [destruct (Z.ltb_spec (detail_size errors) old)|]; [|destruct malloc..];
    cbn [default from_option id mbind option_bind].
  - destruct (Happ old) as [-> Hlt]; [done|]. eexists _, _. split; [reflexivity|]. right. eauto.
  - destruct (Happ _ Hnew) as [-> Hlt]. eexists _, _. split; [reflexivity|]. right. eauto.
  - eexists _, _. split; [reflexivity|]. by left.
  - destruct (Happ _ Hnew) as [-> Hlt]. eexists _, _. split; [reflexivity|]. right. eauto.
  - eexists _, _. split; [reflexivity|]. by left.
Qed.

(** ** Examples *)

(** An error of query 3. *)
Definition old_error : memcached_error_t :=
  {| error_query_id := 3; error_rc := MEMCACHED_TIMEOUT; error_errno := 0; error_size := 7;
     message := str "timeout" |}.

Definition old_errors : error_lists :=
  {| root_errors := [old_error]; server_errors := [old_error; old_error] |}.

Lemma memcached_server_set_error_spec_witness :
  exists errors', memcached_server_set_error (fun _ => str "text") (str "now") 0 (true, true) 7 old_errors
                    (str "host") 11211 MEMCACHED_SERVER_ERROR (str "here") None
                  = Some (MEMCACHED_SERVER_ERROR, errors')
    /\ memcached_last_error (root_errors errors') = MEMCACHED_SERVER_ERROR.
Proof.
  destruct (memcached_server_set_error_spec (fun _ => str "text") (str "now") 0 7 old_errors (str "host")
    11211 MEMCACHED_SERVER_ERROR 12 (str "here") None) as [(errors' & Hset & _ & Hlast & _) _];
    [repeat constructor; done..|exists errors'; split; [exact Hset|exact Hlast]].
Defined.

Lemma memcached_detail_error_message_spec_witness :
  exists text buffer', memcached_detail_error_message true None [old_error; old_error] MEMCACHED_TIMEOUT
                       = Some (text, buffer')
    /\ text = str "rc(A TIMEOUT OCCURRED)
timeout
timeout
".
Proof.
  destruct (memcached_detail_error_message_spec true None [old_error; old_error] MEMCACHED_TIMEOUT)
    as (text & buffer' & Hmsg & [(_ & Hm & _)|[_ Ht]]);
    [repeat constructor; unfold sized; simpl; lia|discriminate|discriminate Hm|].
  exists text, buffer'. split; [exact Hmsg|]. rewrite Ht. reflexivity.
Defined.
