(* ===== verification/StringBuf.v ===== *)
(** Growing strings: string.cc.

    A [memcached_string_st] has a block of [current_size] bytes, NULL at first,
    of which those before [end] are its value.  [realloc] is the allocator of the
    handle: it gives a longer block with the old bytes in front, or fails. *)
From S2P Require Import Prelude HashFunctions Hashkit Memcached.

Definition MEMCACHED_BLOCK_SIZE : Z := 1024.

(** [string_block] is what [string] points to and [string_end] is
    [end - string]. *)
Record memcached_string_st := {
  string_is_allocated : bool;
  string_is_initialized : bool;
  current_size : Z;
  string_block : option bytes;
  string_end : nat;
}.

#[export] Instance string_fields : Fields memcached_string_st := fun s =>
  {| string_is_allocated := string_is_allocated s;
     string_is_initialized := string_is_initialized s;
     current_size := current_size s;
     string_block := string_block s;
     string_end := string_end s |}.

(** The allocator: what [realloc] makes of a block, [None] for NULL. *)
Class Allocator := {
  realloc : option bytes -> Z -> option bytes;
  malloc : Z -> option bytes;
  realloc_size : forall b n b', realloc b n = Some b' -> Z.of_nat (length b') = n;
  realloc_keeps : forall b n b', realloc (Some b) n = Some b' ->
    Z.of_nat (length b) <= n -> take (length b) b' = b;
  realloc_max : forall b n b', realloc b n = Some b' -> n < 2 ^ 63;
  malloc_size : forall n b, malloc n = Some b -> Z.of_nat (length b) = n;
}.

Section Strings.
Context `{Allocator}.

(** The new bytes of a block: those from [at_] on are replaced. *)
Definition store (b : bytes) (at_ : nat) (new : bytes) : bytes :=
  take at_ b ++ new ++ drop (at_ + length new) b.

Definition _string_check (self : memcached_string_st) (need : Z)
    : memcached_return_t * memcached_string_st :=
  let current_offset := Z.of_nat (string_end self) in
  let room := u64 (current_size self - current_offset) in
  if negb (need =? 0) && (room <? need) then
    let adjust := u64 (u64 (need - room) / MEMCACHED_BLOCK_SIZE + 1) in
    let new_size := u64 (u64 (adjust * MEMCACHED_BLOCK_SIZE) + current_size self) in
    if new_size <? need then (MEMCACHED_MEMORY_ALLOCATION_FAILURE, self)
    else
      match realloc (string_block self) new_size with
      | None => (MEMCACHED_MEMORY_ALLOCATION_FAILURE, self)
      | Some new_value =>
          (MEMCACHED_SUCCESS,
           self <| string_block := Some new_value |>
                <| current_size := u64 (current_size self + MEMCACHED_BLOCK_SIZE * adjust) |>)
      end
  else (MEMCACHED_SUCCESS, self).

Definition _init_string (self : memcached_string_st) : memcached_string_st :=
  self <| current_size := 0 |> <| string_end := 0%nat |> <| string_block := None |>.

(** [self] is the memory given, or what [malloc] returned, [None] when it fails;
    the result is [None] for NULL. *)
Definition memcached_string_create (self : option memcached_string_st) (allocated : bool)
    (initial_size : Z) : option memcached_string_st :=
  match self with
  | None => None
  | Some self =>
      let self := _init_string (self <| string_is_allocated := allocated |>) in
      match _string_check self initial_size with
      | (rc, self) =>
          if memcached_failed rc then None
          else Some (self <| string_is_initialized := true |>)
      end
  end.

(** A write at [end]; [None] is a write through NULL or behind the block. *)
Definition write_end (self : memcached_string_st) (new : bytes) : option memcached_string_st :=
  match string_block self with
  | None => if (length new =? 0)%nat then Some self else None
  | Some b =>
      if (string_end self + length new <=? length b)%nat
      then Some (self <| string_block := Some (store b (string_end self) new) |>)
      else None
  end.

Definition memcached_string_append_null (self : memcached_string_st)
    : option (memcached_return_t * memcached_string_st) :=
  let '(rc, self) := _string_check self 1 in
  if memcached_failed rc then Some (MEMCACHED_MEMORY_ALLOCATION_FAILURE, self)
  else
    self ← write_end self [Byte.x00];
    Some (MEMCACHED_SUCCESS, self).

Definition memcached_string_append_character (self : memcached_string_st) (c : byte)
    : option (memcached_return_t * memcached_string_st) :=
  let '(rc, self) := _string_check self 1 in
  if memcached_failed rc then Some (MEMCACHED_MEMORY_ALLOCATION_FAILURE, self)
  else
    self ← write_end self [c];
    Some (MEMCACHED_SUCCESS, self <| string_end ::= S |>).

Definition memcached_string_append (self : memcached_string_st) (value : bytes)
    : option (memcached_return_t * memcached_string_st) :=
  let '(rc, self) := _string_check self (Z.of_nat (length value)) in
  if memcached_failed rc then Some (MEMCACHED_MEMORY_ALLOCATION_FAILURE, self)
  else
    self ← write_end self value;
    Some (MEMCACHED_SUCCESS, self <| string_end ::= fun e => (e + length value)%nat |>).

Definition memcached_string_length (self : memcached_string_st) : Z := Z.of_nat (string_end self).
Definition memcached_string_size (self : memcached_string_st) : Z := current_size self.

(** [memcached_string_value]: the bytes up to [end]. *)
Definition memcached_string_value (self : memcached_string_st) : bytes :=
  take (string_end self) (default [] (string_block self)).

(** [None] is NULL. *)
Definition memcached_string_c_copy (self : memcached_string_st) : option bytes :=
  if memcached_string_length self =? 0 then None
  else
    _ ← malloc (memcached_string_length self + 1);
    Some (memcached_string_value self ++ [Byte.x00]).

Definition memcached_string_reset (self : memcached_string_st) : memcached_string_st :=
  self <| string_end := 0%nat |>.

Definition memcached_string_check (self : memcached_string_st) (need : Z)
    : memcached_return_t * memcached_string_st := _string_check self need.

Definition memcached_string_set_length (self : memcached_string_st) (length : nat)
    : memcached_string_st := self <| string_end := length |>.

(** The block that is returned, [None] for NULL, and the string afterwards. *)
Definition memcached_string_take_value (self : memcached_string_st)
    : option (option bytes * memcached_string_st) :=
  '(rc, self) ← memcached_string_append_null self;
  if memcached_success rc then Some (memcached_string_c_copy self, self)
  else Some (string_block self, _init_string self).

Definition memcached_string_free (self : memcached_string_st) : option memcached_string_st :=
  if string_is_allocated self then None
  else Some (self <| string_is_initialized := false |>).
End Strings.

(** ** Strings hold what was appended *)

Section Properties.
Context `{Allocator}.

Record string_inv (s : memcached_string_st) : Prop := {
  inv_block : match string_block s with
              | None => current_size s = 0
              | Some b => Z.of_nat (length b) = current_size s
              end;
  inv_end : Z.of_nat (string_end s) <= current_size s;
  inv_max : current_size s < 2 ^ 63;
}.

Lemma value_length s : string_inv s -> length (memcached_string_value s) = string_end s.
Proof.
  intros [Hb He _]. unfold memcached_string_value. rewrite length_take.
  destruct (string_block s); cbn; lia.
Qed.

(** Checking for room changes neither the value nor what is well formed, and after
    a success there is room. *)
Lemma _string_check_ok s need : string_inv s -> is_u64 need ->
  exists rc s', _string_check s need = (rc, s') /\ string_inv s'
    /\ string_end s' = string_end s /\ memcached_string_value s' = memcached_string_value s
    /\ ((rc = MEMCACHED_SUCCESS /\ (need = 0 \/ Z.of_nat (string_end s) + need <= current_size s'))
        \/ (rc = MEMCACHED_MEMORY_ALLOCATION_FAILURE /\ s' = s)).
Proof.
  intros Hinv Hneed. pose proof Hinv as [Hb He Hm]. unfold _string_check.
  rewrite (u64_small (current_size s - _)) by lia. set (room := current_size s - Z.of_nat (string_end s)).
  destruct (Z.eqb_spec need 0) as [->|Hn]; cbn [negb andb].
  { exists MEMCACHED_SUCCESS, s. split_and!; try done. left. auto. }
  destruct (Z.ltb_spec room need) as [Hlt|Hge].
  2: { exists MEMCACHED_SUCCESS, s. split_and!; try done. left. split; [done|]. right. lia. }
  rewrite (u64_small (need - room)) by lia. set (q := (need - room) / MEMCACHED_BLOCK_SIZE).
  assert (1024 * q <= need - room < 1024 * q + 1024) as Hq.
  { subst q. unfold MEMCACHED_BLOCK_SIZE. pose proof (Z.div_mod (need - room) 1024).
    pose proof (Z.mod_pos_bound (need - room) 1024). lia. }
  rewrite (u64_small (q + 1)) by lia.
  set (new_size := u64 (u64 ((q + 1) * MEMCACHED_BLOCK_SIZE) + current_size s)).
  destruct (Z.ltb_spec new_size need) as [Hover|Hok].
  { exists MEMCACHED_MEMORY_ALLOCATION_FAILURE, s. split_and!; try done. by right. }
  assert (new_size = (q + 1) * 1024 + current_size s) as Hnew.
  { subst new_size. unfold MEMCACHED_BLOCK_SIZE in *. rewrite u64_add_l in *.
    apply u64_small. unfold u64 in Hok.
    destruct (Z.lt_ge_cases ((q + 1) * 1024 + current_size s) (2 ^ 64)); [lia|].
    rewrite <-(Z_mod_plus_full _ (-1)), Z.mod_small in Hok; lia. }
  clearbody new_size. subst new_size.
  destruct (realloc (string_block s) _) as [b'|] eqn:Er.
  2: { exists MEMCACHED_MEMORY_ALLOCATION_FAILURE, s. split_and!; try done. by right. }
  pose proof (realloc_size _ _ _ Er) as Hsize. pose proof (realloc_max _ _ _ Er) as Hmax.
  eexists MEMCACHED_SUCCESS, _. split; [reflexivity|]. unfold MEMCACHED_BLOCK_SIZE.
  rewrite u64_small by lia. split_and!.
  - split; cbn [string_block current_size string_end update]; lia.
  - done.
  - unfold memcached_string_value. cbn [string_block string_end update default from_option id].
    destruct (string_block s) as [b|] eqn:Eb; cbn [default from_option id].
    + pose proof (realloc_keeps _ _ _ Er ltac:(lia)) as Hk. 
      transitivity (take (string_end s) (take (length b) b')); [|by rewrite Hk].
      rewrite take_take. f_equal. lia.
    + assert (string_end s = 0%nat) as -> by lia. by rewrite take_0, take_nil.
  - left. split; [done|]. right. cbn [current_size update]. lia.
Qed.

(** A write at the end where there is room. *)
Lemma write_end_ok s new :
  string_inv s -> (new = [] \/ Z.of_nat (string_end s) + Z.of_nat (length new) <= current_size s) ->
  exists s', write_end s new = Some s' /\ string_end s' = string_end s
    /\ memcached_string_value s' = memcached_string_value s
    /\ forall n, (n <= length new)%nat ->
         let s'' := s' <| string_end := (string_end s + n)%nat |> in
         string_inv s'' /\ memcached_string_value s'' = memcached_string_value s ++ take n new.
Proof.
  intros [Hb He Hm] Hroom. unfold write_end, memcached_string_value.
  destruct (string_block s) as [b|] eqn:Eb; cbn [default from_option id].
  - assert (string_end s + length new <= length b)%nat as Hlen.
    { destruct Hroom as [->|?]; [simpl; lia|lia]. }
    rewrite (proj2 (Nat.leb_le _ _)) by done. eexists. split; [reflexivity|].
    cbn [string_block string_end update default from_option id]. unfold store.
    assert (length (take (string_end s) b) = string_end s) as Ht by (rewrite length_take; lia).
    split; [done|]. split.
    { rewrite take_app_le by lia. rewrite take_take. f_equal. lia. }
    intros n Hn. split.
    + split; cbn [string_block string_end current_size update].
      * rewrite !length_app, length_drop. lia.
      * lia.
      * done.
    + rewrite take_app_ge by lia. rewrite Ht. f_equal.
      rewrite take_app_le by lia. f_equal. lia.
  - assert (new = []) as -> by (destruct new; [done|]; simpl in Hroom; destruct Hroom; [done|lia]).
    eexists. split; [reflexivity|]. rewrite Eb. cbn [default from_option id]. split_and!; [done|by rewrite !take_nil|].
    intros n Hn. cbn in Hn. assert (n = 0%nat) as -> by lia. cbn [string_block update]. rewrite Eb.
    split; [split|]; cbn [string_block string_end current_size update default from_option id].
    + by rewrite Eb.
    + lia.
    + done.
    + by rewrite !take_nil.
Qed.

Lemma memcached_string_append_ok s value : string_inv s -> Z.of_nat (length value) < 2 ^ 64 ->
  exists rc s', memcached_string_append s value = Some (rc, s') /\ string_inv s'
    /\ ((rc = MEMCACHED_SUCCESS /\ memcached_string_value s' = memcached_string_value s ++ value)
        \/ (rc = MEMCACHED_MEMORY_ALLOCATION_FAILURE
            /\ memcached_string_value s' = memcached_string_value s)).
Proof.
  intros Hinv Hlen. unfold memcached_string_append.
  destruct (_string_check_ok s (Z.of_nat (length value)) Hinv ltac:(lia))
    as (rc & s1 & -> & Hinv1 & He1 & Hv1 & [[-> Hroom]|[-> ->]]); cbn [memcached_failed].
  - destruct (write_end_ok s1 value Hinv1) as (s2 & -> & He2 & _ & Hw).
    { rewrite He1. destruct Hroom as [E|?]; [left; apply nil_length_inv; lia|by right]. }
    cbn [mbind option_bind]. eexists _, _. split; [reflexivity|].
    assert (s2 <| string_end ::= (fun e => (e + length value)%nat) |>
            = s2 <| string_end := (string_end s1 + length value)%nat |>) as -> by (rewrite <-He2; by destruct s2).
    destruct (Hw (length value)) as [Hinv2 Hv2]; [done|]. split; [done|]. left.
    split; [done|]. rewrite Hv2, Hv1. by rewrite firstn_all.
  - eexists _, _. split; [reflexivity|]. split; [done|]. by right.
Qed.

Lemma memcached_string_append_character_same s c :
  memcached_string_append_character s c = memcached_string_append s [c].
Proof.
  unfold memcached_string_append_character, memcached_string_append. cbn [length].
  change (Z.of_nat 1) with 1.
  destruct (_string_check s 1) as [rc s1]. destruct (memcached_failed rc); [done|].
  destruct (write_end s1 [c]) as [s2|]; cbn [mbind option_bind]; [|done]. do 2 f_equal.
  destruct s2. unfold update. cbn. by rewrite Nat.add_1_r.
Qed.

(** *** Sequences of operations *)

(** What a client does to a string. *)
Inductive string_op :=
  | Append (value : bytes)
  | Append_character (c : byte)
  | Check_room (need : Z)
  | Reset.

Definition run_op (s : memcached_string_st) (op : string_op)
    : option (memcached_return_t * memcached_string_st) :=
  match op with
  | Append value => memcached_string_append s value
  | Append_character c => memcached_string_append_character s c
  | Check_room need => Some (memcached_string_check s need)
  | Reset => Some (MEMCACHED_SUCCESS, memcached_string_reset s)
  end.

Fixpoint run_ops (s : memcached_string_st) (ops : list string_op)
    : option (list memcached_return_t * memcached_string_st) :=
  match ops with
  | [] => Some ([], s)
  | op :: ops =>
      '(rc, s) ← run_op s op;
      '(rcs, s) ← run_ops s ops;
      Some (rc :: rcs, s)
  end.

(** The specification is about the value alone: an operation that fails changes
    nothing. *)
Definition spec_op (v : bytes) (op : string_op) : bytes :=
  match op with
  | Append value => v ++ value
  | Append_character c => v ++ [c]
  | Check_room _ => v
  | Reset => []
  end.

Fixpoint spec_ops (v : bytes) (ops : list string_op) (rcs : list memcached_return_t) : bytes :=
  match ops, rcs with
  | op :: ops, rc :: rcs =>
      spec_ops (if bool_decide (rc = MEMCACHED_SUCCESS) then spec_op v op else v) ops rcs
  | _, _ => v
  end.

Definition small_op (op : string_op) : Prop :=
  match op with
  | Append value => Z.of_nat (length value) < 2 ^ 64
  | Check_room need => is_u64 need
  | _ => True
  end.

(** What is taken of a string that has room for the NUL. *)
Lemma string_take_value_ok s :
  string_inv s -> Z.of_nat (string_end s) + 1 <= current_size s ->
  (exists b, malloc (memcached_string_length s + 1) = Some b) ->
  exists s', memcached_string_take_value s
      = Some (match memcached_string_value s with [] => None | v => Some (v ++ [Byte.x00]) end, s')
    /\ string_inv s' /\ string_end s' = string_end s.
Proof.
  intros Hinv Hroom (m & Hm). unfold memcached_string_take_value, memcached_string_append_null.
  pose proof (inv_max s Hinv) as Hmax.
  assert (Hc : _string_check s 1 = (MEMCACHED_SUCCESS, s)).
  { unfold _string_check. rewrite u64_small by lia. rewrite (proj2 (Z.ltb_ge _ _)) by lia.
    by rewrite andb_false_r. }
  rewrite Hc. cbn [memcached_failed memcached_success negb].
  destruct (write_end_ok s [Byte.x00] Hinv) as (s' & E & He & Hv & Hs); [right; cbn; lia|].
  rewrite E. cbn [mbind option_bind memcached_success]. exists s'. destruct (Hs 0%nat) as [Hi _]; [cbn; lia|].
  assert (E' : s' <| string_end := (string_end s + 0)%nat |> = s') by (rewrite Nat.add_0_r, <-He; by destruct s').
  rewrite E' in Hi. split; [|done]. do 2 f_equal. unfold memcached_string_c_copy.
  assert (Hl : memcached_string_length s' = Z.of_nat (length (memcached_string_value s')))
    by (by rewrite value_length).
  assert (Hl' : memcached_string_length s = memcached_string_length s')
    by (unfold memcached_string_length; by rewrite He).
  rewrite Hl' in Hm. rewrite Hm, Hl, Hv. destruct (memcached_string_value s) as [|x v]; [done|].
  by rewrite (proj2 (Z.eqb_neq _ _)) by (cbn [length]; lia).
Qed.

Lemma string_reset_inv s : string_inv s -> string_inv (memcached_string_reset s).
Proof.
  intros [Hb He Hm]. split; [exact Hb| |exact Hm].
  cbn [string_end current_size memcached_string_reset update]. lia.
Qed.

Lemma run_op_ok s op : string_inv s -> small_op op ->
  exists rc s', run_op s op = Some (rc, s') /\ string_inv s'
    /\ (rc = MEMCACHED_SUCCESS \/ rc = MEMCACHED_MEMORY_ALLOCATION_FAILURE)
    /\ memcached_string_value s'
       = if bool_decide (rc = MEMCACHED_SUCCESS) then spec_op (memcached_string_value s) op
         else memcached_string_value s.
Proof.
  intros Hinv Hsmall. destruct op as [value|c|need|]; cbn [run_op spec_op].
  - destruct (memcached_string_append_ok s value Hinv Hsmall) as (rc & s' & -> & Hinv' & [[-> Hv]|[-> Hv]]);
      eexists _, _; (split; [reflexivity|]); auto.
  - rewrite memcached_string_append_character_same.
    destruct (memcached_string_append_ok s [c] Hinv) as (rc & s' & -> & Hinv' & [[-> Hv]|[-> Hv]]);
      [simpl; lia|..]; eexists _, _; (split; [reflexivity|]); auto.
  - destruct (_string_check_ok s need Hinv Hsmall) as (rc & s' & Hc & Hinv' & _ & Hv & Hrc).
    unfold memcached_string_check. rewrite Hc. eexists _, _. split; [reflexivity|].
    split; [done|]. split; [tauto|]. destruct Hrc as [[-> _]|[-> ->]]; [exact Hv|done].
  - eexists _, _. split; [reflexivity|]. split_and!; [by apply string_reset_inv|by left|reflexivity].
Qed.

Lemma run_ops_ok ops s : string_inv s -> Forall small_op ops ->
  exists rcs s', run_ops s ops = Some (rcs, s') /\ string_inv s' /\ length rcs = length ops
    /\ Forall (fun rc => rc = MEMCACHED_SUCCESS \/ rc = MEMCACHED_MEMORY_ALLOCATION_FAILURE) rcs
    /\ memcached_string_value s' = spec_ops (memcached_string_value s) ops rcs.
Proof.
  revert s. induction ops as [|op ops IH]; intros s Hinv Hsmall; cbn [run_ops].
  { exists [], s. by split_and!. }
  apply Forall_cons in Hsmall as [Hop Hops].
  destruct (run_op_ok s op Hinv Hop) as (rc & s1 & -> & Hinv1 & Hrc & Hv1). cbn [mbind option_bind].
  destruct (IH s1 Hinv1 Hops) as (rcs & s2 & -> & Hinv2 & Hl & Hrcs & Hv2). cbn [mbind option_bind].
  eexists _, _. split; [reflexivity|]. split_and!; [done|simpl; by rewrite Hl|by constructor|].
  cbn [spec_ops]. by rewrite <-Hv1.
Qed.

(** C26: whatever a client does to a new string, in whatever order and whenever
    memory runs out, no byte is written outside its block and the string holds
    what the operations that succeeded put there. *)
Theorem string_ops_refine memory allocated initial_size ops :
  is_u64 initial_size -> Forall small_op ops ->
  memcached_string_create (Some memory) allocated initial_size = None
  \/ exists s rcs s', memcached_string_create (Some memory) allocated initial_size = Some s
       /\ run_ops s ops = Some (rcs, s') /\ string_inv s' /\ length rcs = length ops
       /\ Forall (fun rc => rc = MEMCACHED_SUCCESS \/ rc = MEMCACHED_MEMORY_ALLOCATION_FAILURE) rcs
       /\ memcached_string_value s' = spec_ops [] ops rcs.
Proof.
  intros Hsize Hops. unfold memcached_string_create.
  set (s0 := _init_string _). assert (string_inv s0) as Hinv0 by (split; cbn; lia).
  destruct (_string_check_ok s0 initial_size Hinv0 Hsize) as (rc & s1 & -> & Hinv1 & He & Hv & Hrc).
  destruct Hrc as [[-> _]|[-> _]]; cbn [memcached_failed]; [right|by left].
  set (s := s1 <| string_is_initialized := true |>).
  assert (string_inv s) as Hinv by by destruct Hinv1.
  destruct (run_ops_ok ops s Hinv Hops) as (rcs & s' & Hrun & Hinv' & Hl & Hrcs & Hv').
  exists s, rcs, s'. split_and!; try done. rewrite Hv'. f_equal. exact Hv.
Qed.
End Properties.

(** ** Examples *)

(** An allocator that fills with zeros and has a gigabyte. *)
Definition zeros (n : Z) : bytes := replicate (Z.to_nat n) Byte.x00.
Definition example_realloc (b : option bytes) (n : Z) : option bytes :=
  if (0 <=? n) && (n <? 2 ^ 30)
  then Some (let b := take (Z.to_nat n) (default [] b) in b ++ zeros (n - Z.of_nat (length b)))
  else None.

#[refine] Instance example_allocator : Allocator :=
  {| realloc := example_realloc; malloc n := if (0 <=? n) then Some (zeros n) else None |}.
Proof.
  - unfold example_realloc, zeros. intros b n b'. destruct ((0 <=? n) && _) eqn:E; [|done].
    apply andb_true_iff in E as [E%Z.leb_le _]. intros [= <-].
    rewrite length_app, length_replicate, length_take. lia.
  - unfold example_realloc. intros b n b'. destruct ((0 <=? n) && _); [|done]. intros [= <-] Hn.
    cbn [default from_option id]. rewrite (take_ge b (Z.to_nat n)) by lia. apply take_app_length.
  - unfold example_realloc. intros b n b'. destruct ((0 <=? n) && _) eqn:E; [|done].
    apply andb_true_iff in E as [_ E%Z.ltb_lt]. lia.
  - intros n b. unfold zeros. destruct (Z.leb_spec 0 n); [|done]. intros [= <-].
    rewrite length_replicate. lia.
Defined.

Definition zero_string : memcached_string_st :=
  {| string_is_allocated := false; string_is_initialized := false; current_size := 0;
     string_block := None; string_end := 0 |}.

Lemma string_ops_refine_witness :
  exists s rcs s', memcached_string_create (Some zero_string) false 0 = Some s
    /\ run_ops s [Append (str "ab"); Reset; Append (str "cd"); Append_character Byte.x65] = Some (rcs, s')
    /\ memcached_string_value s' = str "cde".
Proof.
  destruct (string_ops_refine zero_string false 0
    [Append (str "ab"); Reset; Append (str "cd"); Append_character Byte.x65])
    as [Hnone|(s & rcs & s' & Hc & Hr & _ & _ & _ & Hv)];
    [done|repeat constructor|discriminate Hnone|].
  exists s, rcs, s'. split; [exact Hc|]. split; [exact Hr|].
  rewrite Hv. apply (f_equal (fmap fst)) in Hr. cbn [fmap option_fmap option_map fst] in Hr.
  injection Hc as <-. vm_compute in Hr. injection Hr as <-. reflexivity.
Defined.

(** ** What modelling showed *)

(** When there is room for the NUL the value is copied and the string keeps its
    block; without memory for the NUL the block itself is handed out, without one.
    The test of [memcached_string_take_value] is the wrong way round. *)
Lemma take_value_copies :
  exists s, memcached_string_append zero_string (str "ab") = Some (MEMCACHED_SUCCESS, s)
    /\ (fun r => (fst r, string_block (snd r))) <$> memcached_string_take_value s
       = Some (Some (str "ab" ++ [Byte.x00]), string_block s).
Proof.
  destruct (memcached_string_append zero_string (str "ab")) as [[rc s]|] eqn:E; vm_compute in E; [|discriminate E].
  injection E as <- <-. eexists. split; [reflexivity|]. by vm_compute.
Qed.
