(* ===== verification/Result.v ===== *)
(** Results: result.cc. *)
From S2P Require Import Prelude HashFunctions Hashkit Memcached StringBuf.

(** [struct memcached_result_st]; [item_key] has [MEMCACHED_MAX_KEY] bytes. *)
Record memcached_result_st := {
  item_flags : Z;
  item_expiration : Z;
  key_length : Z;
  item_cas : Z;
  item_value : memcached_string_st;
  result_count : Z;
  item_key : bytes;
  result_is_allocated : bool;
  result_is_initialized : bool;
}.

#[export] Instance result_fields : Fields memcached_result_st := fun r =>
  {| item_flags := item_flags r;
     item_expiration := item_expiration r;
     key_length := key_length r;
     item_cas := item_cas r;
     item_value := item_value r;
     result_count := result_count r;
     item_key := item_key r;
     result_is_allocated := result_is_allocated r;
     result_is_initialized := result_is_initialized r |}.

Definition _result_init (self : memcached_result_st) : memcached_result_st :=
  self <| item_flags := 0 |> <| item_expiration := 0 |> <| key_length := 0 |> <| item_cas := 0 |>
       <| result_count := 0 |> <| item_key ::= fun k => store k 0 [Byte.x00] |>.

Section Results.
Context `{Allocator}.

(** [ptr] is the memory given, or what [malloc] returned, [None] when it
    fails.  The value is created with no room, which does not fail. *)
Definition memcached_result_create (ptr : option memcached_result_st) (allocated : bool)
    : option memcached_result_st :=
  match ptr with
  | None => None
  | Some ptr =>
      let ptr := _result_init (ptr <| result_is_allocated := allocated |>
                                   <| result_is_initialized := true |>) in
      let v := default (_init_string (item_value ptr))
                 (memcached_string_create (Some (item_value ptr)) false 0) in
      Some (ptr <| item_value := v |>)
  end.

Definition memcached_result_reset (ptr : memcached_result_st) : memcached_result_st :=
  ptr <| key_length := 0 |> <| item_value ::= memcached_string_reset |> <| item_flags := 0 |>
      <| item_cas := 0 |> <| item_expiration := 0 |>.

(** [None] is memory that was freed. *)
Definition memcached_result_free (ptr : memcached_result_st) : option memcached_result_st :=
  let ptr := ptr <| item_value ::= fun v => default v (memcached_string_free v) |> in
  if result_is_allocated ptr then None
  else Some (ptr <| result_count := 0 |> <| result_is_initialized := false |>).
End Results.

(** [None] is NULL. *)
Definition memcached_result_key_value (self : memcached_result_st) : option bytes :=
  if key_length self =? 0 then None else Some (take (Z.to_nat (key_length self)) (item_key self)).
Definition memcached_result_key_length (self : memcached_result_st) : Z := key_length self.
Definition memcached_result_value (self : memcached_result_st) : bytes :=
  memcached_string_value (item_value self).
Definition memcached_result_length (self : memcached_result_st) : Z :=
  memcached_string_length (item_value self).
Definition memcached_result_flags (self : memcached_result_st) : Z := item_flags self.
Definition memcached_result_cas (self : memcached_result_st) : Z := item_cas self.
Definition memcached_result_set_flags (self : memcached_result_st) (flags : Z)
    : memcached_result_st := self <| item_flags := flags |>.
Definition memcached_result_set_expiration (self : memcached_result_st) (expiration : Z)
    : memcached_result_st := self <| item_expiration := expiration |>.
