(* ===== verification/Io.v ===== *)
(** Reading from a server: the input side of io.cc, with the closing of a
    connection from quit.cc.

    The instance of a server is its record with its read buffer, its handle, the
    errors of both and what the operating system does: what the next calls of
    [recv] and [poll] give.  A computation on an instance returns, or makes an
    invalid access or fails an assertion, or waits for a call whose outcome is not
    given. *)
From S2P Require Import Prelude HashFunctions Hashkit Memcached KeyHash Continuum Distribution.
From S2P Require Import ServerList Error StringBuf Result.

(** ** Instances *)

Definition EINTR : Z := 4.
Definition EAGAIN : Z := 11.
Definition EFAULT : Z := 14.
Definition ERESTART : Z := 85.
Definition ETIMEDOUT : Z := 110.

Definition INVALID_SOCKET : Z := -1.
Definition MEMCACHED_MAX_BUFFER : nat := Z.to_nat 8196.

(** What [recv] may give: the bytes that have arrived, of which it takes as many
    as fit, no bytes at all when the other side has closed the connection, or an
    error number. *)
Inductive recv_result :=
  | Received (data : bytes)
  | Recv_error (errno : Z).

(** What [poll] may give; [pollerr] is what [getsockopt] says of the socket when
    the result has [POLLERR]. *)
Inductive poll_result :=
  | Poll_ready
  | Poll_timeout
  | Poll_error (errno : Z) (pollerr : option Z).

(** What [send] may give: at most that many bytes are taken, or an error number. *)
Inductive send_result :=
  | Sent (n : nat)
  | Send_error (errno : Z).

(** [here] is the address of the read buffer, [errno] the number of the C
    library, [sent] what the server was sent, and [root_result] the result of the
    handle. *)
Record instance := {
  server : memcached_server_st;
  root : memcached_st;
  errors : error_lists;
  here : buffer_ptr;
  read_buffer : bytes;
  errno : Z;
  recvs : list recv_result;
  polls : list poll_result;
  write_buffer : bytes;
  sends : list send_result;
  sent : bytes;
  root_result : memcached_result_st;
}.

#[export] Instance instance_fields : Fields instance := fun i =>
  {| server := server i; root := root i; errors := errors i; here := here i;
     read_buffer := read_buffer i; errno := errno i; recvs := recvs i; polls := polls i;
     write_buffer := write_buffer i; sends := sends i; sent := sent i;
     root_result := root_result i |}.

(** ** Computations *)

Inductive result (A : Type) :=
  | Done (x : A) (i : instance)
  | Crash
  | Blocked.
Arguments Done {A} _ _.
Arguments Crash {A}.
Arguments Blocked {A}.

Definition io (A : Type) : Type := instance -> result A.

#[export] Instance io_ret : MRet io := fun A x i => Done x i.
#[export] Instance io_bind : MBind io := fun A B f m i =>
  match m i with
  | Done x i => f x i
  | Crash => Crash
  | Blocked => Blocked
  end.

Definition crash {A} : io A := fun _ => Crash.
Definition blocked {A} : io A := fun _ => Blocked.
Definition gets {A} (f : instance -> A) : io A := fun i => Done (f i) i.
Definition modify (f : instance -> instance) : io unit := fun i => Done tt (f i).
Definition modify_server (f : memcached_server_st -> memcached_server_st) : io unit :=
  modify (fun i => i <| server ::= f |>).
(** What fails an assertion when it is [None]. *)
Definition checked {A} (x : option A) : io A :=
  match x with Some x => mret x | None => crash end.

(** Stepping through a computation: [io_do E] does the first part by [E], and
    [io_pure] one that only computes. *)
Lemma io_bind_done {A B} (f : A -> io B) (m : io A) i x j :
  m i = Done x j -> (m ≫= f) i = f x j.
Proof. intros E. unfold mbind, io_bind. by rewrite E. Qed.

Lemma io_bind_assoc {A B C} (g : B -> io C) (f : A -> io B) (m : io A) i :
  ((m ≫= f) ≫= g) i = (m ≫= (fun x => f x ≫= g)) i.
Proof. unfold mbind, io_bind. by destruct (m i). Qed.

Ltac io_do E := erewrite io_bind_done by exact E; cbv beta.
Ltac io_pure := erewrite io_bind_done by reflexivity; cbv beta.

(** The rest of the environment: the texts of the C library, the places that
    errors are reported with, whether there is memory for errors, the time, the
    memory for a copied server, and what [errno] is after a socket was closed. *)
Class Environment := {
  strerror_r : Z -> bytes;
  errmsg_header : bytes;
  memcached_at : string -> Z -> bytes;
  error_malloc : bool * bool;
  time_now : option Z;
  clone_malloc : option (Z * memcached_server_st);
  close_errno : Z -> Z;
}.

(** ** Request ids of datagrams *)

(** The macros of io.h, as the places that use them are parsed: their
    replacement texts have no parentheses, and [>>] and [>] bind tighter than
    [&]. *)
Definition UDP_REQUEST_ID_MSG_SIG_DIGITS : Z := 10.
Definition UDP_REQUEST_ID_THREAD_MASK : Z := Z.shiftl 65535 UDP_REQUEST_ID_MSG_SIG_DIGITS.
Definition get_msg_num_from_request_id (a : Z) : Z := Z.land a (Z.lnot UDP_REQUEST_ID_THREAD_MASK).
Definition get_thread_id_from_request_id (a : Z) : Z :=
  Z.land a (Z.shiftr UDP_REQUEST_ID_THREAD_MASK UDP_REQUEST_ID_MSG_SIG_DIGITS).
Definition generate_udp_request_thread_id (a : Z) : Z := Z.shiftl a UDP_REQUEST_ID_MSG_SIG_DIGITS.

(** [increment_udp_message_id], on the request id of the header in the order of
    the host. *)
Definition increment_udp_message_id (cur_req : Z) : Z :=
  let msg_num := get_msg_num_from_request_id cur_req + 1 in
  let thread_id := get_thread_id_from_request_id cur_req in
  let msg_num := if negb (Z.land msg_num UDP_REQUEST_ID_THREAD_MASK =? 0) then 0 else msg_num in
  u16 (Z.lor thread_id msg_num).

(** [memcached_io_init_udp_header]: the code and the request id of the header;
    the thread's number is 16 bits wide.  The condition is
    [(thread_id > 0xFFFF) & 0xFFFF << 10 >> 10]. *)
Definition memcached_io_init_udp_header (thread_id : Z) : memcached_return_t * option Z :=
  if negb (Z.land (Z.b2z (thread_id >? 65535))
                  (Z.shiftr UDP_REQUEST_ID_THREAD_MASK UDP_REQUEST_ID_MSG_SIG_DIGITS) =? 0)
  then (MEMCACHED_FAILURE, None)
  else (MEMCACHED_SUCCESS, Some (u16 (generate_udp_request_thread_id thread_id))).

(** The values of [f] from [x] on. *)
Fixpoint iterate {A} (f : A -> A) (n : nat) (x : A) : list A :=
  match n with O => [x] | S n => x :: iterate f n (f x) end.

Section Io.
Context `{Environment}.

(** [memcached_set_error] and [memcached_set_errno] on the server. *)
Definition set_error (rc : memcached_return_t) (at_ : bytes) (s : option bytes)
    : io memcached_return_t :=
  i ← gets id;
  '(rc, errs) ← checked (memcached_server_set_error strerror_r errmsg_header (errno i) error_malloc
    (query_id (root i)) (errors i) (hostname (server i)) (port (server i)) rc at_ s);
  _ ← modify (fun i => i <| errors := errs |>);
  mret rc.

Definition set_errno (n : Z) (at_ : bytes) : io memcached_return_t :=
  i ← gets id;
  let '(rc, errs) := memcached_server_set_errno strerror_r errmsg_header (errno i) error_malloc
    (query_id (root i)) (errors i) (hostname (server i)) (port (server i)) n at_ None in
  _ ← modify (fun i => i <| errors := errs |>);
  mret rc.

(** ** Closing a connection *)

Definition memcached_io_close : io unit :=
  fd ← gets (fun i => fd (server i));
  if fd =? INVALID_SOCKET then mret tt
  else
    _ ← modify (fun i => i <| errno ::= close_errno |>);
    modify_server (fun s => (s <| server_state := MEMCACHED_SERVER_STATE_NEW |>)
                              <| Memcached.fd := INVALID_SOCKET |>).

Definition mark_server_for_timeout : io unit :=
  i ← gets id;
  '(s, r) ← checked (memcached_mark_server_for_timeout time_now (root i) (server i) clone_malloc);
  modify (fun i => i <| server := s |> <| root := r |>).

(** The assignments of [memcached_quit_server] behind the closing. *)
Definition reset_connection (here : buffer_ptr) (s : memcached_server_st) : memcached_server_st :=
  s <| server_state := MEMCACHED_SERVER_STATE_NEW |> <| cursor_active := 0 |>
    <| io_bytes_sent := 0 |>
    <| write_buffer_offset :=
         if bool_decide (type s = MEMCACHED_CONNECTION_UDP) then UDP_DATAGRAM_HEADER_LENGTH else 0 |>
    <| read_buffer_length := 0 |> <| read_ptr := Some here |>
    <| is_shutting_down := false |> <| major_version := 255 |> <| minor_version := 255 |>
    <| micro_version := 255 |> <| is_enterprise := false |>.

(** [say_goodbye] is what is sent and read before a connection is closed that is
    not broken. *)
Definition memcached_quit_server (say_goodbye : io unit) (io_death : bool) : io unit :=
  i ← gets id;
  _ ← (if fd (server i) =? INVALID_SOCKET then mret tt
       else
         _ ← (if negb io_death && bool_decide (type (server i) <> MEMCACHED_CONNECTION_UDP)
                 && negb (is_shutting_down (server i))
              then
                _ ← modify_server (fun s => s <| is_shutting_down := true |>);
                _ ← say_goodbye;
                modify_server (fun s => s <| server_failure_counter := 0 |>)
              else mret tt);
         memcached_io_close);
  _ ← modify (fun i => i <| server ::= reset_connection (here i) |>);
  if io_death then mark_server_for_timeout else mret tt.

(** [memcached_quit_server(ptr, true)], which says nothing, and
    [memcached_io_reset], which is that. *)
Definition quit_server_death : io unit := memcached_quit_server (mret tt) true.
Definition memcached_io_reset : io unit := quit_server_death.

(** ** Waiting and filling the buffer *)

(** [recv] of at most [len] bytes. *)
Definition recv (len : nat) : io recv_result :=
  events ← gets recvs;
  match events with
  | [] => blocked
  | Recv_error n :: events =>
      _ ← modify (fun i => i <| recvs := events |> <| errno := n |>);
      mret (Recv_error n)
  | Received data :: events =>
      let rest := drop len data in
      _ ← modify (fun i =>
        i <| recvs := match rest with [] => events | _ => Received rest :: events end |>);
      mret (Received (take len data))
  end.

Definition poll : io poll_result :=
  events ← gets polls;
  match events with
  | [] => blocked
  | event :: events =>
      _ ← modify (fun i => i <| polls := events |>);
      _ ← (match event with
           | Poll_error n _ => modify (fun i => i <| errno := n |>)
           | _ => mret tt
           end);
      mret event
  end.

(** The loop of [io_wait]; [n] rounds are left. *)
Fixpoint poll_loop (n : nat) : io memcached_return_t :=
  match n with
  | O =>
      _ ← quit_server_death;
      errno ← gets errno;
      set_errno errno (memcached_at "io.cc" 303)
  | S n =>
      event ← poll;
      match event with
      | Poll_ready => mret MEMCACHED_SUCCESS
      | Poll_timeout => set_error MEMCACHED_TIMEOUT (memcached_at "io.cc" 263) None
      | Poll_error e pollerr =>
          if (e =? ERESTART) || (e =? EINTR) then poll_loop n
          else if (e =? EFAULT) || (e =? ENOMEM) then
            set_error MEMCACHED_MEMORY_ALLOCATION_FAILURE (memcached_at "io.cc" 277) None
          else if e =? EINVAL then
            set_error MEMCACHED_MEMORY_ALLOCATION_FAILURE (memcached_at "io.cc" 280)
              (Some (str "RLIMIT_NOFILE exceeded, or if OSX the timeout value was invalid"))
          else
            _ ← (match pollerr with
                 | Some err => set_errno (if err =? 0 then e else err) (memcached_at "io.cc" 288)
                 | None => set_errno e (memcached_at "io.cc" 292)
                 end);
            _ ← quit_server_death;
            errno ← gets errno;
            set_errno errno (memcached_at "io.cc" 296)
      end
  end.

(** [io_wait]; [purge] is [memcached_purge], which is called before waiting for
    room to write. *)
Definition io_wait (purge : io memcached_return_t) (write : bool) : io memcached_return_t :=
  failed ← (if write then
              rc ← purge;
              mret (negb (bool_decide (rc = MEMCACHED_SUCCESS) || bool_decide (rc = MEMCACHED_STORED)))
            else mret false);
  if failed : bool then mret MEMCACHED_FAILURE
  else
    timeout ← gets (fun i => poll_timeout (root i));
    if timeout =? 0 then set_error MEMCACHED_TIMEOUT (memcached_at "io.cc" 246) None
    else poll_loop 4.

Definition io_wait_read : io memcached_return_t := io_wait (mret MEMCACHED_SUCCESS) false.

(** The errors after which a read is tried again when there is something to
    read. *)
Definition would_block (e : Z) : bool := (e =? ETIMEDOUT) || (e =? EAGAIN) || (e =? ERESTART).

(** What [_io_fill] does with bytes that it got. *)
Definition filled (data : bytes) (i : instance) : instance :=
  i <| read_buffer ::= fun b => data ++ drop (length data) b |>
    <| server ::= fun s => s <| io_bytes_sent := 0 |>
           <| read_data_length := Z.of_nat (length data) |>
           <| read_buffer_length := Z.of_nat (length data) |>
           <| read_ptr := Some (here i) |> |>.

(** [_io_fill]; every round takes one outcome of [recv]. *)
Fixpoint io_fill_loop (fuel : nat) : io memcached_return_t :=
  match fuel with
  | O => blocked
  | S fuel =>
      r ← recv MEMCACHED_MAX_BUFFER;
      match r with
      | Recv_error e =>
          if e =? EINTR then io_fill_loop fuel
          else if would_block e then
            rc ← io_wait_read;
            if memcached_success rc then io_fill_loop fuel else mret MEMCACHED_IN_PROGRESS
          else
            _ ← quit_server_death;
            set_errno e (memcached_at "io.cc" 501)
      | Received [] =>
          _ ← quit_server_death;
          set_error MEMCACHED_CONNECTION_FAILURE (memcached_at "io.cc" 517)
            (Some (str "recv() returned zero, server has disconnected"))
      | Received data =>
          _ ← modify (filled data);
          mret MEMCACHED_SUCCESS
      end
  end.

Definition _io_fill : io memcached_return_t :=
  events ← gets recvs; io_fill_loop (S (length events)).

(** ** Reading *)

(** Where in the read buffer the pointer is, [None] when it is not there. *)
Definition read_offset (i : instance) : option nat :=
  p ← read_ptr (server i);
  if bool_decide (ptr_block p = ptr_block (here i) /\ ptr_slot p = ptr_slot (here i))
     && (0 <=? ptr_offset p)
  then Some (Z.to_nat (ptr_offset p)) else None.

Definition advance (n : nat) (p : buffer_ptr) : buffer_ptr :=
  {| ptr_block := ptr_block p; ptr_slot := ptr_slot p; ptr_offset := ptr_offset p + Z.of_nat n |}.

(** [n] bytes are copied from the read pointer, which moves behind them. *)
Definition take_read (n : nat) : io bytes :=
  i ← gets id;
  off ← checked (read_offset i);
  if negb (off + n <=? length (read_buffer i))%nat then crash
  else
    _ ← modify_server (fun s =>
      s <| read_ptr ::= fmap (advance n) |>
        <| read_buffer_length ::= fun l => u64 (l - Z.of_nat n) |>);
    mret (take n (drop off (read_buffer i))).

(** The loop of [memcached_io_read]: at least a byte is read in a round.  The
    result has what was copied up to an error. *)
Fixpoint io_read_loop (fuel remains : nat) (got : bytes)
    : io (memcached_return_t * bytes) :=
  match remains with
  | O => mret (MEMCACHED_SUCCESS, got)
  | S _ =>
      match fuel with
      | O => blocked
      | S fuel =>
          available ← gets (fun i => read_buffer_length (server i));
          rc ← (if available =? 0 then _io_fill else mret MEMCACHED_SUCCESS);
          if bool_decide (rc <> MEMCACHED_SUCCESS) then mret (rc, got)
          else
            available ← gets (fun i => read_buffer_length (server i));
            let difference :=
              if (1 <? remains)%nat
              then (if Z.of_nat remains >? available then Z.to_nat available else remains)
              else 1%nat in
            data ← take_read difference;
            io_read_loop fuel (remains - difference) (got ++ data)
      end
  end.

(** The code, [*nread], which is [None] when it is not assigned, and the bytes
    that were copied. *)
Definition memcached_io_read (length : nat) : io (memcached_return_t * option Z * bytes) :=
  fd ← gets (fun i => fd (server i));
  if fd =? INVALID_SOCKET then mret (MEMCACHED_CONNECTION_FAILURE, None, [])
  else
    '(rc, data) ← io_read_loop length length [];
    mret (rc, Some (if bool_decide (rc = MEMCACHED_SUCCESS) then Z.of_nat length else -1), data).


(** [memcached_continue]. *)
Definition memcached_continue (rc : memcached_return_t) : bool :=
  bool_decide (rc = MEMCACHED_IN_PROGRESS).

(** [memcached_safe_read].  A read that is in progress starts again at the same
    place; [fuel] bounds the number of calls of [memcached_io_read]. *)
Fixpoint safe_read_loop (fuel size : nat) (data : bytes) : io (memcached_return_t * bytes) :=
  if (size <=? length data)%nat then mret (MEMCACHED_SUCCESS, data)
  else
    match fuel with
    | O => blocked
    | S fuel =>
        '(rc, nread, got) ← memcached_io_read (size - length data);
        if memcached_continue rc then safe_read_loop fuel size data
        else if memcached_failed rc then mret (rc, data ++ got)
        else safe_read_loop fuel size (data ++ got)
    end.

Definition memcached_safe_read (size : nat) : io (memcached_return_t * bytes) :=
  events ← gets recvs; polls ← gets polls;
  safe_read_loop (S (length events + length polls)) size [].

(** The inner loop of [memcached_io_readline], which copies a line out of the
    read buffer; the result says whether the line is complete. *)
Fixpoint copy_line (fuel size : nat) (line_complete : bool) (line : bytes)
    : io (bool * bytes) :=
  available ← gets (fun i => read_buffer_length (server i));
  if (available =? 0) || negb (length line <? size)%nat || line_complete
  then mret (line_complete, line)
  else
    match fuel with
    | O => blocked
    | S fuel =>
        c ← take_read 1;
        copy_line fuel size (bool_decide (c = [Byte.x0a])) (line ++ c)
    end.

(** [memcached_io_readline]: the code, and what was written to the caller's
    buffer, whose length is [total_nr].  A write behind the buffer crashes. *)
Fixpoint readline_loop (fuel size : nat) (line : bytes) : io (memcached_return_t * bytes) :=
  match fuel with
  | O => blocked
  | S fuel =>
      available ← gets (fun i => read_buffer_length (server i));
      '(rc, c) ← (if available =? 0
                  then '(rc, _, c) ← memcached_io_read 1; mret (rc, c)
                  else mret (MEMCACHED_SUCCESS, []));
      if memcached_failed rc then
        if bool_decide (rc = MEMCACHED_IN_PROGRESS) then
          _ ← quit_server_death;
          rc ← set_error rc (memcached_at "io.cc" 898) None;
          mret (rc, line)
        else mret (rc, line)
      else if negb (length (line ++ c) <=? size)%nat then crash
      else
        '(line_complete, line) ←
          copy_line (size - length (line ++ c)) size (bool_decide (c = [Byte.x0a])) (line ++ c);
        if (length line =? size)%nat then mret (MEMCACHED_PROTOCOL_ERROR, line)
        else if line_complete : bool then mret (MEMCACHED_SUCCESS, line)
        else readline_loop fuel size line
  end.

Definition memcached_io_readline (size : nat) : io (memcached_return_t * bytes) :=
  readline_loop (S size) size [].

Definition recv_length (r : recv_result) : nat :=
  match r with Received data => length data | Recv_error _ => 0%nat end.

(** [memcached_io_slurp].  The [continue] of the code goes to the condition of
    the loop, which is false after an error. *)
Fixpoint slurp_loop (fuel : nat) : io memcached_return_t :=
  match fuel with
  | O => blocked
  | S fuel =>
      r ← recv MEMCACHED_MAX_BUFFER;
      match r with
      | Recv_error e =>
          if e =? EINTR then mret MEMCACHED_CONNECTION_FAILURE
          else if would_block e then
            rc ← io_wait_read;
            mret (if memcached_success rc then MEMCACHED_CONNECTION_FAILURE
                  else MEMCACHED_IN_PROGRESS)
          else mret MEMCACHED_CONNECTION_FAILURE
      | Received [] => mret MEMCACHED_CONNECTION_FAILURE
      | Received data =>
          _ ← modify (fun i => i <| read_buffer ::= fun b => data ++ drop (length data) b |>);
          slurp_loop fuel
      end
  end.

Definition memcached_io_slurp : io memcached_return_t :=
  fd ← gets (fun i => fd (server i));
  if fd =? INVALID_SOCKET then mret MEMCACHED_CONNECTION_FAILURE
  else events ← gets recvs; slurp_loop (S (list_sum (S ∘ recv_length <$> events))).
End Io.

(** ** What a server sends *)

(** What is left of [ps] when one of the next [n] polls finds something to read
    and those before it were interrupted. *)
Fixpoint poll_ready (n : nat) (ps : list poll_result) : option (list poll_result) :=
  match n, ps with
  | S n, Poll_ready :: ps => Some ps
  | S n, Poll_error e _ :: ps => if (e =? ERESTART) || (e =? EINTR) then poll_ready n ps else None
  | _, _ => None
  end.

(** The bytes that come in before the connection fails or is closed, however
    they are cut into pieces and whatever interrupts the system calls. *)
Fixpoint arriving (poll_timeout : Z) (rs : list recv_result) (ps : list poll_result) : bytes :=
  match rs with
  | [] | Received [] :: _ => []
  | Received data :: rs => data ++ arriving poll_timeout rs ps
  | Recv_error e :: rs =>
      if e =? EINTR then arriving poll_timeout rs ps
      else if would_block e && negb (poll_timeout =? 0)
      then default [] (arriving poll_timeout rs <$> poll_ready 4 ps)
      else []
  end.

Definition arrives (i : instance) : bytes :=
  arriving (poll_timeout (root i)) (recvs i) (polls i).

(** Whether the other side closes the connection after them. *)
Fixpoint closes (poll_timeout : Z) (rs : list recv_result) (ps : list poll_result) : bool :=
  match rs with
  | [] => false
  | Received [] :: _ => true
  | Received _ :: rs => closes poll_timeout rs ps
  | Recv_error e :: rs =>
      if e =? EINTR then closes poll_timeout rs ps
      else if would_block e && negb (poll_timeout =? 0)
      then default false (closes poll_timeout rs <$> poll_ready 4 ps)
      else false
  end.

Definition closing (i : instance) : bool :=
  closes (poll_timeout (root i)) (recvs i) (polls i).

(** The bytes in the read buffer that were not read yet. *)
Definition buffered (i : instance) : bytes :=
  match read_offset i with
  | Some off => take (Z.to_nat (read_buffer_length (server i))) (drop off (read_buffer i))
  | None => []
  end.

(** The read pointer and the length describe a part of the buffer, and the
    connection is open. *)
Definition connected (i : instance) : Prop :=
  fd (server i) <> INVALID_SOCKET /\ ptr_offset (here i) = 0
  /\ length (read_buffer i) = MEMCACHED_MAX_BUFFER
  /\ 0 <= read_buffer_length (server i) <= Z.of_nat MEMCACHED_MAX_BUFFER
  /\ exists off, read_offset i = Some off
     /\ (off + Z.to_nat (read_buffer_length (server i)) <= MEMCACHED_MAX_BUFFER)%nat.

Definition incoming (i : instance) : bytes := buffered i ++ arrives i.

(** What only writing changes. *)
Definition writing (i : instance) :=
  (write_buffer i, sends i, sent i, root_result i, write_buffer_offset (server i),
   type (server i)).

(** What a successful read leaves alone. *)
Definition undisturbed (i i' : instance) : Prop :=
  root i' = root i /\ errors i' = errors i /\ closing i' = closing i /\ here i' = here i
  /\ fd (server i') = fd (server i) /\ server_state (server i') = server_state (server i)
  /\ hostname (server i') = hostname (server i)
  /\ cursor_active (server i') = cursor_active (server i)
  /\ writing i' = writing i.

#[global] Instance undisturbed_preorder : PreOrder undisturbed.
Proof.
  split; [by intros i | intros i j k (A & B & C & D & F & G & I & J & K) (A' & B' & C' & D' & F' & G' & I' & J' & K')].
  unfold undisturbed; intuition congruence.
Qed.

Section Reading.
Context `{Environment}.

Lemma poll_loop_ready n i ps :
  poll_ready n (polls i) = Some ps ->
  exists e, poll_loop n i = Done MEMCACHED_SUCCESS (i <| polls := ps |> <| errno := e |>).
Proof.
  revert i; induction n as [|n IH]; intros i; [done|].
  destruct i as [s r er h b e rs qs wb ss st res]; cbn [polls]; destruct qs as [|q qs]; [done|].
  destruct q as [| |e' p]; cbn [poll_ready]; [| done |].
  - intros [= ->]. by exists e.
  - destruct ((e' =? ERESTART) || (e' =? EINTR)) eqn:Ee; [|done]; intros Hps.
    destruct (IH {| server := s; root := r; errors := er; here := h; read_buffer := b;
                    errno := e'; recvs := rs; polls := qs; write_buffer := wb; sends := ss;
                    sent := st; root_result := res |} Hps) as [e2 He2].
    exists e2. cbn [poll_loop]. unfold poll, gets, modify, mbind, io_bind, mret, io_ret. cbn.
    by rewrite Ee.
Qed.

Lemma io_wait_ready i ps :
  poll_timeout (root i) <> 0 -> poll_ready 4 (polls i) = Some ps ->
  exists e, io_wait_read i = Done MEMCACHED_SUCCESS (i <| polls := ps |> <| errno := e |>).
Proof.
  intros Ht Hps. destruct (poll_loop_ready 4 i ps Hps) as [e He]. exists e.
  unfold io_wait_read, io_wait, gets, mbind, io_bind, mret, io_ret. cbn.
  rewrite (proj2 (Z.eqb_neq _ _) Ht). exact He.
Qed.

(** One [recv] of bytes takes the first of them. *)
Lemma recv_received i data rs :
  recvs i = Received data :: rs -> data <> [] ->
  exists chunk rest, recv MEMCACHED_MAX_BUFFER i = Done (Received chunk) (i <| recvs := rest |>)
    /\ chunk <> [] /\ (length chunk <= MEMCACHED_MAX_BUFFER)%nat
    /\ chunk ++ arriving (poll_timeout (root i)) rest (polls i) = arrives i
    /\ closes (poll_timeout (root i)) rest (polls i) = closing i.
Proof.
  intros Hr Hd. exists (take MEMCACHED_MAX_BUFFER data).
  set (rest := drop MEMCACHED_MAX_BUFFER data).
  exists (match rest with [] => rs | _ => Received rest :: rs end).
  split; [|split; [|split; [|split]]].
  - unfold recv, gets, modify, mbind, io_bind, mret, io_ret. by rewrite Hr.
  - destruct data; [done|]. unfold MEMCACHED_MAX_BUFFER. discriminate.
  - rewrite length_take. lia.
  - assert (Hall : take MEMCACHED_MAX_BUFFER data ++ rest = data) by apply take_drop.
    unfold arrives. rewrite Hr. rewrite <- Hall at 2.
    assert (Ha : forall d, d <> [] -> arriving (poll_timeout (root i)) (Received d :: rs) (polls i)
                 = d ++ arriving (poll_timeout (root i)) rs (polls i)) by (by intros [|? ?] Hnil).
    rewrite Ha by (by rewrite Hall).
    rewrite <- app_assoc. f_equal. destruct rest as [|c rest]; [done | by apply Ha].
  - unfold closing. rewrite Hr. destruct data; [done|]. by destruct rest.
Qed.

(** The read pointer is at the beginning of a buffer that was filled. *)
Lemma filled_connected data i :
  fd (server i) <> INVALID_SOCKET -> ptr_offset (here i) = 0 ->
  length (read_buffer i) = MEMCACHED_MAX_BUFFER ->
  (length data <= MEMCACHED_MAX_BUFFER)%nat ->
  connected (filled data i) /\ buffered (filled data i) = data.
Proof.
  intros Hfd Hz Hb Hl.
  assert (Hoff : read_offset (filled data i) = Some 0%nat).
  { unfold read_offset, filled. cbn. rewrite bool_decide_true by done. cbn. by rewrite Hz. }
  assert (Hlen : read_buffer_length (server (filled data i)) = Z.of_nat (length data)) by reflexivity.
  split.
  - split; [exact Hfd|]. split; [exact Hz|]. split; [|split].
    + change (length (data ++ drop (length data) (read_buffer i)) = MEMCACHED_MAX_BUFFER).
      rewrite length_app, length_drop. lia.
    + rewrite Hlen. lia.
    + exists 0%nat. split; [exact Hoff|]. rewrite Hlen. lia.
  - unfold buffered. rewrite Hoff, Hlen, Nat2Z.id.
    change (take (length data) (data ++ drop (length data) (read_buffer i)) = data).
    apply take_app_length.
Qed.

(** When bytes arrive, [_io_fill] puts the first of them into the buffer. *)
Lemma io_fill_loop_arrives fuel i :
  (length (recvs i) < fuel)%nat -> fd (server i) <> INVALID_SOCKET ->
  ptr_offset (here i) = 0 -> length (read_buffer i) = MEMCACHED_MAX_BUFFER -> arrives i <> [] ->
  exists i', io_fill_loop fuel i = Done MEMCACHED_SUCCESS i'
    /\ connected i' /\ incoming i' = arrives i /\ buffered i' <> [] /\ undisturbed i i'.
Proof.
  revert i; induction fuel as [|fuel IH]; intros i Hf Hfd Hz Hb Ha; [lia|].
  destruct (recvs i) as [|r rs] eqn:Hr.
  { by unfold arrives in Ha; rewrite Hr in Ha. }
  destruct r as [data|n].
  - assert (Hd : data <> []) by (by intros ->; unfold arrives in Ha; rewrite Hr in Ha).
    destruct (recv_received i data rs Hr Hd) as (chunk & rest & Hrecv & Hc & Hl & Harr & Hclo).
    cbn [io_fill_loop]. unfold mbind, io_bind. rewrite Hrecv.
    destruct chunk as [|c chunk]; [done|]. set (ch := c :: chunk) in *.
    eexists; split; [reflexivity|].
    destruct (filled_connected ch (i <| recvs := rest |>)) as (Hcon & Hbuf); [done..|].
    split; [exact Hcon|]. split; [|split].
    + unfold incoming. rewrite Hbuf. exact Harr.
    + by rewrite Hbuf.
    + repeat split; exact Hclo.
  - cbn [length] in Hf. unfold arrives in Ha; rewrite Hr in Ha; cbn [arriving] in Ha.
    cbn [io_fill_loop].
    assert (Hrecv : recv MEMCACHED_MAX_BUFFER i = Done (Recv_error n) (i <| recvs := rs |> <| errno := n |>)).
    { unfold recv, gets, modify, mbind, io_bind, mret, io_ret. by rewrite Hr. }
    unfold mbind at 1, io_bind at 1. rewrite Hrecv.
    destruct (n =? EINTR) eqn:Ei.
    { destruct (IH (i <| recvs := rs |> <| errno := n |>)) as (i' & Hdo & Hi');
        [cbn; lia | exact Hfd | exact Hz | exact Hb | exact Ha |].
      exists i'. split; [exact Hdo|]. unfold arrives, undisturbed, closing. rewrite Hr.
      cbn [arriving closes]. rewrite Ei. exact Hi'. }
    destruct (would_block n) eqn:Ew; [|exfalso; apply Ha; reflexivity].
    destruct (poll_timeout (root i) =? 0) eqn:Et; [exfalso; apply Ha; reflexivity|].
    destruct (poll_ready 4 (polls i)) as [ps|] eqn:Hps; [|exfalso; apply Ha; reflexivity]. cbn in Ha.
    destruct (io_wait_ready (i <| recvs := rs |> <| errno := n |>) ps) as [e He].
    { by apply Z.eqb_neq. }
    { exact Hps. }
    unfold mbind at 1, io_bind at 1. rewrite He. cbn [memcached_success].
    destruct (IH (i <| recvs := rs |> <| errno := n |> <| polls := ps |> <| errno := e |>))
      as (i' & Hdo & Hi'); [cbn; lia | exact Hfd | exact Hz | exact Hb | exact Ha |].
    exists i'. split; [exact Hdo|]. unfold arrives, undisturbed, closing. rewrite Hr.
    cbn [arriving closes].
    rewrite Ei, Ew, Et, Hps. exact Hi'.
Qed.

Lemma buffered_length i :
  connected i -> Z.of_nat (length (buffered i)) = read_buffer_length (server i).
Proof.
  intros (_ & _ & Hb & Hl & off & Hoff & Hle). unfold buffered. rewrite Hoff.
  rewrite length_take, length_drop. lia.
Qed.

(** The buffer is filled when it is empty and something arrives. *)
Lemma refill i :
  connected i -> incoming i <> [] ->
  exists i', (if read_buffer_length (server i) =? 0 then _io_fill else mret MEMCACHED_SUCCESS) i
             = Done MEMCACHED_SUCCESS i'
    /\ connected i' /\ incoming i' = incoming i /\ buffered i' <> [] /\ undisturbed i i'.
Proof.
  intros Hc Hin. pose proof (buffered_length i Hc) as Hlen.
  destruct (read_buffer_length (server i) =? 0) eqn:E0.
  - apply Z.eqb_eq in E0. assert (Hnil : buffered i = []) by (apply nil_length_inv; lia).
    unfold incoming in Hin |- *. rewrite Hnil in Hin |- *.
    destruct Hc as (Hfd & Hz & Hb & _).
    destruct (io_fill_loop_arrives (S (length (recvs i))) i) as (i' & Hi'); [lia | done..|].
    by exists i'.
  - apply Z.eqb_neq in E0. exists i. split; [done|]. split; [done|]. split; [done|].
    split; [|done]. intros Hnil. rewrite Hnil in Hlen. cbn in Hlen. lia.
Qed.

(** What was read is the beginning of what comes in. *)
Definition consumed (n : nat) (i i' : instance) : Prop :=
  connected i' /\ incoming i' = drop n (incoming i) /\ undisturbed i i'.

Lemma take_read_spec n i :
  connected i -> (n <= length (buffered i))%nat ->
  exists i', take_read n i = Done (take n (incoming i)) i'
    /\ consumed n i i' /\ buffered i' = drop n (buffered i).
Proof.
  intros Hc Hn. pose proof (buffered_length i Hc) as Hlen.
  destruct Hc as (Hfd & Hz & Hb & Hl & off & Hoff & Hle).
  unfold take_read, gets, mbind, io_bind, id. rewrite Hoff. cbn [checked].
  cbn [mret io_ret]. rewrite (proj2 (Nat.leb_le _ _)) by lia. cbn [negb].
  set (s' := (server i) <| read_ptr ::= fmap (advance n) |>
        <| read_buffer_length ::= fun l => u64 (l - Z.of_nat n) |>).
  exists (i <| server := s' |>).
  assert (Hlen' : read_buffer_length s' = read_buffer_length (server i) - Z.of_nat n).
  { change (u64 (read_buffer_length (server i) - Z.of_nat n) = read_buffer_length (server i) - Z.of_nat n).
    apply u64_small. unfold MEMCACHED_MAX_BUFFER in Hl. lia. }
  assert (Hoff' : read_offset (i <| server := s' |>) = Some (off + n)%nat).
  { clear Hlen'. unfold read_offset in Hoff |- *.
    change (read_ptr (server (i <| server := s' |>))) with (fmap (advance n) (read_ptr (server i))).
    destruct (read_ptr (server i)) as [p|]; [|done]. cbn in Hoff |- *.
    destruct (bool_decide _ && (0 <=? ptr_offset p)) eqn:Ep; [|done].
    apply andb_true_iff in Ep as [Ep1 Ep2]. rewrite Ep1.
    injection Hoff as <-. apply Z.leb_le in Ep2. rewrite (proj2 (Z.leb_le _ _)) by lia.
    cbn. f_equal. lia. }
  assert (Hbuf : buffered (i <| server := s' |>) = drop n (buffered i)).
  { unfold buffered. rewrite Hoff, Hoff'.
    change (take (Z.to_nat (read_buffer_length s')) (drop (off + n) (read_buffer i))
            = drop n (take (Z.to_nat (read_buffer_length (server i))) (drop off (read_buffer i)))).
    rewrite Hlen', <- drop_drop.
    rewrite skipn_firstn_comm. f_equal. lia. }
  split; [|split; [|exact Hbuf]].
  - unfold modify_server, modify, mret, io_ret. f_equal.
    unfold incoming, buffered. rewrite Hoff.
    rewrite take_app_le, take_take by (rewrite length_take, length_drop; lia).
    f_equal. lia.
  - split; [|split; [|done]].
    + split; [done|]. split; [done|]. split; [done|]. split; [cbn -[s']; rewrite Hlen'; lia|].
      exists (off + n)%nat. split; [exact Hoff'|].
      change (off + n + Z.to_nat (read_buffer_length s') <= MEMCACHED_MAX_BUFFER)%nat. lia.
    + unfold incoming. rewrite Hbuf, drop_app_le by done. done.
Qed.

Lemma consumed_trans n m i j k : consumed n i j -> consumed m j k -> consumed (n + m) i k.
Proof.
  intros (_ & Hj & Huj) (Hk & Hik & Huk). split; [exact Hk|]. split; [|by etransitivity].
  by rewrite Hik, Hj, drop_drop.
Qed.

(** Some bytes are read in every round. *)
Lemma io_read_round i remains :
  connected i -> buffered i <> [] -> remains <> 0%nat ->
  exists n i', (0 < n <= remains)%nat /\ (n <= length (incoming i))%nat
    /\ (if (1 <? remains)%nat
        then (if Z.of_nat remains >? read_buffer_length (server i)
              then Z.to_nat (read_buffer_length (server i)) else remains)
        else 1%nat) = n
    /\ take_read n i = Done (take n (incoming i)) i' /\ consumed n i i'.
Proof.
  intros Hc Hb Hr. pose proof (buffered_length i Hc) as Hlen.
  assert (Hpos : (0 < length (buffered i))%nat) by (destruct (buffered i); [done | cbn; lia]).
  destruct (take_read_spec (if (1 <? remains)%nat
        then (if Z.of_nat remains >? read_buffer_length (server i)
              then Z.to_nat (read_buffer_length (server i)) else remains)
        else 1%nat) i Hc) as (i' & Hdo & Hi' & _).
  { destruct (1 <? remains)%nat; [|lia].
    destruct (Z.of_nat remains >? read_buffer_length (server i)) eqn:E; lia. }
  eexists _, i'. split; [|split; [|split; [reflexivity | by split]]].
  - destruct (1 <? remains)%nat eqn:E1; [|lia].
    destruct (Z.of_nat remains >? read_buffer_length (server i)) eqn:E; lia.
  - unfold incoming. rewrite length_app. destruct (1 <? remains)%nat; [|lia].
    destruct (Z.of_nat remains >? read_buffer_length (server i)) eqn:E; lia.
Qed.

Lemma io_read_loop_spec fuel remains got i :
  connected i -> (remains <= length (incoming i))%nat -> (remains <= fuel)%nat ->
  exists i', io_read_loop fuel remains got i
             = Done (MEMCACHED_SUCCESS, got ++ take remains (incoming i)) i'
    /\ consumed remains i i'.
Proof.
  revert remains got i; induction fuel as [|fuel IH]; intros remains got i Hc Hr Hf.
  - assert (remains = 0%nat) as -> by lia. exists i. rewrite take_0, app_nil_r. by split.
  - destruct remains as [|r] eqn:Er.
    { exists i. rewrite take_0, app_nil_r. by split. }
    rewrite <- Er in Hr, Hf |- *.
    destruct (refill i Hc) as (i1 & Hfill & Hc1 & Hin1 & Hb1 & Hu1).
    { intros Hnil. rewrite Hnil in Hr. cbn in Hr. lia. }
    destruct (io_read_round i1 remains Hc1 Hb1) as (n & i2 & Hn & _ & Hdiff & Htake & Hi2); [lia|].
    destruct (IH (remains - n)%nat (got ++ take n (incoming i)) i2) as (i3 & Hloop & Hi3).
    { apply Hi2. }
    { rewrite (proj1 (proj2 Hi2)), Hin1, length_drop. lia. }
    { lia. }
    exists i3. split.
    + rewrite Er at 1. cbn [io_read_loop]. rewrite <- Er.
      unfold gets, mbind, io_bind. cbv beta iota. rewrite Hfill.
      rewrite bool_decide_false by (intros Hne; by apply Hne). cbv beta iota zeta.
      rewrite Hdiff, Htake, Hin1, Hloop.
      rewrite (proj1 (proj2 Hi2)), Hin1, <- app_assoc, take_take_drop.
      do 4 f_equal. lia.
    + replace remains with (n + (remains - n))%nat by lia.
      eapply consumed_trans; [|exact Hi3].
      destruct Hi2 as (Hc2 & Hin2 & Hu2). split; [exact Hc2|]. split; [by rewrite Hin2, Hin1|].
      by etransitivity.
Qed.

Lemma memcached_io_read_reads n i :
  connected i -> (n <= length (incoming i))%nat ->
  exists i', memcached_io_read n i
             = Done (MEMCACHED_SUCCESS, Some (Z.of_nat n), take n (incoming i)) i'
    /\ consumed n i i'.
Proof.
  intros Hc Hn. destruct (io_read_loop_spec n n [] i Hc Hn) as (i' & Hdo & Hi'); [lia|].
  exists i'. split; [|exact Hi']. unfold memcached_io_read, gets at 1, mbind, io_bind.
  rewrite (proj2 (Z.eqb_neq _ _)) by apply Hc. by rewrite Hdo.
Qed.
End Reading.

(** ** Lines *)

(** The length of the first line of [s], with its end. *)
Fixpoint line_length (s : bytes) : option nat :=
  match s with
  | [] => None
  | c :: s => if bool_decide (c = Byte.x0a) then Some 1%nat else S <$> line_length s
  end.

(** The code and the number of bytes that [memcached_io_readline] gives for what
    comes in. *)
Definition line_result (size : nat) (s : bytes) : memcached_return_t * nat :=
  match line_length s with
  | Some n => if (n <? size)%nat then (MEMCACHED_SUCCESS, n) else (MEMCACHED_PROTOCOL_ERROR, size)
  | None => (MEMCACHED_PROTOCOL_ERROR, size)
  end.

Lemma line_length_app s t :
  line_length (s ++ t) = match line_length s with
                         | Some n => Some n
                         | None => Nat.add (length s) <$> line_length t
                         end.
Proof.
  induction s as [|c s IH]; cbn; [by destruct (line_length t)|].
  case_bool_decide; [done|]. rewrite IH.
  destruct (line_length s); [done | by destruct (line_length t)].
Qed.

(** A beginning without an end of line may be left out. *)
Lemma line_result_drop n size s :
  line_length (take n s) = None -> (n <= length s)%nat -> (n < size)%nat ->
  line_result size s
  = (fst (line_result (size - n) (drop n s)), (n + snd (line_result (size - n) (drop n s)))%nat).
Proof.
  intros Hnone Hl Hs. unfold line_result. rewrite <- (take_drop n s) at 1.
  rewrite line_length_app, Hnone, length_take, Nat.min_l by done.
  destruct (line_length (drop n s)) as [m|]; cbn [fmap option_fmap option_map fst snd]; [|f_equal; lia].
  replace (m <? size - n)%nat with (n + m <? size)%nat.
  - destruct (n + m <? size)%nat; cbn [fst snd]; f_equal; lia.
  - apply eq_true_iff_eq. rewrite !Nat.ltb_lt. lia.
Qed.

Section Lines.
Context `{Environment}.

Lemma copy_line_spec fuel size line i :
  connected i -> (length line <= size)%nat -> (size - length line <= fuel)%nat ->
  exists n complete i',
    copy_line fuel size false line i = Done (complete, line ++ take n (incoming i)) i'
    /\ consumed n i i' /\ (length line + n <= size)%nat /\ (n <= length (incoming i))%nat
    /\ (buffered i <> [] -> (length line < size)%nat -> (0 < n)%nat)
    /\ (if complete : bool then line_length (incoming i) = Some n
        else line_length (take n (incoming i)) = None).
Proof.
  revert line i; induction fuel as [|fuel IH]; intros line i Hc Hl Hf.
  - exists 0%nat, false, i. rewrite take_0, app_nil_r.
    split; [|split; [by split|]]; [|split; [lia|]; split; [lia|]; split; [lia|done]].
    cbn [copy_line]. unfold gets, mbind, io_bind.
    rewrite (proj2 (Nat.ltb_ge _ _)) by lia. cbn [negb]. by rewrite orb_true_r.
  - cbn [copy_line]. unfold gets, mbind, io_bind. cbv beta iota.
    destruct ((read_buffer_length (server i) =? 0) || negb (length line <? size)%nat || false) eqn:Estop.
    { exists 0%nat, false, i. rewrite take_0, app_nil_r.
      split; [done|]. split; [by split|]. split; [lia|]. split; [lia|]. split; [|done].
      intros Hb Hlt. exfalso. pose proof (buffered_length i Hc) as Hlen.
      rewrite orb_false_r in Estop. apply orb_true_iff in Estop as [E|E].
      - apply Z.eqb_eq in E. destruct (buffered i); [done | cbn in Hlen; lia].
      - apply negb_true_iff, Nat.ltb_ge in E. lia. }
    rewrite orb_false_r in Estop. apply orb_false_iff in Estop as [E1 E2].
    apply Z.eqb_neq in E1. apply negb_false_iff, Nat.ltb_lt in E2.
    pose proof (buffered_length i Hc) as Hlen.
    destruct (take_read_spec 1 i Hc) as (i1 & Hdo & Hi1 & _).
    { destruct (buffered i); [cbn in Hlen; lia | cbn; lia]. }
    rewrite Hdo. destruct (incoming i) as [|c s] eqn:Hin.
    { exfalso. unfold incoming in Hin. apply app_eq_nil in Hin as [Hnil _].
      rewrite Hnil in Hlen. cbn in Hlen. lia. }
    cbn [take]. rewrite take_0. destruct Hi1 as (Hc1 & Hin1 & Hu1). rewrite Hin in Hin1.
    cbn [drop] in Hin1. rewrite drop_0 in Hin1.
    destruct (decide (c = Byte.x0a)) as [->|Hne].
    + exists 1%nat, true, i1. cbn [take line_length]. rewrite take_0, !bool_decide_true by done.
      split; [|split; [|split; [lia|]; split; [cbn; lia|]; split; [lia|done]]].
      * destruct fuel; cbn [copy_line]; unfold gets, mbind, io_bind; cbv beta iota;
          by rewrite orb_true_r.
      * split; [done|]. split; [by rewrite Hin, Hin1|done].
    + rewrite bool_decide_false by congruence.
      destruct (IH (line ++ [c]) i1 Hc1) as (n & complete & i2 & Hcopy & Hi2 & Hsz & Hle & _ & Hcase).
      { rewrite length_app. cbn. lia. }
      { rewrite length_app. cbn. lia. }
      rewrite length_app in Hsz. cbn in Hsz.
      exists (S n), complete, i2. rewrite Hcopy, Hin1, <- app_assoc.
      split; [done|]. split; [|split; [lia|]; split; [rewrite Hin1 in Hle; cbn; lia|]; split; [lia|]].
      * apply (consumed_trans 1 n i i1 i2); [|done]. split; [done|].
        split; [by rewrite Hin, Hin1|done].
      * rewrite Hin1 in Hcase. destruct complete; cbn [line_length take];
          rewrite bool_decide_false by done; by rewrite Hcase.
Qed.

(** The first byte of a round, when the buffer is empty. *)
Lemma readline_head i :
  connected i -> incoming i <> [] ->
  exists n i',
    (if read_buffer_length (server i) =? 0
     then '(rc, _, c) ← memcached_io_read 1; mret (rc, c)
     else mret (MEMCACHED_SUCCESS, [])) i
    = Done (MEMCACHED_SUCCESS, take n (incoming i)) i'
    /\ consumed n i i' /\ (n <= 1)%nat /\ (n = 0%nat -> buffered i' <> []).
Proof.
  intros Hc Hin. pose proof (buffered_length i Hc) as Hlen.
  destruct (read_buffer_length (server i) =? 0) eqn:E0.
  - destruct (memcached_io_read_reads 1 i Hc) as (i' & Hdo & Hi').
    { destruct (incoming i); [done | cbn; lia]. }
    exists 1%nat, i'. unfold mbind, io_bind. rewrite Hdo. by repeat split; try apply Hi'; try lia.
  - apply Z.eqb_neq in E0. exists 0%nat, i. split; [done|]. split; [by split|]. split; [lia|].
    intros _ Hnil. rewrite Hnil in Hlen. cbn in Hlen. lia.
Qed.

Lemma line_length_pos s n : line_length s = Some n -> (0 < n)%nat.
Proof.
  destruct s as [|c s]; [done|]; cbn. case_bool_decide; [intros [= <-]; lia|].
  destruct (line_length s); cbn; [intros [= <-]; lia | done].
Qed.

(** The line is as long as the buffer when its end is not before that. *)
Lemma line_result_full n s :
  line_length s = Some n \/ line_length (take n s) = None -> (n <= length s)%nat ->
  line_result n s = (MEMCACHED_PROTOCOL_ERROR, n).
Proof.
  intros Hs Hl. unfold line_result. destruct (line_length s) as [m|] eqn:Em; [|done].
  rewrite (proj2 (Nat.ltb_ge _ _)); [done|].
  destruct Hs as [[= ->]|Hnone]; [lia|].
  rewrite <- (take_drop n s), line_length_app, Hnone, length_take, Nat.min_l in Em by done.
  destruct (line_length (drop n s)) as [m'|]; [|done]. injection Em as <-. lia.
Qed.

(** One round of the loop. *)
Lemma readline_round size line i :
  connected i -> incoming i <> [] -> (length line < size)%nat ->
  exists n c complete i1 i2,
    (if read_buffer_length (server i) =? 0
     then '(rc, _, c) ← memcached_io_read 1; mret (rc, c)
     else mret (MEMCACHED_SUCCESS, [])) i = Done (MEMCACHED_SUCCESS, c) i1
    /\ (length (line ++ c) <= size)%nat
    /\ copy_line (size - length (line ++ c)) size (bool_decide (c = [Byte.x0a])) (line ++ c) i1
       = Done (complete, line ++ take n (incoming i)) i2
    /\ consumed n i i2 /\ (0 < n)%nat /\ (length line + n <= size)%nat
    /\ (n <= length (incoming i))%nat
    /\ (if complete : bool then line_length (incoming i) = Some n
        else line_length (take n (incoming i)) = None).
Proof.
  intros Hc Hne Hl. destruct (readline_head i Hc Hne) as (h & i1 & Hhead & Hi1 & Hh & Hh0).
  assert (Hlh : length (take h (incoming i)) = h).
  { rewrite length_take. destruct (incoming i); [done | cbn; lia]. }
  assert (Hhl : (h <= length (incoming i))%nat) by (rewrite <- Hlh, length_take; lia).
  destruct (decide (take h (incoming i) = [Byte.x0a])) as [Hnl|Hnl].
  - assert (h = 1%nat) as -> by (rewrite <- Hlh, Hnl; done).
    destruct (incoming i) as [|c s] eqn:Hin; [done|]. cbn [take] in Hnl. injection Hnl as ->.
    exists 1%nat, [Byte.x0a], true, i1, i1. rewrite length_app. cbn [take length]. rewrite take_0.
    split; [exact Hhead|]. split; [lia|]. split; [|].
    + rewrite bool_decide_true by done. destruct (size - _)%nat; cbn [copy_line];
        unfold gets, mbind, io_bind; cbv beta iota; by rewrite orb_true_r.
    + split; [exact Hi1|]. split; [lia|]. split; [lia|]. split; [cbn; lia|].
      cbn [line_length]. by rewrite bool_decide_true.
  - destruct (copy_line_spec (size - length (line ++ take h (incoming i))) size
      (line ++ take h (incoming i)) i1) as (n & complete & i2 & Hcopy & Hi2 & Hsz & Hle & Hpos & Hcase).
    { apply Hi1. }
    { rewrite length_app. lia. }
    { lia. }
    assert (HL : length (line ++ take h (incoming i)) = (length line + h)%nat)
      by (by rewrite length_app, Hlh).
    destruct Hi1 as (Hc1 & Hin1 & Hu1). rewrite Hin1 in Hcopy, Hle, Hcase.
    rewrite length_drop in Hle.
    exists (h + n)%nat, (take h (incoming i)), complete, i1, i2.
    split; [exact Hhead|]. split; [lia|].
    split; [|split; [|split; [|split; [lia|]; split; [lia|]]]].
    + rewrite bool_decide_false by done. rewrite Hcopy.
      by rewrite <- app_assoc, take_take_drop.
    + by apply (consumed_trans h n i i1 i2).
    + destruct h; [|lia]. assert (0 < n)%nat; [|lia]. apply Hpos; [by apply Hh0 | lia].
    + assert (Hnone : line_length (take h (incoming i)) = None).
      { destruct h as [|[|h]]; [done | | lia]. destruct (incoming i) as [|c s]; [done|].
        cbn [take line_length] in Hnl |- *. rewrite take_0 in *.
        rewrite bool_decide_false; [done | congruence]. }
      destruct complete.
      * rewrite <- (take_drop h (incoming i)), line_length_app, Hnone, Hcase, Hlh. done.
      * rewrite <- take_take_drop, line_length_app, Hnone, Hcase. done.
Qed.

Lemma readline_loop_spec fuel size line i :
  connected i -> (length line < size)%nat -> (size - length line <= fuel)%nat ->
  (snd (line_result (size - length line) (incoming i)) <= length (incoming i))%nat ->
  exists i',
    readline_loop fuel size line i
    = Done (fst (line_result (size - length line) (incoming i)),
            line ++ take (snd (line_result (size - length line) (incoming i))) (incoming i)) i'
    /\ consumed (snd (line_result (size - length line) (incoming i))) i i'.
Proof.
  revert line i; induction fuel as [|fuel IH]; intros line i Hc Hl Hf Hen; [lia|].
  assert (Hne : incoming i <> []).
  { intros Hnil. rewrite Hnil in Hen. cbn in Hen. lia. }
  destruct (readline_round size line i Hc Hne Hl)
    as (n & c & complete & i1 & i2 & Hhead & Hsz & Hcopy & Hi2 & Hpos & Hn & Hle & Hcase).
  assert (Hlen : length (line ++ take n (incoming i)) = (length line + n)%nat)
    by (rewrite length_app, length_take; lia).
  assert (Hgo : readline_loop (S fuel) size line i
    = (if (length line + n =? size)%nat
       then mret (MEMCACHED_PROTOCOL_ERROR, line ++ take n (incoming i))
       else if complete then mret (MEMCACHED_SUCCESS, line ++ take n (incoming i))
       else readline_loop fuel size (line ++ take n (incoming i))) i2).
  { cbn [readline_loop]. unfold gets, mbind at 1, io_bind at 1. cbv beta iota.
    unfold mbind at 1, io_bind at 1. rewrite Hhead. cbn [memcached_failed].
    rewrite (proj2 (Nat.leb_le _ _)) by exact Hsz. cbn [negb].
    unfold mbind at 1, io_bind at 1. rewrite Hcopy. by rewrite Hlen. }
  rewrite Hgo. destruct (Nat.eqb_spec (length line + n) size) as [Hfull|Hmore].
  - replace (size - length line)%nat with n by lia.
    rewrite line_result_full; [| by destruct complete; [left | right] | done].
    by exists i2.
  - destruct complete.
    + exists i2. unfold line_result. rewrite Hcase.
      rewrite (proj2 (Nat.ltb_lt _ _)) by lia. done.
    + assert (Hdrop := line_result_drop n (size - length line) (incoming i) Hcase Hle ltac:(lia)).
      replace (size - length line - n)%nat with (size - length (line ++ take n (incoming i)))%nat in Hdrop
        by (rewrite Hlen; lia).
      rewrite Hdrop in Hen |- *. cbn [fst snd] in Hen |- *.
      destruct Hi2 as (Hc2 & Hin2 & Hu2). rewrite <- Hin2 in Hen |- *.
      assert (length (incoming i2) = length (incoming i) - n)%nat by (rewrite Hin2; apply length_drop).
      destruct (IH (line ++ take n (incoming i)) i2 Hc2) as (i3 & Hloop & Hi3).
      { lia. }
      { lia. }
      { lia. }
      exists i3. split.
      * rewrite Hloop. by rewrite <- app_assoc, <- take_take_drop, <- Hin2.
      * eapply consumed_trans; [|exact Hi3]. by split.
Qed.
End Lines.

Section Closing.
Context `{Environment}.

(** A connection that was given up. *)
Definition dead (i : instance) : Prop :=
  fd (server i) = INVALID_SOCKET
  /\ server_state (server i) = MEMCACHED_SERVER_STATE_IN_TIMEOUT
  /\ read_buffer_length (server i) = 0.

Hypothesis memory : clone_malloc <> None.

Lemma mark_server_for_timeout_dead i :
  fd (server i) = INVALID_SOCKET -> server_state (server i) = MEMCACHED_SERVER_STATE_NEW ->
  read_buffer_length (server i) = 0 ->
  memcached_is_valid_servername (cstr (hostname (server i))) = true ->
  exists i', mark_server_for_timeout i = Done tt i' /\ dead i'.
Proof.
  intros Hfd Hst Hl Hv. unfold mark_server_for_timeout, gets, mbind, io_bind, id.
  set (m := memcached_mark_server_for_timeout _ _ _ _).
  assert (Hm : exists s r, m = Some (s, r) /\ fd s = INVALID_SOCKET
    /\ server_state s = MEMCACHED_SERVER_STATE_IN_TIMEOUT /\ read_buffer_length s = 0).
  { unfold m, memcached_mark_server_for_timeout.
    rewrite bool_decide_true by (by rewrite Hst).
    match goal with |- context [set_last_disconnected_host ?r ?s ?c] =>
      set (s' := s); set (r0 := r) end.
    assert (Hs : fd s' = INVALID_SOCKET /\ server_state s' = MEMCACHED_SERVER_STATE_IN_TIMEOUT
                 /\ read_buffer_length s' = 0 /\ hostname s' = hostname (server i)).
    { unfold s'. clear s'. repeat case_match; cbn; auto. }
    assert (Hr : exists r', set_last_disconnected_host r0 s' clone_malloc = Some r').
    { clearbody s'. unfold set_last_disconnected_host. case_match; [eauto|].
      unfold memcached_server_clone. destruct Hs as (_ & _ & _ & ->). rewrite Hv. cbn [negb].
      pose proof memory as Hmem. destruct clone_malloc as [[? ?]|]; [|done].
      destruct (__server_create_with _ _ _ _ _ _ _ _); eauto. }
    destruct Hr as [r' ->]. exists s', r'. by intuition. }
  destruct Hm as (s & r & -> & Hs). cbn [checked mret io_ret].
  eexists. split; [reflexivity|]. exact Hs.
Qed.

Lemma quit_server_death_spec i :
  fd (server i) <> INVALID_SOCKET ->
  memcached_is_valid_servername (cstr (hostname (server i))) = true ->
  exists i', quit_server_death i = Done tt i' /\ dead i'.
Proof.
  intros Hfd Hv. unfold quit_server_death, memcached_quit_server, gets, mbind, io_bind, id.
  rewrite (proj2 (Z.eqb_neq _ _) Hfd). cbn [negb andb mret io_ret].
  unfold memcached_io_close, gets, mbind, io_bind.
  rewrite (proj2 (Z.eqb_neq _ _) Hfd). unfold modify, modify_server, modify.
  apply mark_server_for_timeout_dead; [reflexivity..|exact Hv].
Qed.
Lemma set_connection_failure at_ s i :
  exists errs, set_error MEMCACHED_CONNECTION_FAILURE at_ s i
               = Done MEMCACHED_CONNECTION_FAILURE (i <| errors := errs |>).
Proof.
  unfold set_error, gets, mbind, io_bind, id, memcached_server_set_error.
  rewrite !bool_decide_false by done. cbn [memcached_success].
  unfold set_both, _set.
  change (settle (errno i) MEMCACHED_CONNECTION_FAILURE 0) with (MEMCACHED_CONNECTION_FAILURE, 0).
  cbn beta iota. destruct (fst error_malloc); cbn [negb].
  - destruct (snprintf _ _). cbn. eauto.
  - cbn. eauto.
Qed.

Lemma io_fill_loop_closed fuel i :
  (length (recvs i) < fuel)%nat -> fd (server i) <> INVALID_SOCKET ->
  memcached_is_valid_servername (cstr (hostname (server i))) = true ->
  arrives i = [] -> closing i = true ->
  exists i', io_fill_loop fuel i = Done MEMCACHED_CONNECTION_FAILURE i' /\ dead i'.
Proof.
  revert i; induction fuel as [|fuel IH]; intros i Hf Hfd Hv Ha Hcl; [lia|].
  unfold arrives in Ha. unfold closing in Hcl.
  destruct (recvs i) as [|r rs] eqn:Hr; [done|]. cbn [length] in Hf. destruct r as [data|n].
  - destruct data; [|done]. cbn [io_fill_loop]. unfold mbind at 1, io_bind at 1.
    assert (Hrecv : recv MEMCACHED_MAX_BUFFER i = Done (Received []) (i <| recvs := rs |>)).
    { unfold recv, gets, modify, mbind, io_bind, mret, io_ret. rewrite Hr.
      by rewrite drop_nil, take_nil. }
    rewrite Hrecv. unfold mbind at 1, io_bind at 1.
    match goal with |- context [quit_server_death ?j] =>
      destruct (quit_server_death_spec j Hfd Hv) as (i' & Hq & Hd); rewrite Hq end.
    match goal with |- context [set_error _ ?a ?t ?j] =>
      destruct (set_connection_failure a t j) as [errs ->] end.
    eexists; split; [reflexivity|]. exact Hd.
  - cbn [arriving closes] in Ha, Hcl. cbn [io_fill_loop].
    assert (Hrecv : recv MEMCACHED_MAX_BUFFER i = Done (Recv_error n) (i <| recvs := rs |> <| errno := n |>)).
    { unfold recv, gets, modify, mbind, io_bind, mret, io_ret. by rewrite Hr. }
    unfold mbind at 1, io_bind at 1. rewrite Hrecv.
    destruct (n =? EINTR) eqn:Ei.
    { apply IH; [cbn; lia | exact Hfd | exact Hv | exact Ha | exact Hcl]. }
    destruct (would_block n) eqn:Ew; [|done].
    destruct (poll_timeout (root i) =? 0) eqn:Et; [done|].
    destruct (poll_ready 4 (polls i)) as [ps|] eqn:Hps; [|done].
    destruct (io_wait_ready (i <| recvs := rs |> <| errno := n |>) ps) as [e He].
    { by apply Z.eqb_neq. }
    { exact Hps. }
    unfold mbind at 1, io_bind at 1. rewrite He. cbn [memcached_success].
    apply IH; [cbn; lia | exact Hfd | exact Hv | exact Ha | exact Hcl].
Qed.

(** A loop that wants more than comes in reads it and finds the connection
    closed. *)
Lemma io_read_loop_closed fuel remains got i :
  connected i -> (length (incoming i) < remains <= fuel)%nat -> closing i = true ->
  memcached_is_valid_servername (cstr (hostname (server i))) = true ->
  exists i', io_read_loop fuel remains got i
             = Done (MEMCACHED_CONNECTION_FAILURE, got ++ incoming i) i'
    /\ dead i'.
Proof.
  revert remains got i; induction fuel as [|fuel IH]; intros remains got i Hc Hr Hcl Hv; [lia|].
  destruct remains as [|r] eqn:Er; [lia|]. cbn [io_read_loop]. rewrite <- Er in Hr |- *.
  unfold gets, mbind, io_bind. cbv beta iota.
  destruct (incoming i) as [|c s] eqn:Hin.
  - apply app_eq_nil in Hin as [Hb Ha].
    pose proof (buffered_length i Hc) as Hlen. rewrite Hb in Hlen. cbn in Hlen.
    rewrite (proj2 (Z.eqb_eq (read_buffer_length (server i)) 0)) by lia.
    destruct (io_fill_loop_closed (S (length (recvs i))) i) as (i' & Hfill & Hd);
      [lia | apply Hc | exact Hv | exact Ha | exact Hcl |].
    change (_io_fill i) with (io_fill_loop (S (length (recvs i))) i). rewrite Hfill.
    rewrite bool_decide_true by done. exists i'. by rewrite app_nil_r.
  - rewrite <- Hin. destruct (refill i Hc) as (i1 & Hfill & Hc1 & Hin1 & Hb1 & Hu1).
    { by rewrite Hin. }
    destruct (io_read_round i1 remains Hc1 Hb1) as (n & i2 & Hn & Hnl & Hdiff & Htake & Hi2); [lia|].
    rewrite Hfill. rewrite bool_decide_false by (intros Hne; by apply Hne). cbv beta iota zeta.
    rewrite Hdiff, Htake. destruct Hi2 as (Hc2 & Hin2 & Hu2).
    assert (Hu : undisturbed i i2) by (by etransitivity).
    destruct (IH (remains - n)%nat (got ++ take n (incoming i1)) i2 Hc2) as (i3 & Hloop & Hd).
    { rewrite Hin1, Hin in Hnl. rewrite Hin2, Hin1, length_drop, Hin. lia. }
    { rewrite <- Hcl. apply Hu. }
    { replace (hostname (server i2)) with (hostname (server i)) by (symmetry; apply Hu). exact Hv. }
    exists i3. rewrite Hloop, Hin2, Hin1, <- app_assoc, take_drop. by split.
Qed.
End Closing.

Section Claims.
Context `{Environment}.

Lemma safe_read_reads n i :
  connected i -> (n <= length (incoming i))%nat ->
  exists i', memcached_safe_read n i = Done (MEMCACHED_SUCCESS, take n (incoming i)) i'
    /\ consumed n i i'.
Proof.
  intros Hc Hn. destruct (memcached_io_read_reads n i Hc Hn) as (i' & Hdo & Hi').
  unfold memcached_safe_read, gets, mbind, io_bind. cbv beta iota.
  destruct n as [|n].
  { exists i. by rewrite take_0. }
  exists i'. split; [|exact Hi'].
  cbn [safe_read_loop length]. rewrite Nat.sub_0_r. cbn [Nat.leb].
  unfold mbind at 1, io_bind at 1. rewrite Hdo. 
  change (memcached_continue MEMCACHED_SUCCESS) with false. cbn [memcached_failed app].
  destruct (length (recvs i) + length (polls i))%nat; cbn [safe_read_loop];
    rewrite (proj2 (Nat.leb_le _ _)) by (rewrite length_take; lia); done.
Qed.

Lemma readline_reads (size : nat) (i : instance) :
  connected i -> (0 < size)%nat ->
  (snd (line_result size (incoming i)) <= length (incoming i))%nat ->
  exists i',
    memcached_io_readline size i
    = Done (fst (line_result size (incoming i)),
            take (snd (line_result size (incoming i))) (incoming i)) i'
    /\ consumed (snd (line_result size (incoming i))) i i'.
Proof.
  intros Hc Hs Hen. 
  destruct (readline_loop_spec (S size) size [] i Hc) as (i' & Hdo & Hi'); cbn [length];
    rewrite ?Nat.sub_0_r in *; [lia | lia | exact Hen |].
  by exists i'.
Qed.


(** [memcached_io_readline] returns the first line of what comes in, with
    its end, when it is shorter than the buffer, and the protocol error with the
    buffer full otherwise; it never writes behind the buffer, and what it copied
    is what it took away. *)
Theorem memcached_io_readline_spec (size : nat) (i : instance) :
  connected i -> (0 < size)%nat ->
  (snd (line_result size (incoming i)) <= length (incoming i))%nat ->
  exists i',
    memcached_io_readline size i
    = Done (fst (line_result size (incoming i)),
            take (snd (line_result size (incoming i))) (incoming i)) i'
    /\ connected i' /\ incoming i' = drop (snd (line_result size (incoming i))) (incoming i)
    /\ undisturbed i i'.
Proof. apply readline_reads. Qed.

(** when the server closes the connection before all that is asked for has
    come in, [memcached_io_read] gives what came in and the connection failure,
    and the connection is given up: the socket is closed, the server waits for
    its retry timeout, nothing is left in the read buffer, and later reads fail
    at once. *)
Theorem memcached_io_read_closed_spec (n m : nat) (i : instance) :
  clone_malloc <> None -> connected i -> closing i = true ->
  memcached_is_valid_servername (cstr (hostname (server i))) = true ->
  (length (incoming i) < n)%nat ->
  exists i',
    memcached_io_read n i = Done (MEMCACHED_CONNECTION_FAILURE, Some (-1), incoming i) i'
    /\ fd (server i') = INVALID_SOCKET
    /\ server_state (server i') = MEMCACHED_SERVER_STATE_IN_TIMEOUT
    /\ read_buffer_length (server i') = 0
    /\ memcached_io_read m i' = Done (MEMCACHED_CONNECTION_FAILURE, None, []) i'.
Proof.
  intros Hm Hc Hcl Hv Hn.
  destruct (io_read_loop_closed Hm n n [] i Hc) as (i' & Hdo & Hfd & Hst & Hl); [lia | done..|].
  exists i'. unfold memcached_io_read, gets, mbind, io_bind. cbv beta iota.
  rewrite (proj2 (Z.eqb_neq _ _)) by apply Hc. rewrite Hdo, Hfd. by repeat split.
Qed.
End Claims.

(** ** A concrete connection *)

Definition some_environment : Environment :=
  {| strerror_r := fun _ => str "error"; errmsg_header := str "libmemcached";
     memcached_at := fun f _ => str f; error_malloc := (true, true); time_now := Some 1000;
     clone_malloc := Some (2, zero_server); close_errno := fun n => n |}.

Definition empty_result : memcached_result_st :=
  {| item_flags := 0; item_expiration := 0; key_length := 0; item_cas := 0;
     item_value := zero_string; result_count := 0;
     item_key := replicate (Z.to_nat MEMCACHED_MAX_KEY) Byte.x00;
     result_is_allocated := false; result_is_initialized := true |}.

(** A connection on which the given events happen. *)
Definition connection (rs : list recv_result) (ps : list poll_result) : instance :=
  {| server := (server_of "localhost") <| fd := 3 |> <| read_ptr := Some (buffer_of 1 0) |>;
     root := _memcached_init <| poll_timeout := 500 |>;
     errors := {| root_errors := []; server_errors := [] |};
     here := buffer_of 1 0;
     read_buffer := repeat Byte.x00 MEMCACHED_MAX_BUFFER;
     errno := 0; recvs := rs; polls := ps;
     write_buffer := repeat Byte.x00 MEMCACHED_MAX_BUFFER; sends := []; sent := [];
     root_result := empty_result |}.

Lemma connection_connected rs ps : connected (connection rs ps).
Proof.
  split; [discriminate|]. split; [reflexivity|]. split; [apply repeat_length|].
  split; [cbn; lia|]. exists 0%nat. split; [reflexivity | cbn; lia].
Qed.

Definition two_pieces : instance :=
  connection [Recv_error EAGAIN; Received (str "VER"); Recv_error EINTR;
              Received (str "SION 1.8") ; Recv_error EAGAIN;
              Received (Byte.x0d :: Byte.x0a :: str "END")]
             [Poll_error EINTR None; Poll_ready; Poll_ready].


Lemma memcached_io_readline_spec_witness :
  exists i', memcached_io_readline (H := some_environment) 64 two_pieces
             = Done (MEMCACHED_SUCCESS, str "VERSION 1.8" ++ [Byte.x0d; Byte.x0a]) i'
    /\ connected i' /\ incoming i' = str "END" /\ undisturbed two_pieces i'.
Proof.
  refine (memcached_io_readline_spec (H := some_environment) 64 two_pieces _ _ _).
  - apply connection_connected.
  - lia.
  - vm_compute. lia.
Defined.

Lemma memcached_io_read_closed_spec_witness :
  exists i',
    memcached_io_read (H := some_environment) 8
      (connection [Received (str "VER"); Received []] [])
    = Done (MEMCACHED_CONNECTION_FAILURE, Some (-1), str "VER") i'
    /\ fd (server i') = INVALID_SOCKET
    /\ server_state (server i') = MEMCACHED_SERVER_STATE_IN_TIMEOUT
    /\ read_buffer_length (server i') = 0
    /\ memcached_io_read (H := some_environment) 1 i'
       = Done (MEMCACHED_CONNECTION_FAILURE, None, []) i'.
Proof.
  refine (memcached_io_read_closed_spec (H := some_environment) 8 1
    (connection [Received (str "VER"); Received []] []) _ _ _ _ _).
  - discriminate.
  - apply connection_connected.
  - reflexivity.
  - vm_compute. reflexivity.
  - vm_compute. lia.
Defined.

(** ** What the code does not do *)

(** A read that times out in the middle starts again at its beginning, and what
    had been copied is overwritten by what comes next. *)
Lemma safe_read_loses_bytes :
  match memcached_safe_read (H := some_environment) 4
          (connection [Received (str "ab"); Recv_error EAGAIN; Received (str "cdefgh")]
                      [Poll_timeout]) with
  | Done (rc, data) _ => rc = MEMCACHED_SUCCESS /\ data = str "cdef"
  | _ => False
  end.
Proof. vm_compute. by split. Qed.

(** A line whose end is the last byte that the buffer has room for is a protocol
    error. *)
Lemma readline_exact_fit :
  match memcached_io_readline (H := some_environment) 4
          (connection [Received (str "END" ++ [Byte.x0a])] []) with
  | Done (rc, data) _ => rc = MEMCACHED_PROTOCOL_ERROR /\ data = str "END" ++ [Byte.x0a]
  | _ => False
  end.
Proof. vm_compute. by split. Qed.

(** The ids of the messages of a thread are not counted up: the new number is
    laid over the old one, and from the eleventh message on they are all the
    same. *)
Lemma udp_message_ids :
  let ids := iterate increment_udp_message_id 12 (generate_udp_request_thread_id 5) in
  (fun id => get_msg_num_from_request_id id) <$> ids
  = [0; 1; 3; 7; 15; 31; 63; 127; 255; 511; 1023; 1023; 1023].
Proof. vm_compute. reflexivity. Qed.

(** The check of the thread's number lets every number through, of which the
    upper ten bits are lost. *)
Lemma udp_thread_ids thread_id :
  0 <= thread_id <= 65535 ->
  memcached_io_init_udp_header thread_id
  = (MEMCACHED_SUCCESS, Some (u16 (generate_udp_request_thread_id thread_id))).
Proof.
  intros Ht. unfold memcached_io_init_udp_header.
  assert ((thread_id >? 65535) = false) as -> by lia. reflexivity.
Qed.
