(* ===== verification/Response.v ===== *)
(** Responses of the text protocol: the first half of response.cc.

    A response is read into the buffer of the caller, which is not cleared: the
    functions below take the contents of the whole buffer and give what it holds
    afterwards.  What they read behind the buffer is a [Crash]. *)
From Stdlib Require Import Strings.Byte.
From S2P Require Import Prelude HashFunctions Hashkit Memcached Text KeyHash ServerList.
From S2P Require Import Error StringBuf Io Result.

(** ** The server that answers *)

Definition memcached_server_response_increment : io unit :=
  modify_server (fun s => s <| cursor_active ::= fun n => n ⊞ 1 |>).
Definition memcached_server_response_decrement : io unit :=
  modify_server (fun s => s <| cursor_active ::= fun n => n ⊟ 1 |>).
Definition memcached_server_response_reset : io unit :=
  modify_server (fun s => s <| cursor_active := 0 |>).
Definition memcached_server_set_immediate_reconnect : io unit :=
  modify_server (fun s => s <| immediate_reconnect := true |>).

Definition ERANGE : Z := 34.

(** The bytes of [buffer] after a copy of [data] to position [at_]; [None] is a
    write behind it. *)
Definition memcpy_to (buffer : bytes) (at_ : nat) (data : bytes) : option bytes :=
  if (at_ + length data <=? length buffer)%nat then Some (store buffer at_ data) else None.

Section Response.
Context `{Environment} `{Allocator}.

Definition at_response (line : Z) : bytes := memcached_at "response.cc" line.

(** The error of a read in the middle of a response. *)
Definition failed_read (rrc : memcached_return_t) (line : Z) : io memcached_return_t :=
  if bool_decide (rrc = MEMCACHED_IN_PROGRESS) then
    _ ← quit_server_death;
    set_error rrc (at_response line) None
  else mret rrc.

(** ** Values *)

(** A value of [value_length] bytes with its end of line: it is read into the
    string of the result, and its end is overwritten by NULs.  [done] is the code
    when all went well, and the numbers are those of the lines that report
    errors. *)
Definition fetch_value (result : memcached_result_st) (value_length : Z)
    (done : memcached_return_t) (no_memory in_progress : Z)
    : io (memcached_return_t * memcached_result_st) :=
  let to_read := u64 (value_length + 2) in
  let '(rc, v) := memcached_string_check (item_value result) to_read in
  if memcached_failed rc then
    rc ← set_error MEMCACHED_MEMORY_ALLOCATION_FAILURE (at_response no_memory) None;
    mret (rc, result <| item_value := v |>)
  else
    '(rrc, read_length, data) ← memcached_io_read (Z.to_nat to_read);
    block ← checked (memcpy_to (default [] (string_block v)) 0 data);
    let v := v <| string_block := ((fun _ => block) <$> string_block v) |> in
    if memcached_failed rrc then
      rc ← failed_read rrc in_progress;
      mret (rc, result <| item_value := v |>)
    else if negb (bool_decide (u64 <$> read_length = Some to_read)) then
      mret (MEMCACHED_PARTIAL_READ, result <| item_value := v |>)
    else
      (* the NULs *)
      block ← checked
        (if value_length + 2 <=? Z.of_nat (length block)
         then Some (store block (Z.to_nat value_length) [Byte.x00; Byte.x00]) else None);
      let v := v <| string_block := Some block |> in
      mret (done, result <| item_value := (memcached_string_set_length v (Z.to_nat value_length)) |>).

(** The byte class of a key. *)
Definition key_byte (c : byte) : bool := negb (iscntrl c) && negb (isspace c).

(** What is stored of a key: a longer one is cut and ends in dots. *)
Definition store_key (result : memcached_result_st) (key : bytes) : memcached_result_st :=
  if Z.of_nat (length key) <? MEMCACHED_MAX_KEY
  then result <| item_key ::= fun k => store k 0 (key ++ [Byte.x00]) |>
              <| key_length := Z.of_nat (length key) |>
  else result <| item_key ::= fun k =>
                   store (store k 0 (take (Z.to_nat MEMCACHED_MAX_KEY) key))
                     (Z.to_nat (MEMCACHED_MAX_KEY - 4)) (str "..." ++ [Byte.x00]) |>
              <| key_length := MEMCACHED_MAX_KEY - 1 |>.

(** The end of the buffer at [p]. *)
Definition at_end (buffer : bytes) (p : nat) : bool := (p =? length buffer)%nat.

(** [textual_value_fetch] behind the key, at [p]. *)
Definition fetch_flags_and_value (buffer : bytes) (p : nat) (result : memcached_result_st)
    : io (memcached_return_t * memcached_result_st) :=
  let partial result := mret (MEMCACHED_PARTIAL_READ, result) in
  if at_end buffer p || at_end buffer (S p) then partial result
  else
    '(flags, n) ← checked (strtoull (drop (S p) buffer));
    let result := result <| item_flags := u32 flags |> in
    let p := (S p + n)%nat in
    if at_end buffer p || at_end buffer (S p) then partial result
    else
      '(value_length, n) ← checked (strtoull (drop (S p) buffer));
      let p := (S p + n)%nat in
      if at_end buffer p then partial result
      else
        c ← checked (buffer !! p);
        '(p, result) ←
          (if bool_decide (c = Byte.x0d) then mret ((p + 2)%nat, result)
           else
             '(cas, n) ← checked (strtoull (drop (S p) buffer));
             mret ((S p + n)%nat, result <| item_cas := cas |>));
        if (length buffer <? p)%nat then partial result
        else fetch_value result value_length MEMCACHED_SUCCESS 148 166.

Definition textual_value_fetch (buffer : bytes) (result : memcached_result_st)
    : io (memcached_return_t * memcached_result_st) :=
  root ← gets root;
  if use_udp (flags root) then
    rc ← set_error MEMCACHED_NOT_SUPPORTED (at_response 69) None;
    mret (rc, result)
  else
    let result := memcached_result_reset result in
    let p := (6 + Z.to_nat (memcached_array_size (_namespace root)))%nat in
    '(key, _) ← checked (span key_byte (drop p buffer));
    let result := store_key result key in
    _ ← (if Z.of_nat (length key) <? MEMCACHED_MAX_KEY then mret MEMCACHED_SUCCESS
         else set_error MEMCACHED_KEY_TOO_BIG (at_response 100) None);
    fetch_flags_and_value buffer (p + length key) result.

(** ** Versions *)

Definition UINT8_MAX : Z := 255.

(** A part of a version, at [s]: what it is and where it ends, unless it is out
    of range. *)
Definition version_part (s : bytes) : io (option Z * nat) :=
  '(version, n, range) ← checked (strtol s);
  _ ← modify (fun i => i <| errno := if range : bool then ERANGE else 0 |>);
  mret (if range || (version =? LONG_MIN) || (version =? LONG_MAX) || (version >? UINT8_MAX)
        then None else Some (u8 version), n).

Definition textual_version_fetch (buffer : bytes) : io memcached_return_t :=
  c ← checked (buffer !! 0%nat);
  if bool_decide (c = "U"%byte) then
    _ ← modify_server (fun s => s <| major_version := UINT8_MAX |> <| minor_version := UINT8_MAX |>
                                  <| micro_version := UINT8_MAX |>);
    mret MEMCACHED_SUCCESS
  else
    '(major, n) ← version_part buffer;
    match major with
    | None =>
        set_error MEMCACHED_UNKNOWN_READ_FAILURE (at_response 208)
          (Some (str "strtol() failed to parse major version"))
    | Some major =>
        _ ← modify_server (fun s => s <| major_version := major |>);
        let p := S n in
        '(minor, n) ← version_part (drop p buffer);
        match minor with
        | None =>
            _ ← modify_server (fun s => s <| major_version := UINT8_MAX |>);
            set_error MEMCACHED_UNKNOWN_READ_FAILURE (at_response 219)
              (Some (str "strtol() failed to parse minor version"))
        | Some minor =>
            _ ← modify_server (fun s => s <| minor_version := minor |>);
            let p := (p + S n)%nat in
            '(micro, n) ← version_part (drop p buffer);
            match micro with
            | None =>
                _ ← modify_server (fun s => s <| major_version := UINT8_MAX |>
                                              <| minor_version := UINT8_MAX |>);
                set_error MEMCACHED_UNKNOWN_READ_FAILURE (at_response 230)
                  (Some (str "strtol() failed to parse micro version"))
            | Some micro =>
                _ ← modify_server (fun s => s <| micro_version := micro |>);
                enterprise ← checked (strrchr_found buffer "E"%byte);
                _ ← modify_server (fun s => s <| is_enterprise := enterprise |>);
                mret MEMCACHED_SUCCESS
            end
        end
    end.

(** ** Authentication *)

Definition textual_sasl_continue_fetch (buffer : bytes) (result : memcached_result_st)
    : io (memcached_return_t * memcached_result_st) :=
  let result := memcached_result_reset result in
  let p := 14%nat in
  if (length buffer <=? p)%nat then mret (MEMCACHED_PARTIAL_READ, result)
  else
    '(value_length, n) ← checked (strtoull (drop p buffer));
    let p := (p + n)%nat in
    if (length buffer <=? p)%nat then mret (MEMCACHED_PARTIAL_READ, result)
    else
      c ← checked (buffer !! p);
      let p := if bool_decide (c = Byte.x0d) then (p + 2)%nat else p in
      if (length buffer <? p)%nat then mret (MEMCACHED_PARTIAL_READ, result)
      else fetch_value result value_length MEMCACHED_AUTH_CONTINUE 277 294.

(** ** Switchovers *)

Definition SWITCHOVER_PEER_SIZE : nat := 128.

(** Whether a byte is in a line. *)
Definition in_line (c : byte) : bool :=
  negb (bool_decide (c = Byte.x0d)) && negb (bool_decide (c = Byte.x0a)).

Definition textual_switchover_peer_check (buffer : bytes) : io unit :=
  c ← checked (buffer !! 0%nat);
  if bool_decide (c <> " "%byte) then
    modify_server (fun s => s <| switchover_sidx := 1 |>)
  else
    '(peer, _) ← checked (span in_line (drop 1 buffer));
    if (length peer <? SWITCHOVER_PEER_SIZE)%nat then
      modify_server (fun s => s <| switchover_peer ::= fun b => store b 0 (peer ++ [Byte.x00]) |>
                                <| switchover_sidx := -1 |>)
    else
      modify_server (fun s =>
        s <| switchover_peer ::= fun b =>
               store b 0 (take (SWITCHOVER_PEER_SIZE - 1) peer ++ [Byte.x00]) |>
          <| switchover_sidx := 1 |>).

(** ** Lines *)

(** The text behind the name of an error, which is set on the server. *)
Definition set_server_text (name : bytes) (rc : memcached_return_t) (line : Z) (buffer : bytes)
    : io memcached_return_t :=
  let p := length name in
  c ← checked (buffer !! p);
  let p := if bool_decide (c = " "%byte) then S p else p in
  '(text, _) ← checked (span in_line (drop p buffer));
  set_error rc (at_response line) (Some text).

(** The conditions of a case of the switch, one after the other. *)
Fixpoint first_match {A} (buffer : bytes) (cases : list (string * io A)) (otherwise : io A) : io A :=
  match cases with
  | [] => otherwise
  | (name, act) :: cases =>
      b ← checked (memcmp_eq buffer (str name));
      if b : bool then act else first_match buffer cases otherwise
  end.

(** Whether the buffer begins with [text] and the line is longer than it. *)
Definition longer_line (buffer : bytes) (total_read : nat) (text : string) : option bool :=
  if (length (str text) <? total_read)%nat then memcmp_eq buffer (str text) else Some false.

(** What [textual_read_one_response] does with a line of [total_read] bytes: the
    code, what the buffer holds then, and the result. *)
Definition textual_response (buffer : bytes) (total_read : nat) (result : memcached_result_st)
    : io (memcached_return_t * bytes * memcached_result_st) :=
  let give rc := mret (rc, buffer, result) in
  let undefined := give MEMCACHED_UNDEFINED_RESPONSE in
  let report name rc line := rc ← set_server_text (str name) rc line buffer; give rc in
  c ← checked (buffer !! 0%nat);
  match c with
  | "V"%byte =>
      first_match buffer
        [("VALUE"%string,
          _ ← memcached_server_response_increment;
          '(rc, result) ← textual_value_fetch buffer result;
          mret (rc, buffer, result));
         ("VERSION"%string,
          space ← checked (strchr buffer " "%byte);
          version ← checked space;
          rc ← textual_version_fetch (drop 1 version);
          give rc)] undefined
  | "O"%byte => first_match buffer [("OK"%string, give MEMCACHED_SUCCESS)] undefined
  | "S"%byte =>
      first_match buffer
        [("STAT"%string, _ ← memcached_server_response_increment; give MEMCACHED_STAT);
         ("SERVER_ERROR"%string,
          if (total_read =? 12)%nat then give MEMCACHED_SERVER_ERROR
          else
            too_large ← checked (longer_line buffer total_read
                                   "SERVER_ERROR object too large for cache");
            if too_large : bool then give MEMCACHED_E2BIG
            else report "SERVER_ERROR"%string MEMCACHED_SERVER_ERROR 410);
         ("STORED"%string, give MEMCACHED_STORED);
         ("SASL_MECH"%string,
          (* memmove, and the NUL over the end of the line *)
          if negb (10 + total_read <=? length buffer)%nat || (total_read <? 12)%nat then crash
          else
            let buffer := store buffer 0 (take total_read (drop 10 buffer)) in
            mret (MEMCACHED_SUCCESS, store buffer (total_read - 12) [Byte.x00], result));
         ("SASL_CONTINUE"%string,
          '(rc, result) ← textual_sasl_continue_fetch buffer result;
          mret (rc, buffer, result));
         ("SASL_OK"%string, give MEMCACHED_SUCCESS);
         ("SWITCHOVER"%string,
          _ ← textual_switchover_peer_check (drop 10 buffer);
          give MEMCACHED_SWITCHOVER)] undefined
  | "D"%byte => first_match buffer [("DELETED"%string, give MEMCACHED_DELETED)] undefined
  | "N"%byte =>
      first_match buffer
        [("NOT_FOUND"%string, give MEMCACHED_NOTFOUND);
         ("NOT_STORED"%string, give MEMCACHED_NOTSTORED);
         ("NOT_SUPPORTED"%string, give MEMCACHED_NOT_SUPPORTED)] undefined
  | "R"%byte =>
      first_match buffer
        [("REPL_SLAVE"%string,
          _ ← textual_switchover_peer_check (drop 10 buffer);
          give MEMCACHED_REPL_SLAVE)] undefined
  | "U"%byte => first_match buffer [("UNREADABLE"%string, give MEMCACHED_UNREADABLE)] undefined
  | "E"%byte =>
      first_match buffer
        [("END"%string, give MEMCACHED_END);
         ("ERROR"%string,
          sasl ← gets (fun i => in_sasl_mech (server i));
          if sasl : bool then give MEMCACHED_NOT_SUPPORTED
          else report "ERROR"%string MEMCACHED_PROTOCOL_ERROR 507);
         ("EXISTS"%string, give MEMCACHED_DATA_EXISTS)] undefined
  | "I"%byte =>
      first_match buffer
        [("ITEM"%string, _ ← memcached_server_response_increment; give MEMCACHED_ITEM);
         ("INVALID"%string, report "INVALID"%string MEMCACHED_INVALID_COMMAND 535)] undefined
  | "T"%byte =>
      first_match buffer
        [("TYPE_MISMATCH"%string, give MEMCACHED_TYPE_MISMATCH);
         ("TOUCHED"%string, give MEMCACHED_SUCCESS)] undefined
  | "C"%byte =>
      first_match buffer
        [("CLIENT_ERROR"%string,
          too_large ← checked (longer_line buffer total_read
                                 "CLIENT_ERROR object too large for cache");
          if too_large : bool then give MEMCACHED_E2BIG
          else report "CLIENT_ERROR"%string MEMCACHED_CLIENT_ERROR 570)] undefined
  | "A"%byte => first_match buffer [("AUTH_ERROR"%string, give MEMCACHED_AUTH_FAILURE)] undefined
  | _ =>
      (* sscanf(buffer, %llu) *)
      '(_, digits, _) ← checked (scan_number buffer);
      match digits with
      | [] => undefined
      | _ :: _ => give MEMCACHED_SUCCESS
      end
  end.

Definition textual_read_one_response (buffer : bytes) (result : memcached_result_st)
    : io (memcached_return_t * bytes * memcached_result_st) :=
  '(rc, line) ← memcached_io_readline (length buffer);
  let buffer := store buffer 0 line in
  if memcached_failed rc then mret (rc, buffer, result)
  else textual_response buffer (length line) result.

(** ** The binary protocol *)

(** The header, with its numbers in the order of the host. *)
Record binary_response_header := {
  magic : Z;
  opcode : Z;
  keylen : Z;
  extlen : Z;
  datatype : Z;
  status : Z;
  bodylen : Z;
  opaque : Z;
  response_cas : Z;
}.

(** [n] bytes of the header from [at_] on. *)
Definition field (bytes : bytes) (at_ n : nat) : Z := of_be (take n (drop at_ bytes)).

Definition binary_header (bytes : bytes) : binary_response_header :=
  {| magic := field bytes 0 1; opcode := field bytes 1 1; keylen := field bytes 2 2;
     extlen := field bytes 4 1; datatype := field bytes 5 1; status := field bytes 6 2;
     bodylen := field bytes 8 4; opaque := field bytes 12 4; response_cas := field bytes 16 8 |}.

Definition PROTOCOL_BINARY_RES : Z := 0x81.
Definition SMALL_STRING_LEN : Z := 1024.

(** The commands that the reader tells apart. *)
Inductive protocol_binary_command :=
  | PROTOCOL_BINARY_CMD_GETK | PROTOCOL_BINARY_CMD_GETKQ
  | PROTOCOL_BINARY_CMD_INCREMENT | PROTOCOL_BINARY_CMD_DECREMENT
  | PROTOCOL_BINARY_CMD_SASL_LIST_MECHS | PROTOCOL_BINARY_CMD_VERSION
  | PROTOCOL_BINARY_CMD_FLUSH | PROTOCOL_BINARY_CMD_QUIT | PROTOCOL_BINARY_CMD_SET
  | PROTOCOL_BINARY_CMD_ADD | PROTOCOL_BINARY_CMD_REPLACE | PROTOCOL_BINARY_CMD_APPEND
  | PROTOCOL_BINARY_CMD_PREPEND | PROTOCOL_BINARY_CMD_DELETE | PROTOCOL_BINARY_CMD_NOOP
  | PROTOCOL_BINARY_CMD_STAT | PROTOCOL_BINARY_CMD_SASL_AUTH | PROTOCOL_BINARY_CMD_SASL_STEP
  | PROTOCOL_BINARY_CMD_SETQ | PROTOCOL_BINARY_CMD_ADDQ | PROTOCOL_BINARY_CMD_REPLACEQ
  | PROTOCOL_BINARY_CMD_APPENDQ | PROTOCOL_BINARY_CMD_PREPENDQ
  | other_command.

Definition command_of (opcode : Z) : protocol_binary_command :=
  match opcode with
  | 0x01 => PROTOCOL_BINARY_CMD_SET | 0x02 => PROTOCOL_BINARY_CMD_ADD
  | 0x03 => PROTOCOL_BINARY_CMD_REPLACE | 0x04 => PROTOCOL_BINARY_CMD_DELETE
  | 0x05 => PROTOCOL_BINARY_CMD_INCREMENT | 0x06 => PROTOCOL_BINARY_CMD_DECREMENT
  | 0x07 => PROTOCOL_BINARY_CMD_QUIT | 0x08 => PROTOCOL_BINARY_CMD_FLUSH
  | 0x0a => PROTOCOL_BINARY_CMD_NOOP | 0x0b => PROTOCOL_BINARY_CMD_VERSION
  | 0x0c => PROTOCOL_BINARY_CMD_GETK | 0x0d => PROTOCOL_BINARY_CMD_GETKQ
  | 0x0e => PROTOCOL_BINARY_CMD_APPEND | 0x0f => PROTOCOL_BINARY_CMD_PREPEND
  | 0x10 => PROTOCOL_BINARY_CMD_STAT | 0x11 => PROTOCOL_BINARY_CMD_SETQ
  | 0x12 => PROTOCOL_BINARY_CMD_ADDQ | 0x13 => PROTOCOL_BINARY_CMD_REPLACEQ
  | 0x19 => PROTOCOL_BINARY_CMD_APPENDQ | 0x1a => PROTOCOL_BINARY_CMD_PREPENDQ
  | 0x20 => PROTOCOL_BINARY_CMD_SASL_LIST_MECHS | 0x21 => PROTOCOL_BINARY_CMD_SASL_AUTH
  | 0x22 => PROTOCOL_BINARY_CMD_SASL_STEP
  | _ => other_command
  end.

(** The code of a status; [sasl] is [in_sasl_mech]. *)
Definition status_return (sasl : bool) (status : Z) : memcached_return_t :=
  match status with
  | 0x00 => MEMCACHED_SUCCESS
  | 0x01 => MEMCACHED_NOTFOUND
  | 0x02 => MEMCACHED_DATA_EXISTS
  | 0x05 => MEMCACHED_NOTSTORED
  | 0x83 => MEMCACHED_NOT_SUPPORTED
  | 0x03 => MEMCACHED_E2BIG
  | 0x82 => MEMCACHED_MEMORY_ALLOCATION_FAILURE
  | 0x21 => MEMCACHED_AUTH_CONTINUE
  | 0x20 => MEMCACHED_AUTH_FAILURE
  | 0x81 => if sasl then MEMCACHED_NOT_SUPPORTED else MEMCACHED_PROTOCOL_ERROR
  | _ => MEMCACHED_PROTOCOL_ERROR
  end.

Definition read_size (n : Z) : io (memcached_return_t * bytes) := memcached_safe_read (Z.to_nat n).

(** A body of [n] bytes is read into the value of the result; the codes are those
    without memory and after a failed read. *)
Definition read_value (result : memcached_result_st) (n : Z)
    : io (option memcached_return_t * memcached_result_st) :=
  let '(rc, v) := memcached_string_check (item_value result) n in
  if memcached_failed rc then
    mret (Some MEMCACHED_MEMORY_ALLOCATION_FAILURE, result <| item_value := v |>)
  else
    '(rc, data) ← read_size n;
    block ← checked (memcpy_to (default [] (string_block v)) 0 data);
    let v := v <| string_block := ((fun _ => block) <$> string_block v) |> in
    if memcached_failed rc then
      mret (Some MEMCACHED_UNKNOWN_READ_FAILURE, result <| item_value := v |>)
    else mret (None, result <| item_value := (memcached_string_set_length v (Z.to_nat n)) |>).

(** The key of a [GETK], less the namespace, of [keylen] bytes. *)
Definition read_key (result : memcached_result_st) (keylen : Z)
    : io (option memcached_return_t * memcached_result_st) :=
  let n := if keylen <? MEMCACHED_MAX_KEY then keylen else MEMCACHED_MAX_KEY - 1 in
  '(rc, key) ← read_size n;
  let result := result <| item_key ::= fun k => store k 0 key |> in
  if memcached_failed rc then mret (Some MEMCACHED_UNKNOWN_READ_FAILURE, result)
  else if keylen <? MEMCACHED_MAX_KEY then
    mret (None, result <| item_key ::= fun k => store k (Z.to_nat n) [Byte.x00] |>
                       <| key_length := keylen |>)
  else
    '(rc, _) ← read_size (keylen - n);
    if memcached_failed rc then mret (Some MEMCACHED_UNKNOWN_READ_FAILURE, result)
    else
      _ ← set_error MEMCACHED_KEY_TOO_BIG (at_response 681) None;
      mret (None, result <| item_key ::= fun k => store k (Z.to_nat (MEMCACHED_MAX_KEY - 4))
                                                    (str "..." ++ [Byte.x00]) |>
                         <| key_length := MEMCACHED_MAX_KEY - 1 |>).

(** The body of a [GETK] or [GETKQ]. *)
Definition read_getk (header : binary_response_header) (result : memcached_result_st)
    : io (option memcached_return_t * memcached_result_st) :=
  let result := (memcached_result_reset result) <| item_cas := response_cas header |> in
  '(rc, data) ← read_size 4;
  if bool_decide (rc <> MEMCACHED_SUCCESS) then
    mret (Some MEMCACHED_UNKNOWN_READ_FAILURE, result <| item_flags := of_le data |>)
  else
    let result := result <| item_flags := of_be data |> in
    let body := bodylen header ⊟ extlen header in
    prefix ← gets (fun i => u16 (memcached_array_size (_namespace (root i))));
    '(rc, body, keylen) ←
      (if 0 <? prefix then
         if prefix >=? keylen header then
           rc ← set_error MEMCACHED_UNKNOWN_READ_FAILURE (at_response 653) None;
           mret (Some rc, body, keylen header)
         else
           '(rc, _) ← read_size prefix;
           if memcached_failed rc
           then mret (Some MEMCACHED_UNKNOWN_READ_FAILURE, body, keylen header)
           else mret (None, body ⊟ prefix, u16 (keylen header - prefix))
       else mret (None, body, keylen header));
    match rc with
    | Some rc => mret (Some rc, result)
    | None =>
        '(rc, result) ← read_key result keylen;
        match rc with
        | Some rc => mret (Some rc, result)
        | None => read_value result (body ⊟ keylen)
        end
    end.

(** The body of an error is read in pieces and thrown away. *)
Fixpoint discard (fuel : nat) (bodylen : Z) : io (option memcached_return_t) :=
  if bodylen <=? 0 then mret None
  else
    match fuel with
    | O => blocked
    | S fuel =>
        let nr := if bodylen >? SMALL_STRING_LEN then SMALL_STRING_LEN else bodylen in
        '(rc, _) ← read_size nr;
        if bool_decide (rc <> MEMCACHED_SUCCESS) then
          rc ← set_error MEMCACHED_UNKNOWN_READ_FAILURE (at_response 824) None;
          mret (Some rc)
        else discard fuel (bodylen - nr)
    end.

(** What [binary_read_one_response] does with the body of a success: the code
    when it returns there, the buffer and the result. *)
Definition binary_body (header : binary_response_header) (buffer : bytes)
    (result : memcached_result_st)
    : io (option memcached_return_t * bytes * memcached_result_st) :=
  let body := bodylen header in
  let give rc := mret (rc, buffer, result) in
  match command_of (opcode header) with
  | PROTOCOL_BINARY_CMD_GETKQ =>
      _ ← memcached_server_response_increment;
      '(rc, result) ← read_getk header result;
      mret (rc, buffer, result)
  | PROTOCOL_BINARY_CMD_GETK =>
      '(rc, result) ← read_getk header result;
      mret (rc, buffer, result)
  | PROTOCOL_BINARY_CMD_INCREMENT | PROTOCOL_BINARY_CMD_DECREMENT =>
      if negb (body =? 8) || negb (length buffer =? 8)%nat then give (Some MEMCACHED_PROTOCOL_ERROR)
      else
        '(rc, val) ← read_size 8;
        if bool_decide (rc <> MEMCACHED_SUCCESS) then give (Some MEMCACHED_UNKNOWN_READ_FAILURE)
        else mret (None, to_le 8 (of_be val), result)
  | PROTOCOL_BINARY_CMD_SASL_LIST_MECHS =>
      if negb (keylen header =? 0) || (body ⊞ 1 >? Z.of_nat (length buffer))
      then give (Some MEMCACHED_UNKNOWN_READ_FAILURE)
      else
        '(rc, data) ← read_size body;
        buffer ← checked (memcpy_to buffer 0 data);
        mret (if bool_decide (rc <> MEMCACHED_SUCCESS) then Some MEMCACHED_UNKNOWN_READ_FAILURE
              else None, buffer, result)
  | PROTOCOL_BINARY_CMD_VERSION =>
      '(rc, data) ← read_size body;
      version ← checked (memcpy_to (replicate 32 Byte.x00) 0 data);
      if bool_decide (rc <> MEMCACHED_SUCCESS) then give (Some MEMCACHED_UNKNOWN_READ_FAILURE)
      else
        _ ← textual_version_fetch version;
        give None
  | PROTOCOL_BINARY_CMD_FLUSH | PROTOCOL_BINARY_CMD_QUIT | PROTOCOL_BINARY_CMD_SET
  | PROTOCOL_BINARY_CMD_ADD | PROTOCOL_BINARY_CMD_REPLACE | PROTOCOL_BINARY_CMD_APPEND
  | PROTOCOL_BINARY_CMD_PREPEND | PROTOCOL_BINARY_CMD_DELETE => give (Some MEMCACHED_SUCCESS)
  | PROTOCOL_BINARY_CMD_NOOP => give (Some MEMCACHED_END)
  | PROTOCOL_BINARY_CMD_STAT =>
      if body =? 0 then give (Some MEMCACHED_END)
      else if body ⊞ 1 >? Z.of_nat (length buffer) then give (Some MEMCACHED_UNKNOWN_READ_FAILURE)
      else
        let buffer := replicate (length buffer) Byte.x00 in
        '(rc, key) ← read_size (keylen header);
        buffer ← checked (memcpy_to buffer 0 key);
        if bool_decide (rc <> MEMCACHED_SUCCESS)
        then mret (Some MEMCACHED_UNKNOWN_READ_FAILURE, buffer, result)
        else
          '(rc, data) ← read_size (u64 (body - keylen header));
          buffer ← checked (memcpy_to buffer (Z.to_nat (keylen header) + 1) data);
          mret (if bool_decide (rc <> MEMCACHED_SUCCESS) then Some MEMCACHED_UNKNOWN_READ_FAILURE
                else None, buffer, result)
  | PROTOCOL_BINARY_CMD_SASL_AUTH | PROTOCOL_BINARY_CMD_SASL_STEP =>
      '(rc, result) ←
        read_value ((memcached_result_reset result) <| item_cas := response_cas header |>) body;
      mret (rc, buffer, result)
  | _ => give (Some MEMCACHED_PROTOCOL_ERROR)
  end.

(** An error of one of these commands is not an answer. *)
Definition quiet_store (c : protocol_binary_command) : bool :=
  match c with
  | PROTOCOL_BINARY_CMD_SETQ | PROTOCOL_BINARY_CMD_ADDQ | PROTOCOL_BINARY_CMD_REPLACEQ
  | PROTOCOL_BINARY_CMD_APPENDQ | PROTOCOL_BINARY_CMD_PREPENDQ => true
  | _ => false
  end.

(** [fuel] bounds the answers of quiet commands that are skipped. *)
Fixpoint binary_read_one_response (fuel : nat) (buffer : bytes) (result : memcached_result_st)
    : io (memcached_return_t * bytes * memcached_result_st) :=
  match fuel with
  | O => blocked
  | S fuel =>
      '(rc, data) ← read_size 24;
      if bool_decide (rc <> MEMCACHED_SUCCESS) then mret (rc, buffer, result)
      else
        let header := binary_header data in
        sasl ← gets (fun i => in_sasl_mech (server i));
        if negb (magic header =? PROTOCOL_BINARY_RES) then
          mret (MEMCACHED_PROTOCOL_ERROR, buffer, result)
        else if (status header =? 0x00) || (status header =? 0x21) then
          '(rc, buffer, result) ← binary_body header buffer result;
          mret (default (status_return sasl (status header)) rc, buffer, result)
        else if negb (bodylen header =? 0) then
          rc ← discard (Z.to_nat (bodylen header)) (bodylen header);
          match rc with
          | Some rc => mret (rc, buffer, result)
          | None =>
              if quiet_store (command_of (opcode header))
              then binary_read_one_response fuel buffer result
              else mret (status_return sasl (status header), buffer, result)
          end
        else mret (status_return sasl (status header), buffer, result)
  end.

(** ** Any protocol *)

(** At least as many as the bytes that come in. *)
Definition pending (i : instance) : nat :=
  (Z.to_nat (read_buffer_length (server i)) + list_sum (recv_length <$> recvs i))%nat.

(** The codes after which the server and the client may disagree about where a
    response ends. *)
Definition out_of_step (rc : memcached_return_t) : bool :=
  bool_decide (rc = MEMCACHED_UNKNOWN_READ_FAILURE) || bool_decide (rc = MEMCACHED_PROTOCOL_ERROR)
  || bool_decide (rc = MEMCACHED_CLIENT_ERROR) || bool_decide (rc = MEMCACHED_SERVER_ERROR)
  || bool_decide (rc = MEMCACHED_PARTIAL_READ)
  || bool_decide (rc = MEMCACHED_MEMORY_ALLOCATION_FAILURE).

Definition memcached_read_one_response (buffer : bytes) (result : memcached_result_st)
    : io (memcached_return_t * bytes * memcached_result_st) :=
  _ ← memcached_server_response_decrement;
  i ← gets id;
  '(rc, buffer, result) ←
    (if binary_protocol (flags (root i))
     then binary_read_one_response (S (pending i)) buffer result
     else textual_read_one_response buffer result);
  if out_of_step rc then
    _ ← (if bool_decide (rc <> MEMCACHED_MEMORY_ALLOCATION_FAILURE)
         then memcached_server_set_immediate_reconnect else mret tt);
    _ ← memcached_io_reset;
    mret (rc, buffer, result)
  else mret (rc, buffer, result).

(** The codes after which [memcached_response] reads on. *)
Definition reads_on (rc : memcached_return_t) : bool :=
  match rc with
  | MEMCACHED_END | MEMCACHED_STORED | MEMCACHED_SUCCESS | MEMCACHED_STAT | MEMCACHED_DELETED
  | MEMCACHED_NOTFOUND | MEMCACHED_TYPE_MISMATCH | MEMCACHED_NOTFOUND_ELEMENT
  | MEMCACHED_UNREADABLE | MEMCACHED_NOTSTORED | MEMCACHED_NOT_SUPPORTED
  | MEMCACHED_DATA_EXISTS | MEMCACHED_INVALID_COMMAND => true
  | _ => false
  end.

(** Every round takes a byte at least. *)
Fixpoint response_loop (fuel : nat) (buffer : bytes) (result : memcached_result_st)
    : io (memcached_return_t * bytes * memcached_result_st) :=
  count ← gets (fun i => cursor_active (server i));
  if negb (1 <? count) then memcached_read_one_response buffer result
  else
    match fuel with
    | O => blocked
    | S fuel =>
        '(rc, buffer, result) ← memcached_read_one_response buffer result;
        if reads_on rc then response_loop fuel buffer result else mret (rc, buffer, result)
    end.

(** [memcached_response].  [processing_input] is [root->state.is_processing_input]
    and [flush] is [memcached_io_write(ptr, NULL, 0, true)], which may process
    responses, so that what is in the result of the handle is looked at after it. *)
Definition write_first (processing_input : bool) (flush : io unit) : io unit :=
  root ← gets root;
  if no_block (flags root) && negb processing_input then flush else mret tt.

Definition receive_responses (buffer : bytes) (result : memcached_result_st)
    : io (memcached_return_t * bytes * memcached_result_st) :=
  root ← gets root;
  if binary_protocol (flags root) then memcached_read_one_response buffer result
  else
    n ← gets pending;
    response_loop (S n) buffer result.

Definition memcached_response (processing_input : bool) (flush : io unit) (buffer : bytes)
    (result : memcached_result_st) : io (memcached_return_t * bytes * memcached_result_st) :=
  _ ← write_first processing_input flush;
  receive_responses buffer result.

(** Where the result is [NULL], it is the one of the handle. *)
Definition into_root (m : memcached_result_st -> io (memcached_return_t * bytes * memcached_result_st))
    : io (memcached_return_t * bytes) :=
  result ← gets root_result;
  '(rc, buffer, result) ← m result;
  _ ← modify (fun i => i <| root_result := result |>);
  mret (rc, buffer).

Definition memcached_response_to_root (processing_input : bool) (flush : io unit) (buffer : bytes)
    : io (memcached_return_t * bytes) :=
  _ ← write_first processing_input flush;
  into_root (receive_responses buffer).
End Response.

(** ** Reading a line *)

Definition crlf : bytes := [Byte.x0d; Byte.x0a].

Lemma line_length_line s t :
  Byte.x0a ∉ s -> line_length (s ++ Byte.x0a :: t) = Some (length s + 1)%nat.
Proof.
  induction s as [|c s IH]; cbn; intros Hs; [by rewrite bool_decide_true|].
  apply not_elem_of_cons in Hs as [Hc Hs]. rewrite bool_decide_false by congruence.
  by rewrite IH.
Qed.

Lemma store_front buffer line : store buffer 0 line = line ++ drop (length line) buffer.
Proof. reflexivity. Qed.

Section Lines.
Context `{Environment} `{Allocator}.

(** A line that fits is read into the front of the buffer. *)
Lemma read_line buffer result s rest i :
  connected i -> incoming i = s ++ Byte.x0a :: rest -> Byte.x0a ∉ s ->
  (length s + 1 < length buffer)%nat ->
  exists i', textual_read_one_response buffer result i
             = textual_response (s ++ Byte.x0a :: drop (length s + 1) buffer) (length s + 1) result i'
    /\ connected i' /\ incoming i' = rest /\ undisturbed i i'.
Proof.
  intros Hc Hin Hs Hlen.
  assert (Hres : line_result (length buffer) (incoming i) = (MEMCACHED_SUCCESS, (length s + 1)%nat)).
  { unfold line_result. rewrite Hin, line_length_line by done.
    by rewrite (proj2 (Nat.ltb_lt _ _)). }
  destruct (readline_reads (length buffer) i Hc) as (i' & Hdo & Hi').
  { lia. }
  { rewrite Hres, Hin, length_app. cbn. lia. }
  rewrite Hres in Hdo, Hi'. cbn [fst snd] in Hdo, Hi'.
  assert (Htake : take (length s + 1) (incoming i) = s ++ [Byte.x0a]).
  { rewrite Hin, take_app_add. reflexivity. }
  rewrite Htake in Hdo.
  exists i'. destruct Hi' as (Hc' & Hin' & Hu). split; [|split; [done|split; [|done]]].
  - unfold textual_read_one_response, mbind at 1, io_bind at 1. rewrite Hdo. cbn [memcached_failed].
    rewrite store_front, length_app, <- app_assoc. done.
  - rewrite Hin', Hin, drop_app_add. done.
Qed.

(** ** Values *)

(** The response to a [get]: [prefix] is the namespace. *)
Definition value_line (prefix key value : bytes) (flags : Z) : bytes :=
  str "VALUE " ++ prefix ++ key ++ " "%byte :: print_u32 flags ++ " "%byte ::
  print_u32 (Z.of_nat (length value)) ++ [Byte.x0d].
Definition value_response (prefix key value : bytes) (flags : Z) : bytes :=
  value_line prefix key value flags ++ Byte.x0a :: value ++ crlf.

(** A result whose string is well formed and has a room for [n] bytes. *)
Definition has_room (result : memcached_result_st) (n : Z) : Prop :=
  string_inv (item_value result)
  /\ memcached_failed (fst (_string_check (memcached_string_reset (item_value result)) n)) = false.

Lemma store_length b n new :
  (n + length new <= length b)%nat -> length (store b n new) = length b.
Proof. intros Hn. unfold store. rewrite !length_app, length_take, length_drop. lia. Qed.

(** A result whose string has a room for more than it holds. *)
Definition holds_more (result : memcached_result_st) : Prop :=
  string_inv (item_value result)
  /\ Z.of_nat (string_end (item_value result)) + 2 <= current_size (item_value result).

Lemma fetch_value_reads result v value rest done a b i :
  connected i -> incoming i = value ++ crlf ++ rest ->
  Z.of_nat (length value) + 2 < 2 ^ 63 ->
  item_value result = memcached_string_reset v -> string_inv v ->
  memcached_failed (fst (_string_check (memcached_string_reset v)
                          (Z.of_nat (length value) + 2))) = false ->
  exists result' i',
    fetch_value result (Z.of_nat (length value)) done a b i = Done (done, result') i'
    /\ (memcached_result_value result' = value /\ holds_more result')
    /\ result' <| item_value := item_value result |> = result
    /\ connected i' /\ incoming i' = rest /\ undisturbed i i'.
Proof.
  intros Hc Hin Hlen Hv Hinv Hroom.
  assert (Hinv0 := string_reset_inv _ Hinv).
  destruct (_string_check_ok (memcached_string_reset v) (Z.of_nat (length value) + 2) Hinv0 ltac:(lia))
    as (rc & v' & Hcheck & Hinv' & Hend & _ & Hcase).
  rewrite Hcheck in Hroom. cbn [fst] in Hroom.
  destruct Hcase as [[-> [Hz|Hroom']]|[-> _]]; [lia | | discriminate Hroom].
  cbn in Hroom'.
  destruct Hinv' as [Hblock _ Hmax].
  destruct (string_block v') as [blk|] eqn:Eb; [|lia].
  destruct (memcached_io_read_reads (length value + 2) i Hc) as (i' & Hread & Hi').
  { rewrite Hin, !length_app. cbn. lia. }
  assert (Htake : take (length value + 2) (incoming i) = value ++ crlf).
  { rewrite Hin, take_app_add. reflexivity. }
  rewrite Htake in Hread.
  unfold fetch_value, memcached_string_check. rewrite (u64_small (_ + 2)) by lia.
  rewrite Hv, Hcheck. cbn [memcached_failed].
  replace (Z.to_nat (Z.of_nat (length value) + 2)) with (length value + 2)%nat by lia.
  unfold mbind, io_bind. rewrite Hread, Eb. cbn [default from_option id].
  unfold memcpy_to at 1. rewrite (proj2 (Nat.leb_le _ _)) by (rewrite length_app; cbn; lia).
  cbn [checked mret io_ret memcached_failed].
  rewrite bool_decide_true by (cbn; f_equal; rewrite u64_small; lia). cbn [negb].
  rewrite (proj2 (Z.leb_le _ _)).
  2: { rewrite store_front, length_app, length_drop, length_app. cbn. lia. }
  cbn [checked mret io_ret]. eexists _, i'. split; [reflexivity|].
  destruct Hi' as (Hc' & Hin' & Hu).
  split; [|split; [by destruct result; cbn in Hv |- *; rewrite Hv | split; [done | split; [|done]]]].
  - split.
    2: { unfold memcached_string_set_length. split; [|cbn; lia].
      split; cbn; [|lia|lia].
      rewrite !store_length; rewrite ?store_length; rewrite ?length_app; cbn; lia. }
    unfold memcached_result_value, memcached_string_value, memcached_string_set_length.
    cbn [item_value string_end string_block update default from_option id].
    rewrite Nat2Z.id. cbn. rewrite store_front. unfold store at 1.
    rewrite <- app_assoc. rewrite take_app_length. apply take_app_length.
  - rewrite Hin', Hin, drop_app_add. done.
Qed.

(** A number in a line, behind a space at [length pre]. *)
Lemma strtoull_at pre n c t :
  is_u32 n -> isdigit c = false ->
  strtoull (drop (S (length pre)) (pre ++ " "%byte :: print_u32 n ++ c :: t))
  = Some (n, length (print_u32 n)).
Proof.
  intros Hn Hc. destruct (print_u32_spec n Hn) as [Hds Hv].
  rewrite <- (Nat.add_1_r (length pre)), drop_app_add. cbn [drop].
  rewrite drop_0, strtoull_digits; rewrite ?Hv; [done | done | | done | lia].
  intros Hnil. rewrite Hnil in Hv. cbn in Hv. subst n. discriminate Hnil.
Qed.

Lemma not_at_end (buffer pre : bytes) c t p :
  buffer = pre ++ c :: t -> p = length pre -> at_end buffer p = false.
Proof.
  intros -> ->. unfold at_end. apply Nat.eqb_neq. rewrite length_app. cbn. lia.
Qed.

Lemma fetch_flags_and_value_reads pre flags value tail buffer v result rest i :
  connected i -> incoming i = value ++ crlf ++ rest ->
  buffer = pre ++ " "%byte :: print_u32 flags ++ " "%byte :: print_u32 (Z.of_nat (length value))
           ++ Byte.x0d :: Byte.x0a :: tail ->
  is_u32 flags -> is_u32 (Z.of_nat (length value)) ->
  item_value result = memcached_string_reset v -> string_inv v ->
  memcached_failed (fst (_string_check (memcached_string_reset v)
                          (Z.of_nat (length value) + 2))) = false ->
  exists result' i',
    fetch_flags_and_value buffer (length pre) result i = Done (MEMCACHED_SUCCESS, result') i'
    /\ (memcached_result_value result' = value /\ holds_more result')
    /\ result' <| item_value := item_value result |> = result <| item_flags := flags |>
    /\ connected i' /\ incoming i' = rest /\ undisturbed i i'.
Proof.
  intros Hc Hin Hbuf Hf Hl Hv Hinv Hroom. unfold fetch_flags_and_value.
  set (df := print_u32 flags) in *. set (dl := print_u32 (Z.of_nat (length value))) in *.
  assert (Hdf : exists d df', df = d :: df').
  { destruct df as [|d df'] eqn:E; [|by eauto]. destruct (print_u32_spec flags Hf) as [_ Hd].
    fold df in Hd. rewrite E in Hd. cbn in Hd. subst flags. discriminate E. }
  assert (Hdl : exists d dl', dl = d :: dl').
  { destruct dl as [|d dl'] eqn:E; [|by eauto]. destruct (print_u32_spec _ Hl) as [_ Hd].
    fold dl in Hd. rewrite E in Hd. cbn in Hd. unfold dl in E. rewrite <- Hd in E. discriminate E. }
  destruct Hdf as (d1 & df' & Edf), Hdl as (d2 & dl' & Edl).
  assert (Hb1 : buffer = (pre ++ [" "%byte]) ++ d1 :: df' ++ " "%byte :: dl ++ Byte.x0d :: Byte.x0a :: tail)
    by (rewrite Hbuf, Edf, <- app_assoc; done).
  assert (Hb2 : buffer = (pre ++ " "%byte :: df) ++ " "%byte :: dl ++ Byte.x0d :: Byte.x0a :: tail)
    by (rewrite Hbuf, <- app_assoc; done).
  assert (Hb3 : buffer = ((pre ++ " "%byte :: df) ++ [" "%byte]) ++ d2 :: dl' ++ Byte.x0d :: Byte.x0a :: tail)
    by (rewrite Hb2, Edl, <- !app_assoc; done).
  assert (Hb4 : buffer = ((pre ++ " "%byte :: df) ++ " "%byte :: dl) ++ Byte.x0d :: Byte.x0a :: tail)
    by (rewrite Hb2; symmetry; rewrite <- app_assoc; done).
  rewrite (not_at_end buffer pre _ _ (length pre) Hbuf eq_refl).
  rewrite (not_at_end buffer _ _ _ (S (length pre)) Hb1) by (rewrite length_app; cbn; lia).
  cbn [orb]. 
  assert (Hs1 : strtoull (drop (S (length pre)) buffer) = Some (flags, length df))
    by (rewrite Hbuf; by apply strtoull_at).
  rewrite Hs1. unfold mbind at 1, io_bind at 1. cbn [checked mret io_ret].
  replace (S (length pre) + length df)%nat with (length (pre ++ " "%byte :: df))
    by (rewrite length_app; cbn; lia).
  rewrite (not_at_end buffer _ _ _ _ Hb2 eq_refl).
  rewrite (not_at_end buffer _ _ _ (S (length (pre ++ " "%byte :: df))) Hb3)
    by (rewrite (length_app _ [_]); cbn; lia).
  cbn [orb]. 
  assert (Hs2 : strtoull (drop (S (length (pre ++ " "%byte :: df))) buffer)
                = Some (Z.of_nat (length value), length dl))
    by (rewrite Hb2; by apply strtoull_at).
  rewrite Hs2. unfold mbind at 1, io_bind at 1. cbn [checked mret io_ret].
  replace (S (length (pre ++ " "%byte :: df)) + length dl)%nat
    with (length ((pre ++ " "%byte :: df) ++ " "%byte :: dl)) by (rewrite (length_app _ (_ :: _)); cbn; lia).
  rewrite (not_at_end buffer _ _ _ _ Hb4 eq_refl).
  assert (Hs3 : buffer !! length ((pre ++ " "%byte :: df) ++ " "%byte :: dl) = Some Byte.x0d)
    by (rewrite Hb4; by apply list_lookup_middle).
  rewrite Hs3.
  unfold mbind at 1, io_bind at 1. cbn [checked mret io_ret].
  unfold mbind at 1, io_bind at 1. rewrite bool_decide_true by done. cbn [mret io_ret].
  rewrite (proj2 (Nat.ltb_ge _ _)).
  2: { rewrite Hb4. rewrite (length_app _ (Byte.x0d :: _)). cbn. lia. }
  destruct (fetch_value_reads (result <| item_flags := u32 flags |>) v value rest
              MEMCACHED_SUCCESS 148 166 i Hc Hin) as (result' & i' & Hdo & Hval & Hres & Hi');
    [lia | exact Hv | exact Hinv | exact Hroom |].
  exists result', i'. split; [exact Hdo|]. split; [exact Hval|]. split; [|exact Hi'].
  rewrite u32_small in Hres by exact Hf. exact Hres.
Qed.

Lemma key_byte_space : key_byte " "%byte = false.
Proof. reflexivity. Qed.

(** Nothing of a key ends a line. *)
Lemma key_byte_not_lf s : Forall (fun c => key_byte c = true) s -> Byte.x0a ∉ s.
Proof. intros Hs Hin. rewrite Forall_forall in Hs. by specialize (Hs _ Hin). Qed.

Lemma digits_not_lf n : is_u32 n -> Byte.x0a ∉ print_u32 n.
Proof. intros Hn. apply isdigit_not_in; [done|]. by apply print_u32_spec. Qed.

Lemma value_line_not_lf prefix key value flags :
  Forall (fun c => key_byte c = true) prefix -> Forall (fun c => key_byte c = true) key ->
  is_u32 flags -> is_u32 (Z.of_nat (length value)) ->
  Byte.x0a ∉ value_line prefix key value flags.
Proof.
  intros Hp Hk Hf Hl. unfold value_line. apply key_byte_not_lf in Hp, Hk.
  pose proof (digits_not_lf _ Hf). pose proof (digits_not_lf _ Hl).
  repeat first [apply not_elem_of_app; split | apply not_elem_of_cons; split | done].
  all: apply not_elem_of_nil.
Qed.

(** What reading a response leaves of a result. *)
Definition same_result (r r' : memcached_result_st) : Prop :=
  result_is_allocated r' = result_is_allocated r /\ result_count r' = result_count r.

Lemma textual_value_fetch_reads prefix key value flags' tail buffer result rest i :
  connected i -> incoming i = value ++ crlf ++ rest ->
  buffer = value_line prefix key value flags' ++ Byte.x0a :: tail ->
  use_udp (flags (root i)) = false -> prefix = memcached_array_string (_namespace (root i)) ->
  Forall (fun c => key_byte c = true) key -> Z.of_nat (length key) < MEMCACHED_MAX_KEY ->
  is_u32 flags' -> is_u32 (Z.of_nat (length value)) ->
  has_room result (Z.of_nat (length value) + 2) ->
  length (item_key result) = Z.to_nat MEMCACHED_MAX_KEY ->
  exists result' i',
    textual_value_fetch buffer result i = Done (MEMCACHED_SUCCESS, result') i'
    /\ take (length key) (item_key result') = key /\ key_length result' = Z.of_nat (length key)
    /\ (memcached_result_value result' = value /\ holds_more result'
        /\ length (item_key result') = Z.to_nat MEMCACHED_MAX_KEY /\ same_result result result')
    /\ item_flags result' = flags' /\ item_cas result' = 0
    /\ connected i' /\ incoming i' = rest /\ undisturbed i i'.
Proof.
  intros Hc Hin Hbuf Hudp Hpre Hk Hkl Hf Hl [Hinv Hroom] Hkey.
  unfold textual_value_fetch, gets, mbind, io_bind. cbv beta iota. rewrite Hudp.
  assert (Hsize : Z.to_nat (memcached_array_size (_namespace (root i))) = length prefix).
  { rewrite Hpre. unfold memcached_array_size, memcached_array_string.
    destruct (_namespace (root i)); cbn; lia. }
  rewrite Hsize.
  assert (Hb : buffer = (str "VALUE " ++ prefix ++ key) ++ " "%byte :: print_u32 flags' ++ " "%byte ::
            print_u32 (Z.of_nat (length value)) ++ Byte.x0d :: Byte.x0a :: tail).
  { rewrite Hbuf. unfold value_line. by rewrite <- !app_assoc; cbn; rewrite <- !app_assoc; cbn;
      rewrite <- !app_assoc. }
  assert (Hspan : span key_byte (drop (6 + length prefix) buffer)
    = Some (key, " "%byte :: print_u32 flags' ++ " "%byte ::
            print_u32 (Z.of_nat (length value)) ++ Byte.x0d :: Byte.x0a :: tail)).
  { rewrite Hb, (app_assoc (str "VALUE ")), <- app_assoc.
    change (6 + length prefix)%nat with (length (str "VALUE ") + length prefix)%nat.
    rewrite <- length_app, drop_app_length. by apply span_app. }
  rewrite Hspan. cbn [checked mret io_ret].
  assert (Hkb : (Z.of_nat (length key) <? MEMCACHED_MAX_KEY) = true) by lia.
  unfold store_key. rewrite Hkb. cbn [mret io_ret].
  replace (6 + length prefix + length key)%nat with (length (str "VALUE " ++ prefix ++ key))
    by (rewrite !length_app; cbn; lia).
  match goal with |- context [fetch_flags_and_value _ _ ?r _] => set (r1 := r) end.
  destruct (fetch_flags_and_value_reads (str "VALUE " ++ prefix ++ key) flags' value tail buffer
              (item_value result) r1 rest i Hc Hin Hb Hf Hl eq_refl Hinv Hroom)
    as (result' & i' & Hdo & Hval & Hres & Hi').
  exists result', i'. split; [exact Hdo|].
  assert (Hik : item_key result' = store (item_key result) 0 (key ++ [Byte.x00]))
    by exact (f_equal item_key Hres).
  split; [|split; [exact (f_equal key_length Hres)|]].
  - rewrite Hik, store_front, <- app_assoc. apply take_app_length.
  - split.
    { destruct Hval as [Hval Hmore]. split; [exact Hval|]. split; [exact Hmore|].
      split; [rewrite Hik, store_length; [done|]; rewrite length_app; cbn; lia|].
      split; [exact (f_equal result_is_allocated Hres)|exact (f_equal result_count Hres)]. }
    split; [exact (f_equal item_flags Hres)|].
    split; [exact (f_equal item_cas Hres) | exact Hi'].
Qed.

(** The number of responses that are awaited is no part of the connection. *)
Lemma counted f i :
  connected i ->
  let i' := i <| server ::= fun s => s <| cursor_active ::= f |> |> in
  connected i' /\ incoming i' = incoming i /\ root i' = root i.
Proof. intros Hc. split; [exact Hc | by split]. Qed.

Lemma read_value_response prefix key value flags' buffer result rest i :
  connected i -> incoming i = value_response prefix key value flags' ++ rest ->
  binary_protocol (flags (root i)) = false -> use_udp (flags (root i)) = false ->
  prefix = memcached_array_string (_namespace (root i)) -> is_u32 (cursor_active (server i)) ->
  Forall (fun c => key_byte c = true) prefix ->
  Forall (fun c => key_byte c = true) key -> Z.of_nat (length key) < MEMCACHED_MAX_KEY ->
  is_u32 flags' -> is_u32 (Z.of_nat (length value)) ->
  has_room result (Z.of_nat (length value) + 2) ->
  length (item_key result) = Z.to_nat MEMCACHED_MAX_KEY ->
  (length (value_line prefix key value flags') + 1 < length buffer)%nat ->
  exists buffer' result' i',
    memcached_read_one_response buffer result i = Done (MEMCACHED_SUCCESS, buffer', result') i'
    /\ take (length key) (item_key result') = key /\ key_length result' = Z.of_nat (length key)
    /\ (memcached_result_value result' = value /\ holds_more result'
        /\ length (item_key result') = Z.to_nat MEMCACHED_MAX_KEY /\ same_result result result')
    /\ item_flags result' = flags' /\ item_cas result' = 0
    /\ connected i' /\ incoming i' = rest /\ undisturbed i i'.
Proof.
  intros Hc Hin Hbin Hudp Hpre Hcur Hp Hk Hkl Hf Hl Hroom Hkey Hbuf.
  set (i1 := i <| server ::= fun s => s <| cursor_active ::= fun n => n ⊟ 1 |> |>).
  destruct (counted (fun n => n ⊟ 1) i Hc) as (Hc1 & Hin1 & Hr1). fold i1 in Hc1, Hin1, Hr1.
  destruct (read_line buffer result (value_line prefix key value flags') (value ++ crlf ++ rest) i1 Hc1)
    as (i2 & Hread & Hc2 & Hin2 & Hu2).
  { rewrite Hin1, Hin. unfold value_response. by rewrite <- app_assoc, <- app_comm_cons, <- app_assoc. }
  { by apply value_line_not_lf. }
  { exact Hbuf. }
  set (line := value_line prefix key value flags') in *.
  set (buffer2 := line ++ Byte.x0a :: drop (length line + 1) buffer) in *.
  set (i3 := i2 <| server ::= fun s => s <| cursor_active ::= fun n => n ⊞ 1 |> |>).
  destruct (counted (fun n => n ⊞ 1) i2 Hc2) as (Hc3 & Hin3 & Hr3). fold i3 in Hc3, Hin3, Hr3.
  assert (Hroot : root i3 = root i) by (rewrite Hr3, (proj1 Hu2); exact Hr1).
  destruct (textual_value_fetch_reads prefix key value flags' (drop (length line + 1) buffer)
              buffer2 result rest i3) as (result' & i4 & Hfetch & H1 & H2 & H3 & H4 & H5 & Hc4 & Hin4 & Hu4);
    try done.
  { by rewrite Hroot. }
  { by rewrite Hroot. }
  exists buffer2, result', i4.
  split; [|do 7 (split; [done|])].
  - unfold memcached_read_one_response, memcached_server_response_decrement, modify_server, modify.
    unfold mbind at 1, io_bind at 1. fold i1.
    unfold gets at 1, mbind at 1, io_bind at 1. unfold id.
    assert (Hbin1 : binary_protocol (flags (root i1)) = false) by exact Hbin. rewrite Hbin1.
    unfold mbind at 1, io_bind at 1. rewrite Hread.
    unfold textual_response.
    assert (Hval : buffer2 !! 0%nat = Some "V"%byte) by reflexivity.
    rewrite Hval. unfold mbind at 1, io_bind at 1. cbn [checked mret io_ret].
    cbn [first_match].
    assert (Hcmp : memcmp_eq buffer2 (str "VALUE") = Some true).
    { rewrite memcmp_eq_long; [reflexivity|]. unfold buffer2, line, value_line.
      rewrite !length_app. cbn. lia. }
    unfold mbind at 1, io_bind at 1. rewrite Hcmp. cbn [checked mret io_ret].
    unfold memcached_server_response_increment, modify_server, modify.
    unfold mbind at 1, io_bind at 1. fold i3. unfold mbind, io_bind. by rewrite Hfetch.
  - destruct Hu2 as (A & B & C & D & E & F & G & I & W), Hu4 as (A' & B' & C' & D' & E' & F' & G' & I' & W').
    unfold undisturbed. rewrite A', B', C', D', E', F', G', I', W'.
    change (root i3) with (root i2). change (errors i3) with (errors i2).
    change (closing i3) with (closing i2). change (here i3) with (here i2).
    change (fd (server i3)) with (fd (server i2)).
    change (server_state (server i3)) with (server_state (server i2)).
    change (hostname (server i3)) with (hostname (server i2)).
    change (cursor_active (server i3)) with (cursor_active (server i2) ⊞ 1).
    change (writing i3) with (writing i2).
    rewrite A, B, C, D, E, F, G, I, W.
    change (cursor_active (server i1)) with (cursor_active (server i) ⊟ 1).
    repeat split. rewrite u32_add_l. rewrite u32_small; lia.
Qed.
End Lines.

Section Status.
Context `{Environment} `{Allocator}.

(** The lines that say how a command went. *)
Definition status_lines : list (string * memcached_return_t) :=
  [("OK", MEMCACHED_SUCCESS); ("STAT", MEMCACHED_STAT); ("STORED", MEMCACHED_STORED);
   ("SASL_OK", MEMCACHED_SUCCESS); ("DELETED", MEMCACHED_DELETED);
   ("NOT_FOUND", MEMCACHED_NOTFOUND); ("NOT_STORED", MEMCACHED_NOTSTORED);
   ("NOT_SUPPORTED", MEMCACHED_NOT_SUPPORTED); ("UNREADABLE", MEMCACHED_UNREADABLE);
   ("END", MEMCACHED_END); ("EXISTS", MEMCACHED_DATA_EXISTS); ("ITEM", MEMCACHED_ITEM);
   ("TYPE_MISMATCH", MEMCACHED_TYPE_MISMATCH); ("TOUCHED", MEMCACHED_SUCCESS);
   ("AUTH_ERROR", MEMCACHED_AUTH_FAILURE); ("17", MEMCACHED_SUCCESS);
   ("HELLO", MEMCACHED_UNDEFINED_RESPONSE)]%string.

(** More lines follow these. *)
Definition more_follow (rc : memcached_return_t) : bool :=
  bool_decide (rc = MEMCACHED_STAT) || bool_decide (rc = MEMCACHED_ITEM).

Lemma first_match_long {A} buffer (cases : list (string * io A)) otherwise i :
  Forall (fun c => length (str c.1) <= length buffer)%nat cases ->
  first_match buffer cases otherwise i
  = match List.find (fun c => starts (str c.1) buffer) cases with
    | Some c => c.2 i
    | None => otherwise i
    end.
Proof.
  induction 1 as [|[name act] cases Hn _ IH]; [done|]. cbn [first_match fst List.find] in *.
  unfold mbind, io_bind. rewrite memcmp_eq_long by done. cbn [checked mret io_ret].
  by destruct (starts (str name) buffer).
Qed.

Lemma textual_response_status text rc n tail result i :
  In (text, rc) status_lines -> (14 <= length tail)%nat ->
  let buffer := str text ++ Byte.x0d :: Byte.x0a :: tail in
  textual_response buffer n result i
  = Done (rc, buffer, result)
      (if more_follow rc then i <| server ::= fun s => s <| cursor_active ::= fun n => n ⊞ 1 |> |>
       else i).
Proof.
  intros Hin Ht. unfold status_lines in Hin.
  repeat (destruct Hin as [[= <- <-]|Hin];
    [cbv zeta; unfold textual_response, mbind at 1, io_bind at 1; cbv beta zeta;
     match goal with |- context [str ?t ++ Byte.x0d :: _] =>
       let v := eval vm_compute in (str t) in change (str t) with v end;
     cbn [app lookup list_lookup checked mret io_ret];
     first [rewrite first_match_long;
       [ reflexivity
       | repeat (apply Forall_cons; split; [cbn; lia|]); by apply Forall_nil]
      | reflexivity ]|]).
  destruct Hin.
Qed.
End Status.

Section Root.
Context `{Environment} `{Allocator}.

Lemma into_root_done m rc buffer result i j :
  m (root_result i) i = Done (rc, buffer, result) j ->
  into_root m i = Done (rc, buffer) (j <| root_result := result |>).
Proof. intros E. unfold into_root. io_pure. by io_do E. Qed.
End Root.

Section Claims.
Context `{Environment} `{Allocator}.

(** C12: the response to a [get] is read back: for every key of the bytes that a
    key may have, every flags and every value that the buffers and the memory have
    room for, behind the namespace of the handle, the result has the key, the
    flags and the value, exactly the response is taken away from what comes in,
    and the connection, its errors and the number of awaited responses are as
    before. *)
Theorem read_one_response_value (key value : bytes) (item_flags' : Z) (buffer rest : bytes)
    (result : memcached_result_st) (i : instance) :
  connected i ->
  incoming i = value_response (memcached_array_string (_namespace (root i))) key value item_flags'
               ++ rest ->
  binary_protocol (flags (root i)) = false -> use_udp (flags (root i)) = false ->
  is_u32 (cursor_active (server i)) ->
  Forall (fun c => key_byte c = true) (memcached_array_string (_namespace (root i))) ->
  Forall (fun c => key_byte c = true) key -> 0 < Z.of_nat (length key) < MEMCACHED_MAX_KEY ->
  is_u32 item_flags' -> is_u32 (Z.of_nat (length value)) ->
  has_room result (Z.of_nat (length value) + 2) ->
  length (item_key result) = Z.to_nat MEMCACHED_MAX_KEY ->
  (length (value_line (memcached_array_string (_namespace (root i))) key value item_flags') + 1
   < length buffer)%nat ->
  exists buffer' result' i',
    memcached_read_one_response buffer result i = Done (MEMCACHED_SUCCESS, buffer', result') i'
    /\ memcached_result_key_value result' = Some key
    /\ memcached_result_value result' = value
    /\ memcached_result_flags result' = item_flags'
    /\ connected i' /\ incoming i' = rest /\ undisturbed i i'.
Proof.
  intros Hc Hin Hbin Hudp Hcur Hp Hk Hkl Hf Hl Hroom Hkey Hbuf.
  destruct (read_value_response _ key value item_flags' buffer result rest i Hc Hin Hbin Hudp eq_refl
              Hcur Hp Hk (proj2 Hkl) Hf Hl Hroom Hkey Hbuf)
    as (b' & r' & i' & Hdo & Hkv & Hkn & [Hv _] & Hfl & _ & Hi').
  exists b', r', i'. split; [exact Hdo|]. split; [|by split].
  unfold memcached_result_key_value. rewrite Hkn. rewrite (proj2 (Z.eqb_neq _ _)) by lia.
  by rewrite Nat2Z.id, Hkv.
Qed.

(** A line that gives a code and changes nothing, but for the count of responses. *)
Definition says (line : bytes) (rc : memcached_return_t) : Prop :=
  Byte.x0a ∉ line ++ [Byte.x0d] /\ out_of_step rc = false
  /\ forall tail n result i, (14 <= length tail)%nat ->
       textual_response (line ++ Byte.x0d :: Byte.x0a :: tail) n result i
       = Done (rc, line ++ Byte.x0d :: Byte.x0a :: tail, result)
           (if more_follow rc then i <| server ::= fun s => s <| cursor_active ::= fun n => n ⊞ 1 |> |>
            else i).

Lemma status_says text rc : In (text, rc) status_lines -> says (str text) rc.
Proof.
  intros Hin. split; [|split; [|intros; by apply textual_response_status]];
    unfold status_lines in Hin; repeat (destruct Hin as [[= <- <-]|Hin];
      [first [reflexivity | by apply (bool_decide_unpack (Byte.x0a ∉ _))]|]); destruct Hin.
Qed.

Lemma status_length text rc : In (text, rc) status_lines -> (length (str text) <= 13)%nat.
Proof.
  intros Hin. unfold status_lines in Hin.
  repeat (destruct Hin as [[= <- <-]|Hin]; [cbn; lia|]). destruct Hin.
Qed.

(** A number is the response to a command that counts. *)
Lemma number_says n : is_u64 n -> says (print_u64 n) MEMCACHED_SUCCESS.
Proof.
  intros Hn. destruct (print_u64_spec n Hn) as [Hd _]. destruct (print_u64_cons n) as (c & s & E).
  split; [|split; [done|]].
  - intros [Hi|Hi]%elem_of_app; [|by apply list_elem_of_singleton in Hi].
    rewrite Forall_forall in Hd. by apply Hd in Hi.
  - intros tail m result i _. cbn [more_follow].
    assert (Hs : scan_number (print_u64 n ++ Byte.x0d :: Byte.x0a :: tail)
                 = Some (false, print_u64 n, length (print_u64 n)))
      by (apply scan_digits; [done|by rewrite E|done]).
    pose proof (Forall_inv (eq_ind _ (Forall _) Hd _ E)) as Hc. cbn beta in Hc.
    unfold textual_response. rewrite E at 1. cbn [app lookup list_lookup checked]. io_pure.
    destruct c; try discriminate Hc; rewrite Hs, E; done.
Qed.

(** A line that gives a code is read, with all that it leaves alone. *)
Lemma read_said_line (line : bytes) (rc : memcached_return_t) (buffer rest : bytes)
    (result : memcached_result_st) (i : instance) :
  says line rc -> connected i -> incoming i = line ++ crlf ++ rest ->
  binary_protocol (flags (root i)) = false -> is_u32 (cursor_active (server i)) ->
  (length line + 16 <= length buffer)%nat ->
  exists tail i',
    memcached_read_one_response buffer result i = Done (rc, line ++ crlf ++ tail, result) i'
    /\ length (line ++ crlf ++ tail) = length buffer
    /\ connected i' /\ incoming i' = rest /\ errors i' = errors i
    /\ root i' = root i /\ here i' = here i
    /\ fd (server i') = fd (server i) /\ writing i' = writing i
    /\ cursor_active (server i')
       = (if more_follow rc then cursor_active (server i) else cursor_active (server i) ⊟ 1).
Proof.
  intros (Hnl & Hstep & Hsays) Hc Hinc Hbin Hcur Hbuf.
  set (i1 := i <| server ::= fun s => s <| cursor_active ::= fun n => n ⊟ 1 |> |>).
  destruct (counted (fun n => n ⊟ 1) i Hc) as (Hc1 & Hin1 & Hr1). fold i1 in Hc1, Hin1, Hr1.
  destruct (read_line buffer result (line ++ [Byte.x0d]) rest i1 Hc1)
    as (i2 & Hread & Hc2 & Hin2 & Hu2); [| exact Hnl | rewrite length_app; cbn; lia |].
  { rewrite Hin1, Hinc, <- app_assoc. done. }
  rewrite <- app_assoc in Hread. cbn [app] in Hread.
  rewrite Hsays in Hread by (rewrite length_drop, length_app; cbn; lia).
  eexists _, _. split; [|split].
  - unfold memcached_read_one_response, memcached_server_response_decrement, modify_server, modify.
    unfold mbind at 1, io_bind at 1. fold i1.
    unfold gets at 1, mbind at 1, io_bind at 1. unfold id.
    assert (Hbin1 : binary_protocol (flags (root i1)) = false) by exact Hbin. rewrite Hbin1.
    unfold mbind at 1, io_bind at 1. rewrite Hread, Hstep. reflexivity.
  - unfold crlf. rewrite length_app in *. cbn [app length] in *. rewrite length_drop, ?length_app. cbn. lia.
  - destruct Hu2 as (A & B & _ & Hh & F & _ & _ & I & W).
    change (errors i1) with (errors i) in B.
    change (cursor_active (server i1)) with (cursor_active (server i) ⊟ 1) in I.
    destruct (more_follow rc).
    + do 7 (split; [assumption|]).
      change (cursor_active (server i2) ⊞ 1 = cursor_active (server i)).
      rewrite I, u32_add_l, u32_small; lia.
    + do 7 (split; [assumption|]). exact I.
Qed.


(** A connection that was closed with [io_death]. *)
Definition closed (s : memcached_server_st) : Prop :=
  fd s = INVALID_SOCKET /\ read_buffer_length s = 0 /\ cursor_active s = 0.

Lemma mark_server_for_timeout_closed now root s malloc s' root' :
  memcached_mark_server_for_timeout now root s malloc = Some (s', root') -> closed s -> closed s'.
Proof.
  unfold memcached_mark_server_for_timeout. case_bool_decide; [|by intros [= <- <-]].
  match goal with |- context [set_last_disconnected_host ?r ?s ?c] => set (s1 := s) end.
  assert (Hs1 : closed s -> closed s1) by (unfold s1; clear s1; repeat case_match; done).
  clearbody s1. destruct (set_last_disconnected_host root s1 malloc); [|done].
  intros [= <- <-]. exact Hs1.
Qed.

Lemma quit_server_death_closes i u i' :
  quit_server_death i = Done u i' -> closed (server i').
Proof.
  unfold quit_server_death, memcached_quit_server, gets, mbind at 1, io_bind at 1, id.
  assert (Hclose : exists j, (if fd (server i) =? INVALID_SOCKET then mret tt
    else _ ← (if negb true && bool_decide (type (server i) <> MEMCACHED_CONNECTION_UDP)
                 && negb (is_shutting_down (server i))
              then
                _ ← modify_server (fun s => s <| is_shutting_down := true |>);
                _ ← mret tt;
                modify_server (fun s => s <| server_failure_counter := 0 |>)
              else mret tt);
         memcached_io_close) i = Done tt j /\ fd (server j) = INVALID_SOCKET).
  { destruct (fd (server i) =? INVALID_SOCKET) eqn:Ef.
    - exists i. split; [done|]. by apply Z.eqb_eq.
    - cbn [negb andb]. unfold mbind, io_bind. cbn [mret io_ret].
      unfold memcached_io_close, gets, mbind, io_bind. rewrite Ef. eexists. split; reflexivity. }
  destruct Hclose as (j & Hj & Hfd). unfold mbind at 1, io_bind at 1. rewrite Hj.
  unfold mbind at 1, io_bind at 1. unfold modify at 1.
  unfold mark_server_for_timeout, gets, mbind, io_bind, id.
  match goal with |- context [memcached_mark_server_for_timeout ?n ?r ?s ?m] =>
    destruct (memcached_mark_server_for_timeout n r s m) as [[s' r']|] eqn:Em end; [|done].
  cbn [checked mret io_ret]. intros [= _ <-].
  apply mark_server_for_timeout_closed in Em; [exact Em|]. by repeat split.
Qed.

(** The codes that leave open where the response of the server ends. *)
Definition unfinished_codes : list memcached_return_t :=
  [MEMCACHED_UNKNOWN_READ_FAILURE; MEMCACHED_PARTIAL_READ; MEMCACHED_PROTOCOL_ERROR;
   MEMCACHED_CLIENT_ERROR; MEMCACHED_SERVER_ERROR; MEMCACHED_MEMORY_ALLOCATION_FAILURE].

(** C14: whatever the server sends and whatever the buffer and the result held,
    after a code that leaves open where the response ends (a failed or partial
    read, a protocol, client or server error, or no memory for it), nothing more
    is read from the connection: the socket is closed, the read buffer is empty
    and no response is awaited. *)
Theorem read_one_response_out_of_step (buffer : bytes) (result : memcached_result_st)
    (i : instance) (rc : memcached_return_t) (buffer' : bytes) (result' : memcached_result_st)
    (i' : instance) :
  memcached_read_one_response buffer result i = Done (rc, buffer', result') i' ->
  In rc unfinished_codes -> closed (server i').
Proof.
  unfold memcached_read_one_response, memcached_server_response_decrement, modify_server, modify.
  unfold mbind at 1, io_bind at 1. unfold gets at 1, mbind at 1, io_bind at 1. unfold id.
  unfold mbind at 1, io_bind at 1.
  match goal with |- context [(if ?b then _ else _) ?j] => set (read := if b then _ else _);
    destruct (read j) as [[[rc1 b1] r1] j1| |] end; [|done..].
  destruct (out_of_step rc1) eqn:Eo.
  - unfold mbind at 1, io_bind at 1. 
    match goal with |- context [match ?m j1 with _ => _ end] => destruct (m j1) as [u j2| |] end;
      [|done..].
    unfold mbind, io_bind, memcached_io_reset.
    destruct (quit_server_death j2) as [u2 j3| |] eqn:Eq; [|done..].
    cbn [mret io_ret]. intros [= <- <- <- <-] _. by eapply quit_server_death_closes.
  - cbn [mret io_ret]. intros [= <- <- <- <-] Ho.
    repeat (destruct Ho as [<-|Ho]; [discriminate Eo|]). destruct Ho.
Qed.
End Claims.

(** ** Concrete responses *)

#[local] Existing Instance some_environment.

Definition empty_buffer : bytes := replicate 64 Byte.x00.

(** A connection on which a response comes in, in the binary protocol or not. *)
Definition answered (binary : bool) (s : bytes) : instance :=
  let i := connection [Received s] [] in
  i <| root ::= fun r => r <| flags ::= fun f => f <| binary_protocol := binary |> |> |>.

(** [keylen], [extlen], [status] and the body of a response, and its command. *)
Definition binary_response (opcode keylen extlen status : Z) (body : bytes) : bytes :=
  [Byte.x81; byte_of_Z opcode] ++ rev (to_le 2 keylen) ++ [byte_of_Z extlen; Byte.x00]
  ++ rev (to_le 2 status) ++ rev (to_le 4 (Z.of_nat (length body))) ++ replicate 12 Byte.x00 ++ body.

Lemma answered_connected binary s : connected (answered binary s).
Proof. exact (connection_connected [Received s] []). Qed.

Lemma read_one_response_value_witness :
  exists buffer' result' i',
    memcached_read_one_response empty_buffer empty_result
      (answered false (value_response [] (str "key") (str "abc") 5 ++ str "END"))
    = Done (MEMCACHED_SUCCESS, buffer', result') i'
    /\ memcached_result_key_value result' = Some (str "key")
    /\ memcached_result_value result' = str "abc"
    /\ memcached_result_flags result' = 5
    /\ connected i' /\ incoming i' = str "END"
    /\ undisturbed (answered false (value_response [] (str "key") (str "abc") 5 ++ str "END")) i'.
Proof.
  refine (read_one_response_value (str "key") (str "abc") 5 empty_buffer (str "END") empty_result
            (answered false (value_response [] (str "key") (str "abc") 5 ++ str "END"))
            _ _ _ _ _ _ _ _ _ _ _ _ _).
  - apply answered_connected.
  - vm_compute. reflexivity.
  - reflexivity.
  - reflexivity.
  - cbn. lia.
  - apply Forall_nil. exact I.
  - repeat (apply Forall_cons; split; [reflexivity|]). apply Forall_nil. exact I.
  - vm_compute. split; reflexivity.
  - lia.
  - cbn. lia.
  - split; [split; cbn; lia | vm_compute; reflexivity].
  - vm_compute. reflexivity.
  - vm_compute. lia.
Defined.


Lemma read_one_response_out_of_step_witness :
  match memcached_read_one_response empty_buffer empty_result
          (answered false (str "ERROR no such command" ++ crlf ++ str "OK")) with
  | Done (rc, _, _) i' => rc = MEMCACHED_PROTOCOL_ERROR /\ closed (server i')
  | _ => False
  end.
Proof.
  destruct (memcached_read_one_response empty_buffer empty_result
              (answered false (str "ERROR no such command" ++ crlf ++ str "OK")))
    as [[[rc b] r] i'| |] eqn:E.
  - assert (Hrc : rc = MEMCACHED_PROTOCOL_ERROR).
    { apply (f_equal (fun x => match x with Done (rc, _, _) _ => Some rc | _ => None end)) in E.
      vm_compute in E. injection E as <-. reflexivity. }
    split; [exact Hrc|]. refine (read_one_response_out_of_step _ _ _ rc b r i' E _).
    rewrite Hrc. right; right; left. reflexivity.
  - exfalso. apply (f_equal (fun x => match x with Done _ _ => true | _ => false end)) in E.
    vm_compute in E. discriminate E.
  - exfalso. apply (f_equal (fun x => match x with Done _ _ => true | _ => false end)) in E.
    vm_compute in E. discriminate E.
Defined.

(** ** What modelling showed *)

Definition crashes (buffer s : bytes) (binary : bool) : Prop :=
  memcached_read_one_response buffer empty_result (answered binary s) = Crash.

(** The length of a value is increased by two for its end of line without a
    check: with the greatest one, the NULs are written in front of the value. *)
Lemma value_length_wraps :
  crashes empty_buffer (str "VALUE key 0 18446744073709551615" ++ crlf ++ str "abc") false.
Proof. vm_compute. reflexivity. Qed.

(** [SASL_MECH] without a list moves the NUL in front of the buffer, and with a
    long list the move reads behind it. *)
Lemma sasl_mech_out_of_bounds :
  crashes empty_buffer (str "SASL_MECH" ++ [Byte.x0a]) false
  /\ crashes (replicate 32 Byte.x00) (str "SASL_MECH PLAIN CRAM-MD5" ++ crlf) false.
Proof. vm_compute. by split. Qed.

(** A version is looked for behind a space that is not there. *)
Lemma version_without_space : crashes empty_buffer (str "VERSION" ++ crlf) false.
Proof. vm_compute. reflexivity. Qed.

(** In the binary protocol a version of more than 32 bytes is written behind its
    buffer. *)
Lemma binary_version_overflow :
  crashes empty_buffer (binary_response 0x0b 0 0 0 (replicate 33 Byte.x31)) true.
Proof. vm_compute. reflexivity. Qed.

(** The server is said to be an enterprise one by what the buffer held behind
    the line. *)
Lemma enterprise_by_stale_bytes :
  match memcached_read_one_response (replicate 40 Byte.x45 ++ [Byte.x00]) empty_result
          (answered false (str "VERSION 1.8.3" ++ crlf)) with
  | Done (rc, _, _) i' => rc = MEMCACHED_SUCCESS /\ is_enterprise (server i') = true
  | _ => False
  end.
Proof. vm_compute. by split. Qed.

(** The error of a version that cannot be parsed is overwritten by success. *)
Lemma binary_version_error_lost :
  match memcached_read_one_response empty_buffer empty_result
          (answered true (binary_response 0x0b 0 0 0 (str "999.1.1"))) with
  | Done (rc, _, _) i' => rc = MEMCACHED_SUCCESS /\ root_errors (errors i') <> []
  | _ => False
  end.
Proof. vm_compute. by split. Qed.

(** A line that ends behind the key is read on in what the buffer held before. *)
Lemma value_line_read_on :
  match memcached_read_one_response
          (replicate 11 Byte.x00 ++ str "7 2" ++ crlf ++ replicate 32 Byte.x00) empty_result
          (answered false (str "VALUE key" ++ crlf ++ str "ab" ++ crlf)) with
  | Done (rc, _, r) _ => rc = MEMCACHED_SUCCESS /\ memcached_result_value r = str "ab"
  | _ => False
  end.
Proof. vm_compute. by split. Qed.
