(* ===== verification/Write.v ===== *)
(** Writing to a server: the output side of io.cc, purge.cc, do.cc, and what
    quit.cc says before it closes a connection.

    [memcached_io_write], [io_flush], [io_wait] and [memcached_purge] call each
    other; the flag that the handle is being purged ends that, so that a purge calls
    one that does nothing, which is how the recursion is cut here. *)
From Stdlib Require Import Strings.Byte.
From S2P Require Import Prelude HashFunctions Hashkit Memcached Text KeyHash ServerList.
From S2P Require Import Error StringBuf Result Io Response.

Definition ENOBUFS : Z := 105.
Definition MAX_UDP_DATAGRAM_LENGTH : Z := 1400.

(** What an array on the stack of [n] bytes and a result on it hold before they are
    written, the callbacks of the handle, and what [memcached_connect] does when
    there is no connection. *)
Class Stack `{Environment} := {
  stack_bytes : nat -> bytes;
  stack_bytes_length : forall n, length (stack_bytes n) = n;
  stack_result : memcached_result_st;
  callbacks : option (list (memcached_result_st -> io memcached_return_t));
  open_connection : io memcached_return_t;
}.

Section Writing.
Context `{HE : Environment} `{Allocator} `{!Stack}.

(** ** Sending *)

(** [send] of [data]: how many bytes were taken.  What a [Sent] has room for is
    used up by one call or several. *)
Definition send (data : bytes) : io send_result :=
  events ← gets sends;
  match events with
  | [] => blocked
  | Send_error e :: events =>
      _ ← modify (fun i => i <| sends := events |> <| errno := e |>);
      mret (Send_error e)
  | Sent n :: events =>
      let rest := (n - length data)%nat in
      let data := take n data in
      _ ← modify (fun i =>
        i <| sends := match rest with O => events | _ => Sent rest :: events end |>
          <| sent ::= fun s => s ++ data |>);
      mret (Sent (length data))
  end.

(** The request id at the front of the write buffer. *)
Definition increment_message_id : io unit :=
  modify (fun i => i <| write_buffer ::= fun b =>
    match b with
    | hi :: lo :: rest =>
        let id := increment_udp_message_id (uchar hi * 256 + uchar lo) in
        byte_of_Z (Z.shiftr id 8) :: byte_of_Z id :: rest
    | _ => b
    end |>).

(** The part of [repack_input_buffer] that makes room in the read buffer. *)
Definition move_to_front : io unit :=
  i ← gets id;
  if bool_decide (read_ptr (server i) = Some (here i)) then mret tt
  else
    off ← checked (read_offset i);
    let n := Z.to_nat (read_buffer_length (server i)) in
    if negb (off + n <=? length (read_buffer i))%nat then crash
    else modify (fun i =>
      i <| read_buffer ::= fun b => store b 0 (take n (drop off b)) |>
        <| server ::= fun s => s <| read_ptr := Some (here i) |>
                                 <| read_data_length := read_buffer_length s |> |>).

(** Whether something was read. *)
Definition repack_input_buffer : io bool :=
  _ ← move_to_front;
  s ← gets server;
  if read_buffer_length s =? Z.of_nat MEMCACHED_MAX_BUFFER then mret false
  else
    let at_ := Z.to_nat (read_data_length s) in
    r ← recv (MEMCACHED_MAX_BUFFER - at_);
    match r with
    | Recv_error e =>
        if (e =? EINTR) || (e =? EAGAIN) || (e =? ERESTART) then mret false
        else
          _ ← set_errno e (memcached_at "io.cc" 134);
          mret false
    | Received [] =>
        _ ← set_error MEMCACHED_CONNECTION_FAILURE (memcached_at "io.cc" 141) None;
        mret false
    | Received data =>
        _ ← modify (fun i =>
          i <| read_buffer ::= fun b => store b at_ data |>
            <| server ::= fun s => s <| read_data_length ::= fun n => n + Z.of_nat (length data) |>
                                     <| read_buffer_length ::= fun n => n + Z.of_nat (length data) |> |>);
        mret true
    end.

(** The callbacks, until one of them fails. *)
Fixpoint run_callbacks (l : list (memcached_result_st -> io memcached_return_t))
    (result : memcached_result_st) : io unit :=
  match l with
  | [] => mret tt
  | callback :: l =>
      error ← callback result;
      if bool_decide (error <> MEMCACHED_SUCCESS) then mret tt else run_callbacks l result
  end.

(** Whether a response was processed. *)
Definition process_input_buffer : io bool :=
  i ← gets id;
  match callbacks with
  | Some cb =>
      if use_udp (flags (root i)) then mret false
      else
        '(error, _) ← memcached_response_to_root true (mret tt)
          (stack_bytes (Z.to_nat MEMCACHED_DEFAULT_COMMAND_SIZE));
        result ← gets root_result;
        _ ← (if bool_decide (error = MEMCACHED_SUCCESS) then run_callbacks cb result else mret tt);
        mret true
  | None => mret false
  end.

Definition is_udp (i : instance) : bool := bool_decide (type (server i) = MEMCACHED_CONNECTION_UDP).

(** What the loop of [io_flush] sends is read from the buffer at the time. *)
Definition unsent (at_ n : nat) : io bytes :=
  i ← gets id;
  if negb (at_ + n <=? length (write_buffer i))%nat then crash
  else mret (take n (drop at_ (write_buffer i))).

(** The loop of [io_flush]; every round takes one outcome of [send].  The result is
    [None] for -1, and the error. *)
Fixpoint flush_loop (fuel : nat) (purge : io memcached_return_t) (at_ write_length return_length : nat)
    : io (option nat * option memcached_return_t) :=
  match write_length with
  | O =>
      _ ← modify (fun i => i <| server ::= fun s =>
            s <| write_buffer_offset := if is_udp i then UDP_DATAGRAM_HEADER_LENGTH else 0 |> |>);
      mret (Some return_length, Some MEMCACHED_SUCCESS)
  | S _ =>
      match fuel with
      | O => blocked
      | S fuel =>
          udp ← gets is_udp;
          _ ← (if udp : bool then increment_message_id else mret tt);
          data ← unsent at_ write_length;
          r ← send data;
          match r with
          | Send_error e =>
              _ ← set_errno e (memcached_at "io.cc" 374);
              if e =? ENOBUFS then flush_loop fuel purge at_ write_length return_length
              else if e =? EAGAIN then
                repacked ← repack_input_buffer;
                again ← (if repacked : bool then mret true else process_input_buffer);
                if again : bool then flush_loop fuel purge at_ write_length return_length
                else
                  rc ← io_wait purge true;
                  if memcached_success rc
                  then flush_loop fuel purge at_ write_length return_length
                  else
                    _ ← quit_server_death;
                    errno ← gets errno;
                    error ← (if bool_decide (rc = MEMCACHED_TIMEOUT)
                             then set_error MEMCACHED_TIMEOUT (memcached_at "io.cc" 409) None
                             else set_errno errno (memcached_at "io.cc" 413));
                    mret (None, Some error)
              else
                _ ← quit_server_death;
                errno ← gets errno;
                error ← set_errno errno (memcached_at "io.cc" 421);
                mret (None, Some error)
          | Sent n =>
              if udp && negb (n =? write_length)%nat then
                _ ← quit_server_death;
                error ← set_error MEMCACHED_WRITE_FAILURE (memcached_at "io.cc" 431) None;
                mret (None, Some error)
              else
                _ ← modify_server (fun s => s <| io_bytes_sent ::= fun b => b ⊞ u32 (Z.of_nat n) |>);
                flush_loop fuel purge (at_ + n) (write_length - n) (return_length + n)
          end
      end
  end.

Definition io_flush (purge : io memcached_return_t) : io (option nat * option memcached_return_t) :=
  rc ← purge;
  if negb (bool_decide (rc = MEMCACHED_SUCCESS) || bool_decide (rc = MEMCACHED_STORED))
  then mret (None, None)
  else
    i ← gets id;
    let write_length := write_buffer_offset (server i) in
    if is_udp i && (write_length >? MAX_UDP_DATAGRAM_LENGTH)
    then mret (None, Some MEMCACHED_WRITE_FAILURE)
    else if (write_length =? 0) || is_udp i && (write_length =? UDP_DATAGRAM_HEADER_LENGTH)
    then mret (Some 0%nat, Some MEMCACHED_SUCCESS)
    else flush_loop (S (length (sends i))) purge 0 (Z.to_nat write_length) 0.

(** ** Writing *)

(** [memcpy] to the end of the write buffer. *)
Definition put (data : bytes) : io unit :=
  i ← gets id;
  let off := write_buffer_offset (server i) in
  if negb (off + Z.of_nat (length data) <=? Z.of_nat (length (write_buffer i))) then crash
  else modify (fun i =>
    i <| write_buffer ::= fun b => store b (Z.to_nat off) data |>
      <| server ::= fun s => s <| write_buffer_offset := off + Z.of_nat (length data) |> |>).

(** A round: [data] into the buffer, which is flushed when it is full; whether that
    failed. *)
Definition write_round (purge : io memcached_return_t) (data : bytes) : io bool :=
  _ ← put data;
  s ← gets server;
  if write_buffer_offset s =? Z.of_nat MEMCACHED_MAX_BUFFER then
    '(r, _) ← io_flush purge;
    mret (bool_decide (r = None))
  else mret false.

(** The loop of [_io_write]; a round writes a byte at least, unless the buffer is
    full before the first one.  The result is whether it went well. *)
Fixpoint io_write_loop (fuel : nat) (purge : io memcached_return_t) (buffer : bytes) : io bool :=
  match buffer with
  | [] => mret true
  | _ :: _ =>
      match fuel with
      | O => blocked
      | S fuel =>
          i ← gets id;
          let off := write_buffer_offset (server i) in
          if is_udp i then
            if off + Z.of_nat (length buffer) >? MAX_UDP_DATAGRAM_LENGTH then mret false
            else _ ← put buffer; mret true
          else
            let room := u64 (Z.of_nat MEMCACHED_MAX_BUFFER - off) in
            let should_write :=
              if room <? Z.of_nat (length buffer) then Z.to_nat room else length buffer in
            failed ← write_round purge (take should_write buffer);
            if failed : bool then mret false
            else io_write_loop fuel purge (drop should_write buffer)
      end
  end.

(** [None] is -1. *)
Definition _io_write (purge : io memcached_return_t) (buffer : bytes) (with_flush : bool)
    : io (option nat) :=
  ok ← io_write_loop (S (length buffer)) purge buffer;
  if negb ok then mret None
  else if with_flush then
    '(r, _) ← io_flush purge;
    mret (match r with Some _ => Some (length buffer) | None => None end)
  else mret (Some (length buffer)).

(** ** Purging *)

(** Whether the responses that are awaited must be read before more is sent. *)
Definition purge_due (i : instance) : bool :=
  let r := root i in
  let count := cursor_active (server i) in
  let bytes_sent := io_bytes_sent (server i) in
  negb (is_purging r || multi_store (flags r)
        || (count <? io_msg_watermark r) && (bytes_sent <? io_bytes_watermark r)
        || (io_bytes_watermark r <=? bytes_sent) && (count <? 2)).

(** The loop over the responses; the code so far. *)
Fixpoint purge_loop (n : nat) (ret : memcached_return_t) (buffer : bytes)
    (result : memcached_result_st) : io memcached_return_t :=
  match n with
  | O => mret ret
  | S n =>
      '(rc, buffer, result) ← memcached_read_one_response buffer (memcached_result_reset result);
      ret ← (if bool_decide (rc = MEMCACHED_PROTOCOL_ERROR)
                || bool_decide (rc = MEMCACHED_UNKNOWN_READ_FAILURE)
             then _ ← set_error rc (memcached_at "purge.cc" 66) None; mret rc
             else mret ret);
      _ ← (match callbacks with
           | Some cb => if bool_decide (rc = MEMCACHED_SUCCESS) then run_callbacks cb result
                        else mret tt
           | None => mret tt
           end);
      purge_loop n ret buffer result
  end.

Definition set_purging (b : bool) : io unit :=
  modify (fun i => i <| root ::= fun r => r <| is_purging := b |> |>).
Definition set_poll_timeout (n : Z) : io unit :=
  modify (fun i => i <| root ::= fun r => r <| poll_timeout := n |> |>).

(** [memcached_purge]; [inner] is what the writing in it calls. *)
Definition purge_with (inner : io memcached_return_t) : io memcached_return_t :=
  due ← gets purge_due;
  if negb due then mret MEMCACHED_SUCCESS
  else
    _ ← set_purging true;
    r ← _io_write inner [] true;
    match r with
    | None =>
        _ ← set_purging false;
        set_error MEMCACHED_WRITE_FAILURE (memcached_at "purge.cc" 29) None
    | Some _ =>
        i ← gets id;
        let no_msg := cursor_active (server i) ⊟ 1 in
        ret ← (if no_msg >? 0 then
                 let timeo := poll_timeout (root i) in
                 _ ← set_poll_timeout 2000;
                 result ← checked (memcached_result_create (Some stack_result) false);
                 ret ← purge_loop (Z.to_nat no_msg) MEMCACHED_SUCCESS
                         (stack_bytes (Z.to_nat SMALL_STRING_LEN)) result;
                 _ ← set_poll_timeout timeo;
                 mret ret
               else mret MEMCACHED_SUCCESS);
        _ ← set_purging false;
        mret ret
    end.

Definition memcached_purge : io memcached_return_t := purge_with (purge_with crash).

Definition memcached_io_write (buffer : bytes) (with_flush : bool) : io (option nat) :=
  _io_write memcached_purge buffer with_flush.

Definition memcached_io_wait_for_write : io memcached_return_t := io_wait memcached_purge true.

Fixpoint writev_loop (vector : list bytes) (total : nat) : io (option nat) :=
  match vector with
  | [] => mret (Some total)
  | buffer :: vector =>
      returnable ← memcached_io_write buffer false;
      match returnable with
      | None => mret None
      | Some n => writev_loop vector (total + n)
      end
  end.

Definition memcached_io_writev (vector : list bytes) (with_flush : bool) : io (option nat) :=
  total ← writev_loop vector 0;
  match total with
  | None => mret None
  | Some n =>
      if with_flush then
        r ← memcached_io_write [] true;
        mret (match r with Some _ => Some n | None => None end)
      else mret (Some n)
  end.

(** ** Commands *)

(** [memcached_connect]; [open_connection] is what it does when there is no
    connection yet. *)
Definition memcached_connect : io memcached_return_t :=
  fd ← gets (fun i => fd (server i));
  if negb (fd =? INVALID_SOCKET) then mret MEMCACHED_SUCCESS else open_connection.

(** What the two ways of sending a command do first to a datagram that was begun. *)
Definition clear_datagram (with_flush : bool) : io unit :=
  i ← gets id;
  if is_udp i && with_flush && (write_buffer_offset (server i) >? UDP_DATAGRAM_HEADER_LENGTH)
  then _ ← memcached_io_write [] true; mret tt
  else mret tt.

Definition memcached_do (command : bytes) (with_flush : bool) : io memcached_return_t :=
  rc ← memcached_connect;
  if memcached_failed rc then mret rc
  else
    _ ← clear_datagram with_flush;
    sent_length ← memcached_io_write command with_flush;
    if bool_decide (sent_length <> Some (length command)) then
      _ ← memcached_io_reset;
      mret MEMCACHED_WRITE_FAILURE
    else
      f ← gets (fun i => flags (root i));
      _ ← (if no_reply f then mret tt else memcached_server_response_increment);
      mret rc.

Definition memcached_vdo (vector : list bytes) (with_flush : bool) : io memcached_return_t :=
  rc ← memcached_connect;
  if memcached_failed rc then mret rc
  else
    _ ← clear_datagram with_flush;
    sent_length ← memcached_io_writev vector with_flush;
    if bool_decide (sent_length <> Some (length (mjoin vector))) then
      _ ← memcached_io_reset;
      mret MEMCACHED_WRITE_FAILURE
    else
      f ← gets (fun i => flags (root i));
      _ ← (if negb (no_reply f) && negb (piped f) then memcached_server_response_increment
           else mret tt);
      mret (if with_flush then rc else MEMCACHED_BUFFERED).

(** ** Closing a connection *)

(** The loop around [memcached_io_slurp]; every round takes an outcome of [recv]. *)
Fixpoint slurp_all (fuel : nat) : io unit :=
  match fuel with
  | O => blocked
  | S fuel =>
      rc ← memcached_io_slurp;
      if memcached_continue rc then slurp_all fuel else mret tt
  end.

(** [protocol_binary_request_quit]: the header alone. *)
Definition quit_request : bytes := byte_of_Z 128 :: byte_of_Z 7 :: replicate 22 Byte.x00.

Definition say_goodbye : io unit :=
  f ← gets (fun i => flags (root i));
  _ ← memcached_do (if binary_protocol f then quit_request else str "quit" ++ crlf) true;
  r ← gets root;
  if buffer_requests (flags r) || negb (number_of_replicas r =? 0)
  then events ← gets recvs; slurp_all (S (length events))
  else mret tt.

(** [memcached_quit_server(ptr, io_death)]. *)
Definition quit_server (io_death : bool) : io unit := memcached_quit_server say_goodbye io_death.
End Writing.

(** ** What is written arrives *)

(** What was written: what the server was sent and what is in the buffer. *)
Definition filling (i : instance) : nat := Z.to_nat (write_buffer_offset (server i)).
Definition unflushed (i : instance) : bytes := take (filling i) (write_buffer i).
Definition written (i : instance) : bytes := sent i ++ unflushed i.

(** The connection is open, to a stream, with room in its buffers. *)
Definition writable (i : instance) : Prop :=
  fd (server i) <> INVALID_SOCKET /\ is_udp i = false
  /\ length (write_buffer i) = MEMCACHED_MAX_BUFFER
  /\ 0 <= write_buffer_offset (server i) <= Z.of_nat MEMCACHED_MAX_BUFFER
  /\ connected i /\ read_buffer_length (server i) < Z.of_nat MEMCACHED_MAX_BUFFER.

(** No purge is due, however much is sent. *)
Definition quiet (i : instance) : Prop :=
  is_purging (root i) = true \/ multi_store (flags (root i)) = true
  \/ cursor_active (server i) < 2 /\ cursor_active (server i) < io_msg_watermark (root i).

(** The network takes [n] bytes, in pieces, when it is waited for; meanwhile nothing
    comes in. *)
Fixpoint taking (n : nat) (timeout : Z) (ss : list send_result) (rs : list recv_result)
    (ps : list poll_result) : bool :=
  match n, ss with
  | O, _ => true
  | _, [] => false
  | _, Sent k :: ss => (n <=? k)%nat || taking (n - k) timeout ss rs ps
  | _, Send_error e :: ss =>
      if e =? ENOBUFS then taking n timeout ss rs ps
      else
        match rs, poll_ready 4 ps with
        | Recv_error e' :: rs, Some ps =>
            (e =? EAGAIN) && (e' =? EAGAIN) && negb (timeout =? 0) && taking n timeout ss rs ps
        | _, _ => false
        end
  end.

Definition takes (n : nat) (i : instance) : Prop :=
  taking n (poll_timeout (root i)) (sends i) (recvs i) (polls i) = true.

(** What is set from outside about a server. *)
Definition settings (s : memcached_server_st) : bytes * bool := (hostname s, send_failed s).

(** What writing leaves alone. *)
Definition unread (i i' : instance) : Prop :=
  root i' = root i /\ incoming i' = incoming i /\ closing i' = closing i /\ here i' = here i
  /\ fd (server i') = fd (server i) /\ cursor_active (server i') = cursor_active (server i)
  /\ settings (server i') = settings (server i) /\ root_result i' = root_result i.

#[global] Instance unread_preorder : PreOrder unread.
Proof.
  split; [by intros i | intros i j k (A & B & C & D & E & F & G & I) (A' & B' & C' & D' & E' & F' & G' & I')].
  unfold unread; intuition congruence.
Qed.

Section Delivery.
Context `{HE : Environment} `{Allocator} `{!Stack}.

Lemma purge_quiet inner i : quiet i -> purge_with inner i = Done MEMCACHED_SUCCESS i.
Proof.
  intros Hq. unfold purge_with, gets, mbind, io_bind.
  assert (purge_due i = false) as ->; [|done].
  unfold purge_due. destruct Hq as [->|[->|[H2 Hw]]]; [done|by rewrite orb_true_r|].
  rewrite (proj2 (Z.ltb_lt _ _) Hw), (proj2 (Z.ltb_lt _ _) H2). cbn [andb].
  rewrite andb_true_r, Z.leb_antisym.
  destruct (is_purging _), (multi_store _), (io_bytes_sent _ <? _); done.
Qed.

Lemma taking_le n m t ss : forall rs ps,
  (m <= n)%nat -> taking n t ss rs ps = true -> taking m t ss rs ps = true.
Proof.
  revert n m. induction ss as [|s ss IH]; intros n m rs ps Hle; destruct m as [|m]; [done| |done|];
    (destruct n as [|n]; [lia|]); cbn [taking]; [done|].
  destruct s as [k|e].
  - rewrite !orb_true_iff, !Nat.leb_le. intros [?|Ht]; [left; lia|]. right.
    by apply (IH (S n - k)%nat); [lia|].
  - destruct (e =? ENOBUFS); [by apply IH|].
    destruct rs as [|[|e'] rs]; [done..|]. destruct (poll_ready 4 ps); [|done].
    rewrite !andb_true_iff. intros [? Ht]. split; [done|]. by apply (IH (S n)).
Qed.

Lemma set_errno_done n at_ i :
  exists rc errs, set_errno n at_ i = Done rc (i <| errors := errs |>).
Proof.
  unfold set_errno, gets, modify, mbind, io_bind, id.
  destruct (memcached_server_set_errno _ _ _ _ _ _ _ _ _ _ _) as [rc errs]. by exists rc, errs.
Qed.

(** What nothing but the network changes. *)
Lemma connected_same i i' :
  server i' = server i -> here i' = here i -> read_buffer i' = read_buffer i ->
  connected i -> connected i' /\ buffered i' = buffered i.
Proof.
  intros E1 E2 E3 Hc. unfold connected, buffered, read_offset in *. by rewrite E1, E2, E3.
Qed.

(** The read buffer is moved to its beginning. *)
Definition repacked (i : instance) : instance :=
  i <| read_buffer ::= fun b => store b 0 (buffered i) |>
    <| server ::= fun s => s <| read_ptr := Some (here i) |>
                             <| read_data_length := read_buffer_length s |> |>.

Lemma store_front_length b data : (length data <= length b)%nat -> length (store b 0 data) = length b.
Proof. intros Hl. unfold store. rewrite !length_app, length_drop, take_0. cbn. lia. Qed.

Lemma repacked_connected i : connected i -> connected (repacked i) /\ buffered (repacked i) = buffered i.
Proof.
  intros Hc. pose proof (buffered_length i Hc) as Hlen.
  destruct Hc as (Hfd & Hz & Hb & Hl & off & Hoff & Hle).
  assert (Hoff' : read_offset (repacked i) = Some 0%nat).
  { unfold read_offset, repacked. cbn. rewrite bool_decide_true by done. cbn. by rewrite Hz. }
  split.
  - split; [done|]. split; [done|]. split; [|split; [done|]].
    + unfold repacked. cbn. rewrite store_front_length; lia.
    + exists 0%nat. split; [done|]. cbn. lia.
  - unfold buffered at 1. rewrite Hoff'. unfold repacked. cbn [server read_buffer update read_buffer_length].
    rewrite drop_0. rewrite store_front. cbn.
    replace (Z.to_nat (read_buffer_length (server i))) with (length (buffered i)) by lia.
    by rewrite take_app_length.
Qed.

(** The same for the reader and the writer, but for what the network does next. *)
Record same_buffers (i i' : instance) : Prop := {
  sb_root : root i' = root i;
  sb_here : here i' = here i;
  sb_write : write_buffer i' = write_buffer i;
  sb_sent : sent i' = sent i;
  sb_result : root_result i' = root_result i;
  sb_fd : fd (server i') = fd (server i);
  sb_type : type (server i') = type (server i);
  sb_settings : settings (server i') = settings (server i);
  sb_cursor : cursor_active (server i') = cursor_active (server i);
  sb_offset : write_buffer_offset (server i') = write_buffer_offset (server i);
  sb_length : read_buffer_length (server i') = read_buffer_length (server i);
  sb_connected : connected i -> connected i' /\ buffered i' = buffered i;
}.

Lemma same_buffers_trans i j k : same_buffers i j -> same_buffers j k -> same_buffers i k.
Proof.
  intros [] []. split; try congruence. intros Hc. destruct sb_connected0 as [Hj Ej]; [done|].
  destruct sb_connected1 as [Hk Ek]; [done|]. split; [done|congruence].
Qed.

Lemma same_buffers_writable i i' : same_buffers i i' -> writable i -> writable i'.
Proof.
  intros [] (H1 & H2 & H3 & H4 & H5 & H6). unfold writable, is_udp in *.
  destruct sb_connected0 as [Hc _]; [done|].
  rewrite sb_fd0, sb_type0, sb_write0, sb_offset0, sb_length0.
  do 5 (split; [assumption|]). assumption.
Qed.

Lemma repacked_same i : connected i -> same_buffers i (repacked i).
Proof. intros Hc. split; try done. intros _. by apply repacked_connected. Qed.

Lemma move_to_front_same i :
  connected i ->
  exists j, move_to_front i = Done tt j /\ same_buffers i j /\ sends j = sends i
    /\ recvs j = recvs i /\ polls j = polls i.
Proof.
  intros Hc. unfold move_to_front. unfold gets at 1, mbind at 1, io_bind at 1, id.
  case_bool_decide.
  - exists i. split; [done|]. split; [split; done|]. done.
  - exists (repacked i). pose proof (repacked_same i Hc) as Hs. split; [|by split].
    destruct Hc as (_ & _ & Hb & _ & off & Hoff & Hle). rewrite Hoff. cbn [checked].
    unfold mbind, io_bind, mret, io_ret. rewrite (proj2 (Nat.leb_le _ _)) by lia. cbn [negb].
    unfold modify, repacked, buffered. by rewrite Hoff.
Qed.

(** Nothing comes in when the read buffer is filled while writing waits. *)
Lemma repack_again i rs :
  connected i -> read_buffer_length (server i) < Z.of_nat MEMCACHED_MAX_BUFFER ->
  recvs i = Recv_error EAGAIN :: rs ->
  exists i', repack_input_buffer i = Done false i' /\ same_buffers i i'
    /\ sends i' = sends i /\ recvs i' = rs /\ polls i' = polls i.
Proof.
  intros Hc Hlt Hr. unfold repack_input_buffer.
  destruct (move_to_front_same i Hc) as (j & Hdo & Hj & Es & Er & Ep).
  unfold mbind at 1, io_bind at 1. rewrite Hdo.
  unfold gets at 1, mbind at 1, io_bind at 1. rewrite (sb_length _ _ Hj).
  rewrite (proj2 (Z.eqb_neq _ _)) by lia.
  eexists. unfold recv, gets, modify, mbind, io_bind, mret, io_ret. rewrite Er, Hr. cbn.
  split; [done|]. split; [|done]. destruct Hj. by split.
Qed.

(** After writing: [data] was sent, nothing is left in the buffer, and the network
    takes [m] bytes more. *)
Record delivered (data : bytes) (m : nat) (i i' : instance) : Prop := {
  del_writable : writable i';
  del_unread : unread i i';
  del_takes : takes m i';
  del_sent : sent i' = sent i ++ data;
  del_offset : write_buffer_offset (server i') = 0;
}.

Lemma quiet_unread i i' : unread i i' -> quiet i -> quiet i'.
Proof. intros (E & _ & _ & _ & _ & Ec & _). unfold quiet. by rewrite E, Ec. Qed.

Lemma flush_end fuel purge at_ ret m i :
  writable i -> takes m i ->
  exists i', flush_loop fuel purge at_ 0 ret i = Done (Some ret, Some MEMCACHED_SUCCESS) i'
    /\ delivered [] m i i'.
Proof.
  intros Hw Ht. pose proof Hw as (H1 & H2 & H3 & H4 & H5 & H6).
  eexists. split; [destruct fuel; reflexivity|].
  change (is_udp _) with (is_udp i). rewrite H2.
  split; [|done|done|by rewrite app_nil_r|done].
  split; [done|]. split; [done|]. split; [done|]. split; [cbn; lia|]. by split.
Qed.

Lemma same_buffers_unread i i' :
  connected i -> same_buffers i i' -> arrives i' = arrives i -> closing i' = closing i ->
  unread i i'.
Proof.
  intros Hc [] Ha Hcl. unfold unread, incoming. destruct sb_connected0 as [_ ->]; [done|].
  by rewrite Ha.
Qed.

(** The state after a wait for the network, or after an error that is passed over. *)
Lemma arrives_again i rs ps :
  recvs i = Recv_error EAGAIN :: rs -> poll_ready 4 (polls i) = Some ps ->
  (poll_timeout (root i) =? 0) = false ->
  arrives i = arriving (poll_timeout (root i)) rs ps
  /\ closing i = closes (poll_timeout (root i)) rs ps.
Proof.
  intros Hr Hp Ht. unfold arrives, closing. rewrite Hr. cbn [arriving closes].
  change (EAGAIN =? EINTR) with false. cbv iota. change (would_block EAGAIN) with true.
  rewrite Ht, Hp. done.
Qed.

Lemma io_wait_write_ready purge i ps :
  (forall j, quiet j -> purge j = Done MEMCACHED_SUCCESS j) -> quiet i ->
  (poll_timeout (root i) =? 0) = false -> poll_ready 4 (polls i) = Some ps ->
  exists e, io_wait purge true i = Done MEMCACHED_SUCCESS (i <| polls := ps |> <| errno := e |>).
Proof.
  intros Hp Hq Ht Hps. destruct (poll_loop_ready 4 i ps Hps) as [e He]. exists e. 
  apply Z.eqb_neq in Ht. unfold io_wait, gets, mbind, io_bind. rewrite (Hp i Hq).
  unfold mret, io_ret. rewrite bool_decide_true by done. cbn [orb negb].
  rewrite (proj2 (Z.eqb_neq _ _) Ht). exact He.
Qed.

Lemma process_no_callbacks i : callbacks = None -> process_input_buffer i = Done false i.
Proof. intros Hcb. unfold process_input_buffer, gets, mbind, io_bind. by rewrite Hcb. Qed.

Lemma unsent_done i at_ n :
  (at_ + n <= length (write_buffer i))%nat ->
  unsent at_ n i = Done (take n (drop at_ (write_buffer i))) i.
Proof. intros Hl. unfold unsent. io_pure. by rewrite (proj2 (Nat.leb_le _ _)) by (unfold id; lia). Qed.

Lemma send_error_done i e ss data :
  sends i = Send_error e :: ss ->
  send data i = Done (Send_error e) (i <| sends := ss |> <| errno := e |>).
Proof. intros Hs. unfold send. io_pure. by rewrite Hs. Qed.

Lemma send_sent_done i k ss data :
  sends i = Sent k :: ss ->
  send data i
  = Done (Sent (length (take k data)))
      (i <| sends := match (k - length data)%nat with O => ss | S n => Sent (S n) :: ss end |>
         <| sent ::= fun s => s ++ take k data |>).
Proof. intros Hs. unfold send. io_pure. rewrite Hs. by destruct (k - length data)%nat. Qed.

(** One round of the loop that sends nothing. *)
Lemma flush_wait fuel purge at_ n ret i e ss :
  callbacks = None -> (forall j, quiet j -> purge j = Done MEMCACHED_SUCCESS j) ->
  writable i -> quiet i -> (at_ + S n <= MEMCACHED_MAX_BUFFER)%nat ->
  sends i = Send_error e :: ss -> takes (S n) i ->
  exists i', flush_loop (S fuel) purge at_ (S n) ret i = flush_loop fuel purge at_ (S n) ret i'
    /\ same_buffers i i' /\ unread i i' /\ sends i' = ss
    /\ forall m, takes (S m) i -> takes (S m) i'.
Proof.
  intros Hcb Hp Hw Hq Hle Hs Ht. pose proof Hw as (H1 & H2 & H3 & H4 & H5 & H6).
  unfold takes in Ht. rewrite Hs in Ht. cbn [taking] in Ht.
  cbn [flush_loop]. io_pure. rewrite H2. io_pure.
  io_do (unsent_done i at_ (S n) ltac:(lia)).
  io_do (send_error_done i e ss (take (S n) (drop at_ (write_buffer i))) Hs).
  set (i1 := i <| sends := ss |> <| errno := e |>).
  destruct (set_errno_done e (memcached_at "io.cc" 374) i1) as (rc & errs & Hset).
  io_do Hset. set (i2 := i1 <| errors := errs |>).
  assert (H02 : same_buffers i i2) by (split; done).
  destruct (e =? ENOBUFS) eqn:Ee.
  { exists i2. split; [done|]. split; [done|]. split; [done|]. split; [done|].
    intros m. unfold takes. rewrite Hs. cbn [taking]. by rewrite Ee. }
  destruct (recvs i) as [|[d|e'] rs] eqn:Er; [done..|].
  destruct (poll_ready 4 (polls i)) as [ps|] eqn:Eps; [|done].
  rewrite !andb_true_iff, negb_true_iff, !Z.eqb_eq in Ht. destruct Ht as [[[-> ->] Hto] _].
  change (EAGAIN =? EAGAIN) with true. cbv iota.
  destruct (repack_again i2 rs) as (i3 & Hrep & H23 & Es3 & Er3 & Ep3); [done..|].
  io_do Hrep. io_do (process_no_callbacks i3 Hcb).
  destruct (io_wait_write_ready purge i3 ps Hp) as (e3 & Hwait).
  { unfold quiet. rewrite (sb_root _ _ H23), (sb_cursor _ _ H23). exact Hq. }
  { by rewrite (sb_root _ _ H23). }
  { by rewrite Ep3. }
  io_do Hwait.
  set (i4 := i3 <| polls := ps |> <| errno := e3 |>).
  assert (H34 : same_buffers i3 i4) by (split; done).
  pose proof (same_buffers_trans _ _ _ (same_buffers_trans _ _ _ H02 H23) H34) as H04.
  exists i4. split; [done|]. split; [done|].
  destruct (arrives_again i rs ps Er Eps Hto) as [Ea Ecl].
  split; [|split; [exact Es3|]].
  - apply same_buffers_unread; try done.
    + rewrite Ea. unfold arrives. change (recvs i4) with (recvs i3).
      rewrite Er3, (sb_root _ _ H04). done.
    + rewrite Ecl. unfold closing. change (recvs i4) with (recvs i3).
      rewrite Er3, (sb_root _ _ H04). done.
  - intros m. unfold takes. rewrite Hs. cbn [taking]. rewrite Ee, Er, Eps.
    rewrite !andb_true_iff. intros [_ Ht]. change (recvs i4) with (recvs i3).
    change (sends i4) with (sends i3). by rewrite Es3, Er3, (sb_root _ _ H04).
Qed.

(** One round that sends something: as much as there is room for. *)
Lemma flush_send fuel purge at_ n ret i k ss :
  writable i -> (at_ + S n <= MEMCACHED_MAX_BUFFER)%nat -> sends i = Sent k :: ss ->
  exists i', flush_loop (S fuel) purge at_ (S n) ret i
             = flush_loop fuel purge (at_ + Nat.min k (S n)) (S n - Nat.min k (S n))
                 (ret + Nat.min k (S n)) i'
    /\ writable i' /\ unread i i' /\ write_buffer i' = write_buffer i
    /\ sent i' = sent i ++ take (Nat.min k (S n)) (drop at_ (write_buffer i))
    /\ sends i' = match (k - S n)%nat with O => ss | S r => Sent (S r) :: ss end
    /\ recvs i' = recvs i /\ polls i' = polls i.
Proof.
  intros Hw Hle Hs. pose proof Hw as (H1 & H2 & H3 & H4 & H5 & H6).
  cbn [flush_loop]. io_pure. rewrite H2. io_pure.
  io_do (unsent_done i at_ (S n) ltac:(lia)).
  io_do (send_sent_done i k ss (take (S n) (drop at_ (write_buffer i))) Hs).
  cbn [andb]. io_pure.
  assert (Hl : length (take (S n) (drop at_ (write_buffer i))) = S n)
    by (rewrite length_take, length_drop; lia).
  rewrite Hl, take_take, length_take, length_drop.
  replace (Nat.min (Nat.min k (S n)) (length (write_buffer i) - at_)) with (Nat.min k (S n)) by lia.
  eexists. split; [reflexivity|]. split; [done|].
  split; [done|]. done.
Qed.

Lemma taking_send n m k t ss rs ps :
  taking (n + m) t (Sent k :: ss) rs ps = true ->
  (n <= k)%nat ->
  taking m t (match (k - n)%nat with O => ss | S r => Sent (S r) :: ss end) rs ps = true.
Proof.
  intros Ht Hle. destruct m as [|m]; [by destruct (k - n)%nat, ss|].
  destruct (n + S m)%nat as [|nm] eqn:E; [lia|]. cbn [taking] in Ht.
  apply orb_true_iff in Ht. rewrite Nat.leb_le in Ht.
  destruct (k - n)%nat as [|r] eqn:Er.
  - destruct Ht as [?|Ht]; [lia|]. by replace (S nm - k)%nat with (S m) in Ht by lia.
  - cbn [taking]. apply orb_true_iff. rewrite Nat.leb_le. destruct Ht as [?|Ht]; [left; lia|].
    right. by replace (S m - S r)%nat with (S nm - k)%nat by lia.
Qed.

Lemma flush_loop_spec purge fuel : forall at_ n ret m i,
  callbacks = None -> (forall j, quiet j -> purge j = Done MEMCACHED_SUCCESS j) ->
  (length (sends i) < fuel)%nat -> writable i -> quiet i -> takes (n + m) i ->
  (at_ + n <= MEMCACHED_MAX_BUFFER)%nat ->
  exists i', flush_loop fuel purge at_ n ret i = Done (Some (ret + n)%nat, Some MEMCACHED_SUCCESS) i'
    /\ delivered (take n (drop at_ (write_buffer i))) m i i'.
Proof.
  induction fuel as [|fuel IH]; intros at_ n ret m i Hcb Hp Hf Hw Hq Ht Hle; [lia|].
  destruct n as [|n].
  { rewrite Nat.add_0_r, take_0. by apply flush_end. }
  destruct (sends i) as [|[k|e] ss] eqn:Hs.
  { unfold takes in Ht. by rewrite Hs in Ht. }
  - destruct (flush_send fuel purge at_ n ret i k ss Hw Hle Hs)
      as (i1 & -> & Hw1 & Hu1 & Eb1 & Es1 & Ess1 & Er1 & Ep1).
    unfold takes in Ht. rewrite Hs in Ht.
    assert (Hlen : forall l : bytes, take (S n) l = take (Nat.min k (S n)) l ++ take (S n - Nat.min k (S n)) (drop (Nat.min k (S n)) l)).
    { intros l. rewrite <-(take_drop (Nat.min k (S n)) (take (S n) l)), take_take, skipn_firstn_comm.
      do 2 f_equal. lia. }
    destruct (decide (S n <= k)%nat) as [Hk|Hk].
    + rewrite Nat.min_r, Nat.sub_diag in * by done.
      destruct (flush_end fuel purge (at_ + S n) (ret + S n) m i1 Hw1) as (i2 & -> & [A B C D E]).
      { unfold takes. rewrite Ess1, Er1, Ep1. destruct Hu1 as (-> & _). by apply taking_send. }
      exists i2. split; [done|]. split; try done; [by etransitivity|].
      by rewrite D, Es1, app_nil_r.
    + rewrite Nat.min_l in * by lia. replace (k - S n)%nat with 0%nat in Ess1 by lia.
      destruct (IH (at_ + k)%nat (S n - k)%nat (ret + k)%nat m i1 Hcb Hp) as (i2 & -> & [A B C D E]);
        [rewrite Ess1; cbn in Hf; lia|done|by eapply quiet_unread| |lia|].
      { unfold takes. rewrite Ess1, Er1, Ep1. destruct Hu1 as (-> & _).
        cbn [Nat.add taking] in Ht. apply orb_true_iff in Ht. rewrite Nat.leb_le in Ht.
        destruct Ht as [?|Ht]; [lia|]. by replace (S n - k + m)%nat with (S (n + m) - k)%nat by lia. }
      exists i2. split; [do 3 f_equal; lia|]. split; try done; [by etransitivity|].
      rewrite D, Es1, Eb1, <-app_assoc. f_equal. rewrite <-drop_drop. symmetry. apply Hlen.
  - destruct (flush_wait fuel purge at_ n ret i e ss Hcb Hp Hw Hq Hle Hs) as (i1 & -> & Hs1 & Hu1 & Ess1 & Ht1).
    { eapply taking_le; [|exact Ht]. lia. }
    destruct (IH at_ (S n) ret m i1 Hcb Hp) as (i2 & -> & [A B C D E]);
      [rewrite Ess1; cbn in Hf; lia|by eapply same_buffers_writable|by eapply quiet_unread
      |by apply Ht1|done|].
    exists i2. split; [done|]. split; try done; [by etransitivity|].
    by rewrite D, (sb_sent _ _ Hs1), (sb_write _ _ Hs1).
Qed.

Lemma unflushed_length i : writable i -> length (unflushed i) = filling i.
Proof. intros (_ & _ & Hb & Ho & _). unfold unflushed, filling. rewrite length_take. lia. Qed.

Lemma io_flush_spec purge m i :
  callbacks = None -> (forall j, quiet j -> purge j = Done MEMCACHED_SUCCESS j) ->
  writable i -> quiet i -> takes (filling i + m) i ->
  exists n i', io_flush purge i = Done (Some n, Some MEMCACHED_SUCCESS) i'
    /\ delivered (unflushed i) m i i'.
Proof.
  intros Hcb Hp Hw Hq Ht. pose proof Hw as (H1 & H2 & H3 & H4 & H5 & H6).
  unfold io_flush. io_do (Hp i Hq). rewrite bool_decide_true by done. cbn [orb negb].
  io_pure. unfold id. rewrite H2. cbn [andb]. rewrite orb_false_r.
  destruct (Z.eqb_spec (write_buffer_offset (server i)) 0) as [E0|E0].
  - assert (E : filling i = 0%nat) by (unfold filling; by rewrite E0).
    rewrite E in Ht. exists 0%nat, i. split; [done|].
    unfold unflushed. rewrite E. split; try done. by rewrite take_0, app_nil_r.
  - change (Z.to_nat (write_buffer_offset (server i))) with (filling i).
    destruct (flush_loop_spec purge (S (length (sends i))) 0 (filling i) 0 m i Hcb Hp)
      as (i' & E & Hd); [lia|done|done|done|unfold filling; lia|].
    exists (filling i), i'. by rewrite E, drop_0 in *.
Qed.

Lemma take_store (b : bytes) n data :
  (n + length data <= length b)%nat -> take (n + length data) (store b n data) = take n b ++ data.
Proof.
  intros Hl. unfold store. rewrite app_assoc, take_app_length'; [done|].
  rewrite length_app, length_take. lia.
Qed.

Lemma put_spec data m i :
  writable i -> (filling i + length data <= MEMCACHED_MAX_BUFFER)%nat -> takes m i ->
  exists i', put data i = Done tt i' /\ writable i' /\ unread i i' /\ takes m i'
    /\ written i' = written i ++ data /\ filling i' = (filling i + length data)%nat.
Proof.
  intros Hw Hl Ht. pose proof Hw as (H1 & H2 & H3 & H4 & H5 & H6).
  unfold put. io_pure. unfold id, filling in *.
  rewrite (proj2 (Z.leb_le _ _)) by (rewrite H3; lia). cbn [negb].
  eexists. split; [reflexivity|].
  assert (Hlen : length (store (write_buffer i) (Z.to_nat (write_buffer_offset (server i))) data)
                 = MEMCACHED_MAX_BUFFER).
  { unfold store. rewrite !length_app, length_take, length_drop. lia. }
  split; [|split; [done|split; [done|split]]].
  - split; [done|]. split; [done|]. split; [exact Hlen|]. split; [cbn; lia|]. done.
  - unfold written, unflushed, filling. cbn.
    rewrite Z2Nat.inj_add, Nat2Z.id, take_store by lia. by rewrite app_assoc.
  - cbn. lia.
Qed.

(** A round of the loop of [_io_write]. *)
Lemma io_write_round purge data m i :
  callbacks = None -> (forall j, quiet j -> purge j = Done MEMCACHED_SUCCESS j) ->
  writable i -> quiet i -> (filling i + length data <= MEMCACHED_MAX_BUFFER)%nat ->
  takes (filling i + length data + m) i ->
  exists i', write_round purge data i = Done false i'
    /\ writable i' /\ unread i i' /\ written i' = written i ++ data
    /\ filling i' <> MEMCACHED_MAX_BUFFER /\ takes (filling i' + m) i'.
Proof.
  intros Hcb Hp Hw Hq Hle Ht.
  destruct (put_spec data (filling i + length data + m) i Hw Hle Ht)
    as (i1 & Hput & Hw1 & Hu1 & Ht1 & Ewr1 & Ef1).
  rewrite <-Ef1 in Ht1. unfold write_round. io_do Hput. io_pure.
  pose proof Hw1 as (_ & _ & _ & Ho1 & _).
  destruct (Z.eqb_spec (write_buffer_offset (server i1)) (Z.of_nat MEMCACHED_MAX_BUFFER)) as [E|E].
  - destruct (io_flush_spec purge m i1 Hcb Hp Hw1 (quiet_unread _ _ Hu1 Hq) Ht1)
      as (n & i2 & Hfl & [A B C D F]).
    io_do Hfl. exists i2. split; [done|]. split; [done|]. split; [by etransitivity|].
    assert (E2 : filling i2 = 0%nat) by (unfold filling; by rewrite F).
    split; [|rewrite E2; split; [done|exact C]].
    rewrite <-Ewr1. unfold written at 1 2, unflushed. by rewrite E2, D, take_0, app_nil_r.
  - exists i1. split; [done|]. split; [done|]. split; [done|]. split; [done|].
    split; [unfold filling; lia|exact Ht1].
Qed.

(** Writing without flushing: the buffer is flushed when it is full. *)
Lemma io_write_loop_spec purge fuel : forall buffer m i,
  callbacks = None -> (forall j, quiet j -> purge j = Done MEMCACHED_SUCCESS j) ->
  (length buffer + (if decide (filling i = MEMCACHED_MAX_BUFFER) then 1 else 0) <= fuel)%nat ->
  writable i -> quiet i -> takes (filling i + length buffer + m) i ->
  exists i', io_write_loop fuel purge buffer i = Done true i'
    /\ writable i' /\ unread i i' /\ written i' = written i ++ buffer
    /\ takes (filling i' + m) i'.
Proof.
  induction fuel as [|fuel IH]; intros buffer m i Hcb Hp Hf Hw Hq Ht.
  { destruct buffer as [|c buffer]; [|cbn in Hf; lia].
    exists i. rewrite app_nil_r. by rewrite Nat.add_0_r in Ht. }
  destruct buffer as [|c buffer].
  { exists i. rewrite app_nil_r. by rewrite Nat.add_0_r in Ht. }
  set (buf := c :: buffer) in *.
  assert (Hpos : (0 < length buf)%nat) by (unfold buf; cbn; lia).
  pose proof Hw as (H1 & H2 & H3 & H4 & H5 & H6).
  assert (Hmax : Z.of_nat MEMCACHED_MAX_BUFFER = 8196) by reflexivity.
  change (io_write_loop (S fuel) purge buf) with
    (i ← gets id;
     if is_udp i then
       if write_buffer_offset (server i) + Z.of_nat (length buf) >? MAX_UDP_DATAGRAM_LENGTH
       then mret false else _ ← put buf; mret true
     else
       let room := u64 (Z.of_nat MEMCACHED_MAX_BUFFER - write_buffer_offset (server i)) in
       let should_write := if room <? Z.of_nat (length buf) then Z.to_nat room else length buf in
       failed ← write_round purge (take should_write buf);
       if failed : bool then mret false else io_write_loop fuel purge (drop should_write buf)).
  io_pure. unfold id. rewrite H2. cbv zeta. rewrite u64_small by lia.
  set (w := if _ <? _ then _ else _).
  assert (Ew : w = Nat.min (MEMCACHED_MAX_BUFFER - filling i) (length buf)).
  { unfold w, filling. destruct (Z.ltb_spec (Z.of_nat MEMCACHED_MAX_BUFFER - write_buffer_offset (server i)) (Z.of_nat (length buf))); lia. }
  clearbody w.
  assert (Hfill : (filling i <= MEMCACHED_MAX_BUFFER)%nat) by (unfold filling; lia).
  assert (El : length (take w buf) = w) by (rewrite length_take; lia).
  destruct (io_write_round purge (take w buf) (length (drop w buf) + m) i Hcb Hp Hw Hq)
    as (i1 & Hdo & Hw1 & Hu1 & Ewr1 & Hne & Ht1); [rewrite El; lia| |].
  { rewrite El, length_drop. replace (filling i + w + (length buf - w + m))%nat
      with (filling i + length buf + m)%nat by lia. exact Ht. }
  destruct (IH (drop w buf) m i1 Hcb Hp) as (i2 & E2 & Hw2 & Hu2 & Ewr2 & Ht2).
  - rewrite decide_False, length_drop by done. case_decide; lia.
  - done.
  - by eapply quiet_unread.
  - by rewrite <-Nat.add_assoc.
  - exists i2. split; [|split; [done|split; [by etransitivity|split; [|done]]]].
    + io_do Hdo. exact E2.
    + by rewrite Ewr2, Ewr1, <-app_assoc, take_drop.
Qed.

(** [_io_write] writes all of it, and with a flush nothing is left behind. *)
Lemma io_write_spec purge buffer with_flush m i :
  callbacks = None -> (forall j, quiet j -> purge j = Done MEMCACHED_SUCCESS j) ->
  writable i -> quiet i -> takes (filling i + length buffer + m) i ->
  exists i', _io_write purge buffer with_flush i = Done (Some (length buffer)) i'
    /\ writable i' /\ unread i i' /\ written i' = written i ++ buffer
    /\ takes (filling i' + m) i' /\ (with_flush = true -> filling i' = 0%nat).
Proof.
  intros Hcb Hp Hw Hq Ht.
  destruct (io_write_loop_spec purge (S (length buffer)) buffer m i Hcb Hp)
    as (i1 & E1 & Hw1 & Hu1 & Ewr1 & Ht1); [case_decide; lia|done..|].
  unfold _io_write. io_do E1. cbn [negb]. destruct with_flush; [|by exists i1].
  destruct (io_flush_spec purge m i1 Hcb Hp Hw1 (quiet_unread _ _ Hu1 Hq) Ht1)
    as (n & i2 & E2 & [A B C D F]).
  io_do E2. exists i2. assert (E0 : filling i2 = 0%nat) by (unfold filling; by rewrite F).
  rewrite E0. split; [done|]. split; [done|]. split; [by etransitivity|]. split; [|done].
  rewrite <-Ewr1. unfold written at 1 2, unflushed. by rewrite E0, D, take_0, app_nil_r.
Qed.

Lemma memcached_purge_quiet i : quiet i -> memcached_purge i = Done MEMCACHED_SUCCESS i.
Proof. apply purge_quiet. Qed.

(** After writing: [data] was written, and the network still takes what is in the
    buffer and [m] bytes more. *)
Record wrote (data : bytes) (m : nat) (i i' : instance) : Prop := {
  wrote_writable : writable i';
  wrote_unread : unread i i';
  wrote_bytes : written i' = written i ++ data;
  wrote_takes : takes (filling i' + m) i';
}.

Lemma io_write_wrote buffer with_flush m i :
  callbacks = None -> writable i -> quiet i -> takes (filling i + length buffer + m) i ->
  exists i', memcached_io_write buffer with_flush i = Done (Some (length buffer)) i'
    /\ wrote buffer m i i' /\ (with_flush = true -> filling i' = 0%nat).
Proof.
  intros Hcb Hw Hq Ht.
  destruct (io_write_spec memcached_purge buffer with_flush m i Hcb memcached_purge_quiet Hw Hq Ht)
    as (i' & E & A & B & C & D & F).
  by exists i'.
Qed.

Lemma wrote_trans d1 d2 n m i j k : wrote d1 n i j -> wrote d2 m j k -> wrote (d1 ++ d2) m i k.
Proof.
  intros [A1 B1 C1 D1] [A2 B2 C2 D2]. split; [done|by etransitivity| |done].
  by rewrite C2, C1, app_assoc.
Qed.

Lemma writev_loop_spec vector : forall total m i,
  callbacks = None -> writable i -> quiet i -> takes (filling i + length (mjoin vector) + m) i ->
  exists i', writev_loop vector total i = Done (Some (total + length (mjoin vector))%nat) i'
    /\ wrote (mjoin vector) m i i'.
Proof.
  induction vector as [|b vector IH]; intros total m i Hcb Hw Hq Ht.
  { change (length (mjoin [])) with 0%nat in *. rewrite Nat.add_0_r in *. exists i.
    split; [done|]. split; [done..|by rewrite app_nil_r|done]. }
  cbn [mjoin list_join] in *. rewrite length_app in Ht.
  destruct (io_write_wrote b false (length (mjoin vector) + m) i Hcb Hw Hq) as (i1 & E1 & H1 & _).
  { by rewrite Nat.add_assoc, <-(Nat.add_assoc (filling i)). }
  destruct (IH (total + length b)%nat m i1 Hcb) as (i2 & E2 & H2).
  { apply H1. }
  { eapply quiet_unread; [apply H1|done]. }
  { rewrite <-Nat.add_assoc. apply H1. }
  exists i2. cbn [writev_loop]. io_do E1. cbv iota. rewrite E2, length_app, Nat.add_assoc. split; [done|].
  by eapply wrote_trans.
Qed.

Lemma writev_wrote vector with_flush m i :
  callbacks = None -> writable i -> quiet i -> takes (filling i + length (mjoin vector) + m) i ->
  exists i', memcached_io_writev vector with_flush i = Done (Some (length (mjoin vector))) i'
    /\ wrote (mjoin vector) m i i' /\ (with_flush = true -> filling i' = 0%nat).
Proof.
  intros Hcb Hw Hq Ht. destruct (writev_loop_spec vector 0 m i Hcb Hw Hq Ht) as (i1 & E1 & H1).
  unfold memcached_io_writev. io_do E1. cbn [Nat.add]. destruct with_flush; [|by exists i1].
  destruct (io_write_wrote [] true m i1 Hcb) as (i2 & E2 & H2 & Hz).
  { apply H1. }
  { eapply quiet_unread; [apply H1|done]. }
  { cbn. rewrite Nat.add_0_r. apply H1. }
  io_do E2. exists i2. split; [done|]. split; [|done].
  rewrite <-(app_nil_r (mjoin vector)). by eapply wrote_trans.
Qed.

(** An open connection is used. *)
Lemma connect_open i : writable i -> memcached_connect i = Done MEMCACHED_SUCCESS i.
Proof.
  intros (Hfd & _). unfold memcached_connect. io_pure.
  by rewrite (proj2 (Z.eqb_neq _ _)).
Qed.

Lemma clear_stream with_flush i : writable i -> clear_datagram with_flush i = Done tt i.
Proof. intros (_ & Hu & _). unfold clear_datagram. io_pure. unfold id. by rewrite Hu. Qed.

(** The number of responses that are awaited after a command. *)
Definition awaiting (expected : bool) (i i' : instance) : Prop :=
  cursor_active (server i') = cursor_active (server i) ⊞ Z.b2z expected.

(** After a command: it was written, everything is flushed if that was asked for,
    and one response more is awaited, if any. *)
Record commanded (data : bytes) (with_flush expected : bool) (m : nat) (i i' : instance) : Prop := {
  cmd_writable : writable i';
  cmd_bytes : written i' = written i ++ data;
  cmd_flushed : with_flush = true -> unflushed i' = [];
  cmd_takes : takes (filling i' + m) i';
  cmd_root : root i' = root i;
  cmd_incoming : incoming i' = incoming i;
  cmd_cursor : cursor_active (server i') = cursor_active (server i) ⊞ Z.b2z expected;
  cmd_settings : settings (server i') = settings (server i);
  cmd_result : root_result i' = root_result i;
  cmd_fd : fd (server i') = fd (server i);
}.

Lemma wrote_commanded data with_flush (expected : bool) m i i' :
  is_u32 (cursor_active (server i)) -> wrote data m i i' -> (with_flush = true -> filling i' = 0%nat) ->
  exists j, (if expected then memcached_server_response_increment else mret tt) i' = Done tt j
    /\ commanded data with_flush expected m i j.
Proof.
  intros Hcur [Hw (U1 & U2 & U3 & U4 & U5 & U6 & U7 & U8) Hb Ht] Hz. destruct expected.
  - eexists. split; [reflexivity|]. split; try done.
    + intros E. unfold unflushed. change (filling _) with (filling i'). by rewrite (Hz E).
    + cbn. by rewrite U6.
  - exists i'. split; [done|]. split; try done.
    + intros E. unfold unflushed. by rewrite (Hz E).
    + rewrite U6. cbn. rewrite Z.add_0_r, u32_small; [done|]. done.
Qed.

Lemma memcached_vdo_spec vector with_flush m i :
  callbacks = None -> writable i -> quiet i -> is_u32 (cursor_active (server i)) ->
  takes (filling i + length (mjoin vector) + m) i ->
  exists i',
    memcached_vdo vector with_flush i
    = Done (if with_flush then MEMCACHED_SUCCESS else MEMCACHED_BUFFERED) i'
    /\ commanded (mjoin vector) with_flush
         (negb (no_reply (flags (root i))) && negb (piped (flags (root i)))) m i i'.
Proof.
  intros Hcb Hw Hq Hcur Ht. unfold memcached_vdo. io_do (connect_open i Hw).
  cbn [memcached_failed]. io_do (clear_stream with_flush i Hw).
  destruct (writev_wrote vector with_flush m i Hcb Hw Hq Ht) as (i1 & E1 & H1 & Hz).
  io_do E1. rewrite bool_decide_eq_false_2 by (intros Hne; by apply Hne). io_pure.
  pose proof (wrote_unread _ _ _ _ H1) as (-> & _).
  destruct (wrote_commanded _ with_flush
    (negb (no_reply (flags (root i))) && negb (piped (flags (root i)))) m i i1 Hcur H1 Hz) as (j & E2 & Hj).
  io_do E2. exists j. by destruct with_flush.
Qed.


Lemma memcached_do_spec command with_flush m i :
  callbacks = None -> writable i -> quiet i -> is_u32 (cursor_active (server i)) ->
  takes (filling i + length command + m) i ->
  exists i', memcached_do command with_flush i = Done MEMCACHED_SUCCESS i'
    /\ commanded command with_flush (negb (no_reply (flags (root i)))) m i i'.
Proof.
  intros Hcb Hw Hq Hcur Ht. unfold memcached_do. io_do (connect_open i Hw).
  cbn [memcached_failed]. io_do (clear_stream with_flush i Hw).
  destruct (io_write_wrote command with_flush m i Hcb Hw Hq Ht) as (i1 & E1 & H1 & Hz).
  io_do E1. rewrite bool_decide_eq_false_2 by (intros Hne; by apply Hne). io_pure.
  pose proof (wrote_unread _ _ _ _ H1) as (-> & _).
  destruct (wrote_commanded _ with_flush (negb (no_reply (flags (root i)))) m i i1 Hcur H1 Hz)
    as (j & E2 & Hj).
  exists j. split; [|done]. destruct (no_reply (flags (root i))); io_do E2; done.
Qed.
End Delivery.

(** ** A concrete connection *)

#[local] Existing Instance some_environment.

#[export] Instance some_stack : Stack.
Proof.
  refine {| stack_bytes := fun n => replicate n Byte.x00; stack_result := empty_result;
            callbacks := None; open_connection := mret MEMCACHED_CONNECTION_FAILURE |}.
  intros n. apply length_replicate.
Defined.

(** [s] was written and the given events happen. *)
Definition outgoing (s : bytes) (ss : list send_result) (rs : list recv_result)
    (ps : list poll_result) : instance :=
  (connection rs ps)
    <| write_buffer ::= fun b => store b 0 s |> <| sends := ss |>
    <| server ::= fun x => x <| write_buffer_offset := Z.of_nat (length s) |> |>.

Lemma outgoing_writable s ss rs ps :
  (length s <= MEMCACHED_MAX_BUFFER)%nat -> writable (outgoing s ss rs ps).
Proof.
  intros Hs. split; [by vm_compute|]. split; [done|]. split.
  { cbn [write_buffer update outgoing]. unfold store. change (write_buffer (connection rs ps))
      with (repeat Byte.x00 MEMCACHED_MAX_BUFFER). cbn [write_buffer update].
    rewrite !length_app, length_take, length_drop, repeat_length. lia. }
  split; [cbn; lia|]. split; [|done]. exact (connection_connected rs ps).
Qed.


Definition with_counts (count bytes_sent : Z) (i : instance) : instance :=
  i <| server ::= fun s => s <| cursor_active := count |> <| io_bytes_sent := bytes_sent |> |>.

(** What the rest of a buffer is when the purge has flushed it meanwhile: it is sent
    again. *)
Lemma purge_sends_again :
  match memcached_io_write [] true
          (with_counts 2 66559
            (outgoing (str "0123456789") [Sent 4; Send_error EAGAIN; Sent 100]
              [Recv_error EAGAIN; Received (str "STORED" ++ crlf)] [Poll_ready])) with
  | Done r j => r = Some 0%nat /\ sent j = str "01230123456789456789"
  | _ => False
  end.
Proof. vm_compute. by split. Qed.
