(* ===== verification/Client.v ===== *)
(** A handle with the connections to all of its servers: initialize_query.cc, the
    choice of a server (memcached.cc), and how a computation on a server ([Io.io])
    is one on the handle. *)
From stdpp Require Import functions.
From S2P Require Import Prelude HashFunctions Hashkit Memcached KeyHash Continuum Distribution.
From S2P Require Import ServerList Rgroup Error StringBuf Result Io Response Write.

(** ** State *)

(** Where a server is: in the array of servers, or in the pool of replication groups. *)
Inductive location := Listed (k : nat) | Pooled (x : nat).

#[export] Instance location_eq_dec : EqDecision location.
Proof. solve_decision. Defined.

(** What belongs to a server besides its record: its errors, its buffers and what the
    network does. *)
Record net := {
  net_errors : list memcached_error_t;
  net_here : buffer_ptr;
  net_read_buffer : bytes;
  net_write_buffer : bytes;
  net_recvs : list recv_result;
  net_polls : list poll_result;
  net_sends : list send_result;
  net_sent : bytes;
}.

(** What [poll] says of several connections: which of those that it is asked about can
    be read. *)
Inductive ready_result :=
  | Ready (choose : list Z -> list Z)
  | Ready_error (e : Z).

(** [randoms] is what the next calls of [random] return, [readies] what those of [poll]
    for several servers do. *)
Record client := {
  memc : memcached_st;
  client_store : ketama_store;
  memc_errors : list memcached_error_t;
  memc_result : memcached_result_st;
  last_response_code : memcached_return_t;
  client_errno : Z;
  randoms : list Z;
  readies : list ready_result;
  nets : location -> net;
}.

#[export] Instance client_fields : Fields client := fun c =>
  {| memc := memc c; client_store := client_store c; memc_errors := memc_errors c;
     memc_result := memc_result c; last_response_code := last_response_code c;
     client_errno := client_errno c; randoms := randoms c; readies := readies c; nets := nets c |}.

(** [memcached_server_instance_fetch]; [None] is a read behind the arrays or an
    absent master. *)
Definition memcached_server_instance_fetch (ptr : memcached_st) (server_key : Z) : option location :=
  if server_key <? 0 then None
  else if repl_enabled (flags ptr) then
    g ← rgroups ptr !! Z.to_nat server_key;
    x ← mjoin (replicas g !! 0%nat);
    Some (Pooled x)
  else
    _ ← servers ptr !! Z.to_nat server_key;
    Some (Listed (Z.to_nat server_key)).

Definition server_at (ptr : memcached_st) (l : location) : option memcached_server_st :=
  match l with Listed k => servers ptr !! k | Pooled x => server_pool ptr !! x end.

Definition set_server (ptr : memcached_st) (l : location) (s : memcached_server_st) : memcached_st :=
  match l with
  | Listed k => ptr <| servers ::= <[k := s]> |>
  | Pooled x => ptr <| server_pool ::= <[x := s]> |>
  end.

(** A server of a client, and the client after something was done on the server. *)
Definition instance_of (c : client) (l : location) (s : memcached_server_st) : instance :=
  let n := nets c l in
  {| server := s; root := memc c;
     errors := {| root_errors := memc_errors c; server_errors := net_errors n |};
     here := net_here n; read_buffer := net_read_buffer n; errno := client_errno c;
     recvs := net_recvs n; polls := net_polls n; write_buffer := net_write_buffer n;
     sends := net_sends n; sent := net_sent n; root_result := memc_result c |}.

Definition put_back (c : client) (l : location) (i : instance) : client :=
  c <| memc := set_server (root i) l (server i) |>
    <| memc_errors := root_errors (errors i) |> <| client_errno := errno i |>
    <| memc_result := root_result i |>
    <| nets ::= <[l := {| net_errors := server_errors (errors i); net_here := here i;
                          net_read_buffer := read_buffer i; net_write_buffer := write_buffer i;
                          net_recvs := recvs i; net_polls := polls i; net_sends := sends i;
                          net_sent := sent i |}]> |>.

(** ** Computations *)

Inductive client_result (A : Type) :=
  | CDone (x : A) (c : client)
  | CCrash
  | CBlocked.
Arguments CDone {A} _ _.
Arguments CCrash {A}.
Arguments CBlocked {A}.

Definition cio (A : Type) : Type := client -> client_result A.

#[export] Instance cio_ret : MRet cio := fun A x c => CDone x c.
#[export] Instance cio_bind : MBind cio := fun A B f m c =>
  match m c with
  | CDone x c => f x c
  | CCrash => CCrash
  | CBlocked => CBlocked
  end.

Definition cgets {A} (f : client -> A) : cio A := fun c => CDone (f c) c.
Definition cmodify (f : client -> client) : cio unit := fun c => CDone tt (f c).
Definition cchecked {A} (x : option A) : cio A :=
  match x with Some x => mret x | None => fun _ => CCrash end.

Lemma cio_bind_done {A B} (f : A -> cio B) (m : cio A) c x c' :
  m c = CDone x c' -> (m ≫= f) c = f x c'.
Proof. intros E. unfold mbind, cio_bind. by rewrite E. Qed.

Ltac cio_do E := erewrite cio_bind_done by exact E; cbv beta.
Ltac cio_pure := erewrite cio_bind_done by reflexivity; cbv beta.

(** What is done on a server is done on the client. *)
Definition on_server {A} (l : location) (m : io A) : cio A := fun c =>
  match server_at (memc c) l with
  | None => CCrash
  | Some s =>
      match m (instance_of c l s) with
      | Done x i => CDone x (put_back c l i)
      | Crash => CCrash
      | Blocked => CBlocked
      end
  end.

(** ** The handle *)

(** What else the commands depend on: the pieces that the choice of a server depends
    on, the update of the servers from ZooKeeper, starting anew from the configuration,
    and where what belongs to a server is after [qsort] has moved the servers of the
    first handle to those of the second. *)
Class Surroundings `{Environment} `{Qsort} `{BuildConfig} := {
  dist_env : env;
  custom_hash : nat -> bytes -> option Z -> Z;
  sorted_nets : memcached_st -> memcached_st -> (location -> net) -> location -> net;
  sorted_nets_same : forall m n, sorted_nets m m n = n;
  arcus_server_check_for_update : cio unit;
  memcached_reset : cio memcached_return_t;
}.

Section Handle.
Context `{HE : Environment} `{HQ : Qsort} `{HB : BuildConfig} `{!Surroundings}.

Definition memc_set_error (rc : memcached_return_t) (at_ : bytes) (s : option bytes)
    : cio memcached_return_t :=
  c ← cgets id;
  let '(rc, errs) := Error.memcached_set_error strerror_r errmsg_header (client_errno c) (fst error_malloc)
                       (query_id (memc c)) (memc_errors c) rc at_ s in
  _ ← cmodify (fun c => c <| memc_errors := errs |>);
  mret rc.

Definition initialize_query : cio memcached_return_t :=
  _ ← cmodify (fun c => c <| memc ::= fun m => m <| query_id ::= fun q => u64 (q + 1) |> |>);
  m ← cgets memc;
  _ ← (if is_time_for_rebuild m then _ ← memcached_reset; mret tt else mret tt);
  m ← cgets memc;
  if memcached_server_count m =? 0
  then memc_set_error MEMCACHED_NO_SERVERS (memcached_at "initialize_query.cc" 71) None
  else mret MEMCACHED_SUCCESS.

(** What [random] returns, and where a server is chosen by it. *)
Definition next_random : cio Z := fun c =>
  match randoms c with
  | [] => CBlocked
  | r :: rs => CDone r (c <| randoms := rs |>)
  end.

Definition draw : cio Z := fun c =>
  if bool_decide (distribution (memc c) = MEMCACHED_DISTRIBUTION_RANDOM) then next_random c else CDone 0 c.

(** The handle after its servers may have been sorted. *)
Definition put_handle (store : ketama_store) (m : memcached_st) (c : client) : client :=
  c <| memc := m |> <| client_store := store |>
    <| nets ::= fun n => if use_sort_hosts (flags m) then sorted_nets (memc c) m n else n |>.

(** [memcached_generate_hash_with_redistribution]. *)
Definition hash_with_redistribution (key : bytes) : cio Z :=
  rnd ← draw;
  c ← cgets id;
  '(k, store, m) ← cchecked (memcached_generate_hash_with_redistribution dist_env custom_hash
                               (client_store c) rnd (memc c) key);
  _ ← cmodify (put_handle store m);
  cchecked k.

(** [run_distribution], whose result is ignored. *)
Definition distribute : cio unit :=
  c ← cgets id;
  '(_, store, m) ← cchecked (run_distribution dist_env (client_store c) (memc c));
  cmodify (put_handle store m).

(** The record of a server. *)
Definition look (l : location) : cio memcached_server_st :=
  m ← cgets memc; cchecked (server_at m l).

Definition memc_set_errno (n : Z) (at_ : bytes) : cio unit :=
  c ← cgets id;
  let '(_, errs) := Error.memcached_set_errno strerror_r errmsg_header (client_errno c) (fst error_malloc)
                      (query_id (memc c)) (memc_errors c) n at_ None in
  cmodify (fun c => c <| memc_errors := errs |>).

Definition instance_fetch (server_key : Z) : cio location :=
  c ← cgets id; cchecked (memcached_server_instance_fetch (memc c) server_key).

(** [memcached_rgroup_switchover]; a server outside of the groups makes it fail. *)
Definition rgroup_switchover (l : location) : cio bool :=
  match l with
  | Listed _ => fun _ => CCrash
  | Pooled x =>
      c ← cgets id;
      '(done, m) ← cchecked (memcached_rgroup_switchover (memc c) x);
      _ ← cmodify (fun c => c <| memc := m |>);
      mret done
  end.
End Handle.

(** ** What is done on one server *)

Definition instance_at (c : client) (l : location) : option instance :=
  instance_of c l <$> server_at (memc c) l.

Lemma instance_at_root c l i : instance_at c l = Some i -> root i = memc c.
Proof. unfold instance_at. destruct (server_at _ _); intros [= <-]. done. Qed.

Lemma instance_at_server c l i : instance_at c l = Some i -> server_at (memc c) l = Some (server i).
Proof. unfold instance_at. destruct (server_at _ _); intros [= <-]. done. Qed.

Lemma on_server_done {A} l (m : io A) c i x j :
  instance_at c l = Some i -> m i = Done x j -> on_server l m c = CDone x (put_back c l j).
Proof.
  unfold instance_at, on_server. destruct (server_at _ _) as [s|]; [|done]. intros [= <-] E.
  cbn. by rewrite E.
Qed.

Lemma set_server_at m l s : is_Some (server_at m l) -> server_at (set_server m l s) l = Some s.
Proof.
  destruct l as [k|x]; cbn; intros H.
  - apply list_lookup_insert_eq, lookup_lt_is_Some. exact H.
  - apply lookup_insert_eq.
Qed.

Lemma set_server_other m l l' s : l' <> l -> server_at (set_server m l s) l' = server_at m l'.
Proof.
  destruct l as [k|x], l' as [k'|x']; cbn; intros H; try done.
  - apply list_lookup_insert_ne. congruence.
  - apply lookup_insert_ne. congruence.
Qed.

(** The instance after it was put back: the handle has the server now. *)
Definition placed (l : location) (i : instance) : instance :=
  i <| root ::= fun r => set_server r l (server i) |>.

Lemma put_back_at c l i :
  is_Some (server_at (root i) l) -> instance_at (put_back c l i) l = Some (placed l i).
Proof.
  intros H. unfold instance_at. change (memc (put_back c l i)) with (set_server (root i) l (server i)).
  rewrite set_server_at by done. cbn [fmap option_fmap option_map]. f_equal.
  unfold instance_of, put_back, placed. cbn -[set_server].
  rewrite fn_lookup_insert. cbn -[set_server]. destruct i as [? ? [] ? ? ? ? ? ? ? ? ?]. done.
Qed.

Lemma instance_at_result c l i : instance_at c l = Some i -> root_result i = memc_result c.
Proof. unfold instance_at. destruct (server_at _ _); [by intros [= <-]|done]. Qed.

(** What does not belong to a server: the query, the result, and what [poll] will say. *)
Definition handle_as_before (c c' : client) : Prop :=
  query_id (memc c') = query_id (memc c) /\ memc_result c' = memc_result c /\ readies c' = readies c.

Lemma handle_as_before_trans c1 c2 c3 :
  handle_as_before c1 c2 -> handle_as_before c2 c3 -> handle_as_before c1 c3.
Proof. unfold handle_as_before. intuition congruence. Qed.

Lemma put_back_query c l i j :
  instance_at c l = Some i -> root j = root i -> query_id (memc (put_back c l j)) = query_id (memc c).
Proof.
  intros Hi Hr. change (memc (put_back c l j)) with (set_server (root j) l (server j)).
  rewrite Hr, (instance_at_root c l i Hi). by destruct l.
Qed.

Lemma put_back_handle c l i j :
  instance_at c l = Some i -> root j = root i -> root_result j = root_result i ->
  handle_as_before c (put_back c l j).
Proof.
  intros Hi Hr Hres. split; [by apply (put_back_query c l i)|]. split; [|done].
  rewrite <-(instance_at_result c l i Hi). exact Hres.
Qed.

(** The other servers are as before. *)
Definition untouched (c c' : client) (l : location) : Prop :=
  server_at (memc c') l = server_at (memc c) l /\ nets c' l = nets c l.

Lemma put_back_other c l l' i :
  l' <> l -> root i = memc c -> untouched c (put_back c l i) l'.
Proof.
  intros Hl Hr. split.
  - change (memc (put_back c l i)) with (set_server (root i) l (server i)).
    by rewrite Hr, set_server_other.
  - unfold put_back. cbn. by rewrite fn_lookup_insert_ne.
Qed.
