(* ===== verification/Command.v ===== *)
(** One command of the text protocol on a server, and again on another server when the
    first is not the master any more.  storage.cc, delete.cc, touch.cc and auto.cc
    have these steps each; the loop between the servers is the [do_action] of all of
    them. *)
From Stdlib Require Import Strings.Byte.
From stdpp Require Import functions.
From S2P Require Import Prelude HashFunctions Hashkit Memcached Text KeyHash Continuum Distribution.
From S2P Require Import ServerList Rgroup Error StringBuf Result Io Response Write Client.

Definition MEMCACHED_MAXIMUM_INTEGER_DISPLAY_LENGTH : nat := 20.

(** [snprintf] of a number behind a space into a buffer for it; [None] is the error. *)
Definition number_text (digits : bytes) : option bytes :=
  if (MEMCACHED_MAXIMUM_INTEGER_DISPLAY_LENGTH + 2 <=? S (length digits))%nat then None
  else Some (" "%byte :: digits).

(** The namespace in front of the key, and what asks for no reply. *)
Definition namespace (ptr : memcached_st) : bytes := memcached_array_string (_namespace ptr).
Definition noreply_text (ptr : memcached_st) : bytes :=
  if no_reply (flags ptr) then str " noreply" else [].

(** A number in the order of the network, and the header of a binary request. *)
Definition be (n : nat) (v : Z) : bytes := rev (to_le n v).
Definition PROTOCOL_BINARY_REQ : Z := 0x80.

Definition request_header (opcode keylen extlen bodylen cas : Z) : bytes :=
  [byte_of_Z PROTOCOL_BINARY_REQ; byte_of_Z opcode] ++ be 2 keylen ++ [byte_of_Z extlen; Byte.x00]
  ++ be 2 0 ++ be 4 bodylen ++ be 4 0 ++ be 8 cas.

(** What became of a command: a code is returned at once, or there was a response,
    which is in the buffer. *)
Inductive outcome :=
  | Returned (rc : memcached_return_t)
  | Answered (rc : memcached_return_t) (buffer : bytes).

Definition moved (rc : memcached_return_t) : bool :=
  bool_decide (rc = MEMCACHED_SWITCHOVER) || bool_decide (rc = MEMCACHED_REPL_SLAVE).

Section Commands.
Context `{HE : Environment} `{HA : Allocator} `{HQ : Qsort} `{HB : BuildConfig}.
Context `{HS : !Stack} `{HU : !Surroundings}.

(** [memcached_set_error] on the handle of a server. *)
Definition set_root_error (rc : memcached_return_t) (at_ : bytes) (s : option bytes)
    : io memcached_return_t :=
  i ← gets id;
  let '(rc, errs) := Error.memcached_set_error strerror_r errmsg_header (errno i) (fst error_malloc)
                       (query_id (root i)) (root_errors (errors i)) rc at_ s in
  _ ← modify (fun i => i <| errors := {| root_errors := errs;
                                         server_errors := server_errors (errors i) |} |>);
  mret rc.

Definition set_root_errno (at_ : bytes) : io memcached_return_t :=
  i ← gets id;
  let '(rc, errs) := Error.memcached_set_errno strerror_r errmsg_header (errno i) (fst error_malloc)
                       (query_id (root i)) (root_errors (errors i)) (errno i) at_ None in
  _ ← modify (fun i => i <| errors := {| root_errors := errs;
                                         server_errors := server_errors (errors i) |} |>);
  mret rc.

(** [memcached_io_write(ptr, NULL, 0, true)], whose result nobody looks at. *)
Definition flush_ignored : io unit := _ ← memcached_io_write [] true; mret tt.

(** Whether the command is larger than a datagram; if it only does not fit behind
    what is in the buffer, that is sent first. *)
Definition check_datagram (cmd_size : nat) : io bool :=
  if Z.of_nat cmd_size >? MAX_UDP_DATAGRAM_LENGTH - UDP_DATAGRAM_HEADER_LENGTH then mret true
  else
    off ← gets (fun i => write_buffer_offset (server i));
    _ ← (if Z.of_nat cmd_size + off >? MAX_UDP_DATAGRAM_LENGTH then flush_ignored else mret tt);
    mret false.

(** The response to a command, in a buffer, with the result of the handle. *)
Definition await_in (buffer : bytes) : io (memcached_return_t * bytes) :=
  memcached_response_to_root false flush_ignored buffer.

Definition await_response (size : Z) : io (memcached_return_t * bytes) :=
  await_in (stack_bytes (Z.to_nat size)).

(** The steps behind [do_action].  [too_big] is where a datagram that is too big is an
    error, if it is looked at; [may_buffer] is whether the command may stay in the
    buffer, and [multi] whether responses are read later when many commands are sent. *)
Definition attempt (too_big : option bytes) (may_buffer multi : bool) (vector : list bytes)
    : io outcome :=
  f ← gets (fun i => flags (root i));
  failed ← (match too_big with
            | Some _ => if use_udp f && buffer_requests f then check_datagram (length (mjoin vector))
                        else mret false
            | None => mret false
            end);
  if failed : bool then
    rc ← set_root_error MEMCACHED_WRITE_FAILURE (default [] too_big) None;
    mret (Returned rc)
  else
    rc ← memcached_vdo vector (negb (buffer_requests f && may_buffer));
    if bool_decide (rc <> MEMCACHED_SUCCESS) then mret (Returned rc)
    else
      f ← gets (fun i => flags (root i));
      if no_reply f || multi && multi_store f then mret (Returned MEMCACHED_SUCCESS)
      else
        '(rc, buffer) ← await_response MEMCACHED_DEFAULT_COMMAND_SIZE;
        mret (Answered rc buffer).

(** [do_action]: [fuel] bounds how often the servers may send the client to another
    one.  The result has the last server. *)
Fixpoint do_action (fuel : nat) (server_key : Z) (command : io outcome) (l : location)
    : cio (outcome * location) :=
  match fuel with
  | O => fun _ => CBlocked
  | S fuel =>
      out ← on_server l command;
      match out with
      | Answered rc _ =>
          if moved rc then
            done ← rgroup_switchover l;
            if done : bool then
              l ← instance_fetch server_key;
              do_action fuel server_key command l
            else mret (out, l)
          else mret (out, l)
      | Returned _ => mret (out, l)
      end
  end.

(** A number that is printed on the way, or the error that it does not fit. *)
Definition with_number (text : option bytes) (at_ : bytes) (next : bytes -> cio memcached_return_t)
    : cio memcached_return_t :=
  match text with
  | Some text => next text
  | None => memc_set_error MEMCACHED_MEMORY_ALLOCATION_FAILURE at_
              (Some (str "snprintf(MEMCACHED_MAXIMUM_INTEGER_DISPLAY_LENGTH)"))
  end.

(** The server of a key. *)
Definition server_of_key (group_key : bytes) : cio (Z * location) :=
  server_key ← hash_with_redistribution group_key;
  l ← instance_fetch server_key;
  mret (server_key, l).

(** Where the next replica is. *)
Definition next_server_key (server_key : Z) (ptr : memcached_st) : Z :=
  let server_key := u32 (server_key + 1) in
  if server_key =? memcached_server_count ptr then 0 else server_key.

(** The loop that writes to [n] replicas; whether the response is not awaited, which
    a success says, does not depend on whether it is. *)
Fixpoint replicate_to (n : nat) (server_key : Z) (vector : list bytes) (with_flush : bool)
    : cio Z :=
  match n with
  | O => mret server_key
  | S n =>
      m ← cgets memc;
      let server_key := next_server_key server_key m in
      l ← instance_fetch server_key;
      rrc ← on_server l (memcached_vdo vector with_flush);
      _ ← (if bool_decide (rrc = MEMCACHED_SUCCESS) || bool_decide (rrc = MEMCACHED_BUFFERED)
           then on_server l memcached_server_response_decrement else mret tt);
      replicate_to n server_key vector with_flush
  end.

(** Reading the responses that a server still owes: every round reads one, and more
    lines than that take bytes that are there. *)
Fixpoint drain_loop (fuel : nat) (buffer : bytes) : io unit :=
  count ← gets (fun i => cursor_active (server i));
  if count =? 0 then mret tt
  else
    match fuel with
    | O => blocked
    | S fuel =>
        '(_, buffer) ← await_in buffer;
        drain_loop fuel buffer
    end.

Definition drain_responses : io unit :=
  i ← gets id;
  if cursor_active (server i) =? 0 then mret tt
  else
    _ ← (if no_block (flags (root i)) then flush_ignored else mret tt);
    i ← gets id;
    drain_loop (Z.to_nat (cursor_active (server i)) + pending i)
      (stack_bytes (Z.to_nat MEMCACHED_DEFAULT_COMMAND_SIZE)).

(** [n] servers from [x] on. *)
Fixpoint for_servers (n : nat) (x : Z) (m : io unit) : cio unit :=
  match n with
  | O => mret tt
  | S n =>
      l ← instance_fetch x;
      _ ← on_server l m;
      for_servers n (x + 1) m
  end.

Definition on_every_server (m : io unit) : cio unit :=
  r ← cgets memc; for_servers (Z.to_nat (memcached_server_count r)) 0 m.

(** quit.cc. *)
Definition send_quit : cio unit := on_every_server (quit_server false).

Definition memcached_quit : cio unit :=
  rc ← initialize_query;
  if memcached_failed rc then mret tt else send_quit.

(** What a command on a key does first: [None] when it may go on. *)
Definition begin_command (key : bytes) : cio (option memcached_return_t) :=
  rc ← initialize_query;
  if memcached_failed rc then mret (Some rc)
  else
    m ← cgets memc;
    let rc := memcached_key_test m (Some [key]) in
    mret (if memcached_failed rc then Some rc else None).
End Commands.

(** ** A command that is answered *)

Section Answers.
Context `{HE : Environment} `{HA : Allocator} `{HQ : Qsort} `{HB : BuildConfig}.
Context `{HS : !Stack} `{HU : !Surroundings}.

(** The connection to a server that owes nothing: text, no datagrams, and every
    command is answered and waited for. *)
Record conversing (i : instance) : Prop := {
  conv_writable : writable i;
  conv_idle : cursor_active (server i) = 0;
  conv_watermark : 1 < io_msg_watermark (root i);
  conv_text : binary_protocol (flags (root i)) = false;
  conv_stream : use_udp (flags (root i)) = false;
  conv_reply : no_reply (flags (root i)) = false;
  conv_piped : piped (flags (root i)) = false;
}.

(** A flush leaves the reader alone and sends what is in the buffer. *)
Lemma flush_ignored_spec m i :
  callbacks = None -> writable i -> quiet i -> takes (filling i + m) i ->
  exists i', flush_ignored i = Done tt i' /\ wrote [] m i i' /\ filling i' = 0%nat.
Proof.
  intros Hcb Hw Hq Ht. unfold flush_ignored.
  destruct (io_write_wrote [] true m i Hcb Hw Hq) as (i' & E & Hwr & Hz).
  { by rewrite Nat.add_0_r. }
  io_do E. exists i'. by split; [|split; [|apply Hz]].
Qed.

(** With nothing in the buffer there is nothing to send. *)
Lemma flush_ignored_empty i :
  quiet i -> write_buffer_offset (server i) = 0 -> flush_ignored i = Done tt i.
Proof.
  intros Hq Ho.
  assert (E : io_flush memcached_purge i = Done (Some 0%nat, Some MEMCACHED_SUCCESS) i).
  { unfold io_flush. io_do (memcached_purge_quiet i Hq). rewrite bool_decide_true by done.
    cbn [orb negb]. io_pure. unfold id. rewrite Ho. cbn [Z.gtb Z.compare]. by rewrite andb_false_r. }
  assert (E' : memcached_io_write [] true i = Done (Some 0%nat) i).
  { unfold memcached_io_write, _io_write. cbn [io_write_loop]. io_pure. cbn [negb]. by io_do E. }
  unfold flush_ignored. by io_do E'.
Qed.

Lemma flushed_offset i : writable i -> unflushed i = [] -> write_buffer_offset (server i) = 0.
Proof.
  intros (_ & _ & Hl & Ho & _) Hu. unfold unflushed, filling in Hu.
  apply (f_equal length) in Hu. rewrite length_take in Hu. cbn in Hu. lia.
Qed.

Lemma quiet_one i :
  cursor_active (server i) = 1 -> 1 < io_msg_watermark (root i) -> quiet i.
Proof. intros E Hwm. right. right. rewrite E. lia. Qed.

Lemma writing_written i i' :
  writing i' = writing i -> written i' = written i /\ unflushed i' = unflushed i.
Proof.
  intros E. injection E as A B C D E F. unfold written, unflushed, filling. by rewrite A, C, E.
Qed.

(** A line that gives a code is the answer. *)
Lemma await_status size line rc rest i :
  callbacks = None -> says line rc -> more_follow rc = false -> Z.of_nat (length line) + 16 <= size ->
  writable i -> cursor_active (server i) = 1 -> 1 < io_msg_watermark (root i) ->
  binary_protocol (flags (root i)) = false -> takes (filling i) i ->
  incoming i = line ++ crlf ++ rest ->
  exists tail i', await_response size i = Done (rc, line ++ crlf ++ tail) i'
    /\ connected i' /\ incoming i' = rest /\ root i' = root i /\ written i' = written i
    /\ (unflushed i = [] -> unflushed i' = []) /\ cursor_active (server i') = 0.
Proof.
  intros Hcb Hin Hm Hs Hw Hc1 Hwm Hb Ht Hinc.
  assert (Hpre : exists i1, (if no_block (flags (root i)) && negb false then flush_ignored else mret tt) i
                            = Done tt i1 /\ wrote [] 0 i i1
                            /\ (unflushed i = [] -> unflushed i1 = [])).
  { destruct (no_block (flags (root i))); cbn [andb negb].
    - destruct (flush_ignored_spec 0 i Hcb Hw) as (i1 & E & Hwr & Hz); [by apply quiet_one|by rewrite Nat.add_0_r|].
      exists i1. split; [done|]. split; [done|]. intros _. unfold unflushed. by rewrite Hz.
    - exists i. split; [done|]. split; [|done]. split; [done..|by rewrite app_nil_r|by rewrite Nat.add_0_r]. }
  destruct Hpre as (i1 & E1 & [Hw1 (U1 & U2 & U3 & U4 & U5 & U6 & U7 & U8) Hb1 Ht1] & Hz1).
  destruct (read_said_line line rc (stack_bytes (Z.to_nat size)) rest (root_result i1) i1)
    as (tail & i2 & E2 & _ & Hc2 & Hi2 & He2 & Hr2 & Hh2 & Hf2 & Hwr2 & Hcur2).
  - done.
  - apply Hw1.
  - by rewrite U2.
  - by rewrite U1.
  - rewrite U6, Hc1. done.
  - rewrite stack_bytes_length. lia.
  - exists tail, (i2 <| root_result := root_result i1 |>).
    split; [|split; [done|split; [done|split; [by cbn; rewrite Hr2|split]]]].
    + unfold await_response, await_in, memcached_response_to_root, write_first.
      rewrite io_bind_assoc. io_pure. io_do E1. apply into_root_done.
      unfold receive_responses. io_pure. rewrite U1, Hb. io_pure.
      cbn [response_loop]. io_pure. rewrite U6, Hc1. exact E2.
    + rewrite app_nil_r in Hb1. rewrite <-Hb1. exact (proj1 (writing_written i1 i2 Hwr2)).
    + split; [|change (cursor_active (server i2) = 0); by rewrite Hcur2, Hm, U6, Hc1].
      intros E. rewrite <-(Hz1 E). exact (proj2 (writing_written i1 i2 Hwr2)).
Qed.

(** A command is written behind what was written before, everything is sent, and the
    line that comes in is the answer. *)
Lemma attempt_answered too_big may_buffer multi vector line rc rest i :
  callbacks = None -> says line rc -> more_follow rc = false -> (length line <= 100)%nat ->
  conversing i -> buffer_requests (flags (root i)) && may_buffer = false ->
  multi && multi_store (flags (root i)) = false ->
  takes (filling i + length (mjoin vector)) i -> incoming i = line ++ crlf ++ rest ->
  exists tail i',
    attempt too_big may_buffer multi vector i = Done (Answered rc (line ++ crlf ++ tail)) i'
    /\ connected i' /\ incoming i' = rest /\ root i' = root i
    /\ sent i' = written i ++ mjoin vector /\ unflushed i' = []
    /\ cursor_active (server i') = 0.
Proof.
  intros Hcb Hin Hm Hll [Hw Hidle Hwm Hb Hudp Hnr Hp] Hbuf Hms Ht Hinc.
  destruct (memcached_vdo_spec vector true 0 i Hcb Hw) as (i1 & E1 & [W B F T R I C Hh Hres]).
  { right. right. rewrite Hidle. lia. }
  { by rewrite Hidle. }
  { by rewrite Nat.add_0_r. }
  rewrite Hidle, Hnr, Hp in C. cbn [negb andb Z.b2z] in C. change (0 ⊞ 1) with 1 in C.
  destruct (await_status MEMCACHED_DEFAULT_COMMAND_SIZE line rc rest i1)
    as (tail & i2 & E2 & Hc2 & Hi2 & Hr2 & Hw2 & Hz2 & Hcur2);
    try (rewrite ?R, ?I; done).
  { change MEMCACHED_DEFAULT_COMMAND_SIZE with 512. lia. }
  { by rewrite Nat.add_0_r in T. }
  exists tail, i2. split; [|split; [done|split; [done|split; [by rewrite Hr2|]]]].
  - unfold attempt. io_pure. rewrite Hudp. cbn [andb].
    destruct too_big; io_pure; rewrite Hbuf; cbn [negb]; io_do E1;
      rewrite bool_decide_false by (by intros Hne; apply Hne); io_pure;
      rewrite R, Hnr, Hms; cbn [orb]; io_do E2; done.
  - assert (Hu2 : unflushed i2 = []) by (apply Hz2; by apply F).
    split; [|by split]. rewrite <-B, <-Hw2. unfold written. by rewrite Hu2, app_nil_r.
Qed.

(** While many commands are sent, none of them waits for its response. *)
Lemma attempt_unanswered too_big may_buffer vector m i :
  callbacks = None -> writable i -> is_u32 (cursor_active (server i)) ->
  use_udp (flags (root i)) = false -> buffer_requests (flags (root i)) = false ->
  no_reply (flags (root i)) = false -> piped (flags (root i)) = false ->
  multi_store (flags (root i)) = true ->
  takes (filling i + length (mjoin vector) + m) i ->
  exists i', attempt too_big may_buffer true vector i = Done (Returned MEMCACHED_SUCCESS) i'
    /\ commanded (mjoin vector) true true m i i'.
Proof.
  intros Hcb Hw Hcur Hudp Hbuf Hnr Hp Hms Ht.
  destruct (memcached_vdo_spec vector true m i Hcb Hw) as (i1 & E1 & H1); [by right; left|done..|].
  rewrite Hnr, Hp in H1. exists i1. split; [|exact H1]. pose proof (cmd_root _ _ _ _ _ _ H1) as Hr.
  unfold attempt. io_pure. rewrite Hudp, Hbuf. cbn [andb].
  destruct too_big; io_pure; cbn [negb]; io_do E1;
    rewrite bool_decide_false by (by intros Hne; apply Hne); io_pure;
    rewrite Hr, Hnr, Hms; done.
Qed.
End Answers.

(** ** A command on a handle *)

Section OnHandle.
Context `{HE : Environment} `{HA : Allocator} `{HQ : Qsort} `{HB : BuildConfig}.
Context `{HS : !Stack} `{HU : !Surroundings}.

(** Another query was begun. *)
Definition next_query (m : memcached_st) : memcached_st := m <| query_id ::= fun q => u64 (q + 1) |>.
Definition queried (c : client) : client := c <| memc ::= next_query |>.

(** Nothing is changed about the servers while a command runs: there is no news of
    them, and a server for a key is chosen by the key alone. *)
Record steady (c : client) : Prop := {
  steady_update : arcus_server_check_for_update c = CDone tt c;
  steady_later : arcus_server_check_for_update (queried c) = CDone tt (queried c);
  steady_configuration : is_time_for_rebuild (memc c) = false;
  steady_servers : 0 < memcached_server_count (memc c);
  steady_hosts : auto_eject_hosts (flags (memc c)) = false;
  steady_choice : distribution (memc c) <> MEMCACHED_DISTRIBUTION_RANDOM;
}.

(** The position and the place of the server that a key belongs to. *)
Definition server_for (c : client) (key : bytes) : option (Z * location) :=
  k ← memcached_generate_hash custom_hash (client_store c) 0 (memc c) key;
  l ← memcached_server_instance_fetch (memc c) k;
  Some (k, l).

Lemma begin_command_valid key c :
  steady c -> memcached_key_test (memc c) (Some [key]) = MEMCACHED_SUCCESS ->
  begin_command key c = CDone None (queried c).
Proof.
  intros [_ _ Hb Hs _ _] Hk. unfold begin_command, initialize_query.
  unfold cmodify, cgets, mbind, cio_bind, mret, cio_ret.
  change (is_time_for_rebuild (memc _)) with (is_time_for_rebuild (memc c)). rewrite Hb.
  change (memcached_server_count (memc _)) with (memcached_server_count (memc c)).
  rewrite (proj2 (Z.eqb_neq (memcached_server_count _) 0)) by lia. cbn [memcached_failed memcached_success negb].
  change (memcached_key_test (memc _) (Some [key])) with (memcached_key_test (memc c) (Some [key])).
  rewrite Hk. done.
Qed.

Lemma server_for_spec key k l c :
  server_for c key = Some (k, l) ->
  memcached_generate_hash custom_hash (client_store c) 0 (memc c) key = Some k
  /\ memcached_server_instance_fetch (memc c) k = Some l.
Proof.
  unfold server_for, mbind, option_bind.
  destruct (memcached_generate_hash _ _ _ _ _) as [k'|]; [|done].
  destruct (memcached_server_instance_fetch _ _) as [l'|] eqn:El; [|done].
  by intros [= <- <-].
Qed.

Lemma hash_fixed key k l c :
  auto_eject_hosts (flags (memc c)) = false -> distribution (memc c) <> MEMCACHED_DISTRIBUTION_RANDOM ->
  server_for c key = Some (k, l) -> hash_with_redistribution key c = CDone k c.
Proof.
  intros Hh Hd [Ek _]%server_for_spec.
  unfold hash_with_redistribution, put_handle, draw, cgets, cmodify, mbind, cio_bind.
  rewrite bool_decide_false by done. unfold id, cchecked.
  unfold memcached_generate_hash_with_redistribution, _regen_for_auto_eject. rewrite Hh. cbn [andb].
  unfold memcached_generate_hash in Ek. rewrite Ek. cbn [mret cio_ret].
  transitivity (CDone k (c <| nets := if use_sort_hosts (flags (memc c))
                                      then sorted_nets (memc c) (memc c) (nets c) else nets c |>)).
  { by destruct c. }
  rewrite sorted_nets_same. destruct (use_sort_hosts _); by destruct c.
Qed.

Lemma instance_fetch_some k l c :
  memcached_server_instance_fetch (memc c) k = Some l -> instance_fetch k c = CDone l c.
Proof. intros E. unfold instance_fetch, cgets, cchecked, id, mbind, cio_bind. by rewrite E. Qed.

Lemma server_of_key_fixed key k l c :
  auto_eject_hosts (flags (memc c)) = false -> distribution (memc c) <> MEMCACHED_DISTRIBUTION_RANDOM ->
  server_for c key = Some (k, l) -> server_of_key key c = CDone (k, l) c.
Proof.
  intros Hh Hd Hf. unfold server_of_key. cio_do (hash_fixed key k l c Hh Hd Hf).
  apply server_for_spec in Hf as [_ El]. by cio_do (instance_fetch_some k l c El).
Qed.

(** The same when another query was begun. *)
Lemma server_for_queried key c : server_for (queried c) key = server_for c key.
Proof. reflexivity. Qed.

Lemma instance_fetch_queried k l c :
  memcached_server_instance_fetch (memc c) k = Some l -> instance_fetch k (queried c) = CDone l (queried c).
Proof. apply (instance_fetch_some k l (queried c)). Qed.

Lemma do_action_done fuel k command l c out c' :
  on_server l command c = CDone out c' ->
  match out with Answered rc _ => moved rc = false | Returned _ => True end ->
  do_action (S fuel) k command l c = CDone (out, l) c'.
Proof.
  intros Hc Hm. cbn [do_action]. cio_do Hc. destruct out; [done|]. by rewrite Hm.
Qed.

(** What is known of an instance still is when another query was begun. *)
Lemma conversing_next_query i :
  conversing i -> conversing (i <| root ::= next_query |>).
Proof. intros []. by split. Qed.

(** Lines that say how a command went say nothing of a switchover. *)
Lemma status_not_moved text rc : In (text, rc) status_lines -> moved rc = false.
Proof.
  intros Hin. unfold status_lines in Hin. repeat (destruct Hin as [[= <- <-]|Hin]; [done|]). destruct Hin.
Qed.

Lemma number_text_ok digits : (length digits <= 20)%nat -> number_text digits = Some (" "%byte :: digits).
Proof. intros H. unfold number_text. by rewrite (proj2 (Nat.leb_gt _ _)) by (cbn; lia). Qed.

(** After a command that was answered: the server at [l] was sent [data] and nothing
    else, it owes nothing, what it says next is [rest], and nothing has happened to
    the other servers. *)
Record exchanged (data rest : bytes) (l : location) (c c' : client) : Prop := {
  exch_server : exists i i', instance_at c l = Some i /\ instance_at c' l = Some i'
    /\ connected i' /\ sent i' = written i ++ data /\ unflushed i' = []
    /\ incoming i' = rest /\ cursor_active (server i') = 0;
  exch_others : forall l', l' <> l -> untouched c c' l';
  exch_handle : exists s, memc c' = set_server (next_query (memc c)) l s;
}.

(** What [attempt] says of a server, for the handle. *)
Lemma attempt_on_handle fuel k too_big may_buffer multi vector line rc rest l c i :
  callbacks = None -> says line rc -> more_follow rc = false -> moved rc = false ->
  (length line <= 100)%nat ->
  instance_at c l = Some i -> conversing i -> buffer_requests (flags (memc c)) && may_buffer = false ->
  multi && multi_store (flags (memc c)) = false ->
  takes (filling i + length (mjoin vector)) i -> incoming i = line ++ crlf ++ rest ->
  exists tail c',
    do_action (S fuel) k (attempt too_big may_buffer multi vector) l (queried c)
    = CDone (Answered rc (line ++ crlf ++ tail), l) c' /\ exchanged (mjoin vector) rest l c c'.
Proof.
  intros Hcb Hin Hm Hmv Hll Hi Hconv Hbuf Hms Ht Hinc. pose proof (instance_at_root c l i Hi) as Hr.
  set (i0 := i <| root ::= next_query |>).
  assert (Hi0 : instance_at (queried c) l = Some i0).
  { unfold instance_at in *. replace (server_at (memc (queried c)) l) with (server_at (memc c) l)
      by (by destruct l). destruct (server_at (memc c) l) as [s|]; [|done]. injection Hi as <-. done. }
  destruct (attempt_answered too_big may_buffer multi vector line rc rest i0)
    as (tail & i1 & E & Hc1 & Hin1 & Hr1 & Hs1 & Hu1 & Hcur1); try done.
  { by apply conversing_next_query. }
  { change (buffer_requests (flags (root i)) && may_buffer = false). by rewrite Hr. }
  { change (multi && multi_store (flags (root i)) = false). by rewrite Hr. }
  exists tail, (put_back (queried c) l i1). split.
  { apply do_action_done; [by apply (on_server_done _ _ _ i0)|done]. }
  assert (Hroot : root i1 = memc (queried c)) by (rewrite Hr1; cbn; by rewrite Hr).
  split.
  - exists i, (placed l i1). split; [done|]. split.
    { apply put_back_at. rewrite Hroot. exists (server i0). by apply instance_at_server. }
    split; [exact Hc1|]. split; [exact Hs1|]. split; [exact Hu1|]. split; [|exact Hcur1].
    rewrite <-Hin1. unfold incoming, arrives, placed. cbn. by destruct l.
  - intros l' Hl. destruct (put_back_other (queried c) l l' i1 Hl Hroot) as [A B]. split.
    + rewrite A. by destruct l'.
    + by rewrite B.
  - exists (server i1). change (memc (put_back _ l i1)) with (set_server (root i1) l (server i1)).
    by rewrite Hroot.
Qed.
End OnHandle.

(** ** Commands on many servers *)

(** The same handle, but for its servers and what the commands set. *)
Definition alike (m0 m : memcached_st) : Prop :=
  length (servers m) = length (servers m0)
  /\ m = m0 <| query_id := query_id m |>
           <| flags ::= fun f => f <| multi_store := multi_store (flags m) |> |>
           <| servers := servers m |> <| server_pool := server_pool m |>.

Lemma alike_refl m : alike m m.
Proof. split; [done|]. by destruct m as [[]]. Qed.

Lemma alike_set_server m0 m l s : alike m0 m -> alike m0 (set_server m l s).
Proof.
  intros [Hl E]. destruct l; cbn.
  - split; [by cbn; rewrite length_insert|]. cbn. rewrite E at 1. done.
  - split; [done|]. cbn. rewrite E at 1. done.
Qed.

Lemma alike_multi_store m0 m b :
  alike m0 m -> alike m0 (m <| flags ::= fun f => f <| multi_store := b |> |>).
Proof. intros [Hl E]. split; [done|]. rewrite E at 1. done. Qed.

Lemma alike_next_query m0 m : alike m0 m -> alike m0 (next_query m).
Proof. intros [Hl E]. split; [done|]. rewrite E at 1. done. Qed.

Lemma alike_fetch m0 m k :
  alike m0 m -> memcached_server_instance_fetch m k = memcached_server_instance_fetch m0 k.
Proof.
  intros [Hl E]. unfold memcached_server_instance_fetch. destruct (k <? 0); [done|].
  replace (repl_enabled (flags m)) with (repl_enabled (flags m0)) by (by rewrite E).
  replace (rgroups m) with (rgroups m0) by (by rewrite E).
  destruct (repl_enabled _); [done|].
  destruct (servers m !! Z.to_nat k) eqn:E1, (servers m0 !! Z.to_nat k) eqn:E2; try done;
    [apply lookup_lt_Some in E1; apply lookup_ge_None in E2
    |apply lookup_lt_Some in E2; apply lookup_ge_None in E1]; lia.
Qed.

(** What a command needs to know of an instance that others were written to
    meanwhile. *)
Record as_before (i i' : instance) : Prop := {
  ab_server : server i' = server i;
  ab_here : here i' = here i;
  ab_read : read_buffer i' = read_buffer i;
  ab_write : write_buffer i' = write_buffer i;
  ab_recvs : recvs i' = recvs i;
  ab_polls : polls i' = polls i;
  ab_sends : sends i' = sends i;
  ab_sent : sent i' = sent i;
  ab_errors : server_errors (errors i') = server_errors (errors i);
  ab_timeout : poll_timeout (root i') = poll_timeout (root i);
}.

#[export] Instance as_before_equivalence : Equivalence as_before.
Proof.
  split.
  - by intros i.
  - intros i j []. by split.
  - intros i j k [] []. split; congruence.
Qed.

Section AsBefore.
Context (i i' : instance) (H : as_before i i').

Lemma as_before_offset : read_offset i' = read_offset i.
Proof. destruct H. unfold read_offset. by rewrite ab_server0, ab_here0. Qed.

Lemma as_before_connected : connected i -> connected i'.
Proof.
  pose proof as_before_offset as Ho. destruct H. unfold connected.
  by rewrite Ho, ab_server0, ab_here0, ab_read0.
Qed.

Lemma as_before_writable : writable i -> writable i'.
Proof.
  intros (A & B & C & D & E & F). pose proof (as_before_connected E) as E'.
  destruct H. unfold writable, is_udp in *. by rewrite ab_server0, ab_write0.
Qed.

Lemma as_before_incoming : incoming i' = incoming i.
Proof.
  pose proof as_before_offset as Ho. destruct H. unfold incoming, buffered, arrives.
  by rewrite Ho, ab_server0, ab_read0, ab_timeout0, ab_recvs0, ab_polls0.
Qed.

Lemma as_before_written : written i' = written i /\ unflushed i' = unflushed i /\ filling i' = filling i.
Proof. destruct H. unfold written, unflushed, filling. by rewrite ab_server0, ab_write0, ab_sent0. Qed.

Lemma as_before_takes n : takes n i -> takes n i'.
Proof. destruct H. unfold takes. by rewrite ab_timeout0, ab_sends0, ab_recvs0, ab_polls0. Qed.
End AsBefore.

Section Many.
Context `{HE : Environment} `{HA : Allocator} `{HQ : Qsort} `{HB : BuildConfig}.
Context `{HS : !Stack} `{HU : !Surroundings}.

Lemma alike_server_for c0 c key :
  alike (memc c0) (memc c) -> client_store c = client_store c0 ->
  server_for c key = server_for c0 key.
Proof.
  intros Ha Hs. unfold server_for. rewrite Hs.
  replace (memcached_generate_hash custom_hash (client_store c0) 0 (memc c) key)
    with (memcached_generate_hash custom_hash (client_store c0) 0 (memc c0) key)
    by (by rewrite (proj2 Ha)).
  destruct (memcached_generate_hash _ _ _ _ _) as [k|]; [|done]. cbn.
  by rewrite (alike_fetch _ _ _ Ha).
Qed.

(** What holds of every server when commands have been sent to several: [R] says how
    the instance at a place has changed. *)
Record stands (R : location -> instance -> instance -> Prop) (c0 c : client) : Prop := {
  st_handle : alike (memc c0) (memc c);
  st_store : client_store c = client_store c0;
  st_at : forall l i0, instance_at c0 l = Some i0 ->
    exists i, instance_at c l = Some i /\ R l i0 i;
}.

Lemma instance_at_elsewhere c l i l' i' :
  l' <> l -> root i = memc c -> instance_at c l' = Some i' ->
  exists j, instance_at (put_back c l i) l' = Some j /\ as_before i' j.
Proof.
  intros Hl Hr Hi. destruct (put_back_other c l l' i Hl Hr) as [A B].
  unfold instance_at in *. rewrite A. destruct (server_at (memc c) l') as [s|]; [|done].
  injection Hi as <-. eexists. split; [reflexivity|]. unfold instance_of. rewrite B.
  split; try done. cbn. by rewrite Hr; destruct l.
Qed.

Lemma stands_mono R R' c0 c :
  (forall l i i', R l i i' -> R' l i i') -> stands R c0 c -> stands R' c0 c.
Proof.
  intros HR [Ha Hs Hat]. split; [done|done|]. intros l i0 Hi0.
  destruct (Hat l i0 Hi0) as (i & Hi & Hr). exists i. auto.
Qed.

(** A change of the handle that is not one of its servers. *)
Lemma stands_handle R f c0 c :
  (forall l i i' j, R l i i' -> as_before i' j -> R l i j) ->
  alike (memc c0) (f (memc c)) ->
  (forall l, server_at (f (memc c)) l = server_at (memc c) l) ->
  poll_timeout (f (memc c)) = poll_timeout (memc c) ->
  stands R c0 c -> stands R c0 (c <| memc ::= f |>).
Proof.
  intros HR Hf Hat Hp [_ Hs Hr]. split; [done|done|]. intros l i0 Hi0.
  destruct (Hr l i0 Hi0) as (i & Hi & Hri). unfold instance_at in *.
  change (memc (c <| memc ::= f |>)) with (f (memc c)). rewrite Hat.
  destruct (server_at (memc c) l) as [s|]; [|done]. injection Hi as <-. eexists.
  split; [reflexivity|]. apply (HR _ _ _ _ Hri). by split.
Qed.

(** What is done on a server keeps what holds of the others. *)
Lemma on_server_stands {A} R R' c0 c l i0 (m : io A) x :
  stands R c0 c -> instance_at c0 l = Some i0 ->
  (forall i, instance_at c l = Some i -> R l i0 i ->
     exists j, m i = Done x j /\ root j = root i /\ R' l i0 j) ->
  (forall l' i i' j, R' l' i i' -> as_before i' j -> R' l' i j) ->
  (forall l' i i', l' <> l -> R l' i i' -> R' l' i i') ->
  exists c', on_server l m c = CDone x c' /\ stands R' c0 c'
    /\ multi_store (flags (memc c')) = multi_store (flags (memc c))
    /\ exists i j, instance_at c l = Some i /\ m i = Done x j /\ c' = put_back c l j.
Proof.
  intros [Ha Hs Hat] Hi0 Hm HR' Hne. destruct (Hat l i0 Hi0) as (i & Hi & Hr).
  destruct (Hm i Hi Hr) as (j & E & Hroot & Hj).
  pose proof (instance_at_root c l i Hi) as Hri. rewrite Hri in Hroot.
  exists (put_back c l j). split; [by apply (on_server_done _ _ _ i)|]. split; [split|].
  - change (memc (put_back c l j)) with (set_server (root j) l (server j)). rewrite Hroot.
    by apply alike_set_server.
  - exact Hs.
  - intros l' i0' Hi0'. destruct (decide (l' = l)) as [->|Hl].
    + rewrite Hi0 in Hi0'. injection Hi0' as <-. exists (placed l j). split.
      * apply put_back_at. rewrite Hroot. exists (server i). by apply instance_at_server.
      * apply (HR' l i0 j); [done|]. split; try done. cbn. by destruct l.
    + destruct (Hat l' i0' Hi0') as (i' & Hi' & Hr').
      destruct (instance_at_elsewhere c l j l' i' Hl Hroot Hi') as (j' & Hj' & Hab).
      exists j'. split; [done|]. apply (HR' l' i0' i'); [|done]. by apply Hne.
  - split; [|by exists i, j].
    change (memc (put_back c l j)) with (set_server (root j) l (server j)). rewrite Hroot. by destruct l.
Qed.

(** The same for one instance, and what the handle keeps. *)
Lemma on_server_step {A} R R' c0 c l i0 i (m : io A) x j :
  stands R c0 c -> instance_at c0 l = Some i0 -> instance_at c l = Some i ->
  m i = Done x j -> root j = root i -> root_result j = root_result i -> R' l i0 j ->
  (forall l' i i' j, R' l' i i' -> as_before i' j -> R' l' i j) ->
  (forall l' i i', l' <> l -> R l' i i' -> R' l' i i') ->
  exists c', on_server l m c = CDone x c' /\ stands R' c0 c' /\ handle_as_before c c'.
Proof.
  intros Hst Hi0 Hi Ej Hr Hres HR Hab Hne.
  destruct (on_server_stands R R' c0 c l i0 m x Hst Hi0) as (c' & E & Hst' & _ & i2 & j2 & Hi2 & Ej2 & ->); [|done..|].
  - intros i2 Hi2 _. assert (i2 = i) as -> by congruence. by exists j.
  - assert (i2 = i) as -> by congruence. assert (j2 = j) as -> by congruence.
    exists (put_back c l j). split; [done|]. split; [done|]. by apply (put_back_handle c l i).
Qed.

(** A look at a server. *)
Lemma look_at {A} R c0 c l i0 (f : instance -> A) x :
  stands R c0 c -> instance_at c0 l = Some i0 ->
  (forall l' i i' j, R l' i i' -> as_before i' j -> R l' i j) ->
  (forall i, R l i0 i -> f i = x) ->
  exists c', on_server l (gets f) c = CDone x c' /\ stands R c0 c'
    /\ multi_store (flags (memc c')) = multi_store (flags (memc c)).
Proof.
  intros Hst Hi0 HR Hf.
  destruct (on_server_stands R R c0 c l i0 (gets f) x Hst Hi0) as (c' & E & Hst' & Hms & _); [|done..|].
  - intros i Hi Hr. exists i. by rewrite <-(Hf i Hr).
  - by exists c'.
Qed.

Lemma stands_multi_store R b c0 c :
  (forall l i i' j, R l i i' -> as_before i' j -> R l i j) ->
  stands R c0 c ->
  stands R c0 (c <| memc ::= fun m => m <| flags ::= fun f => f <| multi_store := b |> |> |>).
Proof.
  intros HR Hst. apply stands_handle; try done.
  by apply alike_multi_store, Hst.
Qed.

Lemma stands_queried c : stands (fun _ => as_before) c (queried c).
Proof.
  apply (stands_handle _ next_query).
  - intros l i i' j H1 H2. by etransitivity.
  - apply alike_next_query, alike_refl.
  - done.
  - done.
  - split; [apply alike_refl|done|]. intros l i0 Hi0. by exists i0.
Qed.

(** Nothing is read where no response is awaited. *)
Lemma drain_idle i : cursor_active (server i) = 0 -> drain_responses i = Done tt i.
Proof. intros E. unfold drain_responses. io_pure. unfold id. by rewrite E. Qed.

Definition all_idle (c : client) : Prop :=
  forall x, 0 <= x < memcached_server_count (memc c) ->
    exists l i, memcached_server_instance_fetch (memc c) x = Some l
      /\ instance_at c l = Some i /\ cursor_active (server i) = 0.

Lemma drain_all n : forall x c0 c,
  all_idle c0 -> 0 <= x -> x + Z.of_nat n <= memcached_server_count (memc c0) ->
  stands (fun _ => as_before) c0 c ->
  exists c', for_servers n x drain_responses c = CDone tt c' /\ stands (fun _ => as_before) c0 c'
    /\ handle_as_before c c'.
Proof.
  induction n as [|n IH]; intros x c0 c Hidle Hx Hn Hst; [by exists c|].
  destruct (Hidle x) as (l & i0 & Hl & Hi0 & Hc0); [lia|].
  assert (Hf : memcached_server_instance_fetch (memc c) x = Some l)
    by (by rewrite (alike_fetch _ _ _ (st_handle _ _ _ Hst))).
  destruct (on_server_stands _ (fun _ => as_before) c0 c l i0 drain_responses tt Hst Hi0)
    as (c1 & E1 & Hst1 & _ & i & j & Hi & Ej & ->).
  - intros i Hi Hb. exists i. split; [|by split]. apply drain_idle. by rewrite (ab_server _ _ Hb).
  - intros ? ? ? ? H1 H2. by etransitivity.
  - done.
  - destruct (IH (x + 1) c0 (put_back c l j) Hidle) as (c2 & E2 & Hst2 & Hh2); [lia..|done|].
    exists c2. split; [|split; [done|]].
    { cbn [for_servers]. cio_do (instance_fetch_some x l c Hf). cio_do E1. exact E2. }
    destruct (st_at _ _ _ Hst l i0 Hi0) as (i' & Hi' & Hb). assert (i' = i) as -> by congruence.
    rewrite drain_idle in Ej by (by rewrite (ab_server _ _ Hb)). injection Ej as <-.
    eapply handle_as_before_trans; [by apply (put_back_handle c l i i)|done].
Qed.
End Many.

(** ** A concrete handle *)

#[local] Existing Instance some_environment.
#[local] Existing Instance all_hashes.

#[export] Instance some_surroundings : Surroundings.
Proof.
  refine {| dist_env := some_env; custom_hash := fun _ _ _ => 0;
            sorted_nets := fun _ _ n => n; arcus_server_check_for_update := mret tt;
            memcached_reset := mret MEMCACHED_SUCCESS |}.
  done.
Defined.

Definition net_of (i : instance) : net :=
  {| net_errors := []; net_here := here i; net_read_buffer := read_buffer i;
     net_write_buffer := write_buffer i; net_recvs := recvs i; net_polls := polls i;
     net_sends := sends i; net_sent := [] |}.

(** A handle with open connections to servers in its array, or with replication to
    the members of a group, on which the given events happen. *)
Abbreviation connections := (list (list send_result * list recv_result * list poll_result)).

Definition opened (e : list send_result * list recv_result * list poll_result) : instance :=
  outgoing [] e.1.1 e.1.2 e.2.

Definition some_client (events : connections) : client :=
  {| memc := _memcached_init <| poll_timeout := 500 |> <| number_of_hosts := Z.of_nat (length events) |>
               <| servers := (fun e => server (opened e)) <$> events |>;
     client_store := ∅; memc_errors := []; memc_result := empty_result;
     last_response_code := MEMCACHED_SUCCESS; client_errno := 0;
     randoms := []; readies := [];
     nets := fun l => net_of (opened (default ([], [], [])
               (match l with Listed k => events !! k | Pooled x => events !! x end))) |}.

Lemma some_client_at events k e :
  events !! k = Some e ->
  exists i, instance_at (some_client events) (Listed k) = Some i /\ as_before (opened e) i.
Proof.
  intros E. unfold instance_at.
  assert (Es : server_at (memc (some_client events)) (Listed k) = Some (server (opened e))).
  { change (((fun e => server (opened e)) <$> events) !! k = Some (server (opened e))).
    by rewrite list_lookup_fmap, E. }
  rewrite Es. eexists. split; [reflexivity|].
  assert (En : nets (some_client events) (Listed k) = net_of (opened e))
    by (cbn [nets some_client]; by rewrite E).
  unfold instance_of. rewrite En.
  assert (Ep : poll_timeout (root (opened e)) = 500) by reflexivity.
  assert (Et : sent (opened e) = []) by reflexivity.
  assert (Ee : server_errors (errors (opened e)) = []) by reflexivity.
  revert Ep Et Ee. generalize (opened e). intros i Ep Et Ee.
  split; rewrite ?Ep, ?Et, ?Ee; reflexivity.
Qed.

Lemma opened_writable e : writable (opened e).
Proof.
  destruct e as [[ss rs] ps]. split; [by vm_compute|]. split; [done|]. split; [done|]. split; [done|].
  split; [|done]. exact (connection_connected rs ps).
Qed.

Lemma steady_some_client events : (0 < length events)%nat -> steady (some_client events).
Proof. intros H. split; [done|done|done|cbn; lia|done|done]. Qed.

Lemma opened_conversing e i m :
  as_before (opened e) i -> memc (some_client m) = root i -> conversing i.
Proof.
  intros Hb Hr. split; try (by rewrite <-Hr).
  - apply (as_before_writable _ _ Hb), opened_writable.
  - by rewrite (ab_server _ _ Hb).
Qed.

Definition with_flags (f : memcached_flags -> memcached_flags) (c : client) : client :=
  c <| memc ::= fun m => m <| flags ::= f |> |>.
