(* ===== verification/Behavior.v ===== *)
(** The options of a handle: behavior.cc. *)
From S2P Require Import Prelude HashFunctions Hashkit Memcached Text KeyHash Continuum Distribution.
From S2P Require Import ServerList Rgroup Error StringBuf Result Io Response Write Client Command.

(** [memcached_behavior_t]. *)
Inductive memcached_behavior_t :=
  | MEMCACHED_BEHAVIOR_NO_BLOCK
  | MEMCACHED_BEHAVIOR_TCP_NODELAY
  | MEMCACHED_BEHAVIOR_HASH
  | MEMCACHED_BEHAVIOR_SOCKET_SEND_SIZE
  | MEMCACHED_BEHAVIOR_SOCKET_RECV_SIZE
  | MEMCACHED_BEHAVIOR_CACHE_LOOKUPS
  | MEMCACHED_BEHAVIOR_SUPPORT_CAS
  | MEMCACHED_BEHAVIOR_POLL_TIMEOUT
  | MEMCACHED_BEHAVIOR_DISTRIBUTION
  | MEMCACHED_BEHAVIOR_BUFFER_REQUESTS
  | MEMCACHED_BEHAVIOR_USER_DATA
  | MEMCACHED_BEHAVIOR_SORT_HOSTS
  | MEMCACHED_BEHAVIOR_VERIFY_KEY
  | MEMCACHED_BEHAVIOR_CONNECT_TIMEOUT
  | MEMCACHED_BEHAVIOR_RETRY_TIMEOUT
  | MEMCACHED_BEHAVIOR_KETAMA_HASH
  | MEMCACHED_BEHAVIOR_BINARY_PROTOCOL
  | MEMCACHED_BEHAVIOR_SND_TIMEOUT
  | MEMCACHED_BEHAVIOR_RCV_TIMEOUT
  | MEMCACHED_BEHAVIOR_SERVER_FAILURE_LIMIT
  | MEMCACHED_BEHAVIOR_IO_MSG_WATERMARK
  | MEMCACHED_BEHAVIOR_IO_BYTES_WATERMARK
  | MEMCACHED_BEHAVIOR_IO_KEY_PREFETCH
  | MEMCACHED_BEHAVIOR_HASH_WITH_PREFIX_KEY
  | MEMCACHED_BEHAVIOR_ENABLE_SHARD_KEY
  | MEMCACHED_BEHAVIOR_NOREPLY
  | MEMCACHED_BEHAVIOR_USE_UDP
  | MEMCACHED_BEHAVIOR_AUTO_EJECT_HOSTS
  | MEMCACHED_BEHAVIOR_NUMBER_OF_REPLICAS
  | MEMCACHED_BEHAVIOR_RANDOMIZE_REPLICA_READ
  | MEMCACHED_BEHAVIOR_CORK
  | MEMCACHED_BEHAVIOR_TCP_KEEPALIVE
  | MEMCACHED_BEHAVIOR_TCP_KEEPIDLE
  | MEMCACHED_BEHAVIOR_LOAD_FROM_FILE
  | MEMCACHED_BEHAVIOR_REMOVE_FAILED_SERVERS
  | MEMCACHED_BEHAVIOR_MAX.

#[export] Instance behavior_eq_dec : EqDecision memcached_behavior_t.
Proof. solve_decision. Defined.

(** The names, for messages. *)
Definition libmemcached_string_behavior (flag : memcached_behavior_t) : bytes :=
  match flag with
  | MEMCACHED_BEHAVIOR_NO_BLOCK => str "MEMCACHED_BEHAVIOR_NO_BLOCK"
  | MEMCACHED_BEHAVIOR_TCP_NODELAY => str "MEMCACHED_BEHAVIOR_TCP_NODELAY"
  | MEMCACHED_BEHAVIOR_HASH => str "MEMCACHED_BEHAVIOR_HASH"
  | MEMCACHED_BEHAVIOR_SOCKET_SEND_SIZE => str "MEMCACHED_BEHAVIOR_SOCKET_SEND_SIZE"
  | MEMCACHED_BEHAVIOR_SOCKET_RECV_SIZE => str "MEMCACHED_BEHAVIOR_SOCKET_RECV_SIZE"
  | MEMCACHED_BEHAVIOR_CACHE_LOOKUPS => str "MEMCACHED_BEHAVIOR_CACHE_LOOKUPS"
  | MEMCACHED_BEHAVIOR_SUPPORT_CAS => str "MEMCACHED_BEHAVIOR_SUPPORT_CAS"
  | MEMCACHED_BEHAVIOR_POLL_TIMEOUT => str "MEMCACHED_BEHAVIOR_POLL_TIMEOUT"
  | MEMCACHED_BEHAVIOR_DISTRIBUTION => str "MEMCACHED_BEHAVIOR_DISTRIBUTION"
  | MEMCACHED_BEHAVIOR_BUFFER_REQUESTS => str "MEMCACHED_BEHAVIOR_BUFFER_REQUESTS"
  | MEMCACHED_BEHAVIOR_USER_DATA => str "MEMCACHED_BEHAVIOR_USER_DATA"
  | MEMCACHED_BEHAVIOR_SORT_HOSTS => str "MEMCACHED_BEHAVIOR_SORT_HOSTS"
  | MEMCACHED_BEHAVIOR_VERIFY_KEY => str "MEMCACHED_BEHAVIOR_VERIFY_KEY"
  | MEMCACHED_BEHAVIOR_CONNECT_TIMEOUT => str "MEMCACHED_BEHAVIOR_CONNECT_TIMEOUT"
  | MEMCACHED_BEHAVIOR_RETRY_TIMEOUT => str "MEMCACHED_BEHAVIOR_RETRY_TIMEOUT"
  | MEMCACHED_BEHAVIOR_KETAMA_HASH => str "MEMCACHED_BEHAVIOR_KETAMA_HASH"
  | MEMCACHED_BEHAVIOR_BINARY_PROTOCOL => str "MEMCACHED_BEHAVIOR_BINARY_PROTOCOL"
  | MEMCACHED_BEHAVIOR_SND_TIMEOUT => str "MEMCACHED_BEHAVIOR_SND_TIMEOUT"
  | MEMCACHED_BEHAVIOR_RCV_TIMEOUT => str "MEMCACHED_BEHAVIOR_RCV_TIMEOUT"
  | MEMCACHED_BEHAVIOR_SERVER_FAILURE_LIMIT => str "MEMCACHED_BEHAVIOR_SERVER_FAILURE_LIMIT"
  | MEMCACHED_BEHAVIOR_IO_MSG_WATERMARK => str "MEMCACHED_BEHAVIOR_IO_MSG_WATERMARK"
  | MEMCACHED_BEHAVIOR_IO_BYTES_WATERMARK => str "MEMCACHED_BEHAVIOR_IO_BYTES_WATERMARK"
  | MEMCACHED_BEHAVIOR_IO_KEY_PREFETCH => str "MEMCACHED_BEHAVIOR_IO_KEY_PREFETCH"
  | MEMCACHED_BEHAVIOR_HASH_WITH_PREFIX_KEY => str "MEMCACHED_BEHAVIOR_HASH_WITH_PREFIX_KEY"
  | MEMCACHED_BEHAVIOR_ENABLE_SHARD_KEY => str "MEMCACHED_BEHAVIOR_ENABLE_SHARD_KEY"
  | MEMCACHED_BEHAVIOR_NOREPLY => str "MEMCACHED_BEHAVIOR_NOREPLY"
  | MEMCACHED_BEHAVIOR_USE_UDP => str "MEMCACHED_BEHAVIOR_USE_UDP"
  | MEMCACHED_BEHAVIOR_AUTO_EJECT_HOSTS => str "MEMCACHED_BEHAVIOR_AUTO_EJECT_HOSTS"
  | MEMCACHED_BEHAVIOR_NUMBER_OF_REPLICAS => str "MEMCACHED_BEHAVIOR_NUMBER_OF_REPLICAS"
  | MEMCACHED_BEHAVIOR_RANDOMIZE_REPLICA_READ => str "MEMCACHED_BEHAVIOR_RANDOMIZE_REPLICA_READ"
  | MEMCACHED_BEHAVIOR_CORK => str "MEMCACHED_BEHAVIOR_CORK"
  | MEMCACHED_BEHAVIOR_TCP_KEEPALIVE => str "MEMCACHED_BEHAVIOR_TCP_KEEPALIVE"
  | MEMCACHED_BEHAVIOR_TCP_KEEPIDLE => str "MEMCACHED_BEHAVIOR_TCP_KEEPIDLE"
  | MEMCACHED_BEHAVIOR_LOAD_FROM_FILE => str "MEMCACHED_BEHAVIOR_LOAD_FROM_FILE"
  | MEMCACHED_BEHAVIOR_REMOVE_FAILED_SERVERS => str "MEMCACHED_BEHAVIOR_REMOVE_FAILED_SERVERS"
  | MEMCACHED_BEHAVIOR_MAX => str "INVALID memcached_behavior_t"
  end.

Definition libmemcached_string_distribution (flag : memcached_server_distribution_t) : bytes :=
  match flag with
  | MEMCACHED_DISTRIBUTION_MODULA => str "MEMCACHED_DISTRIBUTION_MODULA"
  | MEMCACHED_DISTRIBUTION_CONSISTENT => str "MEMCACHED_DISTRIBUTION_CONSISTENT"
  | MEMCACHED_DISTRIBUTION_CONSISTENT_KETAMA => str "MEMCACHED_DISTRIBUTION_CONSISTENT_KETAMA"
  | MEMCACHED_DISTRIBUTION_RANDOM => str "MEMCACHED_DISTRIBUTION_RANDOM"
  | MEMCACHED_DISTRIBUTION_CONSISTENT_KETAMA_SPY => str "MEMCACHED_DISTRIBUTION_CONSISTENT_KETAMA_SPY"
  | MEMCACHED_DISTRIBUTION_VIRTUAL_BUCKET => str "MEMCACHED_DISTRIBUTION_VIRTUAL_BUCKET"
  | MEMCACHED_DISTRIBUTION_CONSISTENT_MAX => str "INVALID memcached_server_distribution_t"
  end.

Lemma behavior_names_differ a b :
  libmemcached_string_behavior a = libmemcached_string_behavior b -> a = b.
Proof. destruct a, b; (reflexivity || (intros H; vm_compute in H; discriminate H)). Qed.

(** The conversions of [uint64_t] to the enumerations, which are unsigned; [None] is a
    value that is none of theirs. *)
Definition distributions : list memcached_server_distribution_t :=
  [MEMCACHED_DISTRIBUTION_MODULA; MEMCACHED_DISTRIBUTION_CONSISTENT;
   MEMCACHED_DISTRIBUTION_CONSISTENT_KETAMA; MEMCACHED_DISTRIBUTION_RANDOM;
   MEMCACHED_DISTRIBUTION_CONSISTENT_KETAMA_SPY; MEMCACHED_DISTRIBUTION_VIRTUAL_BUCKET].

Definition hashes : list hashkit_hash_algorithm_t :=
  [HASHKIT_HASH_DEFAULT; HASHKIT_HASH_MD5; HASHKIT_HASH_CRC; HASHKIT_HASH_FNV1_64;
   HASHKIT_HASH_FNV1A_64; HASHKIT_HASH_FNV1_32; HASHKIT_HASH_FNV1A_32; HASHKIT_HASH_HSIEH;
   HASHKIT_HASH_MURMUR; HASHKIT_HASH_JENKINS; HASHKIT_HASH_CUSTOM; HASHKIT_HASH_MAX].

Definition distribution_of (data : Z) : option memcached_server_distribution_t :=
  distributions !! Z.to_nat (u32 data).
Definition hash_of (data : Z) : option hashkit_hash_algorithm_t := hashes !! Z.to_nat (u32 data).

Definition distribution_number (d : memcached_server_distribution_t) : Z :=
  match d with
  | MEMCACHED_DISTRIBUTION_MODULA => 0
  | MEMCACHED_DISTRIBUTION_CONSISTENT => 1
  | MEMCACHED_DISTRIBUTION_CONSISTENT_KETAMA => 2
  | MEMCACHED_DISTRIBUTION_RANDOM => 3
  | MEMCACHED_DISTRIBUTION_CONSISTENT_KETAMA_SPY => 4
  | MEMCACHED_DISTRIBUTION_VIRTUAL_BUCKET => 5
  | MEMCACHED_DISTRIBUTION_CONSISTENT_MAX => 6
  end.

Definition hash_number (a : hashkit_hash_algorithm_t) : Z :=
  match a with
  | HASHKIT_HASH_DEFAULT => 0
  | HASHKIT_HASH_MD5 => 1
  | HASHKIT_HASH_CRC => 2
  | HASHKIT_HASH_FNV1_64 => 3
  | HASHKIT_HASH_FNV1A_64 => 4
  | HASHKIT_HASH_FNV1_32 => 5
  | HASHKIT_HASH_FNV1A_32 => 6
  | HASHKIT_HASH_HSIEH => 7
  | HASHKIT_HASH_MURMUR => 8
  | HASHKIT_HASH_JENKINS => 9
  | HASHKIT_HASH_CUSTOM => 10
  | HASHKIT_HASH_MAX => 11
  end.

(** [bool(data)], and what [true] and [false] are as a number. *)
Definition of_number (data : Z) : bool := negb (data =? 0).
Definition to_number (b : bool) : Z := Z.b2z b.

Section Behavior.
Context `{HE : Environment} `{HA : Allocator} `{HQ : Qsort} `{HB : BuildConfig}.
Context `{HS : !Stack} `{HU : !Surroundings}.

(** [getsockopt] of the size of the send ([true]) or the receive buffer, which sets
    [errno] when it fails; the configuration file; whether the system has
    [MSG_MORE]. *)
Variable getsockopt : bool -> io (option Z).
Variable memcached_parse_filename : cio memcached_return_t.
Variable have_msg_more : bool.

Definition modify_memc (f : memcached_st -> memcached_st) : cio unit :=
  cmodify (fun c => c <| memc ::= f |>).
Definition modify_flags (f : memcached_flags -> memcached_flags) : cio unit :=
  modify_memc (fun m => m <| flags ::= f |>).

Definition behavior_error (rc : memcached_return_t) (line : Z) (text : string) : cio memcached_return_t :=
  memc_set_error rc (memcached_at "behavior.cc" line) (Some (str text)).

(** Setting a hash function; a number that is none of the enumeration is not in the
    [switch] of [_set_function]. *)
Definition set_function_number (f : hashkit_function_st) (type : option hashkit_hash_algorithm_t)
    : hashkit_return_t * hashkit_function_st :=
  match type with
  | Some a => _set_function f a
  | None => (HASHKIT_SUCCESS, {| function := function f; context := None |})
  end.

Definition memcached_behavior_set_key_hash (type : option hashkit_hash_algorithm_t)
    : cio memcached_return_t :=
  m ← cgets memc;
  let '(rc, f) := set_function_number (base_hash (hashkit m)) type in
  _ ← modify_memc (fun m => m <| hashkit ::= fun h => with_base_hash h f |>);
  if hashkit_success rc then mret MEMCACHED_SUCCESS
  else behavior_error MEMCACHED_INVALID_ARGUMENTS 493 "Invalid memcached_hash_t()".

Definition memcached_behavior_set_distribution_hash (type : option hashkit_hash_algorithm_t)
    : cio memcached_return_t :=
  m ← cgets memc;
  let '(rc, f) := set_function_number (distribution_hash (hashkit m)) type in
  _ ← modify_memc (fun m => m <| hashkit ::= fun h => with_distribution_hash h f |>);
  if hashkit_success rc then mret MEMCACHED_SUCCESS
  else behavior_error MEMCACHED_INVALID_ARGUMENTS 507 "Invalid memcached_hash_t()".

Definition is_consistent (d : memcached_server_distribution_t) : bool :=
  bool_decide (d = MEMCACHED_DISTRIBUTION_CONSISTENT)
  || bool_decide (d = MEMCACHED_DISTRIBUTION_CONSISTENT_KETAMA)
  || bool_decide (d = MEMCACHED_DISTRIBUTION_CONSISTENT_KETAMA_SPY).

Definition memcached_behavior_set_distribution (type : option memcached_server_distribution_t)
    : cio memcached_return_t :=
  match type with
  | Some d =>
      _ ← (if is_consistent d then
             _ ← memcached_behavior_set_key_hash (Some HASHKIT_HASH_MD5);
             _ ← memcached_behavior_set_distribution_hash (Some HASHKIT_HASH_MD5);
             mret tt
           else mret tt);
      _ ← modify_memc (fun m => m <| distribution := d |>);
      _ ← distribute;
      mret MEMCACHED_SUCCESS
  | None => behavior_error MEMCACHED_INVALID_ARGUMENTS 476 "Invalid memcached_server_distribution_t"
  end.

(** What a [case] does and its [break]. *)
Definition done_after (m : cio unit) : cio memcached_return_t := _ ← m; mret MEMCACHED_SUCCESS.

Definition set_number (f : memcached_st -> memcached_st) : cio memcached_return_t :=
  done_after (modify_memc f).
Definition set_flag (f : memcached_flags -> memcached_flags) : cio memcached_return_t :=
  done_after (modify_flags f).
(** The connections are opened anew when the option has changed. *)
Definition then_quit (m : cio unit) : cio memcached_return_t := done_after (_ ← m; send_quit).

Definition memcached_behavior_set (flag : memcached_behavior_t) (data : Z) : cio memcached_return_t :=
  let b := of_number data in
  match flag with
  | MEMCACHED_BEHAVIOR_NUMBER_OF_REPLICAS => set_number (fun m => m <| number_of_replicas := u32 data |>)
  | MEMCACHED_BEHAVIOR_IO_MSG_WATERMARK => set_number (fun m => m <| io_msg_watermark := u32 data |>)
  | MEMCACHED_BEHAVIOR_IO_BYTES_WATERMARK => set_number (fun m => m <| io_bytes_watermark := u32 data |>)
  | MEMCACHED_BEHAVIOR_IO_KEY_PREFETCH => set_number (fun m => m <| io_key_prefetch := u32 data |>)
  | MEMCACHED_BEHAVIOR_SND_TIMEOUT => set_number (fun m => m <| snd_timeout := i32 data |>)
  | MEMCACHED_BEHAVIOR_RCV_TIMEOUT => set_number (fun m => m <| rcv_timeout := i32 data |>)
  | MEMCACHED_BEHAVIOR_REMOVE_FAILED_SERVERS
  | MEMCACHED_BEHAVIOR_AUTO_EJECT_HOSTS => set_flag (fun f => f <| auto_eject_hosts := b |>)
  | MEMCACHED_BEHAVIOR_SERVER_FAILURE_LIMIT =>
      if data =? 0 then
        behavior_error MEMCACHED_INVALID_ARGUMENTS 109
          "MEMCACHED_BEHAVIOR_SERVER_FAILURE_LIMIT requires a value greater then zero."
      else set_number (fun m => m <| server_failure_limit := u32 data |>)
  | MEMCACHED_BEHAVIOR_BINARY_PROTOCOL =>
      done_after (
        _ ← send_quit;
        _ ← (if b then modify_flags (fun f => f <| verify_key := false |>) else mret tt);
        modify_flags (fun f => f <| binary_protocol := b |>))
  | MEMCACHED_BEHAVIOR_SUPPORT_CAS => set_flag (fun f => f <| support_cas := b |>)
  | MEMCACHED_BEHAVIOR_NO_BLOCK => then_quit (modify_flags (fun f => f <| no_block := b |>))
  | MEMCACHED_BEHAVIOR_BUFFER_REQUESTS => then_quit (modify_flags (fun f => f <| buffer_requests := b |>))
  | MEMCACHED_BEHAVIOR_USE_UDP =>
      m ← cgets memc;
      if negb (memcached_server_count m =? 0) then mret MEMCACHED_FAILURE
      else
        _ ← modify_flags (fun f => f <| use_udp := b |>);
        if b then set_flag (fun f => f <| no_reply := b |>) else mret MEMCACHED_SUCCESS
  | MEMCACHED_BEHAVIOR_TCP_NODELAY => then_quit (modify_flags (fun f => f <| tcp_nodelay := b |>))
  | MEMCACHED_BEHAVIOR_TCP_KEEPALIVE => then_quit (modify_flags (fun f => f <| tcp_keepalive := b |>))
  | MEMCACHED_BEHAVIOR_DISTRIBUTION => memcached_behavior_set_distribution (distribution_of data)
  | MEMCACHED_BEHAVIOR_HASH => memcached_behavior_set_key_hash (hash_of data)
  | MEMCACHED_BEHAVIOR_KETAMA_HASH => memcached_behavior_set_distribution_hash (hash_of data)
  | MEMCACHED_BEHAVIOR_CACHE_LOOKUPS =>
      behavior_error MEMCACHED_DEPRECATED 170 "MEMCACHED_BEHAVIOR_CACHE_LOOKUPS has been deprecated."
  | MEMCACHED_BEHAVIOR_VERIFY_KEY =>
      m ← cgets memc;
      if binary_protocol (flags m) then
        behavior_error MEMCACHED_INVALID_ARGUMENTS 175
          "MEMCACHED_BEHAVIOR_VERIFY_KEY if the binary protocol has been enabled."
      else set_flag (fun f => f <| verify_key := b |>)
  | MEMCACHED_BEHAVIOR_SORT_HOSTS =>
      done_after (_ ← modify_flags (fun f => f <| use_sort_hosts := b |>); distribute)
  | MEMCACHED_BEHAVIOR_POLL_TIMEOUT => set_number (fun m => m <| poll_timeout := i32 data |>)
  | MEMCACHED_BEHAVIOR_CONNECT_TIMEOUT => set_number (fun m => m <| connect_timeout := i32 data |>)
  | MEMCACHED_BEHAVIOR_RETRY_TIMEOUT => set_number (fun m => m <| retry_timeout := i32 data |>)
  | MEMCACHED_BEHAVIOR_SOCKET_SEND_SIZE => then_quit (modify_memc (fun m => m <| send_size := i32 data |>))
  | MEMCACHED_BEHAVIOR_SOCKET_RECV_SIZE => then_quit (modify_memc (fun m => m <| recv_size := i32 data |>))
  | MEMCACHED_BEHAVIOR_TCP_KEEPIDLE => then_quit (modify_memc (fun m => m <| tcp_keepidle := u32 data |>))
  | MEMCACHED_BEHAVIOR_USER_DATA =>
      behavior_error MEMCACHED_DEPRECATED 216 "MEMCACHED_BEHAVIOR_USER_DATA deprecated."
  | MEMCACHED_BEHAVIOR_HASH_WITH_PREFIX_KEY => set_flag (fun f => f <| hash_with_namespace := b |>)
  | MEMCACHED_BEHAVIOR_ENABLE_SHARD_KEY => set_flag (fun f => f <| enable_shard_key := b |>)
  | MEMCACHED_BEHAVIOR_NOREPLY => set_flag (fun f => f <| no_reply := b |>)
  | MEMCACHED_BEHAVIOR_RANDOMIZE_REPLICA_READ => set_flag (fun f => f <| randomize_replica_read := b |>)
  | MEMCACHED_BEHAVIOR_CORK =>
      behavior_error MEMCACHED_DEPRECATED 241
        "MEMCACHED_BEHAVIOR_CORK is now incorporated into the driver by default."
  | MEMCACHED_BEHAVIOR_LOAD_FROM_FILE =>
      behavior_error MEMCACHED_INVALID_ARGUMENTS 245
        "MEMCACHED_BEHAVIOR_LOAD_FROM_FILE can not be set with memcached_behavior_set()"
  | MEMCACHED_BEHAVIOR_MAX => fun _ => CCrash
  end.

(** The size of a buffer of the first server: zero means that something failed, or
    that there are no servers. *)
Definition socket_size (send : bool) (line : Z) : cio Z :=
  m ← cgets memc;
  if negb (repl_enabled (flags m)) && (servers_block m =? 0) then mret 0
  else
    l ← instance_fetch 0;
    on_server l (
      rc ← memcached_connect;
      if memcached_failed rc then mret 0
      else
        rc ← memcached_io_wait_for_write;
        if memcached_failed rc then mret 0
        else
          size ← getsockopt send;
          match size with
          | Some size => mret (u64 size)
          | None => _ ← set_root_errno (memcached_at "behavior.cc" line); mret 0
          end).

Definition memcached_behavior_get (flag : memcached_behavior_t) : cio Z :=
  m ← cgets memc;
  let truth b : cio Z := mret (to_number b) in
  let signed z : cio Z := mret (u64 z) in
  match flag with
  | MEMCACHED_BEHAVIOR_NUMBER_OF_REPLICAS => mret (number_of_replicas m)
  | MEMCACHED_BEHAVIOR_IO_MSG_WATERMARK => mret (io_msg_watermark m)
  | MEMCACHED_BEHAVIOR_IO_BYTES_WATERMARK => mret (io_bytes_watermark m)
  | MEMCACHED_BEHAVIOR_IO_KEY_PREFETCH => mret (io_key_prefetch m)
  | MEMCACHED_BEHAVIOR_BINARY_PROTOCOL => truth (binary_protocol (flags m))
  | MEMCACHED_BEHAVIOR_SUPPORT_CAS => truth (support_cas (flags m))
  | MEMCACHED_BEHAVIOR_CACHE_LOOKUPS => truth true
  | MEMCACHED_BEHAVIOR_NO_BLOCK => truth (no_block (flags m))
  | MEMCACHED_BEHAVIOR_BUFFER_REQUESTS => truth (buffer_requests (flags m))
  | MEMCACHED_BEHAVIOR_USE_UDP => truth (use_udp (flags m))
  | MEMCACHED_BEHAVIOR_TCP_NODELAY => truth (tcp_nodelay (flags m))
  | MEMCACHED_BEHAVIOR_VERIFY_KEY => truth (verify_key (flags m))
  | MEMCACHED_BEHAVIOR_DISTRIBUTION => mret (distribution_number (distribution m))
  | MEMCACHED_BEHAVIOR_HASH
  | MEMCACHED_BEHAVIOR_KETAMA_HASH => mret (hash_number (hashkit_get_function (Some (hashkit m))))
  | MEMCACHED_BEHAVIOR_REMOVE_FAILED_SERVERS
  | MEMCACHED_BEHAVIOR_SERVER_FAILURE_LIMIT => mret (server_failure_limit m)
  | MEMCACHED_BEHAVIOR_SORT_HOSTS => truth (use_sort_hosts (flags m))
  | MEMCACHED_BEHAVIOR_POLL_TIMEOUT => signed (poll_timeout m)
  | MEMCACHED_BEHAVIOR_CONNECT_TIMEOUT => signed (connect_timeout m)
  | MEMCACHED_BEHAVIOR_RETRY_TIMEOUT => signed (retry_timeout m)
  | MEMCACHED_BEHAVIOR_SND_TIMEOUT => signed (snd_timeout m)
  | MEMCACHED_BEHAVIOR_RCV_TIMEOUT => signed (rcv_timeout m)
  | MEMCACHED_BEHAVIOR_TCP_KEEPIDLE => mret (tcp_keepidle m)
  | MEMCACHED_BEHAVIOR_SOCKET_SEND_SIZE =>
      if negb (send_size m =? -1) then signed (send_size m) else socket_size true 370
  | MEMCACHED_BEHAVIOR_SOCKET_RECV_SIZE =>
      if negb (recv_size m =? -1) then signed (recv_size m) else socket_size false 406
  | MEMCACHED_BEHAVIOR_USER_DATA =>
      _ ← behavior_error MEMCACHED_DEPRECATED 416 "MEMCACHED_BEHAVIOR_USER_DATA deprecated.";
      mret 0
  | MEMCACHED_BEHAVIOR_HASH_WITH_PREFIX_KEY => truth (hash_with_namespace (flags m))
  | MEMCACHED_BEHAVIOR_ENABLE_SHARD_KEY => truth (enable_shard_key (flags m))
  | MEMCACHED_BEHAVIOR_NOREPLY => truth (no_reply (flags m))
  | MEMCACHED_BEHAVIOR_AUTO_EJECT_HOSTS => truth (auto_eject_hosts (flags m))
  | MEMCACHED_BEHAVIOR_RANDOMIZE_REPLICA_READ => truth (randomize_replica_read (flags m))
  | MEMCACHED_BEHAVIOR_CORK => truth have_msg_more
  | MEMCACHED_BEHAVIOR_TCP_KEEPALIVE => truth (tcp_keepalive (flags m))
  | MEMCACHED_BEHAVIOR_LOAD_FROM_FILE =>
      rc ← memcached_parse_filename;
      truth (negb (bool_decide (rc = MEMCACHED_SUCCESS)))
  | MEMCACHED_BEHAVIOR_MAX => fun _ => CCrash
  end.

Definition memcached_behavior_get_distribution : cio memcached_server_distribution_t :=
  cgets (fun c => distribution (memc c)).
Definition memcached_behavior_get_key_hash : cio hashkit_hash_algorithm_t :=
  cgets (fun c => hashkit_get_function (Some (hashkit (memc c)))).
Definition memcached_behavior_get_distribution_hash : cio hashkit_hash_algorithm_t :=
  cgets (fun c => hashkit_get_distribution_function (Some (hashkit (memc c)))).

(** [None] is a map that is NULL. *)
Definition memcached_bucket_set (malloc_ok : bool) (host_map forward_map : option (list Z))
    (nbuckets replicas : Z) : cio memcached_return_t :=
  match host_map with
  | None => mret MEMCACHED_INVALID_ARGUMENTS
  | Some _ =>
      old ← memcached_behavior_get_distribution;
      rc ← memcached_behavior_set_distribution (Some MEMCACHED_DISTRIBUTION_VIRTUAL_BUCKET);
      if memcached_failed rc then mret rc
      else
        m ← cgets memc;
        let '(rc, m) := memcached_virtual_bucket_create malloc_ok m host_map forward_map nbuckets replicas in
        _ ← modify_memc (fun _ => m);
        _ ← (if memcached_failed rc
             then _ ← memcached_behavior_set_distribution (Some old); mret tt else mret tt);
        mret rc
  end.
End Behavior.

(** ** Options and what a rebuild leaves of them *)

(** A handle without what is no option. *)
Definition options (m : memcached_st) : memcached_st :=
  m <| flags ::= fun f => f <| multi_store := false |> |> <| query_id := 0 |>
    <| servers := [] |> <| server_pool := ∅ |> <| rgroups := [] |>
    <| ketama_info := None |> <| next_distribution_rebuild := 0 |> <| server_info_version := 0 |>.

Section Rebuild.
Context `{Qsort}.

Lemma only_ketama_options p q : only_ketama p q -> options q = options p.
Proof. by intros [i ->]. Qed.

Lemma update_continuum_options e store ptr rc store' ptr' :
  update_continuum e store ptr = Some (rc, store', ptr') -> options ptr' = options ptr.
Proof.
  unfold update_continuum. intros Hup.
  repeat case_match; simplify_eq; try done;
    first [apply follow_master_servers in Hup as [? ->]
          |apply replace_ketama_info_servers in Hup as [? ->]]; done.
Qed.

Lemma run_distribution_options e store ptr rc store' ptr' :
  run_distribution e store ptr = Some (rc, store', ptr') -> options ptr' = options ptr.
Proof.
  unfold run_distribution. intros Hrun.
  set (sorted := if use_sort_hosts (flags ptr) then _ else Some ptr) in Hrun.
  assert (Hs : forall p, sorted = Some p -> options p = options ptr).
  { unfold sorted, memcached_rgroup_sort, sort_hosts. intros p Hp.
    repeat case_match; simplify_eq; done. }
  destruct sorted as [p|]; [|done]. rewrite <-(Hs p eq_refl).
  destruct (distribution p); simplify_eq; try done; case_match;
    eauto using update_continuum_options, only_ketama_options, rgroups_continuum_servers.
Qed.
End Rebuild.

Lemma alike_options m0 m : alike m0 m -> options m = options m0.
Proof. intros [_ ->]. done. Qed.

(** ** Setting an option and reading it *)

Section Options.
Context `{HE : Environment} `{HA : Allocator} `{HQ : Qsort} `{HB : BuildConfig}.
Context `{HS : !Stack} `{HU : !Surroundings}.
Context (getsockopt : bool -> io (option Z)) (parse_filename : cio memcached_return_t).
Context (msg_more : bool).

Abbreviation get := (memcached_behavior_get getsockopt parse_filename msg_more).

(** No connection is open. *)
Definition all_closed (c : client) : Prop :=
  forall x, 0 <= x < memcached_server_count (memc c) ->
    exists l i, memcached_server_instance_fetch (memc c) x = Some l
      /\ instance_at c l = Some i /\ fd (server i) = INVALID_SOCKET.

Lemma quit_server_closed i :
  fd (server i) = INVALID_SOCKET ->
  quit_server false i = Done tt (i <| server ::= reset_connection (here i) |>).
Proof. intros E. unfold quit_server, memcached_quit_server. io_pure. unfold id. rewrite E. by io_pure. Qed.

(** Servers stay closed when others are quit. *)
Definition still_closed (_ : location) (i i' : instance) : Prop :=
  fd (server i) = INVALID_SOCKET -> fd (server i') = INVALID_SOCKET.

Lemma quit_all n : forall x c0 c,
  all_closed c0 -> 0 <= x -> x + Z.of_nat n <= memcached_server_count (memc c0) ->
  stands still_closed c0 c ->
  exists c', for_servers n x (quit_server false) c = CDone tt c' /\ stands still_closed c0 c'.
Proof.
  induction n as [|n IH]; intros x c0 c Hc Hx Hn Hst; [by exists c|].
  destruct (Hc x) as (l & i0 & Hl & Hi0 & Hfd); [lia|].
  assert (Hf : memcached_server_instance_fetch (memc c) x = Some l)
    by (by rewrite (alike_fetch _ _ _ (st_handle _ _ _ Hst))).
  destruct (on_server_stands _ still_closed c0 c l i0 (quit_server false) tt Hst Hi0)
    as (c1 & E1 & Hst1 & _).
  - intros i Hi Hb. eexists. split; [by apply quit_server_closed, Hb|]. split; [done|].
    intros H. specialize (Hb H). done.
  - intros ? i i' j H1 H2 H. rewrite (ab_server _ _ H2). auto.
  - done.
  - destruct (IH (x + 1) c0 c1 Hc) as (c2 & E2 & Hst2); [lia..|done|].
    exists c2. split; [|done]. cbn [for_servers]. cio_do (instance_fetch_some x l c Hf).
    cio_do E1. exact E2.
Qed.

Lemma send_quit_closed c :
  all_closed c -> 0 <= memcached_server_count (memc c) ->
  exists c', send_quit c = CDone tt c' /\ options (memc c') = options (memc c).
Proof.
  intros Hc Hn. unfold send_quit, on_every_server. cio_pure.
  destruct (quit_all (Z.to_nat (memcached_server_count (memc c))) 0 c c Hc) as (c' & E & Hst); [lia..| |].
  - split; [apply alike_refl|done|]. intros l i0 Hi0. exists i0. split; [done|]. by intros H.
  - exists c'. split; [exact E|]. apply alike_options, Hst.
Qed.

(** The options that can be read without asking a server or a file. *)
Definition readable (flag : memcached_behavior_t) : bool :=
  match flag with
  | MEMCACHED_BEHAVIOR_SOCKET_SEND_SIZE | MEMCACHED_BEHAVIOR_SOCKET_RECV_SIZE
  | MEMCACHED_BEHAVIOR_USER_DATA | MEMCACHED_BEHAVIOR_LOAD_FROM_FILE | MEMCACHED_BEHAVIOR_MAX => false
  | _ => true
  end.

(** What is read of a handle, which only depends on its options. *)
Definition option_value (flag : memcached_behavior_t) (m : memcached_st) : Z :=
  match get flag {| memc := m; client_store := ∅; memc_errors := []; memc_result := stack_result;
                    last_response_code := MEMCACHED_SUCCESS;
                    client_errno := 0; randoms := []; readies := []; nets := fun _ =>
                      {| net_errors := []; net_here := buffer_of 0 0; net_read_buffer := [];
                         net_write_buffer := []; net_recvs := []; net_polls := []; net_sends := [];
                         net_sent := [] |} |} with
  | CDone v _ => v
  | _ => 0
  end.

Lemma get_value flag c : readable flag = true -> get flag c = CDone (option_value flag (memc c)) c.
Proof. by destruct flag. Qed.

Lemma option_value_options flag m :
  readable flag = true -> option_value flag (options m) = option_value flag m.
Proof. by destruct flag. Qed.

(** *** The specification *)

Definition settable (flag : memcached_behavior_t) : bool :=
  match flag with
  | MEMCACHED_BEHAVIOR_CACHE_LOOKUPS | MEMCACHED_BEHAVIOR_USER_DATA | MEMCACHED_BEHAVIOR_CORK
  | MEMCACHED_BEHAVIOR_LOAD_FROM_FILE | MEMCACHED_BEHAVIOR_MAX
  | MEMCACHED_BEHAVIOR_REMOVE_FAILED_SERVERS | MEMCACHED_BEHAVIOR_KETAMA_HASH => false
  | _ => true
  end.

(** The numbers of the hash functions of [hashkit_hash_algorithm_t] that are there: those
    of FNV with 64 bits (3 and 4), of Hsieh (7) and Murmur (8) depend on the build. *)
Definition available_hash (n : Z) : bool :=
  if decide (n ∈ [3; 4]) then have_fnv64_hash
  else if decide (n = 7) then have_hsieh_hash
  else if decide (n = 8) then have_murmur_hash
  else bool_decide (n ∈ [0; 1; 2; 5; 6; 9]).

(** The values that an option takes. *)
Definition accepted (flag : memcached_behavior_t) (data : Z) (m : memcached_st) : bool :=
  match flag with
  | MEMCACHED_BEHAVIOR_SERVER_FAILURE_LIMIT => negb (data =? 0)
  | MEMCACHED_BEHAVIOR_USE_UDP => memcached_server_count m =? 0
  | MEMCACHED_BEHAVIOR_VERIFY_KEY => negb (binary_protocol (flags m))
  | MEMCACHED_BEHAVIOR_DISTRIBUTION => u32 data <? 6
  | MEMCACHED_BEHAVIOR_HASH => available_hash (u32 data)
  | MEMCACHED_BEHAVIOR_SOCKET_SEND_SIZE | MEMCACHED_BEHAVIOR_SOCKET_RECV_SIZE => negb (i32 data =? -1)
  | _ => true
  end.

(** What is left of a value: a truth, 32 bits without a sign, or with one. *)
Definition stored_value (flag : memcached_behavior_t) (data : Z) : Z :=
  match flag with
  | MEMCACHED_BEHAVIOR_NUMBER_OF_REPLICAS | MEMCACHED_BEHAVIOR_IO_MSG_WATERMARK
  | MEMCACHED_BEHAVIOR_IO_BYTES_WATERMARK | MEMCACHED_BEHAVIOR_IO_KEY_PREFETCH
  | MEMCACHED_BEHAVIOR_SERVER_FAILURE_LIMIT | MEMCACHED_BEHAVIOR_DISTRIBUTION
  | MEMCACHED_BEHAVIOR_HASH | MEMCACHED_BEHAVIOR_TCP_KEEPIDLE => u32 data
  | MEMCACHED_BEHAVIOR_SND_TIMEOUT | MEMCACHED_BEHAVIOR_RCV_TIMEOUT
  | MEMCACHED_BEHAVIOR_POLL_TIMEOUT | MEMCACHED_BEHAVIOR_CONNECT_TIMEOUT
  | MEMCACHED_BEHAVIOR_RETRY_TIMEOUT | MEMCACHED_BEHAVIOR_SOCKET_SEND_SIZE
  | MEMCACHED_BEHAVIOR_SOCKET_RECV_SIZE => u64 (i32 data)
  | _ => if data =? 0 then 0 else 1
  end.

(** The options that are not what they were. *)
Definition affected (flag : memcached_behavior_t) : list memcached_behavior_t :=
  match flag with
  | MEMCACHED_BEHAVIOR_BINARY_PROTOCOL =>
      [MEMCACHED_BEHAVIOR_BINARY_PROTOCOL; MEMCACHED_BEHAVIOR_VERIFY_KEY]
  | MEMCACHED_BEHAVIOR_USE_UDP => [MEMCACHED_BEHAVIOR_USE_UDP; MEMCACHED_BEHAVIOR_NOREPLY]
  | MEMCACHED_BEHAVIOR_HASH => [MEMCACHED_BEHAVIOR_HASH; MEMCACHED_BEHAVIOR_KETAMA_HASH]
  | MEMCACHED_BEHAVIOR_DISTRIBUTION =>
      [MEMCACHED_BEHAVIOR_DISTRIBUTION; MEMCACHED_BEHAVIOR_HASH; MEMCACHED_BEHAVIOR_KETAMA_HASH]
  | MEMCACHED_BEHAVIOR_SERVER_FAILURE_LIMIT =>
      [MEMCACHED_BEHAVIOR_SERVER_FAILURE_LIMIT; MEMCACHED_BEHAVIOR_REMOVE_FAILED_SERVERS]
  | flag => [flag]
  end.

(** The servers are distributed anew, which must be possible. *)
Definition redistributes (flag : memcached_behavior_t) : bool :=
  match flag with MEMCACHED_BEHAVIOR_DISTRIBUTION | MEMCACHED_BEHAVIOR_SORT_HOSTS => true | _ => false end.

(** *** That it is met *)

(** After [m] there is [x], and the options are those of [h]. *)
Definition leaves {A} (m : cio A) (x : A) (h : memcached_st) (c : client) : Prop :=
  exists c', m c = CDone x c' /\ options (memc c') = options h.

Lemma leaves_quit f c :
  all_closed c -> 0 <= memcached_server_count (memc c) ->
  memcached_server_count (f (memc c)) = memcached_server_count (memc c) ->
  (forall x, memcached_server_instance_fetch (f (memc c)) x = memcached_server_instance_fetch (memc c) x) ->
  (forall l, server_at (f (memc c)) l = server_at (memc c) l) ->
  leaves (then_quit (modify_memc f)) MEMCACHED_SUCCESS (f (memc c)) c.
Proof.
  intros Hc Hn Hcount Hfetch Hat. set (c1 := c <| memc ::= f |>).
  assert (all_closed c1) as Hc1.
  { intros x Hx. change (memcached_server_count (memc c1)) with (memcached_server_count (f (memc c))) in Hx.
    rewrite Hcount in Hx. destruct (Hc x Hx) as (l & i & Hl & Hi & Hfd).
    unfold instance_at in *. exists l. change (memc c1) with (f (memc c)). rewrite Hfetch, Hat.
    destruct (server_at (memc c) l) as [s|]; [|done]. injection Hi as <-. by eexists. }
  destruct (send_quit_closed c1 Hc1) as (c2 & E & Ho); [by change (0 <= memcached_server_count (f (memc c))); rewrite Hcount|].
  exists c2. split; [|exact Ho]. unfold then_quit, done_after.
  assert (E2 : (_ ← modify_memc f; send_quit) c = CDone tt c2) by exact E.
  by cio_do E2.
Qed.

Lemma distribute_leaves c : distribute c <> CCrash -> leaves distribute tt (memc c) c.
Proof.
  unfold leaves, distribute, mbind, cio_bind, cgets, id. intros H.
  destruct (run_distribution dist_env (client_store c) (memc c)) as [[[rc store] m]|] eqn:E; [|done].
  eexists. split; [reflexivity|]. exact (run_distribution_options _ _ _ _ _ _ E).
Qed.

(** [h] has the value of the option, and the others are as in [m]. *)
Definition option_is_set (flag : memcached_behavior_t) (data : Z) (m h : memcached_st) : Prop :=
  (forall c, options (memc c) = options h -> get flag c = CDone (stored_value flag data) c)
  /\ forall f, readable f = true -> f ∉ affected flag -> option_value f h = option_value f m.

Lemma option_is_set_readable flag data m h :
  readable flag = true -> option_value flag h = stored_value flag data ->
  (forall f, readable f = true -> f ∉ affected flag -> option_value f h = option_value f m) ->
  option_is_set flag data m h.
Proof.
  intros Hr Hv Hf. split; [|done]. intros c Hc. rewrite get_value by done.
  by rewrite <-option_value_options, Hc, option_value_options, Hv.
Qed.

(** The others are read off. *)
Ltac other_options :=
  let f := fresh in let Hr := fresh in let Hn := fresh in
  intros f Hr Hn; destruct f; try discriminate Hr; try reflexivity; exfalso; apply Hn; cbn; set_solver.

Ltac option_set :=
  apply option_is_set_readable; [reflexivity | try reflexivity | other_options].

Lemma of_number_stored data : to_number (of_number data) = if data =? 0 then 0 else 1.
Proof. unfold of_number. by destruct (data =? 0). Qed.

(** Those are the numbers of the functions that [_set_function] installs. *)
Lemma available_hash_set data f :
  available_hash (u32 data) = true ->
  exists a, hash_of data = Some a /\ hashkit_success (_set_function f a).1 = true.
Proof.
  unfold hash_of, hashes. assert (Hu : u32 data = Z.of_nat (Z.to_nat (u32 data))).
  { pose proof (Z.mod_pos_bound data (2 ^ 32) ltac:(lia)). unfold u32. lia. }
  rewrite Hu, Nat2Z.id. generalize (Z.to_nat (u32 data)). intros n Ha.
  do 10 (destruct n as [|n];
    [cbv -[have_fnv64_hash have_hsieh_hash have_murmur_hash] in Ha;
     eexists; split; [reflexivity|]; cbn [_set_function libhashkit_has_algorithm];
     rewrite ?Ha; reflexivity|]).
  exfalso. revert Ha. unfold available_hash.
  do 3 (rewrite decide_False; [|rewrite ?elem_of_cons, ?elem_of_nil; lia]).
  rewrite bool_decide_false; [done|]. rewrite !elem_of_cons, elem_of_nil. lia.
Qed.

Lemma behavior_hash_leaves data c :
  accepted MEMCACHED_BEHAVIOR_HASH data (memc c) = true ->
  exists h, leaves (memcached_behavior_set_key_hash (hash_of data)) MEMCACHED_SUCCESS h c
    /\ option_is_set MEMCACHED_BEHAVIOR_HASH data (memc c) h.
Proof.
  cbn [accepted]. intros (a & Ea & Ha)%(available_hash_set _ (base_hash (hashkit (memc c)))). rewrite Ea.
  destruct (_set_function (base_hash (hashkit (memc c))) a) as [rc f] eqn:Ef. cbn [fst] in Ha.
  exists ((memc c) <| hashkit ::= fun h => with_base_hash h f |>). split.
  - unfold leaves, memcached_behavior_set_key_hash. cio_pure. cbn [set_function_number]. rewrite Ef.
    cio_pure. rewrite Ha. by eexists.
  - option_set. change (hash_number (get_function_type (function f)) = u32 data).
    unfold hash_of, hashes in Ea. pose proof (Z.mod_pos_bound data (2 ^ 32) ltac:(lia)).
    assert (Hu : u32 data = Z.of_nat (Z.to_nat (u32 data))) by (unfold u32; lia). rewrite Hu.
    unfold hashkit_success in Ha. apply bool_decide_eq_true in Ha. subst rc.
    clear Hu. revert Ea. generalize (Z.to_nat (u32 data)). intros n Ea.
    do 12 (destruct n as [|n];
      [injection Ea as <-; cbn [_set_function] in Ef; try case_match;
       first [discriminate Ef | by injection Ef as <-]|]).
    done.
Qed.

Lemma behavior_distribution_leaves data c :
  u32 data < 6 -> memcached_behavior_set_distribution (distribution_of data) c <> CCrash ->
  exists h, leaves (memcached_behavior_set_distribution (distribution_of data)) MEMCACHED_SUCCESS h c
    /\ option_is_set MEMCACHED_BEHAVIOR_DISTRIBUTION data (memc c) h.
Proof.
  intros Hd. unfold distribution_of.
  pose proof (Z.mod_pos_bound data (2 ^ 32) ltac:(lia)) as Hu. fold (u32 data) in Hu.
  assert (exists d, distributions !! Z.to_nat (u32 data) = Some d /\ distribution_number d = u32 data)
    as (d & -> & Hnum).
  { assert (Hz : u32 data = Z.of_nat (Z.to_nat (u32 data))) by lia. revert Hz.
    generalize (Z.to_nat (u32 data)). intros n Hz. rewrite Hz in Hd |- *.
    do 6 (destruct n as [|n]; [eexists; split; reflexivity|]). lia. }
  cbn [memcached_behavior_set_distribution]. intros Hok.
  set (with_hashes := fun m : memcached_st =>
    if is_consistent d then m <| hashkit := with_distribution_hash
      (with_base_hash (hashkit m) {| function := fn_md5; context := None |})
      {| function := fn_md5; context := None |} |> else m).
  set (h := with_hashes (memc c) <| distribution := d |>).
  set (c1 := c <| memc := h |>).
  assert (E : forall A (k : unit -> cio A),
    ((_ ← (if is_consistent d then
             _ ← memcached_behavior_set_key_hash (Some HASHKIT_HASH_MD5);
             _ ← memcached_behavior_set_distribution_hash (Some HASHKIT_HASH_MD5);
             mret tt
           else mret tt);
      _ ← modify_memc (fun m => m <| distribution := d |>);
      k tt) c) = k tt c1).
  { intros A k. subst c1 h with_hashes. cbv beta. by destruct (is_consistent d). }
  exists h. split.
  - destruct (distribute_leaves c1) as (c2 & Ec & Ho).
    { intros Hcr. apply Hok. rewrite (E _ (fun _ => _ ← distribute; mret MEMCACHED_SUCCESS)).
      unfold mbind, cio_bind. by rewrite Hcr. }
    exists c2. split; [|exact Ho].
    rewrite (E _ (fun _ => _ ← distribute; mret MEMCACHED_SUCCESS)). by cio_do Ec.
  - subst h with_hashes. cbv beta. destruct (is_consistent d); option_set; exact Hnum.
Qed.

(** The assignments that are nothing else. *)
Lemma leaves_set f c : leaves (set_number f) MEMCACHED_SUCCESS (f (memc c)) c.
Proof. by eexists. Qed.

Ltac quit_option :=
  eexists; split; [by apply (leaves_quit _ _) | try option_set; rewrite ?of_number_stored].

Lemma behavior_quit_leaves flag data c :
  all_closed c -> 0 <= memcached_server_count (memc c) ->
  accepted flag data (memc c) = true ->
  flag ∈ [MEMCACHED_BEHAVIOR_NO_BLOCK; MEMCACHED_BEHAVIOR_BUFFER_REQUESTS;
          MEMCACHED_BEHAVIOR_TCP_NODELAY; MEMCACHED_BEHAVIOR_TCP_KEEPALIVE;
          MEMCACHED_BEHAVIOR_TCP_KEEPIDLE; MEMCACHED_BEHAVIOR_SOCKET_SEND_SIZE;
          MEMCACHED_BEHAVIOR_SOCKET_RECV_SIZE; MEMCACHED_BEHAVIOR_BINARY_PROTOCOL] ->
  exists h, leaves (memcached_behavior_set flag data) MEMCACHED_SUCCESS h c
    /\ option_is_set flag data (memc c) h.
Proof.
  intros Hc Hn Ha Hin. rewrite !elem_of_cons in Hin.
  destruct Hin as [->|[->|[->|[->|[->|[->|[->|[->|Hin]]]]]]]]; [..|by apply elem_of_nil in Hin];
    cbn [memcached_behavior_set]; unfold accepted in Ha.
  1-4: unfold modify_flags; quit_option; exact (of_number_stored data).
  - quit_option.
  - eexists. split; [by apply (leaves_quit _ _)|].
    split; [|other_options]. intros c' Ho. apply (f_equal send_size) in Ho. cbn in Ho.
    unfold memcached_behavior_get. cio_pure. by rewrite Ho, Ha.
  - eexists. split; [by apply (leaves_quit _ _)|].
    split; [|other_options]. intros c' Ho. apply (f_equal recv_size) in Ho. cbn in Ho.
    unfold memcached_behavior_get. cio_pure. by rewrite Ho, Ha.
  - destruct (send_quit_closed c Hc Hn) as (c1 & E & Ho).
    set (f := fun m : memcached_st =>
      (if of_number data then m <| flags ::= fun f => f <| verify_key := false |> |> else m)
      <| flags ::= fun f => f <| binary_protocol := of_number data |> |>).
    exists (f (memc c)). split.
    + exists (c1 <| memc ::= f |>). split; [|].
      * unfold done_after, mbind, cio_bind. rewrite E. subst f. cbv beta. destruct (of_number data); reflexivity.
      * change (options (f (memc c1)) = options (f (memc c))).
        transitivity (options (f (options (memc c1)))); [subst f; cbv beta; destruct (of_number data); reflexivity|].
        rewrite Ho. subst f. cbv beta. destruct (of_number data); reflexivity.
    + subst f. cbv beta. destruct (of_number data) eqn:Eb; option_set;
        unfold stored_value; rewrite <-of_number_stored, Eb; reflexivity.
Qed.

Lemma behavior_leaves flag data c :
  all_closed c -> 0 <= memcached_server_count (memc c) ->
  settable flag = true -> accepted flag data (memc c) = true ->
  (redistributes flag = true -> memcached_behavior_set flag data c <> CCrash) ->
  exists h, leaves (memcached_behavior_set flag data) MEMCACHED_SUCCESS h c
    /\ option_is_set flag data (memc c) h.
Proof.
  intros Hc Hn Hs Ha Hr.
  destruct (decide (flag ∈ [MEMCACHED_BEHAVIOR_NO_BLOCK; MEMCACHED_BEHAVIOR_BUFFER_REQUESTS;
          MEMCACHED_BEHAVIOR_TCP_NODELAY; MEMCACHED_BEHAVIOR_TCP_KEEPALIVE;
          MEMCACHED_BEHAVIOR_TCP_KEEPIDLE; MEMCACHED_BEHAVIOR_SOCKET_SEND_SIZE;
          MEMCACHED_BEHAVIOR_SOCKET_RECV_SIZE; MEMCACHED_BEHAVIOR_BINARY_PROTOCOL]));
    [by apply behavior_quit_leaves|].
  destruct flag; try discriminate Hs;
    try (exfalso; apply n; apply (bool_decide_unpack _); reflexivity);
    cbn [memcached_behavior_set accepted] in *; unfold set_flag, modify_flags;
    try (eexists; split; [apply leaves_set | option_set; exact (of_number_stored data)]; fail);
    try (eexists; split; [apply leaves_set | option_set]; fail).
  - by apply behavior_hash_leaves.
  - apply behavior_distribution_leaves; [lia|by apply Hr].
  - set (f := fun m : memcached_st => m <| flags ::= fun f => f <| use_sort_hosts := of_number data |> |>).
    set (c1 := c <| memc ::= f |>). destruct (distribute_leaves c1) as (c2 & E & Ho).
    { intros Hcr. apply Hr; [done|].
      change (match distribute c1 with
              | CDone _ c => CDone MEMCACHED_SUCCESS c | CCrash => CCrash | CBlocked => CBlocked
              end = CCrash). by rewrite Hcr. }
    exists (f (memc c)). split; [|option_set; exact (of_number_stored data)].
    exists c2. split; [|exact Ho]. unfold done_after. by cio_do E.
  - eexists. split.
    + unfold leaves. cio_pure. apply negb_true_iff in Ha. rewrite Ha. apply leaves_set.
    + option_set. exact (of_number_stored data).
  - destruct (data =? 0); [discriminate Ha|]. eexists. split; [apply leaves_set|option_set].
  - set (f := fun m : memcached_st =>
      let m := m <| flags ::= fun f => f <| use_udp := of_number data |> |> in
      if of_number data then m <| flags ::= fun f => f <| no_reply := of_number data |> |> else m).
    exists (f (memc c)). split.
    + unfold leaves. cio_pure. rewrite Ha. cbn [negb]. cio_pure. subst f. cbv beta zeta.
      destruct (of_number data); by eexists.
    + subst f. cbv beta zeta. destruct (of_number data) eqn:Eb; option_set;
        unfold stored_value; rewrite <-of_number_stored, Eb; reflexivity.
Qed.

(** C34: an option that is set is what is read afterwards.  This is for all the options
    that can be set but [KETAMA_HASH] and [REMOVE_FAILED_SERVERS], which are read from
    something else, and [LOAD_FROM_FILE], while no connection is open: setting
    succeeds for every value that the option takes (where the servers have to be
    distributed anew, when this can be done), what is read is the value as it is kept
    (a truth, 32 bits, or 32 bits with a sign), and every other option is read as
    before, but for those that depend on it: the binary protocol turns the test of
    keys off, datagrams turn the replies off, a hash function or a consistent
    distribution brings its hash functions, and the limit of failures is what
    [REMOVE_FAILED_SERVERS] reads. *)
Theorem memcached_behavior_set_get (flag : memcached_behavior_t) (data : Z) (c : client) :
  all_closed c -> 0 <= memcached_server_count (memc c) ->
  settable flag = true -> accepted flag data (memc c) = true ->
  (redistributes flag = true -> memcached_behavior_set flag data c <> CCrash) ->
  exists c',
    memcached_behavior_set flag data c = CDone MEMCACHED_SUCCESS c'
    /\ get flag c' = CDone (stored_value flag data) c'
    /\ forall f, readable f = true -> f ∉ affected flag ->
         exists v, get f c = CDone v c /\ get f c' = CDone v c'.
Proof.
  intros Hc Hn Hs Ha Hr.
  destruct (behavior_leaves flag data c Hc Hn Hs Ha Hr) as (h & (c' & E & Ho) & Hv & Hf).
  exists c'. split; [exact E|]. split; [by apply Hv|].
  intros f Hrd Hna. exists (option_value f (memc c)).
  rewrite !get_value by done. split; [done|].
  by rewrite <-(Hf f Hrd Hna), <-(option_value_options f (memc c')), Ho, option_value_options.
Qed.
End Options.

(** ** Concrete handles *)

#[local] Existing Instance some_environment.
#[local] Existing Instance all_hashes.

(** A handle with servers that are not connected. *)
Definition unconnected (n : nat) : client :=
  (some_client (replicate n ([], [], [])))
    <| memc ::= fun m => m <| servers ::= fmap (fun s => s <| fd := INVALID_SOCKET |>) |> |>.

Definition read_option (flag : memcached_behavior_t) (c : client) : option Z :=
  match memcached_behavior_get (fun _ => mret None) (mret MEMCACHED_SUCCESS) false flag c with
  | CDone v _ => Some v
  | _ => None
  end.

Lemma memcached_behavior_set_get_witness :
  exists c',
    memcached_behavior_set MEMCACHED_BEHAVIOR_DISTRIBUTION (2 ^ 32 + 2) (unconnected 1)
    = CDone MEMCACHED_SUCCESS c'
    /\ read_option MEMCACHED_BEHAVIOR_DISTRIBUTION c' = Some 2
    /\ read_option MEMCACHED_BEHAVIOR_POLL_TIMEOUT c' = read_option MEMCACHED_BEHAVIOR_POLL_TIMEOUT (unconnected 1).
Proof.
  destruct (memcached_behavior_set_get (fun _ => mret None) (mret MEMCACHED_SUCCESS) false
    MEMCACHED_BEHAVIOR_DISTRIBUTION (2 ^ 32 + 2) (unconnected 1)) as (c' & E & Hv & Hf).
  - intros x Hx. change (memcached_server_count (memc (unconnected 1))) with 1 in Hx.
    replace x with 0 by lia. exists (Listed 0). eexists. by split.
  - done.
  - done.
  - done.
  - intros _. vm_compute. discriminate.
  - exists c'. split; [exact E|]. unfold read_option. split; [by rewrite Hv|].
    destruct (Hf MEMCACHED_BEHAVIOR_POLL_TIMEOUT) as (v & E1 & E2); [done| |by rewrite E1, E2].
    by apply (bool_decide_unpack _).
Defined.

(** ** What the code does not do *)

(** What is set is not what is read. *)
Lemma ketama_hash_not_read :
  match memcached_behavior_set MEMCACHED_BEHAVIOR_KETAMA_HASH 2 (unconnected 1) with
  | CDone rc c => rc = MEMCACHED_SUCCESS /\ read_option MEMCACHED_BEHAVIOR_KETAMA_HASH c = Some 0
  | _ => False
  end.
Proof. vm_compute. by split. Qed.

Lemma remove_failed_servers_not_read :
  match memcached_behavior_set MEMCACHED_BEHAVIOR_REMOVE_FAILED_SERVERS 1 (unconnected 1) with
  | CDone rc c => rc = MEMCACHED_SUCCESS
      /\ read_option MEMCACHED_BEHAVIOR_REMOVE_FAILED_SERVERS c = Some 5
  | _ => False
  end.
Proof. vm_compute. by split. Qed.

(** A limit of zero is rejected, but not one that is zero in 32 bits. *)
Lemma failure_limit_zero :
  match memcached_behavior_set MEMCACHED_BEHAVIOR_SERVER_FAILURE_LIMIT (2 ^ 32) (unconnected 1) with
  | CDone rc c => rc = MEMCACHED_SUCCESS
      /\ read_option MEMCACHED_BEHAVIOR_SERVER_FAILURE_LIMIT c = Some 0
  | _ => False
  end.
Proof. vm_compute. by split. Qed.

(** A hash that does not exist is set with success; setting the one behind the last
    fails and changes the function all the same. *)
Lemma unknown_hash_accepted :
  match memcached_behavior_set MEMCACHED_BEHAVIOR_HASH 12 (unconnected 1) with
  | CDone rc _ => rc = MEMCACHED_SUCCESS
  | _ => False
  end
  /\ match (_ ← memcached_behavior_set MEMCACHED_BEHAVIOR_HASH 1;
            memcached_behavior_set MEMCACHED_BEHAVIOR_HASH 11) (unconnected 1) with
     | CDone rc c => rc = MEMCACHED_INVALID_ARGUMENTS /\ read_option MEMCACHED_BEHAVIOR_HASH c = Some 0
     | _ => False
     end.
Proof. vm_compute. by repeat split. Qed.

(** When the buckets cannot be made, the distribution is as before, but the hash of
    the keys is not: [MEMCACHED_DISTRIBUTION_CONSISTENT] sets it anew. *)
Lemma failed_buckets_change_hash :
  match (_ ← memcached_behavior_set MEMCACHED_BEHAVIOR_DISTRIBUTION 1;
         _ ← memcached_behavior_set MEMCACHED_BEHAVIOR_HASH 9;
         memcached_bucket_set true (Some [0]) None 0 0) (unconnected 1) with
  | CDone rc c => rc = MEMCACHED_INVALID_ARGUMENTS
      /\ read_option MEMCACHED_BEHAVIOR_DISTRIBUTION c = Some 1
      /\ read_option MEMCACHED_BEHAVIOR_HASH c = Some 1
  | _ => False
  end.
Proof. vm_compute. by repeat split. Qed.
