(* ===== verification/Storage.v ===== *)
(** Storing values: storage.cc. *)
From Stdlib Require Import Strings.Byte.
From stdpp Require Import functions.
From S2P Require Import Prelude HashFunctions Hashkit Memcached Text KeyHash Continuum Distribution.
From S2P Require Import ServerList Rgroup Error StringBuf Result Io Response Write Client Command.

(** ** Verbs *)

Inductive memcached_storage_action_t :=
  | SET_OP | REPLACE_OP | ADD_OP | PREPEND_OP | APPEND_OP | CAS_OP.

#[export] Instance storage_action_eq_dec : EqDecision memcached_storage_action_t.
Proof. solve_decision. Defined.

Definition storage_op_string (verb : memcached_storage_action_t) : bytes :=
  match verb with
  | REPLACE_OP => str "replace "
  | ADD_OP => str "add "
  | PREPEND_OP => str "prepend "
  | APPEND_OP => str "append "
  | CAS_OP => str "cas "
  | SET_OP => str "set "
  end.

(** The opcodes of protocol_binary.h. *)
Definition PROTOCOL_BINARY_CMD_SETQ : Z := 0x11.

Definition get_com_code (verb : memcached_storage_action_t) (noreply : bool) : Z :=
  match verb, noreply with
  | SET_OP, true => PROTOCOL_BINARY_CMD_SETQ
  | ADD_OP, true => 0x12
  | CAS_OP, true | REPLACE_OP, true => 0x13
  | APPEND_OP, true => 0x19
  | PREPEND_OP, true => 0x1a
  | SET_OP, false => 0x01
  | ADD_OP, false => 0x02
  | CAS_OP, false | REPLACE_OP, false => 0x03
  | APPEND_OP, false => 0x0e
  | PREPEND_OP, false => 0x0f
  end.

(** ** Requests *)

Definition storage_vector (ptr : memcached_st) (key value : bytes)
    (flags_text expiration_text value_text cas_text : bytes) (verb : memcached_storage_action_t)
    : list bytes :=
  [storage_op_string verb; namespace ptr; key; flags_text; expiration_text; value_text; cas_text;
   noreply_text ptr; crlf; value; crlf].

(** [protocol_binary_request_set], without its extras for [append] and [prepend]. *)
Definition storage_request (ptr : memcached_st) (opcode : Z) (key value : bytes)
    (expiration item_flags cas : Z) (verb : memcached_storage_action_t) : bytes :=
  let extras := negb (bool_decide (verb = APPEND_OP) || bool_decide (verb = PREPEND_OP)) in
  let keylen := Z.of_nat (length key) + memcached_array_size (_namespace ptr) in
  let extlen := if extras then 8 else 0 in
  request_header opcode keylen extlen (keylen + Z.of_nat (length value) + extlen) cas
  ++ (if extras then be 4 item_flags ++ be 4 expiration else []).

(** A request of the commands on many keys. *)
Record memcached_storage_request_st := {
  req_key : bytes;
  req_value : bytes;
  req_expiration : Z;
  req_flags : Z;
  req_cas : Z;
}.

Definition MAX_KEYS_FOR_MULTI_STORE_OPERATION : Z := 500.

Definition build_return_t (success_occurred failure_occurred : bool) : memcached_return_t :=
  if negb success_occurred then MEMCACHED_FAILURE
  else if failure_occurred then MEMCACHED_SOME_ERRORS
  else MEMCACHED_SUCCESS.

Section Storing.
Context `{HE : Environment} `{HA : Allocator} `{HQ : Qsort} `{HB : BuildConfig}.
Context `{HS : !Stack} `{HU : !Surroundings}.

(** ** One value *)

Definition memcached_send_ascii (fuel : nat) (server_key : Z) (key value : bytes)
    (expiration item_flags cas : Z) (verb : memcached_storage_action_t) : cio memcached_return_t :=
  with_number (number_text (print_u32 item_flags)) (memcached_at "storage.cc" 327) (fun flags_text =>
  with_number (number_text (print_i64 expiration)) (memcached_at "storage.cc" 335) (fun expiration_text =>
  with_number (number_text (print_u64 (Z.of_nat (length value)))) (memcached_at "storage.cc" 343)
    (fun value_text =>
  with_number (if cas =? 0 then Some [] else number_text (print_u64 cas)) (memcached_at "storage.cc" 354)
    (fun cas_text =>
  m ← cgets memc;
  l ← instance_fetch server_key;
  '(out, _) ← do_action fuel server_key
    (attempt (Some (memcached_at "storage.cc" 393)) (bool_decide (verb = SET_OP)) true
       (storage_vector m key value flags_text expiration_text value_text cas_text verb)) l;
  mret (match out with
        | Returned rc => rc
        | Answered rc _ => if bool_decide (rc = MEMCACHED_STORED) then MEMCACHED_SUCCESS else rc
        end))))).

(** From [do_action] on: [opcode] is that of the request, which replicating changes,
    as it does the server's key. *)
Fixpoint send_binary_to (fuel : nat) (server_key opcode : Z) (vector : Z -> list bytes)
    (verb : memcached_storage_action_t) (l : location) : cio memcached_return_t :=
  match fuel with
  | O => fun _ => CBlocked
  | S fuel =>
      m ← cgets memc;
      let buffer_requests := buffer_requests (flags m) && bool_decide (verb = SET_OP) in
      too_big ← (if use_udp (flags m) && buffer_requests
                 then on_server l (check_datagram (length (mjoin (vector opcode)) - length (namespace m)))
                 else mret false);
      if too_big : bool then mret MEMCACHED_WRITE_FAILURE
      else
        rc ← on_server l (memcached_vdo (vector opcode) (negb buffer_requests));
        if negb (bool_decide (rc = MEMCACHED_SUCCESS) || bool_decide (rc = MEMCACHED_BUFFERED))
        then mret rc
        else
          m ← cgets memc;
          '(server_key, opcode) ←
            (if bool_decide (verb = SET_OP) && (number_of_replicas m >? 0) then
               server_key ← replicate_to (Z.to_nat (number_of_replicas m)) server_key
                              (vector PROTOCOL_BINARY_CMD_SETQ) (negb buffer_requests);
               mret (server_key, PROTOCOL_BINARY_CMD_SETQ)
             else mret (server_key, opcode));
          if buffer_requests then mret MEMCACHED_BUFFERED
          else if no_reply (flags m) || multi_store (flags m) then mret MEMCACHED_SUCCESS
          else
            '(rc, _) ← on_server l (await_response 0);
            if moved rc then
              done ← rgroup_switchover l;
              if done : bool then
                l ← instance_fetch server_key;
                send_binary_to fuel server_key opcode vector verb l
              else mret rc
            else mret rc
  end.

Definition memcached_send_binary (fuel : nat) (server_key : Z) (key value : bytes)
    (expiration item_flags cas : Z) (verb : memcached_storage_action_t) : cio memcached_return_t :=
  m ← cgets memc;
  let vector opcode :=
    [storage_request m opcode key value expiration item_flags cas verb; namespace m; key; value] in
  l ← instance_fetch server_key;
  send_binary_to fuel server_key (get_com_code verb (no_reply (flags m))) vector verb l.

Definition send_storage (fuel : nat) (server_key : Z) (key value : bytes)
    (expiration item_flags cas : Z) (verb : memcached_storage_action_t) : cio memcached_return_t :=
  m ← cgets memc;
  (if binary_protocol (flags m) then memcached_send_binary else memcached_send_ascii)
    fuel server_key key value expiration item_flags cas verb.

Definition memcached_send (fuel : nat) (group_key key value : bytes) (expiration item_flags cas : Z)
    (verb : memcached_storage_action_t) : cio memcached_return_t :=
  _ ← arcus_server_check_for_update;
  stop ← begin_command key;
  match stop with
  | Some rc => mret rc
  | None =>
      server_key ← hash_with_redistribution group_key;
      send_storage fuel server_key key value expiration item_flags cas verb
  end.

Definition memcached_set_by_key fuel group_key key value expiration item_flags :=
  memcached_send fuel group_key key value expiration item_flags 0 SET_OP.
Definition memcached_add_by_key fuel group_key key value expiration item_flags :=
  memcached_send fuel group_key key value expiration item_flags 0 ADD_OP.
Definition memcached_replace_by_key fuel group_key key value expiration item_flags :=
  memcached_send fuel group_key key value expiration item_flags 0 REPLACE_OP.
Definition memcached_prepend_by_key fuel group_key key value expiration item_flags :=
  memcached_send fuel group_key key value expiration item_flags 0 PREPEND_OP.
Definition memcached_append_by_key fuel group_key key value expiration item_flags :=
  memcached_send fuel group_key key value expiration item_flags 0 APPEND_OP.
Definition memcached_cas_by_key fuel group_key key value expiration item_flags cas :=
  memcached_send fuel group_key key value expiration item_flags cas CAS_OP.
Definition memcached_set fuel key := memcached_set_by_key fuel key key.
Definition memcached_add fuel key := memcached_add_by_key fuel key key.
Definition memcached_replace fuel key := memcached_replace_by_key fuel key key.
Definition memcached_prepend fuel key := memcached_prepend_by_key fuel key key.
Definition memcached_append fuel key := memcached_append_by_key fuel key key.
Definition memcached_cas fuel key := memcached_cas_by_key fuel key key.

(** ** Many values *)

(** [req] is [NULL] when it is [None]. *)
Definition before_bulk_storage (group_key : option bytes)
    (req : option (list memcached_storage_request_st)) : cio memcached_return_t :=
  rc ← initialize_query;
  if memcached_failed rc then mret rc
  else
    m ← cgets memc;
    if use_udp (flags m) then memc_set_error MEMCACHED_NOT_SUPPORTED (memcached_at "storage.cc" 137) None
    else if buffer_requests (flags m) then
      memc_set_error MEMCACHED_NOT_SUPPORTED (memcached_at "storage.cc" 141)
        (Some (str "buffered request is not supported for multi key operation"))
    else
      match req with
      | None => memc_set_error MEMCACHED_NOTFOUND (memcached_at "storage.cc" 147) (Some (str "req were null"))
      | Some [] =>
          memc_set_error MEMCACHED_NOTFOUND (memcached_at "storage.cc" 152)
            (Some (str "number_of_req were zero"))
      | Some _ =>
          if match group_key with
             | Some (_ :: _) => memcached_failed (memcached_key_test m (option_map (fun k => [k]) group_key))
             | _ => false
             end
          then memc_set_error MEMCACHED_BAD_KEY_PROVIDED (memcached_at "storage.cc" 160)
                 (Some (str "A bad group key was provided."))
          else
            _ ← on_every_server drain_responses;
            mret MEMCACHED_SUCCESS
      end.

(** The result of a request, which is [MEMCACHED_MAXIMUM_RETURN] until it is known,
    and the server that it was sent to. *)
Record slot := {
  slot_result : memcached_return_t;
  slot_instance : option location;
}.

(** What has occurred so far, and the servers that failed. *)
Record progress := {
  success_occurred : bool;
  failure_occurred : bool;
  failed_instances : list location;
}.

#[export] Instance progress_fields : Fields progress := fun p =>
  {| success_occurred := success_occurred p; failure_occurred := failure_occurred p;
     failed_instances := failed_instances p |}.

Definition unknown (s : slot) : bool := bool_decide (slot_result s = MEMCACHED_MAXIMUM_RETURN).

(** The keys are tested before anything is sent. *)
Definition test_request (m : memcached_st) (is_cas : bool) (req : memcached_storage_request_st)
    : memcached_return_t :=
  if is_cas && (req_cas req =? 0) then MEMCACHED_INVALID_ARGUMENTS
  else
    let rc := memcached_key_test m (Some [req_key req]) in
    if memcached_failed rc then rc else MEMCACHED_MAXIMUM_RETURN.

(** A loop over the requests whose result is not known. *)
Fixpoint each_unknown {A} (step : A -> slot -> progress -> cio (slot * progress)) (reqs : list A)
    (slots : list slot) (p : progress) : cio (list slot * progress) :=
  match reqs, slots with
  | req :: reqs, s :: slots =>
      '(s, p) ← (if unknown s then step req s p else mret (s, p));
      '(slots, p) ← each_unknown step reqs slots p;
      mret (s :: slots, p)
  | _, _ => mret ([], p)
  end.

Definition modify_instance (l : location) (f : memcached_server_st -> memcached_server_st) : cio unit :=
  on_server l (modify_server f).

(** [group] is the server of the group key, if there is one. *)
Definition send_request (fuel : nat) (group : option (Z * location)) (verb : memcached_storage_action_t)
    (is_noreply : bool) (req : memcached_storage_request_st) (s : slot) (p : progress)
    : cio (slot * progress) :=
  '(server_key, l) ← (match group with Some g => mret g | None => server_of_key (req_key req) end);
  failed ← on_server l (gets (fun i => send_failed (server i)));
  let is_at rc := {| slot_result := rc; slot_instance := Some l |} in
  if failed : bool then mret (is_at MEMCACHED_FAILURE, p)
  else
    rc ← send_storage fuel server_key (req_key req) (req_value req) (req_expiration req)
           (req_flags req) (if bool_decide (verb = CAS_OP) then req_cas req else 0) verb;
    if memcached_failed rc then
      _ ← modify_instance l (fun s => s <| send_failed := true |>);
      mret (is_at rc, p <| failure_occurred := true |> <| failed_instances ::= fun f => f ++ [l] |>)
    else if is_noreply then mret (is_at rc, p <| success_occurred := true |>)
    else mret (is_at MEMCACHED_MAXIMUM_RETURN, p).

Definition set_multi_store (b : bool) : cio unit :=
  cmodify (fun c => c <| memc ::= fun m => m <| flags ::= fun f => f <| multi_store := b |> |> |>).

(** On every instance of a list. *)
Fixpoint on_instances (l : list location) (f : memcached_server_st -> memcached_server_st) : cio unit :=
  match l with
  | [] => mret tt
  | x :: l => _ ← modify_instance x f; on_instances l f
  end.

(** One response; the last of the result is whether a switchover is needed. *)
Definition read_response (buffer : bytes) (s : slot) (p : progress)
    : cio (slot * progress * bytes * bool) :=
  l ← cchecked (slot_instance s);
  let has rc := {| slot_result := rc; slot_instance := Some l |} in
  count ← on_server l (gets (fun i => cursor_active (server i)));
  if count =? 0 then
    mret (has MEMCACHED_UNKNOWN_READ_FAILURE, p <| failure_occurred := true |>, buffer, false)
  else
    '(rc, buffer) ← on_server l (into_root (memcached_read_one_response buffer));
    if bool_decide (rc = MEMCACHED_STORED) then
      mret (has MEMCACHED_SUCCESS, p <| success_occurred := true |>, buffer, false)
    else if moved rc then
      _ ← modify_instance l (fun s => s <| switchover_state := rc |>);
      mret (s, p, buffer, true)
    else mret (has rc, p <| failure_occurred := true |>, buffer, false).

Fixpoint read_responses (slots : list slot) (p : progress) (buffer : bytes) (needed : bool)
    : cio (list slot * progress * bool) :=
  match slots with
  | [] => mret ([], p, needed)
  | s :: slots =>
      '(s, p, buffer, moved) ← (if unknown s then read_response buffer s p
                                else mret (s, p, buffer, false));
      '(slots, p, needed) ← read_responses slots p buffer (needed || moved);
      mret (s :: slots, p, needed)
  end.

(** A request whose server is not the master any more; the first of them on a server
    makes the switchover.  The list is of the servers on which it failed. *)
Fixpoint switch_servers (slots : list slot) (p : progress) (done_ever : bool)
    (failed : list location) : cio (list slot * progress * bool * list location) :=
  match slots with
  | [] => mret ([], p, done_ever, failed)
  | s :: slots =>
      '(s, p, done_ever, failed) ←
        (if unknown s then
           l ← cchecked (slot_instance s);
           let has rc := {| slot_result := rc; slot_instance := Some l |} in
           rc ← on_server l (gets (fun i => switchover_state (server i)));
           if moved rc then
             done ← rgroup_switchover l;
             if done : bool then
               _ ← modify_instance l (fun s => s <| switchover_state := MEMCACHED_SUCCESS |>);
               mret (s, p, true, failed)
             else
               _ ← modify_instance l (fun s => s <| switchover_state := MEMCACHED_FAILURE |>);
               mret (has MEMCACHED_FAILURE, p <| failure_occurred := true |>, done_ever, failed ++ [l])
           else if bool_decide (rc = MEMCACHED_FAILURE) then
             mret (has MEMCACHED_FAILURE, p, done_ever, failed)
           else mret (s, p, done_ever, failed)
         else mret (s, p, done_ever, failed));
      '(slots, p, done_ever, failed) ← switch_servers slots p done_ever failed;
      mret (s :: slots, p, done_ever, failed)
  end.

(** From [do_action] on; [fuel] bounds the rounds. *)
Fixpoint send_rounds (fuel : nat) (group_key : option bytes) (reqs : list memcached_storage_request_st)
    (verb : memcached_storage_action_t) (is_noreply : bool) (slots : list slot) (p : progress)
    : cio (memcached_return_t * list memcached_return_t) :=
  match fuel with
  | O => fun _ => CBlocked
  | S fuel' =>
      let finish slots p := mret (build_return_t (success_occurred p) (failure_occurred p),
                                  slot_result <$> slots) in
      group ← (match group_key with Some k => g ← server_of_key k; mret (Some g) | None => mret None end);
      _ ← set_multi_store true;
      '(slots, p) ← each_unknown (send_request fuel group verb is_noreply) reqs slots
                      (p <| failed_instances := [] |>);
      _ ← on_instances (failed_instances p) (fun s => s <| send_failed := false |>);
      _ ← set_multi_store false;
      if is_noreply then finish slots p
      else
        '(slots, p, needed) ← read_responses slots p
          (stack_bytes (Z.to_nat MEMCACHED_DEFAULT_COMMAND_SIZE)) false;
        if negb needed then finish slots p
        else
          '(slots, p, done_ever, failed) ← switch_servers slots p false [];
          _ ← on_instances failed (fun s => s <| switchover_state := MEMCACHED_SUCCESS |>);
          if done_ever : bool then send_rounds fuel' group_key reqs verb is_noreply slots p
          else finish slots p
  end.

(** The result has [results] when it is written.  A group key that is [NULL] or empty
    is none. *)
Definition memcached_send_multi (fuel : nat) (group_key : option bytes)
    (req : option (list memcached_storage_request_st)) (verb : memcached_storage_action_t)
    (has_results : bool) : cio (memcached_return_t * option (list memcached_return_t)) :=
  match req with
  | Some (first :: others) =>
      let reqs := first :: others in
      if negb has_results then mret (MEMCACHED_INVALID_ARGUMENTS, None)
      else if Z.of_nat (length reqs) >? MAX_KEYS_FOR_MULTI_STORE_OPERATION then
        rc ← memc_set_error MEMCACHED_INVALID_ARGUMENTS (memcached_at "storage.cc" 501)
               (Some (str "number of requests should be <= MAX_KEYS_FOR_MULTI_STORE_OPERATION"));
        mret (rc, None)
      else
        _ ← arcus_server_check_for_update;
        rc ← before_bulk_storage group_key req;
        if memcached_failed rc then mret (rc, None)
        else
          m ← cgets memc;
          let results := test_request m (bool_decide (verb = CAS_OP)) <$> reqs in
          let slots := (fun rc => {| slot_result := rc; slot_instance := None |}) <$> results in
          let p := {| success_occurred := false;
                      failure_occurred :=
                        existsb (fun rc => bool_decide (rc <> MEMCACHED_MAXIMUM_RETURN)) results;
                      failed_instances := [] |} in
          let group_key := match group_key with Some (_ :: _) => group_key | _ => None end in
          '(rc, results) ← send_rounds fuel group_key reqs verb (no_reply (flags m)) slots p;
          mret (rc, Some results)
  | _ => mret (MEMCACHED_INVALID_ARGUMENTS, None)
  end.

Definition memcached_mset_by_key fuel group_key req := memcached_send_multi fuel group_key req SET_OP.
Definition memcached_madd_by_key fuel group_key req := memcached_send_multi fuel group_key req ADD_OP.
Definition memcached_mreplace_by_key fuel group_key req := memcached_send_multi fuel group_key req REPLACE_OP.
Definition memcached_mprepend_by_key fuel group_key req := memcached_send_multi fuel group_key req PREPEND_OP.
Definition memcached_mappend_by_key fuel group_key req := memcached_send_multi fuel group_key req APPEND_OP.
Definition memcached_mcas_by_key fuel group_key req := memcached_send_multi fuel group_key req CAS_OP.
Definition memcached_mset fuel := memcached_mset_by_key fuel None.
Definition memcached_madd fuel := memcached_madd_by_key fuel None.
Definition memcached_mreplace fuel := memcached_mreplace_by_key fuel None.
Definition memcached_mprepend fuel := memcached_mprepend_by_key fuel None.
Definition memcached_mappend fuel := memcached_mappend_by_key fuel None.
Definition memcached_mcas fuel := memcached_mcas_by_key fuel None.
End Storing.

(** ** A value is stored *)

(** The words of the text protocol. *)
Definition storage_word (verb : memcached_storage_action_t) : string :=
  match verb with
  | SET_OP => "set"
  | ADD_OP => "add"
  | REPLACE_OP => "replace"
  | APPEND_OP => "append"
  | PREPEND_OP => "prepend"
  | CAS_OP => "cas"
  end.

(** What the text protocol says for it. *)
Definition storage_command (verb : memcached_storage_action_t) (prefix key value : bytes)
    (expiration item_flags cas : Z) : bytes :=
  str (storage_word verb) ++ " "%byte :: prefix ++ key ++ " "%byte :: print_u32 item_flags
  ++ " "%byte :: print_i64 expiration ++ " "%byte :: print_u64 (Z.of_nat (length value))
  ++ (if cas =? 0 then [] else " "%byte :: print_u64 cas) ++ crlf ++ value ++ crlf.

(** The code of a response that a caller gets. *)
Definition stored (rc : memcached_return_t) : memcached_return_t :=
  if bool_decide (rc = MEMCACHED_STORED) then MEMCACHED_SUCCESS else rc.

Section Claims.
Context `{HE : Environment} `{HA : Allocator} `{HQ : Qsort} `{HB : BuildConfig}.
Context `{HS : !Stack} `{HU : !Surroundings}.

Lemma storage_vector_command m key value expiration item_flags cas verb :
  no_reply (flags m) = false ->
  mjoin (storage_vector m key value (" "%byte :: print_u32 item_flags) (" "%byte :: print_i64 expiration)
           (" "%byte :: print_u64 (Z.of_nat (length value)))
           (if cas =? 0 then [] else " "%byte :: print_u64 cas) verb)
  = storage_command verb (namespace m) key value expiration item_flags cas.
Proof.
  intros Hn. unfold storage_vector, noreply_text, storage_command. rewrite Hn.
  cbn [mjoin list_join]. rewrite app_nil_r. by destruct verb.
Qed.

Lemma send_ascii_answered fuel k (key value : bytes) (expiration item_flags cas : Z)
    (verb : memcached_storage_action_t) (text : string) rc rest l c i :
  callbacks = None -> In (text, rc) status_lines -> more_follow rc = false ->
  instance_at c l = Some i -> conversing i ->
  memcached_server_instance_fetch (memc c) k = Some l ->
  buffer_requests (flags (memc c)) && bool_decide (verb = SET_OP) = false ->
  multi_store (flags (memc c)) = false -> - 2 ^ 63 <= expiration < 2 ^ 63 ->
  takes (filling i + length (storage_command verb (namespace (memc c)) key value expiration item_flags cas)) i ->
  incoming i = str text ++ crlf ++ rest ->
  exists c',
    memcached_send_ascii (S fuel) k key value expiration item_flags cas verb (queried c)
    = CDone (stored rc) c'
    /\ exchanged (storage_command verb (namespace (memc c)) key value expiration item_flags cas) rest l c c'.
Proof.
  intros Hcb Hin Hm Hi Hconv Hf Hbuf Hms Hexp Ht Hinc.
  pose proof (instance_at_root c l i Hi) as Hr.
  assert (Hnr : no_reply (flags (memc c)) = false) by (rewrite <-Hr; apply Hconv).
  rewrite <-storage_vector_command in Ht |- * by done.
  pose proof (status_length _ _ Hin).
  match type of Ht with takes (_ + length (mjoin ?vec)) _ =>
    destruct (attempt_on_handle fuel k (Some (memcached_at "storage.cc" 393)) (bool_decide (verb = SET_OP))
      true vec (str text) rc rest l c i Hcb (status_says _ _ Hin) Hm (status_not_moved _ _ Hin))
      as (tail & c' & E & Hex); [lia|done..|]
  end.
  exists c'. split; [|exact Hex]. unfold memcached_send_ascii.
  rewrite !number_text_ok by first [apply print_i64_length; done | apply print_u64_length
    | etransitivity; [apply print_u32_length|lia]].
  replace (if cas =? 0 then Some [] else Some (" "%byte :: print_u64 cas))
    with (Some (if cas =? 0 then [] else " "%byte :: print_u64 cas)) by (by destruct (cas =? 0)).
  cbn [with_number]. cio_pure.
  cio_do (instance_fetch_queried k l c Hf).
  cio_do E. done.
Qed.

(** C7: a value that is stored is stored where its key belongs: on a handle of the text
    protocol whose servers are not changed meanwhile, without callbacks and without
    buffering the request, over an open connection that owes nothing, [set], [add],
    [replace], [append], [prepend] and [cas] send the server of the group key exactly
    the command of the text protocol, with the namespace in front of the key, the
    flags, the expiration, the length, the CAS value when there is one and the value,
    behind everything that was written before, all of it, whatever the pieces in
    which the network takes it; the line that comes in is taken away and gives the
    result, [STORED] as success; nothing happens to the other servers. *)
Theorem memcached_send_stores fuel (group_key key value : bytes) (expiration item_flags cas : Z)
    (verb : memcached_storage_action_t) (text : string) rc rest k l c i :
  steady c -> memcached_key_test (memc c) (Some [key]) = MEMCACHED_SUCCESS ->
  server_for c group_key = Some (k, l) -> instance_at c l = Some i -> conversing i ->
  callbacks = None -> buffer_requests (flags (memc c)) && bool_decide (verb = SET_OP) = false ->
  multi_store (flags (memc c)) = false -> - 2 ^ 63 <= expiration < 2 ^ 63 ->
  takes (filling i + length (storage_command verb (namespace (memc c)) key value expiration item_flags cas)) i ->
  In (text, rc) status_lines -> more_follow rc = false -> incoming i = str text ++ crlf ++ rest ->
  exists c',
    memcached_send (S fuel) group_key key value expiration item_flags cas verb c
    = CDone (stored rc) c'
    /\ exchanged (storage_command verb (namespace (memc c)) key value expiration item_flags cas) rest l c c'.
Proof.
  intros Hst Hk Hsf Hi Hconv Hcb Hbuf Hms Hexp Ht Hin Hm Hinc.
  pose proof (instance_at_root c l i Hi) as Hr.
  pose proof (server_for_spec _ _ _ _ Hsf) as [_ Hf].
  destruct (send_ascii_answered fuel k key value expiration item_flags cas verb text rc rest l c i)
    as (c' & E & Hex); [done..|].
  exists c'. split; [|exact Hex]. unfold memcached_send.
  cio_do (steady_update c Hst). cio_do (begin_command_valid key c Hst Hk). cbv iota.
  cio_do (hash_fixed group_key k l (queried c) (steady_hosts c Hst) (steady_choice c Hst) Hsf).
  unfold send_storage. cio_pure.
  change (binary_protocol (flags (memc (queried c)))) with (binary_protocol (flags (memc c))).
  rewrite <-Hr, (conv_text i Hconv). exact E.
Qed.
End Claims.

(** ** Many values are stored *)

(** What belongs to a place, of a list that goes to the places [ls]. *)
Fixpoint share (l : location) (ls : list location) (xs : list bytes) : bytes :=
  match ls, xs with
  | l' :: ls, x :: xs => (if decide (l' = l) then x else []) ++ share l ls xs
  | _, _ => []
  end.

Fixpoint occurrences (l : location) (ls : list location) : nat :=
  match ls with
  | l' :: ls => ((if decide (l' = l) then 1 else 0) + occurrences l ls)%nat
  | [] => 0
  end.

Definition request_command (m : memcached_st) (verb : memcached_storage_action_t)
    (req : memcached_storage_request_st) : bytes :=
  storage_command verb (namespace m) (req_key req) (req_value req) (req_expiration req) (req_flags req)
    (if bool_decide (verb = CAS_OP) then req_cas req else 0).

Definition answer_line (a : string * memcached_return_t) : bytes := str a.1 ++ crlf.

Section Multi.
Context `{HE : Environment} `{HA : Allocator} `{HQ : Qsort} `{HB : BuildConfig}.
Context `{HS : !Stack} `{HU : !Surroundings}.
Context (c0 : client) (verb : memcached_storage_action_t) (ls : list location).

(** A connection while requests are sent: [sent_] was sent, to which there are [n]
    responses, and there is room for [rest]. *)
Record sending (sent_ rest : bytes) (n : nat) (i0 i : instance) : Prop := {
  sng_writable : writable i;
  sng_written : written i = written i0 ++ sent_;
  sng_cursor : cursor_active (server i) = Z.of_nat n;
  sng_takes : takes (filling i + length rest) i;
  sng_incoming : incoming i = incoming i0;
  sng_failed : send_failed (server i) = false;
  sng_flushed : n <> 0%nat -> unflushed i = [];
}.

(** A connection while the responses are read: [n] are left. *)
Record reading (sent_ rest : bytes) (n : nat) (i0 i : instance) : Prop := {
  rdg_connected : connected i;
  rdg_written : written i = written i0 ++ sent_;
  rdg_cursor : cursor_active (server i) = Z.of_nat n;
  rdg_incoming : incoming i = rest;
  rdg_flushed : unflushed i = [];
}.

(** Those of the list, and all others are as before. *)
Definition among (P : location -> instance -> instance -> Prop) (l : location) (i0 i : instance) : Prop :=
  if decide (l ∈ ls) then P l i0 i else as_before i0 i.

Lemma among_as_before P l i0 i j :
  (forall i j, P l i0 i -> as_before i j -> P l i0 j) ->
  among P l i0 i -> as_before i j -> among P l i0 j.
Proof. unfold among. case_decide; [by eauto|]. intros _ H1 H2. by etransitivity. Qed.

Lemma sending_as_before s r n i0 i j : sending s r n i0 i -> as_before i j -> sending s r n i0 j.
Proof.
  intros [A B C D E F G] H. destruct (as_before_written i j H) as (W & U & L). split.
  - by apply (as_before_writable i).
  - by rewrite W.
  - by rewrite (ab_server _ _ H).
  - rewrite L. by apply (as_before_takes i).
  - by rewrite (as_before_incoming i j H).
  - by rewrite (ab_server _ _ H).
  - rewrite U. exact G.
Qed.

Lemma reading_as_before s r n i0 i j : reading s r n i0 i -> as_before i j -> reading s r n i0 j.
Proof.
  intros [A B C D E] H. destruct (as_before_written i j H) as (W & U & L). split.
  - by apply (as_before_connected i).
  - by rewrite W.
  - by rewrite (ab_server _ _ H).
  - by rewrite (as_before_incoming i j H).
  - by rewrite U.
Qed.

(** The handle while many requests are sent. *)
Record multi_handle (m : memcached_st) : Prop := {
  mh_text : binary_protocol (flags m) = false;
  mh_stream : use_udp (flags m) = false;
  mh_reply : no_reply (flags m) = false;
  mh_piped : piped (flags m) = false;
  mh_buffer : buffer_requests (flags m) = false;
  mh_hosts : auto_eject_hosts (flags m) = false;
  mh_choice : distribution m <> MEMCACHED_DISTRIBUTION_RANDOM;
}.

Lemma multi_handle_alike m : alike (memc c0) m -> multi_handle (memc c0) -> multi_handle m.
Proof. intros [_ E] []. by rewrite E; split. Qed.

(** What has been sent, is left, and how often, for every place. *)
Definition on_the_way (D T : location -> bytes) (n : location -> nat) :=
  among (fun l => sending (D l) (T l) (n l)).

Lemma on_the_way_as_before D T n l i0 i j :
  on_the_way D T n l i0 i -> as_before i j -> on_the_way D T n l i0 j.
Proof. apply among_as_before. intros. by eapply sending_as_before. Qed.

(** One request is sent. *)
Lemma send_one fuel k l req D T n c i0 :
  callbacks = None -> multi_handle (memc c0) -> l ∈ ls -> instance_at c0 l = Some i0 ->
  memcached_server_instance_fetch (memc c0) k = Some l ->
  - 2 ^ 63 <= req_expiration req < 2 ^ 63 -> (n l < 1000)%nat ->
  stands (on_the_way D (fun l' => (if decide (l = l') then request_command (memc c0) verb req else [])
                                  ++ T l') n) c0 c ->
  multi_store (flags (memc c)) = true ->
  exists c',
    send_storage (S fuel) k (req_key req) (req_value req) (req_expiration req) (req_flags req)
      (if bool_decide (verb = CAS_OP) then req_cas req else 0) verb c = CDone MEMCACHED_SUCCESS c'
    /\ stands (on_the_way (fun l' => D l' ++ if decide (l = l') then request_command (memc c0) verb req else [])
                 T (fun l' => if decide (l = l') then S (n l') else n l')) c0 c'
    /\ multi_store (flags (memc c')) = true.
Proof.
  intros Hcb Hh Hl Hi0 Hk Hexp Hn Hst Hms.
  pose proof (st_handle _ _ _ Hst) as Ha. pose proof (multi_handle_alike _ Ha Hh) as [Ht Hu Hr Hp Hb _ _].
  assert (Ens : namespace (memc c) = namespace (memc c0)) by (by rewrite (proj2 Ha)).
  set (cas := if bool_decide (verb = CAS_OP) then req_cas req else 0).
  set (vec := storage_vector (memc c) (req_key req) (req_value req) (" "%byte :: print_u32 (req_flags req))
    (" "%byte :: print_i64 (req_expiration req)) (" "%byte :: print_u64 (Z.of_nat (length (req_value req))))
    (if cas =? 0 then [] else " "%byte :: print_u64 cas) verb).
  assert (Evec : mjoin vec = request_command (memc c0) verb req).
  { unfold vec. rewrite storage_vector_command by done. by rewrite Ens. }
  destruct (on_server_stands _ (on_the_way
      (fun l' => D l' ++ if decide (l = l') then request_command (memc c0) verb req else []) T
      (fun l' => if decide (l = l') then S (n l') else n l'))
    c0 c l i0 (attempt (Some (memcached_at "storage.cc" 393)) (bool_decide (verb = SET_OP)) true vec)
    (Returned MEMCACHED_SUCCESS) Hst Hi0) as (c' & E & Hst' & Hms' & _).
  - intros i Hi Hs. unfold on_the_way, among in Hs. rewrite decide_True in Hs by done. cbv beta in Hs.
    rewrite decide_True in Hs by done. destruct Hs as [A B C F G I J].
    pose proof (instance_at_root c l i Hi) as Hri.
    destruct (attempt_unanswered (Some (memcached_at "storage.cc" 393)) (bool_decide (verb = SET_OP)) vec
      (length (T l)) i) as (j & Ej & [W1 B1 F1 T1 R1 I1 C1 S1 _]);
      try (rewrite ?Hri; done).
    { rewrite C. lia. }
    { rewrite Evec, <-Nat.add_assoc, <-length_app. exact F. }
    exists j. split; [done|]. split; [done|]. unfold on_the_way, among.
    rewrite decide_True by done. cbv beta. rewrite !(decide_True (P := l = l)) by done. split.
    + done.
    + by rewrite B1, B, Evec, app_assoc.
    + rewrite C1, C. cbn [Z.b2z]. unfold u32. rewrite Z.mod_small; lia.
    + done.
    + by rewrite I1.
    + unfold settings in S1. congruence.
    + intros _. by apply F1.
  - intros. by eapply on_the_way_as_before.
  - intros l' i i' Hl' Hs. unfold on_the_way, among in *. case_decide; [|done].
    rewrite !(decide_False (P := l = l')) in * by congruence. by rewrite app_nil_r.
  - exists c'. split; [|split; [done|congruence]].
    unfold send_storage. unfold cgets at 1, mbind at 1, cio_bind at 1. rewrite Ht.
    unfold memcached_send_ascii. fold cas.
    rewrite !number_text_ok by first [apply print_i64_length; done | apply print_u64_length
      | etransitivity; [apply print_u32_length|lia]].
    replace (if cas =? 0 then Some [] else Some (" "%byte :: print_u64 cas))
      with (Some (if cas =? 0 then [] else " "%byte :: print_u64 cas)) by (by destruct (cas =? 0)).
    cbn [with_number]. unfold cgets at 1, mbind at 1, cio_bind at 1.
    rewrite <-(alike_fetch _ _ _ Ha) in Hk.
    cio_do (instance_fetch_some k l c Hk). fold vec.
    by cio_do (do_action_done fuel k _ l c _ c' E I).
Qed.

(** The server of a request: that of the group key, or of its own key. *)
Definition addressed (group : option (Z * location)) (req : memcached_storage_request_st)
    (l : location) : Prop :=
  exists k, memcached_server_instance_fetch (memc c0) k = Some l
    /\ match group with
       | Some g => g = (k, l)
       | None => server_for c0 (req_key req) = Some (k, l)
       end.

Definition sendable (req : memcached_storage_request_st) : Prop :=
  - 2 ^ 63 <= req_expiration req < 2 ^ 63.

Definition sent_to (l : location) : slot :=
  {| slot_result := MEMCACHED_MAXIMUM_RETURN; slot_instance := Some l |}.

Lemma send_request_one fuel group l req s p D T n c :
  callbacks = None -> multi_handle (memc c0) -> l ∈ ls -> is_Some (instance_at c0 l) ->
  addressed group req l -> sendable req -> (n l < 1000)%nat ->
  stands (on_the_way D (fun l' => (if decide (l = l') then request_command (memc c0) verb req else [])
                                  ++ T l') n) c0 c ->
  multi_store (flags (memc c)) = true ->
  exists c',
    send_request (S fuel) group verb false req s p c = CDone (sent_to l, p) c'
    /\ stands (on_the_way (fun l' => D l' ++ if decide (l = l') then request_command (memc c0) verb req else [])
                 T (fun l' => if decide (l = l') then S (n l') else n l')) c0 c'
    /\ multi_store (flags (memc c')) = true.
Proof.
  intros Hcb Hh Hl [i0 Hi0] (k & Hk & Hg) Hexp Hn Hst Hms.
  pose proof (st_handle _ _ _ Hst) as Ha. destruct (multi_handle_alike _ Ha Hh) as [_ _ _ _ _ He Hd].
  assert (Hkey : (match group with Some g => mret g | None => server_of_key (req_key req) end) c
                 = CDone (k, l) c).
  { destruct group as [g|]; [by rewrite Hg|].
    apply server_of_key_fixed; [done..|].
    by rewrite (alike_server_for c0 c _ Ha (st_store _ _ _ Hst)). }
  destruct (look_at _ c0 c l i0 (fun i => send_failed (server i)) false Hst Hi0)
    as (c1 & E1 & Hst1 & Hms1).
  { intros. by eapply on_the_way_as_before. }
  { intros i Hi. unfold on_the_way, among in Hi. rewrite decide_True in Hi by done.
    apply Hi. }
  rewrite Hms in Hms1.
  destruct (send_one fuel k l req D T n c1 i0 Hcb Hh Hl Hi0 Hk Hexp Hn Hst1 Hms1) as (c2 & E2 & Hst2 & Hms2).
  exists c2. split; [|by split]. unfold send_request.
  cio_do Hkey. cbv iota. cio_do E1. cbv iota. cio_do E2. done.
Qed.

(** All of them are sent. *)
Lemma send_all fuel group : forall reqs ls' slots p D T n c,
  callbacks = None -> multi_handle (memc c0) ->
  Forall2 (addressed group) reqs ls' -> Forall sendable reqs ->
  Forall (fun l => l ∈ ls /\ is_Some (instance_at c0 l)) ls' ->
  Forall (fun s => unknown s = true) slots -> length slots = length reqs ->
  (forall l, n l + occurrences l ls' <= 1000)%nat ->
  stands (on_the_way D (fun l => share l ls' (request_command (memc c0) verb <$> reqs) ++ T l) n) c0 c ->
  multi_store (flags (memc c)) = true ->
  exists c',
    each_unknown (send_request (S fuel) group verb false) reqs slots p c
    = CDone (sent_to <$> ls', p) c'
    /\ stands (on_the_way (fun l => D l ++ share l ls' (request_command (memc c0) verb <$> reqs)) T
                 (fun l => n l + occurrences l ls')%nat) c0 c'
    /\ multi_store (flags (memc c')) = true.
Proof.
  induction reqs as [|req reqs IH]; intros ls' slots p D T n c Hcb Hh Had Hsd Hls Hun Hlen Hn Hst Hms.
  - apply Forall2_nil_inv_l in Had as ->. exists c. split; [|split; [|done]].
    + by destruct slots.
    + eapply stands_mono; [|exact Hst]. intros l i i'. unfold on_the_way, among.
      cbn [share occurrences fmap list_fmap]. by rewrite app_nil_r, Nat.add_0_r.
  - destruct slots as [|s slots]; [done|].
    apply Forall2_cons_inv_l in Had as (l & ls'' & Hreq & Had & ->).
    apply Forall_cons in Hsd as [Hexp Hsd]. apply Forall_cons in Hls as [[Hl Hi0] Hls].
    apply Forall_cons in Hun as [Hu Hun]. injection Hlen as Hlen.
    cbn [share occurrences fmap list_fmap] in Hst, Hn.
    destruct (send_request_one fuel group l req s p D
      (fun l' => share l' ls'' (request_command (memc c0) verb <$> reqs) ++ T l') n c)
      as (c1 & E1 & Hst1 & Hms1); try done.
    { specialize (Hn l). rewrite decide_True in Hn by done. lia. }
    { eapply stands_mono; [|exact Hst]. intros l' i i'. unfold on_the_way, among. by rewrite <-app_assoc. }
    edestruct (fun Hb => IH ls'' slots p _ T _ c1 Hcb Hh Had Hsd Hls Hun Hlen Hb Hst1 Hms1)
      as (c2 & E2 & Hst2 & Hms2).
    { intros l'. specialize (Hn l'). cbv beta. case_decide; lia. }
    exists c2. split; [|split; [|done]].
    + cbn [each_unknown]. rewrite Hu. cio_do E1. cbv iota. cio_do E2. done.
    + eapply stands_mono; [|exact Hst2]. intros l' i i'. unfold on_the_way, among.
      cbn [share occurrences fmap list_fmap]. rewrite <-app_assoc.
      replace (n l' + ((if decide (l = l') then 1 else 0) + occurrences l' ls''))%nat
        with ((if decide (l = l') then S (n l') else n l') + occurrences l' ls'')%nat
        by (case_decide; lia). done.
Qed.

(** What comes in, and how often, for every place. *)
Definition coming (D L : location -> bytes) (n : location -> nat) :=
  among (fun l => reading (D l) (L l) (n l)).

Lemma coming_as_before D L n l i0 i j :
  coming D L n l i0 i -> as_before i j -> coming D L n l i0 j.
Proof. apply among_as_before. intros. by eapply reading_as_before. Qed.

Definition answer_ok (a : string * memcached_return_t) : Prop :=
  In a status_lines /\ more_follow a.2 = false.

Definition is_stored (a : string * memcached_return_t) : bool := bool_decide (a.2 = MEMCACHED_STORED).

(** What the results of all requests together are called: every value was stored, some
    were, or none was. *)
Definition overall (answers : list (string * memcached_return_t)) : memcached_return_t :=
  if forallb is_stored answers then MEMCACHED_SUCCESS
  else if existsb is_stored answers then MEMCACHED_SOME_ERRORS
  else MEMCACHED_FAILURE.

Lemma build_return_overall answers :
  answers <> [] ->
  build_return_t (existsb is_stored answers) (existsb (fun a => negb (is_stored a)) answers)
  = overall answers.
Proof.
  intros Hne. unfold overall.
  assert (existsb (fun a => negb (is_stored a)) answers = negb (forallb is_stored answers)) as ->.
  { clear Hne. induction answers as [|a answers IH]; [done|]. cbn. rewrite IH. by destruct (is_stored a). }
  destruct answers as [|a answers]; [done|]. cbn [existsb forallb].
  destruct (is_stored a); cbn; [by destruct (forallb _ _)|].
  by destruct (existsb _ _).
Qed.

Definition answered_at (l : location) (a : string * memcached_return_t) : slot :=
  {| slot_result := stored a.2; slot_instance := Some l |}.

Definition tally (p : progress) (answers : list (string * memcached_return_t)) : progress :=
  {| success_occurred := success_occurred p || existsb is_stored answers;
     failure_occurred := failure_occurred p || existsb (fun a => negb (is_stored a)) answers;
     failed_instances := failed_instances p |}.

(** One response is read. *)
Lemma read_one l a buffer p D L n c :
  l ∈ ls -> is_Some (instance_at c0 l) -> answer_ok a -> (32 <= length buffer)%nat ->
  binary_protocol (flags (memc c0)) = false -> (n l < 1000)%nat ->
  stands (coming D (fun l' => (if decide (l = l') then answer_line a else []) ++ L l')
            (fun l' => (if decide (l = l') then 1 else 0) + n l')%nat) c0 c ->
  exists buffer' c',
    read_response buffer (sent_to l) p c = CDone (answered_at l a, tally p [a], buffer', false) c'
    /\ length buffer' = length buffer
    /\ stands (coming D L n) c0 c'.
Proof.
  intros Hl [i0 Hi0] [Hin Hm] Hbuf Hbin Hn Hst. destruct a as [text rc]. cbn [fst snd] in *.
  destruct (look_at _ c0 c l i0 (fun i => cursor_active (server i)) (Z.of_nat (S (n l))) Hst Hi0)
    as (c1 & E1 & Hst1 & _).
  { intros. by eapply coming_as_before. }
  { intros i Hr. unfold coming, among in Hr. rewrite decide_True in Hr by done.
    rewrite (rdg_cursor _ _ _ _ _ Hr). by rewrite decide_True. }
  pose proof (st_handle _ _ _ Hst1) as Ha1.
  assert (Hbin1 : binary_protocol (flags (memc c1)) = false) by (by rewrite (proj2 Ha1)).
  assert (exists buffer', length buffer' = length buffer /\
    exists c2, on_server l (into_root (memcached_read_one_response buffer)) c1
               = CDone (rc, buffer') c2 /\ stands (coming D L n) c0 c2)
    as (buffer' & Hlen & c2 & E2 & Hst2).
  { destruct (st_at _ _ _ Hst1 l i0 Hi0) as (i & Hi & Hr). pose proof (instance_at_root c1 l i Hi) as Hri.
    unfold coming, among in Hr. rewrite decide_True in Hr by done. cbv beta in Hr.
    rewrite !(decide_True (P := l = l)) in Hr by done. destruct Hr as [A B C F G].
    pose proof (status_length _ _ Hin).
    destruct (read_said_line (str text) rc buffer (L l) (root_result i) i)
      as (tail & j & Hdo & Hlen & Hc' & Hin' & He & Hr' & Hh & Hfd & Hwr & Hcur); try done.
    { by apply status_says. }
    { rewrite F. unfold answer_line. cbn [fst]. by rewrite <-app_assoc. }
    { by rewrite Hri. }
    { rewrite C. lia. }
    { lia. }
    set (buffer' := str text ++ crlf ++ tail) in *. exists buffer'. split; [done|].
    destruct (on_server_stands _ (coming D L n) c0 c1 l i0 (into_root (memcached_read_one_response buffer))
      (rc, buffer') Hst1 Hi0) as (c2 & E2 & Hst2 & _); [|by intros; eapply coming_as_before|
      |by exists c2].
    - intros i' Hi' _. rewrite Hi in Hi'. injection Hi' as <-. exists (j <| root_result := root_result i |>).
      split; [by apply into_root_done|]. split; [done|].
      unfold coming, among. rewrite decide_True by done.
      destruct (writing_written _ _ Hwr) as [W1 W2].
      split; [done|change (written j = written i0 ++ D l); congruence| |done
             |change (unflushed j = []); congruence].
      change (cursor_active (server j) = Z.of_nat (n l)). rewrite Hcur, Hm, C. unfold u32. rewrite Z.mod_small; lia.
    - intros l' i' j' Hl' Hr. unfold coming, among in *. case_decide; [|done].
      by rewrite !(decide_False (P := l = l')) in Hr by congruence. }
  exists buffer', c2. split; [|by split].
  unfold read_response. cbn [slot_instance sent_to cchecked]. cio_pure. cio_do E1.
  rewrite (proj2 (Z.eqb_neq _ _)) by lia. cio_do E2. cbv iota.
  unfold answered_at, tally, is_stored, stored. cbn [snd existsb fst].
  destruct (decide (rc = MEMCACHED_STORED)) as [->|Hne].
  - rewrite bool_decide_true by done. destruct p. cbn. by rewrite orb_true_r, orb_false_r.
  - rewrite bool_decide_false by done. rewrite (status_not_moved _ _ Hin). destruct p. cbn.
    by rewrite orb_false_r, orb_true_r.
Qed.

Lemma tally_cons p a answers : tally (tally p [a]) answers = tally p (a :: answers).
Proof. unfold tally. cbn. f_equal; by rewrite ?orb_false_r, ?orb_assoc. Qed.

(** All of them are read. *)
Lemma read_all : forall answers ls' p buffer D L n c,
  Forall (fun l => l ∈ ls /\ is_Some (instance_at c0 l)) ls' -> Forall answer_ok answers ->
  length answers = length ls' -> (32 <= length buffer)%nat -> binary_protocol (flags (memc c0)) = false ->
  (forall l, n l + occurrences l ls' <= 1000)%nat ->
  stands (coming D (fun l => share l ls' (answer_line <$> answers) ++ L l)
            (fun l => occurrences l ls' + n l)%nat) c0 c ->
  exists c',
    read_responses (sent_to <$> ls') p buffer false c
    = CDone (zip_with answered_at ls' answers, tally p answers, false) c'
    /\ stands (coming D L n) c0 c'.
Proof.
  induction answers as [|a answers IH]; intros ls' p buffer D L n c Hls Hok Hlen Hbuf Hbin Hn Hst;
    (destruct ls' as [|l ls'']; [|]; try done).
  - exists c. split; [|done]. cbn. destruct p. unfold tally. cbn. by rewrite !orb_false_r.
  - apply Forall_cons in Hls as [[Hl Hi0] Hls]. apply Forall_cons in Hok as [Ha Hok].
    injection Hlen as Hlen. cbn [share occurrences fmap list_fmap] in Hst, Hn.
    destruct (read_one l a buffer p D (fun l' => share l' ls'' (answer_line <$> answers) ++ L l')
      (fun l' => occurrences l' ls'' + n l')%nat c) as (buffer' & c1 & E1 & Hl1 & Hst1); try done.
    { specialize (Hn l). rewrite decide_True in Hn by done. lia. }
    { eapply stands_mono; [|exact Hst]. intros l' i i'. unfold coming, among.
      by rewrite <-app_assoc, <-Nat.add_assoc. }
    destruct (IH ls'' (tally p [a]) buffer' D L n c1) as (c2 & E2 & Hst2); try done.
    { by rewrite Hl1. }
    { intros l'. specialize (Hn l'). case_decide; lia. }
    exists c2. split; [|done]. cbn [read_responses fmap list_fmap zip_with].
    change (unknown (sent_to l)) with true. cbv iota. cio_do E1. cbv iota. cbn [orb]. cio_do E2.
    cbv iota. by rewrite tally_cons.
Qed.

(** A request whose key is good, and a group key that is. *)
Definition good_request (req : memcached_storage_request_st) : Prop :=
  test_request (memc c0) (bool_decide (verb = CAS_OP)) req = MEMCACHED_MAXIMUM_RETURN
  /\ sendable req.

Definition good_group (group : option bytes) : Prop :=
  match group with
  | Some [] => False
  | Some g => memcached_key_test (memc c0) (Some [g]) = MEMCACHED_SUCCESS
  | None => True
  end.

(** A connection to a place that many requests are sent to. *)
Definition awaiting_many (commands incoming_ : bytes) (i : instance) : Prop :=
  writable i /\ cursor_active (server i) = 0 /\ send_failed (server i) = false
  /\ takes (filling i + length commands) i /\ incoming i = incoming_.

Lemma before_bulk group reqs :
  steady c0 -> multi_handle (memc c0) -> good_group group -> reqs <> [] -> all_idle c0 ->
  exists c', before_bulk_storage group (Some reqs) c0 = CDone MEMCACHED_SUCCESS c'
    /\ stands (fun _ => as_before) c0 c'.
Proof.
  intros Hst Hh Hg Hr Hidle.
  destruct (drain_all (Z.to_nat (memcached_server_count (memc c0))) 0 c0 (queried c0) Hidle)
    as (c' & E & Hst' & _); [done|pose proof (steady_servers c0 Hst); lia|apply stands_queried|].
  exists c'. split; [|done]. destruct reqs as [|req reqs]; [done|].
  destruct Hst as [_ _ Hb Hs _ _], Hh as [_ Hu _ _ Hbuf _ _].
  assert (Hi : initialize_query c0 = CDone MEMCACHED_SUCCESS (queried c0)).
  { unfold initialize_query, cmodify, cgets, mbind, cio_bind, mret, cio_ret.
    change (is_time_for_rebuild (memc _)) with (is_time_for_rebuild (memc c0)). rewrite Hb.
    change (memcached_server_count (memc _)) with (memcached_server_count (memc c0)).
    by rewrite (proj2 (Z.eqb_neq (memcached_server_count _) 0)) by lia. }
  unfold before_bulk_storage. cio_do Hi. cbn [memcached_failed memcached_success negb]. cio_pure.
  change (flags (memc (queried c0))) with (flags (memc c0)). rewrite Hu, Hbuf.
  assert (Hgroup : match group with
                   | Some (_ :: _) => memcached_failed (memcached_key_test (memc (queried c0))
                                                          (option_map (fun k => [k]) group))
                   | _ => false
                   end = false).
  { destruct group as [[|x g]|]; [done| |done]. cbn [option_map].
    change (memcached_key_test (memc (queried c0)) (Some [x :: g]))
      with (memcached_key_test (memc c0) (Some [x :: g])). by rewrite Hg. }
  rewrite Hgroup.
  assert (Hev : on_every_server drain_responses (queried c0) = CDone tt c')
    by (unfold on_every_server; by cio_pure).
  by cio_do Hev.
Qed.

Lemma awaiting_sending cmds inc i0 i :
  awaiting_many cmds inc i0 -> as_before i0 i -> sending [] cmds 0 i0 i.
Proof.
  intros (A & B & C & D & E) H. apply (sending_as_before [] cmds 0 i0 i0); [|done].
  split; try done. by rewrite app_nil_r.
Qed.

Lemma sending_reading cmds inc lines rest n i0 i :
  awaiting_many cmds inc i0 -> inc = lines ++ rest -> n <> 0%nat ->
  sending cmds [] n i0 i -> reading cmds (lines ++ rest) n i0 i.
Proof.
  intros (_ & _ & _ & _ & E) -> Hn [A B C D F G I]. split; [by apply A|done|done|congruence|by apply I].
Qed.

Lemma occurrences_in l ls' : l ∈ ls' -> occurrences l ls' <> 0%nat.
Proof.
  induction ls' as [|l' ls' IH]; intros H; [by apply not_elem_of_nil in H|].
  cbn [occurrences]. case_decide; [lia|]. apply elem_of_cons in H as [->|H]; [done|]. specialize (IH H). lia.
Qed.

Lemma occurrences_le l ls' : (occurrences l ls' <= length ls')%nat.
Proof. induction ls' as [|l' ls' IH]; cbn; [lia|]. case_decide; lia. Qed.

(** One round of sending and reading. *)
Lemma one_round fuel group at_ reqs answers rest slots p c :
  callbacks = None -> multi_handle (memc c0) ->
  (forall c, stands (fun _ => as_before) c0 c ->
     (match group with Some k => g ← server_of_key k; mret (Some g) | None => mret None end) c
     = CDone at_ c) ->
  Forall2 (addressed at_) reqs ls -> Forall sendable reqs ->
  (forall l, l ∈ ls -> exists i, instance_at c0 l = Some i
     /\ awaiting_many (share l ls (request_command (memc c0) verb <$> reqs))
          (share l ls (answer_line <$> answers) ++ rest l) i) ->
  Forall answer_ok answers -> length answers = length ls -> (length ls <= 500)%nat ->
  Forall (fun s => unknown s = true) slots -> length slots = length reqs -> failed_instances p = [] ->
  stands (fun _ => as_before) c0 c ->
  exists c',
    send_rounds (S fuel) group reqs verb false slots p c
    = CDone (build_return_t (success_occurred p || existsb is_stored answers)
               (failure_occurred p || existsb (fun a => negb (is_stored a)) answers),
             (fun a => stored a.2) <$> answers) c'
    /\ stands (coming (fun l => share l ls (request_command (memc c0) verb <$> reqs)) rest
                 (fun _ => 0%nat)) c0 c'.
Proof.
  intros Hcb Hh Hgr Had Hsd Hat Hok Hlen Hmax Hun Hsl Hp Hst.
  set (cmds := fun l => share l ls (request_command (memc c0) verb <$> reqs)) in *.
  assert (Hls : Forall (fun l => l ∈ ls /\ is_Some (instance_at c0 l)) ls).
  { apply Forall_forall. intros l Hl. destruct (Hat l Hl) as (i & Hi & _). split; [done|by exists i]. }
  set (c1 := c <| memc ::= fun m => m <| flags ::= fun f => f <| multi_store := true |> |> |>).
  assert (Hst1 : stands (on_the_way (fun _ => []) (fun l => cmds l ++ []) (fun _ => 0%nat)) c0 c1).
  { destruct (stands_multi_store (fun _ => as_before) true c0 c) as [A B C]; [|done|].
    { intros ? ? ? ? H1 H2. by etransitivity. }
    split; [done|done|]. intros l i0 Hi0. destruct (C l i0 Hi0) as (i & Hi & Hb). exists i.
    split; [done|]. unfold on_the_way, among. case_decide as Hl; [|done].
    destruct (Hat l Hl) as (i0' & Hi0' & Haw). rewrite Hi0 in Hi0'. injection Hi0' as <-.
    rewrite app_nil_r. by eapply awaiting_sending. }
  destruct (send_all fuel at_ reqs ls slots p (fun _ => []) (fun _ => []) (fun _ => 0%nat) c1
    Hcb Hh Had Hsd Hls Hun Hsl) as (c2 & E2 & Hst2 & Hms2); [|exact Hst1|done|].
  { intros l. pose proof (occurrences_le l ls). lia. }
  set (c3 := c2 <| memc ::= fun m => m <| flags ::= fun f => f <| multi_store := false |> |> |>).
  assert (Hst3 : stands (coming cmds (fun l => share l ls (answer_line <$> answers) ++ rest l)
                           (fun l => occurrences l ls + 0)%nat) c0 c3).
  { edestruct (fun HR => stands_multi_store _ false c0 c2 HR Hst2) as [A B C].
    { intros. by eapply on_the_way_as_before. }
    split; [done|done|]. intros l i0 Hi0. destruct (C l i0 Hi0) as (i & Hi & Hb). exists i.
    split; [done|]. unfold on_the_way, coming, among in *. case_decide as Hl; [|done].
    destruct (Hat l Hl) as (i0' & Hi0' & Haw). rewrite Hi0 in Hi0'. injection Hi0' as <-.
    rewrite Nat.add_0_r. eapply sending_reading; [done|done|by apply occurrences_in|exact Hb]. }
  destruct (read_all answers ls p (stack_bytes (Z.to_nat MEMCACHED_DEFAULT_COMMAND_SIZE)) cmds rest
    (fun _ => 0%nat) c3) as (c4 & E4 & Hst4); try done.
  { rewrite stack_bytes_length. apply (bool_decide_unpack _). vm_compute. done. }
  { apply Hh. }
  { intros l. pose proof (occurrences_le l ls). lia. }
  exists c4. split; [|done]. cbn [send_rounds]. cio_do (Hgr c Hst).
  assert (E1 : set_multi_store true c = CDone tt c1) by done. cio_do E1.
  replace (p <| failed_instances := [] |>) with p
    by (clear -Hp; destruct p; cbn in Hp; by subst).
  cio_do E2. cbv iota. rewrite Hp. cbn [on_instances]. cio_pure.
  assert (E3 : set_multi_store false c2 = CDone tt c3) by done. cio_do E3.
  cio_do E4. cbv iota. cbn [negb tally success_occurred failure_occurred].
  unfold mret at 1, cio_ret. do 2 f_equal.
  clear -Hlen. revert Hlen. generalize ls. intros ls'. revert answers.
  induction ls' as [|l ls' IH]; intros [|a answers] Hlen; try done.
  injection Hlen as Hlen. cbn. f_equal. by apply IH.
Qed.
End Multi.

Section MultiClaim.
Context `{HE : Environment} `{HA : Allocator} `{HQ : Qsort} `{HB : BuildConfig}.
Context `{HS : !Stack} `{HU : !Surroundings}.

(** Where the requests go. *)
Lemma group_address c (group : option bytes) reqs ls :
  steady c ->
  Forall2 (fun req l => exists k, server_for c (default (req_key req) group) = Some (k, l)) reqs ls ->
  reqs <> [] ->
  exists at_, (forall c', stands (fun _ => as_before) c c' ->
      (match group with Some k => g ← server_of_key k; mret (Some g) | None => mret None end) c'
      = CDone at_ c') /\ Forall2 (addressed c at_) reqs ls.
Proof.
  intros Hst Hls Hne. destruct group as [g|]; cbn [default] in Hls.
  - inversion Hls as [|req l reqs' ls' [k Hk] Hrest]; subst; [done|].
    exists (Some (k, l)). split.
    + intros c' Hs. pose proof (st_handle _ _ _ Hs) as Ha.
      assert (E : server_of_key g c' = CDone (k, l) c').
      { apply server_of_key_fixed.
        - rewrite (proj2 Ha). apply Hst.
        - rewrite (proj2 Ha). apply Hst.
        - by rewrite (alike_server_for c c' _ Ha (st_store _ _ _ Hs)). }
      by cio_do E.
    + eapply Forall2_impl; [exact Hls|]. intros r l' [k' Hk']. cbn in Hk, Hk'.
      rewrite Hk in Hk'. injection Hk' as <- <-. exists k. split; [|done].
      by apply server_for_spec in Hk as [_ ?].
  - exists None. split; [done|]. eapply Forall2_impl; [exact Hls|]. intros r l [k Hk]. exists k.
    split; [|done]. by apply server_for_spec in Hk as [_ ?].
Qed.

End MultiClaim.

(** ** Concrete requests *)

#[local] Existing Instance some_environment.
#[local] Existing Instance all_hashes.

(** A server that takes the command in pieces, says that it was stored and begins to
    say something else. *)
Definition slow_store : list send_result * list recv_result * list poll_result :=
  ([Sent 7; Send_error EAGAIN; Sent 100],
   [Recv_error EAGAIN; Received (str "STO"); Received (str "RED" ++ crlf ++ str "END")], [Poll_ready]).

Lemma memcached_send_stores_witness :
  exists c',
    memcached_send 1 (str "k") (str "k") (str "v") (-1) 5 0 SET_OP (some_client [slow_store])
    = CDone MEMCACHED_SUCCESS c'
    /\ exchanged (str "set k 5 -1 1" ++ crlf ++ str "v" ++ crlf) (str "END") (Listed 0)
         (some_client [slow_store]) c'.
Proof.
  destruct (some_client_at [slow_store] 0 slow_store eq_refl) as (i & Hi & Hb).
  refine (memcached_send_stores 0 (str "k") (str "k") (str "v") (-1) 5 0 SET_OP "STORED" MEMCACHED_STORED
    (str "END") 0 (Listed 0) (some_client [slow_store]) i _ _ _ Hi _ _ _ _ _ _ _ _ _).
  - apply steady_some_client. cbn. lia.
  - reflexivity.
  - reflexivity.
  - eapply opened_conversing; [exact Hb|by rewrite (instance_at_root _ _ _ Hi)].
  - reflexivity.
  - reflexivity.
  - reflexivity.
  - lia.
  - destruct (as_before_written _ _ Hb) as (_ & _ & ->). apply (as_before_takes _ _ Hb). vm_compute. reflexivity.
  - cbn. tauto.
  - reflexivity.
  - rewrite (as_before_incoming _ _ Hb). vm_compute. reflexivity.
Defined.

(** Three requests to two servers, of which one takes and says things in pieces. *)
Definition request_of (key value : string) : memcached_storage_request_st :=
  {| req_key := str key; req_value := str value; req_expiration := 0; req_flags := 0; req_cas := 0 |}.

Definition two_stores : list (list send_result * list recv_result * list poll_result) :=
  [([Sent 5; Sent 100], [Received (str "STORED" ++ crlf ++ str "NOT_")], []);
   ([Sent 100], [Received (str "STORED" ++ crlf ++ str "NOT_STORED" ++ crlf)], [])].


(** ** What the code does not do *)

(** In the binary protocol the code of a value that was stored is [MEMCACHED_SUCCESS],
    which [memcached_send_multi] takes for a failure. *)
Definition binary_store : list send_result * list recv_result * list poll_result :=
  ([Sent 1000], [Received (binary_response 1 0 0 0 [])], []).

Lemma binary_mset_fails :
  match memcached_mset 1 (Some [request_of "a" "1"]) true
          (with_flags (fun f => f <| binary_protocol := true |>) (some_client [binary_store])) with
  | CDone r _ => r = (MEMCACHED_FAILURE, Some [MEMCACHED_SUCCESS])
  | _ => False
  end.
Proof. vm_compute. reflexivity. Qed.

(** Without replies no response is counted, but it is taken away again for a replica:
    the count of the responses that are awaited from it wraps around. *)
Lemma replica_count_wraps :
  match memcached_set 1 (str "a") (str "1") 0 0
          (with_flags (fun f => f <| binary_protocol := true |> <| no_reply := true |>)
             ((some_client [binary_store; binary_store]) <| memc ::= fun m => m <| number_of_replicas := 1 |> |>)) with
  | CDone rc c => rc = MEMCACHED_SUCCESS
      /\ (cursor_active <$> servers (memc c)) = [0; 2 ^ 32 - 1]
  | _ => False
  end.
Proof. vm_compute. by split. Qed.

(** ** A switchover *)

(** A handle with one group of a master and a slave. *)
Definition replicated (events : list (list send_result * list recv_result * list poll_result)) : client :=
  let member (k : nat) e :=
    (server (opened e)) <| port := 11211 + Z.of_nat k |> <| groupindex := 0 |> <| switchover_sidx := -1 |> in
  (with_flags (fun f => f <| repl_enabled := true |>) (some_client events))
    <| memc ::= fun m =>
         m <| number_of_hosts := 1 |> <| servers := [] |>
           <| server_pool := list_to_map (zip (seq 0 (length events)) (imap member events)) |>
           <| rgroups := [{| rgroup_is_allocated := false; rgroup_is_initialized := true;
                             rgroup_is_shutting_down := false; rgroup_is_dead := false;
                             rgroup_groupindex := 0; groupname := str "g0"; rgroup_weight := 1;
                             nreplica := length events;
                             replicas := [Some 0%nat; Some 1%nat; None] |}] |> |>.

(** A master that has become a slave says who the master is: the command is sent to it
    and it is what its answer says, and the next commands are sent to it at once. *)
Example set_switches_over :
  match memcached_set 2 (str "a") (str "1") 0 0
          (replicated [([Sent 1000], [Received (str "SWITCHOVER localhost:11212" ++ crlf)], []);
                       ([Sent 1000], [Received (str "STORED" ++ crlf)], [])]) with
  | CDone rc c => rc = MEMCACHED_SUCCESS
      /\ net_sent (nets c (Pooled 1)) = str "set a 0 0 1" ++ crlf ++ str "1" ++ crlf
      /\ memcached_server_instance_fetch (memc c) 0 = Some (Pooled 1)
  | _ => False
  end.
Proof. vm_compute. by split. Qed.

