(* ===== verification/Fetch.v ===== *)
(** Fetching the values that were asked for: fetch.cc, and the choice of a server that
    can be read (io.cc). *)
From Stdlib Require Import Strings.Byte.
From stdpp Require Import functions.
From S2P Require Import Prelude HashFunctions Hashkit Memcached Text KeyHash Continuum Distribution.
From S2P Require Import ServerList Rgroup Error StringBuf Result Io Response Write Client Command.

Definition MAX_SERVERS_TO_POLL : nat := 100.

(** Where a result is that is filled: in the handle, or with the caller. *)
Inductive result_place :=
  | In_handle
  | Of_caller (r : memcached_result_st).

(** What [memcached_fetch] gives: the value, [None] for NULL, and the variables of the
    caller; a length of the key that is not assigned is [None]. *)
Record fetched := {
  fetched_value : option bytes;
  fetched_key : option bytes;
  fetched_key_length : option Z;
  fetched_length : Z;
  fetched_flags : Z;
  fetched_error : memcached_return_t;
}.

(** [strncpy] of [n] bytes. *)
Definition strncpy (n : nat) (src : bytes) : bytes :=
  let s := cstr (take n src) in s ++ replicate (n - length s) Byte.x00.

Section Fetching.
Context `{HE : Environment} `{HA : Allocator} `{HQ : Qsort} `{HB : BuildConfig}.
Context `{HS : !Stack} `{HU : !Surroundings}.

(** ** A server that can be read *)

(** The first [n] servers from [x] on: one that has something in its buffer, or the
    sockets of those that owe a response. *)
Fixpoint pending_servers (n : nat) (x : Z) (fds : list Z) : cio (location + list Z) :=
  match n with
  | O => mret (inr fds)
  | S n =>
      if (MAX_SERVERS_TO_POLL <=? length fds)%nat then mret (inr fds)
      else
        l ← instance_fetch x;
        s ← look l;
        if 0 <? read_buffer_length s then mret (inl l)
        else pending_servers n (x + 1) (if 0 <? cursor_active s then fds ++ [fd s] else fds)
  end.

(** The first server of which [p] is true. *)
Fixpoint find_server (n : nat) (x : Z) (p : memcached_server_st -> bool) : cio (option location) :=
  match n with
  | O => mret None
  | S n =>
      l ← instance_fetch x;
      s ← look l;
      if p s then mret (Some l) else find_server n (x + 1) p
  end.

(** The loop over the sockets that were asked about; [ready] are those that can be
    read. *)
Fixpoint find_ready (n : nat) (fds ready : list Z) : cio (option location) :=
  match fds with
  | [] => mret None
  | x :: fds =>
      if bool_decide (x ∈ ready) then
        l ← find_server n 0 (fun s => fd s =? x);
        match l with Some l => mret (Some l) | None => find_ready n fds ready end
      else find_ready n fds ready
  end.

Definition next_ready : cio ready_result := fun c =>
  match readies c with
  | [] => CBlocked
  | r :: rs => CDone r (c <| readies := rs |>)
  end.

Definition memcached_io_get_readable_server : cio (option location) :=
  m ← cgets memc;
  let n := Z.to_nat (memcached_server_count m) in
  p ← pending_servers n 0 [];
  match p with
  | inl l => mret (Some l)
  | inr fds =>
      if (length fds <? 2)%nat then find_server n 0 (fun s => 0 <? cursor_active s)
      else
        r ← next_ready;
        match r with
        | Ready choose => find_ready n fds (choose fds)
        | Ready_error e =>
            _ ← cmodify (fun c => c <| client_errno := e |>);
            _ ← memc_set_errno e (memcached_at "io.cc" 813);
            mret None
        end
  end.

(** ** fetch.cc *)

(** A response into a result. *)
Definition respond (place : result_place) : io (memcached_return_t * result_place) :=
  let buffer := stack_bytes (Z.to_nat (MEMCACHED_DEFAULT_COMMAND_SIZE + MEMCACHED_MAX_KEY)) in
  match place with
  | In_handle =>
      '(rc, _) ← memcached_response_to_root false flush_ignored buffer;
      mret (rc, In_handle)
  | Of_caller r =>
      '(rc, _, r) ← memcached_response false flush_ignored buffer r;
      mret (rc, Of_caller r)
  end.

Definition result_at (place : result_place) : cio memcached_result_st :=
  match place with In_handle => cgets memc_result | Of_caller r => mret r end.

Definition change_result (f : memcached_result_st -> memcached_result_st) (place : result_place)
    : cio result_place :=
  match place with
  | In_handle => _ ← cmodify (fun c => c <| memc_result ::= f |>); mret In_handle
  | Of_caller r => mret (Of_caller (f r))
  end.

(** [fuel] bounds how many responses are read that give no value; the result has the
    last code, whether there is a value, and whether a connection failed. *)
Fixpoint result_loop (fuel : nat) (place : result_place) (error : memcached_return_t)
    (connection_failures : bool) : cio (memcached_return_t * bool * bool * result_place) :=
  match fuel with
  | O => fun _ => CBlocked
  | S fuel =>
      s ← memcached_io_get_readable_server;
      match s with
      | None => mret (error, false, connection_failures, place)
      | Some l =>
          '(error, place) ← on_server l (respond place);
          if bool_decide (error = MEMCACHED_IN_PROGRESS)
          then result_loop fuel place error connection_failures
          else if bool_decide (error = MEMCACHED_CONNECTION_FAILURE)
          then result_loop fuel place error true
          else if bool_decide (error = MEMCACHED_SUCCESS) then
            place ← change_result (fun r => r <| result_count ::= fun n => u64 (n + 1) |>) place;
            mret (error, true, connection_failures, place)
          else if bool_decide (error = MEMCACHED_END) then
            _ ← on_server l memcached_server_response_reset;
            result_loop fuel place error connection_failures
          else if bool_decide (error = MEMCACHED_NOTFOUND)
          then result_loop fuel place error connection_failures
          else mret (error, false, connection_failures, place)
      end
  end.

(** The code for the caller when there is no value. *)
Definition fetch_error (error : memcached_return_t) (count : Z) (connection_failures : bool)
    : memcached_return_t :=
  if bool_decide (error = MEMCACHED_NOTFOUND) && negb (count =? 0) then MEMCACHED_END
  else if bool_decide (error = MEMCACHED_MAXIMUM_RETURN) && negb (count =? 0) then MEMCACHED_END
  else if bool_decide (error = MEMCACHED_MAXIMUM_RETURN) then MEMCACHED_NOTFOUND
  else if connection_failures then MEMCACHED_CONNECTION_FAILURE
  else if count =? 0 then MEMCACHED_NOTFOUND
  else error.

(** What [malloc] returns for a result; a handle's own result is used if it is not in
    use already. *)
Variable result_malloc : option memcached_result_st.

Definition place_of (result : option result_place) : cio (option result_place) :=
  match result with
  | Some place => mret (Some place)
  | None =>
      r ← cgets memc_result;
      if result_is_initialized r then
        mret (Of_caller <$> memcached_result_create result_malloc true)
      else
        r ← cchecked (memcached_result_create (Some r) false);
        _ ← cmodify (fun c => c <| memc_result := r |>);
        mret (Some In_handle)
  end.

(** The result says the code, whether a result is returned, and where the result is,
    [None] if there is none any more. *)
Definition memcached_fetch_result (fuel : nat) (result : option result_place)
    : cio (memcached_return_t * bool * option result_place) :=
  m ← cgets memc;
  if use_udp (flags m) then mret (MEMCACHED_NOT_SUPPORTED, false, result)
  else
    place ← place_of result;
    match place with
    | None => mret (MEMCACHED_MEMORY_ALLOCATION_FAILURE, false, None)
    | Some place =>
        '(error, found, connection_failures, place) ←
          result_loop fuel place MEMCACHED_MAXIMUM_RETURN false;
        if found : bool then mret (error, true, Some place)
        else
          _ ← cmodify (fun c => c <| last_response_code := error |>);
          r ← result_at place;
          let error := fetch_error error (result_count r) connection_failures in
          if result_is_allocated r then
            match place with
            | In_handle => cchecked None
            | Of_caller _ => mret (error, false, None)
            end
          else
            place ← change_result (fun r =>
              r <| result_count := 0 |> <| item_value ::= memcached_string_reset |>) place;
            mret (error, false, Some place)
    end.

(** [key] is the array of the caller, [None] for NULL. *)
Definition memcached_fetch (fuel : nat) (key : option bytes) : cio fetched :=
  '(error, found, _) ← memcached_fetch_result fuel (Some In_handle);
  if negb found then
    key ← (match key with
           | None => mret None
           | Some k => k ← cchecked (memcpy_to k 0 [Byte.x00]); mret (Some k)
           end);
    mret {| fetched_value := None; fetched_key := key; fetched_key_length := Some 0;
            fetched_length := 0; fetched_flags := 0; fetched_error := error |}
  else
    r ← cgets memc_result;
    key' ← (match key with
            | None => mret None
            | Some k =>
                k ← cchecked (memcpy_to k 0 (strncpy (Z.to_nat (key_length r)) (item_key r)));
                mret (Some k)
            end);
    '(value, v) ← cchecked (memcached_string_take_value (item_value r));
    _ ← cmodify (fun c => c <| memc_result ::= fun r => r <| item_value := v |> |>);
    mret {| fetched_value := value; fetched_key := key';
            fetched_key_length := match key with Some _ => Some (key_length r) | None => None end;
            fetched_length := memcached_string_length (item_value r); fetched_flags := item_flags r;
            fetched_error := error |}.

(** The callbacks on a result, until one fails; whether one did. *)
Fixpoint call_all (callback : list (memcached_result_st -> cio memcached_return_t))
    (r : memcached_result_st) : cio bool :=
  match callback with
  | [] => mret false
  | f :: callback =>
      ret ← f r;
      if memcached_failed ret then
        _ ← memc_set_error ret (memcached_at "fetch.cc" 231) None;
        mret true
      else call_all callback r
  end.

(** [fuel] is for the results, [inner] for each of them. *)
Fixpoint fetch_execute_loop (fuel inner : nat)
    (callback : list (memcached_result_st -> cio memcached_return_t)) (some_errors : bool)
    : cio (memcached_return_t * bool) :=
  match fuel with
  | O => fun _ => CBlocked
  | S fuel =>
      '(rc, found, _) ← memcached_fetch_result inner (Some In_handle);
      if negb found then mret (rc, some_errors)
      else if memcached_failed rc && bool_decide (rc = MEMCACHED_NOTFOUND)
      then fetch_execute_loop fuel inner callback some_errors
      else if memcached_failed rc then
        _ ← memc_set_error rc (memcached_at "fetch.cc" 220) None;
        fetch_execute_loop fuel inner callback true
      else
        r ← cgets memc_result;
        failed ← call_all callback r;
        fetch_execute_loop fuel inner callback (some_errors || failed)
  end.

Definition memcached_fetch_execute (fuel inner : nat)
    (callback : list (memcached_result_st -> cio memcached_return_t)) : cio memcached_return_t :=
  '(rc, some_errors) ← fetch_execute_loop fuel inner callback false;
  mret (if some_errors : bool then MEMCACHED_SOME_ERRORS
        else if memcached_success rc then MEMCACHED_SUCCESS else rc).
End Fetching.

(** ** What a server has for a client *)

(** A value with its key and flags, and what a server says when it has some. *)
Abbreviation item := (bytes * bytes * Z)%type.
Definition item_text (prefix : bytes) (it : item) : bytes := value_response prefix it.1.1 it.1.2 it.2.
Definition stream (prefix : bytes) (items : list item) : bytes :=
  mjoin (item_text prefix <$> items) ++ str "END" ++ crlf.

(** What a key, a value and flags must be; [limit] is how much memory there is. *)
Record good_item (prefix : bytes) (limit : Z) (it : item) : Prop := {
  item_key_bytes : Forall (fun c => key_byte c = true) it.1.1;
  item_key_some : (0 < length it.1.1)%nat;
  item_key_length : Z.of_nat (length prefix + length it.1.1) < MEMCACHED_MAX_KEY;
  item_flags_range : is_u32 it.2;
  item_length_range : is_u32 (Z.of_nat (length it.1.2));
  item_fits : Z.of_nat (length it.1.2) + 2 <= limit;
}.

(** A result that can be filled: its string is well formed, and its key has its size. *)
Definition tidy (r : memcached_result_st) : Prop :=
  string_inv (item_value r) /\ length (item_key r) = Z.to_nat MEMCACHED_MAX_KEY
  /\ result_is_allocated r = false.

Definition shows (it : item) (r : memcached_result_st) : Prop :=
  memcached_result_key_value r = Some it.1.1 /\ memcached_result_value r = it.1.2
  /\ memcached_result_flags r = it.2 /\ holds_more r.

(** The handle speaks the text protocol, over streams. *)
Record fetch_handle (prefix : bytes) (m : memcached_st) : Prop := {
  fh_text : binary_protocol (flags m) = false;
  fh_stream : use_udp (flags m) = false;
  fh_watermark : 1 < io_msg_watermark m;
  fh_prefix : memcached_array_string (_namespace m) = prefix;
  fh_prefix_bytes : Forall (fun c => key_byte c = true) prefix;
}.

(** A server that owes these items, and one that owes nothing and has nothing. *)
Record owing (prefix : bytes) (items : list item) (i : instance) : Prop := {
  ow_connected : connected i;
  ow_flushed : write_buffer_offset (server i) = 0;
  ow_cursor : cursor_active (server i) = 1;
  ow_incoming : incoming i = stream prefix items;
}.

Definition silent (i : instance) : Prop :=
  cursor_active (server i) = 0 /\ read_buffer_length (server i) = 0.

Section Responses.
Context `{HE : Environment} `{HA : Allocator} `{HS : !Stack}.

(** There is memory for values up to [limit]. *)
Definition memory_for (limit : Z) : Prop :=
  forall s n, string_inv s -> 0 <= n <= limit ->
    memcached_failed (fst (_string_check (memcached_string_reset s) n)) = false.

(** One response is read, into the result of the handle. *)
Lemma respond_one rc buffer r i j :
  quiet i -> write_buffer_offset (server i) = 0 -> binary_protocol (flags (root i)) = false ->
  cursor_active (server i) = 1 ->
  memcached_read_one_response
    (stack_bytes (Z.to_nat (MEMCACHED_DEFAULT_COMMAND_SIZE + MEMCACHED_MAX_KEY))) (root_result i) i
  = Done (rc, buffer, r) j ->
  respond In_handle i = Done (rc, In_handle) (j <| root_result := r |>).
Proof.
  intros Hq Ho Hb Hc E. unfold respond, memcached_response_to_root.
  assert (Ew : write_first false flush_ignored i = Done tt i).
  { unfold write_first. io_pure. destruct (no_block _); [|done]. cbn [andb negb].
    by apply flush_ignored_empty. }
  assert (Er : receive_responses (stack_bytes (Z.to_nat (MEMCACHED_DEFAULT_COMMAND_SIZE + MEMCACHED_MAX_KEY)))
                 (root_result i) i = Done (rc, buffer, r) j).
  { unfold receive_responses. io_pure. rewrite Hb. io_pure. cbn [response_loop]. io_pure.
    by rewrite Hc. }
  rewrite io_bind_assoc. io_do Ew. by io_do (into_root_done _ _ _ _ _ _ Er).
Qed.

(** What reading leaves alone, but for the result. *)
Definition kept (i j : instance) : Prop :=
  root j = root i /\ fd (server j) = fd (server i) /\ sent j = sent i
  /\ write_buffer_offset (server j) = write_buffer_offset (server i).

Lemma respond_value prefix it items limit i :
  fetch_handle prefix (root i) -> memory_for limit -> good_item prefix limit it ->
  owing prefix (it :: items) i -> tidy (root_result i) ->
  exists j, respond In_handle i = Done (MEMCACHED_SUCCESS, In_handle) j
    /\ owing prefix items j /\ kept i j /\ shows it (root_result j) /\ tidy (root_result j)
    /\ result_count (root_result j) = result_count (root_result i).
Proof.
  intros [Ht Hu Hw Hp Hpb] Hmem [Hk Hk0 Hkl Hf Hl Hfit] [Hc Ho Hcur Hin] (Hinv & Hkey & Hal).
  destruct it as [[k v] f]. cbn [fst snd] in *.
  assert (Hbuf : (length (value_line prefix k v f) + 1
    < length (stack_bytes (Z.to_nat (MEMCACHED_DEFAULT_COMMAND_SIZE + MEMCACHED_MAX_KEY))))%nat).
  { rewrite stack_bytes_length. unfold value_line. rewrite !length_app. cbn [length].
    rewrite !length_app. cbn [length]. rewrite length_app. cbn [length].
    pose proof (print_u32_length f). pose proof (print_u32_length (Z.of_nat (length v))).
    change (length (str "VALUE ")) with 6%nat. unfold MEMCACHED_MAX_KEY in *.
    change (Z.to_nat (MEMCACHED_DEFAULT_COMMAND_SIZE + 4001)) with 4513%nat. lia. }
  destruct (read_value_response prefix k v f (stack_bytes (Z.to_nat
    (MEMCACHED_DEFAULT_COMMAND_SIZE + MEMCACHED_MAX_KEY))) (root_result i) (stream prefix items) i)
    as (b & r & j & E & Hkv & Hkn & (Hv & Hmore & Hik & Hsame & Hcount) & Hfl & _ & Hcj & Hij & Hund);
    try done; try lia.
  { rewrite Hin. unfold stream. cbn [fmap list_fmap mjoin list_join]. by rewrite <-app_assoc. }
  { split; [done|]. apply Hmem; [done|lia]. }
  destruct Hund as (R & _ & _ & _ & F & _ & _ & C & W).
  exists (j <| root_result := r |>). split.
  { eapply respond_one; [|done..|exact E]. right. right. by rewrite Hcur. }
  injection W as W1 W2 W3 W4 W5 W6.
  split; [split; [done|by change (write_buffer_offset (server j) = 0); rewrite W5
                 |by change (cursor_active (server j) = 1); rewrite C|done]|].
  split; [by repeat split|]. split; [|split; [|exact Hcount]].
  - unfold shows, memcached_result_key_value, memcached_result_flags.
    change (root_result (j <| root_result := r |>)) with r. rewrite Hkn.
    rewrite (proj2 (Z.eqb_neq _ 0)) by lia. rewrite Nat2Z.id, Hkv. done.
  - split; [apply Hmore|]. split; [done|]. transitivity (result_is_allocated (root_result i)); [exact Hsame|done].
Qed.

Lemma respond_end prefix i :
  fetch_handle prefix (root i) -> owing prefix [] i ->
  exists j, respond In_handle i = Done (MEMCACHED_END, In_handle) j
    /\ kept i j /\ cursor_active (server j) = 0 /\ read_buffer_length (server j) = 0
    /\ root_result j = root_result i.
Proof.
  intros [Ht Hu Hw Hp Hpb] [Hc Ho Hcur Hin].
  destruct (read_said_line (str "END") MEMCACHED_END (stack_bytes (Z.to_nat
    (MEMCACHED_DEFAULT_COMMAND_SIZE + MEMCACHED_MAX_KEY))) [] (root_result i) i)
    as (tail & j & E & _ & Hcj & Hij & He & Hr & Hh & Hfd & Hwr & Hcu); try done.
  { apply (status_says "END"). cbn. tauto. }
  { by rewrite Hcur. }
  { rewrite stack_bytes_length. unfold MEMCACHED_MAX_KEY, MEMCACHED_DEFAULT_COMMAND_SIZE. cbn. lia. }
  cbn [more_follow] in Hcu. rewrite Hcur in Hcu.
  exists (j <| root_result := root_result i |>). split.
  { eapply respond_one; [|done..|exact E]. right. right. by rewrite Hcur. }
  injection Hwr as W1 W2 W3 W4 W5 W6. split; [by repeat split|]. split; [exact Hcu|]. split; [|done].
  change (read_buffer_length (server j) = 0).
  pose proof (buffered_length j Hcj) as Hlen. apply (f_equal length) in Hij.
  unfold incoming in Hij. rewrite length_app in Hij. destruct Hcj as (_ & _ & _ & Hrange & _).
  cbn in Hij. lia.
Qed.
End Responses.

(** ** Which server is read *)

(** What the servers owe. *)
Abbreviation debts := (location -> option (list item)).

Section Readable.
Context `{HE : Environment} `{HA : Allocator} `{HQ : Qsort} `{HB : BuildConfig}.
Context `{HS : !Stack} `{HU : !Surroundings}.

(** The servers of the handle. *)
Definition polled (c : client) (l : location) : Prop :=
  exists x, 0 <= x < memcached_server_count (memc c) /\ memcached_server_instance_fetch (memc c) x = Some l.

Definition all_there (c : client) : Prop :=
  forall x, 0 <= x < memcached_server_count (memc c) ->
    exists l i, memcached_server_instance_fetch (memc c) x = Some l /\ instance_at c l = Some i.

(** An open socket belongs to one server, at one position. *)
Definition own_sockets (c : client) : Prop :=
  forall x y l l' i i',
    0 <= x < memcached_server_count (memc c) -> memcached_server_instance_fetch (memc c) x = Some l ->
    0 <= y < memcached_server_count (memc c) -> memcached_server_instance_fetch (memc c) y = Some l' ->
    instance_at c l = Some i -> instance_at c l' = Some i' ->
    fd (server i) = fd (server i') -> fd (server i) <> INVALID_SOCKET -> x = y.

(** [poll] says that one of the sockets can be read. *)
Definition fair (r : ready_result) : Prop :=
  exists choose, r = Ready choose /\ forall fds, fds <> [] -> exists x, x ∈ fds /\ x ∈ choose fds.

Context (prefix : bytes) (c0 : client) (Hthere : all_there c0) (Hown : own_sockets c0).

Definition owes (D : debts) (l : location) (i0 i : instance) : Prop :=
  fd (server i) = fd (server i0) /\ sent i = sent i0
  /\ match D l with
     | Some items => owing prefix items i
     | None => polled c0 l -> silent i
     end.

Lemma owes_as_before D l i0 i j : owes D l i0 i -> as_before i j -> owes D l i0 j.
Proof.
  intros (Hf & Hs & Hd) Hb. pose proof (ab_server _ _ Hb) as Es. pose proof (ab_sent _ _ Hb) as Et.
  split; [by rewrite Es|]. split; [by rewrite Et|]. destruct (D l).
  - destruct Hd as [A B C E]. split; [by eapply as_before_connected|by rewrite Es..|].
    by rewrite (as_before_incoming _ _ Hb).
  - intros Hp. destruct (Hd Hp). split; by rewrite Es.
Qed.

Section Choice.
Context (D : debts) (c : client) (Hst : stands (owes D) c0 c).
Context (Hpolled : forall l, D l <> None -> polled c0 l).

Lemma at_position x :
  0 <= x < memcached_server_count (memc c0) ->
  exists l i0 i, memcached_server_instance_fetch (memc c0) x = Some l
    /\ instance_fetch x c = CDone l c /\ polled c0 l
    /\ instance_at c0 l = Some i0 /\ instance_at c l = Some i /\ look l c = CDone (server i) c
    /\ owes D l i0 i.
Proof.
  intros Hx. destruct (Hthere x Hx) as (l & i0 & Hl & Hi0).
  destruct (st_at _ _ _ Hst l i0 Hi0) as (i & Hi & Ho). exists l, i0, i. split; [done|].
  split; [apply instance_fetch_some; by rewrite (alike_fetch _ _ _ (st_handle _ _ _ Hst))|].
  split; [by exists x|]. split; [done|]. split; [done|]. split; [|done].
  unfold look. cio_pure. by rewrite (instance_at_server _ _ _ Hi).
Qed.

(** A socket of a server that owes something, at a position before [b]. *)
Definition owed_by (b d : Z) : Prop :=
  exists x l i, 0 <= x < b /\ memcached_server_instance_fetch (memc c0) x = Some l /\ D l <> None
    /\ instance_at c l = Some i /\ fd (server i) = d.

Lemma owed_by_mono b b' d : b <= b' -> owed_by b d -> owed_by b' d.
Proof. intros Hb (x & l & i & Hx & H). exists x, l, i. split; [lia|done]. Qed.

(** Every server that can be found by an owed socket owes something. *)
Lemma owed_server b d x l i :
  b <= memcached_server_count (memc c0) -> owed_by b d ->
  0 <= x < memcached_server_count (memc c0) -> memcached_server_instance_fetch (memc c0) x = Some l ->
  instance_at c l = Some i -> fd (server i) = d -> D l <> None /\ x < b.
Proof.
  intros Hb (x' & l' & i' & Hx' & Hlx' & Hd & Hi' & Hfd') Hx Hlx Hi Hfd.
  destruct (at_position x Hx) as (m & j0 & j & Hm & _ & Hp & Hj0 & Hj & _ & (Hf & _)).
  destruct (at_position x') as (m' & j0' & j' & Hm' & _ & Hp' & Hj0' & Hj' & _ & (Hf' & _ & Ho')); [lia|].
  simplify_eq. destruct (D l') as [items|] eqn:ED; [|done].
  assert (x' = x) as ->; [|split; [congruence|lia]].
  apply (Hown x' x l' l j0' j0); [lia|done..|congruence|].
  rewrite <-Hf'. apply (proj1 (ow_connected _ _ _ Ho')).
Qed.

Lemma pending_servers_spec n : forall x fds,
  0 <= x -> x + Z.of_nat n <= memcached_server_count (memc c0) -> Forall (owed_by x) fds -> NoDup fds ->
  (exists l items, pending_servers n x fds c = CDone (inl l) c /\ D l = Some items)
  \/ exists fds', pending_servers n x fds c = CDone (inr fds') c
     /\ Forall (owed_by (memcached_server_count (memc c0))) fds' /\ NoDup fds'.
Proof.
  induction n as [|n IH]; intros x fds Hx Hn Hfds Hnd; cbn [pending_servers].
  { right. exists fds. split; [done|]. split; [|done].
    eapply Forall_impl; [exact Hfds|]. intros d. apply owed_by_mono. lia. }
  destruct (MAX_SERVERS_TO_POLL <=? length fds)%nat eqn:Emax.
  { right. exists fds. split; [done|]. split; [|done].
    eapply Forall_impl; [exact Hfds|]. intros d. apply owed_by_mono. lia. }
  destruct (at_position x) as (l & i0 & i & Hl & Ef & Hp & _ & Hi & El & (_ & _ & Hd)); [lia|].
  assert (Hfds' : Forall (owed_by (x + 1)) fds).
  { eapply Forall_impl; [exact Hfds|]. intros d. apply owed_by_mono. lia. }
  cio_do Ef. cio_do El. destruct (D l) as [items|] eqn:ED.
  - destruct (Z.ltb_spec 0 (read_buffer_length (server i))); [left; by exists l, items|].
    rewrite (ow_cursor _ _ _ Hd). cbn [Z.ltb Z.compare]. apply IH; [lia..| |].
    + apply Forall_app. split; [done|]. apply Forall_singleton. exists x, l, i. rewrite ED. by split; [lia|].
    + apply NoDup_app. split; [done|]. split; [|apply NoDup_singleton].
      intros d Hin ->%list_elem_of_singleton. rewrite Forall_forall in Hfds.
      destruct (owed_server x (fd (server i)) x l i) as [_ Hlt]; [lia|by apply Hfds|lia|done..|lia].
  - destruct (Hd Hp) as [Hcur Hbuf]. rewrite Hbuf, Hcur. cbn [Z.ltb Z.compare]. apply IH; [lia|lia|done..].
Qed.

Lemma find_server_spec p n : forall x,
  0 <= x -> x + Z.of_nat n <= memcached_server_count (memc c0) ->
  exists r, find_server n x p c = CDone r c
    /\ match r with
       | Some l => polled c0 l /\ exists i, instance_at c l = Some i /\ p (server i) = true
       | None => forall y l i, x <= y < x + Z.of_nat n ->
           memcached_server_instance_fetch (memc c0) y = Some l -> instance_at c l = Some i ->
           p (server i) = false
       end.
Proof.
  induction n as [|n IH]; intros x Hx Hn; cbn [find_server].
  { exists None. split; [done|]. lia. }
  destruct (at_position x) as (l & i0 & i & Hl & Ef & Hp & _ & Hi & El & _); [lia|].
  cio_do Ef. cio_do El. destruct (p (server i)) eqn:Ep; [exists (Some l); by eauto|].
  destruct (IH (x + 1)) as (r & E & Hr); [lia..|]. exists r. split; [done|].
  destruct r; [done|]. intros y l' i' Hy Hl' Hi'. destruct (decide (y = x)) as [->|Hne]; [congruence|].
  apply (Hr y l'); [lia|done..].
Qed.

Lemma find_ready_spec ready fds n :
  Z.of_nat n = memcached_server_count (memc c0) ->
  Forall (owed_by (memcached_server_count (memc c0))) fds -> (exists d, d ∈ fds /\ d ∈ ready) ->
  exists l, find_ready n fds ready c = CDone (Some l) c /\ D l <> None.
Proof.
  intros Hn Hfds. induction Hfds as [|d fds Hd Hfds IH]; intros (d' & Hin & Hr); [by apply elem_of_nil in Hin|].
  cbn [find_ready]. case_bool_decide as Hdr.
  - destruct (find_server_spec (fun s => fd s =? d) n 0) as (r & E & Hspec); [lia..|].
    cio_do E. destruct r as [l|].
    + destruct Hspec as ((x & Hx & Hlx) & i & Hi & Hfd). exists l. split; [done|].
      apply (owed_server (memcached_server_count (memc c0)) d x l i); [lia|done..|lia].
    + destruct Hd as (x & l & i & Hx & Hlx & Hl & Hi & Hfd).
      specialize (Hspec x l i ltac:(lia) Hlx Hi). lia.
  - apply IH. apply elem_of_cons in Hin as [->|Hin]; [done|by exists d'].
Qed.

(** Two sockets are of two servers. *)
Lemma owed_two b d1 d2 fds :
  Forall (owed_by b) (d1 :: d2 :: fds) -> NoDup (d1 :: d2 :: fds) ->
  exists l1 l2, l1 <> l2 /\ D l1 <> None /\ D l2 <> None.
Proof.
  intros [(x1 & l1 & i1 & _ & _ & H1 & Hi1 & Hf1) [(x2 & l2 & i2 & _ & _ & H2 & Hi2 & Hf2) _]%Forall_cons]%Forall_cons Hnd.
  exists l1, l2. split; [|done]. intros ->. apply NoDup_cons in Hnd as [Hnd _]. apply Hnd.
  apply elem_of_cons. left. congruence.
Qed.
End Choice.

(** Where something is owed a server is chosen that owes something. *)
Lemma readable_server_spec D c :
  stands (owes D) c0 c -> (forall l, D l <> None -> polled c0 l) ->
  0 <= memcached_server_count (memc c0) ->
  ((exists l1 l2, l1 <> l2 /\ D l1 <> None /\ D l2 <> None) -> exists r rs, readies c = r :: rs /\ fair r) ->
  (exists l c', memcached_io_get_readable_server c = CDone (Some l) c' /\ D l <> None
     /\ (c' = c \/ exists r rs, readies c = r :: rs /\ c' = c <| readies := rs |>))
  \/ memcached_io_get_readable_server c = CDone None c /\ forall l, D l = None.
Proof.
  intros Hst Hpolled Hcount Hready.
  assert (Hn : memcached_server_count (memc c) = memcached_server_count (memc c0))
    by (by rewrite (proj2 (st_handle _ _ _ Hst))).
  set (n := Z.to_nat (memcached_server_count (memc c0))).
  destruct (pending_servers_spec D c Hst n 0 []) as [(l & items & E & Hl)|(fds & E & Hfds & Hnd)];
    [lia..|done|apply NoDup_nil_2| |].
  { left. exists l, c. split; [unfold memcached_io_get_readable_server; cio_pure; rewrite Hn; fold n; cio_do E; done|]. by rewrite Hl; eauto. }
  destruct (length fds <? 2)%nat eqn:Elt.
  - destruct (find_server_spec D c Hst (fun s => 0 <? cursor_active s) n 0) as (r & E2 & Hspec); [lia..|].
    destruct r as [l|].
    + left. exists l, c. split; [unfold memcached_io_get_readable_server; cio_pure; rewrite Hn; fold n; cio_do E; cbv iota; rewrite Elt; exact E2|]. split; [|by left]. destruct Hspec as (Hp & i & Hi & Hcur).
      destruct Hp as (x & Hx & Hlx).
      destruct (at_position D c Hst x Hx) as (m & j0 & j & Hm & _ & Hp & Hj0 & Hj & _ & (_ & _ & Ho)).
      simplify_eq. destruct (D l); [done|]. destruct (Ho Hp) as [Hz _]. lia.
    + right. split; [unfold memcached_io_get_readable_server; cio_pure; rewrite Hn; fold n; cio_do E; cbv iota; rewrite Elt; exact E2|]. intros l. destruct (D l) as [items|] eqn:ED; [|done].
      destruct (Hpolled l) as (x & Hx & Hlx); [by rewrite ED|].
      destruct (at_position D c Hst x Hx) as (m & j0 & j & Hm & _ & Hp & Hj0 & Hj & _ & (_ & _ & Ho)).
      simplify_eq. rewrite ED in Ho.
      specialize (Hspec x l j ltac:(lia) Hlx Hj). pose proof (ow_cursor _ _ _ Ho). lia.
  - left. assert (Hne : fds <> []) by by intros ->.
    destruct Hready as (r & rs & Hrs & choose & -> & Hch).
    { destruct fds as [|d1 [|d2 fds]]; [done..|]. by eapply owed_two. }
    pose (c2 := c <| readies := rs |>).
    assert (Hst2 : stands (owes D) c0 c2) by (by destruct Hst).
    destruct (find_ready_spec D c2 Hst2 (choose fds) fds n) as (l & E3 & Hl);
      [lia|exact Hfds|by apply Hch|].
    exists l, c2. split; [|split; [done|right; by eauto]].
    unfold memcached_io_get_readable_server; cio_pure; rewrite Hn; fold n; cio_do E; cbv iota; rewrite Elt.
    assert (E4 : next_ready c = CDone (Ready choose) c2)
      by (unfold next_ready; by rewrite Hrs).
    cio_do E4. cbv iota. exact E3.
Qed.

(** ** What is fetched *)

Context (limit : Z) (Hfetch : fetch_handle prefix (memc c0)) (Hmem : memory_for limit).
Context (Hcount : 0 <= memcached_server_count (memc c0)).

(** How many responses are still to come from these servers. *)
Definition to_come (w : option (list item)) : nat :=
  match w with Some items => S (length items) | None => 0 end.
Definition debt (ls : list location) (D : debts) : nat := sum_list_with (fun l => to_come (D l)) ls.

Lemma debt_insert ls D l w :
  NoDup ls -> l ∈ ls ->
  (debt ls (<[l := w]> D) + to_come (D l) = debt ls D + to_come w)%nat.
Proof.
  assert (Hsame : forall ls, l ∉ ls -> debt ls (<[l := w]> D) = debt ls D).
  { clear. induction ls as [|m ls IH]; intros Hl; [done|]. apply not_elem_of_cons in Hl as [Hm Hl].
    change (debt (m :: ls) ?E) with (to_come (E m) + debt ls E)%nat.
    by rewrite fn_lookup_insert_ne, IH. }
  intros Hnd. induction Hnd as [|m ls Hm Hnd IH]; intros Hl; [by apply elem_of_nil in Hl|].
  change (debt (m :: ls) ?E) with (to_come (E m) + debt ls E)%nat. apply elem_of_cons in Hl as [->|Hl].
  - rewrite fn_lookup_insert, Hsame by done. lia.
  - rewrite fn_lookup_insert_ne by (by intros ->). specialize (IH Hl). lia.
Qed.

Lemma debt_none ls D : (forall l, D l <> None -> l ∈ ls) -> debt ls D = 0%nat -> forall l, D l = None.
Proof.
  intros Hls Hz l. destruct (D l) as [items|] eqn:E; [|done]. exfalso.
  assert (Hl : l ∈ ls) by (apply Hls; by rewrite E). clear Hls.
  induction ls as [|m ls IH]; [by apply elem_of_nil in Hl|]. change (to_come (D m) + debt ls D = 0)%nat in Hz.
  apply elem_of_cons in Hl as [->|Hl]; [by rewrite E in Hz|]. apply IH; [lia|done].
Qed.

(** While the values are fetched: [ls] are the servers that were asked. *)
Record fetching (ls : list location) (D : debts) (c : client) : Prop := {
  ft_stands : stands (owes D) c0 c;
  ft_tidy : tidy (memc_result c);
  ft_query : query_id (memc c) = query_id (memc c0);
  ft_asked : forall l, D l <> None -> l ∈ ls /\ polled c0 l;
  ft_good : forall l items, D l = Some items -> Forall (good_item prefix limit) items;
  ft_fair : Forall fair (readies c);
  ft_enough : (2 <= length ls -> debt ls D <= length (readies c))%nat;
}.

Lemma fetch_handle_alike m : alike (memc c0) m -> fetch_handle prefix m.
Proof.
  intros [_ E]. destruct Hfetch as [A B C F G]. rewrite E. by split.
Qed.

Lemma polled_instance l : polled c0 l -> exists i0, instance_at c0 l = Some i0.
Proof.
  intros (x & Hx & Hl). destruct (Hthere x Hx) as (l' & i0 & Hl' & Hi0). simplify_eq. by exists i0.
Qed.

Lemma owes_elsewhere D l w l' i i' : l' <> l -> owes D l' i i' -> owes (<[l := w]> D) l' i i'.
Proof. intros Hl. unfold owes. by rewrite fn_lookup_insert_ne. Qed.

Lemma fetching_less ls D c c' l items w :
  NoDup ls -> fetching ls D c -> D l = Some items ->
  stands (owes (<[l := w]> D)) c0 c' -> tidy (memc_result c') ->
  query_id (memc c') = query_id (memc c) ->
  (w = None \/ exists items', w = Some items' /\ Forall (good_item prefix limit) items') ->
  (to_come w <= length items)%nat ->
  (readies c' = readies c \/ exists r, readies c = r :: readies c') ->
  fetching ls (<[l := w]> D) c' /\ (debt ls (<[l := w]> D) < debt ls D)%nat.
Proof.
  intros Hnd [Hst Ht Hq Hls Hgood Hfair Hen] HD Hst' Ht' Hq' Hw Hless Hr.
  destruct (Hls l) as [Hl Hp]; [by rewrite HD|].
  pose proof (debt_insert ls D l w Hnd Hl) as Hdebt. rewrite HD in Hdebt. cbn [to_come] in Hdebt.
  split; [|lia]. split; [done|done|congruence|..].
  - intros l'. destruct (decide (l' = l)) as [->|Hne]; [done|]. rewrite fn_lookup_insert_ne by done. apply Hls.
  - intros l' its. destruct (decide (l' = l)) as [->|Hne].
    + rewrite fn_lookup_insert. intros ->. destruct Hw as [Hw|(its' & [= ->] & Hg)]; [done|done].
    + rewrite fn_lookup_insert_ne by done. apply Hgood.
  - destruct Hr as [->|(r & Hr)]; [done|]. rewrite Hr in Hfair. by inversion Hfair.
  - destruct Hr as [->|(r & Hr)]; [lia|]. rewrite Hr in Hen. cbn in Hen. lia.
Qed.

(** What a response does to a server is done to the client. *)
Lemma fetch_response ls D c l items w rc (P : memcached_result_st -> Prop) :
  fetching ls D c -> D l = Some items ->
  (forall i, fetch_handle prefix (root i) -> owing prefix items i -> root_result i = memc_result c ->
     exists j, respond In_handle i = Done (rc, In_handle) j /\ kept i j
       /\ match w with Some items' => owing prefix items' j | None => silent j end /\ P (root_result j)) ->
  exists c', on_server l (respond In_handle) c = CDone (rc, In_handle) c'
    /\ stands (owes (<[l := w]> D)) c0 c' /\ readies c' = readies c
    /\ query_id (memc c') = query_id (memc c) /\ P (memc_result c').
Proof.
  intros Hf HD Hrespond. destruct (polled_instance l) as (i0 & Hi0); [apply Hf; by rewrite HD|].
  assert (Hstep : forall i, instance_at c l = Some i -> owes D l i0 i ->
    exists j, respond In_handle i = Done (rc, In_handle) j
      /\ (root j = root i /\ owes (<[l := w]> D) l i0 j) /\ P (root_result j)).
  { intros i Hi (Hfd & Hsent & Ho). rewrite HD in Ho.
    destruct (Hrespond i) as (j & E & (Hr & Hfd' & Hs' & _) & Hw & HP); [|done|by apply instance_at_result in Hi|].
    { apply fetch_handle_alike. rewrite (instance_at_root c l i Hi). apply Hf. }
    exists j. split; [done|]. split; [|done]. split; [done|]. split; [by rewrite Hfd'|].
    split; [by rewrite Hs'|]. rewrite fn_lookup_insert. by destruct w. }
  destruct (on_server_stands (owes D) (owes (<[l := w]> D)) c0 c l i0 (respond In_handle)
    (rc, In_handle)) as (c' & E & Hst & _ & i & j & Hi & Ej & ->).
  - apply Hf.
  - done.
  - intros i Hi Ho. destruct (Hstep i Hi Ho) as (j & Ej & [Hr Hj] & _). by exists j.
  - intros l' i i' j. apply owes_as_before.
  - intros l' i i'. apply owes_elsewhere.
  - destruct (st_at _ _ _ (ft_stands _ _ _ Hf) l i0 Hi0) as (i2 & Hi2 & Ho).
    rewrite Hi in Hi2. injection Hi2 as <-.
    destruct (Hstep i Hi Ho) as (j2 & Ej2 & [Hroot _] & HP). rewrite Ej in Ej2. injection Ej2 as <-.
    pose proof (put_back_query c l i j Hi Hroot). by exists (put_back c l j).
Qed.

(** A server that still has something gives its next value. *)
Lemma fetch_value ls D c l it items :
  NoDup ls -> fetching ls D c -> D l = Some (it :: items) ->
  exists c', on_server l (respond In_handle) c = CDone (MEMCACHED_SUCCESS, In_handle) c'
    /\ fetching ls (<[l := Some items]> D) c' /\ (debt ls (<[l := Some items]> D) < debt ls D)%nat
    /\ readies c' = readies c /\ shows it (memc_result c')
    /\ result_count (memc_result c') = result_count (memc_result c).
Proof.
  intros Hnd Hf HD. pose proof (ft_good _ _ _ Hf l _ HD) as Hg. apply Forall_cons in Hg as [Hit Hitems].
  destruct (fetch_response ls D c l _ (Some items) MEMCACHED_SUCCESS (fun r => shows it r /\ tidy r
    /\ result_count r = result_count (memc_result c)) Hf HD) as (c' & E & Hst & Hr & Hq & Hsh & Htd & Hcnt).
  { intros i Hh Ho Hres.
    destruct (respond_value prefix it items limit i Hh Hmem Hit Ho) as (j & Ej & Hoj & Hk & Hsh & Htd & Hcnt).
    { rewrite Hres. apply Hf. }
    rewrite Hres in Hcnt. by exists j. }
  destruct (fetching_less ls D c c' l _ (Some items) Hnd Hf HD Hst Htd Hq) as [HF Hlt];
    [right; by exists items|done|by left|]. exists c'. by split_and!.
Qed.

(** A server that has no more says so, and is asked no more. *)
Lemma fetch_end ls D c l :
  NoDup ls -> fetching ls D c -> D l = Some [] ->
  exists c1 c', on_server l (respond In_handle) c = CDone (MEMCACHED_END, In_handle) c1
    /\ on_server l memcached_server_response_reset c1 = CDone tt c'
    /\ fetching ls (<[l := None]> D) c' /\ (debt ls (<[l := None]> D) < debt ls D)%nat
    /\ readies c' = readies c /\ memc_result c' = memc_result c.
Proof.
  intros Hnd Hf HD. destruct (polled_instance l) as (i0 & Hi0); [apply Hf; by rewrite HD|].
  destruct (fetch_response ls D c l _ None MEMCACHED_END (fun r => r = memc_result c) Hf HD)
    as (c1 & E & Hst & Hr & Hq & Hres).
  { intros i Hh Ho Hres. destruct (respond_end prefix i Hh Ho) as (j & Ej & Hk & Hcur & Hbuf & Hrr).
    exists j. by rewrite Hrr, Hres. }
  destruct (on_server_stands (owes (<[l := None]> D)) (owes (<[l := None]> D)) c0 c1 l i0
    memcached_server_response_reset tt) as (c' & E' & Hst' & _ & i & j & Hi & Ej & ->); [done..| | | |].
  - intros i2 Hi2 (Hfd & Hsent & Ho2). rewrite fn_lookup_insert in Ho2. eexists. split; [reflexivity|].
    split; [done|]. split; [exact Hfd|]. split; [exact Hsent|]. rewrite fn_lookup_insert.
    intros Hp. split; [done|]. by apply Ho2.
  - intros l' i3 i' j'. apply owes_as_before.
  - done.
  - assert (Hres' : memc_result (put_back c1 l j) = memc_result c).
    { injection Ej as <-. rewrite <-Hres. exact (instance_at_result c1 l i Hi). }
    destruct (fetching_less ls D c _ l _ None Hnd Hf HD Hst') as [HF Hlt];
      [by rewrite Hres'; apply Hf| |by left|cbn; lia|by left|].
    { rewrite <-Hq. apply (put_back_query c1 l i j Hi). by injection Ej as <-. }
    exists c1, (put_back c1 l j). by split_and!.
Qed.

(** What [poll] says later is for later. *)
Lemma on_server_readies {A} l (m : io A) rs c x c' :
  on_server l m c = CDone x c' -> on_server l m (c <| readies := rs |>) = CDone x (c' <| readies := rs |>).
Proof.
  unfold on_server. change (memc (c <| readies := rs |>)) with (memc c).
  destruct (server_at (memc c) l) as [s|]; [|done].
  change (instance_of (c <| readies := rs |>) l s) with (instance_of c l s).
  destruct (m (instance_of c l s)); [|done..]. by intros [= <- <-].
Qed.

Lemma fetching_readies ls D c r rs :
  fetching ls D c -> readies c = r :: rs -> (2 <= length ls -> debt ls D < length (readies c))%nat ->
  fetching ls D (c <| readies := rs |>).
Proof.
  intros [Hst Ht Hq Hls Hg Hf Hen] Hr Hlt. rewrite Hr in Hf, Hlt. inversion Hf. split; try done.
  - by destruct Hst.
  - cbn in *. lia.
Qed.

(** One response is read, of any server that has one. *)
Lemma fetch_turn ls D c :
  NoDup ls -> fetching ls D c ->
  (memcached_io_get_readable_server c = CDone None c /\ forall l, D l = None)
  \/ exists l items c1, memcached_io_get_readable_server c = CDone (Some l) c1 /\ D l = Some items
     /\ match items with
        | it :: items => exists c', on_server l (respond In_handle) c1 = CDone (MEMCACHED_SUCCESS, In_handle) c'
            /\ fetching ls (<[l := Some items]> D) c' /\ (debt ls (<[l := Some items]> D) < debt ls D)%nat
            /\ shows it (memc_result c') /\ result_count (memc_result c') = result_count (memc_result c)
        | [] => exists c2 c', on_server l (respond In_handle) c1 = CDone (MEMCACHED_END, In_handle) c2
            /\ on_server l memcached_server_response_reset c2 = CDone tt c'
            /\ fetching ls (<[l := None]> D) c' /\ (debt ls (<[l := None]> D) < debt ls D)%nat
            /\ memc_result c' = memc_result c
        end.
Proof.
  intros Hnd Hf. destruct (readable_server_spec D c) as [(l & c1 & E & HD & Hc1)|[E HD]]; [apply Hf|..|by left].
  { intros l Hl. by apply Hf. }
  { done. }
  { intros (l1 & l2 & Hne & Hl1 & Hl2).
    destruct (ft_asked _ _ _ Hf l1 Hl1) as [Hin1 _], (ft_asked _ _ _ Hf l2 Hl2) as [Hin2 _].
    assert (Htwo : (2 <= length ls)%nat).
    { apply elem_of_Permutation in Hin1 as (ls' & Hp). rewrite Hp in Hin2 |- *.
      apply elem_of_cons in Hin2 as [->|Hin2]; [done|]. destruct ls'; [by apply elem_of_nil in Hin2|]. cbn. lia. }
    assert (Hd : debt ls D <> 0%nat).
    { intros Hz. apply Hl1, (debt_none ls D); [|done]. intros l' Hl'. by apply Hf. }
    pose proof (ft_enough _ _ _ Hf Htwo) as Hen. pose proof (ft_fair _ _ _ Hf) as Hfair.
    destruct (readies c) as [|r rs]; [cbn in Hen; lia|]. inversion Hfair. by exists r, rs. }
  destruct (D l) as [items|] eqn:HDl; [|done]. right. exists l, items, c1. split; [done|]. split; [done|].
  destruct items as [|it items].
  - destruct (fetch_end ls D c l Hnd Hf HDl) as (c2 & c' & E1 & E2 & Hf' & Hlt & Hr & Hres).
    destruct Hc1 as [->|(r & rs & Hrs & ->)]; [by exists c2, c'|].
    exists (c2 <| readies := rs |>), (c' <| readies := rs |>). split; [by apply on_server_readies|].
    split; [by apply on_server_readies|]. split; [|done].
    apply (fetching_readies ls _ c' r); [done|by rewrite Hr|]. rewrite Hr. pose proof (ft_enough _ _ _ Hf). lia.
  - destruct (fetch_value ls D c l it items Hnd Hf HDl) as (c' & E1 & Hf' & Hlt & Hr & Hsh & Hcnt).
    destruct Hc1 as [->|(r & rs & Hrs & ->)]; [by exists c'|].
    exists (c' <| readies := rs |>). split; [by apply on_server_readies|]. split; [|done].
    apply (fetching_readies ls _ c' r); [done|by rewrite Hr|]. rewrite Hr. pose proof (ft_enough _ _ _ Hf). lia.
Qed.

(** Servers that had nothing left have said so. *)
Definition settled (D D' : debts) : Prop :=
  forall l, D' l = D l \/ (D l = Some [] /\ D' l = None).

Lemma settled_end D D' l : D l = Some [] -> settled (<[l := None]> D) D' -> settled D D'.
Proof.
  intros HD Hs l'. destruct (Hs l') as [E|[E E']]; destruct (decide (l' = l)) as [->|Hne].
  - right. split; [done|]. by rewrite E, fn_lookup_insert.
  - left. by rewrite E, fn_lookup_insert_ne.
  - by rewrite fn_lookup_insert in E.
  - right. by rewrite fn_lookup_insert_ne in E.
Qed.

Lemma result_loop_spec ls fuel : forall D c error failures,
  NoDup ls -> fetching ls D c -> (debt ls D < fuel)%nat ->
  exists D1, settled D D1 /\
  ((exists l it items c', D1 l = Some (it :: items)
      /\ result_loop fuel In_handle error failures c
         = CDone (MEMCACHED_SUCCESS, true, failures, In_handle)
             (c' <| memc_result ::= fun r => r <| result_count ::= fun n => u64 (n + 1) |> |>)
      /\ fetching ls (<[l := Some items]> D1) c'
      /\ (debt ls (<[l := Some items]> D1) < debt ls D)%nat
      /\ shows it (memc_result c') /\ result_count (memc_result c') = result_count (memc_result c))
   \/ exists e c', (forall l, D1 l = None)
      /\ result_loop fuel In_handle error failures c = CDone (e, false, failures, In_handle) c'
      /\ (e = error \/ e = MEMCACHED_END) /\ fetching ls D1 c' /\ memc_result c' = memc_result c).
Proof.
  induction fuel as [|fuel IH]; intros D c error failures Hnd Hf Hfuel; [lia|]. cbn [result_loop].
  destruct (fetch_turn ls D c Hnd Hf) as [[E HD]|(l & items & c1 & E & HD & Hturn)].
  { exists D. split; [by left|]. right. exists error, c. split_and!; [done| |by left|done..]. by cio_do E. }
  destruct items as [|it items].
  - destruct Hturn as (c2 & c' & E1 & E2 & Hf' & Hlt & Hres).
    destruct (IH (<[l := None]> D) c' MEMCACHED_END failures Hnd Hf') as (D1 & Hs & Hcase); [lia|].
    assert (Eloop : result_loop (S fuel) In_handle error failures c
      = result_loop fuel In_handle MEMCACHED_END failures c').
    { cbn [result_loop]. cio_do E. cbv iota. cio_do E1. cbv iota.
      repeat (rewrite bool_decide_false by done). rewrite bool_decide_true by done. by cio_do E2. }
    cbn [result_loop] in Eloop. rewrite Eloop. exists D1. split; [by apply (settled_end _ _ l)|].
    destruct Hcase as [(l' & it & items & c3 & HD1 & El & Hf3 & Hlt3 & Hsh & Hcnt)|(e & c3 & HD1 & El & He & Hf3 & Hr3)].
    + left. exists l', it, items, c3. rewrite Hcnt, Hres. split_and!; try done. lia.
    + right. exists e, c3. rewrite Hr3. split_and!; try done. right. by destruct He.
  - destruct Hturn as (c' & E1 & Hf' & Hlt & Hsh & Hcnt). exists D. split; [by left|]. left.
    exists l, it, items, c'. split; [done|]. split; [|done].
    cio_do E. cbv iota. cio_do E1. cbv iota.
    repeat (rewrite bool_decide_false by done). by rewrite bool_decide_true.
Qed.

Lemma fetching_result ls D c f :
  fetching ls D c -> tidy (f (memc_result c)) -> fetching ls D (c <| memc_result ::= f |>).
Proof.
  intros [[Ha Hs Hat] Ht Hq Hls Hg Hf Hen] Hr. split; [split; [done..|]|done..]. intros l i0 Hi0.
  destruct (Hat l i0 Hi0) as (i & Hi & Ho). unfold instance_at in *.
  change (memc (c <| memc_result ::= f |>)) with (memc c). destruct (server_at (memc c) l) as [s|]; [|done].
  injection Hi as <-. eexists. split; [reflexivity|]. apply (owes_as_before _ _ _ _ _ Ho). by split.
Qed.

Lemma fetching_code ls D c rc : fetching ls D c -> fetching ls D (c <| last_response_code := rc |>).
Proof. intros [Hst Ht Hq Hls Hg Hf Hen]. split; [by destruct Hst|done..]. Qed.

Context (result_malloc : option memcached_result_st).

(** What one call gives: the next value of some server, or the end of all. *)
Lemma fetch_result_spec ls fuel D c :
  NoDup ls -> fetching ls D c -> (debt ls D < fuel)%nat ->
  exists D1, settled D D1 /\
  ((exists l it items c', D1 l = Some (it :: items)
      /\ memcached_fetch_result result_malloc fuel (Some In_handle) c
         = CDone (MEMCACHED_SUCCESS, true, Some In_handle) c'
      /\ fetching ls (<[l := Some items]> D1) c'
      /\ (debt ls (<[l := Some items]> D1) < debt ls D)%nat /\ shows it (memc_result c')
      /\ result_count (memc_result c') = u64 (result_count (memc_result c) + 1))
   \/ exists c', (forall l, D1 l = None)
      /\ memcached_fetch_result result_malloc fuel (Some In_handle) c
         = CDone (if result_count (memc_result c) =? 0 then MEMCACHED_NOTFOUND else MEMCACHED_END,
                  false, Some In_handle) c'
      /\ fetching ls D1 c').
Proof.
  intros Hnd Hf Hfuel.
  destruct (result_loop_spec ls fuel D c MEMCACHED_MAXIMUM_RETURN false Hnd Hf Hfuel) as (D1 & Hs & Hcase).
  exists D1. split; [done|]. unfold memcached_fetch_result.
  assert (Hudp : use_udp (flags (memc c)) = false) by (apply fetch_handle_alike, Hf).
  destruct Hcase as [(l & it & items & c' & HD & E & Hf' & Hlt & Hsh & Hcnt)|(e & c' & HD & E & He & Hf' & Hres)].
  - left. exists l, it, items. eexists. split; [exact HD|]. split.
    { cio_pure. rewrite Hudp. cbv iota. cio_pure. cbv iota. cio_do E. reflexivity. }
    split; [|split; [exact Hlt|split; [done|by cbn; rewrite Hcnt]]].
    apply fetching_result; [done|]. apply (ft_tidy _ _ _ Hf').
  - right. eexists. split; [exact HD|]. split.
    { cio_pure. rewrite Hudp. cbv iota. cio_pure. cbv iota. cio_do E. cbv iota beta. cio_pure. cio_pure.
      change (memc_result (c' <| last_response_code := e |>)) with (memc_result c').
      rewrite (proj2 (proj2 (ft_tidy _ _ _ Hf'))). cio_pure. rewrite Hres.
      replace (fetch_error e (result_count (memc_result c)) false)
        with (if result_count (memc_result c) =? 0 then MEMCACHED_NOTFOUND else MEMCACHED_END); [reflexivity|].
      unfold fetch_error. by destruct He as [-> | ->]; destruct (result_count (memc_result c) =? 0). }
    apply fetching_result; [by apply fetching_code|].
    destruct (ft_tidy _ _ _ Hf') as (A & B & C). split; [|done]. by apply string_reset_inv.
Qed.

(** The loop of an application that fetches all there is. *)
Fixpoint fetch_all (fuel inner : nat) : cio (list memcached_result_st * memcached_return_t) :=
  match fuel with
  | O => fun _ => CBlocked
  | S fuel =>
      '(rc, found, _) ← memcached_fetch_result result_malloc inner (Some In_handle);
      if found : bool then
        r ← cgets memc_result;
        '(rs, rc) ← fetch_all fuel inner;
        mret (r :: rs, rc)
      else mret ([], rc)
  end.

(** Of what was fetched, what came from [l]. *)
Definition came_from (l : location) (t : list (location * memcached_result_st)) : list memcached_result_st :=
  (filter (fun p => p.1 = l) t).*2.

Lemma debt_nothing ls : debt ls (fun _ => None) = 0%nat.
Proof. induction ls; [done|]. by cbn. Qed.

Lemma fetching_none ls D c :
  (forall l, D l = None) -> fetching ls D c -> fetching ls (fun _ => None) c.
Proof.
  intros HD [Hst Ht Hq Hls Hg Hfr Hen]. split; try done.
  - eapply stands_mono; [|exact Hst]. intros l i i'. unfold owes. by rewrite HD.
  - rewrite debt_nothing. lia.
Qed.

Lemma settled_items D D1 l : settled D D1 -> default [] (D1 l) = default [] (D l).
Proof. intros Hs. by destruct (Hs l) as [-> | [-> ->]]. Qed.

Lemma fetch_all_spec ls inner fuel : forall D c n,
  NoDup ls -> fetching ls D c -> (debt ls D < inner)%nat -> (debt ls D < fuel)%nat ->
  result_count (memc_result c) = u64 n ->
  exists t c', fetch_all fuel inner c
      = CDone (t.*2, if u64 (n + Z.of_nat (length t)) =? 0 then MEMCACHED_NOTFOUND else MEMCACHED_END) c'
    /\ (length t <= debt ls D)%nat
    /\ (forall l, Forall2 shows (default [] (D l)) (came_from l t))
    /\ fetching ls (fun _ => None) c'.
Proof.
  induction fuel as [|fuel IH]; intros D c n Hnd Hf Hin Hfuel Hn; [lia|]. cbn [fetch_all].
  destruct (fetch_result_spec ls inner D c Hnd Hf Hin) as (D1 & Hs & Hcase).
  destruct Hcase as [(l & it & items & c1 & HD & E & Hf1 & Hlt & Hsh & Hcnt)|(c1 & HD & E & Hf1)].
  - destruct (IH (<[l := Some items]> D1) c1 (n + 1) Hnd Hf1) as (t & c' & Et & Hlen & Hall & Hf'); [lia..| |].
    { by rewrite Hcnt, Hn, u64_add_l. }
    exists ((l, memc_result c1) :: t), c'. split.
    { cio_do E. cbv iota. cio_pure. cio_do Et. cbv iota beta. cbn [length].
      by replace (n + 1 + Z.of_nat (length t)) with (n + Z.of_nat (S (length t))) by lia. }
    split; [cbn; lia|]. split; [|done]. intros l'. rewrite <-(settled_items D D1 l' Hs).
    specialize (Hall l'). unfold came_from in *. rewrite filter_cons. cbn [fst].
    destruct (decide (l = l')) as [->|Hne].
    + rewrite HD. cbn. rewrite fn_lookup_insert in Hall. by constructor.
    + by rewrite fn_lookup_insert_ne in Hall.
  - exists [], c1. split.
    { cio_do E. cbv iota. cbn [length fmap list_fmap]. rewrite Z.add_0_r, Hn. done. }
    split; [cbn; lia|]. split.
    { intros l. rewrite <-(settled_items D D1 l Hs), HD. by constructor. }
    by eapply fetching_none.
Qed.

(** C15: whatever servers were asked for whatever values, and in whatever order their
    sockets can be read, the calls of [memcached_fetch_result] until the end give
    every value of every server once, with its key, its bytes and its flags, the
    values of one server in its order; the last call says the end, or that nothing
    was found if there was no value at all; then no server owes anything, nothing is
    left in the buffers and nothing was sent. *)
Theorem memcached_fetch_result_delivers (ls : list location) (D : debts) (c : client) (inner fuel : nat) :
  NoDup ls -> fetching ls D c -> result_count (memc_result c) = 0 ->
  (debt ls D < inner)%nat -> (debt ls D < fuel)%nat -> Z.of_nat (debt ls D) < 2 ^ 64 ->
  exists t c', fetch_all fuel inner c
      = CDone (t.*2, match t with [] => MEMCACHED_NOTFOUND | _ => MEMCACHED_END end) c'
    /\ (forall l, Forall2 shows (default [] (D l)) (came_from l t))
    /\ fetching ls (fun _ => None) c'.
Proof.
  intros Hnd Hf Hcnt Hin Hfuel Hmax.
  destruct (fetch_all_spec ls inner fuel D c 0 Hnd Hf Hin Hfuel) as (t & c' & E & Hlen & Hall & Hf');
    [by rewrite Hcnt|].
  exists t, c'. split; [|done]. rewrite E, Z.add_0_l, u64_small by lia. by destruct t.
Qed.
End Readable.

(** ** Concrete servers *)

#[local] Existing Instance some_environment.
#[local] Existing Instance all_hashes.

(** There is memory for small values. *)
Lemma example_memory : memory_for 1000000.
Proof.
  intros s n Hinv Hn. pose proof (string_reset_inv s Hinv) as [_ _ Hm].
  unfold _string_check. change (string_end (memcached_string_reset s)) with 0%nat.
  set (size := current_size (memcached_string_reset s)) in *.
  assert (0 <= size) by (destruct (string_reset_inv s Hinv) as [_ He _]; lia).
  rewrite Z.sub_0_r. rewrite (u64_small size) by lia. destruct (negb (n =? 0) && (size <? n)) eqn:E; [|done].
  apply andb_true_iff in E as [_ E%Z.ltb_lt]. rewrite (u64_small (n - size)) by lia.
  set (q := (n - size) / MEMCACHED_BLOCK_SIZE).
  assert (1024 * q <= n - size < 1024 * q + 1024) as Hq.
  { subst q. unfold MEMCACHED_BLOCK_SIZE. pose proof (Z.div_mod (n - size) 1024).
    pose proof (Z.mod_pos_bound (n - size) 1024). lia. }
  unfold MEMCACHED_BLOCK_SIZE. rewrite (u64_small (q + 1)), (u64_small ((q + 1) * 1024)), u64_small by lia.
  rewrite (proj2 (Z.ltb_ge _ _)) by lia. cbn [realloc example_allocator]. unfold example_realloc.
  rewrite (proj2 (Z.leb_le _ _)), (proj2 (Z.ltb_lt _ _)) by lia. done.
Qed.

(** A handle with a server for each of the given things, of which it is said, on a
    network that takes what [ss] says; [cursor] is how many responses are awaited. *)
Definition polled_client (cursor : Z) (ss : list send_result) (said : list bytes)
    (ready : list ready_result) : client :=
  (some_client ((fun s => (ss, [Received s], [])) <$> said))
    <| memc ::= fun m => m <| servers ::= imap (fun k s =>
         s <| fd := 3 + Z.of_nat k |> <| cursor_active := cursor |>) |> |> <| readies := ready |>.

Definition first_ready : ready_result := Ready (take 1).
Definition last_ready : ready_result := Ready (fun fds => drop (length fds - 1) fds).

(** One of its connections. *)
Definition polled_connection (cursor : Z) (ss : list send_result) (k : nat) (s : bytes) : instance :=
  (opened (ss, [Received s], []))
    <| server ::= fun x => x <| fd := 3 + Z.of_nat k |> <| cursor_active := cursor |> |>.

Lemma polled_connection_incoming cursor ss k s : s <> [] -> incoming (polled_connection cursor ss k s) = s.
Proof.
  intros Hs. change (incoming (polled_connection cursor ss k s)) with (arriving 500 [Received s] []).
  cbn. destruct s; [done|]. by rewrite app_nil_r.
Qed.

Lemma polled_connection_connected cursor ss k s : connected (polled_connection cursor ss k s).
Proof.
  destruct (connection_connected [Received s] []) as [_ H]. split; [|exact H].
  change (3 + Z.of_nat k <> -1). lia.
Qed.

Lemma as_before_asked c f rs l sv g o :
  poll_timeout (f (memc c)) = poll_timeout (memc c) -> as_before o (instance_of c l sv) ->
  as_before (o <| server ::= g |>)
    (instance_of (c <| memc ::= f |> <| readies := rs |>) l (g sv)).
Proof.
  intros Hp [A B C F G H I J K L]. change (sv = server o) in A. subst sv.
  split; [done|exact B|exact C|exact F|exact G|exact H|exact I|exact J|exact K|].
  change (poll_timeout (f (memc c)) = poll_timeout (root o)). by rewrite Hp.
Qed.

Lemma polled_client_at cursor ss said ready k s :
  said !! k = Some s ->
  exists i, instance_at (polled_client cursor ss said ready) (Listed k) = Some i
    /\ as_before (polled_connection cursor ss k s) i.
Proof.
  intros E. destruct (some_client_at ((fun s => (ss, [Received s], [])) <$> said) k (ss, [Received s], []))
    as (i & Hi & Hb); [by rewrite list_lookup_fmap, E|].
  unfold instance_at in *. change (server_at (memc (polled_client cursor ss said ready)) (Listed k)) with
    (imap (fun k s => s <| fd := 3 + Z.of_nat k |> <| cursor_active := cursor |>)
       (servers (memc (some_client ((fun s => (ss, [Received s], [])) <$> said)))) !! k).
  rewrite list_lookup_imap.
  change (server_at (memc (some_client ((fun s => (ss, [Received s], [])) <$> said))) (Listed k)) with
    (servers (memc (some_client ((fun s => (ss, [Received s], [])) <$> said))) !! k) in Hi.
  destruct (servers (memc (some_client _)) !! k) as [sv|]; [|done]. injection Hi as <-.
  eexists. split; [reflexivity|]. unfold polled_connection, polled_client.
  by apply (as_before_asked _ _ ready (Listed k) sv
    (fun x => x <| fd := 3 + Z.of_nat k |> <| cursor_active := cursor |>)).
Qed.

(** A handle that has asked its servers. *)
Definition asked_client := polled_client 1 [].

(** What these servers owe. *)
Definition owed_to (said : list (list item)) : debts := fun l =>
  match l with Listed k => said !! k | Pooled _ => None end.
Definition asked_servers (said : list (list item)) : list location := Listed <$> seq 0 (length said).

Lemma asked_client_owing said ready k items :
  said !! k = Some items ->
  exists i, instance_at (asked_client (stream [] <$> said) ready) (Listed k) = Some i
    /\ owing [] items i /\ fd (server i) = 3 + Z.of_nat k.
Proof.
  intros E. destruct (polled_client_at 1 [] (stream [] <$> said) ready k (stream [] items)) as (i & Hi & Hb);
    [by rewrite list_lookup_fmap, E|].
  pose proof (ab_server _ _ Hb) as Es. exists i. split; [done|]. split; [|rewrite Es; reflexivity]. split.
  - eapply as_before_connected; [exact Hb|]. apply polled_connection_connected.
  - rewrite Es. reflexivity.
  - rewrite Es. reflexivity.
  - rewrite (as_before_incoming _ _ Hb). apply polled_connection_incoming. unfold stream.
    intros [_ Hn]%app_eq_nil. discriminate.
Qed.

Lemma asked_client_fetch said ready x l :
  memcached_server_instance_fetch (memc (asked_client said ready)) x = Some l ->
  l = Listed (Z.to_nat x).
Proof.
  unfold memcached_server_instance_fetch. destruct (x <? 0); [done|].
  change (repl_enabled (flags (memc (asked_client said ready)))) with false. cbv iota.
  destruct (_ !! _); [|done]. by intros [= <-].
Qed.

Definition first_items : list item := [(str "a", str "1", 5); (str "b", str "22", 6)].
Definition second_items : list item := [(str "c", str "333", 7)].
Definition two_servers : list (list item) := [first_items; second_items].
Definition asking : client :=
  asked_client (stream [] <$> two_servers) [last_ready; first_ready; last_ready; last_ready; first_ready].

Lemma asking_at l i : instance_at asking l = Some i -> exists k items, l = Listed k /\ two_servers !! k = Some items.
Proof.
  unfold instance_at. destruct l as [[|[|k]]|x]; [by exists 0%nat, first_items|by exists 1%nat, second_items|done|].
  change (server_at (memc asking) (Pooled x)) with ((∅ : gmap nat memcached_server_st) !! x).
  by rewrite lookup_empty.
Qed.

Lemma asking_position x :
  0 <= x < memcached_server_count (memc asking) ->
  exists i items, memcached_server_instance_fetch (memc asking) x = Some (Listed (Z.to_nat x))
    /\ instance_at asking (Listed (Z.to_nat x)) = Some i /\ two_servers !! Z.to_nat x = Some items
    /\ owing [] items i /\ fd (server i) = 3 + x.
Proof.
  change (memcached_server_count (memc asking)) with 2. intros Hx.
  destruct (two_servers !! Z.to_nat x) as [items|] eqn:E; [|apply lookup_ge_None in E; cbn in E; lia].
  destruct (asked_client_owing two_servers [last_ready; first_ready; last_ready; last_ready; first_ready]
    (Z.to_nat x) items E) as (i & Hi & Ho & Hf).
  exists i, items. rewrite Hf. split_and!; [|exact Hi|done|done|lia].
  unfold memcached_server_instance_fetch. rewrite (proj2 (Z.ltb_ge _ _)) by lia.
  change (repl_enabled (flags (memc asking))) with false. cbv iota.
  apply instance_at_server in Hi. change (servers (memc asking) !! Z.to_nat x = Some (server i)) in Hi.
  by rewrite Hi.
Qed.

Lemma asking_there : all_there asking.
Proof. intros x Hx. destruct (asking_position x Hx) as (i & items & Hl & Hi & _). eauto. Qed.

Lemma asking_sockets : own_sockets asking.
Proof.
  intros x y l l' i i' Hx Hl Hy Hl' Hi Hi' Hfd _.
  destruct (asking_position x Hx) as (j & items & Hl1 & Hj & _ & _ & Hf).
  destruct (asking_position y Hy) as (j' & items' & Hl2 & Hj' & _ & _ & Hf'). simplify_eq. lia.
Qed.

Lemma asking_handle : fetch_handle [] (memc asking).
Proof. split; [reflexivity..|constructor]. Qed.

Lemma good_items : Forall (Forall (good_item [] 1000000)) two_servers.
Proof. repeat constructor; cbn; unfold MEMCACHED_MAX_KEY; lia. Qed.

Lemma some_fair : Forall fair [last_ready; first_ready; last_ready; last_ready; first_ready].
Proof.
  assert (Hfirst : fair first_ready).
  { eexists. split; [reflexivity|]. intros [|d fds] Hne; [done|]. exists d. cbn. set_solver. }
  assert (Hlast : fair last_ready).
  { eexists. split; [reflexivity|]. intros fds Hne. destruct (exists_last Hne) as (fds' & d & ->). exists d.
    rewrite length_app. cbn [length]. replace (length fds' + 1 - 1)%nat with (length fds') by lia.
    rewrite drop_app_length. set_solver. }
  by repeat constructor.
Qed.

Lemma asking_fetching :
  fetching [] asking 1000000 (asked_servers two_servers) (owed_to two_servers) asking.
Proof.
  split.
  - split; [apply alike_refl|done|]. intros l i Hi. exists i. split; [done|]. split; [done|]. split; [done|].
    destruct (asking_at l i Hi) as (k & items & -> & E). cbn [owed_to]. rewrite E.
    destruct (asked_client_owing two_servers [last_ready; first_ready; last_ready; last_ready; first_ready]
      k items E) as (j & Hj & Ho & _). assert (i = j) as -> by (apply (inj Some); by rewrite <-Hi, <-Hj).
    exact Ho.
  - split; [by split|]. split; [reflexivity|reflexivity].
  - reflexivity.
  - intros l Hl. destruct l as [k|x]; [|done]. cbn in Hl.
    destruct (two_servers !! k) as [items|] eqn:E; [|done]. apply lookup_lt_Some in E. cbn in E. split.
    + apply list_elem_of_fmap. exists k. split; [done|]. apply elem_of_seq. cbn. lia.
    + exists (Z.of_nat k). change (memcached_server_count (memc asking)) with 2. split; [lia|].
      destruct (asking_position (Z.of_nat k)) as (i & its & Hl1 & _).
      { change (memcached_server_count (memc asking)) with 2. lia. }
      by rewrite Nat2Z.id in Hl1.
  - intros l items Hl. destruct l as [k|x]; [|done]. pose proof good_items as Hg.
    rewrite Forall_lookup in Hg. by apply (Hg k).
  - exact some_fair.
  - intros _. vm_compute. lia.
Qed.

Lemma memcached_fetch_result_delivers_witness :
  exists t c', fetch_all None 9 9 asking
      = CDone (t.*2, match t with [] => MEMCACHED_NOTFOUND | _ => MEMCACHED_END end) c'
    /\ (forall l, Forall2 shows (default [] (owed_to two_servers l)) (came_from l t))
    /\ fetching [] asking 1000000 (asked_servers two_servers) (fun _ => None) c'.
Proof.
  refine (memcached_fetch_result_delivers [] asking asking_there asking_sockets 1000000 asking_handle
    example_memory _ None (asked_servers two_servers) (owed_to two_servers) asking 9 9 _ asking_fetching _ _ _ _).
  - vm_compute. discriminate.
  - vm_compute. repeat constructor; set_solver.
  - reflexivity.
  - vm_compute. lia.
  - vm_compute. lia.
  - vm_compute. reflexivity.
Defined.
