(* ===== verification/KeyCommands.v ===== *)
(** Other commands: delete.cc, touch.cc, auto.cc, exist.cc as it is built without
    ZooKeeper, flush.cc, flush_buffers.cc, and the version of one server from
    version.cc. *)
From Stdlib Require Import Strings.Byte.
From stdpp Require Import functions.
From S2P Require Import Prelude HashFunctions Hashkit Memcached Text KeyHash Continuum Distribution.
From S2P Require Import ServerList Rgroup Error StringBuf Result Io Response Write Client Command.

(** ** Requests *)

(** The opcodes of protocol_binary.h. *)
Definition PROTOCOL_BINARY_CMD_ADD : Z := 0x02.
Definition PROTOCOL_BINARY_CMD_DELETE : Z := 0x04.
Definition PROTOCOL_BINARY_CMD_INCREMENT : Z := 0x05.
Definition PROTOCOL_BINARY_CMD_DECREMENT : Z := 0x06.
Definition PROTOCOL_BINARY_CMD_FLUSH : Z := 0x08.
Definition PROTOCOL_BINARY_CMD_VERSION : Z := 0x0b.
Definition PROTOCOL_BINARY_CMD_DELETEQ : Z := 0x14.
Definition PROTOCOL_BINARY_CMD_INCREMENTQ : Z := 0x15.
Definition PROTOCOL_BINARY_CMD_DECREMENTQ : Z := 0x16.
Definition PROTOCOL_BINARY_CMD_FLUSHQ : Z := 0x18.

Definition MEMCACHED_EXPIRATION_NOT_ADD : Z := 0xffffffff.

(** The length of a key with the namespace in front of it. *)
Definition full_length (ptr : memcached_st) (key : bytes) : Z :=
  Z.of_nat (length key) + memcached_array_size (_namespace ptr).

Definition delete_vector (ptr : memcached_st) (key : bytes) : list bytes :=
  [str "delete "; namespace ptr; key; noreply_text ptr; crlf].

Definition delete_request (ptr : memcached_st) (opcode : Z) (key : bytes) : bytes :=
  request_header opcode (full_length ptr key) 0 (full_length ptr key) 0.

Definition touch_vector (ptr : memcached_st) (key expiration_text : bytes) : list bytes :=
  [str "touch "; namespace ptr; key; expiration_text; noreply_text ptr; crlf].

Definition incr_vector (ptr : memcached_st) (verb key offset_text initial_text : bytes) : list bytes :=
  [verb; namespace ptr; key; offset_text; initial_text; noreply_text ptr; crlf].

(** [protocol_binary_request_incr]. *)
Definition incr_request (ptr : memcached_st) (cmd : Z) (key : bytes) (offset initial expiration : Z)
    : bytes :=
  request_header cmd (full_length ptr key) 20 (full_length ptr key + 20) 0
  ++ be 8 offset ++ be 8 initial ++ be 4 expiration.

(** A value that does not expire for a month, to see whether the key is taken. *)
Definition exist_vector (ptr : memcached_st) (key : bytes) : list bytes :=
  [str "add "; namespace ptr; key; str " 0"; str " 2678400"; str " 0"; crlf; crlf].

Definition exist_request (ptr : memcached_st) (key : bytes) : bytes :=
  request_header PROTOCOL_BINARY_CMD_ADD (full_length ptr key) 8 (full_length ptr key + 8) 0
  ++ be 4 0 ++ be 4 2678400.

(** What [snprintf] writes for a flush; [prefix] is the memory from the pointer on, of
    which [%s] takes what is before a NUL. *)
Definition flush_text (prefix : option bytes) (expiration : Z) (no_reply : bool) : bytes :=
  (match prefix with Some p => str "flush_prefix " ++ cstr p ++ str " " | None => str "flush_all" end)
  ++ (if expiration =? 0 then [] else print_u64 (u64 expiration))
  ++ (if no_reply then str " noreply" else []) ++ crlf.

Definition flush_request (opcode expiration : Z) : bytes :=
  request_header opcode 0 4 4 0 ++ be 4 expiration.

Section Commands.
Context `{HE : Environment} `{HA : Allocator} `{HQ : Qsort} `{HB : BuildConfig}.
Context `{HS : !Stack} `{HU : !Surroundings}.

(** ** delete.cc *)

Definition ascii_delete (fuel : nat) (group_key key : bytes) : cio memcached_return_t :=
  m ← cgets memc;
  '(server_key, l) ← server_of_key group_key;
  '(out, _) ← do_action fuel server_key
    (attempt (Some (memcached_at "delete.cc" 89)) true false (delete_vector m key)) l;
  mret (match out with
        | Returned rc => rc
        | Answered rc _ => if bool_decide (rc = MEMCACHED_DELETED) then MEMCACHED_SUCCESS else rc
        end).

(** From [do_action] on. *)
Fixpoint binary_delete_to (fuel : nat) (server_key opcode : Z) (vector : Z -> list bytes)
    (key_length : nat) (l : location) : cio memcached_return_t :=
  match fuel with
  | O => fun _ => CBlocked
  | S fuel =>
      m ← cgets memc;
      let buffered := buffer_requests (flags m) in
      too_big ← (if use_udp (flags m) && buffered then on_server l (check_datagram (24 + key_length))
                 else mret false);
      if too_big : bool then mret MEMCACHED_WRITE_FAILURE
      else
        rc ← on_server l (memcached_vdo (vector opcode) (negb buffered));
        if negb (bool_decide (rc = MEMCACHED_SUCCESS) || bool_decide (rc = MEMCACHED_BUFFERED))
        then mret rc
        else
          m ← cgets memc;
          '(server_key, opcode) ←
            (if number_of_replicas m >? 0 then
               server_key ← replicate_to (Z.to_nat (number_of_replicas m)) server_key
                              (vector PROTOCOL_BINARY_CMD_DELETEQ) (negb (buffer_requests (flags m)));
               mret (server_key, PROTOCOL_BINARY_CMD_DELETEQ)
             else mret (server_key, opcode));
          if buffer_requests (flags m) then mret MEMCACHED_BUFFERED
          else if no_reply (flags m) then mret MEMCACHED_SUCCESS
          else
            '(rc, _) ← on_server l (await_response MEMCACHED_DEFAULT_COMMAND_SIZE);
            if bool_decide (rc = MEMCACHED_DELETED) then mret MEMCACHED_SUCCESS
            else if moved rc then
              done ← rgroup_switchover l;
              if done : bool then
                l ← instance_fetch server_key;
                binary_delete_to fuel server_key opcode vector key_length l
              else mret rc
            else mret rc
  end.

Definition binary_delete (fuel : nat) (group_key key : bytes) : cio memcached_return_t :=
  m ← cgets memc;
  let vector opcode := [delete_request m opcode key; namespace m; key] in
  '(server_key, l) ← server_of_key group_key;
  binary_delete_to fuel server_key
    (if no_reply (flags m) then PROTOCOL_BINARY_CMD_DELETEQ else PROTOCOL_BINARY_CMD_DELETE)
    vector (length key) l.

(** [delete_trigger] is the callback of the handle, if there is one. *)
Definition memcached_delete_by_key (fuel : nat) (delete_trigger : option (bytes -> cio unit))
    (group_key key : bytes) (expiration : Z) : cio memcached_return_t :=
  _ ← arcus_server_check_for_update;
  stop ← begin_command key;
  match stop with
  | Some rc => mret rc
  | None =>
      if negb (expiration =? 0) then
        memc_set_error MEMCACHED_INVALID_ARGUMENTS (memcached_at "delete.cc" 253)
          (Some (str "Memcached server does not allow expiration of deleted items"))
      else
        m ← cgets memc;
        rc ← (if binary_protocol (flags m) then binary_delete else ascii_delete) fuel group_key key;
        _ ← (match delete_trigger with
             | Some trigger => if bool_decide (rc = MEMCACHED_SUCCESS) then trigger key else mret tt
             | None => mret tt
             end);
        mret rc
  end.

Definition memcached_delete fuel delete_trigger key :=
  memcached_delete_by_key fuel delete_trigger key key.

(** ** touch.cc *)

Definition ascii_touch (fuel : nat) (group_key key : bytes) (expiration : Z) : cio memcached_return_t :=
  with_number (number_text (print_i64 expiration)) (memcached_at "touch.cc" 70) (fun expiration_text =>
  m ← cgets memc;
  '(server_key, l) ← server_of_key group_key;
  '(out, _) ← do_action fuel server_key
    (attempt (Some (memcached_at "touch.cc" 100)) true false (touch_vector m key expiration_text)) l;
  mret (match out with Returned rc | Answered rc _ => rc end)).

Definition memcached_touch_by_key (fuel : nat) (group_key key : bytes) (expiration : Z)
    : cio memcached_return_t :=
  _ ← arcus_server_check_for_update;
  stop ← begin_command key;
  match stop with
  | Some rc => mret rc
  | None =>
      m ← cgets memc;
      if binary_protocol (flags m) then mret MEMCACHED_NOT_SUPPORTED
      else ascii_touch fuel group_key key expiration
  end.

Definition memcached_touch fuel key := memcached_touch_by_key fuel key key.

(** ** auto.cc *)

(** What the response to a number says: the code, and the value. *)
Definition number_response (buffer : bytes) : option (memcached_return_t * Z) :=
  if starts (str "ERROR" ++ crlf) buffer then Some (MEMCACHED_PROTOCOL_ERROR, 0)
  else if starts (str "CLIENT_ERROR" ++ crlf) buffer then Some (MEMCACHED_PROTOCOL_ERROR, 0)
  else if starts (str "NOT_FOUND" ++ crlf) buffer then Some (MEMCACHED_NOTFOUND, 0)
  else '(v, _) ← strtoull buffer; Some (MEMCACHED_SUCCESS, v).

(** What says that the value is created if there is none. *)
Definition initial_text (create : bool) (initial item_flags expiration : Z) : bytes :=
  if create then " "%byte :: print_u32 item_flags ++ " "%byte :: print_i64 expiration
                 ++ " "%byte :: print_u64 initial
  else [].

(** The value is [None] where it is not assigned. *)
Definition text_incr_decr (fuel : nat) (verb group_key key : bytes) (offset : Z) (create : bool)
    (initial item_flags expiration : Z) : cio (memcached_return_t * option Z) :=
  _ ← arcus_server_check_for_update;
  let initial_text := initial_text create initial item_flags expiration in
  match number_text (print_u64 offset) with
  | None =>
      rc ← memc_set_error MEMCACHED_MEMORY_ALLOCATION_FAILURE (memcached_at "auto.cc" 75)
             (Some (str "snprintf(MEMCACHED_MAXIMUM_INTEGER_DISPLAY_LENGTH)"));
      mret (rc, None)
  | Some offset_text =>
      if ((MEMCACHED_MAXIMUM_INTEGER_DISPLAY_LENGTH + 1) * 3 + 1 <=? length initial_text)%nat then
        rc ← memc_set_error MEMCACHED_MEMORY_ALLOCATION_FAILURE (memcached_at "auto.cc" 87)
               (Some (str "snprintf(MEMCACHED_MAXIMUM_INTEGER_DISPLAY_LENGTH*3)"));
        mret (rc, None)
      else
        m ← cgets memc;
        '(server_key, l) ← server_of_key group_key;
        '(out, l) ← do_action fuel server_key
          (attempt None false false (incr_vector m verb key offset_text initial_text)) l;
        match out with
        | Returned rc => mret (rc, None)
        | Answered rc buffer =>
            if bool_decide (rc <> MEMCACHED_SUCCESS) then
              rc ← on_server l (set_error rc (memcached_at "auto.cc" 136) None);
              mret (rc, None)
            else
              '(rc, value) ← cchecked (number_response buffer);
              if bool_decide (rc = MEMCACHED_SUCCESS) then mret (rc, Some value)
              else
                rc ← on_server l (set_error rc (memcached_at "auto.cc" 167) None);
                mret (rc, Some value)
        end
  end.

(** The value is the eight bytes of the buffer that the response is read into. *)
Definition binary_attempt (vector : list bytes) (value : Z) : io outcome :=
  rc ← memcached_vdo vector true;
  if bool_decide (rc <> MEMCACHED_SUCCESS) then mret (Returned rc)
  else
    f ← gets (fun i => flags (root i));
    if no_reply f then mret (Returned MEMCACHED_SUCCESS)
    else
      '(rc, buffer) ← await_in (to_le 8 value);
      mret (Answered rc buffer).

Definition binary_incr_decr (fuel : nat) (cmd : Z) (group_key key : bytes)
    (offset initial expiration value : Z) : cio (memcached_return_t * Z) :=
  _ ← arcus_server_check_for_update;
  m ← cgets memc;
  if memcached_server_count m =? 0 then
    rc ← memc_set_error MEMCACHED_NO_SERVERS (memcached_at "auto.cc" 180) None;
    mret (rc, value)
  else
    let cmd := if no_reply (flags m) then
                 if cmd =? PROTOCOL_BINARY_CMD_DECREMENT then PROTOCOL_BINARY_CMD_DECREMENTQ
                 else if cmd =? PROTOCOL_BINARY_CMD_INCREMENT then PROTOCOL_BINARY_CMD_INCREMENTQ
                 else cmd
               else cmd in
    '(server_key, l) ← server_of_key group_key;
    '(out, _) ← do_action fuel server_key
      (binary_attempt [incr_request m cmd key offset initial expiration; namespace m; key] value) l;
    mret (match out with
          | Returned rc => (rc, value)
          | Answered rc buffer => (rc, of_le buffer)
          end).

(** The two operations: the text and the opcode. *)
Inductive counting := INCR | DECR.

Definition counting_verb (o : counting) : bytes :=
  match o with INCR => str "incr " | DECR => str "decr " end.
Definition counting_code (o : counting) : Z :=
  match o with INCR => PROTOCOL_BINARY_CMD_INCREMENT | DECR => PROTOCOL_BINARY_CMD_DECREMENT end.

(** [value] is [*value] before; a caller that passes [NULL] gets a local variable. *)
Definition count_by_key (fuel : nat) (o : counting) (group_key key : bytes) (offset : Z) (create : bool)
    (initial item_flags expiration binary_expiration value : Z) : cio (memcached_return_t * Z) :=
  stop ← begin_command key;
  match stop with
  | Some rc => mret (rc, value)
  | None =>
      m ← cgets memc;
      if binary_protocol (flags m) then
        binary_incr_decr fuel (counting_code o) group_key key offset initial binary_expiration value
      else
        '(rc, v) ← text_incr_decr fuel (counting_verb o) group_key key offset create initial
                     item_flags expiration;
        mret (rc, default value v)
  end.

Definition memcached_increment_by_key fuel group_key key offset value :=
  count_by_key fuel INCR group_key key offset false 0 0 0 MEMCACHED_EXPIRATION_NOT_ADD value.
Definition memcached_decrement_by_key fuel group_key key offset value :=
  count_by_key fuel DECR group_key key offset false 0 0 0 MEMCACHED_EXPIRATION_NOT_ADD value.
Definition memcached_increment fuel key := memcached_increment_by_key fuel key key.
Definition memcached_decrement fuel key := memcached_decrement_by_key fuel key key.
Definition memcached_increment_with_initial_by_key fuel group_key key offset initial item_flags
    expiration value :=
  count_by_key fuel INCR group_key key offset true initial item_flags expiration (u32 expiration) value.
Definition memcached_decrement_with_initial_by_key fuel group_key key offset initial item_flags
    expiration value :=
  count_by_key fuel DECR group_key key offset true initial item_flags expiration (u32 expiration) value.
Definition memcached_increment_with_initial fuel key :=
  memcached_increment_with_initial_by_key fuel key key.
Definition memcached_decrement_with_initial fuel key :=
  memcached_decrement_with_initial_by_key fuel key key.

(** ** exist.cc *)

(** The responses of the two protocols to what [exist_vector] or [exist_request] asks. *)
Definition ascii_exist (group_key key : bytes) : cio memcached_return_t :=
  m ← cgets memc;
  '(_, l) ← server_of_key group_key;
  rc ← on_server l (memcached_vdo (exist_vector m key) true);
  if bool_decide (rc <> MEMCACHED_SUCCESS) then mret rc
  else
    '(rc, _) ← on_server l (await_response MEMCACHED_DEFAULT_COMMAND_SIZE);
    let rc := if bool_decide (rc = MEMCACHED_NOTSTORED) then MEMCACHED_SUCCESS else rc in
    mret (if bool_decide (rc = MEMCACHED_STORED) then MEMCACHED_NOTFOUND else rc).

Definition binary_exist (group_key key : bytes) : cio memcached_return_t :=
  m ← cgets memc;
  '(_, l) ← server_of_key group_key;
  rc ← on_server l (memcached_vdo [exist_request m key; namespace m; key] true);
  if bool_decide (rc <> MEMCACHED_SUCCESS) then mret rc
  else
    '(rc, _) ← on_server l (await_response 0);
    let rc := if bool_decide (rc = MEMCACHED_SUCCESS) then MEMCACHED_NOTFOUND else rc in
    mret (if bool_decide (rc = MEMCACHED_DATA_EXISTS) then MEMCACHED_SUCCESS else rc).

Definition memcached_exist_by_key (group_key key : bytes) : cio memcached_return_t :=
  stop ← begin_command key;
  match stop with
  | Some rc => mret rc
  | None =>
      m ← cgets memc;
      if use_udp (flags m) then mret MEMCACHED_NOT_SUPPORTED
      else (if binary_protocol (flags m) then binary_exist else ascii_exist) group_key key
  end.

Definition memcached_exist key := memcached_exist_by_key key key.

(** ** flush.cc *)

(** What is sent to one server; [Some] is the code that ends the loop.  The response is
    read and not looked at. *)
Definition flush_server (prefix : option bytes) (expiration : Z) : io (option memcached_return_t) :=
  f ← gets (fun i => flags (root i));
  let text := flush_text prefix expiration (no_reply f) in
  if Z.of_nat (length text) >=? MEMCACHED_DEFAULT_COMMAND_SIZE then
    rc ← set_error MEMCACHED_MEMORY_ALLOCATION_FAILURE (memcached_at "flush.cc" 177)
           (Some (str "snprintf(MEMCACHED_DEFAULT_COMMAND_SIZE)"));
    mret (Some rc)
  else
    rc ← memcached_do text true;
    _ ← (if bool_decide (rc = MEMCACHED_SUCCESS) && negb (no_reply f)
         then await_response MEMCACHED_DEFAULT_COMMAND_SIZE else mret (rc, []));
    mret None.

(** A loop over [n] servers from [x] on, until one of them ends it. *)
Fixpoint until_server (n : nat) (x : Z) (m : io (option memcached_return_t)) : cio memcached_return_t :=
  match n with
  | O => mret MEMCACHED_SUCCESS
  | S n =>
      l ← instance_fetch x;
      stop ← on_server l m;
      match stop with
      | Some rc => mret rc
      | None => until_server n (x + 1) m
      end
  end.

Definition memcached_flush_textual (prefix : option bytes) (expiration : Z) : cio memcached_return_t :=
  m ← cgets memc;
  if memcached_server_count m =? 0 then mret MEMCACHED_NO_SERVERS
  else until_server (Z.to_nat (memcached_server_count m)) 0 (flush_server prefix expiration).

(** The two loops of the binary protocol. *)
Definition flush_binary_server (expiration : Z) : io (option memcached_return_t) :=
  f ← gets (fun i => flags (root i));
  rc ← memcached_do (flush_request (if no_reply f then PROTOCOL_BINARY_CMD_FLUSHQ
                                    else PROTOCOL_BINARY_CMD_FLUSH) expiration) true;
  mret (if bool_decide (rc <> MEMCACHED_SUCCESS) then Some rc else None).

Definition flush_binary_response : io unit :=
  count ← gets (fun i => cursor_active (server i));
  if count >? 0 then _ ← await_response 0; mret tt else mret tt.

Definition memcached_flush_binary (expiration : Z) : cio memcached_return_t :=
  m ← cgets memc;
  if memcached_server_count m =? 0 then mret MEMCACHED_NO_SERVERS
  else
    rc ← until_server (Z.to_nat (memcached_server_count m)) 0 (flush_binary_server expiration);
    if bool_decide (rc <> MEMCACHED_SUCCESS) then mret rc
    else
      _ ← on_every_server flush_binary_response;
      mret MEMCACHED_SUCCESS.

(** [prefix] is the memory from the pointer on, [None] for [NULL]. *)
Definition memcached_flush_by_prefix (prefix : option bytes) (prefix_length expiration : Z)
    : cio memcached_return_t :=
  _ ← arcus_server_check_for_update;
  rc ← initialize_query;
  let invalid line text :=
    memc_set_error MEMCACHED_INVALID_ARGUMENTS (memcached_at "flush.cc" line) (Some (str text)) in
  if memcached_failed rc then mret rc
  else
    match prefix with
    | None => invalid 80 "given prefix is null"%string
    | Some p =>
        if prefix_length =? 0 then invalid 87 "given prefix length == 0"%string
        else if prefix_length >? 250 then invalid 94 "given prefix length > 250"%string
        else
          m ← cgets memc;
          let rc := memcached_key_test m (Some [take (Z.to_nat prefix_length) p]) in
          if memcached_failed rc then mret rc
          else if binary_protocol (flags m) then
            invalid 106 "Binary protocol is not supported yet"%string
          else memcached_flush_textual (Some p) expiration
    end.

Definition memcached_flush (expiration : Z) : cio memcached_return_t :=
  _ ← arcus_server_check_for_update;
  rc ← initialize_query;
  if memcached_failed rc then mret rc
  else
    m ← cgets memc;
    if binary_protocol (flags m) then memcached_flush_binary expiration
    else memcached_flush_textual None expiration.

(** ** flush_buffers.cc *)

(** What is done for one server, with the code so far; the last of the result is
    whether the loop goes on. *)
Definition flush_buffer (ret : memcached_return_t) : io (memcached_return_t * bool) :=
  s ← gets server;
  if write_buffer_offset s =? 0 then mret (ret, true)
  else
    '(ret, go) ← (if fd s =? -1 then
                    rc ← memcached_connect;
                    mret (rc, bool_decide (rc = MEMCACHED_SUCCESS))
                  else mret (ret, true));
    if negb go then mret (ret, false)
    else
      r ← memcached_io_write [] true;
      mret (match r with None => MEMCACHED_SOME_ERRORS | Some _ => ret end, true).

Fixpoint flush_buffers_loop (n : nat) (x : Z) (ret : memcached_return_t) : cio memcached_return_t :=
  match n with
  | O => mret ret
  | S n =>
      l ← instance_fetch x;
      '(ret, go) ← on_server l (flush_buffer ret);
      if go : bool then flush_buffers_loop n (x + 1) ret else mret ret
  end.

Definition memcached_flush_buffers : cio memcached_return_t :=
  m ← cgets memc;
  flush_buffers_loop (Z.to_nat (memcached_server_count m)) 0 MEMCACHED_SUCCESS.

(** ** version.cc *)

(** The two functions for one server, which differ in what they send and in the [line]
    of an error. *)
Definition version_of_instance (vector : list bytes) (line : Z) : io memcached_return_t :=
  s ← gets server;
  if negb (major_version s =? UINT8_MAX) then mret MEMCACHED_SUCCESS
  else
    let before_active := cursor_active s in
    rc ← memcached_vdo vector true;
    if bool_decide (rc <> MEMCACHED_SUCCESS) then
      _ ← set_error rc (memcached_at "version.cc" line) None;
      mret rc
    else
      active ← gets (fun i => cursor_active (server i));
      _ ← (if before_active =? active then memcached_server_response_increment else mret tt);
      '(rc, _) ← await_response 32;
      mret rc.

Definition version_ascii_instance : io memcached_return_t := version_of_instance [str "version" ++ crlf] 177.
Definition version_binary_instance : io memcached_return_t :=
  version_of_instance [request_header PROTOCOL_BINARY_CMD_VERSION 0 0 0 0] 214.

Definition memcached_version_instance : io memcached_return_t :=
  f ← gets (fun i => flags (root i));
  if use_udp f then mret MEMCACHED_NOT_SUPPORTED
  else if binary_protocol f then version_binary_instance
  else version_ascii_instance.
End Commands.

(** ** What is said and heard *)

(** What the text protocol says to count a key: the word, the key, the number to add or to
    take away and, when a key that is missing is to be created, its flags, its expiration
    and its value, in this order. *)
Definition counting_command (o : counting) (prefix key : bytes) (offset : Z) (create : bool)
    (initial item_flags expiration : Z) : bytes :=
  str (match o with INCR => "incr" | DECR => "decr" end)
  ++ flat_map (fun word => " "%byte :: word)
       ((prefix ++ key) :: print_u64 offset
        :: (if create then [print_u32 item_flags; print_i64 expiration; print_u64 initial] else []))
  ++ crlf.

Lemma initial_text_length create initial item_flags expiration :
  - 2 ^ 63 <= expiration < 2 ^ 63 -> (length (initial_text create initial item_flags expiration) < 64)%nat.
Proof.
  intros Hexp. unfold initial_text. destruct create; [|cbn; lia].
  pose proof (print_u32_length item_flags). pose proof (print_i64_length expiration Hexp).
  pose proof (print_u64_length initial). rewrite !length_cons, !length_app, !length_cons, length_app.
  cbn [length]. lia.
Qed.

Lemma number_response_number n tail :
  is_u64 n -> number_response (print_u64 n ++ crlf ++ tail) = Some (MEMCACHED_SUCCESS, n).
Proof.
  intros Hn. destruct (print_u64_spec n Hn) as [Hd Hv]. destruct (print_u64_cons n) as (c & s & E).
  assert (Hs : strtoull (print_u64 n ++ crlf ++ tail) = Some (n, length (print_u64 n))).
  { unfold crlf. cbn [app]. rewrite strtoull_digits; [by rewrite Hv|done|by rewrite E|done|by rewrite Hv; lia]. }
  unfold number_response. rewrite Hs. rewrite E in Hd |- *. apply Forall_inv in Hd.
  destruct c; try discriminate Hd; reflexivity.
Qed.

Section Claims.
Context `{HE : Environment} `{HA : Allocator} `{HQ : Qsort} `{HB : BuildConfig}.
Context `{HS : !Stack} `{HU : !Surroundings}.

Lemma counting_vector m o key offset create initial item_flags expiration :
  no_reply (flags m) = false ->
  mjoin (incr_vector m (counting_verb o) key (" "%byte :: print_u64 offset)
           (initial_text create initial item_flags expiration))
  = counting_command o (namespace m) key offset create initial item_flags expiration.
Proof.
  intros Hn. unfold incr_vector, noreply_text, counting_command, initial_text. rewrite Hn.
  destruct o, create; cbn; repeat (rewrite <-app_assoc || rewrite app_nil_r || cbn [app]); reflexivity.
Qed.

Lemma text_incr_decr_counts fuel o group_key key offset create initial item_flags expiration n rest k l c i :
  steady c -> server_for c group_key = Some (k, l) -> instance_at c l = Some i -> conversing i ->
  callbacks = None -> - 2 ^ 63 <= expiration < 2 ^ 63 ->
  takes (filling i + length (counting_command o (namespace (memc c)) key offset create initial
                               item_flags expiration)) i ->
  is_u64 n -> incoming i = print_u64 n ++ crlf ++ rest ->
  exists c',
    text_incr_decr (S fuel) (counting_verb o) group_key key offset create initial item_flags expiration
      (queried c)
    = CDone (MEMCACHED_SUCCESS, Some n) c'
    /\ exchanged (counting_command o (namespace (memc c)) key offset create initial item_flags expiration)
         rest l c c'.
Proof.
  intros Hst Hsf Hi Hconv Hcb Hexp Ht Hn Hinc. pose proof (instance_at_root c l i Hi) as Hr.
  assert (Hnr : no_reply (flags (memc c)) = false) by (rewrite <-Hr; apply Hconv).
  rewrite <-counting_vector in Ht |- * by done.
  pose proof (initial_text_length create initial item_flags expiration Hexp).
  pose proof (print_u64_length n).
  destruct (attempt_on_handle fuel k None false false
    (incr_vector (memc c) (counting_verb o) key (" "%byte :: print_u64 offset)
       (initial_text create initial item_flags expiration))
    (print_u64 n) MEMCACHED_SUCCESS rest l c i Hcb (number_says n Hn))
    as (tail & c' & E & Hex); try done; [lia|by rewrite andb_false_r|].
  exists c'. split; [|exact Hex]. unfold text_incr_decr. cio_do (steady_later c Hst). cbv zeta.
  rewrite number_text_ok by apply print_u64_length.
  change ((MEMCACHED_MAXIMUM_INTEGER_DISPLAY_LENGTH + 1) * 3 + 1)%nat with 64%nat.
  rewrite (proj2 (Nat.leb_gt _ _)) by lia. cio_pure.
  cio_do (server_of_key_fixed group_key k l (queried c) (steady_hosts c Hst) (steady_choice c Hst) Hsf).
  cbv iota. cio_do E. cbv iota. rewrite bool_decide_false by (by intros H'; apply H').
  rewrite number_response_number by done. by cio_pure.
Qed.

(** C19: counting: on a handle of the text protocol whose servers are not changed
    meanwhile, without callbacks, over an open connection that owes nothing, [incr] and
    [decr], with an initial value or without, send the server of the group key exactly
    the command of the text protocol (the word, the key with the namespace in front, the
    offset, and the flags, the expiration and the initial value when there is one), and
    for every 64-bit number that the server gives the caller gets that number; the
    response is taken away and nothing else, and nothing happens to the other servers. *)
Theorem count_by_key_counts fuel (o : counting) (group_key key : bytes) (offset : Z) (create : bool)
    (initial item_flags expiration binary_expiration value n : Z) rest k l c i :
  steady c -> memcached_key_test (memc c) (Some [key]) = MEMCACHED_SUCCESS ->
  server_for c group_key = Some (k, l) -> instance_at c l = Some i -> conversing i -> callbacks = None ->
  - 2 ^ 63 <= expiration < 2 ^ 63 ->
  takes (filling i + length (counting_command o (namespace (memc c)) key offset create initial
                               item_flags expiration)) i ->
  is_u64 n -> incoming i = print_u64 n ++ crlf ++ rest ->
  exists c',
    count_by_key (S fuel) o group_key key offset create initial item_flags expiration binary_expiration
      value c
    = CDone (MEMCACHED_SUCCESS, n) c'
    /\ exchanged (counting_command o (namespace (memc c)) key offset create initial item_flags expiration)
         rest l c c'.
Proof.
  intros Hst Hk Hsf Hi Hconv Hcb Hexp Ht Hn Hinc. pose proof (instance_at_root c l i Hi) as Hr.
  destruct (text_incr_decr_counts fuel o group_key key offset create initial item_flags expiration
    n rest k l c i) as (c' & E & Hex); [done..|].
  exists c'. split; [|exact Hex]. unfold count_by_key.
  cio_do (begin_command_valid key c Hst Hk). cbv iota. cio_pure.
  change (binary_protocol (flags (memc (queried c)))) with (binary_protocol (flags (memc c))).
  rewrite <-Hr, (conv_text i Hconv). by cio_do E.
Qed.

(** The text of a delete, and the code that a caller gets. *)
Definition delete_command (prefix key : bytes) : bytes := str "delete " ++ prefix ++ key ++ crlf.

Definition deleted (rc : memcached_return_t) : memcached_return_t :=
  if bool_decide (rc = MEMCACHED_DELETED) then MEMCACHED_SUCCESS else rc.

(** C20: a key is deleted where it belongs: on a handle of the text protocol whose servers
    are not changed meanwhile, without callbacks of the network and without buffering,
    over an open connection that owes nothing, the server of the group key is sent exactly
    the command of the text protocol, the line that comes in is taken away and gives
    the result, [DELETED] as success, nothing happens to the other servers, and the
    trigger of the handle is called with the key when, and only when, it was
    deleted. *)
Theorem memcached_delete_by_key_deletes fuel (trigger : bytes -> cio unit) (group_key key : bytes)
    (text : string) rc rest k l c i :
  steady c -> memcached_key_test (memc c) (Some [key]) = MEMCACHED_SUCCESS ->
  server_for c group_key = Some (k, l) -> instance_at c l = Some i -> conversing i -> callbacks = None ->
  buffer_requests (flags (memc c)) = false ->
  takes (filling i + length (delete_command (namespace (memc c)) key)) i ->
  In (text, rc) status_lines -> more_follow rc = false -> incoming i = str text ++ crlf ++ rest ->
  exists c',
    memcached_delete_by_key (S fuel) (Some trigger) group_key key 0 c
    = (if bool_decide (deleted rc = MEMCACHED_SUCCESS) then _ ← trigger key; mret MEMCACHED_SUCCESS
       else mret rc) c'
    /\ exchanged (delete_command (namespace (memc c)) key) rest l c c'.
Proof.
  intros Hst Hk Hsf Hi Hconv Hcb Hbuf Ht Hin Hm Hinc. pose proof (instance_at_root c l i Hi) as Hr.
  assert (Hnr : no_reply (flags (memc c)) = false) by (rewrite <-Hr; apply Hconv).
  assert (Hvec : mjoin (delete_vector (memc c) key) = delete_command (namespace (memc c)) key).
  { unfold delete_vector, noreply_text, delete_command. rewrite Hnr. cbn [mjoin list_join].
    by rewrite app_nil_r. }
  rewrite <-Hvec in Ht |- *. pose proof (status_length _ _ Hin).
  destruct (attempt_on_handle fuel k (Some (memcached_at "delete.cc" 89)) true false
    (delete_vector (memc c) key) (str text) rc rest l c i Hcb (status_says _ _ Hin) Hm
    (status_not_moved _ _ Hin)) as (tail & c' & E & Hex); try done; [lia|by rewrite Hbuf|].
  exists c'. split; [|exact Hex]. unfold memcached_delete_by_key.
  cio_do (steady_update c Hst). cio_do (begin_command_valid key c Hst Hk). cbv iota.
  change (negb (0 =? 0)) with false. cbv iota. cio_pure.
  change (binary_protocol (flags (memc (queried c)))) with (binary_protocol (flags (memc c))).
  assert (Hbin : binary_protocol (flags (memc c)) = false) by (rewrite <-Hr; apply Hconv). rewrite Hbin.
  assert (Hdel : ascii_delete (S fuel) group_key key (queried c) = CDone (deleted rc) c').
  { unfold ascii_delete. cio_pure.
    cio_do (server_of_key_fixed group_key k l (queried c) (steady_hosts c Hst) (steady_choice c Hst) Hsf).
    cbv iota. by cio_do E. }
  cio_do Hdel. unfold deleted. repeat case_bool_decide; subst; done.
Qed.
End Claims.

(** ** Concrete commands *)

#[local] Existing Instance some_environment.
#[local] Existing Instance all_hashes.

(** A server that takes everything and says the given lines. *)
Definition answering (s : bytes) : list send_result * list recv_result * list poll_result :=
  ([Sent 1000], [Received s], []).

Lemma count_by_key_counts_witness :
  exists c',
    memcached_increment_with_initial 1 (str "k") 2 7 0 (-1) 0
      (some_client [answering (str "18446744073709551615" ++ crlf)])
    = CDone (MEMCACHED_SUCCESS, 2 ^ 64 - 1) c'
    /\ exchanged (str "incr k 2 0 -1 7" ++ crlf) [] (Listed 0)
         (some_client [answering (str "18446744073709551615" ++ crlf)]) c'.
Proof.
  set (e := answering (str "18446744073709551615" ++ crlf)).
  destruct (some_client_at [e] 0 e eq_refl) as (i & Hi & Hb).
  refine (count_by_key_counts 0 INCR (str "k") (str "k") 2 true 7 0 (-1) (u32 (-1)) 0 (2 ^ 64 - 1) [] 0
    (Listed 0) (some_client [e]) i _ _ _ Hi _ _ _ _ _ _).
  - apply steady_some_client. cbn. lia.
  - reflexivity.
  - reflexivity.
  - eapply opened_conversing; [exact Hb|by rewrite (instance_at_root _ _ _ Hi)].
  - reflexivity.
  - lia.
  - destruct (as_before_written _ _ Hb) as (_ & _ & ->). apply (as_before_takes _ _ Hb). vm_compute. reflexivity.
  - lia.
  - rewrite (as_before_incoming _ _ Hb). vm_compute. reflexivity.
Defined.

Lemma memcached_delete_by_key_deletes_witness :
  exists c',
    memcached_delete_by_key 1 (Some (fun _ => memcached_flush_buffers ≫= fun _ => mret tt)) (str "k")
      (str "k") 0 (some_client [answering (str "NOT_FOUND" ++ crlf ++ str "END")])
    = CDone MEMCACHED_NOTFOUND c'
    /\ exchanged (str "delete k" ++ crlf) (str "END") (Listed 0)
         (some_client [answering (str "NOT_FOUND" ++ crlf ++ str "END")]) c'.
Proof.
  set (e := answering (str "NOT_FOUND" ++ crlf ++ str "END")).
  destruct (some_client_at [e] 0 e eq_refl) as (i & Hi & Hb).
  refine (memcached_delete_by_key_deletes 0 (fun _ => memcached_flush_buffers ≫= fun _ => mret tt)
    (str "k") (str "k") "NOT_FOUND" MEMCACHED_NOTFOUND (str "END") 0
    (Listed 0) (some_client [e]) i _ _ _ Hi _ _ _ _ _ _ _).
  - apply steady_some_client. cbn. lia.
  - reflexivity.
  - reflexivity.
  - eapply opened_conversing; [exact Hb|by rewrite (instance_at_root _ _ _ Hi)].
  - reflexivity.
  - reflexivity.
  - destruct (as_before_written _ _ Hb) as (_ & _ & ->). apply (as_before_takes _ _ Hb). vm_compute. reflexivity.
  - cbn. tauto.
  - reflexivity.
  - rewrite (as_before_incoming _ _ Hb). vm_compute. reflexivity.
Defined.

(** ** What the code does not do *)

(** A flush that is to happen later is not the command that the server knows: there is
    no space in front of the time. *)
Lemma flush_later_without_space : flush_text None 10 false = str "flush_all10" ++ crlf.
Proof. reflexivity. Qed.

(** Only the length of the prefix is tested; what is flushed is the string up to its
    NUL. *)
Lemma flush_prefix_length_ignored :
  match memcached_flush_by_prefix (Some (str "ab" ++ [Byte.x00])) 1 0
          (some_client [answering (str "OK" ++ crlf)]) with
  | CDone rc c => rc = MEMCACHED_SUCCESS
      /\ net_sent (nets c (Listed 0)) = str "flush_prefix ab " ++ crlf
  | _ => False
  end.
Proof. vm_compute. by split. Qed.

(** What the servers say to a flush is not looked at. *)
Lemma flush_hides_errors :
  match memcached_flush 0 (some_client [answering (str "NOT_SUPPORTED" ++ crlf)]) with
  | CDone rc _ => rc = MEMCACHED_SUCCESS
  | _ => False
  end.
Proof. vm_compute. done. Qed.

(** Without replies, [memcached_exist] takes a response away that was not counted. *)
Lemma exist_count_wraps :
  match memcached_exist (str "k")
          (with_flags (fun f => f <| no_reply := true |>)
             (some_client [answering (str "NOT_STORED" ++ crlf)])) with
  | CDone rc c => rc = MEMCACHED_SUCCESS /\ (cursor_active <$> servers (memc c)) = [2 ^ 32 - 1]
  | _ => False
  end.
Proof. vm_compute. by split. Qed.
