(* ===== verification/Get.v ===== *)
(** Getting values: get.cc. *)
From Stdlib Require Import Strings.Byte.
From stdpp Require Import functions.
From S2P Require Import Prelude HashFunctions Hashkit Memcached Text KeyHash Continuum Distribution.
From S2P Require Import ServerList Rgroup Error StringBuf Result Io Response Write Client Command.
From S2P Require Import Behavior Storage Fetch KeyCommands.

Definition MAX_SERVERS_FOR_MULTI_KEY_OPERATION : nat := 1000.

(** The opcodes of protocol_binary.h. *)
Definition PROTOCOL_BINARY_CMD_NOOP : Z := 0x0a.
Definition PROTOCOL_BINARY_CMD_GETK : Z := 0x0c.
Definition PROTOCOL_BINARY_CMD_GETKQ : Z := 0x0d.

(** Whether the server knows [mget], or [mgets] where the cas is asked for. *)
Definition mget_command_is_supported (ptr : memcached_st) (s : memcached_server_st) : bool :=
  let at_least major minor :=
    (major <? major_version s) || (major_version s =? major) && (minor <=? minor_version s) in
  if (major_version s =? UINT8_MAX) || (minor_version s =? UINT8_MAX) then false
  else if support_cas (flags ptr) then if is_enterprise s then at_least 0 9 else at_least 1 13
  else if is_enterprise s then at_least 0 7 else at_least 1 11.

Definition get_command (ptr : memcached_st) : bytes :=
  if support_cas (flags ptr) then str "gets " else str "get ".
Definition gat_command (ptr : memcached_st) : bytes :=
  if support_cas (flags ptr) then str "gats " else str "gat ".
Definition mget_command (ptr : memcached_st) : bytes :=
  if support_cas (flags ptr) then str "mgets" else str "mget".

(** [protocol_binary_request_getk] and [protocol_binary_request_noop]. *)
Definition getk_request (ptr : memcached_st) (opcode : Z) (key : bytes) : bytes :=
  request_header opcode (full_length ptr key) 0 (full_length ptr key) 0.
Definition noop_request : bytes := request_header PROTOCOL_BINARY_CMD_NOOP 0 0 0 0.

Section Getting.
Context `{HE : Environment} `{HA : Allocator} `{HQ : Qsort} `{HB : BuildConfig}.
Context `{HS : !Stack} `{HU : !Surroundings}.

(** ** What comes first *)

(** [None] for no group key. *)
Definition before_get_query (group_key : option bytes) (keys : list bytes) : cio memcached_return_t :=
  rc ← initialize_query;
  if memcached_failed rc then mret rc
  else
    m ← cgets memc;
    if use_udp (flags m) then memc_set_error MEMCACHED_NOT_SUPPORTED (memcached_at "get.cc" 114) None
    else
      match keys with
      | [] => memc_set_error MEMCACHED_NOTFOUND (memcached_at "get.cc" 119)
                (Some (str "number_of_keys was zero"))
      | _ =>
          if memcached_failed (memcached_key_test m (Some keys)) then
            memc_set_error MEMCACHED_BAD_KEY_PROVIDED (memcached_at "get.cc" 125)
              (Some (str "A bad key was provided"))
          else if match group_key with
                  | Some ((_ :: _) as k) => memcached_failed (memcached_key_test m (Some [k]))
                  | _ => false
                  end
          then memc_set_error MEMCACHED_BAD_KEY_PROVIDED (memcached_at "get.cc" 133)
                 (Some (str "A bad group key was provided."))
          else
            _ ← on_every_server drain_responses;
            mret MEMCACHED_SUCCESS
      end.

(** The server of the group key, if there is one. *)
Definition master_server (group_key : option bytes) : cio (option Z) :=
  match group_key with
  | Some ((_ :: _) as k) => server_key ← hash_with_redistribution k; mret (Some server_key)
  | _ => mret None
  end.

Definition server_key_of (master : option Z) (key : bytes) : cio Z :=
  match master with Some k => mret k | None => hash_with_redistribution key end.

(** The server of every key. *)
Fixpoint server_keys_of (master : option Z) (keys : list bytes) : cio (list Z) :=
  match keys with
  | [] => mret []
  | key :: keys =>
      k ← server_key_of master key;
      ks ← server_keys_of master keys;
      mret (k :: ks)
  end.

(** ** The text protocol *)

Definition ascii_get_by_key (master : option Z) (key : bytes) : cio memcached_return_t :=
  server_key ← server_key_of master key;
  l ← instance_fetch server_key;
  m ← cgets memc;
  rc ← on_server l (memcached_vdo [get_command m; namespace m; key; crlf] true);
  if bool_decide (rc <> MEMCACHED_SUCCESS)
  then _ ← memc_set_error rc (memcached_at "get.cc" 195) None; mret rc
  else mret rc.

(** From [do_action] on.  Only the first response can say that the server is not the
    master. *)
Definition gat_attempt (vector : list bytes) : io outcome :=
  rc ← memcached_vdo vector true;
  if bool_decide (rc <> MEMCACHED_SUCCESS) then mret (Returned rc)
  else
    '(rc, buffer) ← await_response (MEMCACHED_DEFAULT_COMMAND_SIZE + MEMCACHED_MAX_KEY);
    if bool_decide (rc = MEMCACHED_SUCCESS) then
      '(rc, _) ← await_in buffer;
      mret (Returned (if bool_decide (rc = MEMCACHED_END) then MEMCACHED_SUCCESS else rc))
    else if bool_decide (rc = MEMCACHED_END) then mret (Returned MEMCACHED_NOTFOUND)
    else mret (Answered rc buffer).

(** [snprintf] of the time into a buffer for it, in front of a space. *)
Definition expiration_buffer (expiration : Z) : option bytes :=
  let text := print_i64 expiration ++ str " " in
  if (MEMCACHED_MAXIMUM_INTEGER_DISPLAY_LENGTH + 2 <=? length text)%nat then None else Some text.

Definition ascii_gat_by_key (fuel : nat) (key : bytes) (expiration : Z) : cio memcached_return_t :=
  '(server_key, l) ← server_of_key key;
  m ← cgets memc;
  match expiration_buffer expiration with
  | None => memc_set_error MEMCACHED_MEMORY_ALLOCATION_FAILURE (memcached_at "get.cc" 219)
              (Some (str "snprintf(MEMCACHED_MAXIMUM_INTEGER_DISPLAY_LENGTH)"))
  | Some text =>
      '(out, _) ← do_action fuel server_key
        (gat_attempt [gat_command m; text; namespace m; key; crlf]) l;
      mret (match out with Returned rc => rc | Answered rc _ => rc end)
  end.

(** ** The binary protocol *)

(** The loop over the keys: [x] is the number of the first. *)
Fixpoint simple_keys (master : option Z) (opcode : Z) (flush : bool) (x : Z) (keys : list bytes)
    (rc : memcached_return_t) : cio memcached_return_t :=
  match keys with
  | [] => mret rc
  | key :: keys =>
      let next := simple_keys master opcode flush (x + 1) keys in
      server_key ← server_key_of master key;
      l ← instance_fetch server_key;
      s ← look l;
      rc ← (if cursor_active s =? 0 then on_server l memcached_connect else mret rc);
      if (cursor_active s =? 0) && memcached_failed rc then next rc
      else
        m ← cgets memc;
        written ← on_server l (memcached_io_writev [getk_request m opcode key; namespace m; key] flush);
        match written with
        | None => _ ← on_server l memcached_server_response_reset; next MEMCACHED_SOME_ERRORS
        | Some _ =>
            _ ← on_server l (_ ← memcached_server_response_reset; memcached_server_response_increment);
            m ← cgets memc;
            rc ← (if (0 <? x) && (x =? io_key_prefetch m) then
                    flushed ← memcached_flush_buffers;
                    mret (if bool_decide (flushed <> MEMCACHED_SUCCESS) then MEMCACHED_SOME_ERRORS else rc)
                  else mret rc);
            next rc
        end
  end.

(** A write that fails makes a server start anew. *)
Definition write_or_reset (data : bytes) : io bool :=
  written ← memcached_io_write data true;
  match written with
  | None => _ ← memcached_server_response_reset; _ ← memcached_io_reset; mret false
  | Some _ => mret true
  end.

(** The no-ops behind the requests. *)
Fixpoint send_noops (n : nat) (x : Z) (rc : memcached_return_t) : cio memcached_return_t :=
  match n with
  | O => mret rc
  | S n =>
      l ← instance_fetch x;
      s ← look l;
      if cursor_active s =? 0 then send_noops n (x + 1) rc
      else
        flushed ← on_server l (write_or_reset []);
        sent ← on_server l (write_or_reset noop_request);
        send_noops n (x + 1) (if (flushed : bool) && (sent : bool) then rc else MEMCACHED_SOME_ERRORS)
  end.

Definition simple_binary_mget (master : option Z) (keys : list bytes) (mget_mode : bool)
    : cio memcached_return_t :=
  _ ← arcus_server_check_for_update;
  rc ← simple_keys master (if mget_mode then PROTOCOL_BINARY_CMD_GETKQ else PROTOCOL_BINARY_CMD_GETK)
         (Z.of_nat (length keys) =? 1) 0 keys MEMCACHED_NOTFOUND;
  if mget_mode then
    m ← cgets memc;
    send_noops (Z.to_nat (memcached_server_count m)) 0 rc
  else mret rc.

(** ** Replicas *)

(** The server of a key for a replica; [start] is where to begin, if that is random. *)
Definition replica_server (m : memcached_st) (start : option Z) (hash replica : Z) : cio Z :=
  let server := hash ⊞ replica in
  let server :=
    match start with
    | Some start => if server ⊞ start <=? hash ⊞ number_of_replicas m then server ⊞ start else server
    | None => server
    end in
  if memcached_server_count m <=? 0 then (fun _ => CBlocked)
  else mret (server mod memcached_server_count m).

(** The loop over the keys for one replica.  A hash that is the number of servers
    stands for a key whose request was sent. *)
Fixpoint replica_keys (start : option Z) (replica : Z) (keys : list bytes) (hashes : list Z)
    (dead_servers : list bool) (success : bool) (rc : memcached_return_t)
    : cio (list Z * list bool * bool * memcached_return_t) :=
  match keys, hashes with
  | key :: keys, hash :: hashes =>
      let next hash dead_servers success rc :=
        '(hashes, dead_servers, success, rc) ←
          replica_keys start replica keys hashes dead_servers success rc;
        mret (hash :: hashes, dead_servers, success, rc) in
      m ← cgets memc;
      if hash =? memcached_server_count m then next hash dead_servers success rc
      else
        server ← replica_server m start hash replica;
        dead ← cchecked (dead_servers !! Z.to_nat server);
        if dead : bool then next hash dead_servers success rc
        else
          l ← instance_fetch server;
          s ← look l;
          let died := <[Z.to_nat server := true]> dead_servers in
          rc ← (if cursor_active s =? 0 then on_server l memcached_connect else mret rc);
          if (cursor_active s =? 0) && memcached_failed rc then
            _ ← on_server l memcached_io_reset;
            next hash died false rc
          else
            m ← cgets memc;
            written ← on_server l (memcached_io_writev
              [getk_request m PROTOCOL_BINARY_CMD_GETK key; namespace m; key] true);
            match written with
            | None => _ ← on_server l memcached_io_reset; next hash died false rc
            | Some _ =>
                _ ← on_server l memcached_server_response_increment;
                next (memcached_server_count m) dead_servers success rc
            end
  | _, _ => mret (hashes, dead_servers, success, rc)
  end.

(** [n] replicas from [replica] on. *)
Fixpoint replicas_loop (n : nat) (replica : Z) (start : option Z) (keys : list bytes)
    (hashes : list Z) (dead_servers : list bool) (rc : memcached_return_t) : cio memcached_return_t :=
  match n with
  | O => mret rc
  | S n =>
      '(hashes, dead_servers, success, rc) ←
        replica_keys start replica keys hashes dead_servers true rc;
      if success : bool then mret rc
      else replicas_loop n (replica + 1) start keys hashes dead_servers rc
  end.

Definition replication_binary_mget (hashes : list Z) (dead_servers : list bool) (keys : list bytes)
    : cio memcached_return_t :=
  m ← cgets memc;
  let randomize_read := randomize_replica_read (flags m) in
  _ ← arcus_server_check_for_update;
  start ← (if randomize_read : bool then
             r ← next_random;
             m ← cgets memc;
             if number_of_replicas m ⊞ 1 =? 0 then cchecked None
             else mret (Some (u32 r mod (number_of_replicas m ⊞ 1)))
           else mret None);
  m ← cgets memc;
  replicas_loop (S (Z.to_nat (number_of_replicas m))) 0 start keys hashes dead_servers
    MEMCACHED_NOTFOUND.

(** The two arrays are allocated; what [replication_binary_mget] returns is lost. *)
Definition binary_mget_by_key (master : option Z) (keys : list bytes) (mget_mode : bool)
    : cio memcached_return_t :=
  m ← cgets memc;
  if number_of_replicas m =? 0 then simple_binary_mget master keys mget_mode
  else
    match malloc (4 * Z.of_nat (length keys)), malloc (memcached_server_count m) with
    | Some _, Some _ =>
        hashes ← server_keys_of master keys;
        _ ← replication_binary_mget hashes
              (replicate (Z.to_nat (memcached_server_count m)) false) keys;
        mret MEMCACHED_SUCCESS
    | _, _ => mret MEMCACHED_MEMORY_ALLOCATION_FAILURE
    end.

(** ** One value *)

(** What is given for a key: the value, [None] for NULL, what is stored behind the
    pointers to the length and the flags, and the code. *)
Record got := {
  got_value : option bytes;
  got_length : Z;
  got_flags : Z;
  got_error : memcached_return_t;
}.

Definition nothing (error : memcached_return_t) : got :=
  {| got_value := None; got_length := 0; got_flags := 0; got_error := error |}.

(** The most accurate error there is. *)
Definition accurate_error (error : memcached_return_t) : cio memcached_return_t :=
  c ← cgets id;
  mret (if memcached_has_current_error (query_id (memc c)) (memc_errors c)
        then memcached_last_error (memc_errors c) else error).

(** The loop that fetches results until there is none; the last value counts. *)
Fixpoint get_loop (fuel inner : nat) (g : got) (is_value_fetched : bool) : cio (got * bool) :=
  match fuel with
  | O => fun _ => CBlocked
  | S fuel =>
      '(error, found, _) ← memcached_fetch_result None inner (Some In_handle);
      if negb found then
        mret ({| got_value := got_value g; got_length := got_length g; got_flags := got_flags g;
                 got_error := error |}, is_value_fetched)
      else
        r ← cgets memc_result;
        '(value, v) ← cchecked (memcached_string_take_value (item_value r));
        _ ← cmodify (fun c => c <| memc_result ::= fun r => r <| item_value := v |> |>);
        get_loop fuel inner {| got_value := value; got_length := memcached_string_length v;
                               got_flags := item_flags r; got_error := error |} true
  end.

(** [assert_msg] that the query was counted. *)
Definition assert_query (query_id' : Z) : cio unit :=
  m ← cgets memc;
  if query_id m <? u64 (query_id' + 1) then cchecked None else mret tt.

(** The callback for a key that is not there: it makes a value, which is stored. *)
Definition key_failure (fuel : nat) (failure : bytes -> cio memcached_return_t)
    (wants_length wants_flags : bool) (key : bytes) (error : memcached_return_t) : cio got :=
  _ ← cmodify (fun c => c <| memc_result ::= memcached_result_reset |>);
  rc ← failure key;
  if negb (bool_decide (rc = MEMCACHED_SUCCESS) || bool_decide (rc = MEMCACHED_BUFFERED))
  then mret (nothing error)
  else
    m ← cgets memc;
    let latch := buffer_requests (flags m) in
    let switch := bool_decide (rc = MEMCACHED_BUFFERED) && negb latch in
    _ ← (if switch then
           _ ← memcached_behavior_set MEMCACHED_BEHAVIOR_BUFFER_REQUESTS 1; mret tt
         else mret tt);
    r ← cgets memc_result;
    rc ← memcached_set fuel key (memcached_result_value r) 0 (memcached_result_flags r);
    _ ← (if switch && bool_decide (rc = MEMCACHED_BUFFERED) then
           _ ← memcached_behavior_set MEMCACHED_BEHAVIOR_BUFFER_REQUESTS 0; mret tt
         else mret tt);
    if bool_decide (rc = MEMCACHED_SUCCESS) || bool_decide (rc = MEMCACHED_BUFFERED) then
      if negb (wants_length && wants_flags) then cchecked None
      else
        r ← cgets memc_result;
        '(value, v) ← cchecked (memcached_string_take_value (item_value r));
        _ ← cmodify (fun c => c <| memc_result ::= fun r => r <| item_value := v |> |>);
        mret {| got_value := value; got_length := memcached_result_length r;
                got_flags := memcached_result_flags r; got_error := rc |}
    else mret (nothing error).

(** [get_key_failure] is the callback of the handle, [wants_length] and [wants_flags]
    are whether these pointers are given; [inner] bounds the responses of each
    result. *)
Definition memcached_get_by_key (fuel inner : nat) (get_key_failure : option (bytes -> cio memcached_return_t))
    (wants_length wants_flags : bool) (group_key : option bytes) (key : bytes) : cio got :=
  _ ← arcus_server_check_for_update;
  m ← cgets memc;
  let query := query_id m in
  error ← before_get_query group_key [key];
  if memcached_failed error then error ← accurate_error error; mret (nothing error)
  else
    master ← master_server group_key;
    m ← cgets memc;
    error ← (if binary_protocol (flags m) then binary_mget_by_key master [key] false
             else ascii_get_by_key master key);
    _ ← assert_query query;
    if memcached_failed error then error ← accurate_error error; mret (nothing error)
    else
      '(g, is_value_fetched) ← get_loop fuel inner (nothing error) false;
      _ ← assert_query query;
      let error := if is_value_fetched : bool then MEMCACHED_SUCCESS
                   else if bool_decide (got_error g = MEMCACHED_END) then MEMCACHED_NOTFOUND
                   else got_error g in
      let g := {| got_value := got_value g; got_length := got_length g; got_flags := got_flags g;
                  got_error := error |} in
      match got_value g, get_key_failure with
      | None, Some failure =>
          if bool_decide (error = MEMCACHED_NOTFOUND)
          then key_failure fuel failure wants_length wants_flags key error
          else mret g
      | _, _ => mret g
      end.

Definition memcached_get (fuel inner : nat) (get_key_failure : option (bytes -> cio memcached_return_t))
    (wants_length wants_flags : bool) (key : bytes) : cio got :=
  memcached_get_by_key fuel inner get_key_failure wants_length wants_flags None key.

Definition memcached_gat_by_key (fuel : nat) (key : bytes) (expiration : Z) : cio got :=
  _ ← arcus_server_check_for_update;
  error ← before_get_query None [key];
  if memcached_failed error then error ← accurate_error error; mret (nothing error)
  else
    m ← cgets memc;
    error ← (if binary_protocol (flags m) then mret MEMCACHED_NOT_SUPPORTED
             else ascii_gat_by_key fuel key expiration);
    if bool_decide (error <> MEMCACHED_SUCCESS) then mret (nothing error)
    else
      r ← cgets memc_result;
      '(value, v) ← cchecked (memcached_string_take_value (item_value r));
      _ ← cmodify (fun c => c <| memc_result ::= fun r => r <| item_value := v |> |>);
      mret {| got_value := value; got_length := memcached_string_length v; got_flags := item_flags r;
              got_error := error |}.

Definition memcached_gat := memcached_gat_by_key.

(** ** Many values *)

(** How many bytes and keys a server gets: arrays for the servers. *)
Fixpoint count_keys (prefix : Z) (keys : list bytes) (server_keys : list Z)
    (lenkeys numkeys : list Z) : option (list Z * list Z) :=
  match keys, server_keys with
  | key :: keys, k :: server_keys =>
      len ← lenkeys !! Z.to_nat k;
      num ← numkeys !! Z.to_nat k;
      count_keys prefix keys server_keys
        (<[Z.to_nat k := len ⊞ u32 (prefix + Z.of_nat (length key) + 1)]> lenkeys)
        (<[Z.to_nat k := u16 (num + 1)]> numkeys)
  | _, _ => Some (lenkeys, numkeys)
  end.

(** What has happened so far. *)
Record mget_state := {
  hosts_connected : Z;
  hosts_failed : list bool;
  failures_occurred_in_sending : bool;
  mget_rc : memcached_return_t;
}.

#[export] Instance mget_state_fields : Fields mget_state := fun s =>
  {| hosts_connected := hosts_connected s; hosts_failed := hosts_failed s;
     failures_occurred_in_sending := failures_occurred_in_sending s; mget_rc := mget_rc s |}.

Definition host_failed (k : Z) (s : mget_state) : mget_state :=
  s <| hosts_failed ::= <[Z.to_nat k := true]> |>.

(** The header of a request: the number of bytes of the keys, the spaces between them
    included, and the number of keys, if the server knows [mget]. *)
Definition mget_header (ptr : memcached_st) (enable_mget : bool) (lenkeys numkeys : Z) : bytes :=
  if enable_mget
  then mget_command ptr ++ str " " ++ print_u32 (lenkeys ⊟ 1) ++ str " " ++ print_u32 numkeys ++ crlf
  else get_command ptr.

(** The first key for a server: it is connected, and the header is sent. *)
Definition mget_first_key (lenkeys numkeys : Z) (key : bytes) : io (option bool * memcached_return_t) :=
  rc ← memcached_connect;
  if memcached_failed rc then
    _ ← (if bool_decide (rc <> MEMCACHED_ERRNO)
         then _ ← set_error rc (memcached_at "get.cc" 876) None; mret tt else mret tt);
    mret (None, rc)
  else
    i ← gets id;
    let m := root i in
    written ← memcached_io_writev
      [mget_header m (mget_command_is_supported m (server i)) lenkeys numkeys; namespace m; key] false;
    match written with
    | None => mret (Some false, rc)
    | Some _ => _ ← memcached_server_response_increment; mret (Some true, rc)
    end.

(** Another key for a server. *)
Definition mget_next_key (key : bytes) : io bool :=
  m ← gets root;
  written ← memcached_io_writev [str " "; namespace m; key] false;
  match written with
  | None => _ ← memcached_server_response_reset; mret false
  | Some _ => mret true
  end.

Definition mget_key (master : option Z) (lenkeys numkeys : list Z) (own : Z) (key : bytes)
    (s : mget_state) : cio mget_state :=
  let k := default own master in
  l ← instance_fetch k;
  m ← cgets memc;
  i ← look l;
  failed ← cchecked (hosts_failed s !! Z.to_nat k);
  if mget_command_is_supported m i && failed then mret s
  else if cursor_active i =? 0 then
    len ← cchecked (lenkeys !! Z.to_nat k);
    num ← cchecked (numkeys !! Z.to_nat k);
    '(written, rc) ← on_server l (mget_first_key len num key);
    let s := s <| mget_rc := rc |> in
    mret (match written with
          | None => host_failed k s
          | Some written =>
              let s := s <| hosts_connected ::= (fun n => u64 (n + 1)) |> in
              if (written : bool) then s else host_failed k s <| failures_occurred_in_sending := true |>
          end)
  else
    written ← on_server l (mget_next_key key);
    mret (if written : bool then s else host_failed k s <| failures_occurred_in_sending := true |>).

Fixpoint mget_keys (master : option Z) (lenkeys numkeys : list Z) (keys : list bytes)
    (server_keys : list Z) (s : mget_state) : cio mget_state :=
  match keys, server_keys with
  | key :: keys, own :: server_keys =>
      s ← mget_key master lenkeys numkeys own key s;
      mget_keys master lenkeys numkeys keys server_keys s
  | _, _ => mret s
  end.

(** The end of the requests; the result is whether it failed for some server, and
    whether it did not. *)
Fixpoint end_requests (n : nat) (x : Z) (failures success : bool) : cio (bool * bool) :=
  match n with
  | O => mret (failures, success)
  | S n =>
      l ← instance_fetch x;
      s ← look l;
      if cursor_active s =? 0 then end_requests n (x + 1) failures success
      else
        written ← on_server l (memcached_io_write crlf true);
        match written with
        | None => end_requests n (x + 1) true success
        | Some _ => end_requests n (x + 1) failures true
        end
  end.

Definition text_mget (master : option Z) (keys : list bytes) : cio memcached_return_t :=
  match malloc (4 * Z.of_nat (length keys)) with
  | None => mret MEMCACHED_MEMORY_ALLOCATION_FAILURE
  | Some _ =>
      server_keys ← server_keys_of None keys;
      m ← cgets memc;
      let zeros := replicate MAX_SERVERS_FOR_MULTI_KEY_OPERATION 0 in
      '(lenkeys, numkeys) ← cchecked
        (count_keys (memcached_array_size (_namespace m)) keys server_keys zeros zeros);
      s ← mget_keys master lenkeys numkeys keys server_keys
            {| hosts_connected := 0; failures_occurred_in_sending := false;
               hosts_failed := replicate MAX_SERVERS_FOR_MULTI_KEY_OPERATION false;
               mget_rc := MEMCACHED_SUCCESS |};
      if hosts_connected s =? 0 then
        if memcached_failed (mget_rc s) then mret (mget_rc s)
        else memc_set_error MEMCACHED_NO_SERVERS (memcached_at "get.cc" 947) None
      else
        m ← cgets memc;
        '(failures, success) ← end_requests (Z.to_nat (memcached_server_count m)) 0
          (failures_occurred_in_sending s) false;
        mret (if failures && success then MEMCACHED_SOME_ERRORS
              else if success : bool then MEMCACHED_SUCCESS else MEMCACHED_FAILURE)
  end.

Definition memcached_mget_by_key (group_key : option bytes) (keys : list bytes) : cio memcached_return_t :=
  _ ← arcus_server_check_for_update;
  rc ← before_get_query group_key keys;
  if memcached_failed rc then mret rc
  else
    m ← cgets memc;
    if memcached_server_count m >? Z.of_nat MAX_SERVERS_FOR_MULTI_KEY_OPERATION then
      memc_set_error MEMCACHED_INVALID_ARGUMENTS (memcached_at "get.cc" 786)
        (Some (str "memcached instances should be <= MAX_SERVERS_FOR_MULTI_KEY_OPERATION"))
    else
      master ← master_server group_key;
      m ← cgets memc;
      if binary_protocol (flags m) then binary_mget_by_key master keys true
      else text_mget master keys.

Definition memcached_mget (keys : list bytes) : cio memcached_return_t := memcached_mget_by_key None keys.
End Getting.

(** The handle with other callbacks. *)
Definition with_callbacks `{HS : Stack} (cb : list (memcached_result_st -> io memcached_return_t))
    : Stack :=
  {| stack_bytes := stack_bytes; stack_bytes_length := stack_bytes_length;
     stack_result := stack_result; callbacks := Some cb; open_connection := open_connection |}.

Definition memcached_mget_execute_by_key
    `{HE : Environment} `{HA : Allocator} `{HQ : Qsort} `{HB : BuildConfig}
    `{HS : !Stack} `{HU : !Surroundings} (group_key : option bytes) (keys : list bytes)
    (callback : list (memcached_result_st -> io memcached_return_t)) : cio memcached_return_t :=
  m ← cgets memc;
  if negb (binary_protocol (flags m)) then mret MEMCACHED_NOT_SUPPORTED
  else memcached_mget_by_key (HS := with_callbacks callback) group_key keys.

Definition memcached_mget_execute
    `{HE : Environment} `{HA : Allocator} `{HQ : Qsort} `{HB : BuildConfig}
    `{HS : !Stack} `{HU : !Surroundings} (keys : list bytes)
    (callback : list (memcached_result_st -> io memcached_return_t)) : cio memcached_return_t :=
  memcached_mget_execute_by_key None keys callback.

(** ** Asking and fetching *)

Section Asking.
Context `{HE : Environment} `{HA : Allocator} `{HQ : Qsort} `{HB : BuildConfig}.
Context `{HS : !Stack} `{HU : !Surroundings}.

(** No server owes anything, and nothing is left of what one has said. *)
Definition resting (c : client) : Prop :=
  forall l i, polled c l -> instance_at c l = Some i -> silent i.

Lemma resting_idle c : all_there c -> resting c -> all_idle c.
Proof.
  intros Ht Hr x Hx. destruct (Ht x Hx) as (l & i & Hl & Hi). exists l, i. split; [done|]. split; [done|].
  apply (Hr l i); [by exists x|done].
Qed.

Lemma stands_trans R1 R2 R c1 c2 c3 :
  (forall l i1 i2 i3, instance_at c1 l = Some i1 -> instance_at c2 l = Some i2 ->
     R1 l i1 i2 -> R2 l i2 i3 -> R l i1 i3) ->
  stands R1 c1 c2 -> stands R2 c2 c3 -> stands R c1 c3.
Proof.
  intros HR [[Hl1 E1] Hs1 H1] [[Hl2 E2] Hs2 H2]. split.
  - split; [congruence|]. rewrite E2, E1. done.
  - congruence.
  - intros l i1 Hi1. destruct (H1 l i1 Hi1) as (i2 & Hi2 & HR1).
    destruct (H2 l i2 Hi2) as (i3 & Hi3 & HR2). exists i3. split; [done|]. by eapply HR.
Qed.

Lemma key_test_flags m m' keys :
  flags m' = flags m -> memcached_key_test m' (Some keys) = memcached_key_test m (Some keys).
Proof.
  intros Hf. destruct keys as [|key keys]; [done|]. cbn [memcached_key_test].
  generalize (key :: keys). intros l. induction l as [|k l IH]; [done|]. cbn [key_test_loop]. by rewrite Hf, IH.
Qed.

Lemma stands_known R c0 c :
  stands R c0 c -> stands (fun l i0 i => instance_at c0 l = Some i0 /\ R l i0 i) c0 c.
Proof.
  intros [Ha Hs Hat]. split; [done|done|]. intros l i0 Hi0. destruct (Hat l i0 Hi0) as (i & Hi & Hr).
  by exists i.
Qed.

Lemma before_get_query_valid keys c :
  steady c -> use_udp (flags (memc c)) = false -> keys <> [] ->
  memcached_key_test (memc c) (Some keys) = MEMCACHED_SUCCESS -> all_idle c ->
  exists c1, before_get_query None keys c = CDone MEMCACHED_SUCCESS c1
    /\ stands (fun _ => as_before) c c1 /\ handle_as_before (queried c) c1.
Proof.
  intros Hst Hu Hne Hk Hidle.
  destruct (drain_all (Z.to_nat (memcached_server_count (memc c))) 0 c (queried c) Hidle)
    as (c1 & E & Hst1 & Hh); [done|pose proof (steady_servers c Hst); lia|apply stands_queried|].
  exists c1. split; [|done]. unfold before_get_query.
  assert (Hi : initialize_query c = CDone MEMCACHED_SUCCESS (queried c)).
  { destruct Hst as [_ _ Hb Hs _ _]. unfold initialize_query, cmodify, cgets, mbind, cio_bind, mret, cio_ret.
    change (is_time_for_rebuild (memc _)) with (is_time_for_rebuild (memc c)). rewrite Hb.
    change (memcached_server_count (memc _)) with (memcached_server_count (memc c)).
    by rewrite (proj2 (Z.eqb_neq (memcached_server_count _) 0)) by lia. }
  cio_do Hi. cbn [memcached_failed memcached_success negb]. cio_pure.
  change (use_udp (flags (memc (queried c)))) with (use_udp (flags (memc c))). rewrite Hu.
  rewrite (key_test_flags (memc c)), Hk by done. destruct keys as [|key keys]; [done|].
  assert (Ed : on_every_server drain_responses (queried c) = CDone tt c1) by (unfold on_every_server; by cio_pure).
  change (memcached_failed MEMCACHED_SUCCESS) with false. cbv iota. by cio_do Ed.
Qed.

Context (prefix : bytes) (limit : Z).

(** The servers that owe something were asked with these texts. *)
Record asked (D : debts) (T : location -> bytes) (c0 : client) (l : location) (i0 i : instance) : Prop := {
  as_fd : fd (server i) = fd (server i0);
  as_sent : sent i = match D l with Some _ => written i0 ++ T l | None => sent i0 end;
  as_owes : match D l with Some items => owing prefix items i | None => polled c0 l -> silent i end;
}.

(** In the end what was asked for was sent, and nothing is left. *)
Record served (D : debts) (T : location -> bytes) (c0 : client) (l : location) (i0 i : instance) : Prop := {
  sv_fd : fd (server i) = fd (server i0);
  sv_sent : sent i = match D l with Some _ => written i0 ++ T l | None => sent i0 end;
  sv_silent : polled c0 l -> silent i;
}.

Lemma alike_count m0 m : alike m0 m -> memcached_server_count m = memcached_server_count m0.
Proof. intros [_ ->]. done. Qed.

Lemma alike_polled c0 c l : alike (memc c0) (memc c) -> polled c l <-> polled c0 l.
Proof.
  intros Ha. unfold polled. rewrite (alike_count _ _ Ha).
  split; intros (x & Hx & Hl); exists x; (split; [done|]); [rewrite <-(alike_fetch _ _ _ Ha)|rewrite (alike_fetch _ _ _ Ha)];
    done.
Qed.

Lemma asked_as_before D T c0 l i0 i j : asked D T c0 l i0 i -> as_before i j -> asked D T c0 l i0 j.
Proof.
  intros [Hf Hs Ho] Hb. pose proof (ab_server _ _ Hb) as Es. split; [by rewrite Es| |].
  - by rewrite (ab_sent _ _ Hb).
  - destruct (D l).
    + destruct Ho as [A B C E]. split; [by eapply as_before_connected|by rewrite Es..|].
      by rewrite (as_before_incoming _ _ Hb).
    + intros Hp. destruct (Ho Hp). by split; rewrite Es.
Qed.

(** A server that nothing was asked of. *)
Lemma asked_not D T c0 l i0 i :
  D l = None -> resting c0 -> instance_at c0 l = Some i0 -> as_before i0 i -> asked D T c0 l i0 i.
Proof.
  intros HD Hrest Hi0 Hb. pose proof (ab_server _ _ Hb) as Es. split; rewrite ?HD; [by rewrite Es|apply Hb|].
  intros Hp. destruct (Hrest l i0 Hp Hi0). by split; rewrite Es.
Qed.

Section Start.
Context (ls : list location) (D : debts) (T : location -> bytes) (c0 c : client).
Context (Hst : stands (asked D T c0) c0 c) (Hthere : all_there c0) (Hown : own_sockets c0).

Lemma asked_there : all_there c.
Proof.
  intros x Hx. rewrite (alike_count _ _ (st_handle _ _ _ Hst)) in Hx. destruct (Hthere x Hx) as (l & i0 & Hl & Hi0).
  destruct (st_at _ _ _ Hst l i0 Hi0) as (i & Hi & _). exists l, i.
  by rewrite (alike_fetch _ _ _ (st_handle _ _ _ Hst)).
Qed.

Lemma asked_before x l i :
  0 <= x < memcached_server_count (memc c) -> memcached_server_instance_fetch (memc c) x = Some l ->
  instance_at c l = Some i ->
  0 <= x < memcached_server_count (memc c0) /\ memcached_server_instance_fetch (memc c0) x = Some l
  /\ exists i0, instance_at c0 l = Some i0 /\ fd (server i) = fd (server i0).
Proof.
  rewrite (alike_count _ _ (st_handle _ _ _ Hst)), (alike_fetch _ _ _ (st_handle _ _ _ Hst)). intros Hx Hl Hi.
  split; [done|]. split; [done|]. destruct (Hthere x Hx) as (l' & i0 & Hl' & Hi0).
  assert (l' = l) as -> by congruence.
  exists i0. split; [done|]. destruct (st_at _ _ _ Hst l i0 Hi0) as (i' & Hi' & Ha). simplify_eq. apply Ha.
Qed.

Lemma asked_sockets : own_sockets c.
Proof.
  intros x y l l' i i' Hx Hl Hy Hl' Hi Hi' Hfd Hv.
  destruct (asked_before x l i Hx Hl Hi) as (Hx0 & Hl0 & j & Hj & Hfj).
  destruct (asked_before y l' i' Hy Hl' Hi') as (Hy0 & Hl0' & j' & Hj' & Hfj').
  apply (Hown x y l l' j j'); congruence.
Qed.

Lemma asked_fetching :
  tidy (memc_result c) -> (forall l, D l <> None -> l ∈ ls /\ polled c0 l) ->
  (forall l items, D l = Some items -> Forall (good_item prefix limit) items) ->
  Forall fair (readies c) -> (2 <= length ls -> debt ls D <= length (readies c))%nat ->
  fetching prefix c limit ls D c.
Proof.
  intros Ht Hls Hg Hf He. pose proof (st_handle _ _ _ Hst) as Ha. split; try done.
  - split; [apply alike_refl|done|]. intros l i Hi. exists i. split; [done|]. split; [done|]. split; [done|].
    assert (Hp : polled c0 l -> exists i0, instance_at c0 l = Some i0) by (by apply polled_instance).
    destruct (D l) eqn:HD.
    + destruct Hp as (i0 & Hi0); [apply Hls; by rewrite HD|].
      destruct (st_at _ _ _ Hst l i0 Hi0) as (i' & Hi' & [_ _ Ho]). rewrite HD in Ho. by simplify_eq.
    + intros Hpl%(alike_polled c0 c); [|done]. destruct (Hp Hpl) as (i0 & Hi0).
      destruct (st_at _ _ _ Hst l i0 Hi0) as (i' & Hi' & [_ _ Ho]). rewrite HD in Ho. simplify_eq. by apply Ho.
  - intros l Hl. destruct (Hls l Hl) as [Hin Hp]. split; [done|]. by apply (alike_polled c0 c).
Qed.
End Start.

(** ** One value, of a server that speaks the text protocol *)

(** What the text protocol says for it; [gets] also asks for the CAS value. *)
Definition get_word (cas : bool) : bytes := str (if cas then "gets" else "get") ++ [" "%byte].
Definition get_text (m : memcached_st) (key : bytes) : bytes :=
  get_word (support_cas (flags m)) ++ namespace m ++ key ++ crlf.

Lemma get_command_word m : get_command m = get_word (support_cas (flags m)).
Proof. unfold get_command, get_word. by destruct (support_cas (flags m)). Qed.

(** What one server owes. *)
Definition only (l : location) (items : list item) : debts := <[l := Some items]> (fun _ => None).

Lemma only_debt l items : debt [l] (only l items) = S (length items).
Proof. unfold debt, only. cbn. rewrite fn_lookup_insert. cbn. lia. Qed.

Lemma only_asked l items c l' : polled c l -> only l items l' <> None -> l' ∈ [l] /\ polled c l'.
Proof.
  unfold only. intros Hp. destruct (decide (l' = l)) as [->|Hne].
  - intros _. split; [by apply list_elem_of_singleton|done].
  - by rewrite fn_lookup_insert_ne.
Qed.

Lemma alike_same m0 m :
  alike m0 m -> binary_protocol (flags m) = binary_protocol (flags m0)
  /\ use_udp (flags m) = use_udp (flags m0) /\ no_reply (flags m) = no_reply (flags m0)
  /\ piped (flags m) = piped (flags m0) /\ support_cas (flags m) = support_cas (flags m0)
  /\ auto_eject_hosts (flags m) = auto_eject_hosts (flags m0) /\ distribution m = distribution m0
  /\ io_msg_watermark m = io_msg_watermark m0 /\ _namespace m = _namespace m0.
Proof. intros [_ ->]. done. Qed.

Lemma ascii_get_asks key k l c c1 i items :
  steady c -> stands (fun _ => as_before) c c1 -> resting c ->
  server_for c key = Some (k, l) -> instance_at c l = Some i -> conversing i -> callbacks = None ->
  takes (filling i + length (get_text (memc c) key)) i -> incoming i = stream prefix items ->
  exists c2, ascii_get_by_key None key c1 = CDone MEMCACHED_SUCCESS c2
    /\ stands (asked (only l items) (fun _ => get_text (memc c) key) c) c c2 /\ handle_as_before c1 c2.
Proof.
  intros Hst Hst1 Hrest Hsf Hi Hconv Hcb Ht Hinc. pose proof (st_handle _ _ _ Hst1) as Ha.
  destruct (alike_same _ _ Ha) as (Fb & Fu & Fr & Fp & Fc & Fh & Fd & Fw & Fn).
  assert (Etext : mjoin [get_command (memc c1); namespace (memc c1); key; crlf] = get_text (memc c) key).
  { unfold get_text, namespace. rewrite get_command_word, Fc, Fn. cbn [mjoin list_join].
    by rewrite app_nil_r. }
  pose proof (instance_at_root c l i Hi) as Hroot.
  assert (Hstep : forall i1, instance_at c1 l = Some i1 -> as_before i i1 ->
    exists j, memcached_vdo [get_command (memc c1); namespace (memc c1); key; crlf] true i1
        = Done MEMCACHED_SUCCESS j
      /\ root j = root i1 /\ asked (only l items) (fun _ => get_text (memc c) key) c l i j
      /\ root_result j = root_result i1).
  { intros i1 Hi1 Hb. pose proof (instance_at_root c1 l i1 Hi1) as Hroot1.
    assert (Hq : quiet i1).
    { right. right. rewrite (ab_server _ _ Hb), (conv_idle i Hconv), Hroot1, Fw, <-Hroot.
      pose proof (conv_watermark i Hconv). lia. }
    destruct (memcached_vdo_spec [get_command (memc c1); namespace (memc c1); key; crlf] true 0 i1)
      as (j & E & [Hw Hby Hfl _ Hr Hin Hcur _ Hres Hfd]); [done|by apply (as_before_writable _ _ Hb), Hconv|done| | |].
    { rewrite (ab_server _ _ Hb), (conv_idle i Hconv). lia. }
    { rewrite Etext, Nat.add_0_r. unfold filling. rewrite (ab_server _ _ Hb). by apply (as_before_takes _ _ Hb). }
    exists j. split; [done|]. split; [done|]. split; [|done]. specialize (Hfl eq_refl).
    destruct (as_before_written _ _ Hb) as (Hwr & _ & _).
    split; [by rewrite Hfd, (ab_server _ _ Hb)|..]; unfold only; rewrite fn_lookup_insert.
    - unfold written in Hby at 1. rewrite Hfl, app_nil_r in Hby. by rewrite Hby, Hwr, Etext.
    - split; [apply Hw|by apply flushed_offset| |by rewrite Hin, (as_before_incoming _ _ Hb)].
      rewrite Hcur, (ab_server _ _ Hb), (conv_idle i Hconv), Hroot1, Fr, Fp, <-Hroot.
      by rewrite (conv_reply i Hconv), (conv_piped i Hconv). }
  destruct (on_server_stands (fun l i0 i => instance_at c l = Some i0 /\ as_before i0 i)
    (asked (only l items) (fun _ => get_text (memc c) key) c)
    c c1 l i (memcached_vdo [get_command (memc c1); namespace (memc c1); key; crlf] true) MEMCACHED_SUCCESS
    (stands_known _ _ _ Hst1) Hi) as (c2 & E & Hst2 & _ & i1 & j & Hi1 & Ej & ->).
  - intros i1 Hi1 [_ Hb]. destruct (Hstep i1 Hi1 Hb) as (j & Ej & Hr & Ha' & _). by exists j.
  - intros l' i' i1 j. apply asked_as_before.
  - intros l' i' i1 Hl [Hi' Hb]. apply asked_not; try done. unfold only. by rewrite fn_lookup_insert_ne.
  - exists (put_back c1 l j). destruct (st_at _ _ _ Hst1 l i Hi) as (i1' & Hi1' & Hb).
    assert (i1' = i1) as -> by congruence. destruct (Hstep i1 Hi1 Hb) as (j' & Ej' & Hr & _ & Hres).
    assert (j' = j) as -> by congruence. split; [|split; [done|exact (put_back_handle c1 l i1 j Hi1 Hr Hres)]].
    assert (Hsf1 : server_for c1 key = Some (k, l)) by (by rewrite (alike_server_for c c1 key Ha (st_store _ _ _ Hst1))).
    unfold ascii_get_by_key. cbn [server_key_of].
    cio_do (hash_fixed key k l c1 ltac:(rewrite Fh; apply Hst) ltac:(rewrite Fd; apply Hst) Hsf1).
    apply server_for_spec in Hsf1 as [_ Hl1]. cio_do (instance_fetch_some k l c1 Hl1). cio_pure. cio_do E.
    by rewrite bool_decide_false by (intros Hne; by apply Hne).
Qed.

(** There is memory for copies of values up to the limit. *)
Definition copies_for : Prop := forall n, 0 <= n <= limit + 1 -> exists b, malloc n = Some b.

(** What the caller gets of an item: an empty value is NULL. *)
Definition given (v : bytes) : option bytes :=
  match v with [] => None | _ => Some (v ++ [Byte.x00]) end.

Section Loop.
Context (cb : client) (Hthere : all_there cb) (Hown : own_sockets cb).
Context (Hfetch : fetch_handle prefix (memc cb)) (Hmem : memory_for limit).
Context (Hcount : 0 <= memcached_server_count (memc cb)) (Hcopies : copies_for).

Lemma get_loop_end fuel inner g b ls D c :
  NoDup ls -> fetching prefix cb limit ls D c -> (debt ls D < inner)%nat ->
  (forall l, default [] (D l) = []) ->
  exists rc c', get_loop (S fuel) inner g b c
      = CDone ({| got_value := got_value g; got_length := got_length g; got_flags := got_flags g;
                  got_error := rc |}, b) c'
    /\ (rc = MEMCACHED_NOTFOUND \/ rc = MEMCACHED_END)
    /\ fetching prefix cb limit ls (fun _ => None) c'.
Proof.
  intros Hnd Hf Hin HD. cbn [get_loop].
  destruct (fetch_result_spec prefix cb Hthere Hown limit Hfetch Hmem Hcount None ls inner D c Hnd Hf Hin)
    as (D1 & Hs & [(l & it & items & c1 & HD1 & _)|(c1 & HD1 & E & Hf1)]).
  { exfalso. pose proof (settled_items D D1 l Hs) as Hi. by rewrite HD1, HD in Hi. }
  eexists _, c1. split; [cio_do E; reflexivity|]. split; [|by eapply fetching_none].
  destruct (result_count (memc_result c) =? 0); [by left|by right].
Qed.

Lemma get_loop_value fuel inner g b l k v f c :
  fetching prefix cb limit [l] (only l [(k, v, f)]) c -> (2 < inner)%nat ->
  exists rc c', get_loop (S (S fuel)) inner g b c
      = CDone ({| got_value := given v; got_length := Z.of_nat (length v); got_flags := f;
                  got_error := rc |}, true) c'
    /\ fetching prefix cb limit [l] (fun _ => None) c'.
Proof.
  intros Hf Hin. remember (S fuel) as fuel1 eqn:Efuel. cbn [get_loop].
  destruct (fetch_result_spec prefix cb Hthere Hown limit Hfetch Hmem Hcount None [l] inner
    (only l [(k, v, f)]) c (NoDup_singleton l) Hf) as (D1 & Hs & Hcase); [by rewrite only_debt|].
  assert (HDl : D1 l = Some [(k, v, f)]).
  { destruct (Hs l) as [E|[E _]]; unfold only in E; rewrite fn_lookup_insert in E; [done|discriminate]. }
  assert (HDo : forall l', l' <> l -> D1 l' = None).
  { intros l' Hl'. destruct (Hs l') as [E|[_ E]]; [|done]. unfold only in E. by rewrite fn_lookup_insert_ne in E. }
  destruct Hcase as [(l' & it & items & c1 & HD1 & E & Hf1 & Hlt & (_ & Hv & Hfl & Hmore) & _)|(c1 & HD1 & _)];
    [|by rewrite HD1 in HDl].
  assert (l' = l) as -> by (destruct (decide (l' = l)); [done|by rewrite HDo in HD1]).
  rewrite HDl in HD1. injection HD1 as <- <-. cbn [fst snd] in *. cio_do E. cbn [negb]. cio_pure.
  pose proof (ft_good _ _ _ _ _ _ Hf l [(k, v, f)] ltac:(by unfold only; rewrite fn_lookup_insert)) as Hg.
  apply Forall_cons in Hg as [Hg _]. pose proof (item_fits _ _ _ Hg) as Hfit. cbn [fst snd] in Hfit.
  destruct Hmore as [Hinv Hroom].
  assert (Hlen : memcached_string_length (item_value (memc_result c1)) = Z.of_nat (length v))
    by (rewrite <-Hv; unfold memcached_string_length, memcached_result_value; by rewrite value_length).
  destruct (string_take_value_ok (item_value (memc_result c1)) Hinv) as (s' & Et & Hi' & He'); [lia| |].
  { rewrite Hlen. apply Hcopies. lia. }
  assert (Ec : cchecked (memcached_string_take_value (item_value (memc_result c1))) c1
    = CDone (given v, s') c1) by (rewrite Et, <-Hv; unfold given, memcached_result_value; by destruct (memcached_string_value _)).
  cio_do Ec. cbv iota. cio_pure. subst fuel1.
  assert (Hl' : memcached_string_length s' = Z.of_nat (length v))
    by (unfold memcached_string_length in *; by rewrite He').
  destruct (get_loop_end fuel inner {| got_value := given v; got_length := memcached_string_length s';
    got_flags := item_flags (memc_result c1); got_error := MEMCACHED_SUCCESS |} true [l]
    (<[l := Some []]> D1) (c1 <| memc_result ::= fun r => r <| item_value := s' |> |>)) as (rc & c' & El & _ & Hf').
  { apply NoDup_singleton. }
  { apply fetching_result; [done|]. destruct (ft_tidy _ _ _ _ _ _ Hf1) as (_ & A & B). by split. }
  { rewrite only_debt in Hlt. cbn [length] in Hlt. lia. }
  { intros l'. destruct (decide (l' = l)) as [->|Hne]; [by rewrite fn_lookup_insert|].
    by rewrite fn_lookup_insert_ne, HDo. }
  exists rc, c'. split; [|done]. rewrite <-Hl', <-Hfl. exact El.
Qed.
End Loop.

Lemma assert_query_holds q c : query_id (memc c) = u64 (q + 1) -> assert_query q c = CDone tt c.
Proof. intros Hq. unfold assert_query. cio_pure. rewrite Hq, Z.ltb_irrefl. done. Qed.

(** What was asked for and has come leaves the servers with nothing. *)
Lemma asked_served ls D T c0 c2 c' :
  stands (asked D T c0) c0 c2 -> fetching prefix c2 limit ls (fun _ => None) c' ->
  stands (served D T c0) c0 c'.
Proof.
  intros Hst Hf. eapply stands_trans; [|exact Hst|apply Hf].
  intros l i1 i2 i3 _ _ [Hfd Hs _] (Hfd' & Hs' & Ho). split; [congruence|congruence|].
  intros Hp. apply Ho. by apply (alike_polled c0 c2); [apply Hst|].
Qed.

(** The items that a server has for a key. *)
Definition answered (key : bytes) (answer : option (bytes * Z)) : list item :=
  match answer with Some (v, f) => [(key, v, f)] | None => [] end.

(** C9: [memcached_get] over the text protocol: the server of the key is sent exactly
    the command, with the prefix of the handle, and no other server is sent anything;
    the caller gets the bytes of the value and a NUL, their number and the flags, and
    success, or nothing and [MEMCACHED_NOTFOUND] if the server has none; in the end no
    server owes anything and nothing is left to be read.  An empty value is NULL. *)
Theorem memcached_get_gets (fuel inner : nat) (wants_length wants_flags : bool) (key : bytes)
    (answer : option (bytes * Z)) k l c i :
  steady c -> all_there c -> own_sockets c -> resting c -> fetch_handle prefix (memc c) ->
  memory_for limit -> copies_for -> tidy (memc_result c) -> Forall fair (readies c) -> callbacks = None ->
  memcached_key_test (memc c) (Some [key]) = MEMCACHED_SUCCESS ->
  server_for c key = Some (k, l) -> polled c l -> instance_at c l = Some i -> conversing i ->
  takes (filling i + length (get_text (memc c) key)) i ->
  Forall (good_item prefix limit) (answered key answer) -> incoming i = stream prefix (answered key answer) ->
  exists c',
    memcached_get (S (S fuel)) (S (S (S inner))) None wants_length wants_flags key c
    = CDone (match answer with
             | Some (v, f) => {| got_value := given v; got_length := Z.of_nat (length v);
                                 got_flags := f; got_error := MEMCACHED_SUCCESS |}
             | None => nothing MEMCACHED_NOTFOUND
             end) c'
    /\ stands (served (only l (answered key answer)) (fun _ => get_text (memc c) key) c) c c'.
Proof.
  intros Hst Hthere Hown Hrest Hfh Hmem Hcop Htidy Hfair Hcb Hk Hsf Hp Hi Hconv Ht Hgood Hinc.
  destruct (before_get_query_valid [key] c Hst) as (c1 & E1 & Hst1 & Hh1); [apply Hfh|done|done|by apply resting_idle|].
  destruct (ascii_get_asks key k l c c1 i (answered key answer)) as (c2 & E2 & Hst2 & Hh2); [done..|].
  pose proof (handle_as_before_trans _ _ _ Hh1 Hh2) as (Hq & Hres & Hrd).
  pose proof (asked_there _ _ _ _ Hst2 Hthere) as Hthere2.
  pose proof (asked_sockets _ _ _ _ Hst2 Hthere Hown) as Hown2.
  pose proof (fetch_handle_alike prefix c Hfh _ (st_handle _ _ _ Hst2)) as Hfh2.
  assert (Hf2 : fetching prefix c2 limit [l] (only l (answered key answer)) c2).
  { apply (asked_fetching [l] _ (fun _ => get_text (memc c) key) c); try done; [by rewrite Hres| | |by rewrite Hrd|cbn; lia].
    - intros l'. by apply only_asked.
    - intros l' its. unfold only. destruct (decide (l' = l)) as [->|Hne].
      + rewrite fn_lookup_insert. by intros [= <-].
      + by rewrite fn_lookup_insert_ne. }
  assert (Hcnt : 0 <= memcached_server_count (memc c2)).
  { rewrite (alike_count _ _ (st_handle _ _ _ Hst2)). pose proof (steady_servers c Hst). lia. }
  assert (Hloop : exists rc c', get_loop (S (S fuel)) (S (S (S inner))) (nothing MEMCACHED_SUCCESS) false c2
      = CDone (match answer with
               | Some (v, f) => {| got_value := given v; got_length := Z.of_nat (length v);
                                   got_flags := f; got_error := rc |}
               | None => nothing rc
               end, bool_decide (answer <> None)) c'
      /\ (answer = None -> rc = MEMCACHED_NOTFOUND \/ rc = MEMCACHED_END)
      /\ fetching prefix c2 limit [l] (fun _ => None) c').
  { destruct answer as [[v f]|].
    - destruct (get_loop_value c2 Hthere2 Hown2 Hfh2 Hmem Hcnt Hcop fuel (S (S (S inner)))
        (nothing MEMCACHED_SUCCESS) false l key v f c2 Hf2) as (rc & c' & E & Hf'); [lia|]. by exists rc, c'.
    - destruct (get_loop_end c2 Hthere2 Hown2 Hfh2 Hmem Hcnt (S fuel) (S (S (S inner)))
        (nothing MEMCACHED_SUCCESS) false [l] _ c2 (NoDup_singleton l) Hf2) as (rc & c' & E & Hrc & Hf').
      + rewrite only_debt. cbn. lia.
      + intros l'. unfold only. destruct (decide (l' = l)) as [->|Hne];
          [by rewrite fn_lookup_insert|by rewrite fn_lookup_insert_ne].
      + by exists rc, c'. }
  destruct Hloop as (rc & c' & E3 & Hrc & Hf'). exists c'. split; [|by eapply asked_served].
  unfold memcached_get, memcached_get_by_key. cio_do (steady_update c Hst). cio_pure. cio_do E1.
  change (memcached_failed MEMCACHED_SUCCESS) with false. cbv iota. cbn [master_server]. cio_pure. cio_pure.
  destruct (alike_same _ _ (st_handle _ _ _ Hst1)) as (Fb & _). rewrite Fb, (fh_text _ _ Hfh). cio_do E2.
  cio_do (assert_query_holds (query_id (memc c)) c2 Hq). change (memcached_failed MEMCACHED_SUCCESS) with false.
  cbv iota. cio_do E3. cbv iota.
  cio_do (assert_query_holds (query_id (memc c)) c' ltac:(rewrite (ft_query _ _ _ _ _ _ Hf'); exact Hq)).
  destruct answer as [[v f]|].
  - rewrite bool_decide_true by done. cbn [got_value got_length got_flags got_error]. by destruct (given v).
  - rewrite bool_decide_false by (intros Hne; by apply Hne). by destruct (Hrc eq_refl) as [-> | ->].
Qed.
End Asking.

(** ** A concrete handle *)

#[local] Existing Instance some_environment.
#[local] Existing Instance all_hashes.

Lemma example_copies : copies_for 1000000.
Proof. intros n Hn. cbn [malloc example_allocator]. rewrite (proj2 (Z.leb_le _ _)) by lia. eauto. Qed.

(** A handle with one server. *)
Lemma one_client_position e x l :
  0 <= x < memcached_server_count (memc (some_client [e])) ->
  memcached_server_instance_fetch (memc (some_client [e])) x = Some l -> x = 0 /\ l = Listed 0.
Proof.
  change (memcached_server_count (memc (some_client [e]))) with 1. intros Hx Hl.
  assert (x = 0) as -> by lia. split; [done|]. change (Some (Listed 0) = Some l) in Hl. by injection Hl as <-.
Qed.

Lemma one_client_there e : all_there (some_client [e]).
Proof.
  intros x. change (memcached_server_count (memc (some_client [e]))) with 1. intros Hx.
  assert (x = 0) as -> by lia. destruct (some_client_at [e] 0 e eq_refl) as (i & Hi & _).
  exists (Listed 0), i. by split.
Qed.

Lemma one_client_sockets e : own_sockets (some_client [e]).
Proof.
  intros x y l l' i i' Hx Hl Hy Hl' _ _ _ _. destruct (one_client_position e x l Hx Hl) as [-> _].
  by destruct (one_client_position e y l' Hy Hl') as [-> _].
Qed.

Lemma one_client_resting e : resting (some_client [e]).
Proof.
  intros l i (x & Hx & Hl) Hi. destruct (one_client_position e x l Hx Hl) as [_ ->].
  destruct (some_client_at [e] 0 e eq_refl) as (j & Hj & Hb). assert (i = j) as -> by congruence.
  pose proof (ab_server _ _ Hb) as Es. split; rewrite Es; reflexivity.
Qed.

Lemma memcached_get_gets_witness :
  exists c',
    memcached_get 2 3 None true true (str "k") (some_client [answering (stream [] [(str "k", str "value", 7)])])
    = CDone {| got_value := Some (str "value" ++ [Byte.x00]); got_length := 5; got_flags := 7;
               got_error := MEMCACHED_SUCCESS |} c'
    /\ stands (served (only (Listed 0) [(str "k", str "value", 7)])
                 (fun _ => get_text (memc (some_client [answering (stream [] [(str "k", str "value", 7)])])) (str "k"))
                 (some_client [answering (stream [] [(str "k", str "value", 7)])]))
         (some_client [answering (stream [] [(str "k", str "value", 7)])]) c'.
Proof.
  set (e := answering (stream [] [(str "k", str "value", 7)])).
  destruct (some_client_at [e] 0 e eq_refl) as (i & Hi & Hb).
  refine (memcached_get_gets [] 1000000 0 0 true true (str "k") (Some (str "value", 7)) 0 (Listed 0)
    (some_client [e]) i _ (one_client_there e) (one_client_sockets e) (one_client_resting e) _ example_memory
    example_copies _ _ _ _ _ _ Hi _ _ _ _).
  - apply steady_some_client. cbn. lia.
  - split; [reflexivity..|constructor].
  - split; [by split|]. split; reflexivity.
  - constructor.
  - reflexivity.
  - reflexivity.
  - reflexivity.
  - exists 0. split; [|reflexivity]. change (memcached_server_count (memc (some_client [e]))) with 1. lia.
  - eapply opened_conversing; [exact Hb|by rewrite (instance_at_root _ _ _ Hi)].
  - destruct (as_before_written _ _ Hb) as (_ & _ & ->). apply (as_before_takes _ _ Hb). vm_compute. reflexivity.
  - repeat constructor; cbn; unfold MEMCACHED_MAX_KEY; lia.
  - rewrite (as_before_incoming _ _ Hb). vm_compute. reflexivity.
Defined.

(** ** What the code does not do *)

(** What a server is sent. *)
Definition sent_to_server (k : nat) {A} (r : client_result A) : bytes :=
  match r with CDone _ c => net_sent (nets c (Listed k)) | _ => [] end.

(** Servers that know [mget]. *)
Definition modern (c : client) : client :=
  c <| memc ::= fun m => m <| servers ::= fmap (fun s =>
    s <| major_version := 1 |> <| minor_version := 13 |> <| micro_version := 0 |>) |> |>.

(** With a group key all the keys are sent to its server, but what is announced was
    counted for the servers of the keys: of the three keys only those two that belong
    to that server themselves. *)
Lemma mget_group_key_count :
  sent_to_server 1 (memcached_mget_by_key (Some (str "b")) [str "a"; str "b"; str "c"]
    (modern (polled_client 0 [Sent 1000] [[]; []] [])))
  = str "mget 3 2" ++ crlf ++ str "a b c" ++ crlf.
Proof. vm_compute. reflexivity. Qed.

(** An error of the server is not told from a value that is not there. *)
Lemma get_hides_server_error :
  match memcached_get 2 3 None true true (str "k") (some_client [answering (str "SERVER_ERROR oops" ++ crlf)]) with
  | CDone g _ => g = nothing MEMCACHED_NOTFOUND
  | _ => False
  end.
Proof. vm_compute. reflexivity. Qed.

(** A callback for keys that are not there needs the pointers to the length and the
    flags, which the caller may leave out. *)
Lemma get_key_failure_null :
  memcached_get 2 3 (Some (fun _ => mret MEMCACHED_SUCCESS)) false false (str "k")
    (some_client [([Sent 1000; Sent 1000], [Received (str "END" ++ crlf); Received (str "STORED" ++ crlf)], [])])
  = CCrash.
Proof. vm_compute. reflexivity. Qed.
