(* ===== verification/Mget.v ===== *)
(** What is asked for with one request is what is sent: the requests of
    [memcached_mget], and what is fetched afterwards. *)
From Stdlib Require Import Strings.Byte.
From stdpp Require Import functions.
From S2P Require Import Prelude HashFunctions Hashkit Memcached Text KeyHash Continuum Distribution.
From S2P Require Import ServerList Rgroup Error StringBuf Result Io Response Write Client Command.
From S2P Require Import Behavior Storage Fetch KeyCommands Get.

(** ** The line of a request *)

(** The keys with the prefix, separated by spaces. *)
Definition joined (prefix : bytes) (keys : list bytes) : bytes :=
  match keys with
  | [] => []
  | key :: keys => prefix ++ key ++ mjoin ((fun k => " "%byte :: prefix ++ k) <$> keys)
  end.

Lemma joined_snoc prefix keys key :
  keys <> [] -> joined prefix (keys ++ [key]) = joined prefix keys ++ " "%byte :: prefix ++ key.
Proof.
  destruct keys as [|k keys]; [done|]. intros _. cbn [app joined]. rewrite fmap_app, join_app.
  cbn [fmap list_fmap mjoin list_join]. by rewrite app_nil_r, <-!app_assoc.
Qed.

(** What the loop over the keys counts: the keys with the prefix and a byte each. *)
Definition key_bytes (prefix : bytes) (keys : list bytes) : Z :=
  Z.of_nat (sum_list_with (fun key => length prefix + length key + 1)%nat keys).

Lemma joined_length prefix keys :
  keys <> [] -> Z.of_nat (length (joined prefix keys)) = key_bytes prefix keys - 1.
Proof.
  assert (Htail : forall keys, length (mjoin ((fun k => " "%byte :: prefix ++ k) <$> keys))
    = sum_list_with (fun key => length prefix + length key + 1)%nat keys).
  { clear. induction keys as [|k keys IH]; [done|]. cbn [fmap list_fmap mjoin list_join sum_list_with].
    rewrite <-IH, !length_app. cbn [length]. rewrite length_app. cbn. by rewrite (Nat.add_comm _ 1). }
  destruct keys as [|k keys]; [done|]. intros _. unfold key_bytes. cbn [joined].
  rewrite !length_app, Htail. change (sum_list_with ?f (k :: keys)) with (f k + sum_list_with f keys)%nat.
  cbv beta. lia.
Qed.

(** The oldest version of a server that has [mget], or [mgets] for the CAS values: in
    the enterprise edition, and in the community edition. *)
Definition oldest_mget (cas enterprise : bool) : Z * Z :=
  match cas, enterprise with
  | false, true => (0, 7)
  | true, true => (0, 9)
  | false, false => (1, 11)
  | true, false => (1, 13)
  end.

(** A server whose version is known (255 says that it is not) and not older than that. *)
Definition knows_mget (cas : bool) (s : memcached_server_st) : Prop :=
  let '(major, minor) := oldest_mget cas (is_enterprise s) in
  major_version s <> 255 /\ minor_version s <> 255
  /\ (major < major_version s \/ major = major_version s /\ minor <= minor_version s).

#[export] Instance knows_mget_dec cas s : Decision (knows_mget cas s).
Proof. unfold knows_mget. destruct (oldest_mget _ _). apply _. Defined.

Lemma mget_supported ptr s :
  mget_command_is_supported ptr s = bool_decide (knows_mget (support_cas (flags ptr)) s).
Proof.
  unfold mget_command_is_supported, knows_mget, oldest_mget, UINT8_MAX.
  apply eq_iff_eq_true. rewrite bool_decide_eq_true.
  destruct (support_cas (flags ptr)), (is_enterprise s);
    (destruct (Z.eqb_spec (major_version s) 255); [cbn; split; [done|lia]|]);
    (destruct (Z.eqb_spec (minor_version s) 255); [cbn; split; [done|lia]|]);
    cbn [orb]; rewrite orb_true_iff, andb_true_iff; lia.
Qed.

(** ** On one server *)

(** Part of a request was written: [m] bytes more will be taken. *)
Record inflight (sofar : bytes) (m : nat) (i0 i : instance) : Prop := {
  fl_writable : writable i;
  fl_written : written i = written i0 ++ sofar;
  fl_cursor : cursor_active (server i) = 1;
  fl_takes : takes (filling i + m) i;
  fl_incoming : incoming i = incoming i0;
  fl_fd : fd (server i) = fd (server i0);
}.

Section OneServer.
Context `{HE : Environment} `{HA : Allocator} `{HS : !Stack}.

Lemma inflight_as_before sofar m i0 i j : inflight sofar m i0 i -> as_before i j -> inflight sofar m i0 j.
Proof.
  intros [A B C F G H] Hb. pose proof (ab_server _ _ Hb) as Es.
  destruct (as_before_written _ _ Hb) as (Hw & _ & Hf). split; [|by rewrite Hw|by rewrite Es| |..].
  - by apply (as_before_writable _ _ Hb).
  - rewrite Hf. by apply (as_before_takes _ _ Hb).
  - by rewrite (as_before_incoming _ _ Hb).
  - by rewrite Es.
Qed.

(** The first key. *)
Lemma mget_first_key_written lenkeys numkeys key header m i0 i :
  callbacks = None -> conversing i0 -> as_before i0 i -> 1 < io_msg_watermark (root i) ->
  mget_header (root i) (mget_command_is_supported (root i) (server i)) lenkeys numkeys = header ->
  takes (filling i0 + length (header ++ namespace (root i) ++ key) + m) i0 ->
  exists j, mget_first_key lenkeys numkeys key i = Done (Some true, MEMCACHED_SUCCESS) j
    /\ root j = root i /\ root_result j = root_result i
    /\ inflight (header ++ namespace (root i) ++ key) m i0 j.
Proof.
  intros Hcb Hconv Hb Hwm Hh Ht. unfold mget_first_key.
  assert (Hw : writable i) by apply (as_before_writable _ _ Hb), Hconv.
  assert (Hcur : cursor_active (server i) = 0) by (by rewrite (ab_server _ _ Hb), (conv_idle i0)).
  destruct (as_before_written _ _ Hb) as (Hwr & _ & Hfi).
  io_do (connect_open i Hw). change (memcached_failed MEMCACHED_SUCCESS) with false. cbv iota. io_pure.
  unfold id. rewrite Hh.
  destruct (writev_wrote [header; namespace (root i); key] false m i Hcb Hw) as (i1 & E & H1 & _).
  { right. right. rewrite Hcur. lia. }
  { cbn [mjoin list_join]. rewrite app_nil_r, Hfi. by apply (as_before_takes _ _ Hb). }
  cbn [mjoin list_join] in *. rewrite app_nil_r in *. io_do E. cbv iota.
  destruct (wrote_commanded _ false true m i i1 ltac:(rewrite Hcur; lia) H1 ltac:(done))
    as (j & Ej & [Hw' Hby _ Ht' Hr Hin Hcur' _ Hres Hfd]).
  cbv iota in Ej. exists j. io_do Ej. split; [done|]. split; [done|]. split; [done|].
  split; [done|by rewrite Hby, Hwr| |done|by rewrite Hin, (as_before_incoming _ _ Hb)
         |by rewrite Hfd, (ab_server _ _ Hb)].
  by rewrite Hcur', Hcur.
Qed.

(** Another key. *)
Lemma mget_next_key_written sofar key m i0 i :
  callbacks = None -> 1 < io_msg_watermark (root i) ->
  inflight sofar (length (" "%byte :: namespace (root i) ++ key) + m) i0 i ->
  exists j, mget_next_key key i = Done true j /\ root j = root i /\ root_result j = root_result i
    /\ inflight (sofar ++ " "%byte :: namespace (root i) ++ key) m i0 j.
Proof.
  intros Hcb Hwm [Hw Hby Hcur Ht Hin Hfd]. unfold mget_next_key. io_pure.
  destruct (writev_wrote [str " "; namespace (root i); key] false m i Hcb Hw) as (j & E & H1 & _).
  { by apply quiet_one. }
  { cbn [mjoin list_join]. rewrite app_nil_r. by rewrite <-Nat.add_assoc. }
  cbn [mjoin list_join] in *. rewrite app_nil_r in *. io_do E. cbv iota.
  destruct H1 as [Hw' (U1 & U2 & _ & _ & U5 & U6 & _ & U8) Hb' Ht']. exists j.
  split; [done|]. split; [done|]. split; [done|].
  split; [done|by rewrite Hb', Hby, <-app_assoc|by rewrite U6|done|by rewrite U2|by rewrite U5].
Qed.

(** The end of the line, and everything is sent. *)
Lemma mget_line_end sofar i0 i :
  callbacks = None -> 1 < io_msg_watermark (root i) -> inflight sofar (length crlf) i0 i ->
  exists n j, memcached_io_write crlf true i = Done (Some n) j /\ root j = root i
    /\ root_result j = root_result i /\ fd (server j) = fd (server i0)
    /\ sent j = written i0 ++ sofar ++ crlf /\ connected j /\ write_buffer_offset (server j) = 0
    /\ cursor_active (server j) = 1 /\ incoming j = incoming i0.
Proof.
  intros Hcb Hwm [Hw Hby Hcur Ht Hin Hfd].
  destruct (io_write_wrote crlf true 0 i Hcb Hw) as (j & E & [Hw' (U1 & U2 & _ & _ & U5 & U6 & _ & U8) Hb' _] & Hz).
  { by apply quiet_one. }
  { by rewrite Nat.add_0_r. }
  exists (length crlf), j. split; [done|]. split; [done|]. split; [done|]. split; [congruence|].
  assert (Hun : unflushed j = []) by (unfold unflushed; by rewrite Hz).
  split; [|split; [apply Hw'|split; [by apply flushed_offset|split; congruence]]].
  unfold written in Hb' at 1. rewrite Hun, app_nil_r in Hb'. by rewrite Hb', Hby, <-app_assoc.
Qed.
End OneServer.

(** ** What is counted *)

Definition keys_of (ks : list Z) (keys : list bytes) (k : Z) : list bytes :=
  (filter (fun p => p.1 = k) (zip ks keys)).*2.

Lemma keys_of_cons k0 ks key keys k :
  keys_of (k0 :: ks) (key :: keys) k = (if decide (k0 = k) then [key] else []) ++ keys_of ks keys k.
Proof. unfold keys_of. cbn [zip zip_with]. rewrite filter_cons. cbn [fst]. by destruct (decide (k0 = k)). Qed.

Lemma key_bytes_cons prefix key keys :
  key_bytes prefix (key :: keys) = Z.of_nat (length prefix) + Z.of_nat (length key) + 1 + key_bytes prefix keys.
Proof. unfold key_bytes. change (sum_list_with ?f (key :: keys)) with (f key + sum_list_with f keys)%nat. cbv beta. lia. Qed.

Lemma count_keys_spec prefix keys : forall ks L N,
  length ks = length keys -> length L = length N -> Forall (fun k => 0 <= k < Z.of_nat (length L)) ks ->
  exists L' N', count_keys (Z.of_nat (length prefix)) keys ks L N = Some (L', N')
    /\ forall k a b, 0 <= k -> L !! Z.to_nat k = Some (u32 a) -> N !! Z.to_nat k = Some (u16 b) ->
         L' !! Z.to_nat k = Some (u32 (a + key_bytes prefix (keys_of ks keys k)))
         /\ N' !! Z.to_nat k = Some (u16 (b + Z.of_nat (length (keys_of ks keys k)))).
Proof.
  induction keys as [|key keys IH]; intros [|k0 ks] L N Hlen HLN Hk; try done.
  { exists L, N. split; [done|]. intros k a b _ HL HN. unfold keys_of. cbn. by rewrite !Z.add_0_r. }
  apply Forall_cons in Hk as [Hk0 Hks]. cbn [count_keys].
  destruct (lookup_lt_is_Some_2 L (Z.to_nat k0)) as (x & Hx); [lia|].
  destruct (lookup_lt_is_Some_2 N (Z.to_nat k0)) as (y & Hy); [lia|].
  rewrite Hx, Hy. cbn [mbind option_bind].
  destruct (IH ks (<[Z.to_nat k0 := x ⊞ u32 (Z.of_nat (length prefix) + Z.of_nat (length key) + 1)]> L)
    (<[Z.to_nat k0 := u16 (y + 1)]> N)) as (L' & N' & E & Hspec).
  { by injection Hlen. }
  { by rewrite !length_insert. }
  { by rewrite length_insert. }
  exists L', N'. split; [done|]. intros k a b Hk Ha Hb. rewrite keys_of_cons.
  destruct (decide (k0 = k)) as [->|Hne].
  - rewrite Ha in Hx. rewrite Hb in Hy. injection Hx as <-. injection Hy as <-.
    specialize (Hspec k (a + (Z.of_nat (length prefix) + Z.of_nat (length key) + 1)) (b + 1) Hk).
    rewrite !list_lookup_insert_eq in Hspec by (by apply lookup_lt_is_Some; eauto).
    cbn [app length]. rewrite key_bytes_cons, Nat2Z.inj_succ.
    destruct Hspec as [HL HN].
    + f_equal. unfold u32. by rewrite <-Zplus_mod.
    + f_equal. unfold u16. by rewrite Zplus_mod_idemp_l.
    + rewrite HL, HN. split; do 2 f_equal; lia.
  - specialize (Hspec k a b Hk). rewrite !list_lookup_insert_ne in Hspec by lia. by apply Hspec.
Qed.

(** ** On many servers *)

Section ManyServers.
Context `{HE : Environment} `{HA : Allocator} `{HQ : Qsort} `{HB : BuildConfig}.
Context `{HS : !Stack} `{HU : !Surroundings}.
Context (prefix : bytes) (c0 : client) (keys : list bytes) (items : location -> list item).

(** Where a key belongs. *)
Definition place (key : bytes) : Z * location := default (0, Listed 0) (server_for c0 key).
Definition position (key : bytes) : Z := (place key).1.
Definition location_of (key : bytes) : location := (place key).2.

Definition at_location (l : location) (ks : list bytes) : list bytes :=
  filter (fun key => location_of key = l) ks.

Abbreviation keys_at l := (at_location l keys).

Definition header_for (l : location) : bytes :=
  match server_at (memc c0) l with
  | None => []
  | Some s =>
      let cas := support_cas (flags (memc c0)) in
      if decide (knows_mget cas s)
      then str (if cas then "mgets" else "mget") ++ str " "
           ++ print_u32 (Z.of_nat (length (joined prefix (keys_at l))))
           ++ str " " ++ print_u32 (Z.of_nat (length (keys_at l))) ++ crlf
      else get_word cas
  end.

(** The request that a server gets. *)
Definition request_for (l : location) : bytes := header_for l ++ joined prefix (keys_at l) ++ crlf.

(** What the servers owe afterwards. *)
Definition asked_for : debts := fun l => match keys_at l with [] => None | _ => Some (items l) end.

(** The keys can be sent in one request to each of the servers they belong to. *)
Record askable : Prop := {
  ak_steady : steady c0;
  ak_there : all_there c0;
  ak_sockets : own_sockets c0;
  ak_resting : resting c0;
  ak_handle : fetch_handle prefix (memc c0);
  ak_callbacks : callbacks = None;
  ak_some : keys <> [];
  ak_valid : memcached_key_test (memc c0) (Some keys) = MEMCACHED_SUCCESS;
  ak_placed : Forall (fun key => exists k l, server_for c0 key = Some (k, l)
                        /\ 0 <= k < memcached_server_count (memc c0)) keys;
  ak_servers : forall key i, key ∈ keys -> instance_at c0 (location_of key) = Some i ->
    conversing i /\ takes (filling i + length (request_for (location_of key))) i
    /\ incoming i = stream prefix (items (location_of key));
  ak_few : memcached_server_count (memc c0) <= Z.of_nat MAX_SERVERS_FOR_MULTI_KEY_OPERATION;
  ak_number : Z.of_nat (length keys) < 2 ^ 16;
  ak_bytes : key_bytes prefix keys < 2 ^ 32;
  ak_memory : is_Some (malloc (4 * Z.of_nat (length keys)));
}.

Context (Hask : askable).

Lemma key_placed key :
  key ∈ keys -> server_for c0 key = Some (position key, location_of key)
    /\ 0 <= position key < memcached_server_count (memc c0)
    /\ memcached_server_instance_fetch (memc c0) (position key) = Some (location_of key)
    /\ exists i, instance_at c0 (location_of key) = Some i /\ conversing i.
Proof.
  intros Hin. destruct (proj1 (Forall_forall _ _) (ak_placed Hask) key Hin) as (k & l & Hf & Hk).
  assert (Hpl : place key = (k, l)) by (unfold place; by rewrite Hf).
  pose proof (server_for_spec key k l c0 Hf) as [_ Hl]. unfold position, location_of. rewrite Hpl. cbn [fst snd].
  split; [done|]. split; [done|]. split; [done|].
  destruct (ak_there Hask k Hk) as (l' & i & Hl' & Hi). assert (l' = l) as -> by congruence.
  exists i. split; [done|]. apply (ak_servers Hask key i Hin). unfold location_of. by rewrite Hpl.
Qed.

Lemma same_place a b : a ∈ keys -> b ∈ keys -> position a = position b <-> location_of a = location_of b.
Proof.
  intros Ha Hb. destruct (key_placed a Ha) as (_ & Hpa & Hla & i & Hi & Hc).
  destruct (key_placed b Hb) as (_ & Hpb & Hlb & j & Hj & _). split; [congruence|]. intros E.
  assert (i = j) as -> by congruence.
  eapply (ak_sockets Hask); try done. apply (conv_writable j Hc).
Qed.

Lemma at_location_none l ks : at_location l ks = [] <-> Forall (fun key => location_of key <> l) ks.
Proof.
  unfold at_location. split.
  - intros E. apply Forall_forall. intros key Hin Hl.
    assert (Hf : key ∈ filter (fun key => location_of key = l) ks) by (by apply list_elem_of_filter).
    rewrite E in Hf. by apply elem_of_nil in Hf.
  - intros Hf. induction Hf as [|key ks Hk Hf IH]; [done|]. by rewrite filter_cons_False.
Qed.

Lemma keys_by_position key :
  key ∈ keys -> keys_of (position <$> keys) keys (position key) = keys_at (location_of key).
Proof.
  intros Hin. assert (Hsub : forall ks, (forall k, k ∈ ks -> k ∈ keys) ->
    keys_of (position <$> ks) ks (position key) = at_location (location_of key) ks).
  { induction ks as [|k ks IH]; intros Hks; [done|]. cbn [fmap list_fmap]. rewrite keys_of_cons.
    change (list_fmap _ _ position ks) with (position <$> ks).
    rewrite IH by (intros; apply Hks; by apply elem_of_cons; right).
    unfold at_location. rewrite filter_cons.
    pose proof (same_place k key (Hks k ltac:(apply elem_of_cons; by left)) Hin) as Hs.
    destruct (decide (position k = position key)) as [E|E], (decide (location_of k = location_of key)) as [E'|E'];
      try done; by apply Hs in E || by apply Hs in E'. }
  by apply Hsub.
Qed.

Lemma server_keys_placed c ks :
  alike (memc c0) (memc c) -> client_store c = client_store c0 -> (forall k, k ∈ ks -> k ∈ keys) ->
  server_keys_of None ks c = CDone (position <$> ks) c.
Proof.
  intros Ha Hs. induction ks as [|key ks IH]; intros Hks; [done|].
  destruct (key_placed key (Hks key ltac:(apply elem_of_cons; by left))) as (Hf & _).
  destruct (alike_same _ _ Ha) as (_ & _ & _ & _ & _ & Fh & Fd & _).
  cbn [server_keys_of server_key_of].
  rewrite <-(alike_server_for c0 c key Ha Hs) in Hf.
  cio_do (hash_fixed key _ _ c ltac:(rewrite Fh; apply (ak_steady Hask)) ltac:(rewrite Fd; apply (ak_steady Hask)) Hf).
  cio_do (IH ltac:(intros k Hk; apply Hks; apply elem_of_cons; by right)). done.
Qed.

(** What was written for a server, and how much is to come. *)
Definition sofar (l : location) (ks : list bytes) : bytes := header_for l ++ joined prefix ks.
Definition left_over (l : location) (ks : list bytes) : nat := length (request_for l) - length (sofar l ks).

Lemma joined_app_length ks ks' :
  (length (joined prefix ks) <= length (joined prefix (ks ++ ks')))%nat.
Proof.
  destruct ks as [|k ks]; [cbn; lia|]. cbn [app joined]. rewrite fmap_app, join_app, !length_app. lia.
Qed.

Lemma at_location_app l ks ks' : at_location l (ks ++ ks') = at_location l ks ++ at_location l ks'.
Proof. apply filter_app. Qed.

Lemma sofar_length l done todo :
  keys = done ++ todo ->
  (length (sofar l (at_location l done)) + length crlf <= length (request_for l))%nat.
Proof.
  intros E. pose proof (joined_app_length (at_location l done) (at_location l todo)) as Hj.
  rewrite <-at_location_app, <-E in Hj. unfold sofar, request_for. rewrite !length_app. lia.
Qed.

Lemma left_over_all l : left_over l (keys_at l) = length crlf.
Proof. unfold left_over, sofar, request_for. rewrite !length_app. lia. Qed.

(** While the keys [done] were written. *)
Definition going (done : list bytes) (l : location) (i0 i : instance) : Prop :=
  match at_location l done with
  | [] => instance_at c0 l = Some i0 /\ as_before i0 i
  | ks => inflight (sofar l ks) (left_over l ks) i0 i
  end.

Lemma going_as_before done l i0 i j : going done l i0 i -> as_before i j -> going done l i0 j.
Proof.
  unfold going. destruct (at_location l done); [|apply inflight_as_before].
  intros [Hi Hb] Hb'. split; [done|]. by etransitivity.
Qed.

Lemma at_location_elsewhere l done key :
  location_of key <> l -> at_location l (done ++ [key]) = at_location l done.
Proof.
  intros Hl. rewrite at_location_app. unfold at_location at 2. rewrite filter_cons_False by done.
  by rewrite app_nil_r.
Qed.

Lemma at_location_here done key :
  at_location (location_of key) (done ++ [key]) = at_location (location_of key) done ++ [key].
Proof. rewrite at_location_app. unfold at_location at 2. by rewrite filter_cons_True. Qed.

(** The header that is written for a server. *)
Lemma header_written key i0 i L N :
  key ∈ keys -> instance_at c0 (location_of key) = Some i0 -> server i = server i0 -> alike (memc c0) (root i) ->
  L = u32 (key_bytes prefix (keys_at (location_of key))) ->
  N = u16 (Z.of_nat (length (keys_at (location_of key)))) ->
  mget_header (root i) (mget_command_is_supported (root i) (server i)) L N = header_for (location_of key).
Proof.
  intros Hin Hi Hs Ha -> ->. set (l := location_of key) in *.
  pose proof (instance_at_server c0 l i0 Hi) as Hsv. unfold header_for. rewrite Hsv, Hs.
  destruct (alike_same _ _ Ha) as (_ & _ & _ & _ & Fc & _).
  assert (Hsup : mget_command_is_supported (root i) (server i0) = mget_command_is_supported (memc c0) (server i0))
    by (unfold mget_command_is_supported; by rewrite Fc).
  rewrite Hsup, mget_supported. unfold mget_header, mget_command. rewrite get_command_word, Fc.
  rewrite decide_bool_decide. destruct (bool_decide (knows_mget _ _)); [|done].
  assert (Hne : keys_at l <> []).
  { intros E. apply at_location_none in E. rewrite Forall_forall in E. by apply (E key). }
  assert (Hsub : (length (keys_at l) <= length keys)%nat) by apply length_filter.
  assert (Hkb : key_bytes prefix (keys_at l) <= key_bytes prefix keys).
  { unfold at_location. generalize keys. intros ks. induction ks as [|k ks IH]; [done|]. rewrite filter_cons.
    rewrite (key_bytes_cons prefix k ks). destruct (decide _); [rewrite key_bytes_cons|]; lia. }
  pose proof (joined_length prefix (keys_at l) Hne) as Hj. pose proof (ak_number Hask). pose proof (ak_bytes Hask).
  assert (E1 : u32 (key_bytes prefix (keys_at l)) ⊟ 1 = Z.of_nat (length (joined prefix (keys_at l)))).
  { rewrite (u32_small (key_bytes _ _)) by lia. rewrite u32_small; lia. }
  assert (E2 : u16 (Z.of_nat (length (keys_at l))) = Z.of_nat (length (keys_at l))).
  { unfold u16. rewrite Z.mod_small; lia. }
  rewrite E1, E2. by destruct (support_cas (flags (memc c0))).
Qed.

Record counted (lenkeys numkeys : list Z) : Prop := {
  cn_bytes : forall key, key ∈ keys ->
    lenkeys !! Z.to_nat (position key) = Some (u32 (key_bytes prefix (keys_at (location_of key))));
  cn_number : forall key, key ∈ keys ->
    numkeys !! Z.to_nat (position key) = Some (u16 (Z.of_nat (length (keys_at (location_of key)))));
}.

(** Nothing has failed. *)
Definition unfailed (s : mget_state) (done : list bytes) : Prop :=
  hosts_failed s = replicate MAX_SERVERS_FOR_MULTI_KEY_OPERATION false
  /\ failures_occurred_in_sending s = false
  /\ 0 <= hosts_connected s <= Z.of_nat (length done) /\ (done <> [] -> 0 < hosts_connected s).

Lemma root_known done c l i0 i :
  stands (going done) c0 c -> instance_at c l = Some i -> instance_at c0 l = Some i0 ->
  alike (memc c0) (root i) /\ namespace (root i) = prefix /\ 1 < io_msg_watermark (root i).
Proof.
  intros Hst Hi _. rewrite (instance_at_root c l i Hi). pose proof (st_handle _ _ _ Hst) as Ha.
  destruct (alike_same _ _ Ha) as (_ & _ & _ & _ & _ & _ & _ & Fw & Fn).
  split; [done|]. split.
  - unfold namespace. rewrite Fn. apply (fh_prefix _ _ (ak_handle Hask)).
  - rewrite Fw. apply (fh_watermark _ _ (ak_handle Hask)).
Qed.

Lemma mget_key_written done todo key lenkeys numkeys s c :
  keys = done ++ key :: todo -> stands (going done) c0 c -> counted lenkeys numkeys -> unfailed s done ->
  exists s' c', mget_key None lenkeys numkeys (position key) key s c = CDone s' c'
    /\ stands (going (done ++ [key])) c0 c' /\ handle_as_before c c' /\ unfailed s' (done ++ [key]).
Proof.
  intros Hkeys Hst [Hlen Hnum] (Hhf & Hnf & Hhc & Hpos).
  assert (Hin : key ∈ keys) by (rewrite Hkeys; apply elem_of_app; right; apply elem_of_cons; by left).
  destruct (key_placed key Hin) as (_ & Hk & Hl & i0 & Hi0 & Hconv). set (l := location_of key) in *.
  destruct (ak_servers Hask key i0 Hin Hi0) as (_ & Htakes & _). fold l in Htakes.
  destruct (st_at _ _ _ Hst l i0 Hi0) as (i & Hi & Hgo).
  destruct (root_known done c l i0 i Hst Hi Hi0) as (Ha & Hns & Hwm).
  pose proof (ak_few Hask) as Hfew.
  unfold mget_key. cbn [default from_option id].
  assert (Ef : instance_fetch (position key) c = CDone l c)
    by (apply instance_fetch_some; by rewrite (alike_fetch _ _ _ (st_handle _ _ _ Hst))).
  cio_do Ef. cio_pure.
  assert (Elook : look l c = CDone (server i) c) by (unfold look; cio_pure; by rewrite (instance_at_server _ _ _ Hi)).
  cio_do Elook.
  assert (Efail : cchecked (hosts_failed s !! Z.to_nat (position key)) c = CDone false c).
  { rewrite Hhf, lookup_replicate_2; [done|]. lia. }
  cio_do Efail. rewrite andb_false_r. cbv iota.
  assert (Hhere : at_location l (done ++ [key]) = at_location l done ++ [key]) by apply at_location_here.
  pose proof (sofar_length l (done ++ [key]) todo ltac:(by rewrite <-app_assoc)) as Hsl.
  rewrite Hhere in Hsl.
  assert (Hother : forall l' i1 i2, l' <> l -> going done l' i1 i2 -> going (done ++ [key]) l' i1 i2).
  { intros l' i1 i2 Hl'. unfold going. by rewrite at_location_elsewhere. }
  destruct (at_location l done) as [|k0 ks] eqn:Edone.
  - unfold going in Hgo. rewrite Edone in Hgo. destruct Hgo as [_ Hb].
    rewrite (ab_server _ _ Hb), (conv_idle i0 Hconv). change (0 =? 0) with true. cbv iota.
    specialize (Hlen key Hin). specialize (Hnum key Hin). fold l in Hlen, Hnum.
    assert (Elen : cchecked (lenkeys !! Z.to_nat (position key)) c = CDone (u32 (key_bytes prefix (keys_at l))) c)
      by (by rewrite Hlen).
    assert (Enum : cchecked (numkeys !! Z.to_nat (position key)) c = CDone (u16 (Z.of_nat (length (keys_at l)))) c)
      by (by rewrite Hnum).
    cio_do Elen. cio_do Enum. cbn [app] in Hhere, Hsl.
    destruct (mget_first_key_written (u32 (key_bytes prefix (keys_at l))) (u16 (Z.of_nat (length (keys_at l)))) key
      (header_for l) (left_over l [key]) i0 i (ak_callbacks Hask) Hconv Hb Hwm) as (j & Ej & Hr & Hres & Hfl).
    { apply (header_written key i0); try done. by apply ab_server. }
    { rewrite Hns. unfold left_over. unfold sofar in *. cbn [joined fmap list_fmap mjoin list_join] in *.
      rewrite app_nil_r in *. by replace (filling i0 + _ + _)%nat with (filling i0 + length (request_for l))%nat by lia. }
    destruct (on_server_step (going done) (going (done ++ [key])) c0 c l i0 i
      (mget_first_key (u32 (key_bytes prefix (keys_at l))) (u16 (Z.of_nat (length (keys_at l)))) key)
      (Some true, MEMCACHED_SUCCESS) j) as (c' & E & Hst' & Hh); try done.
    { unfold going. rewrite Hhere. rewrite Hns in Hfl. unfold sofar. cbn [joined fmap list_fmap mjoin list_join].
      by rewrite app_nil_r. }
    { intros l' i1 i2 i3. apply going_as_before. }
    eexists _, c'. split; [cio_do E; cbv iota; reflexivity|]. split; [done|]. split; [done|].
    pose proof (ak_number Hask) as Hmax. apply (f_equal length) in Hkeys. rewrite length_app in Hkeys.
    cbn [length] in Hkeys.
    assert (Hu : u64 (hosts_connected s + 1) = hosts_connected s + 1) by (apply u64_small; lia).
    split; [exact Hhf|]. split; [exact Hnf|]. rewrite length_app. cbn [length hosts_connected update mget_state_fields].
    cbn. rewrite Hu. lia.
  - unfold going in Hgo. rewrite Edone in Hgo. rewrite (fl_cursor _ _ _ _ Hgo). change (1 =? 0) with false. cbv iota.
    assert (Hjoin : sofar l ((k0 :: ks) ++ [key]) = sofar l (k0 :: ks) ++ " "%byte :: prefix ++ key).
    { unfold sofar. by rewrite joined_snoc, app_assoc. }
    destruct (mget_next_key_written (sofar l (k0 :: ks)) key (left_over l ((k0 :: ks) ++ [key])) i0 i
      (ak_callbacks Hask) Hwm) as (j & Ej & Hr & Hres & Hfl).
    { rewrite Hns. unfold left_over in *. rewrite Hjoin, !length_app in *.
      by replace (length (" "%byte :: prefix ++ key) + _)%nat
        with (length (request_for l) - length (sofar l (k0 :: ks)))%nat by (cbn [length] in *; lia). }
    rewrite Hns, <-Hjoin in Hfl.
    destruct (on_server_step (going done) (going (done ++ [key])) c0 c l i0 i (mget_next_key key) true j)
      as (c' & E & Hst' & Hh); try done.
    { unfold going. by rewrite Hhere. }
    { intros l' i1 i2 i3. apply going_as_before. }
    exists s, c'. split; [by cio_do E|]. split; [done|]. split; [done|]. split; [done|]. split; [done|].
    rewrite length_app. cbn [length]. split; [lia|]. intros _. apply Hpos. intros ->. discriminate Edone.
Qed.

Lemma mget_keys_written lenkeys numkeys todo : forall done s c,
  keys = done ++ todo -> stands (going done) c0 c -> counted lenkeys numkeys -> unfailed s done ->
  exists s' c', mget_keys None lenkeys numkeys todo (position <$> todo) s c = CDone s' c'
    /\ stands (going keys) c0 c' /\ handle_as_before c c' /\ unfailed s' keys.
Proof.
  induction todo as [|key todo IH]; intros done s c Hkeys Hst Hcn Hs; cbn [mget_keys fmap list_fmap].
  { rewrite app_nil_r in Hkeys. subst done. by exists s, c. }
  destruct (mget_key_written done todo key lenkeys numkeys s c Hkeys Hst Hcn Hs)
    as (s1 & c1 & E1 & Hst1 & Hh1 & Hs1).
  destruct (IH (done ++ [key]) s1 c1) as (s2 & c2 & E2 & Hst2 & Hh2 & Hs2); [by rewrite <-app_assoc|done..|].
  exists s2, c2. split; [cio_do E1; exact E2|]. split; [done|]. split; [|done].
  by eapply handle_as_before_trans.
Qed.

(** While the lines are ended: those at positions before [x] are. *)
Definition ending (x : Z) (l : location) (i0 i : instance) : Prop :=
  match keys_at l with
  | [] => instance_at c0 l = Some i0 /\ as_before i0 i
  | key :: _ =>
      if position key <? x then asked prefix asked_for request_for c0 l i0 i
      else inflight (sofar l (keys_at l)) (length crlf) i0 i
  end.

Lemma ending_as_before x l i0 i j : ending x l i0 i -> as_before i j -> ending x l i0 j.
Proof.
  unfold ending. destruct (keys_at l).
  - intros [Hi Hb] Hb'. split; [done|]. by etransitivity.
  - destruct (_ <? _); [apply asked_as_before|apply inflight_as_before].
Qed.

Lemma keys_at_head l key ks : keys_at l = key :: ks -> key ∈ keys /\ location_of key = l.
Proof.
  intros E. assert (Hin : key ∈ keys_at l) by (rewrite E; apply elem_of_cons; by left).
  by apply list_elem_of_filter in Hin as [Hl Hin].
Qed.

Lemma going_ending l i0 i : going keys l i0 i -> ending 0 l i0 i.
Proof.
  unfold going, ending. destruct (keys_at l) as [|key ks] eqn:E; [done|].
  destruct (keys_at_head l key ks E) as [Hin _]. destruct (key_placed key Hin) as (_ & Hk & _).
  rewrite (proj2 (Z.ltb_ge _ _)) by lia. rewrite <-E, left_over_all. done.
Qed.

Lemma ending_next x l l' i0 i :
  memcached_server_instance_fetch (memc c0) x = Some l -> l' <> l ->
  ending x l' i0 i -> ending (x + 1) l' i0 i.
Proof.
  intros Hl Hne. unfold ending. destruct (keys_at l') as [|key ks] eqn:E; [done|].
  destruct (keys_at_head l' key ks E) as [Hin <-]. destruct (key_placed key Hin) as (_ & _ & Hf & _).
  assert (position key <> x) by (intros Ex; rewrite Ex in Hf; congruence).
  destruct (Z.ltb_spec (position key) x), (Z.ltb_spec (position key) (x + 1)); try done; lia.
Qed.

Lemma end_requests_sent n : forall x failures success c,
  0 <= x -> x + Z.of_nat n = memcached_server_count (memc c0) -> stands (ending x) c0 c ->
  exists success' c', end_requests n x failures success c = CDone (failures, success') c'
    /\ stands (ending (memcached_server_count (memc c0))) c0 c' /\ handle_as_before c c'
    /\ (success = true -> success' = true)
    /\ ((exists key, key ∈ keys /\ x <= position key) -> success' = true).
Proof.
  induction n as [|n IH]; intros x failures success c Hx Hn Hst.
  { exists success, c. replace (memcached_server_count (memc c0)) with x by lia.
    split; [done|]. split; [done|]. split; [done|]. split; [done|]. intros (key & Hin & Hp).
    destruct (key_placed key Hin) as (_ & Hk & _). lia. }
  destruct (ak_there Hask x) as (l & i0 & Hl & Hi0); [lia|].
  destruct (st_at _ _ _ Hst l i0 Hi0) as (i & Hi & Hen). pose proof (st_handle _ _ _ Hst) as Ha.
  assert (Ef : instance_fetch x c = CDone l c)
    by (apply instance_fetch_some; by rewrite (alike_fetch _ _ _ Ha)).
  assert (Elook : look l c = CDone (server i) c) by (unfold look; cio_pure; by rewrite (instance_at_server _ _ _ Hi)).
  cbn [end_requests]. destruct (keys_at l) as [|k0 ks] eqn:Ek.
  - assert (Hidle : cursor_active (server i) = 0).
    { unfold ending in Hen. rewrite Ek in Hen. destruct Hen as [_ Hb]. rewrite (ab_server _ _ Hb).
      apply (ak_resting Hask l i0); [exists x; split; [lia|done]|done]. }
    destruct (IH (x + 1) failures success c) as (s' & c' & E & Hst' & Hh & Hmono & Hsome); [lia..| |].
    { destruct Hst as [Ha' Hs' Hat]. split; [done|done|]. intros l' i1 Hi1.
      destruct (Hat l' i1 Hi1) as (i2 & Hi2 & H2). exists i2. split; [done|].
      destruct (decide (l' = l)) as [->|Hne]; [|by apply (ending_next x l)].
      unfold ending in *. by rewrite Ek in *. }
    exists s', c'. split; [cio_do Ef; cio_do Elook; by rewrite Hidle|]. split; [done|]. split; [done|].
    split; [done|]. intros (key & Hin & Hp). apply Hsome. exists key. split; [done|].
    destruct (key_placed key Hin) as (_ & _ & Hfk & _). destruct (decide (position key = x)) as [<-|]; [|lia].
    assert (Hlk : location_of key = l) by congruence. apply at_location_none in Ek. rewrite Forall_forall in Ek.
    by destruct (Ek key Hin).
  - destruct (keys_at_head l k0 ks Ek) as [Hin0 Hl0]. destruct (key_placed k0 Hin0) as (_ & Hk0 & Hf0 & i0' & Hi0' & Hc0).
    rewrite Hl0 in Hi0', Hf0. assert (i0' = i0) as -> by congruence.
    assert (Hpos : position k0 = x).
    { eapply (ak_sockets Hask); [exact Hk0|done|lia|exact Hl|done|done|done|]. apply (conv_writable i0 Hc0). }
    unfold ending in Hen. rewrite Ek, Hpos, Z.ltb_irrefl, <-Ek in Hen.
    assert (Hwm : 1 < io_msg_watermark (root i)).
    { rewrite (instance_at_root c l i Hi). destruct (alike_same _ _ Ha) as (_ & _ & _ & _ & _ & _ & _ & Fw & _).
      rewrite Fw. apply (fh_watermark _ _ (ak_handle Hask)). }
    destruct (mget_line_end (sofar l (keys_at l)) i0 i (ak_callbacks Hask) Hwm Hen)
      as (len & j & Ej & Hr & Hres & Hfd & Hsent & Hconn & Hoff & Hcur & Hinc).
    destruct (on_server_step (ending x) (ending (x + 1)) c0 c l i0 i (memcached_io_write crlf true) (Some len) j)
      as (c1 & E1 & Hst1 & Hh1); try done.
    { unfold ending. rewrite Ek, Hpos. rewrite (proj2 (Z.ltb_lt _ _)) by lia.
      assert (Hd : asked_for l = Some (items l)) by (unfold asked_for; by rewrite Ek).
      split; rewrite ?Hd; [done| |].
      - rewrite Hsent. unfold request_for, sofar. by rewrite <-app_assoc.
      - split; [done..|]. rewrite Hinc. destruct (ak_servers Hask k0 i0 Hin0) as (_ & _ & Hin'); [by rewrite Hl0|].
        by rewrite Hl0 in Hin'. }
    { intros l' i1 i2 i3. apply ending_as_before. }
    { intros l' i1 i2 Hne. by apply (ending_next x l). }
    destruct (IH (x + 1) failures true c1) as (s' & c' & E & Hst' & Hh & Hmono & Hsome); [lia..|done|].
    exists s', c'. split; [cio_do Ef; cio_do Elook; rewrite (fl_cursor _ _ _ _ Hen); change (1 =? 0) with false;
      cbv iota; cio_do E1; exact E|]. split; [done|]. split; [by eapply handle_as_before_trans|]. auto.
Qed.

Lemma sent_asked c :
  stands (ending (memcached_server_count (memc c0))) c0 c -> stands (asked prefix asked_for request_for c0) c0 c.
Proof.
  apply stands_mono. intros l i0 i. unfold ending. destruct (keys_at l) as [|key ks] eqn:E.
  - intros [Hi Hb]. apply asked_not; [by unfold asked_for; rewrite E|apply Hask|done|done].
  - destruct (keys_at_head l key ks E) as [Hin _]. destruct (key_placed key Hin) as (_ & Hk & _).
    by rewrite (proj2 (Z.ltb_lt _ _)) by lia.
Qed.

Lemma text_mget_asks c :
  stands (fun _ => as_before) c0 c ->
  exists c', text_mget None keys c = CDone MEMCACHED_SUCCESS c'
    /\ stands (asked prefix asked_for request_for c0) c0 c' /\ handle_as_before c c'.
Proof.
  intros Hst. pose proof (st_handle _ _ _ Hst) as Ha. unfold text_mget.
  destruct (ak_memory Hask) as (b & Hb). rewrite Hb.
  cio_do (server_keys_placed c keys Ha (st_store _ _ _ Hst) (fun k Hk => Hk)). cio_pure.
  destruct (alike_same _ _ Ha) as (_ & _ & _ & _ & _ & _ & _ & _ & Fn).
  assert (Hsize : memcached_array_size (_namespace (memc c)) = Z.of_nat (length prefix))
    by (rewrite Fn, <-(fh_prefix _ _ (ak_handle Hask)); by destruct (_namespace (memc c0))).
  rewrite Hsize. set (zeros := replicate MAX_SERVERS_FOR_MULTI_KEY_OPERATION 0).
  destruct (count_keys_spec prefix keys (position <$> keys) zeros zeros) as (L & N & Ecount & Hspec).
  { by rewrite length_fmap. }
  { done. }
  { apply Forall_fmap, Forall_forall. intros key Hin. destruct (key_placed key Hin) as (_ & Hk & _).
    pose proof (ak_few Hask). unfold zeros. rewrite length_replicate. cbn. lia. }
  assert (Ec : cchecked (count_keys (Z.of_nat (length prefix)) keys (position <$> keys) zeros zeros) c
    = CDone (L, N) c) by (by rewrite Ecount).
  cio_do Ec. cbv iota.
  assert (Hzero : forall key, key ∈ keys -> zeros !! Z.to_nat (position key) = Some 0).
  { intros key Hin. destruct (key_placed key Hin) as (_ & Hk & _). pose proof (ak_few Hask).
    apply lookup_replicate_2. lia. }
  assert (Hcn : counted L N).
  { split; intros key Hin; destruct (key_placed key Hin) as (_ & Hk & _);
      destruct (Hspec (position key) 0 0) as [HL HN]; try apply Hzero; try done; try lia;
      by rewrite keys_by_position in * by done. }
  destruct (mget_keys_written L N keys [] {| hosts_connected := 0; failures_occurred_in_sending := false;
      hosts_failed := replicate MAX_SERVERS_FOR_MULTI_KEY_OPERATION false; mget_rc := MEMCACHED_SUCCESS |} c)
    as (s & c1 & E1 & Hst1 & Hh1 & (_ & Hnf & _ & Hpos)); [done| |done|..].
  { eapply stands_mono; [|exact (stands_known _ _ _ Hst)]. intros l i0 i H. exact H. }
  { split; [done|]. split; [done|]. split; [cbn; lia|done]. }
  cio_do E1. specialize (Hpos (ak_some Hask)). rewrite (proj2 (Z.eqb_neq _ 0)) by lia. cio_pure.
  rewrite (alike_count _ _ (st_handle _ _ _ Hst1)), Hnf.
  pose proof (steady_servers c0 (ak_steady Hask)) as Hsc.
  destruct (end_requests_sent (Z.to_nat (memcached_server_count (memc c0))) 0 false false c1)
    as (success & c2 & E2 & Hst2 & Hh2 & _ & Hsome); [lia|lia| |].
  { eapply stands_mono; [|exact Hst1]. apply going_ending. }
  exists c2. cio_do E2. cbv iota. rewrite Hsome.
  - split; [done|]. split; [by apply sent_asked|]. by eapply handle_as_before_trans.
  - assert (Hne : exists key, key ∈ keys).
    { pose proof (ak_some Hask) as Hs. clear -Hs. destruct keys as [|key ks]; [done|]. exists key.
      apply elem_of_cons. by left. }
    destruct Hne as (key & Hin). exists key. split; [done|]. destruct (key_placed key Hin) as (_ & Hk & _). lia.
Qed.

(** [memcached_mget] sends every server its request. *)
Lemma memcached_mget_asks :
  exists c', memcached_mget keys c0 = CDone MEMCACHED_SUCCESS c'
    /\ stands (asked prefix asked_for request_for c0) c0 c' /\ handle_as_before (queried c0) c'.
Proof.
  destruct (before_get_query_valid keys c0 (ak_steady Hask)) as (c1 & E1 & Hst1 & Hh1);
    [apply (ak_handle Hask)|apply (ak_some Hask)|apply (ak_valid Hask)|apply resting_idle; apply Hask|].
  destruct (text_mget_asks c1 Hst1) as (c2 & E2 & Hst2 & Hh2). exists c2.
  split; [|split; [done|by eapply handle_as_before_trans]].
  unfold memcached_mget, memcached_mget_by_key. cio_do (steady_update c0 (ak_steady Hask)). cio_do E1.
  change (memcached_failed MEMCACHED_SUCCESS) with false. cbv iota. cio_pure.
  rewrite (alike_count _ _ (st_handle _ _ _ Hst1)). pose proof (ak_few Hask) as Hfew.
  rewrite Z.gtb_ltb, (proj2 (Z.ltb_ge _ _)) by lia. cbn [master_server]. cio_pure. cio_pure.
  destruct (alike_same _ _ (st_handle _ _ _ Hst1)) as (Fb & _). rewrite Fb, (fh_text _ _ (ak_handle Hask)).
  exact E2.
Qed.

(** An application that asks for many values, and fetches them all. *)
Definition mget_and_fetch (fuel inner : nat)
    : cio (memcached_return_t * (list memcached_result_st * memcached_return_t)) :=
  rc ← memcached_mget keys;
  fetched ← fetch_all None fuel inner;
  mret (rc, fetched).

Definition asked_locations : list location := remove_dups (location_of <$> keys).

Lemma asked_for_some l its : asked_for l = Some its -> its = items l /\ exists key, key ∈ keys /\ location_of key = l.
Proof.
  unfold asked_for. destruct (keys_at l) as [|key ks] eqn:E; [done|]. intros [= <-]. split; [done|].
  destruct (keys_at_head l key ks E). by exists key.
Qed.

(** C8: [memcached_mget] and the fetches after it: every server that some of the keys
    belong to is sent one request, which announces exactly the bytes and the keys that
    follow, with the prefix, in the order of the caller, and no other server is sent
    anything; whatever values these servers have, and in whatever order they can be
    read, the caller gets each of them once with its key, bytes and flags, the values
    of a server in its order, and then the end; no server owes anything then. *)
Theorem memcached_mget_delivers (limit : Z) (fuel inner : nat) :
  memory_for limit -> tidy (memc_result c0) -> result_count (memc_result c0) = 0 ->
  (forall key, key ∈ keys -> Forall (good_item prefix limit) (items (location_of key))) ->
  Forall fair (readies c0) -> (debt asked_locations asked_for <= length (readies c0))%nat ->
  (debt asked_locations asked_for < inner)%nat -> (debt asked_locations asked_for < fuel)%nat ->
  Z.of_nat (debt asked_locations asked_for) < 2 ^ 64 ->
  exists t c', mget_and_fetch fuel inner c0
      = CDone (MEMCACHED_SUCCESS, (t.*2, match t with [] => MEMCACHED_NOTFOUND | _ => MEMCACHED_END end)) c'
    /\ (forall l, Forall2 shows (default [] (asked_for l)) (came_from l t))
    /\ stands (served asked_for request_for c0) c0 c'.
Proof.
  intros Hmem Htidy Hcnt Hgood Hfair Hready Hin Hfuel Hmax.
  destruct memcached_mget_asks as (c2 & E2 & Hst2 & (Hq & Hres & Hrd)).
  pose proof (asked_there _ _ _ _ _ Hst2 (ak_there Hask)) as Hthere2.
  pose proof (asked_sockets _ _ _ _ _ Hst2 (ak_there Hask) (ak_sockets Hask)) as Hown2.
  pose proof (fetch_handle_alike prefix c0 (ak_handle Hask) _ (st_handle _ _ _ Hst2)) as Hfh2.
  assert (Hf2 : fetching prefix c2 limit asked_locations asked_for c2).
  { apply (asked_fetching prefix limit asked_locations _ request_for c0); try done;
      [apply Hask|by rewrite Hres| | |by rewrite Hrd|by rewrite Hrd].
    - intros l Hl. destruct (asked_for l) as [its|] eqn:E; [|done].
      destruct (asked_for_some l its E) as (_ & key & Hkey & <-). split.
      + apply elem_of_remove_dups, list_elem_of_fmap. by exists key.
      + destruct (key_placed key Hkey) as (_ & Hk & Hf & _). by exists (position key).
    - intros l its E. destruct (asked_for_some l its E) as (-> & key & Hkey & <-). by apply Hgood. }
  assert (Hcount2 : 0 <= memcached_server_count (memc c2)).
  { rewrite (alike_count _ _ (st_handle _ _ _ Hst2)). pose proof (steady_servers c0 (ak_steady Hask)). lia. }
  destruct (fetch_all_spec prefix c2 Hthere2 Hown2 limit Hfh2 Hmem Hcount2 None asked_locations inner fuel
    asked_for c2 0 (NoDup_remove_dups _) Hf2 Hin Hfuel) as (t & c' & E & Hlen & Hall & Hf').
  { by rewrite Hres. }
  exists t, c'. split; [|split; [done|by eapply asked_served]].
  unfold mget_and_fetch. cio_do E2. cio_do E. rewrite Z.add_0_l, u64_small by lia. by destruct t.
Qed.
End ManyServers.

(** ** Concrete servers *)

#[local] Existing Instance some_environment.
#[local] Existing Instance all_hashes.

Definition wanted : list bytes := [str "a"; str "b"; str "c"].
Definition held : list (list item) := [[(str "a", str "1", 5)]; [(str "b", str "22", 6); (str "c", [], 0)]].
Definition idle : client :=
  polled_client 0 [Sent 1000] (stream [] <$> held) [last_ready; first_ready; last_ready; last_ready; first_ready].
Definition held_at (l : location) : list item := default [] (owed_to held l).

Lemma idle_at k its :
  held !! k = Some its ->
  exists i, instance_at idle (Listed k) = Some i
    /\ as_before (polled_connection 0 [Sent 1000] k (stream [] its)) i.
Proof. intros E. apply polled_client_at. by rewrite list_lookup_fmap, E. Qed.

Lemma idle_position x :
  0 <= x < memcached_server_count (memc idle) ->
  exists i its, memcached_server_instance_fetch (memc idle) x = Some (Listed (Z.to_nat x))
    /\ held !! Z.to_nat x = Some its /\ instance_at idle (Listed (Z.to_nat x)) = Some i
    /\ as_before (polled_connection 0 [Sent 1000] (Z.to_nat x) (stream [] its)) i.
Proof.
  change (memcached_server_count (memc idle)) with 2. intros Hx.
  destruct (held !! Z.to_nat x) as [its|] eqn:E; [|apply lookup_ge_None in E; cbn in E; lia].
  destruct (idle_at (Z.to_nat x) its E) as (i & Hi & Hb). exists i, its. split; [|done].
  unfold memcached_server_instance_fetch. rewrite (proj2 (Z.ltb_ge _ _)) by lia.
  change (repl_enabled (flags (memc idle))) with false. cbv iota.
  apply instance_at_server in Hi. change (servers (memc idle) !! Z.to_nat x = Some (server i)) in Hi.
  by rewrite Hi.
Qed.

Lemma writable_polled o k cursor :
  writable o -> k <> INVALID_SOCKET ->
  writable (o <| server ::= fun x => x <| fd := k |> <| cursor_active := cursor |> |>).
Proof.
  intros (_ & A & B & C & (_ & D) & F) Hk. split; [exact Hk|]. split; [exact A|]. split; [exact B|].
  split; [exact C|]. split; [|exact F]. by split.
Qed.

Lemma idle_conversing k its i :
  instance_at idle (Listed k) = Some i -> as_before (polled_connection 0 [Sent 1000] k (stream [] its)) i ->
  conversing i.
Proof.
  intros Hi Hb. pose proof (instance_at_root _ _ _ Hi) as Hr. pose proof (ab_server _ _ Hb) as Es.
  split; try (rewrite Hr; reflexivity).
  - apply (as_before_writable _ _ Hb), writable_polled; [apply opened_writable|].
    change (3 + Z.of_nat k <> -1). lia.
  - rewrite Es. reflexivity.
Qed.

Lemma wanted_placed : Forall (fun key => exists k l, server_for idle key = Some (k, l)
  /\ 0 <= k < memcached_server_count (memc idle)) wanted.
Proof.
  change (memcached_server_count (memc idle)) with 2.
  constructor; [exists 0, (Listed 0)|constructor; [exists 1, (Listed 1)|constructor; [exists 1, (Listed 1)|constructor]]];
    (split; [vm_compute; reflexivity|lia]).
Qed.

Lemma wanted_at key : key ∈ wanted -> exists k its, location_of idle key = Listed k /\ held !! k = Some its
  /\ (length (request_for [] idle wanted (Listed k)) <= 100)%nat.
Proof.
  unfold wanted. rewrite !elem_of_cons. intros [-> |[-> |[-> |H]]]; [..|by apply elem_of_nil in H].
  - exists 0%nat, [(str "a", str "1", 5)]. split; [vm_compute; reflexivity|]. split; [reflexivity|vm_compute; lia].
  - exists 1%nat, [(str "b", str "22", 6); (str "c", [], 0)].
    split; [vm_compute; reflexivity|]. split; [reflexivity|vm_compute; lia].
  - exists 1%nat, [(str "b", str "22", 6); (str "c", [], 0)].
    split; [vm_compute; reflexivity|]. split; [reflexivity|vm_compute; lia].
Qed.

Lemma idle_askable : askable [] idle wanted held_at.
Proof.
  split.
  - split; [reflexivity..|change (memcached_server_count (memc idle)) with 2; lia|reflexivity|vm_compute; discriminate].
  - intros x Hx. destruct (idle_position x Hx) as (i & its & Hl & _ & Hi & _). eauto.
  - intros x y l l' i i' Hx Hl Hy Hl' Hi Hi' Hfd _.
    destruct (idle_position x Hx) as (j & its & Hl1 & _ & Hj & Hb).
    destruct (idle_position y Hy) as (j' & its' & Hl2 & _ & Hj' & Hb').
    assert (Hlx : l = Listed (Z.to_nat x)) by congruence. assert (Hly : l' = Listed (Z.to_nat y)) by congruence.
    subst l l'. assert (j = i) as -> by congruence. assert (j' = i') as -> by congruence.
    rewrite (ab_server _ _ Hb), (ab_server _ _ Hb') in Hfd.
    change (3 + Z.of_nat (Z.to_nat x) = 3 + Z.of_nat (Z.to_nat y)) in Hfd. lia.
  - intros l i (x & Hx & Hl) Hi. destruct (idle_position x Hx) as (j & its & Hl1 & _ & Hj & Hb).
    assert (l = Listed (Z.to_nat x)) as -> by congruence. assert (j = i) as -> by congruence.
    pose proof (ab_server _ _ Hb) as Es. split; rewrite Es; reflexivity.
  - split; [reflexivity..|constructor].
  - reflexivity.
  - discriminate.
  - vm_compute. reflexivity.
  - exact wanted_placed.
  - intros key i Hin Hi. destruct (wanted_at key Hin) as (k & its & Hl & Hk & Hshort). rewrite Hl in *.
    destruct (idle_at k its Hk) as (j & Hj & Hb). assert (j = i) as -> by congruence.
    split; [by apply (idle_conversing k its)|]. split.
    + destruct (as_before_written _ _ Hb) as (_ & _ & ->). apply (as_before_takes _ _ Hb).
      change (filling (polled_connection 0 [Sent 1000] k (stream [] its))) with 0%nat. cbn [Nat.add].
      revert Hshort. generalize (length (request_for [] idle wanted (Listed k))). intros n Hn.
      unfold takes. change (taking n 500 [Sent 1000] [Received (stream [] its)] [] = true).
      destruct n as [|n]; [done|]. cbn [taking]. by rewrite (proj2 (Nat.leb_le _ _)) by lia.
    + rewrite (as_before_incoming _ _ Hb). unfold held_at, owed_to. rewrite Hk. apply polled_connection_incoming.
      unfold stream. intros [_ Hn]%app_eq_nil. discriminate.
  - vm_compute. discriminate.
  - vm_compute. reflexivity.
  - vm_compute. reflexivity.
  - eexists. reflexivity.
Qed.

Lemma memcached_mget_delivers_witness :
  exists t c', mget_and_fetch wanted 9 9 idle
      = CDone (MEMCACHED_SUCCESS, (t.*2, match t with [] => MEMCACHED_NOTFOUND | _ => MEMCACHED_END end)) c'
    /\ (forall l, Forall2 shows (default [] (asked_for idle wanted held_at l)) (came_from l t))
    /\ stands (served (asked_for idle wanted held_at) (request_for [] idle wanted) idle) idle c'.
Proof.
  refine (memcached_mget_delivers [] idle wanted held_at idle_askable 1000000 9 9 example_memory _ _ _ _ _ _ _ _).
  - split; [by split|]. split; reflexivity.
  - reflexivity.
  - intros key Hin. destruct (wanted_at key Hin) as (k & its & Hl & Hk & _). rewrite Hl. unfold held_at, owed_to.
    rewrite Hk. destruct k as [|[|k]]; [| |done]; injection Hk as <-;
      repeat constructor; cbn; unfold MEMCACHED_MAX_KEY; lia.
  - exact some_fair.
  - vm_compute. lia.
  - vm_compute. lia.
  - vm_compute. lia.
  - vm_compute. reflexivity.
Defined.
