(* ===== verification/Hexadecimal.v ===== *)
(** Byte arrays as hexadecimal text: collection.cc, for the keys and the flags
    of the elements of a b+tree.

    Memory is a list of bytes: an array is what lies from its pointer on, and a
    text in a buffer ends at a NUL.  [None] is a read or a write outside of it. *)
From Stdlib Require Import Strings.Byte.
From S2P Require Import Prelude HashFunctions Hashkit Memcached Text StringBuf.

(** ** Memory *)

Definition peek (b : bytes) (i : Z) : option byte :=
  if i <? 0 then None else b !! Z.to_nat i.

Definition poke (b : bytes) (i : Z) (c : byte) : option bytes :=
  if (0 <=? i) && (i <? Z.of_nat (length b)) then Some (<[Z.to_nat i := c]> b) else None.

(** The string in a buffer. *)
Definition cstring (b : bytes) : option bytes :=
  '(s, _) ← span (fun c => negb (bool_decide (c = Byte.x00))) b;
  Some s.

Definition strlen (b : bytes) : option Z :=
  s ← cstring b;
  Some (Z.of_nat (length s)).

(** [snprintf(buffer + off, n, ...)] that prints [text]: the length of the text
    and the buffer. *)
Definition snprintf_at (buffer : bytes) (off n : Z) (text : bytes) : option (Z * bytes) :=
  let len := Z.of_nat (length text) in
  if n =? 0 then Some (len, buffer)
  else
    let out := take (Z.to_nat (Z.min (n - 1) len)) text ++ [Byte.x00] in
    if off + Z.of_nat (length out) <=? Z.of_nat (length buffer)
    then Some (len, store buffer (Z.to_nat off) out)
    else None.

(** ** Hexadecimal *)

(** [struct memcached_hexadecimal_st]; the array is NULL or the memory from the
    pointer on. *)
Record memcached_hexadecimal_st := {
  array : option bytes;
  array_length : Z;
  array_is_allocated : bool;
}.

#[export] Instance hexadecimal_fields : Fields memcached_hexadecimal_st := fun r =>
  {| array := array r; array_length := array_length r;
     array_is_allocated := array_is_allocated r |}.

Definition MEMCACHED_COLL_MAX_BYTE_ARRAY_LENGTH : Z := 31.
Definition MEMCACHED_COLL_MAX_BYTE_STRING_LENGTH : Z := MEMCACHED_COLL_MAX_BYTE_ARRAY_LENGTH * 2 + 1.

(** What the pointer leads to; nothing can be read at NULL. *)
Definition memory (h : memcached_hexadecimal_st) : bytes := default [] (array h).

(** The loop over the first [n] positions from [i] on. *)
Fixpoint compare_loop (n : nat) (i : Z) (l r : bytes) : option (option Z) :=
  match n with
  | O => Some None
  | S n =>
      a ← peek l i;
      b ← peek r i;
      if uchar a =? uchar b then compare_loop n (i + 1) l r
      else if uchar a <? uchar b then Some (Some (-1))
      else Some (Some 1)
  end.

Definition memcached_compare_two_hexadecimal (lhs rhs : option memcached_hexadecimal_st)
    : option Z :=
  match lhs, rhs with
  | Some lhs, Some rhs =>
      let min := if array_length lhs <? array_length rhs
                 then array_length lhs else array_length rhs in
      found ← compare_loop (Z.to_nat min) 0 (memory lhs) (memory rhs);
      Some (match found with
            | Some c => c
            | None =>
                if array_length lhs =? array_length rhs then 0
                else if array_length lhs <? array_length rhs then -1
                else 1
            end)
  | _, _ => Some (-2)
  end.

(** The digit of half a byte. *)
Definition hex_char (v : Z) : byte :=
  if v <? 10 then byte_of_Z (v + 48) else byte_of_Z (v + (65 - 10)).

Fixpoint hex_loop (n : nat) (i : Z) (bin str : bytes) : option bytes :=
  match n with
  | O => Some str
  | S n =>
      b ← peek bin i;
      str ← poke str (i * 2) (hex_char (Z.shiftr (Z.land (uchar b) 0xF0) 4));
      str ← poke str (i * 2 + 1) (hex_char (Z.land (uchar b) 0x0F));
      hex_loop n (i + 1) bin str
  end.

(** [str] is not NULL where this is called. *)
Definition convert_hex_to_str (bin str : bytes) (size : Z) : option bytes :=
  str ← hex_loop (Z.to_nat size) 0 bin str;
  poke str (size * 2) Byte.x00.

(** The value of a digit; a [char] above 127 is none. *)
Definition hex_digit (c : byte) : option Z :=
  if (48 <=? uchar c) && (uchar c <=? 57) then Some (uchar c - 48)
  else if (65 <=? uchar c) && (uchar c <=? 70) then Some (uchar c - 65 + 10)
  else if (97 <=? uchar c) && (uchar c <=? 102) then Some (uchar c - 97 + 10)
  else None.

Fixpoint unhex_loop (n : nat) (i : Z) (str bin : bytes) : option (bool * bytes) :=
  match n with
  | O => Some (true, bin)
  | S n =>
      ch1 ← peek str (2 * i);
      ch2 ← peek str (2 * i + 1);
      match hex_digit ch1 with
      | None => Some (false, bin)
      | Some v1 =>
          bin ← poke bin i (byte_of_Z v1);
          match hex_digit ch2 with
          | None => Some (false, bin)
          | Some v2 =>
              bin ← poke bin i (byte_of_Z (Z.shiftl v1 4 + v2));
              unhex_loop n (i + 1) str bin
          end
      end
  end.

Definition convert_str_to_hex (str bin : bytes) (size : Z) : option (bool * bytes) :=
  n ← strlen str;
  let slen := i32 n in
  if (slen <=? 0) || (slen >? 2 * size) || negb (Z.rem slen 2 =? 0) then Some (false, bin)
  else unhex_loop (Z.to_nat (Z.quot slen 2)) 0 str bin.

Definition memcached_conv_hex_to_str (hex : memcached_hexadecimal_st) (str : bytes)
    (str_length : Z) : option (memcached_return_t * bytes) :=
  if str_length <=? u64 (array_length hex * 2) then Some (MEMCACHED_INVALID_ARGUMENTS, str)
  else
    str ← convert_hex_to_str (memory hex) str (i32 (array_length hex));
    Some (MEMCACHED_SUCCESS, str).

(** [calloc n] is [n] cleared bytes, when there is room.  An array that is there
    is used again, whatever its size, and what the conversion returns is not
    looked at. *)
Definition memcached_conv_str_to_hex (calloc : Z -> option bytes) (str : bytes) (str_length : Z)
    (hex : option memcached_hexadecimal_st)
    : option (memcached_return_t * option memcached_hexadecimal_st) :=
  match hex with
  | None => Some (MEMCACHED_INVALID_ARGUMENTS, None)
  | Some hex =>
      if str_length >? MEMCACHED_COLL_MAX_BYTE_STRING_LENGTH
      then Some (MEMCACHED_INVALID_ARGUMENTS, Some hex)
      else
        let room := match array hex with
                    | Some a => Some a
                    | None => calloc (str_length / 2)
                    end in
        match room with
        | None => Some (MEMCACHED_MEMORY_ALLOCATION_FAILURE, Some hex)
        | Some a =>
            let hex := hex <| array_length := str_length / 2 |> <| array_is_allocated := true |> in
            '(_, a) ← convert_str_to_hex str a (i32 (array_length hex));
            Some (MEMCACHED_SUCCESS, Some (hex <| array := Some a |>))
        end
  end.

(** The length that is passed on is not the one of the buffer. *)
Definition memcached_hexadecimal_to_str (ptr : memcached_hexadecimal_st) (buffer : bytes)
    (buffer_length : Z) : option (Z * bytes) :=
  if buffer_length <=? u64 (array_length ptr * 2) then Some (0, buffer)
  else
    buffer ← poke buffer 0 Byte.x30;
    buffer ← poke buffer 1 Byte.x78;
    '(_, rest) ← memcached_conv_hex_to_str ptr (drop 2 buffer)
                   (MEMCACHED_COLL_MAX_BYTE_STRING_LENGTH + 2);
    Some (u64 (array_length ptr * 2 + 2), take 2 buffer ++ rest).

(** ** Specification *)

(** The digits and their values; those of both cases are read, the upper ones are
    written. *)
Definition upper_digits : bytes := str "0123456789ABCDEF".
Definition digits_read : list (byte * Z) :=
  zip upper_digits (seqZ 0 16) ++ zip (str "abcdef") (seqZ 10 6).
Definition upper_digit (v : Z) : byte := nth (Z.to_nat v) upper_digits Byte.x00.

(** The text of a byte array: the upper half of every byte, and then the lower one. *)
Definition hex_of_byte (b : byte) : bytes :=
  [upper_digit (uchar b / 16); upper_digit (uchar b mod 16)].
Definition hex_text (a : bytes) : bytes := concat (map hex_of_byte a).

(** The object for a byte array. *)
Definition holds (h : memcached_hexadecimal_st) (a : bytes) : Prop :=
  array_length h = Z.of_nat (length a) /\ exists rest, array h = Some (a ++ rest).

(** The lexicographic order. *)
Fixpoint lex (a b : bytes) : comparison :=
  match a, b with
  | [], [] => Eq
  | [], _ :: _ => Lt
  | _ :: _, [] => Gt
  | x :: a, y :: b => match uchar x ?= uchar y with Eq => lex a b | c => c end
  end.

Definition sign (c : comparison) : Z := match c with Eq => 0 | Lt => -1 | Gt => 1 end.

(** ** Lemmas on memory *)

Lemma peek_mid p c q : peek (p ++ c :: q) (Z.of_nat (length p)) = Some c.
Proof.
  unfold peek. rewrite (proj2 (Z.ltb_ge _ _)) by lia.
  by rewrite Nat2Z.id, list_lookup_middle.
Qed.

Lemma poke_in b i c :
  0 <= i < Z.of_nat (length b) -> poke b i c = Some (<[Z.to_nat i := c]> b).
Proof.
  intros Hi. unfold poke.
  destruct (Z.leb_spec 0 i), (Z.ltb_spec i (Z.of_nat (length b))); [done|lia..].
Qed.

Lemma poke_mid p c q x : poke (p ++ c :: q) (Z.of_nat (length p)) x = Some (p ++ x :: q).
Proof.
  rewrite poke_in by (rewrite length_app; cbn; lia). rewrite Nat2Z.id.
  by rewrite <-(Nat.add_0_r (length p)), insert_app_r.
Qed.

Lemma poke_length b i c b' : poke b i c = Some b' -> length b' = length b.
Proof. unfold poke. case_match; [|done]. intros [= <-]. apply length_insert. Qed.

Lemma cstring_app s rest : no_nul s -> cstring (s ++ Byte.x00 :: rest) = Some s.
Proof.
  intros Hs. unfold cstring.
  rewrite (span_app _ s Byte.x00 rest); [done| |done].
  eapply Forall_impl; [exact Hs|]. intros c Hc. cbn. by rewrite bool_decide_eq_false_2.
Qed.

Lemma strlen_app s rest : no_nul s -> strlen (s ++ Byte.x00 :: rest) = Some (Z.of_nat (length s)).
Proof. intros Hs. unfold strlen. by rewrite (cstring_app s rest). Qed.

(** A text that fits is printed with its NUL. *)
Lemma snprintf_at_fits buffer off n text :
  Z.of_nat (length text) < n -> 0 <= off -> off + n <= Z.of_nat (length buffer) ->
  snprintf_at buffer off n text
  = Some (Z.of_nat (length text), store buffer (Z.to_nat off) (text ++ [Byte.x00])).
Proof.
  intros Ht Ho Hb. unfold snprintf_at. cbv zeta.
  rewrite (proj2 (Z.eqb_neq _ _)) by lia.
  rewrite take_ge by lia. rewrite length_app. cbn [length].
  by rewrite (proj2 (Z.leb_le _ _)) by lia.
Qed.

(** Printing behind what was printed. *)
Lemma store_behind s old text :
  (length text < S (length old))%nat ->
  store (s ++ Byte.x00 :: old) (length s) (text ++ [Byte.x00])
  = (s ++ text) ++ Byte.x00 :: drop (length text) old.
Proof.
  intros Hl. unfold store. rewrite take_app_length.
  rewrite drop_app_ge by (rewrite length_app; cbn; lia).
  rewrite <-!app_assoc. cbn [app]. do 3 f_equal.
  rewrite length_app. cbn [length].
  replace (length s + (length text + 1) - length s)%nat with (S (length text)) by lia. done.
Qed.

(** ** Lemmas on digits *)

Lemma upper_digit_spec v : 0 <= v < 16 -> (upper_digit v, v) ∈ digits_read /\ hex_char v = upper_digit v.
Proof.
  intros Hv. replace v with (Z.of_nat (Z.to_nat v)) by lia.
  assert (Hn : (Z.to_nat v < 16)%nat) by lia. revert Hn. generalize (Z.to_nat v). clear v Hv. intros n Hn.
  do 16 (destruct n as [|n]; [split; [by apply (bool_decide_unpack _); vm_compute|done]|]). lia.
Qed.

Lemma digit_read c v : (c, v) ∈ digits_read -> hex_digit c = Some v.
Proof.
  assert (Forall (fun p => hex_digit p.1 = Some p.2) digits_read) as H.
  { vm_compute. repeat constructor. }
  rewrite Forall_forall in H. exact (H (c, v)).
Qed.

Lemma hex_char_spec v : 0 <= v < 16 ->
  uchar (hex_char v) = (if v <? 10 then v + 48 else v + 55).
Proof.
  intros Hv. unfold hex_char. destruct (v <? 10) eqn:E; rewrite uchar_byte_of_Z, Z.mod_small; lia.
Qed.

Lemma hex_char_not_nul v : 0 <= v < 16 -> hex_char v <> Byte.x00.
Proof.
  intros Hv E. apply (f_equal uchar) in E. rewrite (hex_char_spec v Hv) in E.
  change (uchar Byte.x00) with 0 in E. destruct (v <? 10) eqn:E'; lia.
Qed.

Lemma hex_char_compare v w :
  0 <= v < 16 -> 0 <= w < 16 -> (uchar (hex_char v) ?= uchar (hex_char w)) = (v ?= w).
Proof.
  intros Hv Hw. rewrite (hex_char_spec v Hv), (hex_char_spec w Hw).
  destruct (v <? 10) eqn:Ev, (w <? 10) eqn:Ew;
    destruct (Z.compare_spec v w); rewrite ?Z.compare_lt_iff, ?Z.compare_gt_iff, ?Z.compare_eq_iff;
    lia.
Qed.

Lemma halves b : 0 <= uchar b / 16 < 16 /\ 0 <= uchar b mod 16 < 16.
Proof. pose proof (uchar_range b). split; Z.div_mod_to_equations; lia. Qed.

Lemma hex_of_byte_chars b : hex_of_byte b = [hex_char (uchar b / 16); hex_char (uchar b mod 16)].
Proof. destruct (halves b) as [H1 H2]. unfold hex_of_byte.
  by rewrite (proj2 (upper_digit_spec _ H1)), (proj2 (upper_digit_spec _ H2)). Qed.

(** The masks of the code take the halves of a byte. *)
Lemma high_half b : Z.shiftr (Z.land (uchar b) 0xF0) 4 = uchar b / 16.
Proof. destruct b; reflexivity. Qed.

Lemma low_half b : Z.land (uchar b) 0x0F = uchar b mod 16.
Proof. destruct b; reflexivity. Qed.

Lemma join_halves b :
  byte_of_Z (Z.shiftl (uchar b / 16) 4 + uchar b mod 16) = b.
Proof. destruct b; reflexivity. Qed.

Lemma hex_text_length a : length (hex_text a) = (2 * length a)%nat.
Proof. unfold hex_text. induction a as [|b a IH]; [done|]. cbn in *. lia. Qed.

Lemma hex_text_no_nul a : no_nul (hex_text a).
Proof.
  unfold hex_text, no_nul. induction a as [|b a IH]; [constructor|].
  cbn [map concat]. rewrite hex_of_byte_chars. cbn [app]. destruct (halves b).
  repeat (constructor; [by apply hex_char_not_nul|]). done.
Qed.

(** ** The conversions *)

Lemma hex_loop_spec a : forall pre rest out old,
  length out = (2 * length pre)%nat -> (2 * length a <= length old)%nat ->
  hex_loop (length a) (Z.of_nat (length pre)) (pre ++ a ++ rest) (out ++ old)
  = Some (out ++ hex_text a ++ drop (2 * length a) old).
Proof.
  induction a as [|b a IH]; intros pre rest out old Ho Hold; [done|].
  destruct old as [|x [|y old]]; cbn [length] in Hold; [lia..|].
  cbn [hex_loop length]. cbn [app]. rewrite peek_mid. cbn [mbind option_bind].
  replace (Z.of_nat (length pre) * 2) with (Z.of_nat (length out)) by lia.
  rewrite poke_mid. cbn [mbind option_bind].
  set (h := hex_char (Z.shiftr _ _)). set (l := hex_char (Z.land _ 15)).
  replace (out ++ h :: y :: old) with ((out ++ [h]) ++ y :: old) by by rewrite <-app_assoc.
  replace (Z.of_nat (length out) + 1) with (Z.of_nat (length (out ++ [h])))
    by (rewrite length_app; cbn; lia).
  rewrite poke_mid. cbn [mbind option_bind].
  replace (pre ++ b :: a ++ rest) with ((pre ++ [b]) ++ a ++ rest) by by rewrite <-app_assoc.
  replace ((out ++ [h]) ++ l :: old) with ((out ++ [h; l]) ++ old) by by rewrite <-!app_assoc.
  replace (Z.of_nat (length pre) + 1) with (Z.of_nat (length (pre ++ [b])))
    by (rewrite length_app; cbn; lia).
  rewrite IH by (rewrite ?length_app; cbn in *; lia).
  unfold h, l. rewrite high_half, low_half, <-!app_assoc.
  replace (2 * S (length a))%nat with (S (S (2 * length a))) by lia.
  unfold hex_text. cbn [map concat]. by rewrite hex_of_byte_chars.
Qed.

(** The text and its NUL, in any buffer that has room. *)
Lemma convert_hex_to_str_spec a rest old :
  (2 * length a < length old)%nat ->
  convert_hex_to_str (a ++ rest) old (Z.of_nat (length a))
  = Some (hex_text a ++ Byte.x00 :: drop (2 * length a + 1) old).
Proof.
  intros Ho. unfold convert_hex_to_str. rewrite Nat2Z.id.
  pose proof (hex_loop_spec a [] rest [] old eq_refl ltac:(lia)) as E. cbn [length app] in E.
  rewrite (E : hex_loop (length a) 0 _ _ = _). cbn [mbind option_bind].
  replace (Z.of_nat (length a) * 2) with (Z.of_nat (length (hex_text a)))
    by (rewrite hex_text_length; lia).
  rewrite <-(take_drop (2 * length a) old) at 1.
  rewrite drop_app_ge, length_take, Nat.min_l, Nat.sub_diag by (rewrite ?length_take; lia).
  rewrite drop_0. destruct (drop (2 * length a) old) as [|x l] eqn:Ed.
  - apply (f_equal length) in Ed. rewrite length_drop in Ed. cbn in Ed. lia.
  - rewrite poke_mid. do 3 f_equal.
    by rewrite <-drop_drop, Ed.
Qed.

Lemma conv_hex_to_str_spec h a old n :
  holds h a -> Z.of_nat (length a) < 2 ^ 31 -> 2 * Z.of_nat (length a) < n ->
  n <= Z.of_nat (length old) ->
  memcached_conv_hex_to_str h old n
  = Some (MEMCACHED_SUCCESS, hex_text a ++ Byte.x00 :: drop (2 * length a + 1) old).
Proof.
  intros [Hl [rest Ha]] Hi Hn Ho. unfold memcached_conv_hex_to_str, memory.
  rewrite Hl, Ha. cbn [default from_option id].
  rewrite u64_small by lia. rewrite (proj2 (Z.leb_gt _ _)) by lia.
  replace (i32 (Z.of_nat (length a))) with (Z.of_nat (length a))
    by (unfold i32; rewrite Z.mod_small; lia).
  by rewrite convert_hex_to_str_spec by lia.
Qed.

Lemma conv_hex_to_str_long h old n :
  0 <= array_length h -> 2 * array_length h < 2 ^ 64 -> n <= 2 * array_length h ->
  memcached_conv_hex_to_str h old n = Some (MEMCACHED_INVALID_ARGUMENTS, old).
Proof.
  intros Hp Hm Hn. unfold memcached_conv_hex_to_str.
  rewrite u64_small by lia. by rewrite (proj2 (Z.leb_le _ _)) by lia.
Qed.

(** What a text stands for: two digits, of either case, for a byte. *)
Inductive text_of : bytes -> bytes -> Prop :=
  | text_nil : text_of [] []
  | text_cons c d v w s a :
      (c, v) ∈ digits_read -> (d, w) ∈ digits_read -> text_of s a ->
      text_of (c :: d :: s) (byte_of_Z (16 * v + w) :: a).

Lemma text_of_hex a : text_of (hex_text a) a.
Proof.
  induction a as [|b a IH]; [constructor|].
  destruct (halves b) as [H1 H2].
  replace b with (byte_of_Z (16 * (uchar b / 16) + uchar b mod 16)) at 2
    by (rewrite <-Z.div_mod by lia; apply byte_of_uchar).
  exact (text_cons _ _ _ _ _ _ (proj1 (upper_digit_spec _ H1)) (proj1 (upper_digit_spec _ H2)) IH).
Qed.

Lemma text_of_length s a : text_of s a -> length s = (2 * length a)%nat.
Proof. induction 1; cbn; lia. Qed.

Lemma hex_digit_not_nul c v : hex_digit c = Some v -> c <> Byte.x00.
Proof. by intros H ->. Qed.

Lemma text_of_no_nul s a : text_of s a -> no_nul s.
Proof.
  unfold no_nul.
  induction 1 as [|c d v w s a Hc%digit_read%hex_digit_not_nul Hd%digit_read%hex_digit_not_nul _ IH];
    by repeat constructor.
Qed.

Lemma unhex_loop_spec s a : text_of s a -> forall pre z out old,
  length pre = (2 * length out)%nat -> (length a <= length old)%nat ->
  unhex_loop (length a) (Z.of_nat (length out)) (pre ++ s ++ z) (out ++ old)
  = Some (true, out ++ a ++ drop (length a) old).
Proof.
  induction 1 as [|c d v w s a Hc%digit_read Hd%digit_read _ IH]; intros pre z out old Hp Ho; [done|].
  destruct old as [|x old]; cbn [length] in Ho; [lia|].
  cbn [unhex_loop length app].
  replace (2 * Z.of_nat (length out)) with (Z.of_nat (length pre)) by lia.
  rewrite peek_mid. cbn [mbind option_bind].
  replace (pre ++ c :: d :: s ++ z) with ((pre ++ [c]) ++ d :: s ++ z) by by rewrite <-app_assoc.
  replace (Z.of_nat (length pre) + 1) with (Z.of_nat (length (pre ++ [c])))
    by (rewrite length_app; cbn; lia).
  rewrite peek_mid. cbn [mbind option_bind]. rewrite Hc, poke_mid. cbn [mbind option_bind].
  rewrite Hd, poke_mid. cbn [mbind option_bind].
  rewrite Z.shiftl_mul_pow2 by lia. replace (v * 2 ^ 4 + w) with (16 * v + w) by lia.
  set (b := byte_of_Z (16 * v + w)).
  replace ((pre ++ [c]) ++ d :: s ++ z) with ((pre ++ [c; d]) ++ s ++ z) by by rewrite <-!app_assoc.
  replace (out ++ b :: old) with ((out ++ [b]) ++ old) by by rewrite <-app_assoc.
  replace (Z.of_nat (length out) + 1) with (Z.of_nat (length (out ++ [b])))
    by (rewrite length_app; cbn; lia).
  rewrite IH by (rewrite ?length_app; cbn in *; lia). by rewrite <-!app_assoc.
Qed.

Lemma conv_str_to_hex_spec calloc s a z h0 old :
  text_of s a -> a <> [] -> Z.of_nat (length s) <= MEMCACHED_COLL_MAX_BYTE_STRING_LENGTH ->
  match array h0 with Some b => b = old | None => calloc (Z.of_nat (length a)) = Some old end ->
  (length a <= length old)%nat ->
  memcached_conv_str_to_hex calloc (s ++ Byte.x00 :: z) (Z.of_nat (length s)) (Some h0)
  = Some (MEMCACHED_SUCCESS,
          Some {| array := Some (a ++ drop (length a) old);
                  array_length := Z.of_nat (length a); array_is_allocated := true |}).
Proof.
  intros Hs Hne Hlen Hroom Hold.
  pose proof (text_of_length s a Hs) as Hl. pose proof (text_of_no_nul s a Hs) as Hn.
  unfold memcached_conv_str_to_hex. rewrite Z.gtb_ltb, (proj2 (Z.ltb_ge _ _)) by lia.
  assert (Hdiv : Z.of_nat (length s) / 2 = Z.of_nat (length a)) by
    (rewrite Hl, Nat2Z.inj_mul, Z.mul_comm, Z.div_mul; lia).
  rewrite Hdiv.
  assert (match array h0 with Some a => Some a | None => calloc (Z.of_nat (length a)) end
          = Some old) as -> by (destruct (array h0); congruence).
  unfold MEMCACHED_COLL_MAX_BYTE_STRING_LENGTH, MEMCACHED_COLL_MAX_BYTE_ARRAY_LENGTH in Hlen.
  assert (Hi : forall k, 0 <= k < 2 ^ 31 -> i32 k = k)
    by (intros k Hk; unfold i32; rewrite Z.mod_small; lia).
  unfold convert_str_to_hex. rewrite (strlen_app s z Hn). cbn [mbind option_bind array_length update].
  rewrite !Hi by (cbn; lia). cbn [array_length].
  assert (length a <> 0%nat) by (destruct a; done).
  rewrite (proj2 (Z.leb_gt _ _)) by lia.
  rewrite Z.gtb_ltb, (proj2 (Z.ltb_ge _ _)) by (cbn; lia).
  replace (Z.rem _ 2) with 0
    by (rewrite Hl, Nat2Z.inj_mul, Z.mul_comm; symmetry; apply Z.rem_mul; lia).
  cbn [orb negb Z.eqb].
  rewrite Z.quot_div_nonneg, Hdiv, Nat2Z.id by lia.
  pose proof (unhex_loop_spec s a Hs [] (Byte.x00 :: z) [] old eq_refl Hold) as E.
  cbn [app length] in E. by rewrite (E : unhex_loop (length a) 0 _ _ = _).
Qed.

(** ** The order *)

Lemma compare_loop_spec a : forall b pre pre' ra rb,
  length pre = length pre' ->
  compare_loop (Nat.min (length a) (length b)) (Z.of_nat (length pre))
    (pre ++ a ++ ra) (pre' ++ b ++ rb)
  = Some (match lex (take (Nat.min (length a) (length b)) a)
                    (take (Nat.min (length a) (length b)) b) with
          | Eq => None | c => Some (sign c) end).
Proof.
  induction a as [|x a IH]; intros [|y b] pre pre' ra rb Hp; try done.
  cbn [length Nat.min compare_loop take lex app].
  rewrite peek_mid. cbn [mbind option_bind].
  rewrite Hp, peek_mid, <-Hp. cbn [mbind option_bind].
  destruct (Z.compare_spec (uchar x) (uchar y)) as [E|E|E].
  - rewrite (proj2 (Z.eqb_eq _ _)) by done.
    replace (pre ++ x :: a ++ ra) with ((pre ++ [x]) ++ a ++ ra) by by rewrite <-app_assoc.
    replace (pre' ++ y :: b ++ rb) with ((pre' ++ [y]) ++ b ++ rb) by by rewrite <-app_assoc.
    replace (Z.of_nat (length pre) + 1) with (Z.of_nat (length (pre ++ [x])))
      by (rewrite length_app; cbn; lia).
    apply IH. rewrite !length_app. cbn. lia.
  - rewrite (proj2 (Z.eqb_neq _ _)), (proj2 (Z.ltb_lt _ _)) by lia. done.
  - rewrite (proj2 (Z.eqb_neq _ _)), (proj2 (Z.ltb_ge _ _)) by lia. done.
Qed.

(** Arrays that agree as far as both go are in the order of their lengths. *)
Lemma lex_take a : forall b,
  lex a b = match lex (take (Nat.min (length a) (length b)) a)
                      (take (Nat.min (length a) (length b)) b) with
            | Eq => Nat.compare (length a) (length b)
            | c => c
            end.
Proof.
  induction a as [|x a IH]; intros [|y b]; try done.
  cbn. destruct (uchar x ?= uchar y); [apply IH|done..].
Qed.

Lemma compare_two_hexadecimal_lex l r a b :
  holds l a -> holds r b ->
  memcached_compare_two_hexadecimal (Some l) (Some r) = Some (sign (lex a b)).
Proof.
  intros [Hl [ra Ha]] [Hr [rb Hb]]. unfold memcached_compare_two_hexadecimal, memory.
  rewrite Hl, Hr, Ha, Hb. cbn [default from_option id].
  replace (Z.to_nat _) with (Nat.min (length a) (length b)) by (case_match; lia).
  pose proof (compare_loop_spec a b [] [] ra rb eq_refl) as E. cbn [app length] in E.
  rewrite (E : compare_loop _ 0 _ _ = _). cbn [mbind option_bind].
  rewrite (lex_take a b). destruct (lex (take _ a) _); [|done..].
  destruct (Nat.compare_spec (length a) (length b)).
  - by rewrite (proj2 (Z.eqb_eq _ _)) by lia.
  - by rewrite (proj2 (Z.eqb_neq _ _)), (proj2 (Z.ltb_lt _ _)) by lia.
  - by rewrite (proj2 (Z.eqb_neq _ _)), (proj2 (Z.ltb_ge _ _)) by lia.
Qed.

(** Texts of the same case are in the order of what they stand for. *)
Lemma strcmp_hex_text a : forall b, strcmp (hex_text a) (hex_text b) = lex a b.
Proof.
  induction a as [|x a IH]; intros [|y b]; try done.
  change (hex_text (x :: a)) with (hex_of_byte x ++ hex_text a).
  change (hex_text (y :: b)) with (hex_of_byte y ++ hex_text b).
  destruct (halves x) as [X1 X2], (halves y) as [Y1 Y2].
  rewrite !hex_of_byte_chars. cbn [app strcmp lex].
  rewrite !hex_char_compare by done. rewrite IH.
  pose proof (Z.div_mod (uchar x) 16 ltac:(lia)) as Hx.
  pose proof (Z.div_mod (uchar y) 16 ltac:(lia)) as Hy.
  destruct (Z.compare_spec (uchar x / 16) (uchar y / 16)),
    (Z.compare_spec (uchar x mod 16) (uchar y mod 16)),
    (Z.compare_spec (uchar x) (uchar y)); done || lia.
Qed.

Lemma lex_refl a : lex a a = Eq.
Proof. induction a as [|x a IH]; [done|]. cbn. by rewrite Z.compare_refl. Qed.

(** ** Properties *)

(** C37: The text of a byte array of 1 to 31 bytes is read back. Whatever was in
    the buffer of 63 bytes and behind the array, conversion to text succeeds and leaves
    a string of two digits for every byte, 0 to 9 and A to F; and from that string, or
    one with any of the digits A to F in the other case, conversion to a new array,
    for which there is memory, gives the bytes, an array that compares equal and
    belongs to the library. *)
Theorem hexadecimal_roundtrip calloc (h h0 : memcached_hexadecimal_st) (a s junk z : bytes) :
  holds h a -> a <> [] -> Z.of_nat (length a) <= MEMCACHED_COLL_MAX_BYTE_ARRAY_LENGTH ->
  Z.of_nat (length junk) = MEMCACHED_COLL_MAX_BYTE_STRING_LENGTH ->
  array h0 = None -> calloc (Z.of_nat (length a)) = Some (replicate (length a) Byte.x00) ->
  text_of s a ->
  (exists buffer,
     memcached_conv_hex_to_str h junk MEMCACHED_COLL_MAX_BYTE_STRING_LENGTH
     = Some (MEMCACHED_SUCCESS, buffer)
     /\ length buffer = length junk
     /\ cstring buffer = Some (hex_text a) /\ text_of (hex_text a) a)
  /\ (exists h',
        memcached_conv_str_to_hex calloc (s ++ Byte.x00 :: z) (Z.of_nat (length s)) (Some h0)
        = Some (MEMCACHED_SUCCESS, Some h')
        /\ array h' = Some a /\ array_length h' = Z.of_nat (length a)
        /\ array_is_allocated h' = true
        /\ memcached_compare_two_hexadecimal (Some h) (Some h') = Some 0).
Proof.
  intros Hh Hne Hlen Hj H0 Hc Hs. pose proof (text_of_length s a Hs) as Hl.
  unfold MEMCACHED_COLL_MAX_BYTE_STRING_LENGTH, MEMCACHED_COLL_MAX_BYTE_ARRAY_LENGTH in *.
  split.
  - eexists. split; [apply conv_hex_to_str_spec; [exact Hh|lia..]|].
    split; [|split; [apply cstring_app, hex_text_no_nul|apply text_of_hex]].
    rewrite length_app, hex_text_length. cbn [length]. rewrite length_drop. lia.
  - eexists. split.
    { apply (conv_str_to_hex_spec calloc s a z h0 (replicate (length a) Byte.x00) Hs Hne).
      - unfold MEMCACHED_COLL_MAX_BYTE_STRING_LENGTH, MEMCACHED_COLL_MAX_BYTE_ARRAY_LENGTH. lia.
      - by rewrite H0.
      - by rewrite length_replicate. }
    cbn [array array_length array_is_allocated].
    rewrite drop_ge, app_nil_r by (rewrite length_replicate; lia).
    repeat split. rewrite (compare_two_hexadecimal_lex h _ a a Hh); [by rewrite lex_refl|].
    split; [done|]. exists []. by rewrite app_nil_r.
Qed.

Definition cleared (n : Z) : option bytes := Some (replicate (Z.to_nat n) Byte.x00).
Definition no_array : memcached_hexadecimal_st :=
  {| array := None; array_length := 0; array_is_allocated := false |}.
Definition two_bytes : memcached_hexadecimal_st :=
  {| array := Some [Byte.x00; Byte.xff]; array_length := 2; array_is_allocated := false |}.

Lemma hexadecimal_roundtrip_witness :
  exists h', memcached_conv_str_to_hex cleared (str "00fF" ++ [Byte.x00]) 4 (Some no_array)
             = Some (MEMCACHED_SUCCESS, Some h')
             /\ array h' = Some [Byte.x00; Byte.xff].
Proof.
  destruct (hexadecimal_roundtrip cleared two_bytes no_array [Byte.x00; Byte.xff] (str "00fF")
              (replicate 63 Byte.x41) []) as [_ (h' & E & Ha & _)].
  - split; [done|]. by exists [].
  - done.
  - vm_compute. discriminate.
  - done.
  - done.
  - done.
  - apply (text_cons Byte.x30 Byte.x30 0 0); [by apply (bool_decide_unpack _); vm_compute..|].
    apply (text_cons Byte.x66 Byte.x46 15 15); [by apply (bool_decide_unpack _); vm_compute..|constructor].
  - exists h'. split; [exact E|exact Ha].
Defined.

(** The comparison of byte arrays is the lexicographic order of the bytes,
    a shorter array before those it begins, it never reads behind an array, and
    it is the order of the texts that are sent for the arrays. *)
Theorem memcached_compare_two_hexadecimal_spec (l r : memcached_hexadecimal_st) (a b : bytes) :
  holds l a -> holds r b ->
  memcached_compare_two_hexadecimal (Some l) (Some r) = Some (sign (lex a b))
  /\ sign (lex a b) = sign (strcmp (hex_text a) (hex_text b)).
Proof.
  intros Hl Hr. rewrite strcmp_hex_text. split; [|done]. by apply compare_two_hexadecimal_lex.
Qed.

Lemma memcached_compare_two_hexadecimal_spec_witness :
  memcached_compare_two_hexadecimal (Some two_bytes)
    (Some (two_bytes <| array_length := 1 |>)) = Some 1.
Proof.
  destruct (memcached_compare_two_hexadecimal_spec two_bytes (two_bytes <| array_length := 1 |>)
              [Byte.x00; Byte.xff] [Byte.x00]) as [E _].
  - split; [done|]. by exists [].
  - split; [done|]. by exists [Byte.xff].
  - exact E.
Defined.

(** ** What modelling showed *)

(** A text that goes on behind its digits, as the lines of an answer do, is too
    long for the array: it is left as it is, and success is reported. *)
Lemma conv_str_to_hex_with_end_of_line :
  memcached_conv_str_to_hex cleared (str "0102" ++ [Byte.x0d; Byte.x0a; Byte.x00]) 4 (Some no_array)
  = Some (MEMCACHED_SUCCESS,
          Some {| array := Some [Byte.x00; Byte.x00]; array_length := 2;
                  array_is_allocated := true |}).
Proof. reflexivity. Qed.

(** So is a text that is not made of digits. *)
Lemma conv_str_to_hex_no_digits :
  memcached_conv_str_to_hex cleared (str "zz" ++ [Byte.x00]) 2 (Some no_array)
  = Some (MEMCACHED_SUCCESS,
          Some {| array := Some [Byte.x00]; array_length := 1; array_is_allocated := true |}).
Proof. reflexivity. Qed.

(** An array that is too short for the text is written behind its end. *)
Lemma conv_str_to_hex_overflow :
  memcached_conv_str_to_hex cleared (str "0102" ++ [Byte.x00]) 4
    (Some (no_array <| array := Some [Byte.x00] |>)) = None.
Proof. reflexivity. Qed.

(** A buffer that is as long as the check asks for is not long enough for the
    prefix and the NUL. *)
Lemma hexadecimal_to_str_overflow :
  memcached_hexadecimal_to_str two_bytes (replicate 5 Byte.x00) 5 = None
  /\ memcached_hexadecimal_to_str two_bytes (replicate 7 Byte.x00) 7
     = Some (6, str "0x00FF" ++ [Byte.x00]).
Proof. by split. Qed.
