(* ===== verification/Collection.v ===== *)
(** Collections: the data of collection.h and the functions of collection.cc that
    make commands of it and sum up the answers of a pipe.

    A buffer holds [junk] where the code leaves it uninitialised.  [None] is a
    read or a write outside of it. *)
From Stdlib Require Import Strings.Byte.
From S2P Require Import Prelude HashFunctions Hashkit Memcached Text StringBuf Hexadecimal.

(** ** Names *)

Inductive memcached_coll_action_t :=
  | LOP_INSERT_OP | LOP_GET_OP | LOP_DELETE_OP
  | SOP_INSERT_OP | SOP_GET_OP | SOP_DELETE_OP | SOP_EXIST_OP
  | MOP_INSERT_OP | MOP_UPSERT_OP | MOP_UPDATE_OP | MOP_GET_OP | MOP_DELETE_OP
  | BOP_INSERT_OP | BOP_GET_OP | BOP_DELETE_OP
  | SETATTRS_OP | GETATTRS_OP
  | LOP_CREATE_OP | SOP_CREATE_OP | MOP_CREATE_OP | BOP_CREATE_OP
  | BOP_UPSERT_OP | BOP_UPDATE_OP | BOP_INCR_OP | BOP_DECR_OP | BOP_COUNT_OP
  | BOP_SMGET_OP | BOP_MGET_OP | BOP_POSI_OP | BOP_GBP_OP | BOP_PWG_OP
  | UNKNOWN_OP.

Definition coll_op_string (verb : memcached_coll_action_t) : bytes :=
  str match verb with
      | LOP_INSERT_OP => "lop insert "
      | LOP_GET_OP => "lop get "
      | LOP_DELETE_OP => "lop delete "
      | SOP_INSERT_OP => "sop insert "
      | SOP_GET_OP => "sop get "
      | SOP_DELETE_OP => "sop delete "
      | SOP_EXIST_OP => "sop exist "
      | MOP_INSERT_OP => "mop insert "
      | MOP_UPSERT_OP => "mop upsert "
      | MOP_UPDATE_OP => "mop update "
      | MOP_GET_OP => "mop get "
      | MOP_DELETE_OP => "mop delete "
      | BOP_INSERT_OP => "bop insert "
      | BOP_GET_OP => "bop get "
      | BOP_DELETE_OP => "bop delete "
      | SETATTRS_OP => "setattr "
      | GETATTRS_OP => "getattr "
      | LOP_CREATE_OP => "lop create "
      | SOP_CREATE_OP => "sop create "
      | MOP_CREATE_OP => "mop create "
      | BOP_CREATE_OP => "bop create "
      | BOP_UPSERT_OP => "bop upsert "
      | BOP_UPDATE_OP => "bop update "
      | BOP_INCR_OP => "bop incr "
      | BOP_DECR_OP => "bop decr "
      | BOP_COUNT_OP => "bop count "
      | BOP_SMGET_OP => "bop smget "
      | BOP_MGET_OP => "bop mget "
      | BOP_POSI_OP => "bop position "
      | BOP_GBP_OP => "bop gbp "
      | BOP_PWG_OP => "bop pwg "
      | UNKNOWN_OP => "unknown"
      end.

Definition coll_op_length (verb : memcached_coll_action_t) : Z :=
  match verb with
  | LOP_INSERT_OP => 11
  | LOP_GET_OP => 8
  | LOP_DELETE_OP => 11
  | SOP_INSERT_OP => 11
  | SOP_GET_OP => 8
  | SOP_DELETE_OP => 11
  | SOP_EXIST_OP => 10
  | MOP_INSERT_OP => 11
  | MOP_UPSERT_OP => 11
  | MOP_UPDATE_OP => 11
  | MOP_GET_OP => 8
  | MOP_DELETE_OP => 11
  | BOP_INSERT_OP => 11
  | BOP_GET_OP => 8
  | BOP_DELETE_OP => 11
  | SETATTRS_OP => 8
  | GETATTRS_OP => 8
  | LOP_CREATE_OP => 11
  | SOP_CREATE_OP => 11
  | MOP_CREATE_OP => 11
  | BOP_CREATE_OP => 11
  | BOP_UPSERT_OP => 11
  | BOP_UPDATE_OP => 11
  | BOP_INCR_OP => 9
  | BOP_DECR_OP => 9
  | BOP_COUNT_OP => 10
  | BOP_SMGET_OP => 10
  | BOP_MGET_OP => 9
  | BOP_POSI_OP => 13
  | BOP_GBP_OP => 8
  | BOP_PWG_OP => 8
  | UNKNOWN_OP => 0
  end.

Inductive memcached_coll_type_t :=
  | COLL_NONE | COLL_KV | COLL_LIST | COLL_SET | COLL_MAP | COLL_BTREE.

#[export] Instance memcached_coll_type_eq_dec : EqDecision memcached_coll_type_t.
Proof. solve_decision. Defined.

Definition find_collection_type_by_opcode (opcode : bytes) : option memcached_coll_type_t :=
  c ← peek opcode 0;
  Some (if bool_decide (c = Byte.x6c) then COLL_LIST
        else if bool_decide (c = Byte.x73) then COLL_SET
        else if bool_decide (c = Byte.x6d) then COLL_MAP
        else if bool_decide (c = Byte.x62) then COLL_BTREE
        else COLL_NONE).

Inductive memcached_coll_overflowaction_t :=
  | OVERFLOWACTION_NONE
  | OVERFLOWACTION_ERROR
  | OVERFLOWACTION_HEAD_TRIM
  | OVERFLOWACTION_TAIL_TRIM
  | OVERFLOWACTION_SMALLEST_TRIM
  | OVERFLOWACTION_LARGEST_TRIM
  | OVERFLOWACTION_SMALLEST_SILENT_TRIM
  | OVERFLOWACTION_LARGEST_SILENT_TRIM.

#[export] Instance memcached_coll_overflowaction_eq_dec : EqDecision memcached_coll_overflowaction_t.
Proof. solve_decision. Defined.

Definition coll_overflowaction_string (a : memcached_coll_overflowaction_t) : bytes :=
  str match a with
      | OVERFLOWACTION_ERROR => "error"
      | OVERFLOWACTION_HEAD_TRIM => "head_trim"
      | OVERFLOWACTION_TAIL_TRIM => "tail_trim"
      | OVERFLOWACTION_SMALLEST_TRIM => "smallest_trim"
      | OVERFLOWACTION_LARGEST_TRIM => "largest_trim"
      | OVERFLOWACTION_SMALLEST_SILENT_TRIM => "smallest_silent_trim"
      | OVERFLOWACTION_LARGEST_SILENT_TRIM => "largest_silent_trim"
      | OVERFLOWACTION_NONE => "uninitialized"
      end.

(** [strncmp(lit, s, n) == 0], for a literal without NUL; [s] is a string, what
    follows its NUL is not looked at. *)
Fixpoint strncmp_eq (lit s : bytes) (n : nat) : option bool :=
  match n with
  | O => Some true
  | S n =>
      match s with
      | [] => None
      | x :: s =>
          match lit with
          | [] => Some (bool_decide (x = Byte.x00))
          | c :: lit => if bool_decide (x = c) then strncmp_eq lit s n else Some false
          end
      end
  end.

(** The first name that the value begins like. *)
Fixpoint prefix_match {A} (table : list (bytes * A)) (none : A) (value : bytes) (n : nat) : option A :=
  match table with
  | [] => Some none
  | (lit, a) :: table =>
      same ← strncmp_eq lit value n;
      if same : bool then Some a else prefix_match table none value n
  end.

Definition str_to_overflowaction (value : bytes) (value_length : nat)
    : option memcached_coll_overflowaction_t :=
  prefix_match [(str "error", OVERFLOWACTION_ERROR);
               (str "head_trim", OVERFLOWACTION_HEAD_TRIM);
               (str "tail_trim", OVERFLOWACTION_TAIL_TRIM);
               (str "smallest_trim", OVERFLOWACTION_SMALLEST_TRIM);
               (str "largest_trim", OVERFLOWACTION_LARGEST_TRIM);
               (str "smallest_silent_trim", OVERFLOWACTION_SMALLEST_SILENT_TRIM);
               (str "largest_silent_trim", OVERFLOWACTION_LARGEST_SILENT_TRIM)]
    OVERFLOWACTION_NONE value value_length.

Definition str_to_type (value : bytes) (value_length : nat) : option memcached_coll_type_t :=
  prefix_match [(str "kv", COLL_KV); (str "list", COLL_LIST); (str "set", COLL_SET);
               (str "map", COLL_MAP); (str "b+tree", COLL_BTREE)]
    COLL_NONE value value_length.

Inductive memcached_coll_order_t := MEMCACHED_COLL_ORDER_ASC | MEMCACHED_COLL_ORDER_DESC.

Definition order_to_str (order : memcached_coll_order_t) : bytes :=
  str match order with
      | MEMCACHED_COLL_ORDER_ASC => "asc"
      | MEMCACHED_COLL_ORDER_DESC => "desc"
      end.

Definition space_separated_keys_is_supported (instance : memcached_server_st) : bool :=
  if (major_version instance =? 255) || (minor_version instance =? 255) then false
  else if is_enterprise instance
  then (major_version instance >? 0)
       || ((major_version instance =? 0) && (minor_version instance >=? 7))
  else (major_version instance >? 1)
       || ((major_version instance =? 1) && (minor_version instance >=? 11)).

(** ** Queries *)

Inductive memcached_coll_sub_key_type_t :=
  | MEMCACHED_COLL_QUERY_LOP
  | MEMCACHED_COLL_QUERY_LOP_RANGE
  | MEMCACHED_COLL_QUERY_SOP
  | MEMCACHED_COLL_QUERY_MOP
  | MEMCACHED_COLL_QUERY_MOP_RANGE
  | MEMCACHED_COLL_QUERY_BOP
  | MEMCACHED_COLL_QUERY_BOP_RANGE
  | MEMCACHED_COLL_QUERY_BOP_EXT
  | MEMCACHED_COLL_QUERY_BOP_EXT_RANGE
  | MEMCACHED_COLL_QUERY_UNKNOWN.

#[export] Instance memcached_coll_sub_key_type_eq_dec : EqDecision memcached_coll_sub_key_type_t.
Proof. solve_decision. Defined.

Inductive memcached_coll_smget_mode_t :=
  | MEMCACHED_COLL_SMGET_NONE
  | MEMCACHED_COLL_SMGET_DUPLICATE
  | MEMCACHED_COLL_SMGET_UNIQUE.

#[export] Instance memcached_coll_smget_mode_eq_dec : EqDecision memcached_coll_smget_mode_t.
Proof. solve_decision. Defined.

(** [struct memcached_mkey_st]. *)
Record memcached_mkey_st := {
  mkey_string : bytes;
  mkey_length : Z;
  mkey_string_array : list bytes;
  mkey_length_array : list Z;
  number_of_mkeys : Z;
}.

#[export] Instance mkey_fields : Fields memcached_mkey_st := fun r =>
  {| mkey_string := mkey_string r; mkey_length := mkey_length r;
     mkey_string_array := mkey_string_array r; mkey_length_array := mkey_length_array r;
     number_of_mkeys := number_of_mkeys r |}.

(** [union memcached_coll_sub_key_st], by the member that was stored; to read
    another one is not defined here. *)
Inductive memcached_coll_sub_key_st :=
  | sub_index (index : Z)
  | sub_index_range (from to : Z)
  | sub_bkey (bkey : Z)
  | sub_bkey_range (from to : Z)
  | sub_bkey_ext (bkey : memcached_hexadecimal_st)
  | sub_bkey_ext_range (from to : memcached_hexadecimal_st)
  | sub_mkey (mkey : memcached_mkey_st).

Inductive memcached_coll_bitwise_t :=
  | MEMCACHED_COLL_BITWISE_AND | MEMCACHED_COLL_BITWISE_OR | MEMCACHED_COLL_BITWISE_XOR.

Inductive memcached_coll_comp_t :=
  | MEMCACHED_COLL_COMP_EQ | MEMCACHED_COLL_COMP_NE
  | MEMCACHED_COLL_COMP_LT | MEMCACHED_COLL_COMP_LE
  | MEMCACHED_COLL_COMP_GT | MEMCACHED_COLL_COMP_GE.

#[export] Instance memcached_coll_comp_eq_dec : EqDecision memcached_coll_comp_t.
Proof. solve_decision. Defined.

(** [struct memcached_coll_eflag_filter_st]; there are
    [MEMCACHED_COLL_MAX_EFLAGS_COUNT] values. *)
Record memcached_coll_eflag_filter_st := {
  filter_offset : Z;
  bitwise_op : memcached_coll_bitwise_t;
  bitwise_value : memcached_hexadecimal_st;
  comp_op : memcached_coll_comp_t;
  comp_values : list memcached_hexadecimal_st;
  comp_count : Z;
  filter_is_initialized : bool;
  filter_is_bitwised : bool;
}.

#[export] Instance filter_fields : Fields memcached_coll_eflag_filter_st := fun r =>
  {| filter_offset := filter_offset r; bitwise_op := bitwise_op r;
     bitwise_value := bitwise_value r; comp_op := comp_op r; comp_values := comp_values r;
     comp_count := comp_count r; filter_is_initialized := filter_is_initialized r;
     filter_is_bitwised := filter_is_bitwised r |}.

(** [struct memcached_coll_eflag_update_st]. *)
Record memcached_coll_eflag_update_st := {
  update_offset : Z;
  update_bitwop : memcached_coll_bitwise_t;
  update_value : memcached_hexadecimal_st;
  update_is_initialized : bool;
  update_is_bitwised : bool;
}.

#[export] Instance update_fields : Fields memcached_coll_eflag_update_st := fun r =>
  {| update_offset := update_offset r; update_bitwop := update_bitwop r;
     update_value := update_value r; update_is_initialized := update_is_initialized r;
     update_is_bitwised := update_is_bitwised r |}.

(** [struct memcached_coll_query_st]. *)
Record memcached_coll_query_st := {
  query_type : memcached_coll_sub_key_type_t;
  sub_key : memcached_coll_sub_key_st;
  query_value : option bytes;
  query_value_length : Z;
  query_offset : Z;
  query_count : Z;
  eflag_filter : option memcached_coll_eflag_filter_st;
  smgmode : memcached_coll_smget_mode_t;
  query_is_initialized : bool;
}.

#[export] Instance query_fields : Fields memcached_coll_query_st := fun r =>
  {| query_type := query_type r; sub_key := sub_key r; query_value := query_value r;
     query_value_length := query_value_length r; query_offset := query_offset r;
     query_count := query_count r; eflag_filter := eflag_filter r; smgmode := smgmode r;
     query_is_initialized := query_is_initialized r |}.

Definition memcached_coll_query_init (ptr : memcached_coll_query_st) : memcached_coll_query_st :=
  ptr <| query_is_initialized := true |> <| query_value := None |> <| query_value_length := 0 |>
      <| query_offset := 0 |> <| query_count := 0 |> <| eflag_filter := None |>
      <| smgmode := MEMCACHED_COLL_SMGET_NONE |>.

Definition memcached_lop_query_init (ptr : memcached_coll_query_st) (index : Z)
    : memcached_return_t * memcached_coll_query_st :=
  (MEMCACHED_SUCCESS,
   (memcached_coll_query_init ptr) <| query_type := MEMCACHED_COLL_QUERY_LOP |>
                                 <| sub_key := sub_index index |>).

Definition memcached_lop_range_query_init (ptr : memcached_coll_query_st) (index_from index_to : Z)
    : memcached_return_t * memcached_coll_query_st :=
  (MEMCACHED_SUCCESS,
   (memcached_coll_query_init ptr) <| query_type := MEMCACHED_COLL_QUERY_LOP_RANGE |>
                                 <| sub_key := sub_index_range index_from index_to |>).

Definition memcached_sop_query_init (ptr : memcached_coll_query_st) (count : Z)
    : memcached_return_t * memcached_coll_query_st :=
  (MEMCACHED_SUCCESS,
   (memcached_coll_query_init ptr) <| query_type := MEMCACHED_COLL_QUERY_SOP |>
                                 <| query_count := count |>).

Definition memcached_sop_value_query_init (ptr : memcached_coll_query_st) (value : bytes)
    (value_length : Z) : memcached_return_t * memcached_coll_query_st :=
  (MEMCACHED_SUCCESS,
   (memcached_coll_query_init ptr) <| query_type := MEMCACHED_COLL_QUERY_SOP |>
                                 <| query_value := Some value |>
                                 <| query_value_length := value_length |>).

(** The fields of [mkey] that are not assigned keep what the union held: those
    of an older [mkey], or [junk]. *)
Definition mkey_of (junk : memcached_mkey_st) (s : memcached_coll_sub_key_st) : memcached_mkey_st :=
  match s with sub_mkey m => m | _ => junk end.

Definition memcached_mop_query_init (junk : memcached_mkey_st) (ptr : memcached_coll_query_st)
    (mkey : bytes) (mkey_length_ : Z) : memcached_return_t * memcached_coll_query_st :=
  (MEMCACHED_SUCCESS,
   (memcached_coll_query_init ptr) <| query_type := MEMCACHED_COLL_QUERY_MOP |>
     <| sub_key ::= fun s => sub_mkey ((mkey_of junk s) <| mkey_string := mkey |>
                                                      <| mkey_length := mkey_length_ |>) |>).

Definition memcached_mop_mkey_list_query_init (junk : memcached_mkey_st)
    (ptr : memcached_coll_query_st) (mkeys : list bytes) (mkeys_length : list Z) (number : Z)
    : memcached_return_t * memcached_coll_query_st :=
  (MEMCACHED_SUCCESS,
   (memcached_coll_query_init ptr) <| query_type := MEMCACHED_COLL_QUERY_MOP_RANGE |>
     <| sub_key ::= fun s => sub_mkey ((mkey_of junk s) <| mkey_string_array := mkeys |>
                                                      <| mkey_length_array := mkeys_length |>
                                                      <| number_of_mkeys := number |>) |>).

Definition memcached_bop_query_init (ptr : memcached_coll_query_st) (bkey : Z)
    (filter : option memcached_coll_eflag_filter_st)
    : memcached_return_t * memcached_coll_query_st :=
  (MEMCACHED_SUCCESS,
   (memcached_coll_query_init ptr) <| query_type := MEMCACHED_COLL_QUERY_BOP |>
                                 <| sub_key := sub_bkey bkey |> <| eflag_filter := filter |>).

Definition memcached_bop_range_query_init (ptr : memcached_coll_query_st) (bkey_from bkey_to : Z)
    (filter : option memcached_coll_eflag_filter_st) (offset count : Z)
    : memcached_return_t * memcached_coll_query_st :=
  (MEMCACHED_SUCCESS,
   (memcached_coll_query_init ptr) <| query_type := MEMCACHED_COLL_QUERY_BOP_RANGE |>
     <| sub_key := sub_bkey_range bkey_from bkey_to |> <| eflag_filter := filter |>
     <| query_offset := offset |> <| query_count := count |>).

(** The pointer and the length assigned; the flag of the allocation is not. *)
Definition hex_of (junk : bool) (a : bytes) (length : Z) : memcached_hexadecimal_st :=
  {| array := Some a; array_length := length; array_is_allocated := junk |}.

(** The checks of a key that is a byte array; [None] is NULL. *)
Definition bad_bkey (bkey : option bytes) (length : Z) : bool :=
  bool_decide (bkey = None) || (length =? 0) || (length >? MEMCACHED_COLL_MAX_BYTE_ARRAY_LENGTH).

Definition memcached_bop_ext_query_init (junk : bool) (ptr : memcached_coll_query_st)
    (bkey : option bytes) (bkey_length : Z) (filter : option memcached_coll_eflag_filter_st)
    : memcached_return_t * memcached_coll_query_st :=
  if bad_bkey bkey bkey_length then (MEMCACHED_INVALID_ARGUMENTS, ptr)
  else
    (MEMCACHED_SUCCESS,
     (memcached_coll_query_init ptr) <| query_type := MEMCACHED_COLL_QUERY_BOP_EXT |>
       <| sub_key := sub_bkey_ext (hex_of junk (default [] bkey) bkey_length) |>
       <| eflag_filter := filter |>).

Definition memcached_bop_ext_range_query_init (junk : bool) (ptr : memcached_coll_query_st)
    (bkey_from : option bytes) (bkey_from_length : Z) (bkey_to : option bytes) (bkey_to_length : Z)
    (filter : option memcached_coll_eflag_filter_st) (offset count : Z)
    : memcached_return_t * memcached_coll_query_st :=
  if bad_bkey bkey_from bkey_from_length || bad_bkey bkey_to bkey_to_length
  then (MEMCACHED_INVALID_ARGUMENTS, ptr)
  else
    (MEMCACHED_SUCCESS,
     (memcached_coll_query_init ptr) <| query_type := MEMCACHED_COLL_QUERY_BOP_EXT_RANGE |>
       <| sub_key := sub_bkey_ext_range (hex_of junk (default [] bkey_from) bkey_from_length)
                                        (hex_of junk (default [] bkey_to) bkey_to_length) |>
       <| eflag_filter := filter |> <| query_offset := offset |> <| query_count := count |>).

Definition smget_mode (unique : bool) : memcached_coll_smget_mode_t :=
  if unique then MEMCACHED_COLL_SMGET_UNIQUE else MEMCACHED_COLL_SMGET_DUPLICATE.

Definition memcached_bop_smget_query_init (ptr : memcached_coll_query_st) (bkey_from bkey_to : Z)
    (filter : option memcached_coll_eflag_filter_st) (count : Z) (unique : bool)
    : memcached_return_t * memcached_coll_query_st :=
  (MEMCACHED_SUCCESS,
   (memcached_coll_query_init ptr) <| query_type := MEMCACHED_COLL_QUERY_BOP_RANGE |>
     <| sub_key := sub_bkey_range bkey_from bkey_to |> <| eflag_filter := filter |>
     <| query_offset := 0 |> <| query_count := count |> <| smgmode := smget_mode unique |>).

Definition memcached_bop_ext_smget_query_init (junk : bool) (ptr : memcached_coll_query_st)
    (bkey_from : option bytes) (bkey_from_length : Z) (bkey_to : option bytes) (bkey_to_length : Z)
    (filter : option memcached_coll_eflag_filter_st) (count : Z) (unique : bool)
    : memcached_return_t * memcached_coll_query_st :=
  if bad_bkey bkey_from bkey_from_length || bad_bkey bkey_to bkey_to_length
  then (MEMCACHED_INVALID_ARGUMENTS, ptr)
  else
    (MEMCACHED_SUCCESS,
     (memcached_coll_query_init ptr) <| query_type := MEMCACHED_COLL_QUERY_BOP_EXT_RANGE |>
       <| sub_key := sub_bkey_ext_range (hex_of junk (default [] bkey_from) bkey_from_length)
                                        (hex_of junk (default [] bkey_to) bkey_to_length) |>
       <| eflag_filter := filter |> <| query_offset := 0 |> <| query_count := count |>
       <| smgmode := smget_mode unique |>).

(** ** Text *)

(** [%d]. *)
Definition print_i32 (n : Z) : bytes := if n <? 0 then str "-" ++ print_u32 (- n) else print_u32 n.

(** An array printed by way of [value_str], with what that holds then.  The code
    of the conversion is not looked at. *)
Definition print_hex (h : memcached_hexadecimal_st) (value_str : bytes) : option (bytes * bytes) :=
  '(_, value_str) ← memcached_conv_hex_to_str h value_str MEMCACHED_COLL_MAX_BYTE_STRING_LENGTH;
  text ← cstring value_str;
  Some (text, value_str).

(** The text printed, [None] when the type has none here. *)
Definition bkey_text (junk junk' : bytes) (query : memcached_coll_query_st) (support_range : bool)
    : option (option bytes) :=
  match query_type query with
  | MEMCACHED_COLL_QUERY_BOP =>
      match sub_key query with
      | sub_bkey k => Some (Some (str " " ++ print_u64 k))
      | _ => None
      end
  | MEMCACHED_COLL_QUERY_BOP_EXT =>
      match sub_key query with
      | sub_bkey_ext k =>
          '(text, _) ← print_hex k junk;
          Some (Some (str " 0x" ++ text))
      | _ => None
      end
  | t =>
      if negb support_range then Some None
      else if bool_decide (t = MEMCACHED_COLL_QUERY_BOP_RANGE) then
        match sub_key query with
        | sub_bkey_range from to => Some (Some (str " " ++ print_u64 from ++ str ".." ++ print_u64 to))
        | _ => None
        end
      else if bool_decide (t = MEMCACHED_COLL_QUERY_BOP_EXT_RANGE) then
        match sub_key query with
        | sub_bkey_ext_range from to =>
            '(text_from, _) ← print_hex from junk;
            '(text_to, _) ← print_hex to junk';
            Some (Some (str " 0x" ++ text_from ++ str "..0x" ++ text_to))
        | _ => None
        end
      else Some None
  end.

(** Whether the type is one of a single key, or ranges are supported. *)
Definition bkey_supported (query : memcached_coll_query_st) (support_range : bool) : bool :=
  bool_decide (query_type query = MEMCACHED_COLL_QUERY_BOP)
  || bool_decide (query_type query = MEMCACHED_COLL_QUERY_BOP_EXT) || support_range.

(** The length, or -1 with the error; and the buffer. *)
Definition generate_str_bkey_from_query (junk junk' : bytes) (query : memcached_coll_query_st)
    (buffer : bytes) (buffer_length : Z) (support_range : bool)
    : option (Z * option memcached_return_t * bytes) :=
  text ← bkey_text junk junk' query support_range;
  if negb (bkey_supported query support_range)
  then Some (-1, Some MEMCACHED_INVALID_ARGUMENTS, buffer)
  else
    '(write_length, buffer) ← (match text with
                               | Some text => snprintf_at buffer 0 buffer_length text
                               | None => Some (-1, buffer)
                               end);
    Some (if (write_length <? 0) || (write_length >=? buffer_length)
          then (-1, Some MEMCACHED_MEMORY_ALLOCATION_FAILURE, buffer)
          else (write_length, None, buffer)).

(** ** Filters *)

Definition MEMCACHED_COLL_MAX_EFLAGS_COUNT : Z := 100.
Definition MEMCACHED_COLL_MAX_FILTER_STR_LENGTH : Z := 150 + (MEMCACHED_COLL_MAX_EFLAGS_COUNT - 1) * 65.
Definition MEMCACHED_COLL_UPD_FILTER_STR_LENGTH : Z := 80.

Definition bitwise_to_str (bitwise : memcached_coll_bitwise_t) : bytes :=
  str match bitwise with
      | MEMCACHED_COLL_BITWISE_AND => "&"
      | MEMCACHED_COLL_BITWISE_OR => "|"
      | MEMCACHED_COLL_BITWISE_XOR => "^"
      end.

Definition compare_to_str (comp : memcached_coll_comp_t) : bytes :=
  str match comp with
      | MEMCACHED_COLL_COMP_EQ => "EQ"
      | MEMCACHED_COLL_COMP_NE => "NE"
      | MEMCACHED_COLL_COMP_LT => "LT"
      | MEMCACHED_COLL_COMP_LE => "LE"
      | MEMCACHED_COLL_COMP_GT => "GT"
      | MEMCACHED_COLL_COMP_GE => "GE"
      end.

(** The loop over the values from [i] on; [write_length] stays far below what an
    [int] holds, as there are at most 100 values to read. *)
Fixpoint filter_values_loop (n : nat) (i : Z) (values : list memcached_hexadecimal_st)
    (value_str buffer : bytes) (buffer_length write_length : Z) : option (Z * bytes) :=
  match n with
  | O => Some (write_length, buffer)
  | S n =>
      v ← values !! Z.to_nat i;
      '(text, value_str) ← print_hex v value_str;
      '(len, buffer) ← snprintf_at buffer write_length (u64 (buffer_length - write_length))
                         ((if i =? 0 then [] else str ",") ++ str "0x" ++ text);
      filter_values_loop n (i + 1) values value_str buffer buffer_length (write_length + len)
  end.

Definition memcached_coll_eflag_filter_to_str (junk : bytes) (filter : memcached_coll_eflag_filter_st)
    (buffer : bytes) (buffer_length : Z) : option (Z * bytes) :=
  '(head, value_str) ←
    (if filter_is_bitwised filter then
       '(text, value_str) ← print_hex (bitwise_value filter) junk;
       Some (str " " ++ print_u32 (u32 (filter_offset filter)) ++ str " "
             ++ bitwise_to_str (bitwise_op filter) ++ str " 0x" ++ text ++ str " "
             ++ compare_to_str (comp_op filter) ++ str " ", value_str)
     else
       Some (str " " ++ print_u32 (u32 (filter_offset filter)) ++ str " "
             ++ compare_to_str (comp_op filter) ++ str " ", junk));
  '(write_length, buffer) ← snprintf_at buffer 0 buffer_length head;
  '(write_length, buffer) ←
    filter_values_loop (Z.to_nat (i32 (comp_count filter))) 0 (comp_values filter) value_str buffer
      buffer_length write_length;
  Some (if (write_length >=? buffer_length) || (write_length <? 0) then -1 else write_length,
        buffer).

Definition memcached_coll_eflag_update_to_str (junk : bytes) (update : memcached_coll_eflag_update_st)
    (buffer : bytes) (buffer_length : Z) : option (Z * bytes) :=
  '(text, _) ← print_hex (update_value update) junk;
  '(write_length, buffer) ←
    snprintf_at buffer 0 buffer_length
      (if update_is_bitwised update then
         str " " ++ print_u32 (u32 (update_offset update)) ++ str " "
         ++ bitwise_to_str (update_bitwop update) ++ str " 0x" ++ text
       else str " 0x" ++ text);
  Some (if (write_length >=? buffer_length) || (write_length <? 0) then -1 else write_length,
        buffer).

(** A value of the filter, as the caller's memory. *)
Definition eflag_of (value : bytes) (value_length : Z) : memcached_hexadecimal_st :=
  {| array := Some value; array_length := value_length; array_is_allocated := false |}.

(** [None] is NULL. *)
Definition memcached_coll_eflag_filter_init (ptr : option memcached_coll_eflag_filter_st)
    (offset : Z) (value : bytes) (value_length : Z) (op : memcached_coll_comp_t)
    : memcached_return_t * option memcached_coll_eflag_filter_st :=
  match ptr with
  | None => (MEMCACHED_INVALID_ARGUMENTS, ptr)
  | Some p =>
      if value_length >? MEMCACHED_COLL_MAX_BYTE_ARRAY_LENGTH
      then (MEMCACHED_INVALID_ARGUMENTS, ptr)
      else
        (MEMCACHED_SUCCESS,
         Some (p <| filter_is_initialized := true |> <| filter_is_bitwised := false |>
                 <| filter_offset := offset |> <| comp_op := op |>
                 <| comp_count := if value_length >? 0 then 1 else 0 |>
                 <| comp_values ::= <[0%nat := eflag_of value value_length]> |>))
  end.

(** The loop over the values, [n] from the position [i] on. *)
Fixpoint set_values (n i : nat) (values : bytes) (value_length : Z)
    (l : list memcached_hexadecimal_st) : list memcached_hexadecimal_st :=
  match n with
  | O => l
  | S n => set_values n (S i) values value_length
             (<[i := eflag_of (drop (i * Z.to_nat value_length) values) value_length]> l)
  end.

Definition memcached_coll_eflags_filter_init (ptr : option memcached_coll_eflag_filter_st)
    (offset : Z) (values : bytes) (value_length value_count : Z) (op : memcached_coll_comp_t)
    : memcached_return_t * option memcached_coll_eflag_filter_st :=
  match ptr with
  | None => (MEMCACHED_INVALID_ARGUMENTS, ptr)
  | Some p =>
      if value_length >? MEMCACHED_COLL_MAX_BYTE_ARRAY_LENGTH
      then (MEMCACHED_INVALID_ARGUMENTS, ptr)
      else if (bool_decide (op = MEMCACHED_COLL_COMP_EQ) || bool_decide (op = MEMCACHED_COLL_COMP_NE))
              && (value_count >? MEMCACHED_COLL_MAX_EFLAGS_COUNT)
      then (MEMCACHED_INVALID_ARGUMENTS, ptr)
      else if negb (bool_decide (op = MEMCACHED_COLL_COMP_EQ)
                    || bool_decide (op = MEMCACHED_COLL_COMP_NE)) && (value_count >? 1)
      then (MEMCACHED_INVALID_ARGUMENTS, ptr)
      else
        (MEMCACHED_SUCCESS,
         Some (p <| filter_is_initialized := true |> <| filter_is_bitwised := false |>
                 <| filter_offset := offset |> <| comp_op := op |> <| comp_count := value_count |>
                 <| comp_values ::= set_values (Z.to_nat value_count) 0 values value_length |>))
  end.

(** The first value is there in every filter: it has 100. *)
Definition memcached_coll_eflag_filter_set_bitwise (ptr : option memcached_coll_eflag_filter_st)
    (value : bytes) (value_length : Z) (op : memcached_coll_bitwise_t)
    : option (memcached_return_t * option memcached_coll_eflag_filter_st) :=
  match ptr with
  | None => Some (MEMCACHED_INVALID_ARGUMENTS, ptr)
  | Some p =>
      if negb (filter_is_initialized p) then Some (MEMCACHED_INVALID_ARGUMENTS, ptr)
      else
        first ← comp_values p !! 0%nat;
        if negb (array_length first =? value_length) then Some (MEMCACHED_INVALID_ARGUMENTS, ptr)
        else
          Some (MEMCACHED_SUCCESS,
                Some (p <| filter_is_bitwised := true |> <| bitwise_op := op |>
                        <| bitwise_value := eflag_of value value_length |>))
  end.

Definition memcached_coll_eflag_update_init (ptr : option memcached_coll_eflag_update_st)
    (value : bytes) (value_length : Z)
    : memcached_return_t * option memcached_coll_eflag_update_st :=
  match ptr with
  | None => (MEMCACHED_INVALID_ARGUMENTS, ptr)
  | Some p =>
      if value_length >? MEMCACHED_COLL_MAX_BYTE_ARRAY_LENGTH
      then (MEMCACHED_INVALID_ARGUMENTS, ptr)
      else
        (MEMCACHED_SUCCESS,
         Some (p <| update_is_initialized := true |> <| update_is_bitwised := false |>
                 <| update_value := eflag_of value value_length |>))
  end.

Definition memcached_coll_eflag_update_set_bitwise (ptr : option memcached_coll_eflag_update_st)
    (offset : Z) (op : memcached_coll_bitwise_t)
    : memcached_return_t * option memcached_coll_eflag_update_st :=
  match ptr with
  | None => (MEMCACHED_INVALID_ARGUMENTS, ptr)
  | Some p =>
      if negb (update_is_initialized p) then (MEMCACHED_INVALID_ARGUMENTS, ptr)
      else (MEMCACHED_SUCCESS,
            Some (p <| update_is_bitwised := true |> <| update_offset := offset |>
                    <| update_bitwop := op |>))
  end.

(** ** Sort-merge get *)

(** [struct memcached_coll_smget_result_st]; an array is [None] when it is NULL. *)
Record memcached_coll_smget_result_st := {
  smget_type : memcached_coll_type_t;
  smget_sub_key_type : memcached_coll_sub_key_type_t;
  smget_sub_keys : option (list memcached_coll_sub_key_st);
  smget_eflags : option (list memcached_hexadecimal_st);
  value_count : Z;
  smget_keys : option (list memcached_string_st);
  smget_flags : option (list Z);
  smget_bytes : option (list Z);
  smget_values : option (list memcached_string_st);
  missed_key_count : Z;
  missed_keys : option (list memcached_string_st);
  missed_causes : option (list memcached_return_t);
  trimmed_key_count : Z;
  trimmed_keys : option (list memcached_string_st);
  trimmed_sub_keys : option (list memcached_coll_sub_key_st);
  smget_offset : Z;
  smget_count : Z;
  smget_smgmode : memcached_coll_smget_mode_t;
  smget_is_allocated : bool;
  smget_is_initialized : bool;
  is_descending : bool;
}.

#[export] Instance smget_fields : Fields memcached_coll_smget_result_st := fun r =>
  {| smget_type := smget_type r; smget_sub_key_type := smget_sub_key_type r;
     smget_sub_keys := smget_sub_keys r; smget_eflags := smget_eflags r;
     value_count := value_count r; smget_keys := smget_keys r; smget_flags := smget_flags r;
     smget_bytes := smget_bytes r; smget_values := smget_values r;
     missed_key_count := missed_key_count r; missed_keys := missed_keys r;
     missed_causes := missed_causes r; trimmed_key_count := trimmed_key_count r;
     trimmed_keys := trimmed_keys r; trimmed_sub_keys := trimmed_sub_keys r;
     smget_offset := smget_offset r; smget_count := smget_count r;
     smget_smgmode := smget_smgmode r; smget_is_allocated := smget_is_allocated r;
     smget_is_initialized := smget_is_initialized r; is_descending := is_descending r |}.

Definition initialize_smget_result_from_query (result : memcached_coll_smget_result_st)
    (query : memcached_coll_query_st) : option memcached_coll_smget_result_st :=
  let result := result <| smget_sub_key_type := query_type query |>
                       <| smget_offset := query_offset query |>
                       <| smget_count := query_count query |>
                       <| smget_smgmode := smgmode query |> in
  match query_type query, sub_key query with
  | MEMCACHED_COLL_QUERY_BOP_RANGE, sub_bkey_range from to =>
      Some (if from >? to then result <| is_descending := true |> else result)
  | MEMCACHED_COLL_QUERY_BOP_RANGE, _ => None
  | MEMCACHED_COLL_QUERY_BOP_EXT_RANGE, sub_bkey_ext_range from to =>
      c ← memcached_compare_two_hexadecimal (Some from) (Some to);
      Some (if c =? 1 then result <| is_descending := true |> else result)
  | MEMCACHED_COLL_QUERY_BOP_EXT_RANGE, _ => None
  | _, _ => Some result
  end.

(** ** Pipes *)

(** What an answer does to the result of the pipe, and whether the loop stops. *)
Definition aggregate_exist (res response : memcached_return_t) : memcached_return_t * bool :=
  if bool_decide (response = MEMCACHED_EXIST) then
    if bool_decide (res = MEMCACHED_MAXIMUM_RETURN) then (MEMCACHED_ALL_EXIST, false)
    else if bool_decide (res = MEMCACHED_ALL_NOT_EXIST) then (MEMCACHED_SOME_EXIST, false)
    else if bool_decide (res = MEMCACHED_ALL_FAILURE) then (MEMCACHED_SOME_SUCCESS, true)
    else (res, false)
  else if bool_decide (response = MEMCACHED_NOT_EXIST) then
    if bool_decide (res = MEMCACHED_MAXIMUM_RETURN) then (MEMCACHED_ALL_NOT_EXIST, false)
    else if bool_decide (res = MEMCACHED_ALL_EXIST) then (MEMCACHED_SOME_EXIST, false)
    else if bool_decide (res = MEMCACHED_ALL_FAILURE) then (MEMCACHED_SOME_SUCCESS, true)
    else (res, false)
  else
    if bool_decide (res = MEMCACHED_MAXIMUM_RETURN) then (MEMCACHED_ALL_FAILURE, false)
    else if negb (bool_decide (res = MEMCACHED_ALL_FAILURE)) then (MEMCACHED_SOME_SUCCESS, true)
    else (res, false).

Definition aggregate_insert (res response : memcached_return_t) : memcached_return_t * bool :=
  if bool_decide (response = MEMCACHED_STORED) || bool_decide (response = MEMCACHED_CREATED_STORED)
  then
    if bool_decide (res = MEMCACHED_MAXIMUM_RETURN) then (MEMCACHED_ALL_SUCCESS, false)
    else if bool_decide (res = MEMCACHED_ALL_FAILURE) then (MEMCACHED_SOME_SUCCESS, true)
    else (res, false)
  else
    if bool_decide (res = MEMCACHED_MAXIMUM_RETURN) then (MEMCACHED_ALL_FAILURE, false)
    else if negb (bool_decide (res = MEMCACHED_ALL_FAILURE)) then (MEMCACHED_SOME_SUCCESS, true)
    else (res, false).

Fixpoint aggregate_loop (step : memcached_return_t -> memcached_return_t -> memcached_return_t * bool)
    (responses : list memcached_return_t) (res : memcached_return_t) : memcached_return_t :=
  match responses with
  | [] => res
  | response :: responses =>
      let '(res, break) := step res response in
      if break : bool then res else aggregate_loop step responses res
  end.

(** [responses] are those up to the count of the handle; what is returned is
    also stored in the handle. *)
Definition do_aggregate_pipe_responses (last_op_code : bytes) (responses : list memcached_return_t)
    (rc : memcached_return_t) : option memcached_return_t :=
  let res := if negb (bool_decide (rc = MEMCACHED_SUCCESS))
             then MEMCACHED_ALL_FAILURE else MEMCACHED_MAXIMUM_RETURN in
  op_code ← peek last_op_code 4;
  Some (if bool_decide (op_code = Byte.x65) then aggregate_loop aggregate_exist responses res
        else if bool_decide (op_code = Byte.x69) then aggregate_loop aggregate_insert responses res
        else res).

(** ** Specification of the results of a pipe *)

Definition is_exist (r : memcached_return_t) : bool := bool_decide (r = MEMCACHED_EXIST).
Definition is_not_exist (r : memcached_return_t) : bool := bool_decide (r = MEMCACHED_NOT_EXIST).
Definition answered_exist (r : memcached_return_t) : bool := is_exist r || is_not_exist r.
Definition is_stored (r : memcached_return_t) : bool :=
  bool_decide (r = MEMCACHED_STORED) || bool_decide (r = MEMCACHED_CREATED_STORED).

(** After a failure of the pipe: whether anything went well. *)
Definition failed_pipe (ok : memcached_return_t -> bool) (responses : list memcached_return_t)
    : memcached_return_t :=
  if existsb ok responses then MEMCACHED_SOME_SUCCESS else MEMCACHED_ALL_FAILURE.

Definition exist_pipe (responses : list memcached_return_t) : memcached_return_t :=
  match responses with
  | [] => MEMCACHED_MAXIMUM_RETURN
  | _ =>
      if forallb is_exist responses then MEMCACHED_ALL_EXIST
      else if forallb is_not_exist responses then MEMCACHED_ALL_NOT_EXIST
      else if forallb answered_exist responses then MEMCACHED_SOME_EXIST
      else failed_pipe answered_exist responses
  end.

Definition insert_pipe (responses : list memcached_return_t) : memcached_return_t :=
  match responses with
  | [] => MEMCACHED_MAXIMUM_RETURN
  | _ =>
      if forallb is_stored responses then MEMCACHED_ALL_SUCCESS
      else failed_pipe is_stored responses
  end.

(** The three kinds of answers to a test. *)
Inductive exist_kind (r : memcached_return_t) : Prop :=
  | kind_exist : bool_decide (r = MEMCACHED_EXIST) = true -> is_exist r = true ->
      is_not_exist r = false -> answered_exist r = true -> exist_kind r
  | kind_not_exist : bool_decide (r = MEMCACHED_EXIST) = false ->
      bool_decide (r = MEMCACHED_NOT_EXIST) = true -> is_exist r = false ->
      is_not_exist r = true -> answered_exist r = true -> exist_kind r
  | kind_failure : bool_decide (r = MEMCACHED_EXIST) = false ->
      bool_decide (r = MEMCACHED_NOT_EXIST) = false -> is_exist r = false ->
      is_not_exist r = false -> answered_exist r = false -> exist_kind r.

Lemma exist_kind_of r : exist_kind r.
Proof.
  destruct (bool_decide_reflect (r = MEMCACHED_EXIST)) as [->|H1]; [by apply kind_exist|].
  destruct (bool_decide_reflect (r = MEMCACHED_NOT_EXIST)) as [->|H2]; [by apply kind_not_exist|].
  by apply kind_failure; unfold answered_exist, is_exist, is_not_exist;
    rewrite ?(bool_decide_eq_false_2 _ H1), ?(bool_decide_eq_false_2 _ H2).
Qed.

(** Splits on the kind of the first answer, for the loop over the others. *)
Ltac by_kind r rs :=
  set (loop := aggregate_loop aggregate_exist rs) in *;
  destruct (exist_kind_of r) as [K1 K2 K3 K4|K1 K2 K3 K4 K5|K1 K2 K3 K4 K5];
  unfold failed_pipe in *; unfold aggregate_exist; cbn [forallb existsb];
  rewrite ?K1, ?K2, ?K3, ?K4, ?K5; cbn [bool_decide orb andb].

(** The loop from each of the results it may have so far. *)
Lemma aggregate_exist_loop rs :
  aggregate_loop aggregate_exist rs MEMCACHED_ALL_FAILURE = failed_pipe answered_exist rs
  /\ aggregate_loop aggregate_exist rs MEMCACHED_SOME_EXIST
     = (if forallb answered_exist rs then MEMCACHED_SOME_EXIST else MEMCACHED_SOME_SUCCESS)
  /\ aggregate_loop aggregate_exist rs MEMCACHED_ALL_EXIST
     = (if forallb is_exist rs then MEMCACHED_ALL_EXIST
        else if forallb answered_exist rs then MEMCACHED_SOME_EXIST else MEMCACHED_SOME_SUCCESS)
  /\ aggregate_loop aggregate_exist rs MEMCACHED_ALL_NOT_EXIST
     = (if forallb is_not_exist rs then MEMCACHED_ALL_NOT_EXIST
        else if forallb answered_exist rs then MEMCACHED_SOME_EXIST else MEMCACHED_SOME_SUCCESS).
Proof.
  induction rs as [|r rs (IH1 & IH2 & IH3 & IH4)]; [done|].
  cbn [aggregate_loop]. by_kind r rs.
  - split_and!; [done|exact IH2|exact IH3|exact IH2].
  - split_and!; [done|exact IH2|exact IH2|exact IH4].
  - split_and!; [exact IH1|done..].
Qed.

Lemma aggregate_exist_all rs :
  aggregate_loop aggregate_exist rs MEMCACHED_MAXIMUM_RETURN = exist_pipe rs.
Proof.
  destruct rs as [|r rs]; [done|]. destruct (aggregate_exist_loop rs) as (E1 & E2 & E3 & E4).
  cbn [aggregate_loop exist_pipe]. by_kind r rs; [refine (eq_trans E3 _)|refine (eq_trans E4 _)|exact E1];
    by destruct (forallb is_exist rs), (forallb is_not_exist rs), (forallb answered_exist rs).
Qed.

Lemma aggregate_insert_loop rs :
  aggregate_loop aggregate_insert rs MEMCACHED_ALL_FAILURE = failed_pipe is_stored rs
  /\ aggregate_loop aggregate_insert rs MEMCACHED_ALL_SUCCESS
     = (if forallb is_stored rs then MEMCACHED_ALL_SUCCESS else MEMCACHED_SOME_SUCCESS).
Proof.
  induction rs as [|r rs (IH1 & IH2)]; [done|].
  cbn [aggregate_loop]. set (loop := aggregate_loop aggregate_insert rs) in *.
  unfold failed_pipe in *. unfold aggregate_insert. cbn [forallb existsb].
  fold (is_stored r). destruct (is_stored r); cbn; split; done.
Qed.

Lemma aggregate_insert_all rs :
  aggregate_loop aggregate_insert rs MEMCACHED_MAXIMUM_RETURN = insert_pipe rs.
Proof.
  destruct rs as [|r rs]; [done|]. destruct (aggregate_insert_loop rs) as (E1 & E2).
  cbn [aggregate_loop insert_pipe]. set (loop := aggregate_loop aggregate_insert rs) in *.
  unfold failed_pipe in *. unfold aggregate_insert. cbn [forallb existsb].
  fold (is_stored r). destruct (is_stored r); cbn; [|exact E1].
  refine (eq_trans E2 _). by destruct (forallb is_stored rs).
Qed.

(** C38: The code that is made of the responses of a pipe.  For the responses of
    inserts or tests of membership that it is given, and the code of the pipe, the
    aggregation says, in whatever order they came: all stored, all there, none there,
    some there; all failed when none of them went well; and some success when some did
    and some failed.  When the pipe itself failed the ones that are not answered count
    as failures.  Which responses it is given is up to the command. *)
Theorem do_aggregate_pipe_responses_spec (verb : memcached_coll_action_t)
    (responses : list memcached_return_t) (rc : memcached_return_t) :
  do_aggregate_pipe_responses (coll_op_string verb) responses rc
  = Some (let failed := negb (bool_decide (rc = MEMCACHED_SUCCESS)) in
          match verb with
          | SOP_EXIST_OP =>
              if failed then failed_pipe answered_exist responses else exist_pipe responses
          | LOP_INSERT_OP | SOP_INSERT_OP | MOP_INSERT_OP | BOP_INSERT_OP | BOP_INCR_OP =>
              if failed then failed_pipe is_stored responses else insert_pipe responses
          | _ => if failed then MEMCACHED_ALL_FAILURE else MEMCACHED_MAXIMUM_RETURN
          end).
Proof.
  unfold do_aggregate_pipe_responses.
  destruct (bool_decide (rc = MEMCACHED_SUCCESS)); cbn [negb];
    destruct verb; vm_compute (peek _ _); cbn [mbind option_bind];
    rewrite ?aggregate_exist_all, ?aggregate_insert_all,
      ?(proj1 (aggregate_exist_loop _)), ?(proj1 (aggregate_insert_loop _)); reflexivity.
Qed.

(** ** Specification of the text of a filter *)

(** The values of a filter; the first is not led by a comma. *)
Fixpoint values_text (first : bool) (vs : list bytes) : bytes :=
  match vs with
  | [] => []
  | v :: vs => (if first then [] else str ",") ++ (str "0x" ++ hex_text v) ++ values_text false vs
  end.

(** The words of the protocol for the operations. *)
Definition comparison_word (op : memcached_coll_comp_t) : string :=
  match op with
  | MEMCACHED_COLL_COMP_EQ => "EQ"
  | MEMCACHED_COLL_COMP_NE => "NE"
  | MEMCACHED_COLL_COMP_LT => "LT"
  | MEMCACHED_COLL_COMP_LE => "LE"
  | MEMCACHED_COLL_COMP_GT => "GT"
  | MEMCACHED_COLL_COMP_GE => "GE"
  end.

Definition bitwise_word (op : memcached_coll_bitwise_t) : string :=
  match op with
  | MEMCACHED_COLL_BITWISE_AND => "&"
  | MEMCACHED_COLL_BITWISE_OR => "|"
  | MEMCACHED_COLL_BITWISE_XOR => "^"
  end.

(** The offset, the bitwise operation with its operand if there is one, and the
    comparison. *)
Definition filter_head (offset : Z) (op : memcached_coll_comp_t)
    (bw : option (memcached_coll_bitwise_t * bytes)) : bytes :=
  str " " ++ print_u32 (u32 offset)
  ++ match bw with
     | Some (bop, v) =>
         str " " ++ str (bitwise_word bop) ++ str " 0x" ++ hex_text v ++ str " "
         ++ str (comparison_word op) ++ str " "
     | None => str " " ++ str (comparison_word op) ++ str " "
     end.

(** A filter that the functions of the library made, for these values. *)
Inductive built_filter : memcached_coll_eflag_filter_st -> Z -> memcached_coll_comp_t ->
    list bytes -> option (memcached_coll_bitwise_t * bytes) -> Prop :=
  | built_one p f offset op v rest :
      Z.of_nat (length (comp_values p)) = MEMCACHED_COLL_MAX_EFLAGS_COUNT ->
      memcached_coll_eflag_filter_init (Some p) offset (v ++ rest) (Z.of_nat (length v)) op
      = (MEMCACHED_SUCCESS, Some f) ->
      built_filter f offset op (match v with [] => [] | _ => [v] end) None
  | built_many p f offset op vs n rest :
      Z.of_nat (length (comp_values p)) = MEMCACHED_COLL_MAX_EFLAGS_COUNT ->
      vs <> [] -> Forall (fun v => length v = n) vs ->
      memcached_coll_eflags_filter_init (Some p) offset (concat vs ++ rest) (Z.of_nat n)
        (Z.of_nat (length vs)) op = (MEMCACHED_SUCCESS, Some f) ->
      built_filter f offset op vs None
  | built_bitwise f f' offset op vs bw v rest bop :
      built_filter f offset op vs bw ->
      memcached_coll_eflag_filter_set_bitwise (Some f) (v ++ rest) (Z.of_nat (length v)) bop
      = Some (MEMCACHED_SUCCESS, Some f') ->
      built_filter f' offset op vs (Some (bop, v)).

(** What the functions keep: the values and the operand are arrays that fit. *)
Definition fits (h : memcached_hexadecimal_st) (a : bytes) : Prop :=
  holds h a /\ Z.of_nat (length a) <= MEMCACHED_COLL_MAX_BYTE_ARRAY_LENGTH.

Record filter_ok (f : memcached_coll_eflag_filter_st) (offset : Z) (op : memcached_coll_comp_t)
    (vs : list bytes) (bw : option (memcached_coll_bitwise_t * bytes)) : Prop := {
  ok_offset : filter_offset f = offset;
  ok_op : comp_op f = op;
  ok_room : Z.of_nat (length (comp_values f)) = MEMCACHED_COLL_MAX_EFLAGS_COUNT;
  ok_count : comp_count f = Z.of_nat (length vs);
  ok_max : Z.of_nat (length vs) <= MEMCACHED_COLL_MAX_EFLAGS_COUNT;
  ok_values : forall i v, vs !! i = Some v -> exists h, comp_values f !! i = Some h /\ fits h v;
  ok_first : exists h, comp_values f !! 0%nat = Some h
               /\ array_length h <= MEMCACHED_COLL_MAX_BYTE_ARRAY_LENGTH;
  ok_bitwise : match bw with
               | Some (bop, v) => filter_is_bitwised f = true /\ bitwise_op f = bop
                                  /\ fits (bitwise_value f) v
               | None => filter_is_bitwised f = false
               end;
}.

(** *** The functions keep it *)

Lemma holds_eflag v rest : holds (eflag_of (v ++ rest) (Z.of_nat (length v))) v.
Proof. split; [done|]. by exists rest. Qed.

Lemma set_values_length n : forall i values k l, length (set_values n i values k l) = length l.
Proof. induction n as [|n IH]; intros; cbn; [done|]. by rewrite IH, length_insert. Qed.

Lemma set_values_below n : forall i j values k l,
  (j < i)%nat -> set_values n i values k l !! j = l !! j.
Proof.
  induction n as [|n IH]; intros i j values k l Hj; cbn; [done|].
  rewrite IH by lia. apply list_lookup_insert_ne. lia.
Qed.

Lemma set_values_lookup n : forall i j values k l,
  (i <= j < i + n)%nat -> (j < length l)%nat ->
  set_values n i values k l !! j = Some (eflag_of (drop (j * Z.to_nat k) values) k).
Proof.
  induction n as [|n IH]; intros i j values k l Hij Hl; cbn; [lia|].
  destruct (decide (i = j)) as [->|Hne].
  - rewrite set_values_below by lia. apply list_lookup_insert_eq. lia.
  - apply IH; rewrite ?length_insert; lia.
Qed.

(** The values that follow each other in memory. *)
Lemma drop_concat (n : nat) (vs : list bytes) rest : Forall (fun v => length v = n) vs ->
  forall i v, vs !! i = Some v -> exists rest', drop (i * n) (concat vs ++ rest) = v ++ rest'.
Proof.
  induction 1 as [|v vs Hv _ IH]; intros i w Hi; [done|].
  destruct i as [|i]; cbn [lookup list_lookup] in Hi.
  - simplify_eq. exists (concat vs ++ rest). cbn. by rewrite app_assoc.
  - destruct (IH i w Hi) as [rest' E]. exists rest'. rewrite <-E.
    cbn [concat]. rewrite <-app_assoc. subst n.
    rewrite drop_app_ge by lia. f_equal. lia.
Qed.

Lemma eflags_filter_init_success p offset values k count op f :
  memcached_coll_eflags_filter_init (Some p) offset values k count op
  = (MEMCACHED_SUCCESS, Some f) ->
  f = p <| filter_is_initialized := true |> <| filter_is_bitwised := false |>
        <| filter_offset := offset |> <| comp_op := op |> <| comp_count := count |>
        <| comp_values ::= set_values (Z.to_nat count) 0 values k |>
  /\ k <= MEMCACHED_COLL_MAX_BYTE_ARRAY_LENGTH /\ count <= MEMCACHED_COLL_MAX_EFLAGS_COUNT.
Proof.
  unfold memcached_coll_eflags_filter_init. rewrite !Z.gtb_ltb.
  destruct (Z.ltb_spec MEMCACHED_COLL_MAX_BYTE_ARRAY_LENGTH k); [done|].
  destruct (bool_decide _ || bool_decide _); cbn [negb andb].
  - destruct (Z.ltb_spec MEMCACHED_COLL_MAX_EFLAGS_COUNT count); [done|]. by intros [= <-].
  - destruct (Z.ltb_spec 1 count); [done|]. intros [= <-].
    split_and!; [done|done|]. unfold MEMCACHED_COLL_MAX_EFLAGS_COUNT. lia.
Qed.

Lemma built_filter_ok f offset op vs bw : built_filter f offset op vs bw -> filter_ok f offset op vs bw.
Proof.
  induction 1 as [p f offset op v rest Hp Hf|p f offset op vs n rest Hp Hne Hn Hf
                 |f f' offset op vs bw v rest bop _ IH Hf].
  - unfold memcached_coll_eflag_filter_init in Hf. case_match eqn:Hl; simplify_eq.
    rewrite Z.gtb_ltb in Hl. apply Z.ltb_ge in Hl.
    assert (H0 : forall h, <[0%nat:=h]> (comp_values p) !! 0%nat = Some h) by
      (intros h; apply list_lookup_insert_eq; unfold MEMCACHED_COLL_MAX_EFLAGS_COUNT in Hp; lia).
    split; cbn; try done.
    + by rewrite length_insert.
    + by destruct v.
    + by destruct v.
    + destruct v as [|c v]; [done|]. intros [|i] w [= <-].
      exists (eflag_of ((c :: v) ++ rest) (Z.of_nat (length (c :: v)))).
      split; [apply H0|]. split; [apply holds_eflag|done].
    + eexists. split; [apply H0|exact Hl].
  - apply eflags_filter_init_success in Hf as (-> & Hk & Hmax).
    assert (Hv : forall i, (i < length vs)%nat ->
      set_values (length vs) 0 (concat vs ++ rest) (Z.of_nat n) (comp_values p) !! i
      = Some (eflag_of (drop (i * n) (concat vs ++ rest)) (Z.of_nat n))) by
      (intros i Hi; unfold MEMCACHED_COLL_MAX_EFLAGS_COUNT in *;
       rewrite set_values_lookup, Nat2Z.id by lia; done).
    split; cbn; rewrite ?Nat2Z.id, ?set_values_length; try done.
    + intros i v Hi. pose proof (lookup_lt_Some _ _ _ Hi) as Hlt.
      pose proof (proj1 (Forall_lookup _ _) Hn i v Hi) as Hlv. cbn in Hlv.
      destruct (drop_concat n vs rest Hn i v Hi) as [rest' E].
      eexists. split; [by apply Hv|]. rewrite E, <-Hlv.
      split; [apply holds_eflag|lia].
    + eexists. split; [apply Hv; destruct vs; cbn; [done|lia]|exact Hk].
  - destruct IH as [Ho Hop Hr Hc Hm Hvs [h [Hh Hl]] Hb].
    unfold memcached_coll_eflag_filter_set_bitwise in Hf.
    destruct (filter_is_initialized f); cbn [negb] in Hf; [|done].
    rewrite Hh in Hf. cbn [mbind option_bind] in Hf.
    destruct (negb _) eqn:E; [done|]. simplify_eq.
    split; cbn; try done; [eauto|].
    split; [done|]. split; [done|]. split; [apply holds_eflag|].
    apply negb_false_iff, Z.eqb_eq in E. lia.
Qed.

(** *** The text fits *)

(** Computes the lengths of the literals in the goal. *)
Ltac literals :=
  repeat match goal with
         | |- context [length (str ?s)] =>
             let n := eval vm_compute in (length (str s)) in change (length (str s)) with n
         end.

Lemma digits_fuel_no_nul fuel n acc : no_nul acc -> no_nul (digits_fuel fuel n acc).
Proof.
  revert n acc. induction fuel as [|fuel IH]; intros n acc Ha; cbn [digits_fuel]; [done|].
  cbv zeta. assert (no_nul (byte_of_Z (48 + n mod 10) :: acc)) as H.
  { constructor; [|done]. intros E. apply (f_equal uchar) in E.
    pose proof (Z.mod_pos_bound n 10 ltac:(lia)). rewrite digit_byte in E by lia.
    change (uchar Byte.x00) with 0 in E. lia. }
  destruct (n <? 10); [done|]. by apply IH.
Qed.

Lemma no_nul_app a b : no_nul a -> no_nul b -> no_nul (a ++ b).
Proof. apply Forall_app_2. Qed.

Lemma no_nul_cons c a : c <> Byte.x00 -> no_nul a -> no_nul (c :: a).
Proof. by constructor. Qed.

Lemma comparison_word_no_nul c : no_nul (str (comparison_word c)).
Proof. destruct c; by repeat constructor. Qed.

Lemma bitwise_word_no_nul b : no_nul (str (bitwise_word b)).
Proof. destruct b; by repeat constructor. Qed.

Create HintDb text.
#[export] Hint Resolve no_nul_app no_nul_cons hex_text_no_nul : text.
#[export] Hint Resolve comparison_word_no_nul bitwise_word_no_nul : text.
#[export] Hint Extern 1 (no_nul []) => constructor : text.
#[export] Hint Extern 1 (_ <> _) => discriminate : text.
#[export] Hint Extern 1 (no_nul (print_u32 _)) => apply digits_fuel_no_nul : text.
#[export] Hint Extern 1 (no_nul (print_u64 _)) => apply digits_fuel_no_nul : text.
#[export] Hint Extern 1 (no_nul (str _)) => by repeat constructor : text.

Lemma values_text_no_nul vs : forall first, no_nul (values_text first vs).
Proof. induction vs as [|v vs IH]; intros [|]; cbn [values_text]; eauto 20 with text. Qed.

Lemma filter_head_no_nul offset op bw : no_nul (filter_head offset op bw).
Proof. unfold filter_head. destruct bw as [[bop v]|]; eauto 20 with text. Qed.

Lemma values_text_length vs : forall first,
  Forall (fun v => Z.of_nat (length v) <= MEMCACHED_COLL_MAX_BYTE_ARRAY_LENGTH) vs ->
  Z.of_nat (length (values_text first vs)) <= 65 * Z.of_nat (length vs)
                                              - (if first then Z.min 1 (Z.of_nat (length vs)) else 0).
Proof.
  induction vs as [|v vs IH]; intros first Hv; [by destruct first|].
  cbn [values_text]. rewrite !length_app, hex_text_length.
  specialize (IH false (Forall_inv_tail Hv)). pose proof (Forall_inv Hv) as H1. cbn beta in H1.
  unfold MEMCACHED_COLL_MAX_BYTE_ARRAY_LENGTH in *.
  cbn [length]. destruct first; literals; cbn [length]; lia.
Qed.

Lemma filter_head_length offset op bw :
  match bw with
  | Some (_, v) => Z.of_nat (length v) <= MEMCACHED_COLL_MAX_BYTE_ARRAY_LENGTH
  | None => True
  end -> Z.of_nat (length (filter_head offset op bw)) <= 82.
Proof.
  intros Hv. unfold filter_head. rewrite !length_app.
  pose proof (print_u32_length (u32 offset)).
  assert (length (str (comparison_word op)) = 2%nat) as Hw by by destruct op.
  revert Hw. generalize (str (comparison_word op)). intros word Hw.
  unfold MEMCACHED_COLL_MAX_BYTE_ARRAY_LENGTH in *.
  destruct bw as [[bop v]|]; rewrite !length_app, ?hex_text_length.
  - assert (length (str (bitwise_word bop)) = 1%nat) as Hb by by destruct bop.
    revert Hb. generalize (str (bitwise_word bop)). intros bitwise Hb.
    literals. lia.
  - literals. lia.
Qed.

(** *** What is printed *)

(** The memory for a text. *)
Definition scratch (b : bytes) : Prop :=
  Z.of_nat (length b) = MEMCACHED_COLL_MAX_BYTE_STRING_LENGTH.

Lemma print_hex_spec h a b :
  fits h a -> scratch b -> exists b', print_hex h b = Some (hex_text a, b') /\ scratch b'.
Proof.
  intros [Hh Ha] Hb. unfold scratch, print_hex in *.
  unfold MEMCACHED_COLL_MAX_BYTE_STRING_LENGTH, MEMCACHED_COLL_MAX_BYTE_ARRAY_LENGTH in *.
  rewrite (conv_hex_to_str_spec h a) by (done || lia). cbn [mbind option_bind].
  rewrite cstring_app by apply hex_text_no_nul. cbn [mbind option_bind].
  eexists. split; [done|].
  rewrite length_app, hex_text_length. cbn [length]. rewrite length_drop. lia.
Qed.

(** Printing at the end of the string that is in a buffer. *)
Lemma snprintf_at_end n s old text :
  Z.of_nat (length (s ++ text)) < n -> n <= Z.of_nat (length (s ++ Byte.x00 :: old)) -> n < 2 ^ 64 ->
  snprintf_at (s ++ Byte.x00 :: old) (Z.of_nat (length s)) (u64 (n - Z.of_nat (length s))) text
  = Some (Z.of_nat (length text), (s ++ text) ++ Byte.x00 :: drop (length text) old).
Proof.
  rewrite !length_app. cbn [length]. intros Ht Hn Hm.
  rewrite u64_small by lia.
  rewrite snprintf_at_fits by (rewrite ?length_app; cbn; lia).
  rewrite Nat2Z.id, store_behind by lia. done.
Qed.

Lemma snprintf_at_start n buffer text :
  Z.of_nat (length text) < n -> n <= Z.of_nat (length buffer) ->
  snprintf_at buffer 0 n text
  = Some (Z.of_nat (length text), text ++ Byte.x00 :: drop (length text + 1) buffer).
Proof.
  intros Ht Hn. rewrite snprintf_at_fits by lia.
  unfold store. cbn [Z.to_nat take app]. by rewrite length_app, <-app_assoc.
Qed.

Lemma filter_values_loop_spec n values vs : forall i pre value_str s old,
  (forall j v, vs !! j = Some v -> exists h, values !! (i + j)%nat = Some h /\ fits h v) ->
  (i = 0%nat -> pre = true) -> (i <> 0%nat -> pre = false) -> scratch value_str ->
  Z.of_nat (length (s ++ values_text pre vs)) < n ->
  n <= Z.of_nat (length (s ++ Byte.x00 :: old)) -> n < 2 ^ 64 ->
  exists old',
    filter_values_loop (length vs) (Z.of_nat i) values value_str (s ++ Byte.x00 :: old) n
      (Z.of_nat (length s))
    = Some (Z.of_nat (length (s ++ values_text pre vs)), (s ++ values_text pre vs) ++ Byte.x00 :: old')
    /\ length ((s ++ values_text pre vs) ++ Byte.x00 :: old') = length (s ++ Byte.x00 :: old).
Proof.
  induction vs as [|v vs IH]; intros i pre value_str s old Hvs H0 H1 Hb Hn Hr Hm.
  { cbn. rewrite app_nil_r. by exists old. }
  destruct (Hvs 0%nat v eq_refl) as (h & Hh & Hf). rewrite Nat.add_0_r in Hh.
  destruct (print_hex_spec h v value_str Hf Hb) as (b' & E & Hb').
  cbn [length filter_values_loop values_text]. rewrite Nat2Z.id, Hh. cbn [mbind option_bind].
  rewrite E. cbn [mbind option_bind].
  assert ((if Z.of_nat i =? 0 then [] else str ",") = if pre then [] else str ",") as ->.
  { destruct i; [by rewrite H0 by done|by rewrite H1 by done]. }
  set (t := (if pre then [] else str ",") ++ str "0x" ++ hex_text v).
  assert ((if pre then [] else str ",") ++ (str "0x" ++ hex_text v) ++ values_text false vs
          = t ++ values_text false vs) as Et by (unfold t; by rewrite <-!app_assoc).
  cbn [values_text] in Hn. rewrite Et in Hn |- *. clearbody t. rewrite !app_assoc in Hn |- *.
  assert (Ht : (length t <= length old)%nat).
  { rewrite !length_app in Hr. do 2 rewrite length_app in Hn. cbn [length] in Hr. lia. }
  rewrite snprintf_at_end by (rewrite ?length_app in *; lia). cbn [mbind option_bind].
  replace (Z.of_nat (length s) + Z.of_nat (length t)) with (Z.of_nat (length (s ++ t)))
    by (rewrite length_app; lia).
  replace (Z.of_nat i + 1) with (Z.of_nat (S i)) by lia.
  assert (Hsame : length ((s ++ t) ++ Byte.x00 :: drop (length t) old)
                  = length (s ++ Byte.x00 :: old))
    by (rewrite !length_app; cbn [length]; rewrite length_drop; lia).
  rewrite <-Hsame. apply IH; try done; try lia.
  intros j w Hw. replace (S i + j)%nat with (i + S j)%nat by lia. by apply Hvs.
Qed.

Lemma filter_ok_text f offset op vs bw junk buffer n :
  filter_ok f offset op vs bw -> scratch junk ->
  MEMCACHED_COLL_MAX_FILTER_STR_LENGTH <= n -> n <= Z.of_nat (length buffer) -> n < 2 ^ 64 ->
  let text := filter_head offset op bw ++ values_text true vs in
  Z.of_nat (length text) < MEMCACHED_COLL_MAX_FILTER_STR_LENGTH
  /\ exists old,
       memcached_coll_eflag_filter_to_str junk f buffer n
       = Some (Z.of_nat (length text), text ++ Byte.x00 :: old)
       /\ length (text ++ Byte.x00 :: old) = length buffer.
Proof.
  intros [Ho Hop Hr Hc Hm Hvs _ Hbw] Hj Hn Hb Hmax text.
  assert (Hlen : Z.of_nat (length text) < MEMCACHED_COLL_MAX_FILTER_STR_LENGTH).
  { unfold text. rewrite length_app.
    pose proof (values_text_length vs true) as H1.
    pose proof (filter_head_length offset op bw) as H2.
    assert (Forall (fun v => Z.of_nat (length v) <= MEMCACHED_COLL_MAX_BYTE_ARRAY_LENGTH) vs) as Hf.
    { apply Forall_lookup. intros i v Hi. by destruct (Hvs i v Hi) as (h & _ & _ & Hl). }
    specialize (H1 Hf). unfold MEMCACHED_COLL_MAX_FILTER_STR_LENGTH, MEMCACHED_COLL_MAX_EFLAGS_COUNT in *.
    assert (Z.of_nat (length (filter_head offset op bw)) <= 82).
    { apply H2. destruct bw as [[bop v]|]; [|done]. by destruct Hbw as (_ & _ & _ & Hl). }
    lia. }
  split; [exact Hlen|].
  assert (Hhead : exists value_str, scratch value_str /\
    (if filter_is_bitwised f then
       '(text, value_str) ← print_hex (bitwise_value f) junk;
       Some (str " " ++ print_u32 (u32 (filter_offset f)) ++ str " "
             ++ bitwise_to_str (bitwise_op f) ++ str " 0x" ++ text ++ str " "
             ++ compare_to_str (comp_op f) ++ str " ", value_str)
     else
       Some (str " " ++ print_u32 (u32 (filter_offset f)) ++ str " "
             ++ compare_to_str (comp_op f) ++ str " ", junk))
    = Some (filter_head offset op bw, value_str)).
  { subst offset op. unfold filter_head. destruct bw as [[bop v]|].
    - destruct Hbw as (-> & <- & Hf). destruct (print_hex_spec _ _ _ Hf Hj) as (b' & -> & Hb').
      by exists b'.
    - rewrite Hbw. by exists junk. }
  destruct Hhead as (value_str & Hv & E). unfold memcached_coll_eflag_filter_to_str.
  rewrite E. cbn [mbind option_bind].
  set (head := filter_head offset op bw) in *.
  assert (Hh : (length head <= length text)%nat) by (unfold text; rewrite length_app; lia).
  rewrite snprintf_at_start by lia. cbn [mbind option_bind].
  rewrite Hc. replace (i32 (Z.of_nat (length vs))) with (Z.of_nat (length vs))
    by (unfold i32, MEMCACHED_COLL_MAX_EFLAGS_COUNT in *; rewrite Z.mod_small; lia).
  rewrite Nat2Z.id.
  assert (Hsame : length (head ++ Byte.x00 :: drop (length head + 1) buffer) = length buffer)
    by (rewrite length_app; cbn [length]; rewrite length_drop; lia).
  destruct (filter_values_loop_spec n (comp_values f) vs 0 true value_str head
              (drop (length head + 1) buffer)) as (old & El & Hl); try done; try lia.
  { fold text. lia. }
  exists old. change (Z.of_nat 0) with 0 in El. rewrite El. cbn [mbind option_bind]. fold text.
  rewrite Z.geb_leb, (proj2 (Z.leb_gt _ _)), (proj2 (Z.ltb_ge _ _)) by lia.
  split; [done|]. unfold text. by rewrite Hl.
Qed.

(** C36: Take a filter that the functions of the library made of one value, which may
    be empty, or of 1 to 100 values of one length, with or without a bitwise operation,
    and a buffer with room for the longest text of a filter.  Then the text of the
    filter fits the buffer: nothing is written outside of it, and it then holds the
    offset, the words of the operations and all the values in their order, each as the
    text of its bytes. *)
Theorem memcached_coll_eflag_filter_to_str_spec (f : memcached_coll_eflag_filter_st) (offset : Z)
    (op : memcached_coll_comp_t) (vs : list bytes) (bw : option (memcached_coll_bitwise_t * bytes))
    (junk buffer : bytes) (n : Z) :
  built_filter f offset op vs bw -> scratch junk ->
  MEMCACHED_COLL_MAX_FILTER_STR_LENGTH <= n -> n <= Z.of_nat (length buffer) -> n < 2 ^ 64 ->
  exists buffer' len,
    memcached_coll_eflag_filter_to_str junk f buffer n = Some (len, buffer')
    /\ length buffer' = length buffer
    /\ 0 <= len < MEMCACHED_COLL_MAX_FILTER_STR_LENGTH
    /\ Z.of_nat (length (filter_head offset op bw ++ values_text true vs)) = len
    /\ cstring buffer' = Some (filter_head offset op bw ++ values_text true vs).
Proof.
  intros Hf Hj Hn Hb Hm.
  destruct (filter_ok_text f offset op vs bw junk buffer n (built_filter_ok _ _ _ _ _ Hf) Hj Hn Hb Hm)
    as (Hl & old & E & Hlen).
  eexists _, _. split; [exact E|]. split; [exact Hlen|]. split; [lia|]. split; [done|].
  apply cstring_app. apply no_nul_app; [apply filter_head_no_nul|apply values_text_no_nul].
Qed.

Definition empty_filter : memcached_coll_eflag_filter_st :=
  {| filter_offset := 0; bitwise_op := MEMCACHED_COLL_BITWISE_AND; bitwise_value := no_array;
     comp_op := MEMCACHED_COLL_COMP_EQ; comp_values := replicate 100 no_array; comp_count := 0;
     filter_is_initialized := false; filter_is_bitwised := false |}.

Lemma memcached_coll_eflag_filter_to_str_spec_witness :
  exists buffer' len,
    memcached_coll_eflag_filter_to_str (replicate 63 Byte.x41)
      (default empty_filter (snd (memcached_coll_eflags_filter_init (Some empty_filter) 3
         [Byte.x00; Byte.xff; Byte.x12; Byte.x34] 2 2 MEMCACHED_COLL_COMP_NE)))
      (replicate 6585 Byte.x00) 6585 = Some (len, buffer')
    /\ cstring buffer' = Some (str " 3 NE 0x00FF,0x1234").
Proof.
  destruct (memcached_coll_eflag_filter_to_str_spec
              (default empty_filter (snd (memcached_coll_eflags_filter_init (Some empty_filter) 3
                 [Byte.x00; Byte.xff; Byte.x12; Byte.x34] 2 2 MEMCACHED_COLL_COMP_NE)))
              3 MEMCACHED_COLL_COMP_NE [[Byte.x00; Byte.xff]; [Byte.x12; Byte.x34]] None
              (replicate 63 Byte.x41) (replicate 6585 Byte.x00) 6585)
    as (buffer' & len & E & _ & _ & _ & Hs).
  - apply (built_many empty_filter _ 3 MEMCACHED_COLL_COMP_NE
             [[Byte.x00; Byte.xff]; [Byte.x12; Byte.x34]] 2 []); [done|done| |reflexivity].
    by repeat constructor.
  - reflexivity.
  - vm_compute. discriminate.
  - vm_compute. discriminate.
  - reflexivity.
  - exists buffer', len. split; [exact E|exact Hs].
Defined.

(** ** The other texts *)

(** The length of a command is that of its name. *)
Lemma coll_op_length_spec verb :
  verb <> UNKNOWN_OP -> coll_op_length verb = Z.of_nat (length (coll_op_string verb)).
Proof. by destruct verb. Qed.

Lemma str_to_overflowaction_string a z :
  str_to_overflowaction (coll_overflowaction_string a ++ Byte.x00 :: z)
    (length (coll_overflowaction_string a)) = Some a.
Proof. by destruct a. Qed.

(** An update made by the library. *)
Lemma eflag_update_text p f f' v rest offset bop junk buffer n :
  memcached_coll_eflag_update_init (Some p) (v ++ rest) (Z.of_nat (length v))
  = (MEMCACHED_SUCCESS, Some f) ->
  f' = f \/ memcached_coll_eflag_update_set_bitwise (Some f) offset bop = (MEMCACHED_SUCCESS, Some f') ->
  scratch junk -> MEMCACHED_COLL_UPD_FILTER_STR_LENGTH <= n -> n <= Z.of_nat (length buffer) ->
  exists len buffer',
    memcached_coll_eflag_update_to_str junk f' buffer n = Some (len, buffer')
    /\ 0 <= len < MEMCACHED_COLL_UPD_FILTER_STR_LENGTH.
Proof.
  unfold MEMCACHED_COLL_UPD_FILTER_STR_LENGTH. intros Hf Hf' Hj Hn Hb.
  unfold memcached_coll_eflag_update_init in Hf. rewrite Z.gtb_ltb in Hf.
  destruct (Z.ltb_spec MEMCACHED_COLL_MAX_BYTE_ARRAY_LENGTH (Z.of_nat (length v))) as [|Hv]; [done|].
  simplify_eq.
  assert (fits (update_value f') v) as Hfits.
  { destruct Hf' as [->|Hf']; cbn in *; simplify_eq; cbn; by split; [apply holds_eflag|]. }
  destruct (print_hex_spec _ _ _ Hfits Hj) as (b' & E & _).
  unfold memcached_coll_eflag_update_to_str. rewrite E. cbn [mbind option_bind].
  set (text := if update_is_bitwised f' then _ else _).
  assert (Z.of_nat (length text) < 80).
  { unfold text, MEMCACHED_COLL_MAX_BYTE_ARRAY_LENGTH in *.
    pose proof (print_u32_length (u32 (update_offset f'))).
    assert (length (bitwise_to_str (update_bitwop f')) = 1%nat) by by destruct (update_bitwop f').
    case_match; rewrite !length_app, hex_text_length; literals; lia. }
  rewrite snprintf_at_start by lia. cbn [mbind option_bind].
  rewrite Z.geb_leb, (proj2 (Z.leb_gt _ _)), (proj2 (Z.ltb_ge _ _)) by lia.
  eexists (Z.of_nat (length text)), _. split; [done|]. lia.
Qed.

(** Keys of a query as the library makes it. *)
Lemma bkey_query_text junk junk' query buffer n support_range text :
  bkey_text junk junk' query support_range = Some (Some text) ->
  bkey_supported query support_range = true ->
  Z.of_nat (length text) < n -> n <= Z.of_nat (length buffer) ->
  generate_str_bkey_from_query junk junk' query buffer n support_range
  = Some (Z.of_nat (length text), None, text ++ Byte.x00 :: drop (length text + 1) buffer).
Proof.
  intros E Hs Ht Hn. unfold generate_str_bkey_from_query. rewrite E. cbn [mbind option_bind].
  rewrite Hs. cbn [negb]. rewrite snprintf_at_start by lia. cbn [mbind option_bind].
  by rewrite Z.geb_leb, (proj2 (Z.leb_gt _ _)), (proj2 (Z.ltb_ge _ _)) by lia.
Qed.

(** A byte array that passes the check of the queries is printed, and a range of
    them takes at most 131 bytes. *)
Lemma bop_ext_range_text junk_flag p a b ra rb filter offset count query junk junk' :
  memcached_bop_ext_range_query_init junk_flag p (Some (a ++ ra)) (Z.of_nat (length a))
    (Some (b ++ rb)) (Z.of_nat (length b)) filter offset count = (MEMCACHED_SUCCESS, query) ->
  scratch junk -> scratch junk' ->
  exists text, bkey_text junk junk' query true = Some (Some text)
    /\ text = str " 0x" ++ hex_text a ++ str "..0x" ++ hex_text b
    /\ Z.of_nat (length text) <= 131.
Proof.
  intros Hq Hj Hj'. unfold memcached_bop_ext_range_query_init, bad_bkey in Hq.
  rewrite !bool_decide_eq_false_2 in Hq by done. cbn [orb] in Hq.
  destruct (Z.of_nat (length a) =? 0); [done|]. destruct (Z.of_nat (length b) =? 0);
    [by rewrite orb_true_r in Hq|].
  cbn [orb] in Hq. rewrite !Z.gtb_ltb in Hq.
  destruct (Z.ltb_spec MEMCACHED_COLL_MAX_BYTE_ARRAY_LENGTH (Z.of_nat (length a))); [done|].
  destruct (Z.ltb_spec MEMCACHED_COLL_MAX_BYTE_ARRAY_LENGTH (Z.of_nat (length b))); [done|].
  cbn [orb] in Hq. simplify_eq. unfold bkey_text. cbn [query_type sub_key update].
  assert (forall v r, Z.of_nat (length v) <= MEMCACHED_COLL_MAX_BYTE_ARRAY_LENGTH ->
            fits (hex_of junk_flag (v ++ r) (Z.of_nat (length v))) v) as Hfits.
  { intros v r Hv. split; [|done]. split; [done|]. by exists r. }
  destruct (print_hex_spec _ a junk (Hfits a ra ltac:(done)) Hj) as (j1 & E1 & _).
  destruct (print_hex_spec _ b junk' (Hfits b rb ltac:(done)) Hj') as (j2 & E2 & _).
  cbn -[print_hex]. rewrite E1. cbn -[print_hex]. rewrite E2. cbn [mbind option_bind].
  exists (str " 0x" ++ hex_text a ++ str "..0x" ++ hex_text b). split; [done|]. split; [done|].
  rewrite !length_app, !hex_text_length.
  unfold MEMCACHED_COLL_MAX_BYTE_ARRAY_LENGTH in *. literals. lia.
Qed.

(** ** What modelling showed *)

(** A filter without values takes any length of the operand of a bitwise
    operation: whatever the memory of its first value held.  The conversion of
    the operand is then refused, and what was in the buffer before is sent. *)
Lemma filter_operand_not_checked :
  let p := empty_filter <| comp_values := replicate 100 (eflag_of [] 40) |> in
  let f := default p (snd (memcached_coll_eflags_filter_init (Some p) 0 [] 0 0 MEMCACHED_COLL_COMP_EQ)) in
  match memcached_coll_eflag_filter_set_bitwise (Some f) (replicate 40 Byte.x11) 40
          MEMCACHED_COLL_BITWISE_AND with
  | Some (rc, Some f') =>
      rc = MEMCACHED_SUCCESS
      /\ match memcached_coll_eflag_filter_to_str (str "junk" ++ replicate 59 Byte.x00) f'
               (replicate 100 Byte.x00) 100 with
         | Some (_, buffer) => cstring buffer = Some (str " 0 & 0xjunk EQ ")
         | None => False
         end
  | _ => False
  end.
Proof. vm_compute. by split. Qed.

(** The values of attributes are told by what they begin with. *)
Lemma attributes_by_prefix :
  str_to_type [Byte.x00] 0 = Some COLL_KV
  /\ str_to_type (str "l" ++ [Byte.x00]) 1 = Some COLL_LIST
  /\ str_to_overflowaction (str "s" ++ [Byte.x00]) 1 = Some OVERFLOWACTION_SMALLEST_TRIM.
Proof. by split. Qed.

(** A pipe without items gives a code that is none. *)
Lemma empty_pipe :
  do_aggregate_pipe_responses (coll_op_string SOP_EXIST_OP) [] MEMCACHED_SUCCESS
  = Some MEMCACHED_MAXIMUM_RETURN.
Proof. reflexivity. Qed.
