(* ===== verification/Attributes.v ===== *)
(** Attributes of collections: collection.cc.

    What [memcached_set_attrs] and the creation of an item print, and how
    [memcached_get_attrs] reads the lines of the answer.  [None] is a read or a
    write outside of memory. *)
From Stdlib Require Import Strings.Byte.
From S2P Require Import Prelude HashFunctions Hashkit Memcached Text StringBuf Hexadecimal Collection.

(** ** Attributes of an item *)

(** [struct memcached_coll_attrs_st]. *)
Record memcached_coll_attrs_st := {
  attr_flags : Z;
  attr_expiretime : Z;
  attr_type : memcached_coll_type_t;
  attr_count : Z;
  attr_maxcount : Z;
  attr_overflowaction : memcached_coll_overflowaction_t;
  attr_readable : bool;
  attr_minbkey : memcached_coll_sub_key_st;
  attr_maxbkey : memcached_coll_sub_key_st;
  attr_maxbkeyrange : memcached_coll_sub_key_st;
  attr_trimmed : Z;
  attr_is_initialized : bool;
  set_flags : bool;
  set_expiretime : bool;
  set_maxcount : bool;
  set_overflowaction : bool;
  set_readable : bool;
  set_maxbkeyrange : bool;
  subkey_type : memcached_coll_sub_key_type_t;
}.

#[export] Instance attrs_fields : Fields memcached_coll_attrs_st := fun r =>
  {| attr_flags := attr_flags r; attr_expiretime := attr_expiretime r; attr_type := attr_type r;
     attr_count := attr_count r; attr_maxcount := attr_maxcount r;
     attr_overflowaction := attr_overflowaction r; attr_readable := attr_readable r;
     attr_minbkey := attr_minbkey r; attr_maxbkey := attr_maxbkey r;
     attr_maxbkeyrange := attr_maxbkeyrange r; attr_trimmed := attr_trimmed r;
     attr_is_initialized := attr_is_initialized r; set_flags := set_flags r;
     set_expiretime := set_expiretime r; set_maxcount := set_maxcount r;
     set_overflowaction := set_overflowaction r; set_readable := set_readable r;
     set_maxbkeyrange := set_maxbkeyrange r; subkey_type := subkey_type r |}.

(** [None] is NULL.  The keys, the counts and the types are not assigned. *)
Definition memcached_coll_attrs_init (ptr : option memcached_coll_attrs_st)
    : memcached_return_t * option memcached_coll_attrs_st :=
  match ptr with
  | None => (MEMCACHED_INVALID_ARGUMENTS, None)
  | Some p =>
      (MEMCACHED_SUCCESS,
       Some (p <| attr_is_initialized := true |> <| attr_flags := 0 |> <| attr_expiretime := 0 |>
               <| attr_maxcount := 0 |> <| attr_overflowaction := OVERFLOWACTION_NONE |>
               <| attr_readable := false |> <| attr_trimmed := 0 |> <| set_flags := false |>
               <| set_expiretime := false |> <| set_maxcount := false |>
               <| set_overflowaction := false |> <| set_readable := false |>
               <| set_maxbkeyrange := false |>))
  end.

Definition memcached_coll_attrs_set_flags (attrs : memcached_coll_attrs_st) (flags : Z)
    : memcached_return_t * memcached_coll_attrs_st :=
  (MEMCACHED_SUCCESS, attrs <| attr_flags := flags |> <| set_flags := true |>).

Definition memcached_coll_attrs_set_expiretime (attrs : memcached_coll_attrs_st) (expiretime : Z)
    : memcached_return_t * memcached_coll_attrs_st :=
  (MEMCACHED_SUCCESS, attrs <| attr_expiretime := expiretime |> <| set_expiretime := true |>).

Definition memcached_coll_attrs_set_maxcount (attrs : memcached_coll_attrs_st) (maxcount : Z)
    : memcached_return_t * memcached_coll_attrs_st :=
  (MEMCACHED_SUCCESS, attrs <| attr_maxcount := maxcount |> <| set_maxcount := true |>).

Definition memcached_coll_attrs_set_readable_on (attrs : memcached_coll_attrs_st)
    : memcached_return_t * memcached_coll_attrs_st :=
  (MEMCACHED_SUCCESS, attrs <| attr_readable := true |> <| set_readable := true |>).

Definition memcached_coll_attrs_set_maxbkeyrange (attrs : memcached_coll_attrs_st) (range : Z)
    : memcached_return_t * memcached_coll_attrs_st :=
  (MEMCACHED_SUCCESS,
   attrs <| attr_maxbkeyrange := sub_bkey range |> <| subkey_type := MEMCACHED_COLL_QUERY_BOP |>
         <| set_maxbkeyrange := true |>).

Definition memcached_coll_attrs_set_maxbkeyrange_by_byte (attrs : memcached_coll_attrs_st)
    (range : option bytes) (size : Z) : memcached_return_t * memcached_coll_attrs_st :=
  if bad_bkey range size then (MEMCACHED_INVALID_ARGUMENTS, attrs)
  else
    (MEMCACHED_SUCCESS,
     attrs <| attr_maxbkeyrange := sub_bkey_ext (hex_of false (default [] range) size) |>
           <| subkey_type := MEMCACHED_COLL_QUERY_BOP_EXT |> <| set_maxbkeyrange := true |>).

Definition memcached_coll_attrs_set_overflowaction (attrs : memcached_coll_attrs_st)
    (action : memcached_coll_overflowaction_t) : memcached_return_t * memcached_coll_attrs_st :=
  (MEMCACHED_SUCCESS, attrs <| attr_overflowaction := action |> <| set_overflowaction := true |>).

(** The getters of keys that are numbers; they return an [uint32_t]. *)
Definition get_bkey (attrs : memcached_coll_attrs_st) (key : memcached_coll_sub_key_st) : option Z :=
  if negb (bool_decide (subkey_type attrs = MEMCACHED_COLL_QUERY_BOP)) then Some 0
  else match key with sub_bkey k => Some (u32 k) | _ => None end.

Definition memcached_coll_attrs_get_minbkey (attrs : memcached_coll_attrs_st) : option Z :=
  get_bkey attrs (attr_minbkey attrs).
Definition memcached_coll_attrs_get_maxbkey (attrs : memcached_coll_attrs_st) : option Z :=
  get_bkey attrs (attr_maxbkey attrs).
Definition memcached_coll_attrs_get_maxbkeyrange (attrs : memcached_coll_attrs_st) : option Z :=
  get_bkey attrs (attr_maxbkeyrange attrs).

(** The getters of byte arrays: the code with the pointer and the length. *)
Definition get_bkey_by_byte (attrs : memcached_coll_attrs_st) (key : memcached_coll_sub_key_st)
    : option (memcached_return_t * option (option bytes * Z)) :=
  if negb (bool_decide (subkey_type attrs = MEMCACHED_COLL_QUERY_BOP_EXT))
  then Some (MEMCACHED_INVALID_ARGUMENTS, None)
  else match key with
       | sub_bkey_ext h => Some (MEMCACHED_SUCCESS, Some (array h, array_length h))
       | _ => None
       end.

Definition memcached_coll_attrs_get_minbkey_by_byte (attrs : memcached_coll_attrs_st) :=
  get_bkey_by_byte attrs (attr_minbkey attrs).
Definition memcached_coll_attrs_get_maxbkey_by_byte (attrs : memcached_coll_attrs_st) :=
  get_bkey_by_byte attrs (attr_maxbkey attrs).
Definition memcached_coll_attrs_get_maxbkeyrange_by_byte (attrs : memcached_coll_attrs_st) :=
  get_bkey_by_byte attrs (attr_maxbkeyrange attrs).

(** ** Setting attributes *)


(** [write_length += snprintf(buffer + write_length, buffer_length -
    write_length, text)] for a condition. *)
Definition append_if (cond : bool) (text : bytes) (st : Z * bytes) : option (Z * bytes) :=
  let '(write_length, buffer) := st in
  if cond then
    '(len, buffer) ← snprintf_at buffer write_length
                       (u64 (MEMCACHED_DEFAULT_COMMAND_SIZE - write_length)) text;
    Some (write_length + len, buffer)
  else Some (write_length, buffer).

(** The text of the range, when there is one. *)
Definition maxbkeyrange_text (junk : bytes) (attrs : memcached_coll_attrs_st) : option (option bytes) :=
  if negb (set_maxbkeyrange attrs) then Some None
  else
    match subkey_type attrs, attr_maxbkeyrange attrs with
    | MEMCACHED_COLL_QUERY_BOP, sub_bkey k => Some (Some (str " maxbkeyrange=" ++ print_u64 k))
    | MEMCACHED_COLL_QUERY_BOP, _ => None
    | MEMCACHED_COLL_QUERY_BOP_EXT, sub_bkey_ext h =>
        '(text, _) ← print_hex h junk;
        Some (Some (str " maxbkeyrange=0x" ++ text))
    | MEMCACHED_COLL_QUERY_BOP_EXT, _ => None
    | _, _ => Some None
    end.

(** The part of [memcached_set_attrs] that prints: the length and the buffer, or
    the error. *)
Definition set_attrs_text (junk : bytes) (attrs : memcached_coll_attrs_st) (buffer : bytes)
    : option (memcached_return_t * Z * bytes) :=
  st ← append_if (set_maxcount attrs) (str " maxcount=" ++ print_u32 (attr_maxcount attrs)) (0, buffer);
  st ← append_if (set_expiretime attrs)
         (str " expiretime=" ++ print_i32 (attr_expiretime attrs)) st;
  st ← append_if (set_overflowaction attrs)
         (str " overflowaction=" ++ coll_overflowaction_string (attr_overflowaction attrs)) st;
  st ← append_if (set_readable attrs) (str " readable=on") st;
  range ← maxbkeyrange_text junk attrs;
  '(write_length, buffer) ← append_if (bool_decide (range <> None)) (default [] range) st;
  Some (if (write_length >=? MEMCACHED_DEFAULT_COMMAND_SIZE) || (write_length <? 0)
        then (MEMCACHED_MEMORY_ALLOCATION_FAILURE, write_length, buffer)
        else (MEMCACHED_SUCCESS, write_length, buffer)).

(** ** Attributes of a new item *)

(** [struct memcached_coll_create_attrs_st]. *)
Record memcached_coll_create_attrs_st := {
  create_flags : Z;
  create_expiretime : Z;
  create_maxcount : Z;
  create_overflowaction : memcached_coll_overflowaction_t;
  is_unreadable : bool;
  create_is_initialized : bool;
  create_set_flags : bool;
  create_set_expiretime : bool;
  create_set_maxcount : bool;
  create_set_overflowaction : bool;
  create_set_readable : bool;
}.

#[export] Instance create_attrs_fields : Fields memcached_coll_create_attrs_st := fun r =>
  {| create_flags := create_flags r; create_expiretime := create_expiretime r;
     create_maxcount := create_maxcount r; create_overflowaction := create_overflowaction r;
     is_unreadable := is_unreadable r; create_is_initialized := create_is_initialized r;
     create_set_flags := create_set_flags r; create_set_expiretime := create_set_expiretime r;
     create_set_maxcount := create_set_maxcount r;
     create_set_overflowaction := create_set_overflowaction r;
     create_set_readable := create_set_readable r |}.

Definition memcached_coll_create_attrs_init (ptr : option memcached_coll_create_attrs_st)
    (flags expiretime maxcount : Z) : memcached_return_t * option memcached_coll_create_attrs_st :=
  match ptr with
  | None => (MEMCACHED_INVALID_ARGUMENTS, None)
  | Some _ =>
      (MEMCACHED_SUCCESS,
       Some {| create_flags := flags; create_expiretime := expiretime; create_maxcount := maxcount;
               create_overflowaction := OVERFLOWACTION_NONE; is_unreadable := false;
               create_is_initialized := true; create_set_flags := true;
               create_set_expiretime := true; create_set_maxcount := true;
               create_set_overflowaction := false; create_set_readable := false |})
  end.

Definition memcached_coll_create_attrs_set_flags (ptr : memcached_coll_create_attrs_st) (flags : Z)
    : memcached_return_t * memcached_coll_create_attrs_st :=
  (MEMCACHED_SUCCESS, ptr <| create_flags := flags |> <| create_set_flags := true |>).

Definition memcached_coll_create_attrs_set_expiretime (ptr : memcached_coll_create_attrs_st)
    (expiretime : Z) : memcached_return_t * memcached_coll_create_attrs_st :=
  (MEMCACHED_SUCCESS, ptr <| create_expiretime := expiretime |> <| create_set_expiretime := true |>).

Definition memcached_coll_create_attrs_set_maxcount (ptr : memcached_coll_create_attrs_st)
    (maxcount : Z) : memcached_return_t * memcached_coll_create_attrs_st :=
  (MEMCACHED_SUCCESS, ptr <| create_maxcount := maxcount |> <| create_set_maxcount := true |>).

Definition memcached_coll_create_attrs_set_overflowaction (ptr : memcached_coll_create_attrs_st)
    (action : memcached_coll_overflowaction_t) : memcached_return_t * memcached_coll_create_attrs_st :=
  (MEMCACHED_SUCCESS,
   ptr <| create_overflowaction := action |> <| create_set_overflowaction := true |>).

Definition memcached_coll_create_attrs_set_unreadable (ptr : memcached_coll_create_attrs_st)
    (unreadable : bool) : memcached_return_t * memcached_coll_create_attrs_st :=
  (MEMCACHED_SUCCESS, ptr <| is_unreadable := unreadable |> <| create_set_readable := true |>).

(** The part of [do_coll_create] that prints. *)
Definition coll_create_text (attributes : memcached_coll_create_attrs_st)
    (verb : memcached_coll_action_t) (no_reply piped : bool) (buffer : bytes)
    : option (memcached_return_t * Z * bytes) :=
  let set_overflowaction :=
    match verb with
    | SOP_CREATE_OP | MOP_CREATE_OP => false
    | _ => negb (bool_decide (create_overflowaction attributes = OVERFLOWACTION_NONE))
    end in
  '(write_length, buffer) ←
    snprintf_at buffer 0 MEMCACHED_DEFAULT_COMMAND_SIZE
      (str " " ++ print_u32 (create_flags attributes)
       ++ str " " ++ print_i32 (create_expiretime attributes)
       ++ str " " ++ print_u32 (create_maxcount attributes)
       ++ (if set_overflowaction then str " " else [])
       ++ (if set_overflowaction
           then coll_overflowaction_string (create_overflowaction attributes) else [])
       ++ (if is_unreadable attributes then str " unreadable" else [])
       ++ (if no_reply then str " noreply" else if piped then str " pipe" else []));
  Some (if (write_length >=? MEMCACHED_DEFAULT_COMMAND_SIZE) || (write_length <? 0)
        then (MEMCACHED_MEMORY_ALLOCATION_FAILURE, write_length, buffer)
        else (MEMCACHED_SUCCESS, write_length, buffer)).

(** ** Reading attributes *)

(** [strtok_r(s, "=", &rest)] in memory: the token and where the search goes on.  The
    search stops at a NUL; it must not come to the end of the memory. *)
Fixpoint until_eq (s : bytes) : option (bytes * bytes) :=
  match s with
  | [] => None
  | c :: s' =>
      if bool_decide (c = Byte.x00) then Some ([], s)
      else if bool_decide (c = Byte.x3d) then Some ([], s')
      else '(a, b) ← until_eq s'; Some (c :: a, b)
  end.

Fixpoint skip_eq (s : bytes) : option bytes :=
  match s with
  | c :: s' => if bool_decide (c = Byte.x3d) then skip_eq s' else Some s
  | [] => None
  end.

Definition strtok_eq (s : bytes) : option (option (bytes * bytes)) :=
  s ← skip_eq s;
  if bool_decide (head s = Some Byte.x00) then Some None else Some <$> until_eq s.

Definition atoi_word (word : bytes) : option Z :=
  '(v, _, _) ← strtol (word ++ [Byte.x00]);
  Some (i32 v).

(** The length of the word with its end of line; the code does not look whether
    there is one. *)
Definition word_length (word : bytes) : option Z :=
  '(line, _) ← span (fun c => negb (bool_decide (c = Byte.x0a))) word;
  Some (Z.of_nat (length line) + 1).

(** The word up to its end of line, which NULs are written over. *)
Definition cut_line (word : bytes) : option bytes :=
  n ← word_length word;
  Some (take (Z.to_nat (n - 2)) word).

(** A byte array in the union: one that was stored, or a NULL pointer that the
    number 0 is read as; other numbers are no pointers. *)
Definition union_hex (key : memcached_coll_sub_key_st) : option memcached_hexadecimal_st :=
  match key with
  | sub_bkey_ext h => Some h
  | sub_bkey 0 => Some no_array
  | _ => None
  end.

Definition read_bkey (calloc : Z -> option bytes) (key : memcached_coll_sub_key_st) (word : bytes)
    : option (memcached_coll_sub_key_st * memcached_coll_sub_key_type_t) :=
  n ← word_length word;
  if (n >? 6) && bool_decide (word !! 0%nat = Some Byte.x30)
     && bool_decide (word !! 1%nat = Some Byte.x78)
  then
    if n - 4 >? MEMCACHED_COLL_MAX_BYTE_STRING_LENGTH
    then Some (sub_bkey 0, MEMCACHED_COLL_QUERY_BOP)
    else
      h ← union_hex key;
      '(rc, h) ← memcached_conv_str_to_hex calloc (drop 2 word ++ [Byte.x00]) (n - 4) (Some h);
      Some (if bool_decide (rc = MEMCACHED_SUCCESS)
            then (sub_bkey_ext (default no_array h), MEMCACHED_COLL_QUERY_BOP_EXT)
            else (sub_bkey 0, MEMCACHED_COLL_QUERY_BOP))
  else
    '(v, _) ← strtoull (word ++ [Byte.x00]);
    Some (sub_bkey v, MEMCACHED_COLL_QUERY_BOP).

(** The attribute of a name. *)
Definition get_attr (calloc : Z -> option bytes) (attrs : memcached_coll_attrs_st)
    (attr_name word : bytes) : option memcached_coll_attrs_st :=
  let named (s : string) := bool_decide (attr_name = str s) in
  if named "flags"%string then v ← atoi_word word; Some (attrs <| attr_flags := u32 v |>)
  else if named "expiretime"%string then v ← atoi_word word; Some (attrs <| attr_expiretime := v |>)
  else if named "type"%string then
    value ← cut_line word;
    t ← str_to_type (value ++ [Byte.x00]) (length value);
    Some (attrs <| attr_type := t |>)
  else if named "count"%string then v ← atoi_word word; Some (attrs <| attr_count := u32 v |>)
  else if named "maxcount"%string then v ← atoi_word word; Some (attrs <| attr_maxcount := u32 v |>)
  else if named "overflowaction"%string then
    value ← cut_line word;
    a ← str_to_overflowaction (value ++ [Byte.x00]) (length value);
    Some (attrs <| attr_overflowaction := a |>)
  else if named "readable"%string then
    Some (attrs <| attr_readable := bool_decide (word !! 0%nat = Some Byte.x6f)
                                    && bool_decide (word !! 1%nat = Some Byte.x6e) |>)
  else if named "minbkey"%string then
    '(k, t) ← read_bkey calloc (attr_minbkey attrs) word;
    Some (attrs <| attr_minbkey := k |> <| subkey_type := t |>)
  else if named "maxbkey"%string then
    '(k, t) ← read_bkey calloc (attr_maxbkey attrs) word;
    Some (attrs <| attr_maxbkey := k |> <| subkey_type := t |>)
  else if named "maxbkeyrange"%string then
    '(k, t) ← read_bkey calloc (attr_maxbkeyrange attrs) word;
    Some (attrs <| attr_maxbkeyrange := k |> <| subkey_type := t |>)
  else if named "trimmed"%string then v ← atoi_word word; Some (attrs <| attr_trimmed := u32 v |>)
  else Some attrs.

(** The buffer that a line was read into: nothing terminates the line, so that the value
    goes on behind it.  The name is cut to its buffer; the token behind the value is
    looked for and dropped. *)
Definition get_attr_line (calloc : Z -> option bytes) (attrs : memcached_coll_attrs_st) (result : bytes)
    : option memcached_coll_attrs_st :=
  first ← strtok_eq (drop 5 result);
  match first with
  | None => Some attrs
  | Some (word, rest) =>
      let attr_name := take 31 word in
      second ← strtok_eq rest;
      match second with
      | None => Some attrs
      | Some (word, rest) =>
          attrs ← get_attr calloc attrs attr_name word;
          _ ← strtok_eq rest;
          Some attrs
      end
  end.

(** The buffers of the lines with the code [MEMCACHED_ATTR]. *)
Fixpoint get_attrs_lines (calloc : Z -> option bytes) (attrs : memcached_coll_attrs_st)
    (lines : list bytes) : option memcached_coll_attrs_st :=
  match lines with
  | [] => Some attrs
  | line :: lines =>
      attrs ← get_attr_line calloc attrs line;
      get_attrs_lines calloc attrs lines
  end.

(** ** Specification *)

Definition crlf : bytes := [Byte.x0d; Byte.x0a].
Definition attr_line (name value : bytes) : bytes := str "ATTR " ++ name ++ str "=" ++ value ++ crlf.

Definition type_string (t : memcached_coll_type_t) : bytes :=
  str match t with
      | COLL_KV => "kv" | COLL_LIST => "list" | COLL_SET => "set" | COLL_MAP => "map"
      | COLL_BTREE => "b+tree" | COLL_NONE => "none"
      end.

Definition overflowaction_word (a : memcached_coll_overflowaction_t) : bytes :=
  str match a with
      | OVERFLOWACTION_NONE => "none"
      | OVERFLOWACTION_ERROR => "error"
      | OVERFLOWACTION_HEAD_TRIM => "head_trim"
      | OVERFLOWACTION_TAIL_TRIM => "tail_trim"
      | OVERFLOWACTION_SMALLEST_TRIM => "smallest_trim"
      | OVERFLOWACTION_LARGEST_TRIM => "largest_trim"
      | OVERFLOWACTION_SMALLEST_SILENT_TRIM => "smallest_silent_trim"
      | OVERFLOWACTION_LARGEST_SILENT_TRIM => "largest_silent_trim"
      end.

(** An item of the server, with keys that are numbers. *)
Record item := {
  item_flags : Z; item_expiretime : Z; item_type : memcached_coll_type_t; item_count : Z;
  item_maxcount : Z; item_overflowaction : memcached_coll_overflowaction_t; item_readable : bool;
  item_maxbkeyrange : Z; item_minbkey : Z; item_maxbkey : Z; item_trimmed : Z;
}.

Definition item_range (i : item) : Prop :=
  is_u32 (item_flags i) /\ - 2 ^ 31 <= item_expiretime i < 2 ^ 31 /\ is_u32 (item_count i)
  /\ is_u32 (item_maxcount i) /\ is_u64 (item_maxbkeyrange i) /\ is_u64 (item_minbkey i)
  /\ is_u64 (item_maxbkey i) /\ is_u32 (item_trimmed i).

Definition item_lines (i : item) : list bytes :=
  [attr_line (str "flags") (print_u32 (item_flags i));
   attr_line (str "expiretime") (print_i32 (item_expiretime i));
   attr_line (str "type") (type_string (item_type i));
   attr_line (str "count") (print_u32 (item_count i));
   attr_line (str "maxcount") (print_u32 (item_maxcount i));
   attr_line (str "overflowaction") (overflowaction_word (item_overflowaction i));
   attr_line (str "readable") (if item_readable i then str "on" else str "off");
   attr_line (str "maxbkeyrange") (print_u64 (item_maxbkeyrange i));
   attr_line (str "minbkey") (print_u64 (item_minbkey i));
   attr_line (str "maxbkey") (print_u64 (item_maxbkey i));
   attr_line (str "trimmed") (print_u32 (item_trimmed i))].

(** A buffer with a line, and whatever it held behind it, up to a NUL at least. *)
Definition in_buffer (line buffer : bytes) : Prop :=
  exists stale, buffer = line ++ stale /\ Byte.x00 ∈ stale.

Definition with_item (attrs : memcached_coll_attrs_st) (i : item) : memcached_coll_attrs_st :=
  attrs <| attr_flags := item_flags i |> <| attr_expiretime := item_expiretime i |>
        <| attr_type := item_type i |> <| attr_count := item_count i |>
        <| attr_maxcount := item_maxcount i |> <| attr_overflowaction := item_overflowaction i |>
        <| attr_readable := item_readable i |>
        <| attr_maxbkeyrange := sub_bkey (item_maxbkeyrange i) |>
        <| attr_minbkey := sub_bkey (item_minbkey i) |>
        <| attr_maxbkey := sub_bkey (item_maxbkey i) |> <| attr_trimmed := item_trimmed i |>
        <| subkey_type := MEMCACHED_COLL_QUERY_BOP |>.

(** ** Lemmas *)

Definition plain (s : bytes) : Prop := s <> [] /\ Byte.x3d ∉ s /\ no_nul s.

Lemma until_eq_app s t : Byte.x3d ∉ s -> no_nul s -> until_eq (s ++ Byte.x3d :: t) = Some (s, t).
Proof.
  induction s as [|c s IH]; intros Hs Hn; [done|]. apply Forall_cons in Hn as [Hc Hn]. cbn.
  rewrite !bool_decide_eq_false_2 by set_solver. by rewrite IH by set_solver.
Qed.

(** With a NUL behind it a token has an end, and so has the next one. *)
Lemma until_eq_nul s t :
  Byte.x3d ∉ s -> no_nul s -> Byte.x00 ∈ t ->
  exists g rest, until_eq (s ++ t) = Some (s ++ g, rest) /\ Byte.x00 ∈ rest.
Proof.
  intros Hs Hn Ht.
  assert (exists g rest, until_eq t = Some (g, rest) /\ Byte.x00 ∈ rest) as (g & rest & E & Hr).
  { clear s Hs Hn. induction t as [|c t IH]; [by apply elem_of_nil in Ht|]. cbn.
    case_bool_decide as E0; [by eexists _, _|]. apply elem_of_cons in Ht as [|Ht]; [done|].
    case_bool_decide; [by eexists _, _|]. destruct (IH Ht) as (g & rest & -> & Hr). by eexists _, _. }
  exists g, rest. split; [|done]. clear Ht. induction s as [|c s IH]; [done|].
  apply Forall_cons in Hn as [Hc Hn]. cbn. rewrite !bool_decide_eq_false_2 by set_solver.
  by rewrite IH by set_solver.
Qed.

Lemma strtok_eq_start c s : c <> Byte.x3d -> c <> Byte.x00 -> strtok_eq (c :: s) = Some <$> until_eq (c :: s).
Proof.
  intros Hc Hn. unfold strtok_eq. cbn [skip_eq]. rewrite bool_decide_eq_false_2 by done. cbn [mbind option_bind].
  rewrite bool_decide_eq_false_2; [done|]. cbn. congruence.
Qed.

Lemma strtok_eq_ends s : Byte.x00 ∈ s -> is_Some (strtok_eq s).
Proof.
  intros Hs. assert (exists t, skip_eq s = Some t /\ Byte.x00 ∈ t) as (t & E & Ht).
  { induction s as [|c s IH]; [by apply elem_of_nil in Hs|]. cbn. case_bool_decide as Ec; [|by eexists].
    apply IH. apply elem_of_cons in Hs as [<-|]; [discriminate Ec|done]. }
  unfold strtok_eq. rewrite E. cbn [mbind option_bind]. case_bool_decide; [done|].
  destruct (until_eq_nul [] t) as (g & rest & Eu & _); [set_solver|constructor|done|].
  cbn [app] in Eu. by rewrite Eu.
Qed.

(** A line with a name and a value. *)
Lemma line_spec calloc attrs name value buffer r :
  plain name -> plain value -> (length name <= 31)%nat -> in_buffer (attr_line name value) buffer ->
  (forall g, get_attr calloc attrs name (value ++ Byte.x0d :: Byte.x0a :: g) = Some r) ->
  get_attr_line calloc attrs buffer = Some r.
Proof.
  intros (N1 & N2 & N3) (V1 & V2 & V3) Hl (stale & -> & Hst) Hr.
  destruct name as [|n name]; [done|]. destruct value as [|v value]; [done|].
  unfold get_attr_line, attr_line. rewrite <-!app_assoc.
  change (drop 5 _) with ((n :: name) ++ Byte.x3d :: (v :: value) ++ crlf ++ stale).
  assert (n <> Byte.x00 /\ v <> Byte.x00) as [Hn Hv].
  { by apply Forall_cons in N3 as [? _]; apply Forall_cons in V3 as [? _]. }
  change ((n :: name) ++ ?t) with (n :: name ++ t). rewrite strtok_eq_start by (done || set_solver).
  change (n :: name ++ ?t) with ((n :: name) ++ t). rewrite until_eq_app by done.
  cbn [fmap option_fmap option_map mbind option_bind].
  change ((v :: value) ++ ?t) with (v :: value ++ t). rewrite strtok_eq_start by (done || set_solver).
  change (v :: value ++ crlf ++ stale) with ((v :: value) ++ crlf ++ stale). rewrite app_assoc.
  destruct (until_eq_nul ((v :: value) ++ crlf) stale) as (g & rest & -> & Hrest);
    [|apply Forall_app; split; [done|by repeat constructor]|done|].
  { rewrite elem_of_app. intros [?|H']; [done|]. unfold crlf in H'. set_solver. }
  cbn [fmap option_fmap option_map mbind option_bind]. rewrite (take_ge (n :: name)) by lia.
  rewrite <-app_assoc. unfold crlf. cbn [app]. cbn [app] in Hr. rewrite Hr.
  destruct (strtok_eq_ends rest Hrest) as [? ->]. done.
Qed.

Lemma digits_not_eq s : Forall (fun c => isdigit c = true) s -> Byte.x3d ∉ s.
Proof. by apply isdigit_not_in. Qed.

Lemma scan_minus ds c t :
  Forall (fun c => isdigit c = true) ds -> ds <> [] -> isdigit c = false ->
  scan_number (Byte.x2d :: ds ++ c :: t) = Some (true, ds, S (length ds)).
Proof.
  intros Hds Hne Hc. unfold scan_number.
  change (span isspace (Byte.x2d :: ds ++ c :: t)) with (Some (@nil byte, Byte.x2d :: ds ++ c :: t)).
  cbn [mbind option_bind lookup list_lookup].
  change (drop 1 (Byte.x2d :: ds ++ c :: t)) with (ds ++ c :: t).
  change ((uchar Byte.x2d =? 45) || (uchar Byte.x2d =? 43)) with true. cbn iota.
  rewrite (span_app isdigit ds c t Hds Hc). by destruct ds.
Qed.

Lemma atoi_word_u32 n t :
  is_u32 n -> atoi_word (print_u32 n ++ Byte.x0d :: t) = Some (i32 n).
Proof.
  intros Hn. destruct (print_u32_spec n Hn) as [Hd Hv]. destruct (print_u32_cons n) as (c & s & E).
  unfold atoi_word, strtol. rewrite <-app_assoc. cbn [app].
  rewrite scan_digits by (done || by rewrite E). cbn [mbind option_bind]. rewrite Hv.
  unfold LONG_MAX, LONG_MIN. by rewrite Z.gtb_ltb, !(proj2 (Z.ltb_ge _ _)) by lia.
Qed.

Lemma u32_i32 n : is_u32 n -> u32 (i32 n) = n.
Proof. intros Hn. unfold u32, i32. rewrite Zminus_mod, Zmod_mod, <-Zminus_mod. rewrite Z.add_simpl_r.
  apply Z.mod_small. lia. Qed.

Lemma atoi_word_i32 n t :
  - 2 ^ 31 <= n < 2 ^ 31 -> atoi_word (print_i32 n ++ Byte.x0d :: t) = Some n.
Proof.
  intros Hn. assert (Hi : i32 n = n) by (unfold i32; rewrite Z.mod_small; lia).
  unfold print_i32. destruct (Z.ltb_spec n 0).
  - destruct (print_u32_spec (- n) ltac:(lia)) as [Hd Hv].
    destruct (print_u32_cons (- n)) as (c & s & E).
    unfold atoi_word, strtol. change (str "-") with [Byte.x2d]. rewrite <-!app_assoc. cbn [app].
    rewrite scan_minus by (done || by rewrite E). cbn [mbind option_bind]. rewrite Hv.
    unfold LONG_MAX, LONG_MIN. rewrite Z.gtb_ltb, !(proj2 (Z.ltb_ge _ _)) by lia.
    by rewrite Z.opp_involutive, Hi.
  - rewrite atoi_word_u32 by lia. by rewrite Hi.
Qed.

Lemma read_number n key calloc g :
  is_u64 n ->
  read_bkey calloc key (print_u64 n ++ Byte.x0d :: Byte.x0a :: g)
  = Some (sub_bkey n, MEMCACHED_COLL_QUERY_BOP).
Proof.
  intros Hn. destruct (print_u64_spec n Hn) as [Hd Hv]. destruct (print_u64_cons n) as (c & s & E).
  unfold read_bkey, word_length.
  change (Byte.x0d :: Byte.x0a :: g) with ([Byte.x0d] ++ Byte.x0a :: g).
  rewrite app_assoc, (span_app _ (print_u64 n ++ [Byte.x0d]) Byte.x0a g); [|apply Forall_app; split|done].
  - cbn [mbind option_bind].
    replace (bool_decide (((print_u64 n ++ [Byte.x0d]) ++ Byte.x0a :: g) !! 1%nat = Some Byte.x78))
      with false.
    + rewrite andb_false_r. rewrite <-!app_assoc. cbn [app].
      rewrite strtoull_digits by (done || (by rewrite E) || (rewrite Hv; lia)).
      cbn [mbind option_bind]. by rewrite Hv.
    + symmetry. apply bool_decide_eq_false_2. intros Hx.
      rewrite lookup_app_l in Hx by (rewrite E, length_app; cbn; lia).
      assert (Byte.x78 ∈ print_u64 n ++ [Byte.x0d]) as Hin by (by eapply list_elem_of_lookup_2).
      apply (isdigit_not_in Byte.x78) in Hd; [|done]. set_solver.
  - eapply Forall_impl; [exact Hd|]. intros x Hx. cbn.
    rewrite bool_decide_eq_false_2; [done|]. by intros ->.
  - by repeat constructor.
Qed.

Lemma digits_plain d : Forall (fun c => isdigit c = true) d -> d <> [] -> plain d.
Proof.
  intros Hd Hne. split; [done|]. split; [by apply digits_not_eq|].
  eapply Forall_impl; [exact Hd|]. by intros c Hc ->.
Qed.

Lemma plain_u32 n : is_u32 n -> plain (print_u32 n).
Proof.
  intros Hn. destruct (print_u32_cons n) as (c & s & E).
  apply digits_plain; [apply print_u32_spec, Hn|by rewrite E].
Qed.

Lemma plain_u64 n : is_u64 n -> plain (print_u64 n).
Proof.
  intros Hn. destruct (print_u64_cons n) as (c & s & E).
  apply digits_plain; [apply print_u64_spec, Hn|by rewrite E].
Qed.

Lemma plain_i32 n : - 2 ^ 31 <= n < 2 ^ 31 -> plain (print_i32 n).
Proof.
  intros Hn. unfold print_i32. destruct (Z.ltb_spec n 0); [|apply plain_u32; lia].
  destruct (plain_u32 (- n) ltac:(lia)) as (H1 & H2 & H3). change (str "-") with [Byte.x2d].
  split; [done|]. split; [set_solver|by constructor].
Qed.

(** A number, a word of a table and a key. *)
Lemma line_u32 calloc attrs name n (f : Z -> memcached_coll_attrs_st) buffer :
  in_buffer (attr_line name (print_u32 n)) buffer -> plain name -> (length name <= 31)%nat -> is_u32 n ->
  (forall w, get_attr calloc attrs name w = v ← atoi_word w; Some (f (u32 v))) ->
  get_attr_line calloc attrs buffer = Some (f n).
Proof.
  intros Hb Hname Hl Hn Hf. eapply (line_spec _ _ name); [done|by apply plain_u32|done|exact Hb|].
  intros g. rewrite Hf, atoi_word_u32 by done. cbn [mbind option_bind]. by rewrite u32_i32.
Qed.

Lemma line_key calloc attrs name n key (f : memcached_coll_sub_key_st -> memcached_coll_sub_key_type_t ->
    memcached_coll_attrs_st) buffer :
  in_buffer (attr_line name (print_u64 n)) buffer -> plain name -> (length name <= 31)%nat -> is_u64 n ->
  (forall w, get_attr calloc attrs name w = '(k, t) ← read_bkey calloc key w; Some (f k t)) ->
  get_attr_line calloc attrs buffer = Some (f (sub_bkey n) MEMCACHED_COLL_QUERY_BOP).
Proof.
  intros Hb Hname Hl Hn Hf. eapply (line_spec _ _ name); [done|by apply plain_u64|done|exact Hb|].
  intros g. by rewrite Hf, read_number.
Qed.

(** That a word is plain is computed. *)
Ltac word := split; [done|split; [by apply (bool_decide_unpack _)|by repeat constructor]].

Lemma line_type calloc attrs t buffer :
  in_buffer (attr_line (str "type") (type_string t)) buffer ->
  get_attr_line calloc attrs buffer = Some (attrs <| attr_type := t |>).
Proof.
  intros Hb. apply (line_spec _ _ (str "type") (type_string t) buffer);
    [word|by destruct t; word|cbn; lia|exact Hb|].
  intros g. by destruct t.
Qed.

Lemma line_overflowaction calloc attrs a buffer :
  in_buffer (attr_line (str "overflowaction") (overflowaction_word a)) buffer ->
  get_attr_line calloc attrs buffer = Some (attrs <| attr_overflowaction := a |>).
Proof.
  intros Hb. apply (line_spec _ _ (str "overflowaction") (overflowaction_word a) buffer);
    [word|by destruct a; word|cbn; lia|exact Hb|].
  intros g. by destruct a.
Qed.

Lemma line_readable calloc attrs (b : bool) buffer :
  in_buffer (attr_line (str "readable") (if b then str "on" else str "off")) buffer ->
  get_attr_line calloc attrs buffer = Some (attrs <| attr_readable := b |>).
Proof.
  intros Hb. apply (line_spec _ _ (str "readable") (if b then str "on" else str "off") buffer);
    [word|by destruct b; word|cbn; lia|exact Hb|].
  intros g. by destruct b.
Qed.

Lemma line_expiretime calloc attrs n buffer :
  - 2 ^ 31 <= n < 2 ^ 31 -> in_buffer (attr_line (str "expiretime") (print_i32 n)) buffer ->
  get_attr_line calloc attrs buffer = Some (attrs <| attr_expiretime := n |>).
Proof.
  intros Hn Hb.
  apply (line_spec _ _ (str "expiretime") (print_i32 n) buffer); [word|by apply plain_i32|cbn; lia|exact Hb|].
  intros g. change (get_attr calloc attrs (str "expiretime") ?w)
    with (v ← atoi_word w; Some (attrs <| attr_expiretime := v |>)).
  by rewrite atoi_word_i32.
Qed.

(** The next line, by the lemma for it. *)
Tactic Notation "next_line" uconstr(H) :=
  rewrite H; [cbn [mbind option_bind]|assumption|word|cbn; lia|assumption|reflexivity].

Lemma get_attrs_item calloc attrs i buffers :
  item_range i -> Forall2 in_buffer (item_lines i) buffers ->
  get_attrs_lines calloc attrs buffers = Some (with_item attrs i).
Proof.
  intros (Hf & He & Hc & Hm & Hr & Hlo & Hhi & Ht) Hb. unfold item_lines in Hb.
  repeat (apply Forall2_cons_inv_l in Hb as (? & ? & ? & Hb & ->)).
  apply Forall2_nil_inv_l in Hb as ->. cbn [get_attrs_lines].
  next_line (line_u32 calloc attrs (str "flags") (item_flags i) (fun v => attrs <| attr_flags := v |>)).
  set (a0 := update _ _ _).
  rewrite (line_expiretime calloc a0 (item_expiretime i)) by assumption. cbn [mbind option_bind].
  rewrite (line_type calloc _ (item_type i)) by assumption. cbn [mbind option_bind]. set (a1 := update _ _ _).
  next_line (line_u32 calloc a1 (str "count") (item_count i) (fun v => a1 <| attr_count := v |>)).
  set (a2 := update _ _ _).
  next_line (line_u32 calloc a2 (str "maxcount") (item_maxcount i) (fun v => a2 <| attr_maxcount := v |>)).
  rewrite (line_overflowaction calloc _ (item_overflowaction i)) by assumption. cbn [mbind option_bind].
  rewrite (line_readable calloc _ (item_readable i)) by assumption. cbn [mbind option_bind].
  set (a3 := update _ _ _).
  next_line (line_key calloc a3 (str "maxbkeyrange") (item_maxbkeyrange i) (attr_maxbkeyrange a3)
               (fun k t => a3 <| attr_maxbkeyrange := k |> <| subkey_type := t |>)).
  set (a4 := update _ _ _).
  next_line (line_key calloc a4 (str "minbkey") (item_minbkey i) (attr_minbkey a4)
               (fun k t => a4 <| attr_minbkey := k |> <| subkey_type := t |>)).
  set (a5 := update _ _ _).
  next_line (line_key calloc a5 (str "maxbkey") (item_maxbkey i) (attr_maxbkey a5)
               (fun k t => a5 <| attr_maxbkey := k |> <| subkey_type := t |>)).
  set (a6 := update _ _ _).
  next_line (line_u32 calloc a6 (str "trimmed") (item_trimmed i) (fun v => a6 <| attr_trimmed := v |>)).
  reflexivity.
Qed.

(** *** What is sent *)

(** The state of the printing: the text so far and where it ends. *)
Definition printed (text : bytes) (st : Z * bytes) : Prop :=
  fst st = Z.of_nat (length text) /\ take (length text) (snd st) = text
  /\ Z.of_nat (length (snd st)) = MEMCACHED_DEFAULT_COMMAND_SIZE.

Lemma append_if_spec cond text sofar st :
  printed sofar st ->
  Z.of_nat (length sofar + length text) < MEMCACHED_DEFAULT_COMMAND_SIZE ->
  exists st', append_if cond text st = Some st'
    /\ printed (sofar ++ (if cond : bool then text else [])) st'.
Proof.
  destruct st as [n buffer]. unfold printed, MEMCACHED_DEFAULT_COMMAND_SIZE. cbn [fst snd].
  intros (-> & Htake & Hb) Ht. unfold append_if, MEMCACHED_DEFAULT_COMMAND_SIZE.
  destruct cond; [|eexists; split; [done|]; by rewrite app_nil_r].
  rewrite u64_small by lia. rewrite snprintf_at_fits by lia. cbn [mbind option_bind].
  eexists. split; [done|]. cbn [fst snd]. rewrite length_app, Nat2Z.inj_add.
  split; [done|]. rewrite Nat2Z.id. unfold store. split.
  - rewrite Htake, <-app_assoc, (app_assoc sofar text), <-?length_app. apply take_app_length.
  - rewrite !length_app, length_take, length_drop, ?length_app. cbn [length]. lia.
Qed.

Lemma overflowaction_length a : (length (coll_overflowaction_string a) <= 20)%nat.
Proof. destruct a; cbn; lia. Qed.

Lemma print_i32_length n : (length (print_i32 n) <= 11)%nat.
Proof.
  unfold print_i32. pose proof (print_u32_length n). pose proof (print_u32_length (- n)).
  case_match; [|lia]. rewrite length_app. literals. lia.
Qed.

(** The range that the setters leave. *)
Definition range_text (attrs : memcached_coll_attrs_st) : bytes :=
  if set_maxbkeyrange attrs then
    match attr_maxbkeyrange attrs with
    | sub_bkey k => str " maxbkeyrange=" ++ print_u64 k
    | sub_bkey_ext h =>
        str " maxbkeyrange=0x" ++ hex_text (take (Z.to_nat (array_length h)) (memory h))
    | _ => []
    end
  else [].

Definition range_ok (attrs : memcached_coll_attrs_st) : Prop :=
  set_maxbkeyrange attrs = true ->
  match attr_maxbkeyrange attrs with
  | sub_bkey _ => subkey_type attrs = MEMCACHED_COLL_QUERY_BOP
  | sub_bkey_ext h =>
      subkey_type attrs = MEMCACHED_COLL_QUERY_BOP_EXT
      /\ fits h (take (Z.to_nat (array_length h)) (memory h))
  | _ => False
  end.

Lemma maxbkeyrange_text_spec junk attrs :
  range_ok attrs -> scratch junk ->
  exists range, maxbkeyrange_text junk attrs = Some range
    /\ (if bool_decide (range <> None) then default [] range else []) = range_text attrs
    /\ (length (default [] range) <= 78)%nat.
Proof.
  intros Hr Hj. unfold maxbkeyrange_text, range_text. destruct (set_maxbkeyrange attrs) eqn:E.
  2:{ exists None. split_and!; [done|done|cbn; lia]. }
  specialize (Hr E). cbn [negb].
  destruct (attr_maxbkeyrange attrs) as [| |k| |h| |]; try done.
  - rewrite Hr. eexists. split_and!; [done|done|]. cbn [default from_option id].
    rewrite length_app. literals. pose proof (print_u64_length k). lia.
  - destruct Hr as [-> Hf]. destruct (print_hex_spec _ _ _ Hf Hj) as (b' & -> & _).
    cbn [mbind option_bind]. eexists. split_and!; [done|done|]. cbn [default from_option id].
    rewrite length_app, hex_text_length. literals.
    destruct Hf as [_ Hf]. unfold MEMCACHED_COLL_MAX_BYTE_ARRAY_LENGTH in Hf. lia.
Qed.

(** What [memcached_set_attrs] sends behind the key: the attributes that were
    set, in the order of the code; it always fits. *)
Lemma set_attrs_text_spec junk attrs buffer :
  range_ok attrs -> scratch junk -> Z.of_nat (length buffer) = MEMCACHED_DEFAULT_COMMAND_SIZE ->
  exists n buffer',
    set_attrs_text junk attrs buffer = Some (MEMCACHED_SUCCESS, n, buffer')
    /\ take (Z.to_nat n) buffer'
       = (if set_maxcount attrs then str " maxcount=" ++ print_u32 (attr_maxcount attrs) else [])
         ++ (if set_expiretime attrs
             then str " expiretime=" ++ print_i32 (attr_expiretime attrs) else [])
         ++ (if set_overflowaction attrs
             then str " overflowaction=" ++ coll_overflowaction_string (attr_overflowaction attrs)
             else [])
         ++ (if set_readable attrs then str " readable=on" else [])
         ++ range_text attrs.
Proof.
  intros Hr Hj Hb. unfold set_attrs_text.
  pose proof (print_u32_length (attr_maxcount attrs)).
  pose proof (print_i32_length (attr_expiretime attrs)).
  pose proof (overflowaction_length (attr_overflowaction attrs)).
  destruct (maxbkeyrange_text_spec junk attrs Hr Hj) as (range & Er & Et & Hl).
  set (c1 := set_maxcount attrs). set (t1 := str " maxcount=" ++ _).
  set (c2 := set_expiretime attrs). set (t2 := str " expiretime=" ++ _).
  set (c3 := set_overflowaction attrs). set (t3 := str " overflowaction=" ++ _).
  set (t4 := str " readable=on").
  assert (L1 : (length t1 <= 20)%nat) by (unfold t1; rewrite length_app; literals; lia).
  assert (L2 : (length t2 <= 23)%nat) by (unfold t2; rewrite length_app; literals; lia).
  assert (L3 : (length t3 <= 36)%nat) by (unfold t3; rewrite length_app; literals; lia).
  assert (L4 : length t4 = 12%nat) by done.
  clearbody t1 t2 t3 t4. unfold MEMCACHED_DEFAULT_COMMAND_SIZE in *.
  destruct (append_if_spec c1 t1 [] (0, buffer)) as (s1 & -> & P1);
    [by split|unfold MEMCACHED_DEFAULT_COMMAND_SIZE; cbn; lia|]. cbn [mbind option_bind].
  assert (M : forall (c : bool) (t : bytes), (length (if c then t else []) <= length t)%nat)
    by (intros [] t; cbn; lia).
  pose proof (M c1 t1) as M1. pose proof (M c2 t2) as M2. pose proof (M c3 t3) as M3.
  pose proof (M (set_readable attrs) t4) as M4.
  destruct (append_if_spec c2 t2 _ s1 P1) as (s2 & -> & P2);
    [unfold MEMCACHED_DEFAULT_COMMAND_SIZE; rewrite ?length_app; cbn; lia|]. cbn [mbind option_bind].
  destruct (append_if_spec c3 t3 _ s2 P2) as (s3 & -> & P3);
    [unfold MEMCACHED_DEFAULT_COMMAND_SIZE; rewrite ?length_app; cbn; lia|]. cbn [mbind option_bind].
  destruct (append_if_spec (set_readable attrs) t4 _ s3 P3) as (s4 & -> & P4);
    [unfold MEMCACHED_DEFAULT_COMMAND_SIZE; rewrite ?length_app; cbn; lia|]. cbn [mbind option_bind].
  rewrite Er. cbn [mbind option_bind].
  destruct (append_if_spec (bool_decide (range <> None)) (default [] range) _ s4 P4)
    as (s5 & -> & P5);
    [unfold MEMCACHED_DEFAULT_COMMAND_SIZE; rewrite ?length_app; cbn; lia|]. cbn [mbind option_bind].
  rewrite Et in P5. destruct s5 as [n buffer']. destruct P5 as (Hn & Htake & _). cbn [fst snd] in *.
  assert (length (range_text attrs) <= 78)%nat by (rewrite <-Et; destruct (bool_decide _); cbn [length]; lia).
  assert (0 <= n < 512) by (rewrite Hn, !length_app; cbn; lia).
  rewrite Z.geb_leb, (proj2 (Z.leb_gt _ _)), (proj2 (Z.ltb_ge _ _)) by
    (unfold MEMCACHED_DEFAULT_COMMAND_SIZE; lia).
  eexists _, _. split; [done|]. rewrite Hn, Nat2Z.id, Htake. by rewrite <-!app_assoc.
Qed.

(** C39: Reading the attributes of an item.  From the lines that the server sends for
    any item whose keys are numbers, whatever the structure held before and whatever
    the buffer of a line holds behind it, up to a NUL, the attributes that are stored
    are those of the item: numbers on the whole of their range, negative expiration
    times, the type and the action by their names, and the keys with all of their
    64 bits, of which the getters give those that fit the 32 bits of their result. *)
Theorem get_attrs_lines_spec (calloc : Z -> option bytes) (attrs : memcached_coll_attrs_st) (i : item)
    (buffers : list bytes) :
  item_range i -> Forall2 in_buffer (item_lines i) buffers ->
  exists attrs',
    get_attrs_lines calloc attrs buffers = Some attrs'
    /\ attrs' = with_item attrs i
    /\ (is_u32 (item_minbkey i) -> memcached_coll_attrs_get_minbkey attrs' = Some (item_minbkey i))
    /\ (is_u32 (item_maxbkey i) -> memcached_coll_attrs_get_maxbkey attrs' = Some (item_maxbkey i))
    /\ (is_u32 (item_maxbkeyrange i) ->
        memcached_coll_attrs_get_maxbkeyrange attrs' = Some (item_maxbkeyrange i)).
Proof.
  intros Hi Hb. exists (with_item attrs i). split; [by apply get_attrs_item|]. split; [done|].
  unfold memcached_coll_attrs_get_minbkey, memcached_coll_attrs_get_maxbkey,
    memcached_coll_attrs_get_maxbkeyrange, get_bkey. cbn.
  by split_and!; intros; rewrite u32_small by lia.
Qed.

Definition new_attrs : memcached_coll_attrs_st :=
  {| attr_flags := 0; attr_expiretime := 0; attr_type := COLL_NONE; attr_count := 0;
     attr_maxcount := 0; attr_overflowaction := OVERFLOWACTION_NONE; attr_readable := false;
     attr_minbkey := sub_bkey 0; attr_maxbkey := sub_bkey 0; attr_maxbkeyrange := sub_bkey 0;
     attr_trimmed := 0; attr_is_initialized := true; set_flags := false; set_expiretime := false;
     set_maxcount := false; set_overflowaction := false; set_readable := false;
     set_maxbkeyrange := false; subkey_type := MEMCACHED_COLL_QUERY_UNKNOWN |}.

Definition some_item : item :=
  {| item_flags := 2 ^ 32 - 1; item_expiretime := -1; item_type := COLL_BTREE; item_count := 7;
     item_maxcount := 4000; item_overflowaction := OVERFLOWACTION_SMALLEST_SILENT_TRIM;
     item_readable := true; item_maxbkeyrange := 0; item_minbkey := 3; item_maxbkey := 2 ^ 64 - 1;
     item_trimmed := 1 |}.

(** Each line in a buffer that held an older and longer one. *)
Definition some_buffers : list bytes :=
  map (fun line => line ++ str "ld" ++ crlf ++ str "=" ++ [Byte.x00]) (item_lines some_item).

Lemma get_attrs_lines_spec_witness :
  exists attrs', get_attrs_lines cleared new_attrs some_buffers = Some attrs'
                 /\ attr_expiretime attrs' = -1 /\ attr_maxbkey attrs' = sub_bkey (2 ^ 64 - 1)
                 /\ memcached_coll_attrs_get_minbkey attrs' = Some 3.
Proof.
  destruct (get_attrs_lines_spec cleared new_attrs some_item some_buffers) as (attrs' & E & Ea & Em & _).
  - unfold item_range. cbn. lia.
  - unfold some_buffers. generalize (item_lines some_item). intros ls.
    induction ls as [|l ls IH]; cbn [map]; constructor; [|exact IH].
    eexists. split; [reflexivity|]. by apply (bool_decide_unpack _).
  - exists attrs'. split; [exact E|]. rewrite Ea in Em |- *. split; [done|]. split; [done|].
    apply Em. cbn. lia.
Defined.

(** ** What modelling showed *)

Definition minbkey_line (text : string) : bytes := attr_line (str "minbkey") (str text) ++ [Byte.x00].

(** Nothing terminates a line: without a NUL behind it the search for a token leaves the
    buffer. *)
Lemma get_attrs_unterminated :
  get_attr_line cleared new_attrs (attr_line (str "count") (str "7")) = None.
Proof. reflexivity. Qed.

(** A key that is a byte array is lost: the text that is converted still has its
    end of line, so that it is longer than the array, and zeros are stored. *)
Lemma get_attrs_byte_array :
  match get_attr_line cleared new_attrs (minbkey_line "0x0102") with
  | Some attrs =>
      memcached_coll_attrs_get_minbkey_by_byte attrs
      = Some (MEMCACHED_SUCCESS, Some (Some [Byte.x00; Byte.x00], 2))
  | None => False
  end.
Proof. reflexivity. Qed.

(** When the structure held a number, it is used as the pointer of the array. *)
Lemma get_attrs_wild_pointer :
  get_attr_line cleared (new_attrs <| attr_minbkey := sub_bkey 5 |>) (minbkey_line "0x0102") = None.
Proof. reflexivity. Qed.

(** The getters of keys cut them to 32 bits. *)
Lemma get_bkey_truncates :
  memcached_coll_attrs_get_maxbkeyrange
    (new_attrs <| subkey_type := MEMCACHED_COLL_QUERY_BOP |>
               <| attr_maxbkeyrange := sub_bkey (2 ^ 32) |>) = Some 0.
Proof. reflexivity. Qed.
