(* ===== verification/CollResult.v ===== *)
(** Results of operations on collections: collection_result.cc.

    A result has arrays, NULL at first, one element of each per element of the
    collection that was read.  [None] of a function is a read outside of them. *)
From Stdlib Require Import Strings.Byte.
From S2P Require Import Prelude HashFunctions Hashkit Memcached StringBuf Hexadecimal Collection.

(** [struct memcached_coll_result_st]; [coll_key] has [MEMCACHED_MAX_KEY] bytes. *)
Record memcached_coll_result_st := {
  coll_key : bytes;
  coll_key_length : Z;
  coll_type : memcached_coll_type_t;
  collection_flags : Z;
  collection_count : Z;
  btree_position : Z;
  result_position : Z;
  coll_expiration : Z;
  sub_key_type : memcached_coll_sub_key_type_t;
  sub_keys : option (list memcached_coll_sub_key_st);
  eflags : option (list memcached_hexadecimal_st);
  values : option (list memcached_string_st);
  coll_is_allocated : bool;
  coll_is_initialized : bool;
}.

#[export] Instance coll_result_fields : Fields memcached_coll_result_st := fun r =>
  {| coll_key := coll_key r; coll_key_length := coll_key_length r; coll_type := coll_type r;
     collection_flags := collection_flags r; collection_count := collection_count r;
     btree_position := btree_position r; result_position := result_position r;
     coll_expiration := coll_expiration r; sub_key_type := sub_key_type r;
     sub_keys := sub_keys r; eflags := eflags r; values := values r;
     coll_is_allocated := coll_is_allocated r; coll_is_initialized := coll_is_initialized r |}.

(** ** Memory *)

(** [calloc n size] is [n] cleared elements, when there is room. *)
Class Calloc := {
  calloc : Z -> Z -> option bytes;
  calloc_clears : forall n size b, calloc n size = Some b ->
    b = replicate (Z.to_nat (n * size)) Byte.x00;
}.

(** The sizes of the elements. *)
Definition sizeof_memcached_string_st : Z := 40.
Definition sizeof_memcached_coll_sub_key_st : Z := 48.
Definition sizeof_memcached_hexadecimal_st : Z := 24.
Definition sizeof_uint32_t : Z := 4.
Definition sizeof_size_t : Z := 8.
Definition sizeof_memcached_return_t : Z := 4.

(** Cleared elements.  A union that is cleared is the bkey 0. *)
Definition cleared_string : memcached_string_st :=
  {| string_is_allocated := false; string_is_initialized := false; current_size := 0;
     string_block := None; string_end := 0 |}.
Definition cleared_sub_key : memcached_coll_sub_key_st := sub_bkey 0.
Definition cleared_hexadecimal : memcached_hexadecimal_st :=
  {| array := None; array_length := 0; array_is_allocated := false |}.
Definition cleared_mkey : memcached_mkey_st :=
  {| mkey_string := []; mkey_length := 0; mkey_string_array := []; mkey_length_array := [];
     number_of_mkeys := 0 |}.

(** [ALLOCATE_ARRAY_OR_RETURN]: an array that is there is used again, whatever its
    size; [None] is no memory. *)
Definition allocate_array `{Calloc} {A} (ptr : option (list A)) (cleared : A) (count size : Z)
    : option (list A) :=
  match ptr with
  | Some a => Some a
  | None => _ ← calloc count size; Some (replicate (Z.to_nat count) cleared)
  end.

(** The members of the union; a pointer that was written as a number is none. *)
Definition sub_bkey_of (s : memcached_coll_sub_key_st) : option Z :=
  match s with sub_bkey bkey => Some bkey | _ => None end.
Definition sub_bkey_ext_of (s : memcached_coll_sub_key_st) : option memcached_hexadecimal_st :=
  match s with
  | sub_bkey_ext h => Some h
  | sub_bkey bkey => if bkey =? 0 then Some cleared_hexadecimal else None
  | _ => None
  end.
Definition sub_mkey_of (s : memcached_coll_sub_key_st) : option memcached_mkey_st :=
  match s with
  | sub_mkey m => Some m
  | sub_bkey bkey => if bkey =? 0 then Some cleared_mkey else None
  | _ => None
  end.

(** The element at an index of an array. *)
Definition at_index {A} (a : option (list A)) (index : Z) : option A :=
  a ← a;
  if 0 <=? index then a !! Z.to_nat index else None.

(** A loop over the first [count] elements of an array that frees what [part] is of
    each. *)
Definition free_elements {A B} (count : Z) (a : option (list A)) (part : A -> option B) : option unit :=
  if count =? 0 then Some tt
  else
    a ← a;
    if count <=? Z.of_nat (length a)
    then _ ← mapM part (take (Z.to_nat count) a); Some tt
    else None.

(** The same when there is an array. *)
Definition free_array {A B} (count : Z) (a : option (list A)) (part : A -> option B) : option unit :=
  match a with None => Some tt | Some _ => free_elements count a part end.

(** ** Results *)

Definition _coll_result_init (self : memcached_coll_result_st) : memcached_coll_result_st :=
  self <| collection_flags := 0 |> <| collection_count := 0 |> <| btree_position := 0 |>
       <| result_position := 0 |> <| coll_expiration := 0 |> <| values := None |>
       <| sub_key_type := MEMCACHED_COLL_QUERY_UNKNOWN |> <| sub_keys := None |> <| eflags := None |>
       <| coll_is_initialized := true |>.

(** [ptr] is the memory given, or what [malloc] returned, [None] when it fails. *)
Definition memcached_coll_result_create (ptr : option memcached_coll_result_st) (allocated : bool)
    : option memcached_coll_result_st :=
  ptr ← ptr;
  Some (_coll_result_init (ptr <| coll_is_allocated := allocated |>)).

Definition memcached_coll_result_reset (ptr : memcached_coll_result_st)
    : option memcached_coll_result_st :=
  let count := collection_count ptr in
  _ ← free_elements count (values ptr) Some;
  _ ← (if bool_decide (sub_key_type ptr = MEMCACHED_COLL_QUERY_BOP_EXT)
       then free_array count (sub_keys ptr) sub_bkey_ext_of
       else if bool_decide (sub_key_type ptr = MEMCACHED_COLL_QUERY_MOP)
       then free_array count (sub_keys ptr) sub_mkey_of
       else Some tt);
  _ ← free_array count (eflags ptr) Some;
  Some (_coll_result_init ptr).

(** The inner [None] is memory that was freed. *)
Definition memcached_coll_result_free (ptr : memcached_coll_result_st)
    : option (option memcached_coll_result_st) :=
  if negb (coll_is_initialized ptr) then Some (Some ptr)
  else
    ptr ← memcached_coll_result_reset ptr;
    let ptr := ptr <| coll_is_initialized := false |> in
    Some (if coll_is_allocated ptr then None else Some ptr).

(** [None] is NULL. *)
Definition memcached_coll_result_get_key (result : memcached_coll_result_st) : option bytes :=
  if coll_key_length result =? 0 then None else Some (coll_key result).
Definition memcached_coll_result_get_key_length (result : memcached_coll_result_st) : Z :=
  coll_key_length result.
Definition memcached_coll_result_get_type (result : memcached_coll_result_st)
    : memcached_coll_type_t := coll_type result.
Definition memcached_coll_result_get_count (result : memcached_coll_result_st) : Z :=
  collection_count result.
Definition memcached_coll_result_get_flags (result : memcached_coll_result_st) : Z :=
  collection_flags result.
Definition memcached_coll_result_get_btree_position (result : memcached_coll_result_st) : Z :=
  btree_position result.
Definition memcached_coll_result_get_result_position (result : memcached_coll_result_st) : Z :=
  result_position result.
Definition memcached_coll_result_get_position (result : memcached_coll_result_st) (index : Z) : Z :=
  if bool_decide (coll_type result = COLL_BTREE)
  then u64 (u64 (btree_position result - result_position result) + index) else 0.

Definition memcached_coll_result_get_bkey (result : memcached_coll_result_st) (index : Z) : option Z :=
  if bool_decide (coll_type result = COLL_BTREE) then
    s ← at_index (sub_keys result) index;
    sub_bkey_of s
  else Some 0.

(** The inner [None] is NULL, here and below. *)
Definition memcached_coll_result_get_bkey_ext (result : memcached_coll_result_st) (index : Z)
    : option (option memcached_hexadecimal_st) :=
  if bool_decide (coll_type result = COLL_BTREE)
     && bool_decide (sub_key_type result = MEMCACHED_COLL_QUERY_BOP_EXT) then
    s ← at_index (sub_keys result) index;
    h ← sub_bkey_ext_of s;
    Some (Some h)
  else Some None.

Definition memcached_coll_result_get_eflag (result : memcached_coll_result_st) (index : Z)
    : option (option memcached_hexadecimal_st) :=
  if bool_decide (coll_type result = COLL_BTREE) then
    match eflags result with
    | None => Some None
    | Some _ => h ← at_index (eflags result) index; Some (Some h)
    end
  else Some None.

Definition memcached_coll_result_get_mkey (result : memcached_coll_result_st) (index : Z)
    : option (option bytes) :=
  if bool_decide (coll_type result = COLL_MAP) then
    s ← at_index (sub_keys result) index;
    m ← sub_mkey_of s;
    Some (match mkey_string m with [] => None | b => Some b end)
  else Some None.

Definition memcached_coll_result_get_mkey_length (result : memcached_coll_result_st) (index : Z)
    : option Z :=
  if bool_decide (coll_type result = COLL_MAP) then
    s ← at_index (sub_keys result) index;
    m ← sub_mkey_of s;
    Some (mkey_length m)
  else Some 0.

Definition memcached_coll_result_get_value (result : memcached_coll_result_st) (index : Z)
    : option (option bytes) :=
  match values result with
  | None => Some None
  | Some _ => v ← at_index (values result) index; Some (string_block v)
  end.

Definition memcached_coll_result_get_value_length (result : memcached_coll_result_st) (index : Z)
    : option Z :=
  match values result with
  | None => Some 0
  | Some _ => v ← at_index (values result) index; Some (memcached_string_length v)
  end.

(** ** Results of sort-merge gets *)

Definition _coll_smget_result_init (self : memcached_coll_smget_result_st)
    : memcached_coll_smget_result_st :=
  self <| value_count := 0 |> <| missed_key_count := 0 |> <| trimmed_key_count := 0 |>
       <| smget_keys := None |> <| smget_values := None |> <| smget_flags := None |>
       <| smget_sub_key_type := MEMCACHED_COLL_QUERY_UNKNOWN |> <| smget_sub_keys := None |>
       <| smget_eflags := None |> <| smget_bytes := None |> <| missed_keys := None |>
       <| missed_causes := None |> <| trimmed_keys := None |> <| trimmed_sub_keys := None |>
       <| smget_offset := 0 |> <| smget_count := 0 |> <| smget_smgmode := MEMCACHED_COLL_SMGET_NONE |>
       <| smget_is_initialized := true |> <| is_descending := false |>.

Definition memcached_coll_smget_result_create (ptr : option memcached_coll_smget_result_st)
    (allocated : bool) : option memcached_coll_smget_result_st :=
  ptr ← ptr;
  Some (_coll_smget_result_init (ptr <| smget_is_allocated := allocated |>)).

(** Whether the bkeys are byte arrays. *)
Definition byte_array_keys (type : memcached_coll_sub_key_type_t) : bool :=
  bool_decide (type = MEMCACHED_COLL_QUERY_BOP_EXT)
  || bool_decide (type = MEMCACHED_COLL_QUERY_BOP_EXT_RANGE).

Definition memcached_coll_smget_result_reset (ptr : memcached_coll_smget_result_st)
    : option memcached_coll_smget_result_st :=
  let free_bkeys count bkeys :=
    if byte_array_keys (smget_sub_key_type ptr) then free_array count bkeys sub_bkey_ext_of
    else Some tt in
  let n := value_count ptr in
  _ ← free_array n (smget_keys ptr) Some;
  _ ← free_array n (smget_values ptr) Some;
  _ ← free_bkeys n (smget_sub_keys ptr);
  _ ← free_array n (smget_eflags ptr) Some;
  _ ← free_array (missed_key_count ptr) (missed_keys ptr) Some;
  _ ← free_array (trimmed_key_count ptr) (trimmed_keys ptr) Some;
  _ ← free_bkeys (trimmed_key_count ptr) (trimmed_sub_keys ptr);
  Some (_coll_smget_result_init ptr).

Definition memcached_coll_smget_result_free (ptr : memcached_coll_smget_result_st)
    : option (option memcached_coll_smget_result_st) :=
  if negb (smget_is_initialized ptr) then Some (Some ptr)
  else
    ptr ← memcached_coll_smget_result_reset ptr;
    let ptr := ptr <| smget_is_initialized := false |> in
    Some (if smget_is_allocated ptr then None else Some ptr).

(** What a getter gives of the element at an index, and without an array. *)
Definition element_of {A B} (a : option (list A)) (index : Z) (part : A -> B) (null : B) : option B :=
  match a with
  | None => Some null
  | Some _ => x ← at_index a index; Some (part x)
  end.

Definition memcached_coll_smget_result_get_type (result : memcached_coll_smget_result_st)
    : memcached_coll_type_t := smget_type result.
Definition memcached_coll_smget_result_get_count (result : memcached_coll_smget_result_st) : Z :=
  value_count result.
Definition memcached_coll_smget_result_get_key (result : memcached_coll_smget_result_st) (index : Z)
    : option (option bytes) := element_of (smget_keys result) index string_block None.
Definition memcached_coll_smget_result_get_bkey (result : memcached_coll_smget_result_st) (index : Z)
    : option Z := s ← at_index (smget_sub_keys result) index; sub_bkey_of s.
Definition memcached_coll_smget_result_get_bkey_ext (result : memcached_coll_smget_result_st)
    (index : Z) : option memcached_hexadecimal_st :=
  s ← at_index (smget_sub_keys result) index; sub_bkey_ext_of s.
Definition memcached_coll_smget_result_get_eflag (result : memcached_coll_smget_result_st) (index : Z)
    : option (option memcached_hexadecimal_st) := element_of (smget_eflags result) index Some None.
Definition memcached_coll_smget_result_get_value (result : memcached_coll_smget_result_st) (index : Z)
    : option (option bytes) := element_of (smget_values result) index string_block None.
Definition memcached_coll_smget_result_get_value_length (result : memcached_coll_smget_result_st)
    (index : Z) : option Z := element_of (smget_values result) index memcached_string_length 0.

Definition memcached_coll_smget_result_get_missed_key_count (result : memcached_coll_smget_result_st)
    : Z := missed_key_count result.
Definition memcached_coll_smget_result_get_missed_key (result : memcached_coll_smget_result_st)
    (index : Z) : option (option bytes) := element_of (missed_keys result) index string_block None.
(** The room of the string, not its length. *)
Definition memcached_coll_smget_result_get_missed_key_length (result : memcached_coll_smget_result_st)
    (index : Z) : option Z := element_of (missed_keys result) index current_size 0.
Definition memcached_coll_smget_result_get_missed_cause (result : memcached_coll_smget_result_st)
    (index : Z) : option memcached_return_t :=
  element_of (missed_causes result) index id MEMCACHED_SUCCESS.

Definition memcached_coll_smget_result_get_trimmed_key_count (result : memcached_coll_smget_result_st)
    : Z := trimmed_key_count result.
Definition memcached_coll_smget_result_get_trimmed_key (result : memcached_coll_smget_result_st)
    (index : Z) : option (option bytes) := element_of (trimmed_keys result) index string_block None.
Definition memcached_coll_smget_result_get_trimmed_key_length (result : memcached_coll_smget_result_st)
    (index : Z) : option Z := element_of (trimmed_keys result) index current_size 0.
Definition memcached_coll_smget_result_get_trimmed_bkey (result : memcached_coll_smget_result_st)
    (index : Z) : option Z := s ← at_index (trimmed_sub_keys result) index; sub_bkey_of s.
Definition memcached_coll_smget_result_get_trimmed_bkey_ext (result : memcached_coll_smget_result_st)
    (index : Z) : option memcached_hexadecimal_st :=
  s ← at_index (trimmed_sub_keys result) index; sub_bkey_ext_of s.
