(* ===== verification/CollResponse.v ===== *)
(** Responses about collections: the second half of response.cc, but for the
    sort-merge gets.

    As in Response, the contents of the buffer go in and come out, and what is read
    behind it is a [Crash].  [last_op_code] is the command that the handle remembers,
    and the array [pipe_responses] of the caller is a list. *)
From Stdlib Require Import Strings.Byte.
From S2P Require Import Prelude HashFunctions Hashkit Memcached Text KeyHash ServerList.
From S2P Require Import Error StringBuf Io Result Response Hexadecimal Collection CollResult.

(** ** Parts of a line *)

(** [memcmp(s, lit, n) == 0], which reads up to the first difference. *)
Fixpoint memcmp_n (n : nat) (s lit : bytes) : option bool :=
  match n, s, lit with
  | O, _, _ => Some true
  | S n, x :: s, c :: lit => if bool_decide (x = c) then memcmp_n n s lit else Some false
  | S _, _, _ => None
  end.

(** The string [text] in memory. *)
Definition c_string (text : bytes) : bytes := text ++ [Byte.x00].

(** The digits at the beginning of the next [n] bytes. *)
Fixpoint digits_within (n : nat) (s : bytes) : option bytes :=
  match n with
  | O => Some []
  | S n =>
      c ← s !! 0%nat;
      if isdigit c then ds ← digits_within n (drop 1 s); Some (c :: ds) else Some []
  end.

Definition MAX_UINT32_STRING_LENGTH : nat := 11.

(** [parse_response_header] for one number: its value. *)
Definition parse_response_header (buffer : bytes) (header_length : nat) : option (option Z) :=
  let end_ptr := 512%nat in
  let string_ptr := S header_length in
  if (string_ptr =? end_ptr)%nat then Some None
  else
    '(v, n) ← strtoull (drop string_ptr buffer);
    let string_ptr := (string_ptr + n)%nat in
    if (string_ptr =? end_ptr)%nat then Some None
    else
      c ← buffer !! string_ptr;
      let string_ptr := if bool_decide (c = Byte.x0d) then (string_ptr + 2)%nat else string_ptr in
      Some (if (end_ptr <? string_ptr)%nat then None else Some (u32 v)).

(** [parse_response_uint32_value]: the values, when there are [count] of them, each
    behind a space.  [s] are the bytes from the pointer on, of which [length] may be
    looked at. *)
Fixpoint parse_response_uint32_value (count : nat) (s : bytes) (length : Z)
    : option (option (list Z)) :=
  match count with
  | O => Some (Some [])
  | S count =>
      c ← s !! 0%nat;
      if bool_decide (c <> " "%byte) then Some None
      else
        ds ← digits_within (Z.to_nat (length - 1)) (drop 1 s);
        let n := List.length ds in
        if (n =? 0)%nat || (length <=? 1 + Z.of_nat n) || (MAX_UINT32_STRING_LENGTH <=? n)%nat
        then Some None
        else
          vs ← parse_response_uint32_value count (drop (1 + n) s) (length - 1 - Z.of_nat n);
          Some (vs ← vs; Some (u32 (decimal ds) :: vs))
  end.

(** The bytes of the next [n] that are before a space or an end of line, when there
    is one. *)
Fixpoint word_within (n : nat) (s : bytes) : option (option bytes) :=
  match n with
  | O => Some None
  | S n =>
      c ← s !! 0%nat;
      if bool_decide (c = " "%byte) || bool_decide (c = Byte.x0d) then Some (Some [])
      else w ← word_within n (drop 1 s); Some (w ← w; Some (c :: w))
  end.

Definition parse_response_string_value (s : bytes) (length : Z) : option (option bytes) :=
  c ← s !! 0%nat;
  if bool_decide (c <> " "%byte) then Some None
  else
    w ← word_within (Z.to_nat (length - 1)) (drop 1 s);
    Some (match w with Some [] => None | _ => w end).

Definition bop_mget_statuses : list (string * memcached_return_t) :=
  [("OK", MEMCACHED_SUCCESS); ("OUT_OF_RANGE", MEMCACHED_OUT_OF_RANGE);
   ("NOT_FOUND", MEMCACHED_NOTFOUND); ("NOT_FOUND_ELEMENT", MEMCACHED_NOTFOUND_ELEMENT);
   ("TRIMMED", MEMCACHED_TRIMMED); ("TYPE_MISMATCH", MEMCACHED_TYPE_MISMATCH);
   ("BKEY_MISMATCH", MEMCACHED_BKEY_MISMATCH); ("UNREADABLE", MEMCACHED_UNREADABLE)]%string.

(** The length and the bytes of a status are compared, so that it is the whole word. *)
Definition get_status_of_bop_mget_response (word : bytes) : memcached_return_t :=
  match List.find (fun s => bool_decide (word = str (fst s))) bop_mget_statuses with
  | Some (_, rc) => rc
  | None => MEMCACHED_UNDEFINED_RESPONSE
  end.

Section Reading.
Context `{Environment} `{Allocator} `{Calloc}.

(** ** Elements *)

(** [fetch_value_header]: the bytes that were read before a space or the end of the
    line, behind which the NUL is written.  At most one byte is read that is not
    counted, so that [fuel] is not exhausted. *)
Fixpoint fetch_value_header_loop (fuel max_read_length : nat) (met_CR_char : bool) (string : bytes)
    : io (memcached_return_t * bytes) :=
  if negb (length string <? max_read_length)%nat then mret (MEMCACHED_PROTOCOL_ERROR, string)
  else
    match fuel with
    | O => blocked
    | S fuel =>
        '(rc, _, c) ← memcached_io_read 1;
        if memcached_failed rc then
          rc ← failed_read rc 1310;
          mret (rc, string)
        else
          c ← checked (c !! 0%nat);
          if bool_decide (c = " "%byte) then mret (MEMCACHED_SUCCESS, string)
          else if bool_decide (c = Byte.x0d) then
            if met_CR_char then mret (MEMCACHED_PROTOCOL_ERROR, string)
            else fetch_value_header_loop fuel max_read_length true string
          else if met_CR_char then
            mret (if bool_decide (c = Byte.x0a) then MEMCACHED_END else MEMCACHED_PROTOCOL_ERROR, string)
          else fetch_value_header_loop fuel max_read_length met_CR_char (string ++ [c])
    end.

Definition fetch_value_header (max_read_length : nat) : io (memcached_return_t * bytes) :=
  fetch_value_header_loop (max_read_length + 2) max_read_length false [].

(** A word in front of a space, which is passed on; the end of the line is an error.
    The code, when the function returns, and the result. *)
Definition with_header {R} (max : nat) (result : R)
    (k : bytes -> io (option memcached_return_t * R)) : io (option memcached_return_t * R) :=
  '(rc, s) ← fetch_value_header max;
  if bool_decide (rc = MEMCACHED_SUCCESS) then k s
  else mret (Some (if bool_decide (rc = MEMCACHED_END) then MEMCACHED_PROTOCOL_ERROR else rc), result).

(** Whether a word is a byte array. *)
Definition is_hex (s : bytes) : bool := starts (str "0x") s.

(** [memcached_conv_str_to_hex] of a word behind its [0x]. *)
Definition hex_of_word (s : bytes) (old : memcached_hexadecimal_st) : option memcached_hexadecimal_st :=
  '(_, h) ← memcached_conv_str_to_hex (fun n => calloc n 1) (c_string (drop 2 s))
              (Z.of_nat (length s) - 2) (Some old);
  h.

(** The sub key and its type of a word, in the place of [old]. *)
Definition bkey_of_word (s : bytes) (old : memcached_coll_sub_key_st)
    : option (memcached_coll_sub_key_st * memcached_coll_sub_key_type_t) :=
  if is_hex s then
    h ← sub_bkey_ext_of old;
    h ← hex_of_word s h;
    Some (sub_bkey_ext h, MEMCACHED_COLL_QUERY_BOP_EXT)
  else
    '(bkey, _) ← strtoull (c_string s);
    Some (sub_bkey bkey, MEMCACHED_COLL_QUERY_BOP).

Definition MAX_ELEMENT_BUFFER_SIZE : nat := 251.
(** [MEMCACHED_COLL_MAX_BYTE_STRING_LENGTH+2], with the [0x]. *)
Definition MAX_BYTE_STRING : nat := 65.

(** The string of an element is created and [value_length] bytes and the end of the
    line are read into it; [line] reports errors. *)
Definition fetch_string (v : memcached_string_st) (value_length line : Z)
    : io (option memcached_return_t * memcached_string_st) :=
  let to_read := u64 (value_length + 2) in
  match memcached_string_create (Some v) false to_read with
  | None =>
      mret (Some MEMCACHED_MEMORY_ALLOCATION_FAILURE, _init_string (v <| string_is_allocated := false |>))
  | Some v =>
      '(rrc, read_length, data) ← memcached_io_read (Z.to_nat to_read);
      block ← checked (memcpy_to (default [] (string_block v)) 0 data);
      let v := v <| string_block := ((fun _ => block) <$> string_block v) |> in
      if memcached_failed rrc then
        rc ← failed_read rrc line;
        mret (Some rc, v)
      else if negb (bool_decide (u64 <$> read_length = Some to_read)) then
        mret (Some MEMCACHED_PARTIAL_READ, v)
      else
        (* the NULs *)
        block ← checked
          (if value_length + 2 <=? Z.of_nat (length block)
           then Some (store block (Z.to_nat value_length) [Byte.x00; Byte.x00]) else None);
        let v := v <| string_block := Some block |> in
        mret (None, memcached_string_set_length v (Z.to_nat value_length))
  end.

(** The word in front of an element; only its length is looked at. *)
Definition element_header {R} (header_size : nat) (result : R)
    (k : io (option memcached_return_t * R)) : io (option memcached_return_t * R) :=
  if (0 <? header_size)%nat then
    with_header (header_size + 1) result (fun s =>
      if (length s =? header_size)%nat then k else mret (Some MEMCACHED_PARTIAL_READ, result))
  else k.

(** The sub key of the element [i], and what was read where its eflag may be, when
    it was none. *)
Definition element_sub_key (i : nat) (result : memcached_coll_result_st)
    (k : option bytes -> memcached_coll_result_st ->
         io (option memcached_return_t * memcached_coll_result_st))
    : io (option memcached_return_t * memcached_coll_result_st) :=
  if bool_decide (coll_type result = COLL_BTREE) then
    with_header MAX_BYTE_STRING result (fun s =>
      keys ← checked (sub_keys result);
      old ← checked (keys !! i);
      '(key, type) ← checked (bkey_of_word s old);
      let result := result <| sub_keys := Some (<[i := key]> keys) |> <| sub_key_type := type |> in
      with_header MAX_BYTE_STRING result (fun s =>
        if is_hex s then
          flags ← checked (eflags result);
          old ← checked (flags !! i);
          h ← checked (hex_of_word s old);
          k None (result <| eflags := Some (<[i := h]> flags) |>)
        else k (Some s) result))
  else if bool_decide (coll_type result = COLL_MAP) then
    with_header MAX_ELEMENT_BUFFER_SIZE result (fun s =>
      keys ← checked (sub_keys result);
      old ← checked (keys !! i);
      let m := default cleared_mkey (sub_mkey_of old) in
      (* the memory is not checked *)
      _ ← checked (malloc (Z.of_nat (length s) + 1));
      n ← checked (strlen (c_string s));
      let m := m <| mkey_string := c_string s |> <| mkey_length := n |> in
      k None (result <| sub_keys := Some (<[i := sub_mkey m]> keys) |>
                     <| sub_key_type := MEMCACHED_COLL_QUERY_MOP |>))
  else k None result.

(** The length of the value, of a word that was read or of the next one. *)
Definition element_bytes {R} (read : option bytes) (result : R)
    (k : Z -> io (option memcached_return_t * R)) : io (option memcached_return_t * R) :=
  match read with
  | Some s => '(n, _) ← checked (strtoull (c_string s)); k n
  | None =>
      with_header MAX_UINT32_STRING_LENGTH result (fun s =>
        '(n, _) ← checked (strtoull (c_string s)); k n)
  end.

(** The value of the element [i]. *)
Definition element_value_fetch (i : nat) (result : memcached_coll_result_st) (value_length : Z)
    : io (option memcached_return_t * memcached_coll_result_st) :=
  strings ← checked (values result);
  v ← checked (strings !! i);
  '(rc, v) ← fetch_string v value_length 1476;
  let result := result <| values := Some (<[i := v]> strings) |> in
  mret (rc, match rc with
            | Some _ => result
            | None => result <| collection_count ::= fun n => u64 (n + 1) |>
            end).

Definition element_fetch (header_size i : nat) (result : memcached_coll_result_st)
    : io (option memcached_return_t * memcached_coll_result_st) :=
  element_header header_size result (
  element_sub_key i result (fun read result =>
  element_bytes read result (element_value_fetch i result))).

Fixpoint textual_coll_element_fetch (count header_size i : nat) (result : memcached_coll_result_st)
    : io (memcached_return_t * memcached_coll_result_st) :=
  match count with
  | O => mret (MEMCACHED_SUCCESS, result)
  | S count =>
      '(rc, result) ← element_fetch header_size i result;
      match rc with
      | Some rc => mret (rc, result)
      | None => textual_coll_element_fetch count header_size (S i) result
      end
  end.

(** ** Values *)

(** What a [VALUE] line says: the size of the word in front of each element, the
    position and the index in the result, the flags and the number of elements. *)
Record value_header := {
  header_size : nat;
  header_positions : option (Z * Z);
  header_flags : Z;
  header_count : Z;
}.

Definition DEFAULT_COMMAND_SIZE : Z := 512.

(** The numbers of the line behind [read_length] bytes, or the code that is returned. *)
Definition line_numbers (count : nat) (buffer : bytes) (read_length : nat)
    : io (memcached_return_t + list Z) :=
  vs ← checked (parse_response_uint32_value count (drop read_length buffer)
                  (DEFAULT_COMMAND_SIZE - Z.of_nat read_length));
  mret (match vs with None => inl MEMCACHED_PARTIAL_READ | Some vs => inr vs end).

Definition line_word (buffer : bytes) (read_length : nat) : io (option bytes) :=
  checked (parse_response_string_value (drop read_length buffer)
             (DEFAULT_COMMAND_SIZE - Z.of_nat read_length)).

(** The code that is returned, or the numbers that follow; the key is stored in the
    result. *)
Definition mget_header (buffer : bytes) (result : memcached_coll_result_st)
    : io ((memcached_return_t + value_header) * memcached_coll_result_st) :=
  let p := 5%nat in
  key ← line_word buffer p;
  match key with
  | None => mret (inl MEMCACHED_PARTIAL_READ, result)
  | Some key =>
      item_key ← checked (memcpy_to (coll_key result) 0 (c_string key));
      let result := result <| coll_key := item_key |>
                           <| coll_key_length := Z.of_nat (length key) + 1 |> in
      let p := (p + (1 + length key))%nat in
      status ← line_word buffer p;
      match status with
      | None => mret (inl MEMCACHED_PARTIAL_READ, result)
      | Some word =>
          let p := (p + (1 + length word))%nat in
          let status := get_status_of_bop_mget_response word in
          if bool_decide (status <> MEMCACHED_SUCCESS) && bool_decide (status <> MEMCACHED_TRIMMED)
          then
            c ← checked (buffer !! p);
            mret (inl (if bool_decide (c <> Byte.x0d) then MEMCACHED_PARTIAL_READ else status), result)
          else
            vs ← line_numbers 2 buffer p;
            mret (match vs with
                  | inl rc => inl rc
                  | inr vs => inr {| header_size := 7; header_positions := None;
                                     header_flags := default 0 (vs !! 0%nat);
                                     header_count := default 0 (vs !! 1%nat) |}
                  end, result)
      end
  end.

(** The numbers of the other lines: the flags and the number of elements are the
    [at_]th and the one behind it. *)
Definition numbers_header (count at_ : nat) (buffer : bytes) : io (memcached_return_t + value_header) :=
  vs ← line_numbers count buffer 5;
  mret (match vs with
        | inl rc => inl rc
        | inr vs => inr {| header_size := 0;
                           header_positions := (if (at_ =? 1)%nat
                             then Some (default 0 (vs !! 0%nat), default 0 (vs !! 3%nat)) else None);
                           header_flags := default 0 (vs !! at_);
                           header_count := default 0 (vs !! S at_) |}
        end).

Definition value_line_header (last_op_code buffer : bytes) (result : memcached_coll_result_st)
    : io ((memcached_return_t + value_header) * memcached_coll_result_st) :=
  get ← checked (memcmp_n 4 (drop 1 (c_string last_op_code)) (str "op g"));
  if get : bool then h ← numbers_header 2 0 buffer; mret (h, result)
  else
    pwg ← checked (memcmp_n 7 (c_string last_op_code) (str "bop pwg"));
    if pwg : bool then h ← numbers_header 4 1 buffer; mret (h, result)
    else
      mget ← checked (memcmp_n 8 (c_string last_op_code) (str "bop mget"));
      if mget : bool then mget_header buffer result
      else mret (inl MEMCACHED_UNKNOWN_READ_FAILURE, result).

(** The arrays of the result, [None] when there is no memory for the first one that
    is missing; those before it stay. *)
Definition allocate_results (count : Z) (result : memcached_coll_result_st)
    : bool * memcached_coll_result_st :=
  match allocate_array (values result) cleared_string count sizeof_memcached_string_st with
  | None => (false, result)
  | Some v =>
      let result := result <| values := Some v |> in
      if bool_decide (coll_type result = COLL_BTREE) || bool_decide (coll_type result = COLL_MAP) then
        match allocate_array (sub_keys result) cleared_sub_key count
                sizeof_memcached_coll_sub_key_st with
        | None => (false, result)
        | Some k =>
            let result := result <| sub_keys := Some k |> in
            if bool_decide (coll_type result = COLL_BTREE) then
              match allocate_array (eflags result) cleared_hexadecimal count
                      sizeof_memcached_hexadecimal_st with
              | None => (false, result)
              | Some e => (true, result <| eflags := Some e |>)
              end
            else (true, result)
        end
      else (true, result)
  end.

Definition textual_coll_value_fetch (last_op_code buffer : bytes) (result : memcached_coll_result_st)
    : io (memcached_return_t * memcached_coll_result_st) :=
  '(h, result) ← value_line_header last_op_code buffer result;
  match h with
  | inl rc => mret (rc, result)
  | inr h =>
      let result := result <| collection_flags := header_flags h |> in
      let result := match header_positions h with
                    | Some (position, index) =>
                        result <| btree_position := position |> <| result_position := index |>
                    | None => result
                    end in
      if header_count h =? 0 then mret (MEMCACHED_PROTOCOL_ERROR, result)
      else
        let '(ok, result) := allocate_results (header_count h) result in
        if ok : bool
        then textual_coll_element_fetch (Z.to_nat (header_count h)) (header_size h) 0 result
        else mret (MEMCACHED_MEMORY_ALLOCATION_FAILURE, result)
  end.

(** ** Pipes *)

(** The array [pipe_responses] of the caller and [pipe_responses_length]. *)
Record pipe_st := {
  pipe_responses : list memcached_return_t;
  pipe_responses_length : Z;
}.

(** A condition of [get_status_of_coll_pipe_response] on a line of [string_len] bytes:
    the line is the text; it has ten bytes at least and is compared with the text, with
    its NUL, in all of its length; it begins with the text and is longer. *)
Inductive pipe_test :=
  | Is_line (text : string)
  | Is_switch (text : string)
  | Longer_than (text : string).

Definition pipe_test_holds (t : pipe_test) (string_len : Z) (line : bytes) : option bool :=
  match t with
  | Is_line text =>
      if string_len =? Z.of_nat (length (str text)) then memcmp_eq line (str text) else Some false
  | Is_switch text =>
      if string_len >=? 10 then memcmp_n (Z.to_nat string_len) line (c_string (str text))
      else Some false
  | Longer_than text =>
      if string_len >? Z.of_nat (length (str text)) then memcmp_eq line (str text) else Some false
  end.

Fixpoint first_test {A} (line : bytes) (string_len : Z) (cases : list (pipe_test * io A))
    (otherwise : io A) : io A :=
  match cases with
  | [] => otherwise
  | (t, act) :: cases =>
      b ← checked (pipe_test_holds t string_len line);
      if b : bool then act else first_test line string_len cases otherwise
  end.

Definition is_code (text : string) (rc : memcached_return_t) : pipe_test * io memcached_return_t :=
  (Is_line text, mret rc).

Definition get_status_of_coll_pipe_response (line : bytes) (string_len : Z) : io memcached_return_t :=
  let report (name : string) rc at_ := (Longer_than name, set_server_text (str name) rc at_ line) in
  let switch (name : string) rc :=
    (Is_switch name, _ ← textual_switchover_peer_check (drop 10 line); mret rc) in
  let test cases := first_test line string_len cases (mret MEMCACHED_UNDEFINED_RESPONSE) in
  c ← checked (line !! 0%nat);
  match c with
  | "P"%byte =>
      pipe_error ← checked (memcmp_eq line (str "PIPE_ERROR"));
      if pipe_error : bool then
        test [is_code "PIPE_ERROR command overflow" MEMCACHED_PIPE_ERROR_COMMAND_OVERFLOW;
              is_code "PIPE_ERROR memory overflow" MEMCACHED_PIPE_ERROR_MEMORY_OVERFLOW;
              is_code "PIPE_ERROR bad error" MEMCACHED_PIPE_ERROR_BAD_ERROR]
      else mret MEMCACHED_UNDEFINED_RESPONSE
  | "O"%byte =>
      test [is_code "OUT_OF_RANGE" MEMCACHED_OUT_OF_RANGE; is_code "OVERFLOWED" MEMCACHED_OVERFLOWED]
  | "S"%byte =>
      test [is_code "STORED" MEMCACHED_STORED; switch "SWITCHOVER"%string MEMCACHED_SWITCHOVER;
            report "SERVER_ERROR"%string MEMCACHED_SERVER_ERROR 1168]
  | "D"%byte =>
      test [is_code "DELETED" MEMCACHED_DELETED; is_code "DELETED_DROPPED" MEMCACHED_DELETED_DROPPED]
  | "N"%byte =>
      test [is_code "NOT_FOUND_ELEMENT" MEMCACHED_NOTFOUND_ELEMENT; is_code "NOT_FOUND" MEMCACHED_NOTFOUND;
            is_code "NOT_SUPPORTED" MEMCACHED_NOT_SUPPORTED; is_code "NOT_EXIST" MEMCACHED_NOT_EXIST]
  | "R"%byte =>
      test [is_code "REPLACED" MEMCACHED_REPLACED; switch "REPL_SLAVE"%string MEMCACHED_REPL_SLAVE]
  | "U"%byte =>
      test [is_code "UPDATED" MEMCACHED_UPDATED; is_code "UNREADABLE" MEMCACHED_UNREADABLE]
  | "E"%byte =>
      test [is_code "END" MEMCACHED_END; is_code "EFLAG_MISMATCH" MEMCACHED_EFLAG_MISMATCH;
            is_code "EXIST" MEMCACHED_EXIST; is_code "ELEMENT_EXISTS" MEMCACHED_ELEMENT_EXISTS;
            report "ERROR"%string MEMCACHED_PROTOCOL_ERROR 1233]
  | "T"%byte => test [is_code "TYPE_MISMATCH" MEMCACHED_TYPE_MISMATCH]
  | "C"%byte =>
      test [report "CLIENT_ERROR"%string MEMCACHED_CLIENT_ERROR 1257;
            is_code "CREATED_STORED" MEMCACHED_CREATED_STORED]
  | "B"%byte => test [is_code "BKEY_MISMATCH" MEMCACHED_BKEY_MISMATCH]
  | "I"%byte => test [report "INVALID"%string MEMCACHED_INVALID_COMMAND 1282]
  | _ => mret MEMCACHED_UNDEFINED_RESPONSE
  end.

(** The code of the next line, unless it cannot be read, and the buffer. *)
Definition read_pipe_status (buffer : bytes) : io ((memcached_return_t + memcached_return_t) * bytes) :=
  '(rc, line) ← memcached_io_readline (length buffer);
  let buffer := store buffer 0 line in
  if bool_decide (rc <> MEMCACHED_SUCCESS) then mret (inl rc, buffer)
  else
    rc ← get_status_of_coll_pipe_response buffer (i32 (u64 (Z.of_nat (length line) - 2)));
    mret (inr rc, buffer).

(** The loop over the responses of a pipe, of which [i] were read: the code of the
    failed read or the one that a switch of the server gave, how many were read, the
    buffer and the array. *)
Fixpoint pipe_loop (n : nat) (buffer : bytes) (offset i : Z) (switchover_rc : memcached_return_t)
    (responses : list memcached_return_t)
    : io (option memcached_return_t * memcached_return_t * Z * bytes * list memcached_return_t) :=
  match n with
  | O => mret (None, switchover_rc, i, buffer, responses)
  | S n =>
      '(rc, buffer) ← read_pipe_status buffer;
      match rc with
      | inl rc => mret (Some rc, switchover_rc, i, buffer, responses)
      | inr rc =>
          let at_ := Z.to_nat (offset + i) in
          if negb (at_ <? length responses)%nat then crash
          else
            let switchover_rc :=
              if bool_decide (rc = MEMCACHED_SWITCHOVER) || bool_decide (rc = MEMCACHED_REPL_SLAVE)
              then rc else switchover_rc in
            pipe_loop n buffer offset (i + 1) switchover_rc (<[at_ := rc]> responses)
      end
  end.

Definition textual_coll_piped_response_fetch (buffer : bytes) (pipe : pipe_st)
    : io (memcached_return_t * bytes * pipe_st) :=
  count ← checked (parse_response_header buffer 8);
  match count with
  | None => mret (MEMCACHED_PARTIAL_READ, buffer, pipe)
  | Some count =>
      '(failed, switchover_rc, i, buffer, responses) ←
        pipe_loop (Z.to_nat count) buffer (pipe_responses_length pipe) 0 MEMCACHED_SUCCESS
          (pipe_responses pipe);
      let pipe := {| pipe_responses := responses;
                     pipe_responses_length := pipe_responses_length pipe + i |} in
      match failed with
      | Some rc => mret (rc, buffer, pipe)
      | None =>
          '(rc, buffer) ← read_pipe_status buffer;
          match rc with
          | inl rc => mret (rc, buffer, pipe)
          | inr rc =>
              mret (if bool_decide (switchover_rc <> MEMCACHED_SUCCESS)
                       && bool_decide (rc = MEMCACHED_PIPE_ERROR_BAD_ERROR)
                    then switchover_rc else rc, buffer, pipe)
          end
      end
  end.

(** ** Lines *)

(** A carriage return. *)
Definition cr_string : string := String (Ascii.ascii_of_nat 13) EmptyString.

(** What reading a response gives: the code, the buffer, the result and the pipe. *)
Definition coll_answer : Type := memcached_return_t * bytes * memcached_coll_result_st * pipe_st.

(** The number behind a name and an equals sign, which is overwritten by a space. *)
Definition named_number (buffer : bytes) (at_ : nat) : io (option Z * bytes) :=
  let buffer := store buffer at_ [" "%byte] in
  vs ← checked (parse_response_uint32_value 1 (drop at_ buffer) (Z.of_nat (length buffer - at_)));
  mret (vs ← vs; vs !! 0%nat, buffer).

(** What [textual_read_one_coll_response] does with a line of [total_read] bytes. *)
Definition textual_coll_response (last_op_code buffer : bytes) (total_read : nat)
    (result : memcached_coll_result_st) (pipe : pipe_st) : io coll_answer :=
  let give rc : io coll_answer := mret (rc, buffer, result, pipe) in
  let undefined := give MEMCACHED_UNDEFINED_RESPONSE in
  let report name rc line := rc ← set_server_text (str name) rc line buffer; give rc in
  let switch rc := _ ← textual_switchover_peer_check (drop 10 buffer); give rc in
  let more rc := _ ← memcached_server_response_increment; give rc in
  let codes skip cases :=
    first_match (drop skip buffer) (map (fun c => (c.1, give c.2)) cases) undefined in
  c ← checked (buffer !! 0%nat);
  match c with
  | "A"%byte =>
      first_match buffer
        [("ATTR"%string,
          first_match (drop 4 buffer)
            [(" "%string, more MEMCACHED_ATTR);
             ("_MISMATCH"%string, give MEMCACHED_ATTR_MISMATCH);
             ("_ERROR not found"%string, give MEMCACHED_ATTR_ERROR_NOT_FOUND);
             ("_ERROR bad value"%string, give MEMCACHED_ATTR_ERROR_BAD_VALUE)] undefined)] undefined
  | "V"%byte =>
      first_match buffer
        [("VALUE"%string,
          _ ← memcached_server_response_increment;
          '(rc, result) ← textual_coll_value_fetch last_op_code buffer result;
          mret (rc, buffer, result, pipe))] undefined
  | "P"%byte =>
      first_match buffer
        [("POSITION="%string,
          '(position, buffer) ← named_number buffer 8;
          mret (match position with
                | None => (MEMCACHED_PARTIAL_READ, buffer, result, pipe)
                | Some position =>
                    (MEMCACHED_POSITION, buffer, result <| btree_position := position |>, pipe)
                end));
         ("PIPE_ERROR"%string,
          codes 10%nat
            [(" command overflow"%string, MEMCACHED_PIPE_ERROR_COMMAND_OVERFLOW);
             (" memory overflow"%string, MEMCACHED_PIPE_ERROR_MEMORY_OVERFLOW);
             (" bad error"%string, MEMCACHED_PIPE_ERROR_BAD_ERROR)])] undefined
  | "O"%byte =>
      codes 0%nat [("OK", MEMCACHED_SUCCESS); ("OUT_OF_RANGE", MEMCACHED_OUT_OF_RANGE);
                   ("OVERFLOWED", MEMCACHED_OVERFLOWED)]%string
  | "S"%byte =>
      first_match buffer
        [("STORED"%string, give MEMCACHED_STORED);
         ("STAT"%string, more MEMCACHED_STAT);
         ("SERVER_ERROR"%string,
          if (total_read =? 12)%nat then give MEMCACHED_SERVER_ERROR
          else
            too_large ← checked (longer_line buffer total_read
                                   "SERVER_ERROR object too large for cache");
            if too_large : bool then give MEMCACHED_E2BIG
            else report "SERVER_ERROR"%string MEMCACHED_SERVER_ERROR 1787);
         ("SWITCHOVER"%string, switch MEMCACHED_SWITCHOVER)] undefined
  | "D"%byte =>
      first_match buffer
        [("DELETED"%string,
          first_match (drop 7 buffer)
            [(cr_string, give MEMCACHED_DELETED);
             ("_DROPPED"%string, give MEMCACHED_DELETED_DROPPED)] undefined)] undefined
  | "N"%byte =>
      codes 0%nat [("NOT_FOUND_ELEMENT", MEMCACHED_NOTFOUND_ELEMENT); ("NOT_FOUND", MEMCACHED_NOTFOUND);
                   ("NOT_STORED", MEMCACHED_NOTSTORED); ("NOT_SUPPORTED", MEMCACHED_NOT_SUPPORTED);
                   ("NOT_EXIST", MEMCACHED_NOT_EXIST)]%string
  | "R"%byte =>
      first_match buffer
        [("REPL_SLAVE"%string, switch MEMCACHED_REPL_SLAVE);
         ("REPLACED"%string, give MEMCACHED_REPLACED);
         ("RESPONSE"%string,
          '(rc, buffer, pipe) ← textual_coll_piped_response_fetch buffer pipe;
          mret (rc, buffer, result, pipe))] undefined
  | "U"%byte =>
      codes 0%nat [("UPDATED", MEMCACHED_UPDATED); ("UNREADABLE", MEMCACHED_UNREADABLE)]%string
  | "E"%byte =>
      first_match buffer
        [("END"%string, give MEMCACHED_END);
         ("EFLAG_MISMATCH"%string, give MEMCACHED_EFLAG_MISMATCH);
         ("ERROR"%string, report "ERROR"%string MEMCACHED_PROTOCOL_ERROR 1865);
         ("EXISTS"%string, give MEMCACHED_EXISTS);
         (("EXIST" ++ cr_string)%string, give MEMCACHED_EXIST);
         ("EXIST"%string, give MEMCACHED_DATA_EXISTS);
         ("ELEMENT_EXISTS"%string, give MEMCACHED_ELEMENT_EXISTS)] undefined
  | "T"%byte =>
      codes 0%nat [("TRIMMED", MEMCACHED_TRIMMED); ("TYPE_MISMATCH", MEMCACHED_TYPE_MISMATCH)]%string
  | "I"%byte =>
      first_match buffer
        [("ITEM"%string, more MEMCACHED_ITEM);
         ("INVALID"%string, report "INVALID"%string MEMCACHED_INVALID_COMMAND 1904)] undefined
  | "C"%byte =>
      first_match buffer
        [("CREATED"%string,
          first_match (drop 7 buffer)
            [(cr_string, give MEMCACHED_CREATED);
             ("_STORED"%string, give MEMCACHED_CREATED_STORED)] undefined);
         ("COUNT="%string,
          '(count, buffer) ← named_number buffer 5;
          mret (match count with
                | None => (MEMCACHED_PARTIAL_READ, buffer, result, pipe)
                | Some count => (MEMCACHED_COUNT, buffer, result <| collection_count := count |>, pipe)
                end));
         ("CLIENT_ERROR"%string,
          too_large ← checked (longer_line buffer total_read
                                 "CLIENT_ERROR object too large for cache");
          if too_large : bool then give MEMCACHED_E2BIG
          else report "CLIENT_ERROR"%string MEMCACHED_CLIENT_ERROR 1947)] undefined
  | "B"%byte => codes 0%nat [("BKEY_MISMATCH"%string, MEMCACHED_BKEY_MISMATCH)]
  | _ =>
      (* sscanf(buffer, %llu) *)
      '(_, digits, _) ← checked (scan_number buffer);
      match digits with
      | [] => undefined
      | _ :: _ => give MEMCACHED_SUCCESS
      end
  end.

Definition textual_read_one_coll_response (last_op_code buffer : bytes)
    (result : memcached_coll_result_st) (pipe : pipe_st) : io coll_answer :=
  '(rc, line) ← memcached_io_readline (length buffer);
  let buffer := store buffer 0 line in
  if bool_decide (rc <> MEMCACHED_SUCCESS) then mret (rc, buffer, result, pipe)
  else textual_coll_response last_op_code buffer (length line) result pipe.

(** After a code that leaves open where the response ends. *)
Definition reset_out_of_step (rc : memcached_return_t) : io unit :=
  if out_of_step rc then
    _ ← (if bool_decide (rc <> MEMCACHED_MEMORY_ALLOCATION_FAILURE)
         then memcached_server_set_immediate_reconnect else mret tt);
    memcached_io_reset
  else mret tt.

(** [result] is the one of the handle where the caller gives none. *)
Definition memcached_read_one_coll_response (last_op_code buffer : bytes)
    (result : memcached_coll_result_st) (pipe : pipe_st) : io coll_answer :=
  _ ← memcached_server_response_decrement;
  root ← gets root;
  if binary_protocol (flags root) then mret (MEMCACHED_INVALID_ARGUMENTS, buffer, result, pipe)
  else
    '(rc, buffer, result, pipe) ← textual_read_one_coll_response last_op_code buffer result pipe;
    _ ← reset_out_of_step rc;
    mret (rc, buffer, result, pipe).

(** The codes after which [memcached_coll_response] reads on. *)
Definition coll_reads_on (rc : memcached_return_t) : bool :=
  match rc with
  | MEMCACHED_END | MEMCACHED_STORED | MEMCACHED_SUCCESS | MEMCACHED_STAT | MEMCACHED_DELETED
  | MEMCACHED_DELETED_DROPPED | MEMCACHED_NOTFOUND | MEMCACHED_NOTSTORED | MEMCACHED_NOT_SUPPORTED
  | MEMCACHED_DATA_EXISTS | MEMCACHED_TYPE_MISMATCH | MEMCACHED_EXIST | MEMCACHED_NOT_EXIST
  | MEMCACHED_TRIMMED | MEMCACHED_NOTFOUND_ELEMENT | MEMCACHED_ELEMENT_EXISTS
  | MEMCACHED_UNREADABLE | MEMCACHED_CREATED | MEMCACHED_CREATED_STORED
  | MEMCACHED_INVALID_COMMAND => true
  | _ => false
  end.

(** Every round takes a byte at least. *)
Fixpoint coll_response_loop (fuel : nat) (last_op_code buffer : bytes)
    (result : memcached_coll_result_st) (pipe : pipe_st) : io coll_answer :=
  count ← gets (fun i => cursor_active (server i));
  if negb (1 <? count) then memcached_read_one_coll_response last_op_code buffer result pipe
  else
    match fuel with
    | O => blocked
    | S fuel =>
        '(rc, buffer, result, pipe) ← memcached_read_one_coll_response last_op_code buffer result pipe;
        if coll_reads_on rc then coll_response_loop fuel last_op_code buffer result pipe
        else mret (rc, buffer, result, pipe)
    end.

(** [processing_input] and [flush] are as in [memcached_response]. *)
Definition memcached_coll_response (processing_input : bool) (flush : io unit)
    (last_op_code buffer : bytes) (result : memcached_coll_result_st) (pipe : pipe_st)
    : io coll_answer :=
  _ ← write_first processing_input flush;
  root ← gets root;
  if binary_protocol (flags root) then mret (MEMCACHED_INVALID_ARGUMENTS, buffer, result, pipe)
  else
    n ← gets pending;
    coll_response_loop (S n) last_op_code buffer result pipe.
End Reading.

(** ** What a server sends *)

(** The key, the flags and the value of an element. *)
Inductive element_key :=
  | No_key
  | Bkey (n : Z)
  | Bkey_ext (a : bytes)
  | Mkey (k : bytes).

Record element := {
  element_key_of : element_key;
  element_eflag : option bytes;
  element_value : bytes;
}.

Definition hex_word (a : bytes) : bytes := str "0x" ++ hex_text a.

(** The words in front of a value. *)
Definition key_words (k : element_key) : list bytes :=
  match k with
  | No_key => []
  | Bkey n => [print_u64 n]
  | Bkey_ext a => [hex_word a]
  | Mkey k => [k]
  end.

Definition spaced (words : list bytes) : bytes := concat (map (fun w => w ++ [" "%byte]) words).

Definition element_words (header : list bytes) (e : element) : list bytes :=
  header ++ key_words (element_key_of e)
  ++ match element_eflag e with Some a => [hex_word a] | None => [] end
  ++ [print_u32 (Z.of_nat (length (element_value e)))].

Definition element_text (header : list bytes) (e : element) : bytes :=
  spaced (element_words header e) ++ element_value e ++ crlf.

(** Numbers, each behind a space. *)
Definition numbers_text (ns : list Z) : bytes := concat (map (fun n => " "%byte :: print_u32 n) ns).

(** A byte of a word, and one of a byte array that fits. *)
Definition word_byte (c : byte) : Prop := c <> " "%byte /\ c <> Byte.x0d.
Definition short_array (a : bytes) : Prop := (0 < length a <= 31)%nat.

(** The type of the keys. *)
Definition key_type (k : element_key) : memcached_coll_sub_key_type_t :=
  match k with
  | No_key => MEMCACHED_COLL_QUERY_UNKNOWN
  | Bkey _ => MEMCACHED_COLL_QUERY_BOP
  | Bkey_ext _ => MEMCACHED_COLL_QUERY_BOP_EXT
  | Mkey _ => MEMCACHED_COLL_QUERY_MOP
  end.

(** The keys that a collection has. *)
Definition keys_of_type (type : memcached_coll_type_t) (k : memcached_coll_sub_key_type_t) : Prop :=
  match type with
  | COLL_BTREE => k = MEMCACHED_COLL_QUERY_BOP \/ k = MEMCACHED_COLL_QUERY_BOP_EXT
  | COLL_MAP => k = MEMCACHED_COLL_QUERY_MOP
  | _ => k = MEMCACHED_COLL_QUERY_UNKNOWN
  end.

Definition key_ok (k : element_key) : Prop :=
  match k with
  | No_key => True
  | Bkey n => is_u64 n
  | Bkey_ext a => short_array a
  | Mkey k => Forall (fun c => word_byte c /\ c <> Byte.x00) k /\ (length k <= 250)%nat
  end.

(** An element of a collection whose keys are of a type. *)
Record element_ok (type : memcached_coll_type_t) (kind : memcached_coll_sub_key_type_t) (e : element)
    : Prop := {
  ok_kind : key_type (element_key_of e) = kind;
  ok_key : key_ok (element_key_of e);
  ok_eflag : match element_eflag e with Some a => type = COLL_BTREE /\ short_array a | None => True end;
  ok_value : is_u32 (Z.of_nat (length (element_value e)));
}.

(** What was read into a result of an element. *)
Definition key_read (r : memcached_coll_result_st) (j : nat) (k : element_key) : Prop :=
  match k with
  | No_key => True
  | Bkey n => at_index (sub_keys r) (Z.of_nat j) = Some (sub_bkey n)
  | Bkey_ext a => exists h, at_index (sub_keys r) (Z.of_nat j) = Some (sub_bkey_ext h) /\ holds h a
  | Mkey k => exists m, at_index (sub_keys r) (Z.of_nat j) = Some (sub_mkey m)
      /\ mkey_string m = c_string k /\ mkey_length m = Z.of_nat (length k)
  end.

Definition element_read (r : memcached_coll_result_st) (j : nat) (e : element) : Prop :=
  (exists v, at_index (values r) (Z.of_nat j) = Some v /\ memcached_string_value v = element_value e
     /\ string_end v = length (element_value e) /\ string_block v <> None)
  /\ key_read r j (element_key_of e)
  /\ match element_eflag e with
     | None => True
     | Some a => exists h, at_index (eflags r) (Z.of_nat j) = Some h /\ holds h a
     end.

(** There is memory for an element. *)
Definition element_room `{Allocator} `{Calloc} (e : element) : Prop :=
  memcached_string_create (Some cleared_string) false (Z.of_nat (length (element_value e)) + 2) <> None
  /\ match element_key_of e with
     | Mkey k => malloc (Z.of_nat (length k) + 1) <> None
     | Bkey_ext a => calloc (Z.of_nat (length a)) 1 <> None
     | _ => True
     end
  /\ match element_eflag e with Some a => calloc (Z.of_nat (length a)) 1 <> None | None => True end.

(** What a part of a response was read to. *)
Definition after (rest : bytes) (i i' : instance) : Prop :=
  connected i' /\ incoming i' = rest /\ undisturbed i i'.

Lemma after_trans rest rest' i j k : after rest i j -> after rest' j k -> after rest' i k.
Proof. intros (_ & _ & U) (C & I & U'). split; [done|]. split; [done|]. by etransitivity. Qed.

Section Headers.
Context `{Environment} `{Allocator} `{Calloc}.

Lemma read_byte c rest i :
  connected i -> incoming i = c :: rest ->
  exists i', memcached_io_read 1 i = Done (MEMCACHED_SUCCESS, Some 1, [c]) i' /\ after rest i i'.
Proof.
  intros Hc Hin. destruct (memcached_io_read_reads 1 i Hc) as (i' & Hdo & Hi').
  { rewrite Hin. cbn. lia. }
  rewrite Hin in Hdo. exists i'. split; [exact Hdo|].
  destruct Hi' as (Hc' & Hin' & Hu). split; [done|]. by rewrite Hin', Hin.
Qed.

(** A word in front of a space is read with it. *)
Lemma header_loop_reads s : forall fuel max string rest i,
  connected i -> incoming i = s ++ " "%byte :: rest -> Forall word_byte s ->
  (length string + length s < max)%nat -> (length s < fuel)%nat ->
  exists i', fetch_value_header_loop fuel max false string i
             = Done (MEMCACHED_SUCCESS, string ++ s) i' /\ after rest i i'.
Proof.
  induction s as [|c s IH]; intros fuel max string rest i Hc Hin Hs Hmax Hfuel;
    (destruct fuel as [|fuel]; [cbn in Hfuel; lia|]); cbn [fetch_value_header_loop];
    (rewrite (proj2 (Nat.ltb_lt _ _)) by (cbn in Hmax; lia)); cbn [negb].
  - destruct (read_byte " "%byte rest i Hc Hin) as (i' & Hdo & Hi'). io_do Hdo.
    cbn [memcached_failed lookup list_lookup checked]. io_pure.
    rewrite bool_decide_true by done. rewrite app_nil_r. by exists i'.
  - destruct (read_byte c (s ++ " "%byte :: rest) i Hc Hin) as (j & Hdo & Hj). io_do Hdo.
    apply Forall_cons in Hs as [[Hsp Hcr] Hs].
    cbn [memcached_failed lookup list_lookup checked]. io_pure.
    rewrite bool_decide_false by done. rewrite bool_decide_false by done.
    destruct Hj as (Hcj & Hinj & Huj).
    destruct (IH fuel max (string ++ [c]) rest j Hcj Hinj Hs) as (i' & Hdo' & Hi').
    { rewrite length_app. cbn in *. lia. }
    { cbn in Hfuel. lia. }
    exists i'. rewrite Hdo', <- app_assoc. split; [done|]. by eapply after_trans.
Qed.

Lemma fetch_value_header_reads max s rest i :
  connected i -> incoming i = s ++ " "%byte :: rest -> Forall word_byte s -> (length s < max)%nat ->
  exists i', fetch_value_header max i = Done (MEMCACHED_SUCCESS, s) i' /\ after rest i i'.
Proof.
  intros Hc Hin Hs Hmax. unfold fetch_value_header.
  apply (header_loop_reads s (max + 2) max [] rest i Hc Hin Hs); cbn [length]; lia.
Qed.

Lemma with_header_reads {R} max (result : R) k s rest i :
  connected i -> incoming i = s ++ " "%byte :: rest -> Forall word_byte s -> (length s < max)%nat ->
  exists i', with_header max result k i = k s i' /\ after rest i i'.
Proof.
  intros Hc Hin Hs Hmax.
  destruct (fetch_value_header_reads max s rest i Hc Hin Hs Hmax) as (i' & Hdo & Hi').
  exists i'. split; [|done]. unfold with_header. io_do Hdo. cbv iota. by rewrite bool_decide_true.
Qed.

(** ** Words *)

Lemma digits_word s : Forall (fun c => isdigit c = true) s -> Forall word_byte s.
Proof. intros Hs. eapply Forall_impl; [exact Hs|]. by intros c Hd; split; intros ->. Qed.

Lemma hex_char_word v : 0 <= v < 16 -> word_byte (hex_char v).
Proof.
  intros Hv. assert (v = 0 \/ v = 1 \/ v = 2 \/ v = 3 \/ v = 4 \/ v = 5 \/ v = 6 \/ v = 7 \/ v = 8 \/
    v = 9 \/ v = 10 \/ v = 11 \/ v = 12 \/ v = 13 \/ v = 14 \/ v = 15) as Hcases by lia.
  repeat (destruct Hcases as [->|Hcases]; [by split|]). subst. by split.
Qed.

Lemma hex_text_word a : Forall word_byte (hex_text a).
Proof.
  unfold hex_text. apply Forall_concat, Forall_fmap, Forall_true. intros b.
  change (Forall word_byte (hex_of_byte b)). rewrite hex_of_byte_chars.
  destruct (halves b). repeat constructor; by apply hex_char_word.
Qed.

Lemma hex_word_word a : Forall word_byte (hex_word a).
Proof. unfold hex_word. repeat (apply Forall_cons; split; [by split|]). apply hex_text_word. Qed.

Lemma digits_not_hex s : Forall (fun c => isdigit c = true) s -> is_hex s = false.
Proof.
  intros Hs. unfold is_hex. destruct s as [|a [|b s]]; [done| |].
  - cbn. by rewrite andb_false_r.
  - do 2 apply Forall_cons in Hs as [? Hs]. cbn [starts str String.list_byte_of_string].
    destruct (is_hex (a :: b :: s)) eqn:E; [|exact E].
    unfold is_hex in E. apply starts_spec in E. cbn in E. by injection E as -> ->.
Qed.

Lemma is_hex_word a : is_hex (hex_word a) = true.
Proof. apply starts_spec. unfold hex_word. apply take_app_length. Qed.

Lemma digits_value s : Forall (fun c => isdigit c = true) s -> s <> [] -> decimal s < 2 ^ 64 ->
  strtoull (c_string s) = Some (decimal s, length s).
Proof. intros. unfold c_string. by apply strtoull_digits. Qed.

Lemma hex_of_word_reads a old : short_array a -> calloc (Z.of_nat (length a)) 1 = Some old ->
  exists h, hex_of_word (hex_word a) cleared_hexadecimal = Some h /\ holds h a.
Proof.
  intros [Hne Hlen] Hold. unfold hex_of_word, hex_word.
  assert (drop 2 (str "0x" ++ hex_text a) = hex_text a) as -> by reflexivity.
  replace (Z.of_nat (length (str "0x" ++ hex_text a)) - 2) with (Z.of_nat (length (hex_text a)))
    by (rewrite length_app; cbn; lia).
  unfold c_string. rewrite (conv_str_to_hex_spec _ (hex_text a) a [] cleared_hexadecimal old).
  - cbn. eexists. split; [done|]. split; [done|]. by eexists.
  - apply text_of_hex.
  - by destruct a; [cbn in Hne; lia|].
  - rewrite hex_text_length. unfold MEMCACHED_COLL_MAX_BYTE_STRING_LENGTH,
      MEMCACHED_COLL_MAX_BYTE_ARRAY_LENGTH. lia.
  - exact Hold.
  - rewrite (calloc_clears _ _ _ Hold), length_replicate. lia.
Qed.

(** ** The value of an element *)

Lemma fetch_string_reads value rest line i :
  connected i -> incoming i = value ++ crlf ++ rest -> is_u32 (Z.of_nat (length value)) ->
  memcached_string_create (Some cleared_string) false (Z.of_nat (length value) + 2) <> None ->
  exists v i', fetch_string cleared_string (Z.of_nat (length value)) line i = Done (None, v) i'
    /\ memcached_string_value v = value /\ string_end v = length value /\ string_block v <> None
    /\ after rest i i'.
Proof.
  intros Hc Hin Hlen Hroom. unfold fetch_string. rewrite (u64_small (_ + 2)) by lia.
  destruct (memcached_string_create _ _ _) as [v|] eqn:Ev; [|done]. clear Hroom.
  unfold memcached_string_create in Ev. cbv zeta in Ev.
  destruct (_string_check_ok (_init_string (cleared_string <| string_is_allocated := false |>))
              (Z.of_nat (length value) + 2)) as (rc & v' & Hcheck & Hinv' & Hend & _ & Hcase);
    [by split; cbn; lia|lia|].
  rewrite Hcheck in Ev. destruct (memcached_failed rc) eqn:Erc; [done|]. injection Ev as <-.
  destruct Hcase as [[-> [Hz|Hroom]]|[-> _]]; [lia| |done]. cbn in Hroom.
  destruct Hinv' as [Hblock _ _].
  destruct (string_block v') as [blk|] eqn:Eb; [|lia].
  destruct (memcached_io_read_reads (length value + 2) i Hc) as (i' & Hread & Hi').
  { rewrite Hin, !length_app. cbn. lia. }
  assert (Htake : take (length value + 2) (incoming i) = value ++ crlf) by
    (rewrite Hin, take_app_add; reflexivity).
  rewrite Htake in Hread.
  replace (Z.to_nat (Z.of_nat (length value) + 2)) with (length value + 2)%nat by lia.
  set (v := v' <| string_is_initialized := true |>).
  assert (Hv : string_block v = Some blk) by exact Eb. clearbody v.
  io_do Hread. cbv iota. rewrite Hv. cbn [default from_option id].
  unfold memcpy_to at 1. rewrite (proj2 (Nat.leb_le _ _)) by (rewrite length_app; cbn; lia).
  cbn [checked]. io_pure. cbn [memcached_failed].
  rewrite bool_decide_true by (cbn; f_equal; rewrite u64_small; lia). cbn [negb].
  rewrite (proj2 (Z.leb_le _ _)) by
    (rewrite store_front, length_app, length_drop, length_app; cbn; lia).
  cbn [checked]. io_pure. eexists _, i'. split; [reflexivity|].
  split; [|split; [apply Nat2Z.id|split; [done|]]].
  - unfold memcached_string_value, memcached_string_set_length.
    cbn [string_end string_block update default from_option id].
    rewrite Nat2Z.id. cbn. rewrite store_front. unfold store at 1.
    rewrite <- app_assoc. rewrite take_app_length. apply take_app_length.
  - destruct Hi' as (Hc' & Hin' & Hu). split; [done|]. split; [|done].
    rewrite Hin', Hin, drop_app_add. done.
Qed.
End Headers.

(** ** Filling the arrays *)

(** An array of [n] elements that is cleared from [i] on. *)
Definition cleared_from {A} (a : option (list A)) (c : A) (i n : nat) : Prop :=
  exists l, a = Some l /\ length l = n /\ forall j, (i <= j < n)%nat -> l !! j = Some c.

Lemma at_index_nat {A} (l : list A) j : at_index (Some l) (Z.of_nat j) = l !! j.
Proof. unfold at_index. cbn. rewrite (proj2 (Z.leb_le _ _)) by lia. by rewrite Nat2Z.id. Qed.

Lemma cleared_insert {A} (a : option (list A)) c i n :
  cleared_from a c i n -> (i < n)%nat ->
  exists l, a = Some l /\ l !! i = Some c /\ forall x,
    cleared_from (Some (<[i := x]> l)) c (S i) n
    /\ at_index (Some (<[i := x]> l)) (Z.of_nat i) = Some x
    /\ forall j : nat, j <> i -> at_index (Some (<[i := x]> l)) (Z.of_nat j) = at_index a (Z.of_nat j).
Proof.
  intros (l & -> & Hl & Hc) Hi. exists l. split; [done|]. split; [apply Hc; lia|]. intros x.
  split; [|split].
  - exists (<[i := x]> l). split; [done|]. rewrite length_insert. split; [done|].
    intros j Hj. rewrite list_lookup_insert_ne by lia. apply Hc. lia.
  - rewrite at_index_nat. apply list_lookup_insert_eq. lia.
  - intros j Hj. rewrite !at_index_nat. by apply list_lookup_insert_ne.
Qed.

Lemma cleared_later {A} (a : option (list A)) c i n : cleared_from a c i n -> cleared_from a c (S i) n.
Proof. intros (l & -> & Hl & Hc). exists l. split_and!; [done..|]. intros j Hj. apply Hc. lia. Qed.

(** The elements from [i] on were not read yet. *)
Record ready (r : memcached_coll_result_st) (i n : nat) : Prop := {
  ready_values : cleared_from (values r) cleared_string i n;
  ready_keys : coll_type r = COLL_BTREE \/ coll_type r = COLL_MAP ->
    cleared_from (sub_keys r) cleared_sub_key i n;
  ready_eflags : coll_type r = COLL_BTREE -> cleared_from (eflags r) cleared_hexadecimal i n;
}.

(** What the elements do not change, and what is in the arrays at [j]. *)
Definition about (r : memcached_coll_result_st) :=
  (coll_key r, coll_key_length r, coll_type r, collection_flags r, btree_position r, result_position r,
   coll_is_allocated r).
Definition arrays_at (r : memcached_coll_result_st) (j : nat) :=
  (at_index (values r) (Z.of_nat j), at_index (sub_keys r) (Z.of_nat j),
   at_index (eflags r) (Z.of_nat j)).

Lemma element_read_at r r' j e : arrays_at r' j = arrays_at r j -> element_read r j e -> element_read r' j e.
Proof.
  intros [= Hv Hk He] (A & B & C). unfold element_read. rewrite Hv, He. split; [done|]. split; [|done].
  unfold key_read in *. by destruct (element_key_of e); rewrite ?Hk.
Qed.

Lemma key_read_at r r' j k : sub_keys r' = sub_keys r -> key_read r j k -> key_read r' j k.
Proof. intros Hk. unfold key_read. by rewrite Hk. Qed.

(** The type of the sub keys after one of a type was read. *)
Definition type_after (kind old : memcached_coll_sub_key_type_t) : memcached_coll_sub_key_type_t :=
  if bool_decide (kind = MEMCACHED_COLL_QUERY_UNKNOWN) then old else kind.

Section Elements.
Context `{Environment} `{Allocator} `{Calloc}.

Lemma element_header_reads {R} (header : option bytes) (result : R) k rest i :
  connected i -> incoming i = spaced (option_list header) ++ rest ->
  match header with Some w => Forall word_byte w /\ w <> [] | None => True end ->
  exists i', element_header (length (default [] header)) result k i = k i' /\ after rest i i'.
Proof.
  intros Hc Hin Hw. unfold element_header. destruct header as [w|]; cbn [default from_option id].
  - destruct Hw as [Hw Hne]. rewrite (proj2 (Nat.ltb_lt _ _)) by (destruct w; cbn; [done|lia]).
    edestruct (with_header_reads (length w + 1) result) as (i' & Hdo & Hi').
    { exact Hc. } { rewrite Hin. unfold spaced. cbn. by rewrite app_nil_r, <- app_assoc. }
    { exact Hw. } { lia. }
    exists i'. rewrite Hdo, Nat.eqb_refl. by split.
  - exists i. split; [done|]. split; [done|]. by split.
Qed.

Lemma digits_u32 n : is_u32 n ->
  Forall word_byte (print_u32 n) /\ is_hex (print_u32 n) = false
  /\ exists m, strtoull (c_string (print_u32 n)) = Some (n, m).
Proof.
  intros Hn. destruct (print_u32_spec n Hn) as [Hd Hv].
  split; [by apply digits_word|]. split; [by apply digits_not_hex|].
  exists (length (print_u32 n)). rewrite digits_value; rewrite ?Hv; [done..| |lia].
  by destruct (print_u32_cons n) as (c & s & ->).
Qed.

Lemma bkey_of_word_reads n : is_u64 n ->
  bkey_of_word (print_u64 n) cleared_sub_key = Some (sub_bkey n, MEMCACHED_COLL_QUERY_BOP).
Proof.
  intros Hn. destruct (print_u64_spec n Hn) as [Hd Hv]. unfold bkey_of_word.
  rewrite digits_not_hex by done. rewrite digits_value; rewrite ?Hv; [done..| |lia].
  by destruct (print_u64_cons n) as (c & s & ->).
Qed.

Lemma bkey_ext_of_word_reads a : short_array a -> calloc (Z.of_nat (length a)) 1 <> None ->
  exists h, bkey_of_word (hex_word a) cleared_sub_key
            = Some (sub_bkey_ext h, MEMCACHED_COLL_QUERY_BOP_EXT) /\ holds h a.
Proof.
  intros Ha Hm. destruct (calloc (Z.of_nat (length a)) 1) as [old|] eqn:Ec; [|done].
  destruct (hex_of_word_reads a old Ha Ec) as (h & Hh & Hholds). exists h. split; [|done].
  unfold bkey_of_word. rewrite is_hex_word. cbn [sub_bkey_ext_of cleared_sub_key mbind option_bind Z.eqb].
  by rewrite Hh.
Qed.

Lemma hex_word_length a : short_array a -> (length (hex_word a) < MAX_BYTE_STRING)%nat.
Proof.
  intros [_ Ha]. unfold hex_word, MAX_BYTE_STRING. rewrite length_app, hex_text_length. cbn. lia.
Qed.

(** Where the number of bytes is: it was read already, or comes in. *)
Definition bytes_next (read : option bytes) (e : element) (rest : bytes) : bytes :=
  match read with
  | Some _ => rest
  | None => print_u32 (Z.of_nat (length (element_value e))) ++ " "%byte :: rest
  end.

Lemma element_bytes_reads {R} read (result : R) k e rest i :
  connected i -> incoming i = bytes_next read e rest ->
  match read with Some s => s = print_u32 (Z.of_nat (length (element_value e))) | None => True end ->
  is_u32 (Z.of_nat (length (element_value e))) ->
  exists i', element_bytes read result k i = k (Z.of_nat (length (element_value e))) i'
    /\ after rest i i'.
Proof.
  intros Hc Hin Hread Hlen. destruct (digits_u32 _ Hlen) as (Hw & _ & m & Hn).
  destruct read as [s|]; cbn [element_bytes bytes_next] in *.
  - subst s. exists i. rewrite Hn. split; [done|]. split; [done|]. by split.
  - edestruct (with_header_reads MAX_UINT32_STRING_LENGTH result) as (i' & Hdo & Hi').
    { exact Hc. } { exact Hin. } { exact Hw. }
    { pose proof (print_u32_length (Z.of_nat (length (element_value e)))).
      unfold MAX_UINT32_STRING_LENGTH. lia. }
    exists i'. rewrite Hdo, Hn. by split.
Qed.

(** The word of a bkey. *)
Lemma bkey_word k kind j :
  key_type k = kind -> key_ok k ->
  (kind = MEMCACHED_COLL_QUERY_BOP \/ kind = MEMCACHED_COLL_QUERY_BOP_EXT) ->
  match k with Bkey_ext a => calloc (Z.of_nat (length a)) 1 <> None | _ => True end ->
  exists w s, key_words k = [w] /\ Forall word_byte w /\ (length w < MAX_BYTE_STRING)%nat
    /\ bkey_of_word w cleared_sub_key = Some (s, kind)
    /\ forall r, at_index (sub_keys r) (Z.of_nat j) = Some s -> key_read r j k.
Proof.
  intros Hk Hok Hkind Hroom. destruct k as [|n|a|m]; cbn in Hk; subst kind; try by destruct Hkind.
  - destruct (print_u64_spec n Hok) as [Hd _].
    exists (print_u64 n), (sub_bkey n). split; [done|]. split; [by apply digits_word|].
    split; [|split; [by apply bkey_of_word_reads|done]].
    pose proof (print_u64_length n). unfold MAX_BYTE_STRING. lia.
  - destruct (bkey_ext_of_word_reads a Hok Hroom) as (h & Hh & Hholds).
    exists (hex_word a), (sub_bkey_ext h). split; [done|]. split; [apply hex_word_word|].
    split; [by apply hex_word_length|]. split; [done|]. intros r Hr. by exists h.
Qed.

(** What reading the sub key and the eflag of the element [j] does. *)
Record sub_step (r r1 : memcached_coll_result_st) (j n : nat)
    (kind : memcached_coll_sub_key_type_t) (e : element) : Prop := {
  step_about : about r1 = about r;
  step_values : values r1 = values r;
  step_count : collection_count r1 = collection_count r;
  step_type : sub_key_type r1 = type_after kind (sub_key_type r);
  step_key : key_read r1 j (element_key_of e);
  step_eflag : match element_eflag e with
    | None => True
    | Some a => exists h, at_index (eflags r1) (Z.of_nat j) = Some h /\ holds h a
    end;
  step_others : forall j' : nat, j' <> j ->
    at_index (sub_keys r1) (Z.of_nat j') = at_index (sub_keys r) (Z.of_nat j')
    /\ at_index (eflags r1) (Z.of_nat j') = at_index (eflags r) (Z.of_nat j');
  step_ready : ready r j n -> ready r1 (S j) n;
}.

Lemma type_after_known kind old :
  kind <> MEMCACHED_COLL_QUERY_UNKNOWN -> type_after kind old = kind.
Proof. intros Hk. unfold type_after. by rewrite bool_decide_false. Qed.

(** The words of an element behind its header. *)
Definition words_behind (e : element) (tail : bytes) : bytes :=
  spaced (element_words [] e) ++ tail.

(** The key of an element of a tree. *)
Lemma btree_key_reads j n kind e tail r i :
  connected i -> incoming i = words_behind e tail -> ready r j n -> (j < n)%nat ->
  coll_type r = COLL_BTREE -> keys_of_type (coll_type r) kind -> element_ok (coll_type r) kind e ->
  element_room e ->
  exists keys r1 i1,
    (r1 = r <| sub_keys := Some keys |> <| sub_key_type := kind |>
     /\ key_read r1 j (element_key_of e) /\ cleared_from (Some keys) cleared_sub_key (S j) n
     /\ forall j' : nat, j' <> j ->
          at_index (sub_keys r1) (Z.of_nat j') = at_index (sub_keys r) (Z.of_nat j'))
    /\ (forall k, element_sub_key j r k i
        = with_header MAX_BYTE_STRING r1 (fun s =>
            if is_hex s then
              flags ← checked (eflags r1);
              old ← checked (flags !! j);
              h ← checked (hex_of_word s old);
              k None (r1 <| eflags := Some (<[j := h]> flags) |>)
            else k (Some s) r1) i1)
    /\ after (match element_eflag e with
              | Some a => hex_word a ++ " "%byte :: bytes_next None e tail
              | None => bytes_next None e tail
              end) i i1.
Proof.
  intros Hc Hin Hready Hj Htype Hkt [Hkind Hkey Hflag Hlen] (_ & Hkroom & _).
  rewrite Htype in Hkt. cbn in Hkt.
  destruct (bkey_word (element_key_of e) kind j) as (w & s & Hw & Hword & Hwl & Hs & Hread); try done.
  { by destruct (element_key_of e). }
  destruct Hready as [_ Hk _].
  destruct (cleared_insert _ _ _ _ (Hk (or_introl Htype)) Hj) as (ks & Eks & Hold & Hins).
  destruct (Hins s) as (Hks' & Hat & Hother).
  unfold words_behind, element_words in Hin. rewrite Hw in Hin.
  edestruct (fetch_value_header_reads MAX_BYTE_STRING w) as (i1 & Hdo & Hi1);
    [exact Hc | rewrite Hin; unfold spaced; cbn; rewrite <- !app_assoc; reflexivity | done | done |].
  exists (<[j := s]> ks), (r <| sub_keys := Some (<[j := s]> ks) |> <| sub_key_type := kind |>), i1.
  split; [|split].
  - split; [done|]. split; [by apply Hread|]. by split.
  - intros k. unfold element_sub_key. rewrite bool_decide_true by done.
    unfold with_header at 1. io_do Hdo. cbv iota. rewrite bool_decide_true by done.
    rewrite Eks. cbn [checked]. io_pure. rewrite Hold. cbn [checked]. io_pure. rewrite Hs. cbn [checked].
    by io_pure.
  - destruct (element_eflag e); cbn in Hi1 |- *; rewrite <- ?app_assoc in Hi1; cbn in Hi1;
      rewrite <- ?app_assoc in Hi1; exact Hi1.
Qed.

Lemma btree_sub_key_reads j n kind e tail r i :
  connected i -> incoming i = words_behind e tail -> ready r j n -> (j < n)%nat ->
  coll_type r = COLL_BTREE -> keys_of_type (coll_type r) kind -> element_ok (coll_type r) kind e ->
  element_room e ->
  exists read r1 i', (forall k, element_sub_key j r k i = k read r1 i')
    /\ match read with Some s => s = print_u32 (Z.of_nat (length (element_value e))) | None => True end
    /\ after (bytes_next read e tail) i i' /\ sub_step r r1 j n kind e.
Proof.
  intros Hc Hin Hready Hj Htype Hkt Hok Hroom.
  destruct (btree_key_reads j n kind e tail r i) as
    (ks & r1 & i1 & (Er1 & Hread & Hks' & Hother) & Hdo & Hc1 & Hin1 & Hu1); try done.
  assert (Hafter : type_after kind (sub_key_type r) = kind).
  { apply type_after_known. rewrite Htype in Hkt. by destruct Hkt as [-> | ->]. }
  destruct Hok as [_ _ Hflag Hlen]. destruct Hroom as (_ & _ & Hfroom).
  destruct Hready as [Hv Hk He]. pose proof (He Htype) as Hes.
  destruct (element_eflag e) as [a|] eqn:Ee.
  - destruct Hflag as [_ Ha]. destruct (calloc (Z.of_nat (length a)) 1) as [old|] eqn:Ec; [|done].
    destruct (hex_of_word_reads a old Ha Ec) as (h & Hh & Hholds).
    destruct (cleared_insert _ _ _ _ Hes Hj) as (es & Ees & Holde & Hinse).
    destruct (Hinse h) as (Hes' & Hate & Hothere).
    edestruct (fetch_value_header_reads MAX_BYTE_STRING (hex_word a)) as (i2 & Hdo2 & Hi2);
      [exact Hc1 | exact Hin1 | apply hex_word_word | by apply hex_word_length |].
    exists None, (r1 <| eflags := Some (<[j := h]> es) |>), i2. split_and!; [|done|by eapply after_trans|].
    + intros k. rewrite Hdo. unfold with_header. io_do Hdo2. cbv iota. rewrite bool_decide_true by done.
      assert (eflags r1 = Some es) as -> by (rewrite Er1; exact Ees).
      rewrite is_hex_word. cbn [checked]. io_pure. rewrite Holde. cbn [checked]. io_pure. rewrite Hh. cbn [checked]. by io_pure.
    + subst r1. split; try done.
      * rewrite Ee. by exists h.
      * intros j' Hj'. split; [by apply Hother|by apply Hothere].
      * intros _. split; [by apply cleared_later|intros _; exact Hks'|intros _; exact Hes'].
  - destruct (digits_u32 _ Hlen) as (Hdw & Hdh & _).
    edestruct (fetch_value_header_reads MAX_BYTE_STRING (print_u32 (Z.of_nat (length (element_value e)))))
      as (i2 & Hdo2 & Hi2); [exact Hc1 | exact Hin1 | done | |].
    { pose proof (print_u32_length (Z.of_nat (length (element_value e)))). unfold MAX_BYTE_STRING. lia. }
    exists (Some (print_u32 (Z.of_nat (length (element_value e))))), r1, i2.
    split_and!; [|done|by eapply after_trans|].
    + intros k. rewrite Hdo. unfold with_header. io_do Hdo2. cbv iota. by rewrite bool_decide_true, Hdh.
    + subst r1. split; try done.
      * by rewrite Ee.
      * intros j' Hj'. split; [by apply Hother|done].
      * intros _. split; [by apply cleared_later|intros _; exact Hks'|intros _; by apply cleared_later].
Qed.

Lemma map_sub_key_reads j n kind e tail r i :
  connected i -> incoming i = words_behind e tail -> ready r j n -> (j < n)%nat ->
  coll_type r = COLL_MAP -> keys_of_type (coll_type r) kind -> element_ok (coll_type r) kind e ->
  element_room e ->
  exists r1 i', (forall k, element_sub_key j r k i = k None r1 i')
    /\ after (bytes_next None e tail) i i' /\ sub_step r r1 j n kind e.
Proof.
  intros Hc Hin Hready Hj Htype Hkt [Hkind Hkey Hflag Hlen] (_ & Hkroom & _).
  rewrite Htype in Hkt, Hflag. cbn in Hkt. subst kind.
  destruct e as [[| | |m] ef value]; cbn [element_key_of element_eflag element_value] in *; try done.
  destruct ef; [by destruct Hflag|]. destruct Hkey as [Hm Hml].
  destruct Hready as [Hv Hk He].
  destruct (cleared_insert _ _ _ _ (Hk (or_intror Htype)) Hj) as (ks & Eks & Hold & Hins).
  set (mk := cleared_mkey <| mkey_string := c_string m |> <| mkey_length := Z.of_nat (length m) |>).
  destruct (Hins (sub_mkey mk)) as (Hks' & Hat & Hother).
  destruct (malloc (Z.of_nat (length m) + 1)) as [block|] eqn:Em; [|done].
  edestruct (fetch_value_header_reads MAX_ELEMENT_BUFFER_SIZE m) as (i1 & Hdo & Hi1);
    [exact Hc | rewrite Hin; unfold words_behind, spaced; cbn; rewrite <- !app_assoc; reflexivity
    | eapply Forall_impl; [exact Hm|by intros c []] | unfold MAX_ELEMENT_BUFFER_SIZE; lia |].
  exists (r <| sub_keys := Some (<[j := sub_mkey mk]> ks) |>
            <| sub_key_type := MEMCACHED_COLL_QUERY_MOP |>), i1.
  split_and!.
  - intros k. unfold element_sub_key. rewrite bool_decide_false, bool_decide_true by (by rewrite ?Htype).
    unfold with_header. io_do Hdo. cbv iota. rewrite bool_decide_true by done.
    rewrite Eks. cbn [checked]. io_pure. rewrite Hold. cbn [checked]. io_pure.
    rewrite Em. cbn [checked]. io_pure. cbv zeta.
    assert (strlen (c_string m) = Some (Z.of_nat (length m))) as ->.
    { apply strlen_app. eapply Forall_impl; [exact Hm|by intros c []]. }
    cbn [checked]. by io_pure.
  - cbn in Hi1. rewrite <- ?app_assoc in Hi1. exact Hi1.
  - split; try done.
    + by exists mk.
    + intros j' Hj'. split; [by apply Hother|done].
    + intros _. split; [by apply cleared_later|intros _; exact Hks'|intros HB; change (coll_type r = COLL_BTREE) in HB; congruence].
Qed.

Lemma plain_sub_key_reads j n kind e tail r i :
  connected i -> incoming i = words_behind e tail ->
  coll_type r <> COLL_BTREE -> coll_type r <> COLL_MAP -> keys_of_type (coll_type r) kind ->
  element_ok (coll_type r) kind e ->
  (forall k, element_sub_key j r k i = k None r i)
    /\ after (bytes_next None e tail) i i /\ sub_step r r j n kind e.
Proof.
  intros Hc Hin HB HM Hkt [Hkind Hkey Hflag Hlen].
  assert (kind = MEMCACHED_COLL_QUERY_UNKNOWN) as -> by by destruct (coll_type r).
  destruct e as [[| | |m] ef value]; cbn [element_key_of element_eflag element_value] in *; try done.
  destruct ef; [by destruct Hflag|]. split_and!.
  - intros k. unfold element_sub_key. by rewrite !bool_decide_false.
  - split; [done|]. split; [|done]. rewrite Hin. unfold words_behind, spaced. cbn.
    by rewrite <- !app_assoc.
  - split; try done. intros [Hv Hk He].
    by split; [apply cleared_later|intros [?|?]|intros ?].
Qed.

Lemma sub_key_reads j n kind e tail r i :
  connected i -> incoming i = words_behind e tail -> ready r j n -> (j < n)%nat ->
  keys_of_type (coll_type r) kind -> element_ok (coll_type r) kind e -> element_room e ->
  exists read r1 i', (forall k, element_sub_key j r k i = k read r1 i')
    /\ match read with Some s => s = print_u32 (Z.of_nat (length (element_value e))) | None => True end
    /\ after (bytes_next read e tail) i i' /\ sub_step r r1 j n kind e.
Proof.
  intros Hc Hin Hready Hj Hkt Hok Hroom.
  destruct (decide (coll_type r = COLL_BTREE)) as [HB|HB]; [by apply btree_sub_key_reads|].
  destruct (decide (coll_type r = COLL_MAP)) as [HM|HM].
  - destruct (map_sub_key_reads j n kind e tail r i) as (r1 & i' & ? & ? & ?); try done.
    by exists None, r1, i'.
  - destruct (plain_sub_key_reads j n kind e tail r i) as (? & ? & ?); try done.
    by exists None, r, i.
Qed.

(** An element is read into its place and leaves the others as they are. *)
Lemma element_fetch_reads header j n kind e rest r i :
  connected i -> incoming i = element_text (option_list header) e ++ rest ->
  match header with Some w => Forall word_byte w /\ w <> [] | None => True end ->
  ready r j n -> (j < n)%nat -> keys_of_type (coll_type r) kind -> element_ok (coll_type r) kind e ->
  element_room e ->
  exists r' i', element_fetch (length (default [] header)) j r i = Done (None, r') i'
    /\ after rest i i' /\ ready r' (S j) n /\ about r' = about r /\ element_read r' j e
    /\ (forall j' : nat, j' <> j -> arrays_at r' j' = arrays_at r j')
    /\ collection_count r' = u64 (collection_count r + 1)
    /\ sub_key_type r' = type_after kind (sub_key_type r).
Proof.
  intros Hc Hin Hheader Hready Hj Hkt Hok Hroom.
  set (tail := element_value e ++ crlf ++ rest).
  destruct (element_header_reads header r
              (element_sub_key j r (fun read result =>
                 element_bytes read result (element_value_fetch j result))) (words_behind e tail) i Hc)
    as (i1 & Hdo1 & Hc1 & Hin1 & Hu1); [|exact Hheader|].
  { rewrite Hin. unfold element_text, words_behind, element_words, spaced, tail. rewrite map_app.
    rewrite concat_app. by rewrite <- !app_assoc. }
  destruct (sub_key_reads j n kind e tail r i1 Hc1 Hin1 Hready Hj Hkt Hok Hroom)
    as (read & r1 & i2 & Hdo2 & Hread & (Hc2 & Hin2 & Hu2) & [Ha Hv Hn Ht Hk Hf Ho Hr]).
  destruct (element_bytes_reads read r1 (element_value_fetch j r1) e tail i2 Hc2 Hin2 Hread)
    as (i3 & Hdo3 & Hc3 & Hin3 & Hu3); [apply Hok|].
  destruct (fetch_string_reads (element_value e) rest 1476 i3 Hc3 Hin3)
    as (v & i4 & Hdo4 & Hval & Hend & Hblock & Hi4); [apply Hok|apply Hroom|].
  destruct Hready as [Hrv Hrk Hre]. destruct (cleared_insert _ _ _ _ Hrv Hj) as (vs & Evs & Hold & Hins).
  destruct (Hins v) as (Hvs' & Hat & Hother). specialize (Hr ltac:(by split)) as [_ Hrk' Hre'].
  eexists (r1 <| values := Some (<[j := v]> vs) |> <| collection_count ::= fun n => u64 (n + 1) |>), i4.
  split; [|split_and!].
  - unfold element_fetch. rewrite Hdo1, Hdo2, Hdo3. unfold element_value_fetch.
    rewrite Hv, Evs. cbn [checked]. io_pure. rewrite Hold. cbn [checked]. io_pure. io_do Hdo4. done.
  - destruct Hi4 as (Hc4 & Hin4 & Hu4). split; [done|]. split; [done|].
    do 3 (etransitivity; [eassumption|]). exact Hu4.
  - split; [exact Hvs'|exact Hrk'|exact Hre'].
  - exact Ha.
  - split; [by exists v|]. split; [by eapply key_read_at, Hk|exact Hf].
  - intros j' Hj'. destruct (Ho j' Hj') as [Hok' Hoe]. unfold arrays_at.
    rewrite <- Hok', <- Hoe, <- (Hother j' Hj'). done.
  - cbn. by rewrite Hn.
  - exact Ht.
Qed.

Definition elements_text (header : option bytes) (es : list element) : bytes :=
  concat (map (element_text (option_list header)) es).

Lemma elements_read header n kind es : forall j rest r i,
  connected i -> incoming i = elements_text header es ++ rest ->
  match header with Some w => Forall word_byte w /\ w <> [] | None => True end ->
  ready r j n -> (j + length es <= n)%nat -> keys_of_type (coll_type r) kind ->
  Forall (element_ok (coll_type r) kind) es -> Forall element_room es ->
  0 <= collection_count r -> collection_count r + Z.of_nat (length es) < 2 ^ 64 ->
  exists r' i',
    textual_coll_element_fetch (length es) (length (default [] header)) j r i
    = Done (MEMCACHED_SUCCESS, r') i'
    /\ after rest i i' /\ about r' = about r
    /\ (forall m e, es !! m = Some e -> element_read r' (j + m) e)
    /\ (forall j', (j' < j)%nat -> arrays_at r' j' = arrays_at r j')
    /\ collection_count r' = collection_count r + Z.of_nat (length es)
    /\ sub_key_type r' = (match es with [] => sub_key_type r | _ => type_after kind (sub_key_type r) end).
Proof.
  induction es as [|e es IH]; intros j rest r i Hc Hin Hh Hready Hn Hkt Hok Hroom Hpos Hcount.
  { exists r, i. split; [done|]. split; [by split_and!|]. split; [done|]. split; [done|].
    split; [done|]. cbn. split; [lia|done]. }
  apply Forall_cons in Hok as [He Hok], Hroom as [Hre Hroom]. cbn [length] in *.
  destruct (element_fetch_reads header j n kind e (elements_text header es ++ rest) r i)
    as (r1 & i1 & Hdo1 & (Hc1 & Hin1 & Hu1) & Hready1 & Ha1 & Her1 & Ho1 & Hn1 & Ht1); try done.
  { rewrite Hin. unfold elements_text. cbn. by rewrite <- app_assoc. }
  { lia. }
  assert (Htype : coll_type r1 = coll_type r) by by injection Ha1.
  rewrite u64_small in Hn1 by lia.
  destruct (IH (S j) rest r1 i1) as (r2 & i2 & Hdo2 & Hi2 & Ha2 & Her2 & Ho2 & Hn2 & Ht2);
    rewrite ?Htype, ?Hn1; try done; try lia.
  exists r2, i2. split_and!.
  - cbn [textual_coll_element_fetch]. by io_do Hdo1.
  - eapply after_trans; [|exact Hi2]. by split.
  - by rewrite Ha2.
  - intros [|m] e'; cbn [lookup list_lookup].
    + intros [= <-]. rewrite Nat.add_0_r. eapply element_read_at; [apply Ho2; lia|done].
    + intros Hm. rewrite <- Nat.add_succ_comm. by apply Her2.
  - intros j' Hj'. rewrite Ho2 by lia. apply Ho1. lia.
  - rewrite Hn2, Hn1. lia.
  - rewrite Ht2, Ht1. destruct es; [done|]. unfold type_after. by case_bool_decide.
Qed.
End Elements.

(** ** Lines *)

Lemma digits_within_reads ds c t : forall n,
  Forall (fun c => isdigit c = true) ds -> isdigit c = false -> (length ds < n)%nat ->
  digits_within n (ds ++ c :: t) = Some ds.
Proof.
  induction ds as [|d ds IH]; intros [|n] Hds Hc Hn; cbn in Hn; try lia; cbn.
  - by rewrite Hc.
  - apply Forall_cons in Hds as [Hd Hds]. rewrite Hd. cbn. rewrite drop_0, IH by (done || lia). done.
Qed.

Lemma parse_numbers ns c t : forall size,
  Forall (fun n => is_u32 n) ns -> isdigit c = false -> Z.of_nat (length (numbers_text ns)) < size ->
  parse_response_uint32_value (length ns) (numbers_text ns ++ c :: t) size = Some (Some ns).
Proof.
  induction ns as [|n ns IH]; intros size Hns Hc Hsize; [done|].
  apply Forall_cons in Hns as [Hn Hns]. destruct (print_u32_spec n Hn) as [Hd Hv].
  pose proof (print_u32_length n) as Hlen.
  assert (Hpos : (0 < length (print_u32 n))%nat) by (destruct (print_u32_cons n) as (x & s & ->); cbn; lia).
  change (numbers_text (n :: ns)) with ((" "%byte :: print_u32 n) ++ numbers_text ns) in *.
  rewrite <- app_assoc. cbn [app]. rewrite length_app in Hsize. cbn [length] in Hsize.
  assert (exists d s, numbers_text ns ++ c :: t = d :: s /\ isdigit d = false) as (d & s & Etail & Hdig).
  { destruct ns as [|m ns]; [by exists c, t|]. eexists _, _. by split. }
  cbn [parse_response_uint32_value length lookup list_lookup]. cbn [mbind option_bind].
  rewrite bool_decide_false by (by intros Hne; apply Hne). cbn [drop]. rewrite drop_0.
  rewrite Etail at 1. rewrite digits_within_reads by (done || lia). cbn [mbind option_bind].
  rewrite (proj2 (Nat.eqb_neq _ _)) by lia. rewrite (proj2 (Z.leb_gt _ _)) by lia.
  rewrite (proj2 (Nat.leb_gt _ _)) by (unfold MAX_UINT32_STRING_LENGTH; lia). cbn [orb].
  replace (drop (1 + length (print_u32 n)) (" "%byte :: print_u32 n ++ numbers_text ns ++ c :: t))
    with (numbers_text ns ++ c :: t) by (cbn [drop Nat.add]; by rewrite drop_app_length).
  rewrite IH by (done || lia). cbn -[u32 print_u32]. rewrite Hv, u32_small; done.
Qed.

Lemma word_within_reads w c t : forall n,
  Forall word_byte w -> ~ word_byte c -> (length w < n)%nat ->
  word_within n (w ++ c :: t) = Some (Some w).
Proof.
  induction w as [|x w IH]; intros [|n] Hw Hc Hn; cbn in Hn; try lia; cbn.
  - unfold word_byte in Hc. case_bool_decide; [done|]. case_bool_decide; [done|]. by exfalso; apply Hc.
  - apply Forall_cons in Hw as [[H1 H2] Hw]. rewrite !bool_decide_false by done. cbn.
    rewrite drop_0, IH by (done || lia). done.
Qed.

Lemma parse_word w c t size :
  Forall word_byte w -> w <> [] -> ~ word_byte c -> Z.of_nat (length w) + 1 < size ->
  parse_response_string_value (" "%byte :: w ++ c :: t) size = Some (Some w).
Proof.
  intros Hw Hne Hc Hsize. unfold parse_response_string_value. cbn [lookup list_lookup mbind option_bind].
  rewrite bool_decide_false by (by intros Hx; apply Hx). cbn [drop]. rewrite drop_0.
  rewrite word_within_reads by (done || lia). cbn. by destruct w.
Qed.

(** The first line of an answer: to the commands that get elements, to the one that gets
    them around a position, and to the one that gets them of many keys. *)
Inductive coll_head :=
  | Head_get
  | Head_pwg (position index : Z)
  | Head_mget (key : bytes) (trimmed : bool).

Definition head_verbs (h : coll_head) : list memcached_coll_action_t :=
  match h with
  | Head_get => [LOP_GET_OP; SOP_GET_OP; MOP_GET_OP; BOP_GET_OP; BOP_GBP_OP]
  | Head_pwg _ _ => [BOP_PWG_OP]
  | Head_mget _ _ => [BOP_MGET_OP]
  end.

Definition head_ok (h : coll_head) : Prop :=
  match h with
  | Head_get => True
  | Head_pwg position index => is_u32 position /\ is_u32 index
  | Head_mget key _ => Forall word_byte key /\ Byte.x0a ∉ key /\ key <> []
  end.

Definition head_numbers (h : coll_head) (flags count : Z) : list Z :=
  match h with
  | Head_pwg position index => [position; flags; count; index]
  | _ => [flags; count]
  end.

Definition status_word (trimmed : bool) : bytes := str (if trimmed then "TRIMMED" else "OK").

Definition head_text (h : coll_head) (flags count : Z) : bytes :=
  str "VALUE"
  ++ match h with
     | Head_mget key trimmed => " "%byte :: key ++ " "%byte :: status_word trimmed
     | _ => []
     end
  ++ numbers_text (head_numbers h flags count).

Definition head_word (h : coll_head) : option bytes :=
  match h with Head_mget _ _ => Some (str "ELEMENT") | _ => None end.

(** What the first line leaves in the result. *)
Definition head_read (h : coll_head) (flags : Z) (r : memcached_coll_result_st) : Prop :=
  collection_flags r = flags
  /\ match h with
     | Head_get => True
     | Head_pwg position index => btree_position r = position /\ result_position r = index
     | Head_mget key _ => exists memory,
         memcached_coll_result_get_key r = Some memory /\ take (length key) memory = key
     end.

(** Nothing was trimmed that was asked for. *)
Definition untrimmed (h : coll_head) : Prop :=
  match h with Head_mget _ trimmed => trimmed = false | _ => True end.

(** The whole answer. *)
Definition coll_text (h : coll_head) (flags : Z) (es : list element) : bytes :=
  head_text h flags (Z.of_nat (length es)) ++ crlf ++ elements_text (head_word h) es.

Section Values.
Context `{Environment} `{Allocator} `{Calloc}.

Lemma line_numbers_reads ns pre t i :
  Forall (fun n => is_u32 n) ns ->
  Z.of_nat (length pre + length (numbers_text ns)) < 512 ->
  line_numbers (length ns) (pre ++ numbers_text ns ++ Byte.x0d :: t) (length pre) i
  = Done (inr ns) i.
Proof.
  intros Hns Hlen. unfold line_numbers. rewrite drop_app_length.
  rewrite (parse_numbers ns Byte.x0d t) by (done || (unfold DEFAULT_COMMAND_SIZE; lia)). done.
Qed.

Lemma line_word_reads w c pre t i :
  Forall word_byte w -> w <> [] -> ~ word_byte c -> Z.of_nat (length pre + length w) + 1 < 512 ->
  line_word (pre ++ " "%byte :: w ++ c :: t) (length pre) i = Done (Some w) i.
Proof.
  intros Hw Hne Hc Hlen. unfold line_word. rewrite drop_app_length.
  rewrite parse_word by (done || (unfold DEFAULT_COMMAND_SIZE; lia)). done.
Qed.

Lemma not_word_space : ~ word_byte " "%byte.
Proof. intros []. done. Qed.

Lemma status_word_ok trimmed :
  Forall word_byte (status_word trimmed) /\ status_word trimmed <> []
  /\ get_status_of_bop_mget_response (status_word trimmed)
     = (if trimmed then MEMCACHED_TRIMMED else MEMCACHED_SUCCESS).
Proof. by destruct trimmed; (split; [repeat (constructor; [by split|]); constructor|]). Qed.

Definition header_of (h : coll_head) (flags count : Z) : value_header :=
  {| header_size := length (default [] (head_word h));
     header_positions := match h with Head_pwg position index => Some (position, index) | _ => None end;
     header_flags := flags; header_count := count |}.

Definition with_key (h : coll_head) (r : memcached_coll_result_st) : memcached_coll_result_st :=
  match h with
  | Head_mget key _ => r <| coll_key := store (coll_key r) 0 (c_string key) |>
                         <| coll_key_length := Z.of_nat (length key) + 1 |>
  | _ => r
  end.

Lemma mget_header_reads key trimmed flags count t r i :
  head_ok (Head_mget key trimmed) -> is_u32 flags -> is_u32 count ->
  Z.of_nat (length (head_text (Head_mget key trimmed) flags count)) < 512 ->
  length (coll_key r) = Z.to_nat MEMCACHED_MAX_KEY ->
  mget_header (head_text (Head_mget key trimmed) flags count ++ Byte.x0d :: t) r i
  = Done (inr (header_of (Head_mget key trimmed) flags count), with_key (Head_mget key trimmed) r) i.
Proof.
  intros (Hkey & _ & Hne) Hf Hn Hlen Hroom. destruct (status_word_ok trimmed) as (Hsw & Hsne & Hstatus).
  set (numbers := numbers_text [flags; count] ++ Byte.x0d :: t).
  set (sw := status_word trimmed) in *.
  unfold head_text in *. cbn [head_numbers] in *. fold sw in Hlen |- *.
  rewrite <- ?app_assoc. cbn [app]. rewrite <- ?app_assoc. cbn [app]. rewrite <- ?app_assoc. fold numbers.
  rewrite !length_app in Hlen. cbn [length] in Hlen. rewrite length_app in Hlen. cbn [length] in Hlen.
  unfold mget_header. change 5%nat with (length (str "VALUE")) at 1.
  io_do (line_word_reads key " "%byte (str "VALUE") (sw ++ numbers) i Hkey Hne not_word_space
           ltac:(cbn in *; lia)).
  cbv iota. unfold memcpy_to. rewrite (proj2 (Nat.leb_le _ _)).
  2: { rewrite Hroom. unfold c_string. rewrite length_app. unfold MEMCACHED_MAX_KEY. cbn in *. lia. }
  cbn [checked]. io_pure. cbv zeta.
  set (pre := str "VALUE" ++ " "%byte :: key).
  assert (Epre : (5 + (1 + length key))%nat = length pre) by (unfold pre; rewrite length_app; cbn; lia).
  rewrite Epre.
  assert (Eb : str "VALUE" ++ " "%byte :: key ++ " "%byte :: sw ++ numbers = pre ++ " "%byte :: sw ++ numbers)
    by (unfold pre; rewrite <- app_assoc; done).
  rewrite Eb.
  assert (Hword : line_word (pre ++ " "%byte :: sw ++ numbers) (length pre) i = Done (Some sw) i).
  { unfold numbers. change (numbers_text [flags; count])
      with (" "%byte :: print_u32 flags ++ numbers_text [count]). cbn [app].
    apply line_word_reads; [exact Hsw|exact Hsne|exact not_word_space|rewrite <- Epre; cbn in *; lia]. }
  io_do Hword. cbv iota. rewrite Hstatus.
  assert (bool_decide ((if trimmed then MEMCACHED_TRIMMED else MEMCACHED_SUCCESS) <> MEMCACHED_SUCCESS)
          && bool_decide ((if trimmed then MEMCACHED_TRIMMED else MEMCACHED_SUCCESS) <> MEMCACHED_TRIMMED)
          = false) as -> by by destruct trimmed.
  assert (Epre2 : (length pre + (1 + length sw))%nat = length (pre ++ " "%byte :: sw))
    by (rewrite length_app; cbn; lia).
  rewrite Epre2.
  assert (Eb2 : pre ++ " "%byte :: sw ++ numbers
    = (pre ++ " "%byte :: sw) ++ numbers_text [flags; count] ++ Byte.x0d :: t)
    by (rewrite <- app_assoc; done).
  rewrite Eb2. change 2%nat with (length [flags; count]) at 1.
  io_do (line_numbers_reads [flags; count] (pre ++ " "%byte :: sw) t i ltac:(repeat (constructor; [assumption|]); constructor)
           ltac:(rewrite <- Epre2, <- Epre; cbn in *; lia)).
  done.
Qed.

Lemma value_line_header_reads verb h flags count t r i :
  In verb (head_verbs h) -> head_ok h -> is_u32 flags -> is_u32 count ->
  Z.of_nat (length (head_text h flags count)) < 512 ->
  length (coll_key r) = Z.to_nat MEMCACHED_MAX_KEY ->
  value_line_header (coll_op_string verb) (head_text h flags count ++ Byte.x0d :: t) r i
  = Done (inr (header_of h flags count), with_key h r) i.
Proof.
  intros Hverb Hok Hf Hn Hlen Hroom. unfold value_line_header.
  destruct h as [|position index|key trimmed].
  - assert (checked (memcmp_n 4 (drop 1 (c_string (coll_op_string verb))) (str "op g")) i = Done true i) as Hget.
    { cbn in Hverb. by repeat (destruct Hverb as [<-|Hverb]; [reflexivity|]). }
    io_do Hget. cbv iota. unfold numbers_header, head_text in *. cbn [head_numbers app] in *.
    rewrite <- app_assoc. change 2%nat with (length [flags; count]) at 1.
    change 5%nat with (length (str "VALUE")) at 1. rewrite io_bind_assoc.
    io_do (line_numbers_reads [flags; count] (str "VALUE") t i
             ltac:(repeat (constructor; [assumption|]); constructor) ltac:(rewrite length_app in Hlen; lia)). done.
  - destruct Hverb as [<-|[]]. destruct Hok as [Hp Hx]. do 2 (io_pure; cbv iota).
    unfold numbers_header, head_text in *. cbn [head_numbers app] in *.
    rewrite <- app_assoc. change 4%nat with (length [position; flags; count; index]) at 1.
    change 5%nat with (length (str "VALUE")) at 1. rewrite io_bind_assoc.
    io_do (line_numbers_reads [position; flags; count; index] (str "VALUE") t i
             ltac:(repeat (constructor; [assumption|]); constructor) ltac:(rewrite length_app in Hlen; lia)). done.
  - destruct Hverb as [<-|[]]. do 3 (io_pure; cbv iota). by apply mget_header_reads.
Qed.

(** ** Whole answers *)

(** A result that nothing was read into. *)
Record fresh (r : memcached_coll_result_st) : Prop := {
  fresh_values : values r = None;
  fresh_keys : sub_keys r = None;
  fresh_eflags : eflags r = None;
  fresh_count : collection_count r = 0;
  fresh_key : length (coll_key r) = Z.to_nat MEMCACHED_MAX_KEY;
}.

(** There is memory for the arrays. *)
Definition array_room (n : Z) : Prop :=
  calloc n sizeof_memcached_string_st <> None /\ calloc n sizeof_memcached_coll_sub_key_st <> None
  /\ calloc n sizeof_memcached_hexadecimal_st <> None.

Lemma allocate_cleared {A} (c : A) n size :
  calloc n size <> None ->
  exists l, allocate_array None c n size = Some l /\ cleared_from (Some l) c 0 (Z.to_nat n).
Proof.
  intros Hroom. unfold allocate_array. destruct (calloc n size); [|done].
  eexists. split; [done|]. eexists. split; [done|]. rewrite length_replicate. split; [done|].
  intros j [_ Hj]. by apply lookup_replicate_2.
Qed.

Lemma allocate_fresh n r : fresh r -> array_room n ->
  exists r', allocate_results n r = (true, r') /\ ready r' 0 (Z.to_nat n) /\ about r' = about r
    /\ collection_count r' = collection_count r /\ sub_key_type r' = sub_key_type r.
Proof.
  intros [Hv Hk He _ _] (Rv & Rk & Re).
  destruct (allocate_cleared cleared_string n _ Rv) as (vs & Av & Cv).
  destruct (allocate_cleared cleared_sub_key n _ Rk) as (ks & Ak & Ck).
  destruct (allocate_cleared cleared_hexadecimal n _ Re) as (es & Ae & Ce).
  destruct r as [key len type ? ? ? ? ? ? keys flags vals ? ?]. cbn in Hv, Hk, He. subst.
  unfold allocate_results. cbn -[allocate_array]. rewrite Av. cbn -[allocate_array].
  destruct type; cbn -[allocate_array]; rewrite ?Ak; cbn -[allocate_array]; rewrite ?Ae;
    (eexists; split; [reflexivity|]; split; [split; cbn|done]; first [done | by intros [?|?] | by intros ?]).
Qed.

(** What a result gives of an element. *)
Definition element_given (r : memcached_coll_result_st) (j : nat) (e : element) : Prop :=
  (exists block, memcached_coll_result_get_value r (Z.of_nat j) = Some (Some block)
     /\ take (length (element_value e)) block = element_value e)
  /\ memcached_coll_result_get_value_length r (Z.of_nat j) = Some (Z.of_nat (length (element_value e)))
  /\ match element_key_of e with
     | No_key => True
     | Bkey n => memcached_coll_result_get_bkey r (Z.of_nat j) = Some n
     | Bkey_ext a => exists h, memcached_coll_result_get_bkey_ext r (Z.of_nat j) = Some (Some h) /\ holds h a
     | Mkey k => memcached_coll_result_get_mkey r (Z.of_nat j) = Some (Some (c_string k))
         /\ memcached_coll_result_get_mkey_length r (Z.of_nat j) = Some (Z.of_nat (length k))
     end
  /\ match element_eflag e with
     | None => True
     | Some a => exists h, memcached_coll_result_get_eflag r (Z.of_nat j) = Some (Some h) /\ holds h a
     end.

Lemma at_index_some {A} (a : option (list A)) j x :
  at_index a j = Some x -> exists l, a = Some l.
Proof. destruct a; [by eauto|done]. Qed.

Lemma element_read_given r j e kind :
  element_read r j e -> element_ok (coll_type r) kind e -> keys_of_type (coll_type r) kind ->
  sub_key_type r = type_after kind (sub_key_type r) -> element_given r j e.
Proof.
  intros ((v & Hv & Hval & Hend & Hblock) & Hk & He) [Hkind _ Hef _] Hkt Htype.
  destruct (at_index_some _ _ _ Hv) as (vs & Evs). split; [|split; [|split]].
  - destruct (string_block v) as [b|] eqn:Eb; [|done]. exists b.
    unfold memcached_coll_result_get_value. rewrite Evs in Hv |- *. rewrite Hv. cbn. rewrite Eb.
    split; [done|]. rewrite <- Hend, <- Hval. unfold memcached_string_value. by rewrite Eb.
  - unfold memcached_coll_result_get_value_length. rewrite Evs in Hv |- *. rewrite Hv. cbn.
    unfold memcached_string_length. by rewrite Hend.
  - unfold key_read in Hk. destruct (element_key_of e) as [|n|a|k]; [done|..]; cbn in Hkind; subst kind;
      destruct (coll_type r) eqn:Et; cbn in Hkt; try (by destruct Hkt); try done.
    + unfold memcached_coll_result_get_bkey. rewrite Et, Hk. done.
    + destruct Hk as (h & Hk & Hh). exists h. unfold memcached_coll_result_get_bkey_ext.
      rewrite Et, Htype, Hk. by cbn.
    + destruct Hk as (m & Hk & Hm & Hl).
      unfold memcached_coll_result_get_mkey, memcached_coll_result_get_mkey_length.
      rewrite Et, Hk. cbn. rewrite Hm, Hl. split; [|done]. by destruct k.
  - destruct (element_eflag e) as [a|]; [|done]. destruct He as (h & He & Hh). exists h. split; [|done].
    destruct (at_index_some _ _ _ He) as (es & Ees). unfold memcached_coll_result_get_eflag.
    rewrite (proj1 Hef), Ees in *. rewrite He. by cbn.
Qed.

(** What reading an answer makes of a result. *)
Definition answer_read (h : coll_head) (flags : Z) (es : list element)
    (r r' : memcached_coll_result_st) : Prop :=
  head_read h flags r' /\ coll_type r' = coll_type r
  /\ memcached_coll_result_get_count r' = Z.of_nat (length es)
  /\ forall j e, es !! j = Some e -> element_given r' j e.

(** The result when the first line was read. *)
Definition head_stored (h : coll_head) (flags : Z) (r : memcached_coll_result_st)
    : memcached_coll_result_st :=
  let r := with_key h r <| collection_flags := flags |> in
  match h with
  | Head_pwg position index => r <| btree_position := position |> <| result_position := index |>
  | _ => r
  end.

Definition head_fits (h : coll_head) (flags count : Z) : Prop :=
  Z.of_nat (length (head_text h flags count)) < 512.

Lemma key_fits key trimmed flags count :
  head_fits (Head_mget key trimmed) flags count ->
  (length (c_string key) <= Z.to_nat MEMCACHED_MAX_KEY)%nat.
Proof.
  unfold head_fits, head_text, c_string. rewrite !length_app. cbn [length]. rewrite length_app.
  cbn [length]. unfold MEMCACHED_MAX_KEY. lia.
Qed.

Lemma head_stored_fresh h flags count r :
  fresh r -> head_fits h flags count ->
  fresh (head_stored h flags r) /\ coll_type (head_stored h flags r) = coll_type r.
Proof.
  intros [Hv Hk He Hc Hl] Hfits. split; [|by destruct h].
  destruct h as [| |key trimmed]; split; try done.
  change (length (store (coll_key r) 0 (c_string key)) = Z.to_nat MEMCACHED_MAX_KEY).
  rewrite store_length; [exact Hl|]. apply key_fits in Hfits. lia.
Qed.

Lemma head_stored_read h flags r r' :
  about r' = about (head_stored h flags r) -> head_read h flags r'.
Proof.
  destruct h as [|position index|key trimmed]; intros [= Hk Hkl _ Hf Hp Hx _]; unfold head_read;
    cbn in Hk, Hkl, Hf, Hp, Hx; rewrite ?Hf, ?Hp, ?Hx; split_and!; try done.
  exists (coll_key r'). unfold memcached_coll_result_get_key. rewrite Hkl.
  rewrite (proj2 (Z.eqb_neq _ _)) by lia. split; [done|]. rewrite Hk.
  change (take (length key) (store (coll_key r) 0 (c_string key)) = key).
  rewrite store_front. unfold c_string. rewrite <- app_assoc. apply take_app_length.
Qed.

Lemma head_word_ok h : match head_word h with Some w => Forall word_byte w /\ w <> [] | None => True end.
Proof. destruct h; [done..|]. split; [|done]. repeat (constructor; [by split|]). constructor. Qed.

Lemma value_fetch_reads verb h flags es kind t r rest i :
  connected i -> incoming i = elements_text (head_word h) es ++ rest ->
  In verb (head_verbs h) -> head_ok h -> is_u32 flags -> 0 < Z.of_nat (length es) < 2 ^ 32 ->
  head_fits h flags (Z.of_nat (length es)) -> fresh r -> array_room (Z.of_nat (length es)) ->
  keys_of_type (coll_type r) kind -> Forall (element_ok (coll_type r) kind) es ->
  Forall element_room es ->
  exists r' i',
    textual_coll_value_fetch (coll_op_string verb)
      (head_text h flags (Z.of_nat (length es)) ++ Byte.x0d :: t) r i
    = Done (MEMCACHED_SUCCESS, r') i'
    /\ answer_read h flags es r r' /\ after rest i i'.
Proof.
  intros Hc Hin Hverb Hhead Hf Hn Hlen Hfresh Hroom Hkt Hok Her.
  pose proof (value_line_header_reads verb h flags (Z.of_nat (length es)) t r i Hverb Hhead Hf
                ltac:(lia) Hlen (fresh_key _ Hfresh)) as Hhdr.
  destruct (head_stored_fresh h flags _ r Hfresh Hlen) as [Hfresh1 Ht1].
  destruct (allocate_fresh (Z.of_nat (length es)) _ Hfresh1 Hroom)
    as (r2 & Halloc & Hready & Habout & Hcount & Hstype).
  assert (Ht2 : coll_type r2 = coll_type r) by by rewrite <- Ht1; injection Habout.
  rewrite Nat2Z.id in Hready. rewrite (fresh_count _ Hfresh1) in Hcount.
  destruct (elements_read (head_word h) (length es) kind es 0 rest r2 i Hc Hin (head_word_ok h) Hready)
    as (r' & i' & Hdo & Hi' & Ha' & Hel & _ & Hcnt & Hst); rewrite ?Ht2, ?Hcount; try done; try lia.
  rewrite Hcount in Hcnt.
  exists r', i'. split; [|split; [|exact Hi']].
  - unfold textual_coll_value_fetch. io_do Hhdr. cbv iota. cbn [header_flags header_count header_of].
    rewrite (proj2 (Z.eqb_neq _ _)) by lia.
    match goal with |- context [allocate_results _ ?x] =>
      assert (x = head_stored h flags r) as -> by by destruct h end.
    rewrite Halloc, Nat2Z.id. exact Hdo.
  - assert (Hst' : coll_type r' = coll_type r) by by rewrite <- Ht2; injection Ha'.
    split; [|split; [exact Hst'|split; [unfold memcached_coll_result_get_count; lia|]]].
    + apply (head_stored_read h flags r). by rewrite Ha'.
    + intros j e Hj. apply (element_read_given r' j e kind); rewrite ?Hst'; [by apply (Hel j)|..].
      * by eapply Forall_lookup_1 in Hj; [|exact Hok].
      * done.
      * rewrite Hst. destruct es; [done|]. unfold type_after. by case_bool_decide.
Qed.
End Values.

Section Claims.
Context `{Environment} `{Allocator} `{Calloc}.

Lemma numbers_not_lf ns : Forall (fun n => is_u32 n) ns -> Byte.x0a ∉ numbers_text ns.
Proof.
  induction 1 as [|n ns Hn _ IH]; [by apply not_elem_of_nil|].
  change (numbers_text (n :: ns)) with (" "%byte :: print_u32 n ++ numbers_text ns).
  rewrite not_elem_of_cons, not_elem_of_app. split; [done|]. split; [by apply digits_not_lf|done].
Qed.

Lemma head_text_not_lf h flags count :
  head_ok h -> is_u32 flags -> is_u32 count -> Byte.x0a ∉ head_text h flags count ++ [Byte.x0d].
Proof.
  intros Hok Hf Hn. unfold head_text. rewrite !not_elem_of_app.
  assert (Hnum : Byte.x0a ∉ numbers_text (head_numbers h flags count)).
  { apply numbers_not_lf. destruct h; [|destruct Hok|]; repeat (constructor; [assumption|]); constructor. }
  split; [split; [|split; [|exact Hnum]]|]; try by apply (bool_decide_unpack (Byte.x0a ∉ _)).
  destruct h as [| |key trimmed]; try by apply not_elem_of_nil.
  destruct Hok as (_ & Hkey & _). rewrite not_elem_of_cons, not_elem_of_app, not_elem_of_cons.
  split; [done|]. split; [done|]. split; [done|]. by destruct trimmed; apply (bool_decide_unpack (Byte.x0a ∉ _)).
Qed.

(** A line that fits is read into the front of the buffer. *)
Lemma read_coll_line op buffer result pipe s rest i :
  connected i -> incoming i = s ++ Byte.x0a :: rest -> Byte.x0a ∉ s ->
  (length s + 1 < length buffer)%nat ->
  exists i', textual_read_one_coll_response op buffer result pipe i
             = textual_coll_response op (s ++ Byte.x0a :: drop (length s + 1) buffer) (length s + 1)
                 result pipe i'
    /\ after rest i i'.
Proof.
  intros Hc Hin Hs Hlen.
  assert (Hres : line_result (length buffer) (incoming i) = (MEMCACHED_SUCCESS, (length s + 1)%nat)).
  { unfold line_result. rewrite Hin, line_length_line by done. by rewrite (proj2 (Nat.ltb_lt _ _)). }
  destruct (readline_reads (length buffer) i Hc) as (i' & Hdo & Hi').
  { lia. }
  { rewrite Hres, Hin, length_app. cbn. lia. }
  rewrite Hres in Hdo, Hi'. cbn [fst snd] in Hdo, Hi'.
  assert (Htake : take (length s + 1) (incoming i) = s ++ [Byte.x0a]).
  { rewrite Hin, take_app_add. reflexivity. }
  rewrite Htake in Hdo. exists i'. destruct Hi' as (Hc' & Hin' & Hu). split.
  - unfold textual_read_one_coll_response. io_do Hdo. cbv iota zeta. rewrite bool_decide_false by (by intros []).
    rewrite store_front, length_app, <- app_assoc. done.
  - split; [done|]. split; [|done]. rewrite Hin', Hin, drop_app_add. done.
Qed.

(** A response without an error, with the count of responses on both sides of it. *)
Lemma one_coll_response op buffer result pipe rc b r p i j :
  binary_protocol (flags (root i)) = false -> out_of_step rc = false ->
  textual_read_one_coll_response op buffer result pipe
    (i <| server ::= fun s => s <| cursor_active ::= fun n => n ⊟ 1 |> |>) = Done (rc, b, r, p) j ->
  memcached_read_one_coll_response op buffer result pipe i = Done (rc, b, r, p) j.
Proof.
  intros Hbin Hstep Hdo. unfold memcached_read_one_coll_response. io_pure. io_pure.
  change (flags (root _)) with (flags (root i)). rewrite Hbin.
  io_do Hdo. cbv iota. unfold reset_out_of_step. rewrite Hstep. by io_pure.
Qed.

(** A response is not awaited any more, and then it is again. *)
Lemma counted_back i j k rest :
  is_u32 (cursor_active (server i)) ->
  undisturbed (i <| server ::= fun s => s <| cursor_active ::= fun n => n ⊟ 1 |> |>) j ->
  after rest (j <| server ::= fun s => s <| cursor_active ::= fun n => n ⊞ 1 |> |>) k ->
  after rest i k.
Proof.
  intros Hcur (A & B & C & D & E & F & G & I & W) (Hc & Hin & A' & B' & C' & D' & E' & F' & G' & I' & W').
  split; [done|]. split; [done|]. unfold undisturbed. rewrite A', B', C', D', E', F', G', I', W'.
  split_and!; try assumption.
  change (cursor_active (server j) ⊞ 1 = cursor_active (server i)). rewrite I.
  change (cursor_active (server i) ⊟ 1 ⊞ 1 = cursor_active (server i)).
  rewrite u32_add_l. rewrite u32_small; lia.
Qed.

(** C16: what a server answers to a command that gets elements is what the result
    gives: for every list of elements of a list, a set, a map or a tree, with numbers or
    byte arrays as keys and with flags or without them, of one key, around a position or
    as a part of the answer for many keys of which nothing was trimmed, when there is
    memory for them and the result is a new one, [memcached_coll_response] succeeds, the
    result has the number of elements, the flags of the item, its key and its positions
    where the answer has them, and each element with its key, its flags and its value at
    its index; exactly the answer is taken away from what comes in, and the connection,
    its errors and the number of awaited responses are as before. *)
Theorem memcached_coll_response_elements (processing_input : bool) (flush : io unit)
    (verb : memcached_coll_action_t) (h : coll_head) (item_flags' : Z) (es : list element)
    (kind : memcached_coll_sub_key_type_t) (buffer rest : bytes) (result : memcached_coll_result_st)
    (pipe : pipe_st) (i : instance) :
  connected i -> incoming i = coll_text h item_flags' es ++ rest ->
  binary_protocol (flags (root i)) = false ->
  no_block (flags (root i)) && negb processing_input = false -> cursor_active (server i) = 1 ->
  In verb (head_verbs h) -> head_ok h -> untrimmed h -> is_u32 item_flags' ->
  0 < Z.of_nat (length es) < 2 ^ 32 -> head_fits h item_flags' (Z.of_nat (length es)) ->
  (length (head_text h item_flags' (Z.of_nat (length es))) + 2 < length buffer)%nat ->
  fresh result -> array_room (Z.of_nat (length es)) -> keys_of_type (coll_type result) kind ->
  Forall (element_ok (coll_type result) kind) es -> Forall element_room es ->
  exists buffer' result' i',
    memcached_coll_response processing_input flush (coll_op_string verb) buffer result pipe i
    = Done (MEMCACHED_SUCCESS, buffer', result', pipe) i'
    /\ answer_read h item_flags' es result result'
    /\ connected i' /\ incoming i' = rest /\ undisturbed i i'.
Proof.
  intros Hc Hin Hbin Hblock Hcur Hverb Hhead _ Hf Hn Hfits Hbuf Hfresh Hroom Hkt Hok Her.
  set (line := head_text h item_flags' (Z.of_nat (length es))) in *.
  set (i1 := i <| server ::= fun s => s <| cursor_active ::= fun n => n ⊟ 1 |> |>).
  destruct (read_coll_line (coll_op_string verb) buffer result pipe (line ++ [Byte.x0d])
              (elements_text (head_word h) es ++ rest) i1 Hc) as (j & Hread & Hcj & Hinj & Huj).
  { change (incoming i1) with (incoming i). rewrite Hin. unfold coll_text. by rewrite <- !app_assoc. }
  { apply head_text_not_lf; [done..|lia]. }
  { rewrite length_app. cbn [length]. lia. }
  rewrite <- app_assoc in Hread. cbn [app] in Hread.
  set (tail := Byte.x0a :: drop (length (line ++ [Byte.x0d]) + 1) buffer) in *.
  set (j1 := j <| server ::= fun s => s <| cursor_active ::= fun n => n ⊞ 1 |> |>).
  destruct (value_fetch_reads verb h item_flags' es kind tail result rest j1 Hcj Hinj Hverb Hhead Hf Hn Hfits
              Hfresh Hroom Hkt Hok Her) as (result' & i' & Hfetch & Hresult & Hi').
  assert (Hafter : after rest i i') by (apply (counted_back i j i' rest); [lia|done|done]).
  exists (line ++ Byte.x0d :: tail), result', i'. split; [|split; [exact Hresult|exact Hafter]].
  unfold memcached_coll_response, write_first. rewrite io_bind_assoc. io_pure. rewrite Hblock.
  io_pure. io_pure. rewrite Hbin. io_pure. cbn [coll_response_loop]. io_pure. rewrite Hcur. cbn [Z.ltb].
  cbn. apply one_coll_response; [done|done|]. fold i1. rewrite Hread.
  unfold textual_coll_response. cbv zeta.
  assert ((line ++ Byte.x0d :: tail) !! 0%nat = Some "V"%byte) as -> by reflexivity.
  cbn [checked]. io_pure. cbv iota. cbn [first_match].
  rewrite memcmp_eq_long by (rewrite length_app; unfold line, head_text; rewrite length_app; lia).
  assert (starts (str "VALUE") (line ++ Byte.x0d :: tail) = true) as -> by reflexivity.
  io_pure. cbv iota. io_pure. fold j1. by io_do Hfetch.
Qed.
End Claims.

(** ** Pipes *)

(** The lines that say how an operation of a pipe went, or the pipe, without the new
    master of a switch and the errors with a text. *)
Definition pipe_lines : list (string * memcached_return_t) :=
  [("PIPE_ERROR command overflow", MEMCACHED_PIPE_ERROR_COMMAND_OVERFLOW);
   ("PIPE_ERROR memory overflow", MEMCACHED_PIPE_ERROR_MEMORY_OVERFLOW);
   ("PIPE_ERROR bad error", MEMCACHED_PIPE_ERROR_BAD_ERROR);
   ("OUT_OF_RANGE", MEMCACHED_OUT_OF_RANGE); ("OVERFLOWED", MEMCACHED_OVERFLOWED);
   ("STORED", MEMCACHED_STORED); ("DELETED", MEMCACHED_DELETED);
   ("DELETED_DROPPED", MEMCACHED_DELETED_DROPPED);
   ("NOT_FOUND_ELEMENT", MEMCACHED_NOTFOUND_ELEMENT); ("NOT_FOUND", MEMCACHED_NOTFOUND);
   ("NOT_SUPPORTED", MEMCACHED_NOT_SUPPORTED); ("NOT_EXIST", MEMCACHED_NOT_EXIST);
   ("REPLACED", MEMCACHED_REPLACED); ("UPDATED", MEMCACHED_UPDATED);
   ("UNREADABLE", MEMCACHED_UNREADABLE); ("END", MEMCACHED_END);
   ("EFLAG_MISMATCH", MEMCACHED_EFLAG_MISMATCH); ("EXIST", MEMCACHED_EXIST);
   ("ELEMENT_EXISTS", MEMCACHED_ELEMENT_EXISTS); ("TYPE_MISMATCH", MEMCACHED_TYPE_MISMATCH);
   ("CREATED_STORED", MEMCACHED_CREATED_STORED); ("BKEY_MISMATCH", MEMCACHED_BKEY_MISMATCH);
   ("HELLO", MEMCACHED_UNDEFINED_RESPONSE)]%string.

Definition pipe_line_text (t : string * memcached_return_t) : bytes := str t.1 ++ crlf.

Definition pipe_text (answers : list (string * memcached_return_t)) (last : string * memcached_return_t)
    : bytes :=
  str "RESPONSE" ++ numbers_text [Z.of_nat (length answers)] ++ crlf
  ++ concat (map pipe_line_text answers) ++ pipe_line_text last.

(** The array with the codes from [at_] on. *)
Definition put_codes (rs : list memcached_return_t) (at_ : nat) (codes : list memcached_return_t)
    : list memcached_return_t := take at_ rs ++ codes ++ drop (at_ + length codes) rs.

Lemma put_codes_cons rs at_ rc codes : (at_ < length rs)%nat ->
  put_codes (<[at_ := rc]> rs) (S at_) codes = put_codes rs at_ (rc :: codes).
Proof.
  intros Hat. unfold put_codes. rewrite insert_take_drop by done.
  assert (length (take at_ rs) = at_) as Hl by (rewrite length_take; lia).
  rewrite take_app, Hl. replace (S at_ - at_)%nat with 1%nat by lia. cbn [take app length].
  rewrite take_take, Nat.min_r, take_0, <- app_assoc by lia. cbn [app]. do 3 f_equal.
  rewrite drop_app, Hl, drop_ge by lia. cbn [app].
  replace (S at_ + length codes - at_)%nat with (S (length codes)) by lia. cbn [drop].
  rewrite drop_drop. f_equal. lia.
Qed.

Section Pipes.
Context `{Environment} `{Allocator} `{Calloc}.

Lemma pipe_line_says text rc tail i :
  In (text, rc) pipe_lines ->
  get_status_of_coll_pipe_response (str text ++ crlf ++ tail) (Z.of_nat (length (str text))) i = Done rc i.
Proof.
  intros Hin. unfold pipe_lines in Hin.
  repeat (destruct Hin as [[= <- <-]|Hin]; [reflexivity|]). destruct Hin.
Qed.

Lemma pipe_line_facts text rc : In (text, rc) pipe_lines ->
  Byte.x0a ∉ str text ++ [Byte.x0d] /\ (length (str text) <= 27)%nat /\ out_of_step rc = false
  /\ rc <> MEMCACHED_SWITCHOVER /\ rc <> MEMCACHED_REPL_SLAVE.
Proof.
  intros Hin. unfold pipe_lines in Hin.
  repeat (destruct Hin as [[= <- <-]|Hin];
    [split; [by apply (bool_decide_unpack (Byte.x0a ∉ _)) | split_and!; first [cbn; lia | done]]|]).
  destruct Hin.
Qed.

Lemma read_pipe_status_reads t rest buffer i :
  In t pipe_lines -> connected i -> incoming i = pipe_line_text t ++ rest -> (32 <= length buffer)%nat ->
  exists buffer' i', read_pipe_status buffer i = Done (inr t.2, buffer') i'
    /\ length buffer' = length buffer /\ after rest i i'.
Proof.
  destruct t as [text rc]. cbn [snd]. intros Hin Hc Hinc Hbuf.
  destruct (pipe_line_facts text rc Hin) as (Hlf & Hlen & _). set (s := str text) in *.
  assert (Hinc' : incoming i = (s ++ [Byte.x0d]) ++ Byte.x0a :: rest).
  { rewrite Hinc. unfold pipe_line_text. cbn [fst]. fold s. by rewrite <- !app_assoc. }
  assert (Hres : line_result (length buffer) (incoming i) = (MEMCACHED_SUCCESS, (length s + 2)%nat)).
  { unfold line_result. rewrite Hinc', line_length_line by done. rewrite length_app. cbn [length].
    rewrite (proj2 (Nat.ltb_lt _ _)) by lia. f_equal. lia. }
  destruct (readline_reads (length buffer) i Hc) as (i' & Hdo & Hc' & Hin' & Hu).
  { lia. }
  { rewrite Hres, Hinc', !length_app. cbn. lia. }
  rewrite Hres in Hdo, Hin'. cbn [fst snd] in Hdo, Hin'.
  assert (Htake : take (length s + 2) (incoming i) = s ++ crlf).
  { rewrite Hinc', <- app_assoc, take_app_add. reflexivity. }
  rewrite Htake in Hdo.
  exists (s ++ crlf ++ drop (length s + 2) buffer), i'. split; [|split].
  - unfold read_pipe_status. io_do Hdo. cbv iota zeta. rewrite bool_decide_false by (by intros []).
    rewrite store_front, length_app, <- app_assoc. cbn [length crlf].
    assert (i32 (u64 (Z.of_nat (length s + 2) - 2)) = Z.of_nat (length s)) as ->.
    { clear -Hlen. rewrite u64_small by lia. unfold i32. rewrite Z.mod_small; lia. }
    by io_do (pipe_line_says text rc (drop (length s + 2) buffer) i' Hin).
  - rewrite !length_app, length_drop. cbn. lia.
  - split; [done|]. split; [|done]. by rewrite Hin', Hinc', <- app_assoc, drop_app_add.
Qed.

Lemma pipe_loop_reads answers : forall rest buffer off k rs i,
  Forall (fun t => In t pipe_lines) answers -> connected i ->
  incoming i = concat (map pipe_line_text answers) ++ rest -> (32 <= length buffer)%nat ->
  0 <= off -> 0 <= k -> off + k + Z.of_nat (length answers) <= Z.of_nat (length rs) ->
  exists buffer' i',
    pipe_loop (length answers) buffer off k MEMCACHED_SUCCESS rs i
    = Done (None, MEMCACHED_SUCCESS, k + Z.of_nat (length answers), buffer',
            put_codes rs (Z.to_nat (off + k)) (map snd answers)) i'
    /\ length buffer' = length buffer /\ after rest i i'.
Proof.
  induction answers as [|t answers IH]; intros rest buffer off k rs i Hall Hc Hin Hbuf Hoff Hk Hlen.
  - exists buffer, i. split; [|split; [done|by split_and!]]. cbn. unfold put_codes. cbn [map app length].
    rewrite Nat.add_0_r, take_drop, Z.add_0_r. done.
  - apply Forall_cons in Hall as [Ht Hall]. cbn [length] in *.
    destruct (read_pipe_status_reads t (concat (map pipe_line_text answers) ++ rest) buffer i Ht Hc)
      as (b1 & i1 & Hdo1 & Hb1 & Hc1 & Hin1 & Hu1); [by rewrite Hin; cbn; rewrite <- app_assoc|done|].
    destruct t as [text rc]. destruct (pipe_line_facts text rc Ht) as (_ & _ & _ & Hsw & Hsl). cbn [snd] in *.
    destruct (IH rest b1 off (k + 1) (<[Z.to_nat (off + k) := rc]> rs) i1) as (b2 & i2 & Hdo2 & Hb2 & Hi2);
      try done; try lia; [rewrite length_insert; lia|].
    exists b2, i2. split; [|split; [lia|eapply after_trans; [|exact Hi2]; by split]].
    cbn [pipe_loop]. io_do Hdo1. cbv iota zeta. rewrite (proj2 (Nat.ltb_lt _ _)) by lia. cbn [negb].
    rewrite !bool_decide_false by done. cbn [orb]. rewrite Hdo2.
    replace (Z.to_nat (off + (k + 1))) with (S (Z.to_nat (off + k))) by lia.
    rewrite put_codes_cons by lia.
    by replace (k + 1 + Z.of_nat (length answers)) with (k + Z.of_nat (S (length answers))) by lia.
Qed.
Lemma parse_response_count n t :
  is_u32 n ->
  parse_response_header (str "RESPONSE" ++ numbers_text [n] ++ Byte.x0d :: t) 8 = Some (Some n).
Proof.
  intros Hn. destruct (print_u32_spec n Hn) as [Hd Hv]. pose proof (print_u32_length n) as Hl.
  unfold numbers_text. cbn [map concat]. rewrite app_nil_r.
  set (line := str "RESPONSE" ++ (" "%byte :: print_u32 n) ++ Byte.x0d :: t).
  unfold parse_response_header. cbv zeta. change (9 =? 512)%nat with false. cbv iota.
  assert (Hs : strtoull (drop 9 line) = Some (n, length (print_u32 n))).
  { change (drop 9 line) with (print_u32 n ++ Byte.x0d :: t). rewrite strtoull_digits; rewrite ?Hv;
      [done|done| |done|lia]. by destruct (print_u32_cons n) as (c & s & ->). }
  rewrite Hs. cbn [mbind option_bind]. rewrite (proj2 (Nat.eqb_neq _ _)) by lia.
  assert (Hc : line !! (9 + length (print_u32 n))%nat = Some Byte.x0d).
  { change (9 + length (print_u32 n))%nat with (length (str "RESPONSE") + (1 + length (print_u32 n)))%nat.
    unfold line. rewrite lookup_app_r by lia.
    replace (_ + _ - _)%nat with (length (" "%byte :: print_u32 n)) by (cbn [length]; lia).
    by apply list_lookup_middle. }
  rewrite Hc. cbn [mbind option_bind]. rewrite bool_decide_true by done.
  rewrite (proj2 (Nat.ltb_ge _ _)) by lia. by rewrite u32_small.
Qed.

Lemma piped_response_reads answers last rest buffer t pipe i :
  Forall (fun t => In t pipe_lines) answers -> In last pipe_lines -> connected i ->
  incoming i = concat (map pipe_line_text answers) ++ pipe_line_text last ++ rest ->
  Z.of_nat (length answers) < 2 ^ 32 -> 0 <= pipe_responses_length pipe ->
  pipe_responses_length pipe + Z.of_nat (length answers) <= Z.of_nat (length (pipe_responses pipe)) ->
  buffer = str "RESPONSE" ++ numbers_text [Z.of_nat (length answers)] ++ Byte.x0d :: t ->
  (32 <= length buffer)%nat ->
  exists buffer' i',
    textual_coll_piped_response_fetch buffer pipe i
    = Done (last.2, buffer',
            {| pipe_responses := put_codes (pipe_responses pipe) (Z.to_nat (pipe_responses_length pipe))
                                   (map snd answers);
               pipe_responses_length := pipe_responses_length pipe + Z.of_nat (length answers) |}) i'
    /\ after rest i i'.
Proof.
  intros Hall Hlast Hc Hin Hn Hpos Hroom -> Hbuf. unfold textual_coll_piped_response_fetch.
  rewrite parse_response_count by lia. cbn [checked]. io_pure. cbv iota.
  destruct (pipe_loop_reads answers (pipe_line_text last ++ rest) _ (pipe_responses_length pipe) 0
              (pipe_responses pipe) i Hall Hc Hin Hbuf) as (b1 & i1 & Hdo1 & Hb1 & Hc1 & Hin1 & Hu1);
    try lia.
  destruct (read_pipe_status_reads last rest b1 i1 Hlast Hc1 Hin1) as (b2 & i2 & Hdo2 & _ & Hi2); [lia|].
  exists b2, i2. split; [|eapply after_trans; [|exact Hi2]; by split].
  rewrite Nat2Z.id. io_do Hdo1. cbv iota zeta. io_do Hdo2. cbv iota.
  rewrite bool_decide_false by (by intros []). cbn [andb]. by rewrite !Z.add_0_r, Z.add_0_l.
Qed.

(** C17: the answer to a pipe is stored as it was sent: for every number of operations
    that the array of the caller has room for and every lines that say how they went,
    [memcached_coll_response] gives the code of the line behind them, the code of each
    operation is at its place behind those that were there, in the order of the
    operations, the others are as before, exactly the answer is taken away from what
    comes in, and no response is awaited any more. *)
Theorem memcached_coll_response_pipe (processing_input : bool) (flush : io unit) (last_op_code : bytes)
    (answers : list (string * memcached_return_t)) (last : string * memcached_return_t)
    (buffer rest : bytes) (result : memcached_coll_result_st) (pipe : pipe_st) (i : instance) :
  connected i -> incoming i = pipe_text answers last ++ rest ->
  binary_protocol (flags (root i)) = false ->
  no_block (flags (root i)) && negb processing_input = false -> cursor_active (server i) = 1 ->
  Forall (fun t => In t pipe_lines) answers -> In last pipe_lines ->
  Z.of_nat (length answers) < 2 ^ 32 -> 0 <= pipe_responses_length pipe ->
  pipe_responses_length pipe + Z.of_nat (length answers) <= Z.of_nat (length (pipe_responses pipe)) ->
  (32 <= length buffer)%nat ->
  exists buffer' i',
    memcached_coll_response processing_input flush last_op_code buffer result pipe i
    = Done (last.2, buffer', result,
            {| pipe_responses := put_codes (pipe_responses pipe) (Z.to_nat (pipe_responses_length pipe))
                                   (map snd answers);
               pipe_responses_length := pipe_responses_length pipe + Z.of_nat (length answers) |}) i'
    /\ connected i' /\ incoming i' = rest /\ errors i' = errors i /\ cursor_active (server i') = 0.
Proof.
  intros Hc Hin Hbin Hblock Hcur Hall Hlast Hn Hpos Hroom Hbuf.
  set (line := str "RESPONSE" ++ numbers_text [Z.of_nat (length answers)]).
  assert (Hlen : (length line <= 19)%nat).
  { unfold line, numbers_text. cbn [map concat]. rewrite app_nil_r, length_app. cbn [length].
    pose proof (print_u32_length (Z.of_nat (length answers))). change (length (str "RESPONSE")) with 8%nat. lia. }
  set (i1 := i <| server ::= fun s => s <| cursor_active ::= fun n => n ⊟ 1 |> |>).
  destruct (read_coll_line last_op_code buffer result pipe (line ++ [Byte.x0d])
              (concat (map pipe_line_text answers) ++ pipe_line_text last ++ rest) i1 Hc)
    as (j & Hread & Hcj & Hinj & Huj).
  { change (incoming i1) with (incoming i). rewrite Hin. unfold pipe_text, line. by rewrite <- !app_assoc. }
  { unfold line. rewrite !not_elem_of_app. split_and!; try by apply (bool_decide_unpack (Byte.x0a ∉ _)).
    apply numbers_not_lf. by constructor; [lia|constructor]. }
  { rewrite length_app. cbn [length]. lia. }
  rewrite <- app_assoc in Hread. cbn [app] in Hread.
  set (tail := Byte.x0a :: drop (length (line ++ [Byte.x0d]) + 1) buffer) in *.
  assert (Hlong : (32 <= length (line ++ Byte.x0d :: tail))%nat).
  { unfold tail. rewrite !length_app. cbn [length]. rewrite length_drop. lia. }
  destruct (piped_response_reads answers last rest (line ++ Byte.x0d :: tail) tail pipe j)
    as (b & i' & Hfetch & Hc' & Hin' & Hu'); try done.
  exists b, i'. split; [|split_and!; [done|done|..]].
  - unfold memcached_coll_response, write_first. rewrite io_bind_assoc. io_pure. rewrite Hblock.
    io_pure. io_pure. rewrite Hbin. io_pure. cbn [coll_response_loop]. io_pure. rewrite Hcur. cbn.
    destruct last as [text rc]. destruct (pipe_line_facts text rc Hlast) as (_ & _ & Hstep & _).
    apply one_coll_response; [done|done|]. fold i1. rewrite Hread.
    unfold textual_coll_response. cbv zeta.
    assert ((line ++ Byte.x0d :: tail) !! 0%nat = Some "R"%byte) as -> by reflexivity.
    cbn [checked]. io_pure. cbv iota. rewrite first_match_long.
    + exact (io_bind_done (fun '(rc, b, p) => mret (rc, b, result, p)) _ _ _ _ Hfetch).
    + clear -Hlong. repeat (constructor; [etransitivity; [|exact Hlong]; cbn; lia|]). constructor.
  - destruct Hu' as (_ & B' & _). destruct Huj as (_ & B & _). rewrite B', B. done.
  - destruct Hu' as (_ & _ & _ & _ & _ & _ & _ & I' & _). destruct Huj as (_ & _ & _ & _ & _ & _ & _ & I & _).
    rewrite I', I. change (cursor_active (server i) ⊟ 1 = 0). rewrite Hcur. reflexivity.
Qed.
End Pipes.

(** ** Concrete answers *)

#[local] Existing Instance some_environment.

(** Memory for a million bytes. *)
#[refine] Instance example_calloc : Calloc :=
  {| calloc n size := if (0 <=? n * size) && (n * size <? 2 ^ 20)
                      then Some (replicate (Z.to_nat (n * size)) Byte.x00) else None |}.
Proof. intros n size b. destruct (_ && _); [|done]. by intros [= <-]. Defined.

Definition empty_coll_result (type : memcached_coll_type_t) : memcached_coll_result_st :=
  {| coll_key := replicate (Z.to_nat MEMCACHED_MAX_KEY) Byte.x00; coll_key_length := 0;
     coll_type := type; collection_flags := 0; collection_count := 0; btree_position := 0;
     result_position := 0; coll_expiration := 0; sub_key_type := MEMCACHED_COLL_QUERY_UNKNOWN;
     sub_keys := None; eflags := None; values := None; coll_is_allocated := false;
     coll_is_initialized := true |}.

Definition no_pipe : pipe_st := {| pipe_responses := []; pipe_responses_length := 0 |}.

(** A connection that awaits the response [s]. *)
Definition asked (s : bytes) : instance :=
  (answered false s) <| server ::= fun s => s <| cursor_active := 1 |> |>.

Definition command_buffer : bytes := replicate 512 Byte.x00.

(** Two elements of a tree, around a position. *)
Definition two_elements : list element :=
  [{| element_key_of := Bkey_ext [Byte.x0a; Byte.xff]; element_eflag := Some [Byte.x01];
      element_value := str "ab" |};
   {| element_key_of := Bkey_ext [Byte.x0b]; element_eflag := None; element_value := [] |}].

Lemma memcached_coll_response_elements_witness :
  exists buffer' result' i',
    memcached_coll_response false (mret tt) (coll_op_string BOP_PWG_OP) command_buffer
      (empty_coll_result COLL_BTREE) no_pipe (asked (coll_text (Head_pwg 7 1) 9 two_elements ++ str "END"))
    = Done (MEMCACHED_SUCCESS, buffer', result', no_pipe) i'
    /\ answer_read (Head_pwg 7 1) 9 two_elements (empty_coll_result COLL_BTREE) result'
    /\ connected i' /\ incoming i' = str "END"
    /\ undisturbed (asked (coll_text (Head_pwg 7 1) 9 two_elements ++ str "END")) i'.
Proof.
  refine (memcached_coll_response_elements false (mret tt) BOP_PWG_OP (Head_pwg 7 1) 9 two_elements
            MEMCACHED_COLL_QUERY_BOP_EXT command_buffer (str "END") (empty_coll_result COLL_BTREE) no_pipe
            (asked (coll_text (Head_pwg 7 1) 9 two_elements ++ str "END"))
            _ _ _ _ _ _ _ _ _ _ _ _ _ _ _ _ _).
  - apply answered_connected.
  - vm_compute. reflexivity.
  - reflexivity.
  - reflexivity.
  - reflexivity.
  - left. reflexivity.
  - vm_compute. by repeat split.
  - exact I.
  - lia.
  - vm_compute. by split.
  - vm_compute. reflexivity.
  - vm_compute. lia.
  - split; vm_compute; reflexivity.
  - vm_compute. by repeat split.
  - right. reflexivity.
  - repeat constructor; cbn; lia.
  - repeat constructor; vm_compute; discriminate.
Defined.

Definition three_answers : pipe_st :=
  {| pipe_responses := [MEMCACHED_FAILURE; MEMCACHED_FAILURE; MEMCACHED_FAILURE];
     pipe_responses_length := 1 |}.
Definition two_answers : list (string * memcached_return_t) :=
  [("STORED", MEMCACHED_STORED); ("NOT_FOUND", MEMCACHED_NOTFOUND)]%string.

Lemma memcached_coll_response_pipe_witness :
  exists buffer' i',
    memcached_coll_response false (mret tt) (coll_op_string LOP_INSERT_OP) command_buffer
      (empty_coll_result COLL_LIST) three_answers
      (asked (pipe_text two_answers ("END"%string, MEMCACHED_END) ++ str "OK"))
    = Done (MEMCACHED_END, buffer', empty_coll_result COLL_LIST,
            {| pipe_responses := [MEMCACHED_FAILURE; MEMCACHED_STORED; MEMCACHED_NOTFOUND];
               pipe_responses_length := 3 |}) i'
    /\ connected i' /\ incoming i' = str "OK"
    /\ errors i' = {| root_errors := []; server_errors := [] |} /\ cursor_active (server i') = 0.
Proof.
  refine (memcached_coll_response_pipe false (mret tt) (coll_op_string LOP_INSERT_OP) two_answers
            ("END"%string, MEMCACHED_END) command_buffer (str "OK") (empty_coll_result COLL_LIST)
            three_answers (asked (pipe_text two_answers ("END"%string, MEMCACHED_END) ++ str "OK"))
            _ _ _ _ _ _ _ _ _ _ _).
  - apply answered_connected.
  - vm_compute. reflexivity.
  - reflexivity.
  - reflexivity.
  - reflexivity.
  - repeat (constructor; [vm_compute; tauto|]). constructor.
  - vm_compute. tauto.
  - cbn. lia.
  - cbn. lia.
  - cbn. lia.
  - vm_compute. lia.
Defined.

(** ** What modelling showed *)

(** Of a switch in a pipe only a line without the new master is told: one with it is
    compared in all of its length. *)
Lemma pipe_switchover_with_peer :
  (exists i, get_status_of_coll_pipe_response (str "SWITCHOVER" ++ crlf ++ command_buffer) 10 (asked [])
             = Done MEMCACHED_SWITCHOVER i)
  /\ get_status_of_coll_pipe_response (str "SWITCHOVER 10.0.0.1:11211" ++ crlf ++ command_buffer) 25 (asked [])
     = Done MEMCACHED_UNDEFINED_RESPONSE (asked []).
Proof. split; [eexists|]; by vm_compute. Qed.

(** An answer for many keys that was trimmed is told with success, and the length of its
    key counts the NUL. *)
Lemma trimmed_mget_succeeds :
  match memcached_coll_response false (mret tt) (coll_op_string BOP_MGET_OP) command_buffer
          (empty_coll_result COLL_BTREE) no_pipe
          (asked (str "VALUE k TRIMMED 0 1" ++ crlf ++ str "ELEMENT 7 1 a" ++ crlf)) with
  | Done (rc, _, r, _) _ => rc = MEMCACHED_SUCCESS /\ memcached_coll_result_get_key_length r = 2
  | _ => False
  end.
Proof. by vm_compute. Qed.

(** A second answer is read into the arrays of the first one, whatever their size. *)
Lemma arrays_too_small :
  let s := str "VALUE 0 1" ++ crlf ++ str "1 a" ++ crlf ++ str "VALUE 0 2" ++ crlf
           ++ str "1 a" ++ crlf ++ str "1 b" ++ crlf in
  memcached_coll_response false (mret tt) (coll_op_string LOP_GET_OP) command_buffer
    (empty_coll_result COLL_LIST) no_pipe ((asked s) <| server ::= fun s => s <| cursor_active := 2 |> |>) = Crash.
Proof. by vm_compute. Qed.
