(* ===== verification/Smget.v ===== *)
(** Sort-merge gets: the responses of the servers (the end of response.cc) and the
    merge of their results (fetch.cc).

    The conventions are those of Response and CollResponse. *)
From Stdlib Require Import Strings.Byte Sorting.Sorted.
From S2P Require Import Prelude HashFunctions Hashkit Memcached Text KeyHash ServerList.
From S2P Require Import Error StringBuf Io Result Response Hexadecimal Collection CollResult CollResponse.
From S2P Require Continuum.

(** The arrays are written at an index; [None] is a write outside of them. *)
Definition set_at {A} (a : option (list A)) (i : nat) (x : A) : option (option (list A)) :=
  a ← a;
  if (i <? length a)%nat then Some (Some (<[i := x]> a)) else None.

(** ** Responses *)

Section Reading.
Context `{Environment} `{Allocator} `{Calloc}.

(** A word and its NUL in the string of an element, unless there is no memory. *)
Definition store_word (v : memcached_string_st) (word : bytes) : option memcached_string_st :=
  v ← memcached_string_create (Some v) false (Z.of_nat (length word) + 1);
  block ← string_block v;
  block ← memcpy_to block 0 (c_string word);
  Some (memcached_string_set_length (v <| string_block := Some block |>) (length word + 1)).

(** The string [i] of an array gets a word. *)
Definition store_word_at (a : option (list memcached_string_st)) (i : nat) (word : bytes)
    : io (option (option (list memcached_string_st))) :=
  old ← checked (a ≫= fun a => a !! i);
  match store_word old word with
  | None => mret None
  | Some v => a ← checked (set_at a i v); mret (Some a)
  end.

Notation smget_answer := (option memcached_return_t * memcached_coll_smget_result_st)%type.

Definition smget_max_key : nat := Z.to_nat MEMCACHED_MAX_KEY.

(** The bkey and the eflag of the element [i], and what was read where the eflag may be. *)
Definition smget_sub_key (i : nat) (result : memcached_coll_smget_result_st)
    (k : option bytes -> memcached_coll_smget_result_st -> io smget_answer) : io smget_answer :=
  with_header MAX_BYTE_STRING result (fun s =>
    old ← checked (smget_sub_keys result ≫= fun a => a !! i);
    '(key, type) ← checked (bkey_of_word s old);
    keys ← checked (set_at (smget_sub_keys result) i key);
    let result := result <| smget_sub_keys := keys |> <| smget_sub_key_type := type |> in
    with_header MAX_BYTE_STRING result (fun s =>
      if is_hex s then
        old ← checked (smget_eflags result ≫= fun a => a !! i);
        h ← checked (hex_of_word s old);
        flags ← checked (set_at (smget_eflags result) i h);
        k None (result <| smget_eflags := flags |>)
      else k (Some s) result)).

Definition smget_element (i : nat) (result : memcached_coll_smget_result_st) : io smget_answer :=
  with_header smget_max_key result (fun key =>
    keys ← store_word_at (smget_keys result) i key;
    match keys with
    | None => mret (Some MEMCACHED_MEMORY_ALLOCATION_FAILURE, result)
    | Some keys =>
        let result := result <| smget_keys := keys |> in
        with_header MAX_UINT32_STRING_LENGTH result (fun s =>
          '(n, _) ← checked (strtoull (c_string s));
          flags ← checked (set_at (smget_flags result) i (u32 n));
          let result := result <| smget_flags := flags |> in
          smget_sub_key i result (fun read result =>
            element_bytes read result (fun value_length =>
              sizes ← checked (set_at (smget_bytes result) i value_length);
              let result := result <| smget_bytes := sizes |> in
              old ← checked (smget_values result ≫= fun a => a !! i);
              '(rc, v) ← fetch_string old value_length 2231;
              strings ← checked (set_at (smget_values result) i v);
              let result := result <| smget_values := strings |> in
              mret (rc, match rc with
                        | Some _ => result
                        | None => result <| value_count ::= fun n => u64 (n + 1) |>
                        end))))
    end).

(** The loop over [count] parts of a response. *)
Fixpoint fetch_parts (part : nat -> memcached_coll_smget_result_st -> io smget_answer) (count i : nat)
    (result : memcached_coll_smget_result_st)
    : io (memcached_return_t * memcached_coll_smget_result_st) :=
  match count with
  | O => mret (MEMCACHED_SUCCESS, result)
  | S count =>
      '(rc, result) ← part i result;
      match rc with
      | Some rc => mret (rc, result)
      | None => fetch_parts part count (S i) result
      end
  end.

(** The arrays for the values, one after the other. *)
Definition allocate_values (n : Z) (r : memcached_coll_smget_result_st)
    : bool * memcached_coll_smget_result_st :=
  match allocate_array (smget_keys r) cleared_string n sizeof_memcached_string_st with
  | None => (false, r)
  | Some a =>
      let r := r <| smget_keys := Some a |> in
      match allocate_array (smget_values r) cleared_string n sizeof_memcached_string_st with
      | None => (false, r)
      | Some a =>
          let r := r <| smget_values := Some a |> in
          match allocate_array (smget_flags r) 0 n sizeof_uint32_t with
          | None => (false, r)
          | Some a =>
              let r := r <| smget_flags := Some a |> in
              match allocate_array (smget_sub_keys r) cleared_sub_key n sizeof_memcached_coll_sub_key_st with
              | None => (false, r)
              | Some a =>
                  let r := r <| smget_sub_keys := Some a |> in
                  match allocate_array (smget_eflags r) cleared_hexadecimal n sizeof_memcached_hexadecimal_st with
                  | None => (false, r)
                  | Some a =>
                      let r := r <| smget_eflags := Some a |> in
                      match allocate_array (smget_bytes r) 0 n sizeof_size_t with
                      | None => (false, r)
                      | Some a => (true, r <| smget_bytes := Some a |>)
                      end
                  end
              end
          end
      end
  end.

(** The number of a header line, and what is done with as many parts. *)
Definition fetch_counted (buffer : bytes) (header_length : nat) (result : memcached_coll_smget_result_st)
    (allocate : Z -> memcached_coll_smget_result_st -> bool * memcached_coll_smget_result_st)
    (part : nat -> memcached_coll_smget_result_st -> io smget_answer)
    : io (memcached_return_t * memcached_coll_smget_result_st) :=
  count ← checked (parse_response_header buffer header_length);
  match count with
  | None => mret (MEMCACHED_PARTIAL_READ, result)
  | Some count =>
      if count <? 1 then mret (MEMCACHED_SUCCESS, result)
      else
        let '(ok, result) := allocate count result in
        if ok : bool then fetch_parts part (Z.to_nat count) 0 result
        else mret (MEMCACHED_MEMORY_ALLOCATION_FAILURE, result)
  end.

Definition textual_coll_smget_value_fetch (buffer : bytes) (header_length : nat)
    (result : memcached_coll_smget_result_st) : io (memcached_return_t * memcached_coll_smget_result_st) :=
  fetch_counted buffer header_length result allocate_values smget_element.

Definition allocate_missed (n : Z) (r : memcached_coll_smget_result_st)
    : bool * memcached_coll_smget_result_st :=
  match allocate_array (missed_keys r) cleared_string n sizeof_memcached_string_st with
  | None => (false, r)
  | Some a =>
      let r := r <| missed_keys := Some a |> in
      match allocate_array (missed_causes r) MEMCACHED_SUCCESS n sizeof_memcached_return_t with
      | None => (false, r)
      | Some a => (true, r <| missed_causes := Some a |>)
      end
  end.

(** The cause of a word, which is in the memory where [key] was read before. *)
Definition missed_cause (key word : bytes) : option memcached_return_t :=
  let to_read_string := c_string word ++ drop (length word + 1) (c_string key) in
  c ← to_read_string !! 0%nat;
  if bool_decide (c = "N"%byte) then Some MEMCACHED_NOTFOUND
  else if bool_decide (c = "O"%byte) then Some MEMCACHED_OUT_OF_RANGE
  else if bool_decide (c = "U"%byte) then
    c ← to_read_string !! 2%nat;
    Some (if bool_decide (c = "R"%byte) then MEMCACHED_UNREADABLE else MEMCACHED_FAILURE)
  else Some MEMCACHED_FAILURE.

(** The string [i] is freed after an error. *)
Definition free_at (a : option (list memcached_string_st)) (i : nat)
    : option (option (list memcached_string_st)) :=
  v ← a ≫= fun a => a !! i;
  set_at a i (default v (memcached_string_free v)).

(** The code for a line that goes on. *)
Definition no_line_end (rc : memcached_return_t) : memcached_return_t :=
  if bool_decide (rc = MEMCACHED_SUCCESS) then MEMCACHED_PROTOCOL_ERROR else rc.

Definition missed_key (i : nat) (result : memcached_coll_smget_result_st) : io smget_answer :=
  let counted result := mret (None, result <| missed_key_count ::= fun n => u32 (n + 1) |>) in
  '(rc, key) ← fetch_value_header smget_max_key;
  if bool_decide (rc <> MEMCACHED_SUCCESS) && bool_decide (rc <> MEMCACHED_END) then mret (Some rc, result)
  else
    keys ← store_word_at (missed_keys result) i key;
    match keys with
    | None => mret (Some MEMCACHED_MEMORY_ALLOCATION_FAILURE, result)
    | Some keys =>
        let result := result <| missed_keys := keys |> in
        if bool_decide (rc = MEMCACHED_SUCCESS) then
          '(rc, word) ← fetch_value_header smget_max_key;
          if bool_decide (rc <> MEMCACHED_END) then
            keys ← checked (free_at (missed_keys result) i);
            mret (Some (no_line_end rc), result <| missed_keys := keys |>)
          else
            cause ← checked (missed_cause key word);
            causes ← checked (set_at (missed_causes result) i cause);
            counted (result <| missed_causes := causes |>)
        else counted result
    end.

Definition textual_coll_smget_missed_key_fetch (buffer : bytes) (result : memcached_coll_smget_result_st)
    : io (memcached_return_t * memcached_coll_smget_result_st) :=
  fetch_counted buffer 11 result allocate_missed missed_key.

Definition allocate_trimmed (n : Z) (r : memcached_coll_smget_result_st)
    : bool * memcached_coll_smget_result_st :=
  match allocate_array (trimmed_keys r) cleared_string n sizeof_memcached_string_st with
  | None => (false, r)
  | Some a =>
      let r := r <| trimmed_keys := Some a |> in
      match allocate_array (trimmed_sub_keys r) cleared_sub_key n sizeof_memcached_coll_sub_key_st with
      | None => (false, r)
      | Some a => (true, r <| trimmed_sub_keys := Some a |>)
      end
  end.

Definition trimmed_key (i : nat) (result : memcached_coll_smget_result_st) : io smget_answer :=
  let free rc result :=
    keys ← checked (free_at (trimmed_keys result) i);
    mret (Some rc, result <| trimmed_keys := keys |>) in
  with_header smget_max_key result (fun key =>
    keys ← store_word_at (trimmed_keys result) i key;
    match keys with
    | None => mret (Some MEMCACHED_MEMORY_ALLOCATION_FAILURE, result)
    | Some keys =>
        let result := result <| trimmed_keys := keys |> in
        '(rc, s) ← fetch_value_header MAX_BYTE_STRING;
        if bool_decide (rc <> MEMCACHED_END) then free (no_line_end rc) result
        else
          old ← checked (trimmed_sub_keys result ≫= fun a => a !! i);
          '(bkey, type) ← checked (bkey_of_word s old);
          bkeys ← checked (set_at (trimmed_sub_keys result) i bkey);
          let result := result <| trimmed_sub_keys := bkeys |> in
          if bool_decide (smget_sub_key_type result <> type) then free MEMCACHED_PROTOCOL_ERROR result
          else mret (None, result <| trimmed_key_count ::= fun n => u32 (n + 1) |>)
    end).

(** The length that is given of the header is the one of [MISSED_KEYS]; the space is
    skipped with the number. *)
Definition textual_coll_smget_trimmed_key_fetch (buffer : bytes) (result : memcached_coll_smget_result_st)
    : io (memcached_return_t * memcached_coll_smget_result_st) :=
  fetch_counted buffer 11 result allocate_trimmed trimmed_key.

(** What reading a response gives: the code, the buffer and the result. *)
Definition smget_response : Type := memcached_return_t * bytes * memcached_coll_smget_result_st.

(** What [textual_read_one_coll_smget_response] does with a line. *)
Definition textual_smget_response (buffer : bytes) (result : memcached_coll_smget_result_st)
    : io smget_response :=
  let give rc : io smget_response := mret (rc, buffer, result) in
  let undefined := give MEMCACHED_UNDEFINED_RESPONSE in
  let report name rc line := rc ← set_server_text (str name) rc line buffer; give rc in
  let fetch (m : io (memcached_return_t * memcached_coll_smget_result_st)) : io smget_response :=
    _ ← memcached_server_response_increment;
    '(rc, result) ← m;
    mret (rc, buffer, result) in
  let codes cases := first_match buffer (map (fun c => (c.1, give c.2)) cases) undefined in
  c ← checked (buffer !! 0%nat);
  match c with
  | "A"%byte => codes [("ATTR_MISMATCH"%string, MEMCACHED_ATTR_MISMATCH)]
  | "B"%byte => codes [("BKEY_MISMATCH"%string, MEMCACHED_BKEY_MISMATCH)]
  | "V"%byte =>
      first_match buffer [("VALUE"%string, fetch (textual_coll_smget_value_fetch buffer 5 result))] undefined
  | "M"%byte =>
      first_match buffer
        [("MISSED_KEYS"%string, fetch (textual_coll_smget_missed_key_fetch buffer result))] undefined
  | "E"%byte =>
      first_match buffer
        [("END"%string, give MEMCACHED_END);
         ("ELEMENTS"%string, fetch (textual_coll_smget_value_fetch buffer 8 result));
         ("ERROR"%string, report "ERROR"%string MEMCACHED_PROTOCOL_ERROR 2534)] undefined
  | "O"%byte => codes [("OUT_OF_RANGE"%string, MEMCACHED_OUT_OF_RANGE)]
  | "D"%byte => codes [("DUPLICATED"%string, MEMCACHED_DUPLICATED)]
  | "T"%byte =>
      first_match buffer
        [("TRIMMED_KEYS"%string, fetch (textual_coll_smget_trimmed_key_fetch buffer result));
         ("TYPE_MISMATCH"%string, give MEMCACHED_TYPE_MISMATCH)] undefined
  | "N"%byte =>
      codes [("NOT_FOUND_ELEMENT", MEMCACHED_NOTFOUND_ELEMENT); ("NOT_FOUND", MEMCACHED_NOTFOUND);
             ("NOT_STORED", MEMCACHED_NOTSTORED); ("NOT_SUPPORTED", MEMCACHED_NOT_SUPPORTED);
             ("NOT_EXIST", MEMCACHED_NOT_EXIST)]%string
  | "U"%byte => codes [("UNREADABLE"%string, MEMCACHED_UNREADABLE)]
  | "I"%byte =>
      first_match buffer
        [("ITEM"%string, _ ← memcached_server_response_increment; give MEMCACHED_ITEM);
         ("INVALID"%string, report "INVALID"%string MEMCACHED_INVALID_COMMAND 2601)] undefined
  | "C"%byte =>
      first_match buffer
        [("CLIENT_ERROR"%string, report "CLIENT_ERROR"%string MEMCACHED_CLIENT_ERROR 2619)] undefined
  | "S"%byte =>
      first_match buffer
        [("SERVER_ERROR"%string, report "SERVER_ERROR"%string MEMCACHED_SERVER_ERROR 2637)] undefined
  | _ =>
      (* sscanf(buffer, %llu) *)
      '(_, digits, _) ← checked (scan_number buffer);
      match digits with
      | [] => undefined
      | _ :: _ => give MEMCACHED_SUCCESS
      end
  end.

Definition textual_read_one_coll_smget_response (buffer : bytes) (result : memcached_coll_smget_result_st)
    : io smget_response :=
  '(rc, line) ← memcached_io_readline (length buffer);
  let buffer := store buffer 0 line in
  if bool_decide (rc <> MEMCACHED_SUCCESS) then mret (rc, buffer, result)
  else textual_smget_response buffer result.

(** [result] is the one of the handle where the caller gives none. *)
Definition memcached_read_one_coll_smget_response (buffer : bytes) (result : memcached_coll_smget_result_st)
    : io smget_response :=
  _ ← memcached_server_response_decrement;
  root ← gets root;
  if binary_protocol (flags root) then mret (MEMCACHED_INVALID_ARGUMENTS, buffer, result)
  else
    '(rc, buffer, result) ← textual_read_one_coll_smget_response buffer result;
    _ ← reset_out_of_step rc;
    mret (rc, buffer, result).

(** The codes after which [memcached_coll_smget_response] reads on. *)
Definition smget_reads_on (rc : memcached_return_t) : bool :=
  match rc with
  | MEMCACHED_END | MEMCACHED_SUCCESS | MEMCACHED_TYPE_MISMATCH | MEMCACHED_DUPLICATED
  | MEMCACHED_ATTR_MISMATCH | MEMCACHED_BKEY_MISMATCH | MEMCACHED_OUT_OF_RANGE | MEMCACHED_NOTFOUND
  | MEMCACHED_INVALID_COMMAND => true
  | _ => false
  end.

(** Every round takes a byte at least. *)
Fixpoint smget_response_loop (fuel : nat) (buffer : bytes) (result : memcached_coll_smget_result_st)
    : io smget_response :=
  count ← gets (fun i => cursor_active (server i));
  if negb (1 <? count) then memcached_read_one_coll_smget_response buffer result
  else
    match fuel with
    | O => blocked
    | S fuel =>
        '(rc, buffer, result) ← memcached_read_one_coll_smget_response buffer result;
        if smget_reads_on rc then smget_response_loop fuel buffer result
        else mret (rc, buffer, result)
    end.

(** [processing_input] and [flush] are as in [memcached_response]. *)
Definition memcached_coll_smget_response (processing_input : bool) (flush : io unit) (buffer : bytes)
    (result : memcached_coll_smget_result_st) : io smget_response :=
  _ ← write_first processing_input flush;
  root ← gets root;
  if binary_protocol (flags root) then mret (MEMCACHED_INVALID_ARGUMENTS, buffer, result)
  else
    n ← gets pending;
    smget_response_loop (S n) buffer result.
End Reading.

(** ** The merge *)

(** The order of two bkeys, as the code compares them. *)
Definition compare_sub_keys (byte_array : bool) (a b : memcached_coll_sub_key_st) : option Z :=
  if byte_array then
    a ← sub_bkey_ext_of a; b ← sub_bkey_ext_of b;
    memcached_compare_two_hexadecimal (Some a) (Some b)
  else
    a ← sub_bkey_of a; b ← sub_bkey_of b;
    Some (if a =? b then 0 else if a <? b then -1 else 1).

(** The key of the element at [x]; a string that was freed is not read. *)
Definition key_at (r : memcached_coll_smget_result_st) (x : Z) : option bytes :=
  v ← at_index (smget_keys r) x;
  if string_is_initialized v then block ← string_block v; cstring block else None.

(** The results of the servers, and how far each was merged ([result_idx]). *)
Record merging := {
  parts : list memcached_coll_smget_result_st;
  positions : list Z;
}.

#[export] Instance merging_fields : Fields merging := fun m =>
  {| parts := parts m; positions := positions m |}.

Definition part_at (m : merging) (j : nat) : option (memcached_coll_smget_result_st * Z) :=
  r ← parts m !! j; x ← positions m !! j; Some (r, x).

(** The comparison of the parts [s] and [j] by the bkeys that [bkeys] gives, and by the
    keys where they are the same. *)
Definition compare_parts (byte_array : bool)
    (bkeys : memcached_coll_smget_result_st -> option (list memcached_coll_sub_key_st))
    (m : merging) (s j : nat) : option Z :=
  '(rs, xs) ← part_at m s;
  '(rj, xj) ← part_at m j;
  a ← at_index (bkeys rs) xs;
  b ← at_index (bkeys rj) xj;
  c ← compare_sub_keys byte_array a b;
  if c =? 0 then
    a ← key_at rs xs; b ← key_at rj xj;
    Some (sign (strcmp a b))
  else Some c.

(** The loop over the parts that looks for the smallest one, or the greatest. *)
Fixpoint smallest_part (has_more : nat -> option bool) (compare : nat -> nat -> option Z)
    (descending : bool) (js : list nat) (smallest : option nat) : option (option nat) :=
  match js with
  | [] => Some smallest
  | j :: js =>
      more ← has_more j;
      if negb more then smallest_part has_more compare descending js smallest
      else
        match smallest with
        | None => smallest_part has_more compare descending js (Some j)
        | Some s =>
            c ← compare s j;
            smallest_part has_more compare descending js
              (Some (if (if descending then c <? 0 else c >? 0) : bool then j else s))
        end
  end.

(** The variables of the first loop: the bkey that was looked at last, with whether its
    array was freed, and the code. *)
Record merge_st := {
  merge_from : merging;
  prev_sub_key : option (memcached_coll_sub_key_st * bool);
  merged_count : Z;
  found_count : Z;
  merge_rc : memcached_return_t;
  merged : memcached_coll_smget_result_st;
}.

#[export] Instance merge_fields : Fields merge_st := fun m =>
  {| merge_from := merge_from m; prev_sub_key := prev_sub_key m; merged_count := merged_count m;
     found_count := found_count m; merge_rc := merge_rc m; merged := merged m |}.

(** The part that is next. *)
Definition next_part (byte_array : bool) (st : merge_st) : option nat :=
  let m := merge_from st in
  s ← smallest_part (fun j => '(r, x) ← part_at m j; Some (x <? value_count r))
        (compare_parts byte_array smget_sub_keys m) (is_descending (merged st))
        (seq 0 (length (parts m))) None;
  s.

Definition advance_part (j : nat) (m : merging) : merging :=
  m <| positions ::= alter (fun x => u64 (x + 1)) j |>.

(** The element [x] of a part is put at the end of the merged ones. *)
Definition merge_element (byte_array : bool) (curr : memcached_coll_sub_key_st)
    (r : memcached_coll_smget_result_st) (x : Z) (st : merge_st) : option merge_st :=
  let i := Z.to_nat (merged_count st) in
  let m := merged st in
  bkey ← (if byte_array then sub_bkey_ext <$> sub_bkey_ext_of curr else sub_bkey <$> sub_bkey_of curr);
  sub_keys ← set_at (smget_sub_keys m) i bkey;
  key ← at_index (smget_keys r) x; keys ← set_at (smget_keys m) i key;
  value ← at_index (smget_values r) x; values ← set_at (smget_values m) i value;
  flag ← at_index (smget_flags r) x; flags ← set_at (smget_flags m) i flag;
  eflag ← at_index (smget_eflags r) x; eflags ← set_at (smget_eflags m) i eflag;
  size ← at_index (smget_bytes r) x; sizes ← set_at (smget_bytes m) i size;
  Some (st <| merged := m <| smget_sub_keys := sub_keys |> <| smget_keys := keys |>
                          <| smget_values := values |> <| smget_flags := flags |>
                          <| smget_eflags := eflags |> <| smget_bytes := sizes |> |>
           <| merged_count ::= fun n => n + 1 |>).

Definition free_string (v : memcached_string_st) : memcached_string_st :=
  default v (memcached_string_free v).

(** The element [x] of a part is freed. *)
Definition free_element (x : Z) (r : memcached_coll_smget_result_st)
    : option memcached_coll_smget_result_st :=
  key ← at_index (smget_keys r) x; keys ← set_at (smget_keys r) (Z.to_nat x) (free_string key);
  value ← at_index (smget_values r) x; values ← set_at (smget_values r) (Z.to_nat x) (free_string value);
  _ ← at_index (smget_eflags r) x;
  Some (r <| smget_keys := keys |> <| smget_values := values |>).

(** One round of the first loop: what it leaves, and whether it was the last. *)
Definition merge_step (byte_array : bool) (st : merge_st) : option (merge_st * bool) :=
  j ← next_part byte_array st;
  '(r, x) ← part_at (merge_from st) j;
  curr ← at_index (smget_sub_keys r) x;
  duplicated ← match prev_sub_key st with
               | None => Some false
               | Some (prev, freed) =>
                   if byte_array && freed then None
                   else c ← compare_sub_keys byte_array prev curr; Some (c =? 0)
               end;
  let st := st <| prev_sub_key := Some (curr, false) |> in
  if (duplicated : bool) && bool_decide (smget_smgmode (merged st) = MEMCACHED_COLL_SMGET_UNIQUE)
  then Some (st <| merge_from ::= advance_part j |>, false)
  else
    let m := merged st in
    st ←
      (if (smget_offset m <=? found_count st) && (found_count st <? u64 (smget_offset m + smget_count m))
       then
         let st := if (merged_count st >? 0) && duplicated && bool_decide (merge_rc st = MEMCACHED_END)
                   then st <| merge_rc := MEMCACHED_DUPLICATED |> else st in
         merge_element byte_array curr r x st
       else
         r ← free_element x r;
         Some (st <| merge_from ::= (fun m => m <| parts ::= <[j := r]> |>) |>
                  <| prev_sub_key := Some (curr, byte_array) |>));
    let st := st <| found_count ::= (fun n => n + 1) |> <| merge_from ::= advance_part j |> in
    Some (st, smget_count (merged st) <=? merged_count st).

Fixpoint merge_loop (n : nat) (byte_array : bool) (st : merge_st) : option merge_st :=
  match n with
  | O => Some st
  | S n =>
      '(st, stop) ← merge_step byte_array st;
      if stop : bool then Some st else merge_loop n byte_array st
  end.

(** The rest of a part is freed, and it has no values any more. *)
Definition free_rest (r : memcached_coll_smget_result_st) (x : Z) : option memcached_coll_smget_result_st :=
  r ← foldr (fun y r => r ← r; free_element y r) (Some r)
        (rev (map Z.of_nat (seq (Z.to_nat x) (Z.to_nat (value_count r - x)))));
  Some (r <| value_count := 0 |>).

(** The missed keys of a part behind those that were merged, of which there are [i]. *)
Fixpoint merge_missed_loop (n : nat) (x i : Z) (r m : memcached_coll_smget_result_st)
    : option memcached_coll_smget_result_st :=
  match n with
  | O => Some m
  | S n =>
      key ← at_index (missed_keys r) x; keys ← set_at (missed_keys m) (Z.to_nat i) key;
      cause ← at_index (missed_causes r) x; causes ← set_at (missed_causes m) (Z.to_nat i) cause;
      merge_missed_loop n (x + 1) (i + 1) r (m <| missed_keys := keys |> <| missed_causes := causes |>)
  end.

Fixpoint merge_missed (parts : list memcached_coll_smget_result_st) (i : Z)
    (m : memcached_coll_smget_result_st) : option memcached_coll_smget_result_st :=
  match parts with
  | [] => Some m
  | r :: parts =>
      m ← merge_missed_loop (Z.to_nat (missed_key_count r)) 0 i r m;
      merge_missed parts (i + missed_key_count r) m
  end.

(** One round of the loop over the trimmed keys, of which [n] were merged; the keys of
    elements that were found are compared where the bkeys are the same. *)
Definition trimmed_step (byte_array : bool) (m : merging) (n : Z) (into : memcached_coll_smget_result_st)
    : option (merging * Z * memcached_coll_smget_result_st) :=
  j ← smallest_part (fun j => '(r, _) ← part_at m j; Some (negb (trimmed_key_count r =? 0)))
        (compare_parts byte_array trimmed_sub_keys m) (is_descending into)
        (seq 0 (length (parts m))) None;
  j ← j;
  '(r, x) ← part_at m j;
  should_merge ←
    (if value_count into <? smget_count into then
       prev ← at_index (smget_sub_keys into) (value_count into - 1);
       curr ← at_index (trimmed_sub_keys r) x;
       c ← compare_sub_keys byte_array prev curr;
       Some (c <=? 0)
     else Some false);
  '(n, into) ←
    (if should_merge : bool then
       curr ← at_index (trimmed_sub_keys r) x;
       bkey ← (if byte_array then sub_bkey_ext <$> sub_bkey_ext_of curr else sub_bkey <$> sub_bkey_of curr);
       bkeys ← set_at (trimmed_sub_keys into) (Z.to_nat n) bkey;
       key ← at_index (trimmed_keys r) x; keys ← set_at (trimmed_keys into) (Z.to_nat n) key;
       Some (n + 1, into <| trimmed_sub_keys := bkeys |> <| trimmed_keys := keys |>)
     else _ ← at_index (trimmed_keys r) x; Some (n, into));
  let m := advance_part j m in
  x ← positions m !! j;
  let m := if trimmed_key_count r <=? x
           then m <| parts ::= <[j := r <| trimmed_key_count := 0 |>]> |> else m in
  Some (m, n, into).

Fixpoint trimmed_loop (k : nat) (byte_array : bool) (m : merging) (n : Z)
    (into : memcached_coll_smget_result_st)
    : option (merging * Z * memcached_coll_smget_result_st) :=
  match k with
  | O => Some (m, n, into)
  | S k =>
      '(m, n, into) ← trimmed_step byte_array m n into;
      trimmed_loop k byte_array m n into
  end.

(** The positions of the parts, for which there is room for 256 of them. *)
Definition first_positions (results : list memcached_coll_smget_result_st) : option (list Z) :=
  if (length results <=? 256)%nat then Some (replicate (length results) 0) else None.

(** [merge_smget_results]: the code, the results of the servers, which have nothing any
    more, and the merged one. *)
Definition merge_smget_results (results : list memcached_coll_smget_result_st)
    (into : memcached_coll_smget_result_st)
    : option (memcached_return_t * list memcached_coll_smget_result_st * memcached_coll_smget_result_st) :=
  let byte_array := byte_array_keys (smget_sub_key_type into) in
  start ← first_positions results;
  st ← merge_loop (Z.to_nat (value_count into)) byte_array
         {| merge_from := {| parts := results; positions := start |}; prev_sub_key := None;
            merged_count := 0; found_count := 0; merge_rc := MEMCACHED_END; merged := into |};
  results ← mapM (fun p => free_rest p.1 p.2) (zip (parts (merge_from st)) (positions (merge_from st)));
  let into := (merged st) <| value_count := merged_count st |> in
  into ← merge_missed results 0 into;
  let results := map (fun r => r <| missed_key_count := 0 |>) results in
  '(m, n, into) ← trimmed_loop (Z.to_nat (trimmed_key_count into)) byte_array
                    {| parts := results; positions := start |} 0 into;
  Some (merge_rc st, parts m, into <| trimmed_key_count := n |>).

(** ** What the merge does *)

(** An element: its key, its bkey, and what belongs to it. *)
Record smget_element_of := {
  item_key_string : memcached_string_st;
  item_bkey : memcached_coll_sub_key_st;
  item_value_string : memcached_string_st;
  item_flags_of : Z;
  item_eflag_of : memcached_hexadecimal_st;
  item_size : Z;
}.

(** The element [x] of a result. *)
Definition element_here (r : memcached_coll_smget_result_st) (x : Z) (e : smget_element_of) : Prop :=
  at_index (smget_keys r) x = Some (item_key_string e)
  /\ at_index (smget_sub_keys r) x = Some (item_bkey e)
  /\ at_index (smget_values r) x = Some (item_value_string e)
  /\ at_index (smget_flags r) x = Some (item_flags_of e)
  /\ at_index (smget_eflags r) x = Some (item_eflag_of e)
  /\ at_index (smget_bytes r) x = Some (item_size e).

Definition elements_from (r : memcached_coll_smget_result_st) (x : Z) (es : list smget_element_of) : Prop :=
  forall y e, es !! y = Some e -> element_here r (x + Z.of_nat y) e.

(** The text of a key. *)
Definition key_text (e : smget_element_of) : bytes :=
  default [] (string_block (item_key_string e) ≫= cstring).
Definition key_readable (e : smget_element_of) : Prop :=
  string_is_initialized (item_key_string e) = true
  /\ string_block (item_key_string e) ≫= cstring <> None.

(** The order of bkeys: numbers, or byte arrays. *)
Definition array_of (s : memcached_coll_sub_key_st) : bytes :=
  match s with
  | sub_bkey_ext h => take (Z.to_nat (array_length h)) (memory h)
  | _ => []
  end.
Definition bkey_order (byte_array : bool) (a b : memcached_coll_sub_key_st) : comparison :=
  if byte_array then lex (array_of a) (array_of b)
  else default 0 (sub_bkey_of a) ?= default 0 (sub_bkey_of b).

Definition bkey_kind (byte_array : bool) (s : memcached_coll_sub_key_st) : Prop :=
  if byte_array then exists h a, s = sub_bkey_ext h /\ holds h a
  else exists n, s = sub_bkey n.

(** The order of elements: by their bkeys and then by their keys. *)
Definition element_order (byte_array : bool) (a b : smget_element_of) : comparison :=
  match bkey_order byte_array (item_bkey a) (item_bkey b) with
  | Eq => strcmp (key_text a) (key_text b)
  | c => c
  end.

Definition before (byte_array descending : bool) (a b : smget_element_of) : Prop :=
  if descending then element_order byte_array a b <> Lt else element_order byte_array a b <> Gt.

Definition same_bkey (byte_array : bool) (a b : smget_element_of) : bool :=
  bool_decide (bkey_order byte_array (item_bkey a) (item_bkey b) = Eq).

(** Elements whose bkey is that of the one in front of them are left out. *)
Fixpoint unique_bkeys (byte_array : bool) (prev : option smget_element_of) (es : list smget_element_of)
    : list smget_element_of :=
  match es with
  | [] => []
  | e :: es =>
      let rest := unique_bkeys byte_array (Some e) es in
      match prev with
      | Some p => if same_bkey byte_array p e then rest else e :: rest
      | None => e :: rest
      end
  end.

(** Whether an element has the bkey of the one in front of it. *)
Fixpoint has_duplicate (byte_array : bool) (es : list smget_element_of) : bool :=
  match es with
  | a :: (b :: _) as rest => same_bkey byte_array a b || has_duplicate byte_array rest
  | _ => false
  end.

(** The elements in the range that was asked for. *)
Definition in_range (offset count : Z) (es : list smget_element_of) : list smget_element_of :=
  take (Z.to_nat count) (drop (Z.to_nat offset) es).

(** ** The order *)

(** What makes a comparison an order. *)
Record order_laws {A} (c : A -> A -> comparison) : Prop := {
  order_opp : forall a b, c b a = CompOpp (c a b);
  order_trans : forall x y z, c x y <> Gt -> c y z <> Gt -> c x z <> Gt;
}.

Lemma order_by {A B} (c : B -> B -> comparison) (f : A -> B) :
  order_laws c -> order_laws (fun a b => c (f a) (f b)).
Proof. intros [Hopp Htrans]. by split; [|intros x y z; apply Htrans]. Qed.

Lemma order_eq_l {A} (c : A -> A -> comparison) x y z :
  order_laws c -> c x y = Eq -> c x z = c y z.
Proof.
  intros [Hopp Htrans] E.
  pose proof (Hopp x y) as E'. rewrite E in E'. cbn in E'.
  pose proof (Htrans x y z ltac:(congruence)) as H1. pose proof (Htrans y x z ltac:(congruence)) as H2.
  pose proof (Htrans z x y) as H3. pose proof (Htrans z y x) as H4.
  rewrite (Hopp x z), (Hopp y z) in H3, H4. rewrite E, E' in *.
  destruct (c x z), (c y z); cbn in *; try done; exfalso;
    first [by apply H1 | by apply H2 | by apply H3 | by apply H4].
Qed.

Lemma order_then {A} (c d : A -> A -> comparison) :
  order_laws c -> order_laws d -> order_laws (fun a b => match c a b with Eq => d a b | x => x end).
Proof.
  intros Hc Hd. split.
  - intros a b. rewrite (order_opp _ Hc a b). destruct (c a b); cbn; [apply Hd|done..].
  - intros x y z. destruct (c x y) eqn:E1.
    + rewrite (order_eq_l c x y z Hc E1). destruct (c y z); [|done..]. apply Hd.
    + intros _. destruct (c y z) eqn:E2; [|..|done].
      * assert (c x z = Lt) as ->.
        { pose proof (order_opp _ Hc y z) as E3. rewrite E2 in E3. cbn in E3.
          pose proof (order_eq_l c z y x Hc E3) as E4. rewrite (order_opp _ Hc x z), (order_opp _ Hc x y), E1 in E4.
          by destruct (c x z). }
        done.
      * pose proof (order_trans _ Hc x y z) as H1. rewrite E1, E2 in H1.
        destruct (c x z) eqn:E3; [|done|by apply H1].
        pose proof (order_eq_l c x z y Hc E3) as E4. rewrite E1, (order_opp _ Hc y z), E2 in E4. done.
    + done.
Qed.

Lemma strcmp_order : order_laws strcmp.
Proof. split; [intros; apply Continuum.strcmp_opp | intros x y z; apply Continuum.strcmp_trans]. Qed.

Lemma lex_order : order_laws lex.
Proof.
  pose proof (order_by strcmp hex_text strcmp_order) as [Hopp Htrans]. split.
  - intros a b. rewrite <- (strcmp_hex_text a b), <- (strcmp_hex_text b a). apply Hopp.
  - intros x y z. rewrite <- (strcmp_hex_text x y), <- (strcmp_hex_text y z), <- (strcmp_hex_text x z).
    apply Htrans.
Qed.

Lemma compare_order : order_laws Z.compare.
Proof.
  split; [intros a b; apply Z.compare_antisym|]. intros x y z.
  destruct (Z.compare_spec x y), (Z.compare_spec y z), (Z.compare_spec x z); try done; lia.
Qed.

Lemma bkey_order_laws byte_array : order_laws (bkey_order byte_array).
Proof.
  destruct byte_array; [exact (order_by lex array_of lex_order)|].
  exact (order_by Z.compare (fun s => default 0 (sub_bkey_of s)) compare_order).
Qed.

Lemma element_order_laws byte_array : order_laws (element_order byte_array).
Proof.
  apply order_then; [exact (order_by _ item_bkey (bkey_order_laws byte_array))|].
  exact (order_by strcmp key_text strcmp_order).
Qed.

Lemma before_total byte_array descending a b :
  before byte_array descending a b \/ before byte_array descending b a.
Proof.
  unfold before. rewrite (order_opp _ (element_order_laws byte_array) a b).
  destruct descending, (element_order byte_array a b); cbn; auto.
Qed.

Lemma before_trans byte_array descending a b c :
  before byte_array descending a b -> before byte_array descending b c ->
  before byte_array descending a c.
Proof.
  pose proof (element_order_laws byte_array) as Hlaws. unfold before. destruct descending.
  - intros H1 H2 H3.
    assert (element_order byte_array c b <> Gt) as H2'
      by (rewrite (order_opp _ Hlaws b c); by destruct (element_order byte_array b c)).
    assert (element_order byte_array b a <> Gt) as H1'
      by (rewrite (order_opp _ Hlaws a b); by destruct (element_order byte_array a b)).
    pose proof (order_trans _ Hlaws c b a H2' H1') as H4.
    rewrite (order_opp _ Hlaws a c), H3 in H4. done.
  - apply (order_trans _ Hlaws).
Qed.

(** The code compares in this order. *)
Lemma compare_sub_keys_order byte_array a b :
  bkey_kind byte_array a -> bkey_kind byte_array b ->
  compare_sub_keys byte_array a b = Some (sign (bkey_order byte_array a b)).
Proof.
  assert (Harr : forall h x, holds h x -> take (Z.to_nat (array_length h)) (memory h) = x).
  { intros h x [Hl [rest Hr]]. unfold memory. rewrite Hl, Hr, Nat2Z.id. apply take_app_length. }
  destruct byte_array; unfold compare_sub_keys, bkey_kind, bkey_order.
  - intros (h & x & -> & Hh) (g & y & -> & Hg). cbn [sub_bkey_ext_of mbind option_bind array_of].
    rewrite (compare_two_hexadecimal_lex _ _ _ _ Hh Hg). by rewrite (Harr h x Hh), (Harr g y Hg).
  - intros (n & ->) (m & ->). cbn. destruct (Z.compare_spec n m) as [->|E|E]; cbn.
    + by rewrite Z.eqb_refl.
    + rewrite (proj2 (Z.eqb_neq _ _)), (proj2 (Z.ltb_lt _ _)) by lia. done.
    + rewrite (proj2 (Z.eqb_neq _ _)), (proj2 (Z.ltb_ge _ _)) by lia. done.
Qed.

(** ** The choice of a part *)

Section Choice.
Context (byte_array descending : bool).
Notation before := (before byte_array descending).

Lemma before_refl a : before a a.
Proof. by destruct (before_total byte_array descending a a). Qed.

(** The better one of two, by the sign of the comparison. *)
Lemma choose_before a b :
  if (if descending then sign (element_order byte_array a b) <? 0
      else sign (element_order byte_array a b) >? 0)
  then before b a else before a b.
Proof.
  unfold Smget.before. rewrite (order_opp _ (element_order_laws byte_array) a b).
  by destruct descending, (element_order byte_array a b).
Qed.

(** The loop finds a head that is before the others. *)
Lemma smallest_part_spec has_more compare (head : nat -> option smget_element_of) js : forall s0,
  (forall j, j ∈ js -> has_more j = Some (bool_decide (is_Some (head j)))) ->
  (forall s j hs hj, head s = Some hs -> head j = Some hj ->
     compare s j = Some (sign (element_order byte_array hs hj))) ->
  match s0 with Some s => is_Some (head s) | None => True end ->
  exists s', smallest_part has_more compare descending js s0 = Some s' /\
    match s' with
    | None => s0 = None /\ forall j, j ∈ js -> head j = None
    | Some t => exists ht, head t = Some ht
        /\ forall j hj, j ∈ js \/ s0 = Some j -> head j = Some hj -> before ht hj
    end.
Proof.
  induction js as [|j js IH]; intros s0 Hmore Hcmp Hs0.
  - exists s0. split; [done|]. destruct s0 as [s|]; [|by split; [|intros j Hj%elem_of_nil]].
    destruct Hs0 as [hs Hs]. exists hs. split; [done|].
    intros j hj [Hj%elem_of_nil|[= <-]] Hh; [done|]. rewrite Hs in Hh. injection Hh as <-. apply before_refl.
  - cbn [smallest_part]. rewrite (Hmore j) by by left. cbn [mbind option_bind].
    assert (Hmore' : forall j, j ∈ js -> has_more j = Some (bool_decide (is_Some (head j))))
      by (intros; apply Hmore; by right).
    destruct (head j) as [hj|] eqn:Ej.
    + rewrite bool_decide_true by by eexists. cbn [negb]. destruct s0 as [s|].
      * destruct Hs0 as [hs Hs]. rewrite (Hcmp s j hs hj Hs Ej). cbn [mbind option_bind].
        pose proof (choose_before hs hj) as Hchoice.
        set (b := if descending then sign (element_order byte_array hs hj) <? 0
                  else sign (element_order byte_array hs hj) >? 0) in *.
        set (t := if b then j else s).
        assert (exists ht, head t = Some ht /\ before ht hs /\ before ht hj) as (ht & Ht & H1 & H2).
        { unfold t. destruct b.
          - exists hj. split; [done|]. split; [done|apply before_refl].
          - exists hs. split; [done|]. split; [apply before_refl|done]. }
        destruct (IH (Some t) Hmore' Hcmp ltac:(by eexists)) as (s' & -> & Hs').
        exists s'. split; [done|]. destruct s' as [u|]; [|by destruct Hs'].
        destruct Hs' as (hu & Hu & Hall). exists hu. split; [done|].
        assert (before hu ht) by by apply (Hall t); [right|].
        intros k hk [[->|Hk]%elem_of_cons|[= <-]] Hh.
        -- rewrite Ej in Hh. injection Hh as <-. by eapply before_trans.
        -- apply (Hall k); [by left|done].
        -- rewrite Hs in Hh. injection Hh as <-. by eapply before_trans.
      * destruct (IH (Some j) Hmore' Hcmp ltac:(by eexists)) as (s' & -> & Hs').
        exists s'. split; [done|]. destruct s' as [u|]; [|by destruct Hs'].
        destruct Hs' as (hu & Hu & Hall). exists hu. split; [done|].
        intros k hk [[->|Hk]%elem_of_cons|[=]] Hh; [apply (Hall j hk); [by right|done] | apply (Hall k hk); [by left|done]].
    + rewrite bool_decide_false by by intros []. cbn [negb].
      destruct (IH s0 Hmore' Hcmp Hs0) as (s' & -> & Hs'). exists s'. split; [done|].
      destruct s' as [u|].
      * destruct Hs' as (hu & Hu & Hall). exists hu. split; [done|].
        intros k hk [[->|Hk]%elem_of_cons|Hk] Hh; [by rewrite Ej in Hh|..]; apply (Hall k); auto.
      * destruct Hs' as [-> Hall]. split; [done|]. intros k [->|Hk]%elem_of_cons; [done|by apply Hall].
Qed.

(** ** Merges of lists *)

(** [L] is a merge of the lists: each time a first element that is before the others. *)
Inductive merges : list (list smget_element_of) -> list smget_element_of -> Prop :=
  | merges_nil rems : Forall (fun l => l = []) rems -> merges rems []
  | merges_cons rems j e rest L :
      rems !! j = Some (e :: rest) ->
      (forall k e' r', rems !! k = Some (e' :: r') -> before e e') ->
      merges (<[j := rest]> rems) L -> merges rems (e :: L).

Lemma concat_insert_perm (rems : list (list smget_element_of)) j e rest :
  rems !! j = Some (e :: rest) -> concat rems ≡ₚ e :: concat (<[j := rest]> rems).
Proof.
  intros Hj. rewrite <- (take_drop_middle rems j _ Hj) at 1.
  rewrite insert_take_drop by by apply lookup_lt_Some in Hj.
  rewrite !concat_app. cbn. symmetry. apply Permutation_middle.
Qed.

Lemma merges_permutation rems L : merges rems L -> L ≡ₚ concat rems.
Proof.
  induction 1 as [rems Hall|rems j e rest L Hj _ _ IH].
  - induction Hall as [|l rems -> _ IH]; [done|exact IH].
  - by rewrite (concat_insert_perm _ _ _ _ Hj), IH.
Qed.

(** Of sorted lists the merge is sorted. *)
Lemma merges_sorted rems L :
  merges rems L -> Forall (StronglySorted before) rems -> StronglySorted before L.
Proof.
  induction 1 as [rems Hall|rems j e rest L Hj Hmin Hmerges IH]; intros Hsorted; [constructor|].
  assert (Hrest : Forall (StronglySorted before) (<[j := rest]> rems)).
  { apply Forall_insert; [done|]. pose proof (Forall_lookup_1 _ _ _ _ Hsorted Hj) as Hs. by inversion Hs. }
  constructor; [by apply IH|].
  rewrite (merges_permutation _ _ Hmerges). rewrite Forall_concat.
  apply Forall_lookup. intros k l Hk.
  destruct (decide (k = j)) as [->|Hne].
  - rewrite list_lookup_insert_eq in Hk by by apply lookup_lt_Some in Hj. injection Hk as <-.
    pose proof (Forall_lookup_1 _ _ _ _ Hsorted Hj) as Hs. by inversion Hs.
  - rewrite list_lookup_insert_ne in Hk by done. destruct l as [|e' r']; [constructor|].
    pose proof (Hmin k e' r' Hk) as He.
    pose proof (Forall_lookup_1 _ _ _ _ Hsorted Hk) as Hs. inversion Hs as [|? ? _ Hall]; subst.
    constructor; [done|]. eapply Forall_impl; [exact Hall|]. intros x Hx. by eapply before_trans.
Qed.

(** There is a merge of all lists. *)
Lemma min_head (rems : list (list smget_element_of)) :
  Forall (fun l => l = []) rems \/
  exists j e rest, rems !! j = Some (e :: rest)
    /\ forall k e' r', rems !! k = Some (e' :: r') -> before e e'.
Proof.
  induction rems as [|l rems IH]; [by left; constructor|]. destruct l as [|a l].
  - destruct IH as [IH|(j & e & rest & Hj & Hmin)]; [left; by constructor|]. right.
    exists (S j), e, rest. split; [done|]. intros [|k] e' r' Hk; [done|]. by eapply Hmin.
  - right. destruct IH as [IH|(j & e & rest & Hj & Hmin)].
    + exists 0%nat, a, l. split; [done|]. intros [|k] e' r' Hk; [injection Hk as <- <-; apply before_refl|].
      by pose proof (Forall_lookup_1 _ _ _ _ IH Hk).
    + destruct (before_total byte_array descending a e) as [Ha|Ha].
      * exists 0%nat, a, l. split; [done|].
        intros [|k] e' r' Hk; [injection Hk as <- <-; apply before_refl|].
        eapply before_trans; [exact Ha|]. by eapply Hmin.
      * exists (S j), e, rest. split; [done|].
        intros [|k] e' r' Hk; [by injection Hk as <- <-|]. by eapply Hmin.
Qed.

Lemma merges_exists n : forall rems, length (concat rems) = n -> exists L, merges rems L.
Proof.
  induction n as [|n IH]; intros rems Hn; destruct (min_head rems) as [Hall|(j & e & rest & Hj & Hmin)];
    try by (exists []; constructor).
  - apply concat_insert_perm, Permutation_length in Hj. rewrite Hn in Hj. done.
  - destruct (IH (<[j := rest]> rems)) as [L HL].
    { apply concat_insert_perm, Permutation_length in Hj. rewrite Hn in Hj. cbn in Hj. lia. }
    exists (e :: L). by econstructor.
Qed.
End Choice.

(** ** The merge of results *)

Section Merging.
Context (byte_array : bool).

Definition good (e : smget_element_of) : Prop := key_readable e /\ bkey_kind byte_array (item_bkey e).

(** What is left of each result. *)
Record parts_hold (m : merging) (rems : list (list smget_element_of)) : Prop := {
  hold_parts : length (parts m) = length rems;
  hold_positions : length (positions m) = length rems;
  hold_at : forall j rem, rems !! j = Some rem -> exists r x,
    part_at m j = Some (r, x) /\ 0 <= x /\ value_count r = x + Z.of_nat (length rem)
    /\ value_count r < 2 ^ 64 /\ elements_from r x rem;
  hold_good : Forall (Forall good) rems;
}.

Definition head_of (rems : list (list smget_element_of)) (j : nat) : option smget_element_of :=
  rem ← rems !! j; hd_error rem.

Lemma head_of_some rems j e : head_of rems j = Some e -> exists rest, rems !! j = Some (e :: rest).
Proof.
  unfold head_of. destruct (rems !! j) as [[|a l]|]; [done| |done]. intros [= ->]. by exists l.
Qed.

Lemma element_here_head r x e rest : elements_from r x (e :: rest) -> element_here r x e.
Proof. intros Hfrom. pose proof (Hfrom 0%nat e eq_refl) as Hh. by rewrite Z.add_0_r in Hh. Qed.

Lemma elements_from_tail r x e rest : elements_from r x (e :: rest) -> elements_from r (x + 1) rest.
Proof.
  intros Hfrom y e' Hy. pose proof (Hfrom (S y) e' Hy) as Hh.
  by replace (x + 1 + Z.of_nat y) with (x + Z.of_nat (S y)) by lia.
Qed.

Lemma compare_parts_order m rems s j hs hj :
  parts_hold m rems -> head_of rems s = Some hs -> head_of rems j = Some hj ->
  compare_parts byte_array smget_sub_keys m s j = Some (sign (element_order byte_array hs hj)).
Proof.
  intros [_ _ Hat Hgood] Hs Hj.
  destruct (head_of_some _ _ _ Hs) as (ls & Els), (head_of_some _ _ _ Hj) as (lj & Elj).
  destruct (Hat s _ Els) as (rs & xs & Ps & _ & _ & _ & Fs).
  destruct (Hat j _ Elj) as (rj & xj & Pj & _ & _ & _ & Fj).
  destruct (element_here_head _ _ _ _ Fs) as (Ks & Bs & _), (element_here_head _ _ _ _ Fj) as (Kj & Bj & _).
  pose proof (Forall_lookup_1 _ _ _ _ Hgood Els) as Gs. apply Forall_cons in Gs as [[[Is Ss] Gs] _].
  pose proof (Forall_lookup_1 _ _ _ _ Hgood Elj) as Gj. apply Forall_cons in Gj as [[[Ij Sj] Gj] _].
  unfold compare_parts. rewrite Ps, Pj. cbn [mbind option_bind]. rewrite Bs, Bj. cbn [mbind option_bind].
  rewrite (compare_sub_keys_order byte_array _ _ Gs Gj). cbn [mbind option_bind]. unfold element_order.
  destruct (bkey_order byte_array (item_bkey hs) (item_bkey hj)); [|done..].
  change (sign Eq =? 0) with true. cbv iota. unfold key_at. rewrite Ks, Kj. cbn [mbind option_bind]. rewrite Is, Ij.
  unfold key_text. destruct (string_block (item_key_string hs)) as [bs|]; [|done].
  destruct (string_block (item_key_string hj)) as [bj|]; [|done]. cbn [mbind option_bind] in *.
  destruct (cstring bs) as [ks|]; [|done]. by destruct (cstring bj) as [kj|].
Qed.

(** A part that is not at its end is chosen, and its first element is before those of
    the others. *)
Lemma next_part_spec st rems :
  parts_hold (merge_from st) rems -> concat rems <> [] ->
  exists j e rest, next_part byte_array st = Some j /\ rems !! j = Some (e :: rest)
    /\ forall k e' r', rems !! k = Some (e' :: r') ->
         before byte_array (is_descending (merged st)) e e'.
Proof.
  intros Hhold Hne. pose proof Hhold as [Hparts Hpos Hat Hgood].
  destruct (smallest_part_spec byte_array (is_descending (merged st))
              (fun j => '(r, x) ← part_at (merge_from st) j; Some (x <? value_count r))
              (compare_parts byte_array smget_sub_keys (merge_from st)) (head_of rems)
              (seq 0 (length (parts (merge_from st)))) None) as (s & Hs & Hspec).
  - intros j Hj. apply elem_of_seq in Hj.
    destruct (rems !! j) as [rem|] eqn:Ej; [|apply lookup_ge_None in Ej; lia].
    destruct (Hat j rem Ej) as (r & x & Hp & Hx & Hv & _). rewrite Hp. cbn [mbind option_bind]. f_equal.
    unfold head_of. rewrite Ej. cbn [mbind option_bind]. destruct rem as [|e rem]; cbn [hd_error length] in *.
    + rewrite bool_decide_false by by intros []. apply Z.ltb_ge. lia.
    + rewrite bool_decide_true by by eexists. apply Z.ltb_lt. lia.
  - intros s j hs hj Hs Hj. by eapply compare_parts_order.
  - done.
  - unfold next_part. rewrite Hs. cbn [mbind option_bind]. destruct s as [j|].
    + destruct Hspec as (e & He & Hmin). destruct (head_of_some _ _ _ He) as (rest & Hrest).
      exists j, e, rest. split; [done|]. split; [done|]. intros k e' r' Hk. apply (Hmin k).
      * left. apply elem_of_seq. apply lookup_lt_Some in Hk. lia.
      * unfold head_of. by rewrite Hk.
    + exfalso. apply Hne. destruct Hspec as [_ Hall].
      assert (Forall (fun l => l = []) rems) as Hnil.
      { apply Forall_lookup. intros k l Hk. pose proof (lookup_lt_Some _ _ _ Hk) as Hlt.
        pose proof (Hall k ltac:(apply elem_of_seq; lia)) as Hh. unfold head_of in Hh. rewrite Hk in Hh.
        by destruct l. }
      clear -Hnil. induction Hnil as [|l rems -> _ IH]; [done|exact IH].
Qed.

(** The first element of a part is gone; [r'] is what became of the part. *)
Lemma parts_hold_advance m rems j e rest r x r' :
  parts_hold m rems -> rems !! j = Some (e :: rest) -> part_at m j = Some (r, x) ->
  value_count r' = value_count r -> elements_from r' (x + 1) rest ->
  parts_hold (advance_part j (m <| parts ::= <[j := r']> |>)) (<[j := rest]> rems).
Proof.
  intros [Hparts Hpos Hat Hgood] Hj Hpart Hv Hfrom.
  assert (Hx : positions m !! j = Some x /\ parts m !! j = Some r).
  { unfold part_at in Hpart. destruct (parts m !! j); [|done]. cbn in Hpart.
    destruct (positions m !! j); [|done]. cbn in Hpart. by injection Hpart as <- <-. }
  destruct Hx as [Hx Hr].
  pose proof (Hat j _ Hj) as (r0 & x0 & Hp0 & Hx0 & Hv0 & Hlt & _).
  rewrite Hpart in Hp0. injection Hp0 as <- <-. cbn [length] in Hv0.
  split; unfold advance_part; cbn [parts positions update].
  - by rewrite !length_insert.
  - by rewrite length_alter, length_insert.
  - intros k rem Hk. unfold part_at. cbn [parts positions update].
    destruct (decide (k = j)) as [->|Hne].
    + rewrite list_lookup_insert_eq in Hk by by apply lookup_lt_Some in Hj. injection Hk as <-.
      exists r', (u64 (x + 1)). rewrite list_lookup_insert_eq by by apply lookup_lt_Some in Hr.
      cbn [mbind option_bind]. rewrite list_lookup_alter_eq, Hx. cbn [fmap option_fmap option_map mbind option_bind].
      rewrite u64_small by lia. rewrite Hv. split_and!; [done|lia..|done].
    + rewrite list_lookup_insert_ne in Hk by done.
      destruct (Hat k rem Hk) as (rk & xk & Hpk & Hrest). exists rk, xk. split; [|done].
      rewrite list_lookup_insert_ne, list_lookup_alter_ne by done. exact Hpk.
  - apply Forall_insert; [done|]. pose proof (Forall_lookup_1 _ _ _ _ Hgood Hj) as Hg. by inversion Hg.
Qed.

(** ** Writing the merged result *)

Definition room_of {A} (a : option (list A)) (cap : nat) : Prop :=
  exists l, a = Some l /\ (cap <= length l)%nat.

Lemma set_at_room {A} (a : option (list A)) cap i x :
  room_of a cap -> (i < cap)%nat ->
  exists a', set_at a i x = Some a' /\ room_of a' cap /\ at_index a' (Z.of_nat i) = Some x
    /\ forall y, y <> Z.of_nat i -> at_index a' y = at_index a y.
Proof.
  intros (l & -> & Hl) Hi. exists (Some (<[i := x]> l)). unfold set_at. cbn [mbind option_bind].
  rewrite (proj2 (Nat.ltb_lt _ _)) by lia. split; [done|]. split; [|split].
  - exists (<[i := x]> l). by rewrite length_insert.
  - rewrite at_index_nat. apply list_lookup_insert_eq. lia.
  - intros y Hy. unfold at_index. cbn [mbind option_bind]. destruct (Z.leb_spec 0 y); [|done].
    apply list_lookup_insert_ne. lia.
Qed.

Lemma at_index_room {A} (a : option (list A)) x y :
  at_index a x = Some y -> 0 <= x /\ room_of a (S (Z.to_nat x)).
Proof.
  unfold at_index. destruct a as [l|]; [|done]. cbn [mbind option_bind].
  destruct (Z.leb_spec 0 x); [|done]. intros Hx%lookup_lt_Some. split; [done|]. exists l. split; [done|lia].
Qed.

Record merged_room (m : memcached_coll_smget_result_st) (cap : nat) : Prop := {
  room_keys : room_of (smget_keys m) cap;
  room_sub_keys : room_of (smget_sub_keys m) cap;
  room_values : room_of (smget_values m) cap;
  room_flags : room_of (smget_flags m) cap;
  room_eflags : room_of (smget_eflags m) cap;
  room_bytes : room_of (smget_bytes m) cap;
}.

(** What the elements do not change. *)
Definition frame (m : memcached_coll_smget_result_st) :=
  (smget_type m, smget_sub_key_type m, value_count m, (missed_key_count m, missed_keys m, missed_causes m),
   (trimmed_key_count m, trimmed_keys m, trimmed_sub_keys m), (smget_offset m, smget_count m),
   smget_smgmode m, smget_is_allocated m, smget_is_initialized m, is_descending m).
Definition missed_of (r : memcached_coll_smget_result_st) :=
  (missed_key_count r, missed_keys r, missed_causes r).

Lemma merge_element_spec st cap out r x e :
  merged_room (merged st) cap -> elements_from (merged st) 0 out ->
  merged_count st = Z.of_nat (length out) -> (length out < cap)%nat ->
  element_here r x e -> bkey_kind byte_array (item_bkey e) ->
  exists m', merge_element byte_array (item_bkey e) r x st
             = Some (st <| merged := m' |> <| merged_count ::= fun n => n + 1 |>)
    /\ merged_room m' cap /\ elements_from m' 0 (out ++ [e]) /\ frame m' = frame (merged st).
Proof.
  intros [Rk Rb Rv Rf Re Rs] Hout Hcount Hlen (Ek & Eb & Ev & Ef & Ee & Es) Hkind.
  set (i := length out) in *.
  destruct (set_at_room _ cap i (item_bkey e) Rb Hlen) as (ab & Sb & Rb' & Hb & Ob).
  destruct (set_at_room _ cap i (item_key_string e) Rk Hlen) as (ak & Sk & Rk' & Hk & Ok).
  destruct (set_at_room _ cap i (item_value_string e) Rv Hlen) as (av & Sv & Rv' & Hv & Ov).
  destruct (set_at_room _ cap i (item_flags_of e) Rf Hlen) as (af & Sf & Rf' & Hf & Of).
  destruct (set_at_room _ cap i (item_eflag_of e) Re Hlen) as (ae & Se & Re' & He & Oe).
  destruct (set_at_room _ cap i (item_size e) Rs Hlen) as (az & Sz & Rz' & Hz & Oz).
  assert (Hbkey : (if byte_array then sub_bkey_ext <$> sub_bkey_ext_of (item_bkey e)
                   else sub_bkey <$> sub_bkey_of (item_bkey e)) = Some (item_bkey e)).
  { unfold bkey_kind in Hkind. destruct byte_array; [destruct Hkind as (h & a & -> & _)|destruct Hkind as (n & ->)];
      done. }
  eexists. split; [|split; [|split]].
  - unfold merge_element. rewrite Hcount. fold i. rewrite Nat2Z.id, Hbkey. cbn [mbind option_bind].
    rewrite Sb. cbn [mbind option_bind]. rewrite Ek. cbn [mbind option_bind]. rewrite Sk. cbn [mbind option_bind].
    rewrite Ev. cbn [mbind option_bind]. rewrite Sv. cbn [mbind option_bind].
    rewrite Ef. cbn [mbind option_bind]. rewrite Sf. cbn [mbind option_bind].
    rewrite Ee. cbn [mbind option_bind]. rewrite Se. cbn [mbind option_bind].
    rewrite Es. cbn [mbind option_bind]. rewrite Sz. cbn [mbind option_bind]. reflexivity.
  - by split.
  - intros y e' Hy. apply lookup_app_Some in Hy as [Hy|[Hle Hy]].
    + pose proof (lookup_lt_Some _ _ _ Hy) as Hlt. fold i in Hlt.
      destruct (Hout y e' Hy) as (Hk' & Hb' & Hv' & Hf' & He' & Hz').
      unfold element_here. cbn -[at_index]. rewrite Ok, Ob, Ov, Of, Oe, Oz by lia. done.
    + fold i in Hle, Hy. destruct (y - i)%nat as [|k] eqn:Ey; [|by destruct k].
      injection Hy as <-. replace (0 + Z.of_nat y) with (Z.of_nat i) by lia. by split_and!.
  - done.
Qed.

Lemma free_element_spec r x e :
  element_here r x e ->
  exists r', free_element x r = Some r' /\ value_count r' = value_count r /\ missed_of r' = missed_of r
    /\ trimmed_key_count r' = trimmed_key_count r
    /\ forall y e', y <> x -> element_here r y e' -> element_here r' y e'.
Proof.
  intros (Ek & Eb & Ev & Ef & Ee & Es).
  destruct (at_index_room _ _ _ Ek) as [Hx Rk], (at_index_room _ _ _ Ev) as [_ Rv].
  destruct (set_at_room _ _ (Z.to_nat x) (free_string (item_key_string e)) Rk ltac:(lia)) as (ak & Sk & _ & _ & Ok).
  destruct (set_at_room _ _ (Z.to_nat x) (free_string (item_value_string e)) Rv ltac:(lia)) as (av & Sv & _ & _ & Ov).
  eexists. split; [|split; [|split; [|split]]].
  - unfold free_element. rewrite Ek. cbn [mbind option_bind]. rewrite Sk. cbn [mbind option_bind].
    rewrite Ev. cbn [mbind option_bind]. rewrite Sv. cbn [mbind option_bind]. rewrite Ee. cbn [mbind option_bind].
    reflexivity.
  - done.
  - done.
  - done.
  - intros y e' Hy (Ek' & Eb' & Ev' & Ef' & Ee' & Es'). unfold element_here. cbn -[at_index].
    rewrite Ok, Ov by lia. done.
Qed.

(** ** Ranges and duplicates *)

Lemma in_range_snoc offset count (K : list smget_element_of) e :
  0 <= offset -> 0 <= count ->
  in_range offset count (K ++ [e])
  = in_range offset count K
    ++ (if (offset <=? Z.of_nat (length K)) && (Z.of_nat (length K) <? offset + count) then [e] else []).
Proof.
  intros Ho Hc. unfold in_range.
  destruct (Z.leb_spec offset (Z.of_nat (length K))); cbn [andb].
  - rewrite drop_app_le by lia. destruct (Z.ltb_spec (Z.of_nat (length K)) (offset + count)).
    + rewrite (take_ge (drop _ K)) by (rewrite length_drop; lia). apply take_ge.
      rewrite length_app, length_drop. cbn. lia.
    + rewrite take_app_le by (rewrite length_drop; lia). by rewrite app_nil_r.
  - rewrite (drop_ge K) by lia. rewrite (drop_ge (K ++ [e])) by (rewrite length_app; cbn; lia).
    by rewrite !take_nil.
Qed.

(** A full range is not changed by what comes after it. *)
Lemma in_range_full offset count (K X : list smget_element_of) :
  0 <= count -> count <= Z.of_nat (length (in_range offset count K)) ->
  in_range offset count (K ++ X) = in_range offset count K.
Proof.
  intros Hc Hlen. unfold in_range in *. rewrite length_take, length_drop in Hlen.
  destruct (decide (count = 0)) as [->|Hne]; [done|].
  rewrite drop_app_le, take_app_le by (rewrite ?length_drop; lia). done.
Qed.

Lemma in_range_length offset count (K : list smget_element_of) :
  (length (in_range offset count K) <= length K)%nat.
Proof. unfold in_range. rewrite length_take, length_drop. lia. Qed.

Lemma in_range_last offset count (K : list smget_element_of) :
  0 <= offset -> Z.of_nat (length K) < offset + count -> in_range offset count K <> [] ->
  list.last (in_range offset count K) = list.last K.
Proof.
  intros Ho Hlt Hne. unfold in_range in *. rewrite take_ge in * by (rewrite length_drop; lia).
  rewrite <- (take_drop (Z.to_nat offset) K) at 2. rewrite last_app.
  destruct (list.last (drop (Z.to_nat offset) K)) eqn:E; [done|]. by apply last_None in E.
Qed.

Lemma has_duplicate_snoc (out : list smget_element_of) e :
  has_duplicate byte_array (out ++ [e])
  = has_duplicate byte_array out
    || match list.last out with Some l => same_bkey byte_array l e | None => false end.
Proof.
  induction out as [|a out IH]; [done|]. destruct out as [|b out]; [cbn; by rewrite orb_false_r|].
  change ((a :: b :: out) ++ [e]) with (a :: (b :: out) ++ [e]).
  cbn [has_duplicate app] in *. rewrite IH. rewrite last_cons_cons. by rewrite orb_assoc.
Qed.

Lemma same_bkey_eq a b e :
  bkey_order byte_array (item_bkey a) (item_bkey b) = Eq -> same_bkey byte_array a e = same_bkey byte_array b e.
Proof.
  intros E. unfold same_bkey.
  by rewrite (order_eq_l _ _ _ (item_bkey e) (bkey_order_laws byte_array) E).
Qed.

(** ** The loop *)

Context (into : memcached_coll_smget_result_st) (cap : nat).
Let offset := smget_offset into.
Let count := smget_count into.
Let unique := bool_decide (smget_smgmode into = MEMCACHED_COLL_SMGET_UNIQUE).

(** The elements of a merge that are looked at for the range, behind [prev]. *)
Definition kept (prev : option smget_element_of) (L : list smget_element_of) : list smget_element_of :=
  if unique then unique_bkeys byte_array prev L else L.

(** After a merge whose kept elements are [K]. *)
Record merged_of (K : list smget_element_of) (st : merge_st) : Prop := {
  of_room : merged_room (merged st) cap;
  of_elements : elements_from (merged st) 0 (in_range offset count K);
  of_count : merged_count st = Z.of_nat (length (in_range offset count K));
  of_rc : merge_rc st = if has_duplicate byte_array (in_range offset count K)
                        then MEMCACHED_DUPLICATED else MEMCACHED_END;
  of_frame : frame (merged st) = frame into;
}.

(** In the middle of it: [rems] are left, and [prev] was looked at last. *)
Record merging_inv (st : merge_st) (rems : list (list smget_element_of)) (K : list smget_element_of)
    (prev : option smget_element_of) : Prop := {
  inv_parts : parts_hold (merge_from st) rems;
  inv_merged : merged_of K st;
  inv_found : found_count st = Z.of_nat (length K);
  inv_prev : prev_sub_key st = (fun p => (item_bkey p, false)) <$> prev;
  inv_prev_good : match prev with Some p => good p | None => True end;
  inv_last : match list.last K with
    | Some l => exists p, prev = Some p /\ bkey_order byte_array (item_bkey l) (item_bkey p) = Eq
    | None => prev = None
    end;
  inv_total : (length K + length (concat rems) <= cap)%nat;
  inv_going : (0 < count -> merged_count st < count) /\ (count = 0 -> prev = None);
}.

Hypothesis Hbounds : 0 <= offset /\ 0 <= count /\ offset + count < 2 ^ 64.
Hypothesis Harrays : byte_array = true -> offset = 0.

(** Whether the element at the head of a part has the bkey that was looked at last. *)
Definition repeats (prev : option smget_element_of) (e : smget_element_of) : bool :=
  match prev with Some p => same_bkey byte_array p e | None => false end.

Lemma kept_cons prev e L :
  kept prev (e :: L) = (if repeats prev e && unique then [] else [e]) ++ kept (Some e) L.
Proof.
  unfold kept, repeats. destruct unique; [|by rewrite andb_false_r]. cbn [unique_bkeys].
  destruct prev as [p|]; [|done]. by destruct (same_bkey byte_array p e).
Qed.

Lemma duplicated_spec st rems K prev e :
  merging_inv st rems K prev -> good e ->
  match prev_sub_key st with
  | None => Some false
  | Some (p, freed) =>
      if byte_array && freed then None
      else c ← compare_sub_keys byte_array p (item_bkey e); Some (c =? 0)
  end = Some (repeats prev e).
Proof.
  intros Hinv [_ He]. rewrite (inv_prev _ _ _ _ Hinv). destruct prev as [p|]; [|done].
  cbn [fmap option_fmap option_map]. rewrite andb_false_r.
  destruct (inv_prev_good _ _ _ _ Hinv) as [_ Hp].
  rewrite (compare_sub_keys_order _ _ _ Hp He). cbn. unfold same_bkey.
  by destruct (bkey_order byte_array (item_bkey p) (item_bkey e)).
Qed.

(** The code after an element was put at the end. *)
Lemma rc_after st rems K prev e :
  merging_inv st rems K prev -> Z.of_nat (length K) < offset + count ->
  (if (merged_count st >? 0) && repeats prev e && bool_decide (merge_rc st = MEMCACHED_END)
   then MEMCACHED_DUPLICATED else merge_rc st)
  = if has_duplicate byte_array (in_range offset count K ++ [e])
    then MEMCACHED_DUPLICATED else MEMCACHED_END.
Proof.
  intros Hinv Hlt. pose proof (inv_last _ _ _ _ Hinv) as Hlast.
  destruct (inv_merged _ _ _ _ Hinv) as [_ _ Hcount Hrc _]. rewrite has_duplicate_snoc, Hrc, Hcount.
  destruct (in_range offset count K) as [|a out] eqn:Eout.
  - done.
  - assert (Hne : in_range offset count K <> []) by by rewrite Eout.
    pose proof (in_range_last offset count K (proj1 Hbounds) Hlt Hne) as El. rewrite Eout in El. rewrite El.
    destruct (list.last K) as [l|] eqn:EK.
    2: { by apply last_None in El. }
    destruct Hlast as (p & -> & Hlp). cbn [repeats]. rewrite (same_bkey_eq l p e Hlp).
    assert ((Z.of_nat (length (a :: out)) >? 0) = true) as -> by (apply Z.gtb_lt; cbn [length]; lia).
    destruct (has_duplicate byte_array (a :: out)), (same_bkey byte_array p e); done.
Qed.

Lemma bkey_order_refl a : bkey_order byte_array a a = Eq.
Proof.
  pose proof (order_opp _ (bkey_order_laws byte_array) a a) as E.
  by destruct (bkey_order byte_array a a).
Qed.

Definition kept_in_range (K : list smget_element_of) : bool :=
  (offset <=? Z.of_nat (length K)) && (Z.of_nat (length K) <? offset + count).

Lemma frame_fields a b : frame a = frame b ->
  is_descending a = is_descending b /\ smget_offset a = smget_offset b /\ smget_count a = smget_count b
  /\ smget_smgmode a = smget_smgmode b.
Proof. by intros [=]. Qed.

Lemma part_at_some m j r x : part_at m j = Some (r, x) -> parts m !! j = Some r.
Proof.
  unfold part_at. destruct (parts m !! j); [|done]. cbn. destruct (positions m !! j); [|done]. by intros [= -> _].
Qed.

Lemma part_at_same m j r x : part_at m j = Some (r, x) -> m <| parts ::= <[j := r]> |> = m.
Proof.
  intros Hp%part_at_some. destruct m as [ps xs]. cbn in *.
  change ({| parts := <[j := r]> ps; positions := xs |} = {| parts := ps; positions := xs |}).
  f_equal. by apply list_insert_id.
Qed.

Lemma missed_of_insert (ps : list memcached_coll_smget_result_st) j r r' :
  ps !! j = Some r -> missed_of r' = missed_of r -> map missed_of (<[j := r']> ps) = map missed_of ps.
Proof.
  intros Hj Hm. change (missed_of <$> <[j := r']> ps = missed_of <$> ps).
  rewrite list_fmap_insert, Hm. apply list_insert_id. by rewrite list_lookup_fmap, Hj.
Qed.

(** What a round does with an element that is kept, which is put at the end of the merged
    ones or freed. *)
Lemma keep_element st rems K prev j e rest r x :
  merging_inv st rems K prev -> rems !! j = Some (e :: rest) -> part_at (merge_from st) j = Some (r, x) ->
  0 <= x -> elements_from r x (e :: rest) -> good e ->
  exists st' r',
    (if kept_in_range K then
       merge_element byte_array (item_bkey e) r x
         (if (merged_count st >? 0) && repeats prev e && bool_decide (merge_rc st = MEMCACHED_END)
          then st <| prev_sub_key := Some (item_bkey e, false) |> <| merge_rc := MEMCACHED_DUPLICATED |>
          else st <| prev_sub_key := Some (item_bkey e, false) |>)
     else
       r ← free_element x r;
       Some (st <| prev_sub_key := Some (item_bkey e, false) |>
                <| merge_from ::= (fun m => m <| parts ::= <[j := r]> |>) |>
                <| prev_sub_key := Some (item_bkey e, byte_array) |>)) = Some st'
    /\ merged_of (K ++ [e]) st' /\ found_count st' = found_count st
    /\ merge_from st' = (merge_from st) <| parts ::= <[j := r']> |>
    /\ value_count r' = value_count r /\ missed_of r' = missed_of r /\ elements_from r' (x + 1) rest
    /\ prev_sub_key st' = Some (item_bkey e, if kept_in_range K then false else byte_array).
Proof.
  intros Hinv Hj Hpart Hx Hfrom Hgood. pose proof (element_here_head _ _ _ _ Hfrom) as Hhere.
  destruct (inv_merged _ _ _ _ Hinv) as [Hroom Hout Hcount Hrc Hframe].
  pose proof (in_range_snoc offset count K e (proj1 Hbounds) (proj1 (proj2 Hbounds))) as Hsnoc.
  fold (kept_in_range K) in Hsnoc. destruct (kept_in_range K) eqn:Ein.
  - apply andb_true_iff in Ein as [_ Hlt%Z.ltb_lt].
    pose proof (rc_after st rems K prev e Hinv Hlt) as Hrc'.
    set (st1 := st <| prev_sub_key := Some (item_bkey e, false) |>).
    set (st2 := if (merged_count st >? 0) && repeats prev e && bool_decide (merge_rc st = MEMCACHED_END)
                then st1 <| merge_rc := MEMCACHED_DUPLICATED |> else st1) in *.
    assert (H2 : merged st2 = merged st /\ merged_count st2 = merged_count st /\ merge_from st2 = merge_from st
                 /\ found_count st2 = found_count st /\ prev_sub_key st2 = Some (item_bkey e, false)
                 /\ merge_rc st2 = if has_duplicate byte_array (in_range offset count K ++ [e])
                                   then MEMCACHED_DUPLICATED else MEMCACHED_END).
    { rewrite <- Hrc'. unfold st2, st1. by destruct (_ && _). }
    clearbody st2. destruct H2 as (Em & Ec & Ef & En & Ep & Er).
    pose proof (inv_total _ _ _ _ Hinv) as Htotal. pose proof (in_range_length offset count K) as Hl.
    pose proof (Permutation_length (concat_insert_perm _ _ _ _ Hj)) as Hlen. cbn in Hlen.
    destruct (merge_element_spec st2 cap (in_range offset count K) r x e) as (m' & Hdo & Hm1 & Hm2 & Hm3);
      [by rewrite Em | by rewrite Em | by rewrite Ec | lia | done | apply Hgood |].
    exists (st2 <| merged := m' |> <| merged_count ::= fun n => n + 1 |>), r. split; [exact Hdo|].
    split_and!.
    + split; cbn [merged merged_count merge_rc update]; [done|by rewrite Hsnoc| |by rewrite Hsnoc|by rewrite Hm3, Em].
      change (merged_count st2 + 1 = Z.of_nat (length (in_range offset count (K ++ [e])))).
      rewrite Hsnoc, length_app, Ec, Hcount. cbn. lia.
    + exact En.
    + change (merge_from st2 = (merge_from st) <| parts ::= <[j := r]> |>). rewrite Ef.
      by rewrite (part_at_same _ _ _ _ Hpart).
    + done.
    + done.
    + by apply elements_from_tail in Hfrom.
    + exact Ep.
  - destruct (free_element_spec r x e Hhere) as (r' & Hfree & Hv & Hm & _ & Hothers).
    rewrite Hfree. cbn [mbind option_bind]. eexists _, r'. split; [reflexivity|].
    rewrite app_nil_r in Hsnoc. split_and!; try done.
    + split; try done; by rewrite Hsnoc.
    + intros y e' Hy. apply Hothers; [lia|]. by apply (elements_from_tail _ _ _ _ Hfrom).
Qed.

(** When the loop goes on after an element that was not put at the end, no array was
    freed. *)
Lemma not_freed K e :
  Z.of_nat (length (in_range offset count (K ++ [e]))) < count -> kept_in_range K = false ->
  byte_array = false.
Proof.
  intros Hlt Hin. destruct byte_array eqn:Eb; [|done]. exfalso. specialize (Harrays eq_refl).
  destruct Hbounds as (_ & Hc & _). unfold kept_in_range in Hin. unfold in_range in Hlt.
  rewrite Harrays in *. rewrite length_take, length_drop, length_app in Hlt. cbn in Hlt.
  apply andb_false_iff in Hin as [Hin%Z.leb_gt|Hin%Z.ltb_ge]; lia.
Qed.

(** A round: either an element that repeats the bkey is passed over, or an element is
    kept, and then the loop may end. *)
Lemma merge_step_spec st rems K prev :
  merging_inv st rems K prev -> concat rems <> [] ->
  exists j e rest st' stop,
    merge_step byte_array st = Some (st', stop) /\ rems !! j = Some (e :: rest)
    /\ (forall k e' r', rems !! k = Some (e' :: r') -> before byte_array (is_descending into) e e')
    /\ parts_hold (merge_from st') (<[j := rest]> rems)
    /\ map missed_of (parts (merge_from st')) = map missed_of (parts (merge_from st))
    /\ let K' := if repeats prev e && unique then K else K ++ [e] in
       merged_of K' st'
       /\ (stop = true -> count <= Z.of_nat (length (in_range offset count K')))
       /\ (stop = false -> merging_inv st' (<[j := rest]> rems) K' (Some e)).
Proof.
  intros Hinv Hne. pose proof (inv_merged _ _ _ _ Hinv) as Hof. pose proof Hof as [_ _ _ _ Hframe].
  destruct (frame_fields _ _ Hframe) as (Ed & Eo & Ec & Eu).
  destruct (next_part_spec st rems (inv_parts _ _ _ _ Hinv) Hne) as (j & e & rest & Hnext & Hj & Hmin).
  rewrite Ed in Hmin.
  destruct (hold_at _ _ (inv_parts _ _ _ _ Hinv) j _ Hj) as (r & x & Hpart & Hx & _ & _ & Hfrom).
  pose proof (Forall_lookup_1 _ _ _ _ (hold_good _ _ (inv_parts _ _ _ _ Hinv)) Hj) as Hgood.
  apply Forall_cons in Hgood as [Hgood _].
  destruct (element_here_head _ _ _ _ Hfrom) as (_ & Eb & _).
  pose proof (Permutation_length (concat_insert_perm _ _ _ _ Hj)) as Hlen. cbn in Hlen.
  pose proof (inv_total _ _ _ _ Hinv) as Htotal.
  unfold merge_step. rewrite Hnext. cbn [mbind option_bind]. rewrite Hpart. cbn [mbind option_bind].
  rewrite Eb. cbn [mbind option_bind]. rewrite (duplicated_spec _ _ _ _ _ Hinv Hgood). cbn [mbind option_bind].
  change (smget_smgmode (merged (st <| prev_sub_key := Some (item_bkey e, false) |>)))
    with (smget_smgmode (merged st)). rewrite Eu. fold unique.
  destruct (repeats prev e && unique) eqn:Eskip.
  - exists j, e, rest. do 2 eexists. split; [reflexivity|]. split; [done|]. split; [done|].
    assert (Hparts : parts_hold (advance_part j (merge_from st)) (<[j := rest]> rems)).
    { rewrite <- (part_at_same _ _ _ _ Hpart) at 1.
      eapply parts_hold_advance; [apply Hinv|done..|by apply elements_from_tail in Hfrom]. }
    split; [exact Hparts|]. split; [done|]. rewrite Eskip. apply andb_true_iff in Eskip as [Erep _].
    assert (Hof' : merged_of K (st <| prev_sub_key := Some (item_bkey e, false) |>
                                   <| merge_from ::= advance_part j |>)) by by destruct Hof.
    split; [done|]. split; [done|]. intros _. unfold repeats in Erep.
    destruct prev as [p|]; [|done]. apply bool_decide_eq_true in Erep.
    destruct (inv_going _ _ _ _ Hinv) as [Hgo Hzero].
    split; [exact Hparts|exact Hof'|apply Hinv|done|exact Hgood| |lia|].
    + pose proof (inv_last _ _ _ _ Hinv) as Hlast. destruct (list.last K) as [l|]; [|done].
      destruct Hlast as (p' & [= <-] & Hl). exists e. split; [done|].
      by rewrite (order_eq_l _ _ _ (item_bkey e) (bkey_order_laws byte_array) Hl).
    + split; [exact Hgo|]. intros Hz. by specialize (Hzero Hz).
  - destruct (keep_element st rems K prev j e rest r x Hinv Hj Hpart Hx Hfrom Hgood)
      as (st1 & r' & Hdo & Hof1 & Hfound & Hfrom1 & Hv1 & Hm1 & Hrest & Hprev1).
    destruct Hbounds as (Ho & Hc & Hoc).
    change (merged (st <| prev_sub_key := Some (item_bkey e, false) |>)) with (merged st).
    change (found_count (st <| prev_sub_key := Some (item_bkey e, false) |>)) with (found_count st).
    rewrite Eo, Ec, (inv_found _ _ _ _ Hinv). fold offset count. rewrite (u64_small (offset + count)) by lia.
    fold (kept_in_range K). lazymatch type of Hdo with ?l = _ => match goal with
      |- context [if kept_in_range K then ?a else ?b] => change (if kept_in_range K then a else b) with l end end.
    rewrite Hdo. cbn [mbind option_bind].
    pose proof Hof1 as [_ _ Hcount1 _ Hframe1]. destruct (frame_fields _ _ Hframe1) as (_ & _ & Ec1 & _).
    exists j, e, rest. do 2 eexists. split; [reflexivity|]. split; [done|]. split; [done|].
    set (st' := st1 <| found_count ::= _ |> <| merge_from ::= advance_part j |>).
    assert (Hparts : parts_hold (merge_from st') (<[j := rest]> rems)).
    { change (merge_from st') with (advance_part j (merge_from st1)). rewrite Hfrom1.
      eapply parts_hold_advance; [apply Hinv|done..]. }
    assert (Hof' : merged_of (K ++ [e]) st') by by destruct Hof1.
    split; [exact Hparts|]. split.
    { change (parts (merge_from st')) with (parts (merge_from st1)). rewrite Hfrom1.
      apply (missed_of_insert _ _ r); [by eapply part_at_some|done]. }
    rewrite Eskip. change (smget_count (merged st')) with (smget_count (merged st1)). rewrite Ec1.
    change (merged_count st') with (merged_count st1). rewrite Hcount1. fold count.
    split; [exact Hof'|]. split; [by intros Hs%Z.leb_le|]. intros Hs%Z.leb_gt.
    split; [exact Hparts|exact Hof'| |  |exact Hgood| |rewrite length_app; cbn; lia|].
    + change (found_count st1 + 1 = Z.of_nat (length (K ++ [e]))).
      rewrite Hfound, (inv_found _ _ _ _ Hinv), length_app. cbn. lia.
    + change (prev_sub_key st' = Some (item_bkey e, false)).
      change (prev_sub_key st1 = Some (item_bkey e, false)). rewrite Hprev1.
      destruct (kept_in_range K) eqn:Ein; [done|]. by rewrite (not_freed K e Hs Ein).
    + rewrite last_snoc. exists e. split; [done|apply bkey_order_refl].
    + change (merged_count st') with (merged_count st1). split; [lia|lia].
Qed.

Lemma merge_loop_spec n : forall st rems K prev,
  merging_inv st rems K prev -> length (concat rems) = n ->
  exists L st' rems',
    merges byte_array (is_descending into) rems L
    /\ merge_loop n byte_array st = Some st'
    /\ parts_hold (merge_from st') rems'
    /\ map missed_of (parts (merge_from st')) = map missed_of (parts (merge_from st))
    /\ merged_of (K ++ kept prev L) st'.
Proof.
  induction n as [|n IH]; intros st rems K prev Hinv Hn.
  - exists [], st, rems. split; [|split; [done|split; [apply Hinv|split; [done|]]]].
    + constructor. clear -Hn. induction rems as [|l rems IH]; [constructor|]. cbn in Hn.
      rewrite length_app in Hn. constructor; [destruct l; [done|cbn in Hn; lia]|apply IH; lia].
    + unfold kept. cbn. destruct unique; rewrite app_nil_r; apply Hinv.
  - destruct (merge_step_spec st rems K prev Hinv) as
      (j & e & rest & st1 & stop & Hstep & Hj & Hmin & Hparts & Hmissed & Hof & Hstop & Hgo);
      [by intros E; rewrite E in Hn|].
    pose proof (Permutation_length (concat_insert_perm _ _ _ _ Hj)) as Hlen. cbn in Hlen.
    cbn [merge_loop]. rewrite Hstep. cbn [mbind option_bind]. destruct stop.
    + destruct (merges_exists byte_array (is_descending into) _ (<[j := rest]> rems) eq_refl) as [L HL].
      exists (e :: L), st1, (<[j := rest]> rems). split; [by econstructor|]. split_and!; [done..|].
      rewrite kept_cons. destruct (repeats prev e && unique); cbn [app].
      all: destruct Hof as [H1 H2 H3 H4 H5]; specialize (Hstop eq_refl).
      all: split; [exact H1| | | |exact H5];
        (replace (K ++ e :: kept (Some e) L) with ((K ++ [e]) ++ kept (Some e) L) by by rewrite <- app_assoc) || idtac;
        rewrite in_range_full by (done || apply Hbounds); done.
    + destruct (IH st1 (<[j := rest]> rems) _ (Some e) (Hgo eq_refl)) as (L & st2 & rems2 & HL & Hloop & Hp2 & Hm2 & Hof2);
        [lia|].
      exists (e :: L), st2, rems2. split; [by econstructor|]. split_and!; [done..|by rewrite Hm2|].
      rewrite kept_cons. destruct (repeats prev e && unique); [exact Hof2|].
      by rewrite <- app_assoc in Hof2.
Qed.
End Merging.

(** ** The merged result *)

(** Freeing what is left of a part. *)
Lemma free_elements_spec n : forall x r,
  (forall y, (y < n)%nat -> exists e, element_here r (Z.of_nat (x + y)) e) ->
  exists r', foldr (fun y r => r ← r; free_element y r) (Some r) (rev (map Z.of_nat (seq x n))) = Some r'
    /\ value_count r' = value_count r /\ missed_of r' = missed_of r.
Proof.
  induction n as [|n IH]; intros x r Hhere; [by exists r|].
  cbn [seq map rev]. rewrite foldr_app. cbn [foldr mbind option_bind].
  destruct (Hhere 0%nat ltac:(lia)) as [e He]. rewrite Nat.add_0_r in He.
  destruct (free_element_spec _ _ _ He) as (r1 & -> & Hv & Hm & _ & Hothers).
  destruct (IH (S x) r1) as (r2 & -> & Hv2 & Hm2).
  - intros y Hy. destruct (Hhere (S y) ltac:(lia)) as [e' He']. exists e'. apply Hothers; [lia|].
    by replace (S x + y)%nat with (x + S y)%nat by lia.
  - exists r2. split; [done|]. by rewrite Hv2, Hm2.
Qed.

Lemma free_rest_spec r x rem :
  0 <= x -> value_count r = x + Z.of_nat (length rem) -> elements_from r x rem ->
  exists r', free_rest r x = Some r' /\ value_count r' = 0 /\ missed_of r' = missed_of r.
Proof.
  intros Hx Hv Hfrom. unfold free_rest.
  destruct (free_elements_spec (Z.to_nat (value_count r - x)) (Z.to_nat x) r) as (r1 & -> & Hv1 & Hm1).
  - intros y Hy. destruct (lookup_lt_is_Some_2 rem y ltac:(lia)) as [e He]. exists e.
    replace (Z.of_nat (Z.to_nat x + y)) with (x + Z.of_nat y) by lia. by apply Hfrom.
  - eexists. split; [reflexivity|]. by split.
Qed.

(** All the parts are freed. *)
Lemma free_parts_spec byte_array m rems :
  parts_hold byte_array m rems ->
  exists results, mapM (fun p => free_rest p.1 p.2) (zip (parts m) (positions m)) = Some results
    /\ Forall (fun r => value_count r = 0) results /\ map missed_of results = map missed_of (parts m).
Proof.
  intros [Hparts Hpos Hat _]. destruct m as [ps xs]. cbn [parts positions] in *.
  revert xs rems Hparts Hpos Hat. induction ps as [|r ps IH]; intros [|x xs] [|rem rems] Hparts Hpos Hat; try done.
  - by exists [].
  - destruct (Hat 0%nat rem eq_refl) as (r0 & x0 & [= <- <-] & Hx & Hv & _ & Hfrom).
    destruct (free_rest_spec r x rem Hx Hv Hfrom) as (r' & Hr & Hv' & Hm').
    cbn [length] in Hparts, Hpos.
    destruct (IH xs rems ltac:(lia) ltac:(lia) (fun j => Hat (S j))) as (results & Hmap & Hall & Hmissed).
    exists (r' :: results). cbn [zip zip_with mapM]. cbn. rewrite Hr. cbn. rewrite Hmap. cbn.
    split; [done|]. split; [by constructor|]. by rewrite Hm', Hmissed.
Qed.

(** A missed key and why it was missed. *)
Definition missed_here (r : memcached_coll_smget_result_st) (x : Z)
    (k : memcached_string_st * memcached_return_t) : Prop :=
  at_index (missed_keys r) x = Some k.1 /\ at_index (missed_causes r) x = Some k.2.

Definition missed_from (r : memcached_coll_smget_result_st) (x : Z)
    (ks : list (memcached_string_st * memcached_return_t)) : Prop :=
  forall y k, ks !! y = Some k -> missed_here r (x + Z.of_nat y) k.

Record missed_room (m : memcached_coll_smget_result_st) (cap : nat) : Prop := {
  room_missed : room_of (missed_keys m) cap;
  room_causes : room_of (missed_causes m) cap;
}.

(** What the missed keys do not change. *)
Definition found_of (m : memcached_coll_smget_result_st) :=
  (smget_keys m, smget_sub_keys m, smget_values m, smget_flags m, smget_eflags m, smget_bytes m,
   (value_count m, trimmed_key_count m, smget_offset m, smget_count m)).

Lemma merge_missed_loop_spec ks : forall x done r m cap,
  0 <= x -> missed_from r x ks -> missed_from m 0 done -> missed_room m cap ->
  (length done + length ks <= cap)%nat ->
  exists m', merge_missed_loop (length ks) x (Z.of_nat (length done)) r m = Some m'
    /\ missed_from m' 0 (done ++ ks) /\ missed_room m' cap /\ found_of m' = found_of m.
Proof.
  induction ks as [|k ks IH]; intros x out r m cap Hx Hfrom Hout Hroom Hcap.
  - exists m. rewrite app_nil_r. by split_and!.
  - cbn [length] in Hcap. cbn [length merge_missed_loop]. destruct (Hfrom 0%nat k eq_refl) as [Hk Hc].
    rewrite Z.add_0_r in Hk, Hc. rewrite Hk. cbn [mbind option_bind]. rewrite Nat2Z.id.
    destruct (set_at_room _ cap (length out) k.1 (room_missed _ _ Hroom) ltac:(lia)) as (ak & -> & Rk & Ak & Ok).
    cbn [mbind option_bind]. rewrite Hc. cbn [mbind option_bind].
    destruct (set_at_room _ cap (length out) k.2 (room_causes _ _ Hroom) ltac:(lia)) as (ac & -> & Rc & Ac & Oc).
    cbn [mbind option_bind].
    set (m1 := m <| missed_keys := ak |> <| missed_causes := ac |>).
    destruct (IH (x + 1) (out ++ [k]) r m1 cap) as (m' & Hm & Hall & Hroom' & Hfound).
    + lia.
    + intros y k' Hy. replace (x + 1 + Z.of_nat y) with (x + Z.of_nat (S y)) by lia. by apply Hfrom.
    + intros y k' Hy. apply lookup_app_Some in Hy as [Hy|[Hle Hy]].
      * pose proof (lookup_lt_Some _ _ _ Hy) as Hlt. destruct (Hout y k' Hy) as [Hk' Hc'].
        split; cbn -[at_index]; [rewrite Ok by lia|rewrite Oc by lia]; done.
      * destruct (y - length out)%nat as [|i] eqn:Ey; [|by destruct i].
        injection Hy as <-. by replace (0 + Z.of_nat y) with (Z.of_nat (length out)) by lia.
    + done.
    + rewrite length_app. cbn. lia.
    + rewrite length_app in Hm. cbn [length] in Hm.
      replace (Z.of_nat (length out + 1)) with (Z.of_nat (length out) + 1) in Hm by lia.
      exists m'. rewrite Hm. rewrite <- app_assoc in Hall. by split_and!.
Qed.

Definition missed_list (r : memcached_coll_smget_result_st)
    (ks : list (memcached_string_st * memcached_return_t)) : Prop :=
  missed_key_count r = Z.of_nat (length ks) /\ missed_from r 0 ks.

Lemma missed_list_of r r' ks : missed_of r' = missed_of r -> missed_list r ks -> missed_list r' ks.
Proof.
  intros [= Hn Hk Hc] [Hlen Hfrom]. split; [by rewrite Hn|]. intros y k Hy. unfold missed_here.
  rewrite Hk, Hc. by apply Hfrom.
Qed.

Lemma missed_lists_of rs rs' missed :
  map missed_of rs' = map missed_of rs -> Forall2 missed_list rs missed -> Forall2 missed_list rs' missed.
Proof.
  intros Hm Hall. revert rs' Hm. induction Hall as [|r ks rs missed Hr _ IH]; intros [|r' rs'] Hm; try done.
  injection Hm as H1 H2 H3 Hm. constructor; [|by apply IH]. eapply missed_list_of; [|done]. unfold missed_of. congruence.
Qed.

Lemma merge_missed_spec rs missed : Forall2 missed_list rs missed -> forall out m cap,
  missed_from m 0 out -> missed_room m cap -> (length out + length (concat missed) <= cap)%nat ->
  exists m', merge_missed rs (Z.of_nat (length out)) m = Some m'
    /\ missed_from m' 0 (out ++ concat missed) /\ found_of m' = found_of m.
Proof.
  induction 1 as [|r ks rs missed [Hlen Hfrom] _ IH]; intros out m cap Hout Hroom Hcap.
  - exists m. cbn. by rewrite app_nil_r.
  - cbn [concat] in *. rewrite length_app in Hcap. cbn [merge_missed]. rewrite Hlen, Nat2Z.id.
    destruct (merge_missed_loop_spec ks 0 out r m cap ltac:(lia) Hfrom Hout Hroom ltac:(lia))
      as (m1 & -> & Hout1 & Hroom1 & Hfound1). cbn [mbind option_bind].
    destruct (IH (out ++ ks) m1 cap Hout1 Hroom1) as (m2 & Hm2 & Hout2 & Hfound2);
      [rewrite length_app; lia|].
    rewrite length_app, Nat2Z.inj_add in Hm2. exists m2. rewrite Hm2, <- app_assoc in *.
    split; [done|]. split; [done|]. congruence.
Qed.

(** The elements of a server, in order. *)
Definition sorted_part (byte_array descending : bool) (r : memcached_coll_smget_result_st)
    (es : list smget_element_of) : Prop :=
  value_count r = Z.of_nat (length es) /\ value_count r < 2 ^ 64 /\ elements_from r 0 es
  /\ Forall (good byte_array) es /\ StronglySorted (before byte_array descending) es.

Lemma parts_hold_start byte_array descending results lists :
  Forall2 (sorted_part byte_array descending) results lists ->
  parts_hold byte_array {| parts := results; positions := replicate (length results) 0 |} lists.
Proof.
  intros Hall. pose proof (Forall2_length _ _ _ Hall) as Hlen. split; cbn [parts positions].
  - done.
  - by rewrite length_replicate.
  - intros j rem Hj. destruct (Forall2_lookup_r _ _ _ _ _ Hall Hj) as (r & Hr & Hv & Hlt & Hfrom & _).
    exists r, 0. unfold part_at. cbn [parts positions]. rewrite Hr. cbn [mbind option_bind].
    rewrite lookup_replicate_2 by by apply lookup_lt_Some in Hr. by split_and!.
  - apply Forall_lookup. intros j rem Hj.
    by destruct (Forall2_lookup_r _ _ _ _ _ Hall Hj) as (r & Hr & Hv & Hlt & Hfrom & Hgood & _).
Qed.

(** C18: when each server has sent its elements in order, the results are merged into one: the
    elements that are in it are, of a sorted arrangement of all the elements of all the
    servers - without the repeated bkeys for a get of unique bkeys -, those in the range from
    the offset that was asked for, at most as many as were asked for; the code is DUPLICATED
    exactly when two neighbours of them have the same bkey, and END otherwise; the missed keys
    of all servers are there with their causes; and nothing is left in the results of the
    servers.  (For byte arrays as bkeys with the offset 0, and without trimmed keys.) *)
Theorem merge_smget_results_sorted results into lists missed :
  let byte_array := byte_array_keys (smget_sub_key_type into) in
  let descending := is_descending into in
  (length results <= 256)%nat ->
  Forall2 (sorted_part byte_array descending) results lists ->
  Forall2 missed_list results missed ->
  value_count into = Z.of_nat (length (concat lists)) ->
  trimmed_key_count into = 0 ->
  merged_room into (length (concat lists)) -> missed_room into (length (concat missed)) ->
  0 <= smget_offset into /\ 0 <= smget_count into /\ smget_offset into + smget_count into < 2 ^ 64 ->
  (byte_array = true -> smget_offset into = 0) ->
  exists rc results' into' L,
    merge_smget_results results into = Some (rc, results', into')
    /\ L ≡ₚ concat lists /\ StronglySorted (before byte_array descending) L
    /\ let looked_at := if bool_decide (smget_smgmode into = MEMCACHED_COLL_SMGET_UNIQUE)
                        then unique_bkeys byte_array None L else L in
       let out := in_range (smget_offset into) (smget_count into) looked_at in
       value_count into' = Z.of_nat (length out) /\ elements_from into' 0 out
       /\ rc = (if has_duplicate byte_array out then MEMCACHED_DUPLICATED else MEMCACHED_END)
       /\ missed_from into' 0 (concat missed)
       /\ Forall (fun r => value_count r = 0 /\ missed_key_count r = 0) results'.
Proof.
  intros byte_array descending Hlen Hsorted Hmissed Hcount Htrimmed Hroom Hmroom Hbounds Harrays.
  set (st0 := {| merge_from := {| parts := results; positions := replicate (length results) 0 |};
                 prev_sub_key := None; merged_count := 0; found_count := 0; merge_rc := MEMCACHED_END;
                 merged := into |}).
  assert (Hinv : merging_inv byte_array into (length (concat lists)) st0 lists [] None).
  { split; cbn; try done; [by apply (parts_hold_start _ descending)|].
    split; cbn; try done; unfold in_range; rewrite drop_nil, take_nil; done. }
  destruct (merge_loop_spec byte_array into (length (concat lists)) Hbounds Harrays _ st0 lists [] None Hinv eq_refl)
    as (L & st & rems & Hmerges & Hloop & Hhold & Hm & Hof).
  destruct (free_parts_spec _ _ _ Hhold) as (rs & Hfree & Hzero & Hm').
  destruct Hof as [_ Hout Hn Hrc Hframe]. cbn [app] in *.
  set (m1 := (merged st) <| value_count := merged_count st |>).
  assert (Hroom1 : missed_room m1 (length (concat missed))).
  { unfold frame in Hframe. injection Hframe. intros. destruct Hmroom. split; cbn; congruence. }
  assert (Hmissed' : Forall2 missed_list rs missed) by (eapply missed_lists_of; [|done]; by rewrite Hm', Hm).
  destruct (merge_missed_spec rs missed Hmissed' [] m1 (length (concat missed))) as (m2 & Hm2 & Hks & Hfound);
    [by intros y k Hy|done|done|].
  exists (merge_rc st), (map (fun r => r <| missed_key_count := 0 |>) rs), (m2 <| trimmed_key_count := 0 |>), L.
  assert (Ht : trimmed_key_count m2 = 0).
  { injection Hfound. intros. unfold frame in Hframe. injection Hframe. intros. cbn in *. congruence. }
  split; [|split; [|split; [|cbv zeta; split; [|split; [|split; [|split]]]]]].
  - unfold merge_smget_results, first_positions. rewrite (proj2 (Nat.leb_le _ _)) by done.
    cbn [mbind option_bind]. rewrite Hcount, Nat2Z.id. fold byte_array st0. rewrite Hloop.
    cbn [mbind option_bind]. rewrite Hfree. cbn [mbind option_bind]. fold m1.
    change (Z.of_nat (length [])) with 0 in Hm2.
    rewrite Hm2. cbn [mbind option_bind]. rewrite Ht. reflexivity.
  - by eapply merges_permutation.
  - eapply merges_sorted; [exact Hmerges|]. apply Forall_lookup. intros j l Hj.
    by destruct (Forall2_lookup_r _ _ _ _ _ Hsorted Hj) as (r & _ & _ & _ & _ & _ & Hs).
  - injection Hfound. intros. cbn in *. unfold kept in Hn. congruence.
  - intros y e Hy. unfold kept in Hout. destruct (Hout y e Hy) as (A1 & A2 & A3 & A4 & A5 & A6).
    injection Hfound. intros. cbn in *. split_and!; cbn -[at_index]; congruence.
  - exact Hrc.
  - exact Hks.
  - clear -Hzero. induction Hzero; constructor; [|done]. by split.
Qed.

(** ** Examples *)

Definition a_string (text : bytes) : memcached_string_st :=
  {| string_is_allocated := false; string_is_initialized := true; current_size := 1024;
     string_block := Some (text ++ [Byte.x00]); string_end := length text |}.

Definition an_array (a : bytes) : memcached_hexadecimal_st :=
  {| array := Some a; array_length := Z.of_nat (length a); array_is_allocated := true |}.

Definition an_element (bkey : memcached_coll_sub_key_st) (key : string) : smget_element_of :=
  {| item_key_string := a_string (str key); item_bkey := bkey; item_value_string := a_string (str "v");
     item_flags_of := 0; item_eflag_of := an_array []; item_size := 1 |}.

(** The result with these elements and missed keys. *)
Definition part_of (type : memcached_coll_sub_key_type_t) (es : list smget_element_of)
    (missed : list (memcached_string_st * memcached_return_t)) : memcached_coll_smget_result_st :=
  {| smget_type := COLL_BTREE; smget_sub_key_type := type;
     smget_sub_keys := Some (map item_bkey es); smget_eflags := Some (map item_eflag_of es);
     value_count := Z.of_nat (length es); smget_keys := Some (map item_key_string es);
     smget_flags := Some (map item_flags_of es); smget_bytes := Some (map item_size es);
     smget_values := Some (map item_value_string es);
     missed_key_count := Z.of_nat (length missed); missed_keys := Some (map fst missed);
     missed_causes := Some (map snd missed);
     trimmed_key_count := 0; trimmed_keys := None; trimmed_sub_keys := None;
     smget_offset := 0; smget_count := 0; smget_smgmode := MEMCACHED_COLL_SMGET_NONE;
     smget_is_allocated := true; smget_is_initialized := true; is_descending := false |}.

(** The result into which they are merged, with room for as many. *)
Definition room_for (type : memcached_coll_sub_key_type_t) (n k : nat) (offset count : Z)
    (mode : memcached_coll_smget_mode_t) : memcached_coll_smget_result_st :=
  (part_of type (replicate n (an_element (sub_bkey 0) "")) (replicate k (a_string [], MEMCACHED_SUCCESS)))
    <| smget_offset := offset |> <| smget_count := count |> <| smget_smgmode := mode |>.

Lemma part_of_elements type es missed : elements_from (part_of type es missed) 0 es.
Proof.
  intros y e Hy. unfold element_here. rewrite Z.add_0_l. cbn [part_of smget_keys smget_sub_keys smget_values
    smget_flags smget_eflags smget_bytes]. rewrite !at_index_nat.
  change @map with @list_fmap. rewrite !list_lookup_fmap, Hy. done.
Qed.

Lemma part_of_missed type es missed : missed_list (part_of type es missed) missed.
Proof.
  split; [done|]. intros y k Hy. unfold missed_here. rewrite Z.add_0_l.
  cbn [part_of missed_keys missed_causes]. rewrite !at_index_nat.
  change @map with @list_fmap. by rewrite !list_lookup_fmap, Hy.
Qed.

Lemma room_map {A B} (f : A -> B) n x : room_of (Some (map f (replicate n x))) n.
Proof. eexists. split; [done|]. by rewrite length_map, length_replicate. Qed.

Lemma room_for_elements type n k offset count mode : merged_room (room_for type n k offset count mode) n.
Proof. split; apply room_map. Qed.

Lemma room_for_missed type n k offset count mode : missed_room (room_for type n k offset count mode) k.
Proof. split; apply room_map. Qed.

(** Two servers with the bkeys 1 and 3, and 3 and 7. *)
Definition first_server : list smget_element_of := [an_element (sub_bkey 1) "a"; an_element (sub_bkey 3) "a"].
Definition second_server : list smget_element_of := [an_element (sub_bkey 3) "b"; an_element (sub_bkey 7) "b"].
Definition missed_of_second : list (memcached_string_st * memcached_return_t) :=
  [(a_string (str "c"), MEMCACHED_NOTFOUND)].

Lemma sorted_number_part (l : list (Z * string)) missed :
  let es := map (fun p => an_element (sub_bkey p.1) p.2) l in
  Z.of_nat (length l) < 2 ^ 64 -> Forall (fun e => string_block (item_key_string e) ≫= cstring <> None) es ->
  StronglySorted (before false false) es ->
  sorted_part false false (part_of MEMCACHED_COLL_QUERY_BOP es missed) es.
Proof.
  intros es Hlen Hkeys Hsorted. split; [done|]. split; [cbn; unfold es; by rewrite length_map|].
  split; [apply part_of_elements|]. split; [|done]. apply Forall_forall. intros e He. split.
  - pose proof (proj1 (Forall_forall _ _) Hkeys e He). apply list_elem_of_In, in_map_iff in He as (p & <- & _). by split.
  - apply list_elem_of_In, in_map_iff in He as (p & <- & _). by eexists.
Qed.

Lemma merge_smget_results_sorted_witness :
  exists rc results' into' L,
    merge_smget_results
      [part_of MEMCACHED_COLL_QUERY_BOP first_server []; part_of MEMCACHED_COLL_QUERY_BOP second_server missed_of_second]
      (room_for MEMCACHED_COLL_QUERY_BOP 4 1 0 3 MEMCACHED_COLL_SMGET_DUPLICATE) = Some (rc, results', into')
    /\ L ≡ₚ concat [first_server; second_server] /\ StronglySorted (before false false) L
    /\ let out := in_range 0 3 L in
       value_count into' = Z.of_nat (length out) /\ elements_from into' 0 out
       /\ rc = (if has_duplicate false out then MEMCACHED_DUPLICATED else MEMCACHED_END)
       /\ missed_from into' 0 (concat [[]; missed_of_second])
       /\ Forall (fun r => value_count r = 0 /\ missed_key_count r = 0) results'.
Proof.
  refine (merge_smget_results_sorted
    [part_of MEMCACHED_COLL_QUERY_BOP first_server []; part_of MEMCACHED_COLL_QUERY_BOP second_server missed_of_second]
    (room_for MEMCACHED_COLL_QUERY_BOP 4 1 0 3 MEMCACHED_COLL_SMGET_DUPLICATE)
    [first_server; second_server] [[]; missed_of_second] _ _ _ _ _ _ _ _ _).
  - cbn. lia.
  - constructor; [|constructor; [|constructor]].
    + apply (sorted_number_part [(1, "a"%string); (3, "a"%string)]); [done|..]; repeat (constructor; try done).
    + apply (sorted_number_part [(3, "b"%string); (7, "b"%string)]); [done|..]; repeat (constructor; try done).
  - constructor; [|constructor; [|constructor]]; apply part_of_missed.
  - reflexivity.
  - reflexivity.
  - apply room_for_elements.
  - apply room_for_missed.
  - cbn. lia.
  - done.
Defined.

(** The same example by computation: the elements 1, 3 and 3, of which two have the same
    bkey. *)
Lemma merged_example :
  (fun a => let '(rc, _, m) := a in (rc, value_count m, take 3 (default [] (smget_sub_keys m))))
    <$> merge_smget_results
          [part_of MEMCACHED_COLL_QUERY_BOP first_server []; part_of MEMCACHED_COLL_QUERY_BOP second_server missed_of_second]
          (room_for MEMCACHED_COLL_QUERY_BOP 4 1 0 3 MEMCACHED_COLL_SMGET_DUPLICATE)
  = Some (MEMCACHED_DUPLICATED, 3, [sub_bkey 1; sub_bkey 3; sub_bkey 3]).
Proof. vm_compute. reflexivity. Qed.

(** With byte arrays as bkeys and an offset, the bkey of an element in front of the range is
    freed and then compared with that of the next one. *)
Lemma merge_compares_freed_bkey :
  let es := [an_element (sub_bkey_ext (an_array [Byte.x01])) "a"; an_element (sub_bkey_ext (an_array [Byte.x02])) "a"] in
  let into offset := room_for MEMCACHED_COLL_QUERY_BOP_EXT 2 0 offset 1 MEMCACHED_COLL_SMGET_DUPLICATE in
  is_Some (merge_smget_results [part_of MEMCACHED_COLL_QUERY_BOP_EXT es []] (into 0))
  /\ merge_smget_results [part_of MEMCACHED_COLL_QUERY_BOP_EXT es []] (into 1) = None.
Proof. split; [eexists|]; vm_compute; reflexivity. Qed.

(** Trimmed keys are merged by reading the last element that was found, which there is
    none of when the range is empty. *)
Lemma trimmed_without_elements :
  let part := (part_of MEMCACHED_COLL_QUERY_BOP [] [])
                <| trimmed_key_count := 1 |> <| trimmed_keys := Some [a_string (str "a")] |>
                <| trimmed_sub_keys := Some [sub_bkey 5] |> in
  merge_smget_results [part]
    ((room_for MEMCACHED_COLL_QUERY_BOP 0 0 0 3 MEMCACHED_COLL_SMGET_DUPLICATE)
       <| trimmed_key_count := 1 |> <| trimmed_keys := Some [a_string []] |>
       <| trimmed_sub_keys := Some [sub_bkey 0] |>) = None.
Proof. vm_compute. reflexivity. Qed.
