(* ===== verification/Pool.v ===== *)
(** The pool of handles: util/pool.cc, as it is built with ZooKeeper.

    Handles are at addresses in a heap, so that a list that runs through
    [mc_next], a handle that was freed and one that two clients hold can be told.
    [None] is the use of memory that was freed or never allocated, or a write
    behind an array.  Every function runs with [mutex] held, except where it gives
    the lock away: there it is cut into the parts between, which other threads may
    come between.

    What other files do is an argument: whether [memcached_clone] succeeds and at
    what address, whether a member follows the servers of the master, and whether
    a behavior can be set. *)
From S2P Require Import Prelude HashFunctions Hashkit Memcached.

(** ** The state *)

(** What the pool uses of a [memcached_st]. *)
Record member := {
  mc_next : option nat;
  version : Z;
  ketama_version : Z;
}.

#[export] Instance member_fields : Fields member := fun r =>
  {| mc_next := mc_next r; version := version r; ketama_version := ketama_version r |}.

(** [struct memcached_pool_st]; [mc_pool] and [bk_pool] are the entries up to
    [mc_top] and [bk_top] of arrays with [max_size] entries, and [cond] is how many
    clients sleep at the condition variable. *)
Record memcached_pool_st := {
  members : gmap nat member;
  used_mc_head : option nat;
  used_mc_tail : option nat;
  used_bk_head : option nat;
  used_bk_tail : option nat;
  mc_pool : list nat;
  bk_pool : list nat;
  cond : nat;
  wait_count : Z;
  max_size : Z;
  cur_size : Z;
  master_version : Z;
  master_ketama_version : Z;
}.

#[export] Instance pool_fields : Fields memcached_pool_st := fun r =>
  {| members := members r; used_mc_head := used_mc_head r; used_mc_tail := used_mc_tail r;
     used_bk_head := used_bk_head r; used_bk_tail := used_bk_tail r; mc_pool := mc_pool r;
     bk_pool := bk_pool r; cond := cond r; wait_count := wait_count r; max_size := max_size r;
     cur_size := cur_size r; master_version := master_version r;
     master_ketama_version := master_ketama_version r |}.

(** Reading and writing a handle, and giving it back. *)
Definition get_member (pool : memcached_pool_st) (mc : nat) : option member := members pool !! mc.

Definition set_member (pool : memcached_pool_st) (mc : nat) (f : member -> member)
    : option memcached_pool_st :=
  m ← members pool !! mc;
  Some (pool <| members ::= <[mc := f m]> |>).

Definition memcached_free (pool : memcached_pool_st) (mc : nat) : option memcached_pool_st :=
  _ ← members pool !! mc;
  Some (pool <| members ::= delete mc |>).

(** [memcached_clone(NULL, master)]: a handle with the versions of the master, at
    the address that is offered, when that is not in use. *)
Definition memcached_clone (pool : memcached_pool_st) (addr : option nat)
    : option (nat * memcached_pool_st) :=
  match addr with
  | Some mc =>
      match members pool !! mc with
      | Some _ => None
      | None =>
          Some (mc, pool <| members ::= <[mc := {| mc_next := None;
                                                   version := master_version pool;
                                                   ketama_version := master_ketama_version pool |}]> |>)
      end
  | None => None
  end.

Definition increment_version (pool : memcached_pool_st) : memcached_pool_st :=
  pool <| master_version ::= fun v => i32 (v + 1) |>.
Definition increment_ketama_version (pool : memcached_pool_st) : memcached_pool_st :=
  pool <| master_ketama_version ::= fun v => i32 (v + 1) |>.

(** [ok] is the success of [memcached_update_cachelist_with_master]. *)
Definition member_update_cachelist (ok : bool) (pool : memcached_pool_st) (mc : nat)
    : option memcached_pool_st :=
  set_member pool mc (fun m =>
    if ok then m <| ketama_version := master_ketama_version pool |> else m).

(** ** The lists and the arrays *)

Section Handles.
(** Whether a handle can follow the master. *)
Variable update_ok : nat -> bool.

Definition mc_list_get (pool : memcached_pool_st) : option (option nat * memcached_pool_st) :=
  match used_bk_head pool with
  | Some mc =>
      m ← get_member pool mc;
      let pool := pool <| used_bk_head := mc_next m |> in
      let pool := if bool_decide (mc_next m = None) then pool <| used_bk_tail := None |> else pool in
      pool ← member_update_cachelist (update_ok mc) pool mc;
      Some (Some mc, pool)
  | None =>
      match used_mc_head pool with
      | Some mc =>
          m ← get_member pool mc;
          let pool := pool <| used_mc_head := mc_next m |> in
          Some (Some mc, if bool_decide (mc_next m = None) then pool <| used_mc_tail := None |>
                         else pool)
      | None => Some (None, pool)
      end
  end.

(** [pthread_cond_broadcast], when somebody waits. *)
Definition wake_up (pool : memcached_pool_st) : memcached_pool_st :=
  if 0 <? wait_count pool then pool <| cond := O |> else pool.

Definition mc_list_add (pool : memcached_pool_st) (head : bool) (mc : nat)
    : option memcached_pool_st :=
  if head then
    pool ← set_member pool mc (fun m => m <| mc_next := used_mc_head pool |>);
    let pool := pool <| used_mc_head := Some mc |> in
    Some (wake_up (if bool_decide (used_mc_tail pool = None)
                   then pool <| used_mc_tail := Some mc |> else pool))
  else
    pool ← set_member pool mc (fun m => m <| mc_next := None |>);
    pool ← (match used_mc_tail pool with
            | Some tail => set_member pool tail (fun m => m <| mc_next := Some mc |>)
            | None => Some (pool <| used_mc_head := Some mc |>)
            end);
    Some (wake_up (pool <| used_mc_tail := Some mc |>)).

(** The last entry of an array, and the others. *)
Definition pop (l : list nat) : option (list nat * nat) :=
  match rev l with [] => None | x :: r => Some (rev r, x) end.

Definition mc_pool_get (pool : memcached_pool_st) : option (option nat * memcached_pool_st) :=
  match pop (bk_pool pool) with
  | Some (l, mc) =>
      pool ← member_update_cachelist (update_ok mc) (pool <| bk_pool := l |>) mc;
      Some (Some mc, pool)
  | None =>
      match pop (mc_pool pool) with
      | Some (l, mc) => Some (Some mc, pool <| mc_pool := l |>)
      | None => Some (None, pool)
      end
  end.

(** [mc_pool[++mc_top]= mc]. *)
Definition push (pool : memcached_pool_st) (mc : nat) : option memcached_pool_st :=
  if Z.of_nat (length (mc_pool pool)) <? max_size pool
  then Some (pool <| mc_pool ::= fun l => l ++ [mc] |>)
  else None.

Definition mc_pool_add (pool : memcached_pool_st) (mc : nat) : option memcached_pool_st :=
  pool ← push pool mc;
  Some (wake_up pool).

(** Whether it succeeded, and the pool. *)
Definition grow_pool (pool : memcached_pool_st) (addr : option nat)
    : option (bool * memcached_pool_st) :=
  match memcached_clone pool addr with
  | None => Some (false, pool)
  | Some (obj, pool) =>
      pool ← push pool obj;
      pool ← set_member (pool <| cur_size ::= fun n => n ⊞ 1 |>) obj (fun m =>
               m <| ketama_version := master_ketama_version pool |>
                 <| version := master_version pool |>);
      Some (true, pool)
  end.

(** The loops that grow the pool [n] times, or until it fails. *)
Fixpoint grow_loop (n : nat) (pool : memcached_pool_st) (addrs : list (option nat))
    : option memcached_pool_st :=
  match n with
  | O => Some pool
  | S n =>
      '(ok, pool) ← grow_pool pool (mjoin (head addrs));
      if ok : bool then grow_loop n pool (tail addrs) else Some pool
  end.

(** The pool of [memcached_pool_create]; [None] in the result is NULL. *)
Definition memcached_pool_create (initial max v k : Z) (addrs : list (option nat))
    : option (option memcached_pool_st) :=
  if (initial =? 0) || (max =? 0) || (initial >? max) then Some None
  else
    pool ← grow_loop (Z.to_nat initial)
      {| members := ∅; used_mc_head := None; used_mc_tail := None; used_bk_head := None;
         used_bk_tail := None; mc_pool := []; bk_pool := []; cond := 0; wait_count := 0;
         max_size := u32 (max + 1); cur_size := 0; master_version := v;
         master_ketama_version := k |} addrs;
    Some (Some pool).

(** ** Fetching and releasing *)

(** A client gets a handle, an error, or waits for one. *)
Inductive fetched_result :=
  | Fetched (mc : nat)
  | Failed (rc : memcached_return_t)
  | Waiting.

(** The loop, until the condition variable has to be waited for; [wait] is the
    time that was given.  After the pool has grown the next round finds the new
    handle, so that two rounds are enough. *)
Fixpoint fetch_loop (fuel : nat) (wait : bool) (pool : memcached_pool_st) (addr : option nat)
    : option (fetched_result * memcached_pool_st) :=
  match fuel with
  | O => None
  | S fuel =>
      '(ret, pool) ← mc_list_get pool;
      match ret with
      | Some mc => Some (Fetched mc, pool)
      | None =>
          '(ret, pool) ← mc_pool_get pool;
          match ret with
          | Some mc => Some (Fetched mc, pool)
          | None =>
              if cur_size pool <? max_size pool then
                '(ok, pool) ← grow_pool pool addr;
                if ok : bool then fetch_loop fuel wait pool addr
                else Some (Failed MEMCACHED_MEMORY_ALLOCATION_FAILURE, pool)
              else if negb wait then Some (Failed MEMCACHED_NOTFOUND, pool)
              else Some (Waiting, pool <| wait_count ::= fun n => n ⊞ 1 |> <| cond ::= S |>)
          end
      end
  end.

Definition fetch (wait : bool) (pool : memcached_pool_st) (addr : option nat)
    : option (fetched_result * memcached_pool_st) :=
  fetch_loop 2 wait pool addr.

(** What [pthread_cond_timedwait] returned: 0, that the time is over, or an error. *)
Inductive wake_reason := Woken | Timedout | WaitError.

(** Where a client goes on that waited, with the lock again; [asleep] if nobody
    woke it. *)
Definition fetch_wake (reason : wake_reason) (asleep : bool) (pool : memcached_pool_st) (addr : option nat)
    : option (fetched_result * memcached_pool_st) :=
  let pool := (if asleep then pool <| cond ::= pred |> else pool)
                <| wait_count ::= fun n => n ⊟ 1 |> in
  match reason with
  | Woken => fetch true pool addr
  | Timedout => Some (Failed MEMCACHED_TIMEOUT, pool)
  | WaitError => Some (Failed MEMCACHED_ERRNO, pool)
  end.

(** The handle that is put on the list: another one when the behaviors of the
    pool were changed meanwhile. *)
Definition release (pool : memcached_pool_st) (released : nat) (addr : option nat)
    : option memcached_pool_st :=
  m ← get_member pool released;
  '(mc, pool) ←
    (if negb (version m =? master_version pool) then
       match memcached_clone pool addr with
       | Some (memc, pool) =>
           pool ← memcached_free pool released;
           Some (memc, pool)
       | None => Some (released, pool)
       end
     else if negb (ketama_version m =? master_ketama_version pool) then
       pool ← member_update_cachelist (update_ok released) pool released;
       Some (released, pool)
     else Some (released, pool));
  mc_list_add pool true mc.

Definition memcached_pool_update_member (pool : memcached_pool_st) (mc : nat)
    : option memcached_pool_st :=
  m ← get_member pool mc;
  if negb (ketama_version m =? master_ketama_version pool)
  then member_update_cachelist (update_ok mc) pool mc
  else Some pool.

(** ** Changing all handles *)

(** The loop over the array: every handle is replaced by a clone of the master,
    where there is one to be had, when [keep] does not hold of it. *)
Fixpoint reclone_loop (keep : nat -> bool) (n i : nat) (pool : memcached_pool_st)
    (addrs : list (option nat)) : option (memcached_pool_st * list (option nat)) :=
  match n with
  | O => Some (pool, addrs)
  | S n =>
      mc ← mc_pool pool !! i;
      if keep mc then
        pool ← set_member pool mc (fun m => m <| version := master_version pool |>);
        reclone_loop keep n (S i) pool addrs
      else
        pool ← (match memcached_clone pool (mjoin (head addrs)) with
                | Some (memc, pool) =>
                    pool ← memcached_free pool mc;
                    Some (pool <| mc_pool ::= <[i := memc]> |>)
                | None => Some pool
                end);
        reclone_loop keep n (S i) pool (tail addrs)
  end.

Definition reclone (keep : nat -> bool) (pool : memcached_pool_st) (addrs : list (option nat))
    : option (memcached_pool_st * list (option nat)) :=
  reclone_loop keep (length (mc_pool pool)) 0 pool addrs.

(** [set_ok] is the success of [memcached_behavior_set] on a handle. *)
Fixpoint mc_list_behavior_set (fuel : nat) (set_ok : nat -> bool) (pool : memcached_pool_st)
    (prev curr : option nat) (removed_count : nat) : option (nat * memcached_pool_st) :=
  match curr with
  | None => Some (removed_count, pool)
  | Some c =>
      match fuel with
      | O => None
      | S fuel =>
          m ← get_member pool c;
          if set_ok c then
            pool ← set_member pool c (fun m => m <| version := master_version pool |>);
            mc_list_behavior_set fuel set_ok pool (Some c) (mc_next m) removed_count
          else
            pool ← (match prev with
                    | Some p => set_member pool p (fun x => x <| mc_next := mc_next m |>)
                    | None =>
                        let pool := pool <| used_mc_head := mc_next m |> in
                        Some (if bool_decide (mc_next m = None) then pool <| used_mc_tail := None |>
                              else pool)
                    end);
            pool ← memcached_free pool c;
            let pool := pool <| cur_size ::= fun n => n ⊟ 1 |> in
            curr ← (match prev with
                    | Some _ => m ← get_member pool c; Some (mc_next m)
                    | None => Some (used_mc_head pool)
                    end);
            mc_list_behavior_set fuel set_ok pool prev curr (S removed_count)
      end
  end.

(** The code, whether [master_lock] was given back, and the pool; [rc] is what
    setting the behavior of the master gave. *)
Definition memcached_pool_behavior_set (rc : memcached_return_t) (set_ok : nat -> bool)
    (pool : memcached_pool_st) (addrs : list (option nat))
    : option (memcached_return_t * bool * memcached_pool_st) :=
  if memcached_failed rc then Some (rc, false, pool)
  else
    let pool := increment_version pool in
    '(pool, addrs) ← reclone set_ok pool addrs;
    '(removed_count, pool) ←
      mc_list_behavior_set (base.size (members pool)) set_ok pool None (used_mc_head pool) 0;
    pool ← grow_loop removed_count pool addrs;
    Some (rc, true, pool).

Fixpoint mc_list_remove_all (fuel : nat) (pool : memcached_pool_st) (removed_count : nat)
    : option (nat * memcached_pool_st) :=
  match used_mc_head pool with
  | None => Some (removed_count, pool <| used_mc_tail := None |>)
  | Some mc =>
      match fuel with
      | O => None
      | S fuel =>
          m ← get_member pool mc;
          pool ← memcached_free (pool <| used_mc_head := mc_next m |>) mc;
          mc_list_remove_all fuel (pool <| cur_size ::= fun n => n ⊟ 1 |>) (S removed_count)
      end
  end.

(** The part that repopulating and the first update share: all handles are made
    anew. *)
Definition renew (pool : memcached_pool_st) (addrs : list (option nat)) : option memcached_pool_st :=
  let pool := increment_version (increment_ketama_version pool) in
  '(pool, addrs) ← reclone (fun _ => false) pool addrs;
  '(removed_count, pool) ← mc_list_remove_all (base.size (members pool)) pool 0;
  grow_loop removed_count pool addrs.

Definition memcached_pool_repopulate (pool : memcached_pool_st) (addrs : list (option nat))
    : option (memcached_return_t * memcached_pool_st) :=
  pool ← renew pool addrs;
  Some (MEMCACHED_SUCCESS, pool).

(** Where an update of the servers is: the handle that it took off the list or
    the array to change it without the lock. *)
Inductive phase := Idle | UpdatingList (mc : nat) | UpdatingPool (mc : nat) | Stuck.

(** The loops of [mc_list_update_cachelist] and [mc_pool_update_cachelist], up to
    where they give the lock away. *)
Definition update_next (pool : memcached_pool_st) : option (phase * memcached_pool_st) :=
  match used_bk_head pool with
  | Some mc =>
      m ← get_member pool mc;
      let pool := pool <| used_bk_head := mc_next m |> in
      Some (UpdatingList mc,
            if bool_decide (mc_next m = None) then pool <| used_bk_tail := None |> else pool)
  | None =>
      Some (match pop (bk_pool pool) with
            | Some (l, mc) => (UpdatingPool mc, pool <| bk_pool := l |>)
            | None => (Idle, pool)
            end)
  end.

(** [memcached_pool_update_cachelist]: [rc] and [changed] are what the update of
    the master gave. *)
Definition memcached_pool_update_cachelist (rc : memcached_return_t) (changed init : bool)
    (pool : memcached_pool_st) (addrs : list (option nat))
    : option (memcached_return_t * phase * memcached_pool_st) :=
  if init then
    pool ← renew pool addrs;
    Some (MEMCACHED_SUCCESS, Idle, pool)
  else if bool_decide (rc = MEMCACHED_SUCCESS) && changed then
    let pool := increment_ketama_version pool in
    let pool := pool <| used_bk_head := used_mc_head pool |> <| used_bk_tail := used_mc_tail pool |>
                     <| used_mc_head := None |> <| used_mc_tail := None |> in
    let pool := if bool_decide (mc_pool pool = []) then pool
                else pool <| bk_pool := mc_pool pool |> <| mc_pool := [] |> in
    '(ph, pool) ← update_next pool;
    Some (rc, ph, pool)
  else Some (rc, Idle, pool).

(** Where the update goes on with the lock again. *)
Definition update_continue (ph : phase) (pool : memcached_pool_st)
    : option (phase * memcached_pool_st) :=
  match ph with
  | UpdatingList mc =>
      pool ← member_update_cachelist (update_ok mc) pool mc;
      pool ← mc_list_add pool false mc;
      update_next pool
  | UpdatingPool mc =>
      pool ← member_update_cachelist (update_ok mc) pool mc;
      pool ← mc_pool_add pool mc;
      update_next pool
  | _ => Some (ph, pool)
  end.

(** The destructor; the handles that are left are those that clients hold. *)
Fixpoint free_list (fuel : nat) (pool : memcached_pool_st) (head : option nat)
    : option memcached_pool_st :=
  match head with
  | None => Some pool
  | Some mc =>
      match fuel with
      | O => None
      | S fuel =>
          m ← get_member pool mc;
          pool ← memcached_free pool mc;
          free_list fuel pool (mc_next m)
      end
  end.

Fixpoint free_array (l : list nat) (pool : memcached_pool_st) : option memcached_pool_st :=
  match l with
  | [] => Some pool
  | mc :: l =>
      pool ← memcached_free pool mc;
      free_array l pool
  end.

Definition memcached_pool_destroy (pool : memcached_pool_st) : option (gmap nat member) :=
  p ← free_list (base.size (members pool)) pool (used_bk_head pool);
  p ← free_list (base.size (members pool)) p (used_mc_head pool);
  p ← free_array (bk_pool pool) p;
  p ← free_array (mc_pool pool) p;
  Some (members p).

(** The result is an [uint16_t]. *)
Definition get_memcached_pool_size (pool : memcached_pool_st) : Z := max_size pool mod 2 ^ 16.

(** ** Clients and updates *)

(** The pool, the handles that clients hold, how many wait for one, and the update
    that is on. *)
Record config := {
  the_pool : memcached_pool_st;
  held : list nat;
  waiting : nat;
  updating : phase;
}.

#[export] Instance config_fields : Fields config := fun r =>
  {| the_pool := the_pool r; held := held r; waiting := waiting r; updating := updating r |}.

(** What is done with the lock held, at once. *)
Inductive op :=
  | op_fetch (wait : bool) (addr : option nat)
  | op_wake (reason : wake_reason) (asleep : bool) (addr : option nat)
  | op_release (mc : nat) (addr : option nat)
  | op_update_member (mc : nat)
  | op_behavior_set (rc : memcached_return_t) (set_ok : nat -> bool) (addrs : list (option nat))
  | op_repopulate (addrs : list (option nat))
  | op_update (rc : memcached_return_t) (changed init : bool) (addrs : list (option nat))
  | op_continue.

Definition take_result (c : config) (r : fetched_result * memcached_pool_st) : config :=
  let '(r, p) := r in
  c <| the_pool := p |>
    <| held ::= fun l => match r with Fetched mc => mc :: l | _ => l end |>
    <| waiting ::= fun n => match r with Waiting => S n | _ => n end |>.

Definition run (o : op) (c : config) : option config :=
  let p := the_pool c in
  match o with
  | op_fetch wait addr => r ← fetch wait p addr; Some (take_result c r)
  | op_wake reason asleep addr =>
      r ← fetch_wake reason asleep p addr;
      Some (take_result (c <| waiting ::= pred |>) r)
  | op_release mc addr =>
      p ← release p mc addr;
      Some (c <| the_pool := p |> <| held ::= filter (fun x => x <> mc) |>)
  | op_update_member mc => p ← memcached_pool_update_member p mc; Some (c <| the_pool := p |>)
  | op_behavior_set rc set_ok addrs =>
      '(_, unlocked, p) ← memcached_pool_behavior_set rc set_ok p addrs;
      Some (c <| the_pool := p |> <| updating := if unlocked : bool then Idle else Stuck |>)
  | op_repopulate addrs =>
      '(_, p) ← memcached_pool_repopulate p addrs;
      Some (c <| the_pool := p |>)
  | op_update rc changed init addrs =>
      '(_, ph, p) ← memcached_pool_update_cachelist rc changed init p addrs;
      Some (c <| the_pool := p |> <| updating := ph |>)
  | op_continue =>
      '(ph, p) ← update_continue (updating c) p;
      Some (c <| the_pool := p |> <| updating := ph |>)
  end.

(** There are fewer than [2 ^ 32] clients; they give back what they hold; who goes on
    after waiting has waited, asleep or not;
    [master_lock] is free for what takes it; and a behavior that the master takes
    is taken by the handles of the list. *)
Definition allowed (o : op) (c : config) : Prop :=
  match o with
  | op_fetch _ _ => Z.of_nat (S (waiting c)) < 2 ^ 32
  | op_wake _ asleep _ =>
      if asleep : bool then (0 < cond (the_pool c))%nat
      else (cond (the_pool c) < waiting c)%nat
  | op_release mc _ | op_update_member mc => mc ∈ held c
  | op_behavior_set rc set_ok _ =>
      updating c = Idle
      /\ (memcached_failed rc = false ->
          forall mc, mc ∉ mc_pool (the_pool c) -> set_ok mc = true)
  | op_repopulate _ | op_update _ _ _ _ => updating c = Idle
  | op_continue => match updating c with UpdatingList _ | UpdatingPool _ => True | _ => False end
  end.

Inductive reachable : config -> Prop :=
  | reach_create initial max v k addrs p :
      0 <= initial -> max < 2 ^ 32 - 1 ->
      memcached_pool_create initial max v k addrs = Some (Some p) ->
      reachable {| the_pool := p; held := []; waiting := 0; updating := Idle |}
  | reach_step c o c' :
      reachable c -> allowed o c -> run o c = Some c' -> reachable c'.
End Handles.

(** ** The invariant *)

(** A list through [mc_next]. *)
Fixpoint chain (m : gmap nat member) (head : option nat) (l : list nat) : Prop :=
  match l with
  | [] => head = None
  | x :: l => head = Some x /\ exists v, m !! x = Some v /\ chain m (mc_next v) l
  end.

Definition occ (x : nat) (l : list nat) : nat := length (filter (fun y => y = x) l).

(** The handles on the list, on the list that is updated, in the two arrays, and
    those that are out: every handle of the heap is in exactly one place, once. *)
Definition owned (p : memcached_pool_st) (us bs out : list nat) : list nat :=
  us ++ bs ++ mc_pool p ++ bk_pool p ++ out.

Record owns (p : memcached_pool_st) (us bs out : list nat) : Prop := {
  own_used : chain (members p) (used_mc_head p) us;
  own_used_tail : used_mc_tail p = last us;
  own_bk : chain (members p) (used_bk_head p) bs;
  own_bk_tail : used_bk_tail p = last bs;
  own_once : forall x, occ x (owned p us bs out)
                       = if decide (is_Some (members p !! x)) then 1%nat else 0%nat;
  own_size : cur_size p = Z.of_nat (length (owned p us bs out));
  own_max : cur_size p <= max_size p < 2 ^ 32;
}.

#[global] Arguments occ : simpl never.
#[global] Arguments owned : simpl never.

Lemma occ_app x a b : occ x (a ++ b) = (occ x a + occ x b)%nat.
Proof. unfold occ. by rewrite filter_app, length_app. Qed.

Lemma occ_cons x y l : occ x (y :: l) = ((if decide (y = x) then 1 else 0) + occ x l)%nat.
Proof. unfold occ. rewrite filter_cons. by case_decide. Qed.

Lemma occ_nil x : occ x [] = 0%nat.
Proof. done. Qed.

Lemma occ_in x l : x ∈ l <-> (0 < occ x l)%nat.
Proof.
  unfold occ. induction l as [|y l IH]; [set_solver by (cbn; lia)|].
  rewrite filter_cons, elem_of_cons. case_decide; cbn; [|rewrite <-IH].
  - split; [lia|]. intros _. by left.
  - split; [intros [?|?]; [congruence|done]|by right].
Qed.

Lemma occ_notin x l : x ∉ l <-> occ x l = 0%nat.
Proof. rewrite occ_in. lia. Qed.

Lemma occ_NoDup l : (forall x, (occ x l <= 1)%nat) -> NoDup l.
Proof.
  induction l as [|y l IH]; intros H; [constructor|]. constructor.
  - rewrite occ_notin. specialize (H y). rewrite occ_cons, decide_True in H by done. lia.
  - apply IH. intros x. specialize (H x). rewrite occ_cons in H. lia.
Qed.

(** Updates that do not touch the links. *)
Definition same_next (m m' : gmap nat member) : Prop :=
  forall x, mc_next <$> m !! x = mc_next <$> m' !! x.

Lemma same_next_dom m m' x : same_next m m' -> is_Some (m !! x) <-> is_Some (m' !! x).
Proof.
  intros H. specialize (H x). rewrite <-(fmap_is_Some mc_next (m !! x)), H. apply fmap_is_Some.
Qed.

Lemma chain_same m m' : same_next m m' -> forall l h, chain m h l -> chain m' h l.
Proof.
  intros H. induction l as [|x l IH]; intros h; [done|]. intros (-> & v & Hv & Hl). split; [done|].
  specialize (H x). rewrite Hv in H. cbn in H. symmetry in H.
  apply fmap_Some in H as (v' & Hv' & E). exists v'. rewrite <-E. split; [done|by apply IH].
Qed.

Lemma chain_local m m' l : forall h,
  (forall x, x ∈ l -> m' !! x = m !! x) -> chain m h l -> chain m' h l.
Proof.
  induction l as [|x l IH]; intros h H; [done|]. intros (-> & v & Hv & Hl). split; [done|].
  exists v. split; [by rewrite H by set_solver|]. apply IH; [|done]. intros y Hy. apply H. set_solver.
Qed.

Lemma chain_allocated m l : forall h x, chain m h l -> x ∈ l -> is_Some (m !! x).
Proof.
  induction l as [|y l IH]; intros h x; [set_solver|]. intros (_ & v & Hv & Hl) Hx.
  apply elem_of_cons in Hx as [->|Hx]; [by eexists|by eapply IH].
Qed.

Lemma chain_head m h l : chain m h l -> h = head l.
Proof. destruct l; [done|]. by intros [-> _]. Qed.

(** A handle behind the last one. *)
Lemma chain_snoc m mc l t v : forall h,
  chain m h l -> NoDup l -> last l = Some t -> mc ∉ l -> m !! t = Some v ->
  forall w, mc_next w = None ->
  chain (<[t := v <| mc_next := Some mc |>]> (<[mc := w]> m)) h (l ++ [mc]).
Proof.
  induction l as [|x l IH]; intros h; [done|]. intros (-> & vx & Hx & Hl) Hnd Ht Hmc Hv w Hw.
  apply NoDup_cons in Hnd as [Hxl Hnd]. apply not_elem_of_cons in Hmc as [Hmx Hmc].
  split; [done|]. destruct l as [|y l].
  - simplify_eq/=. eexists. split; [apply lookup_insert_eq|].
    split; [done|]. exists w. split; [|done].
    rewrite lookup_insert_ne by done. apply lookup_insert_eq.
  - change (last (x :: y :: l)) with (last (y :: l)) in Ht.
    assert (t <> x) as Hne.
    { intros ->. apply Hxl. by apply last_Some_elem_of in Ht. }
    exists vx. rewrite !lookup_insert_ne by done. split; [done|].
    by apply IH.
Qed.

(** Rearranging the places: [places H] shows where every handle is from [H], and
    [count] compares the lengths. *)
Ltac count :=
  unfold owned in *; cbn [mc_pool bk_pool update members] in *;
  rewrite ?occ_app, ?occ_cons, ?occ_nil, ?length_app in *; cbn [length] in *.
Ltac places H :=
  let y := fresh "y" in
  intros y; specialize (H y); count; lia.
Ltac reorder H E :=
  split; cbn; first [done|by rewrite E|places H|count; lia].

Lemma own_in p us bs out x :
  owns p us bs out -> x ∈ owned p us bs out <-> is_Some (members p !! x).
Proof. intros H. rewrite occ_in, (own_once _ _ _ _ H). case_decide; split; done || lia. Qed.

Lemma own_fresh p us bs out x :
  owns p us bs out -> members p !! x = None -> occ x (owned p us bs out) = 0%nat.
Proof.
  intros H E. rewrite (own_once _ _ _ _ H), decide_False; [done|]. rewrite E. by intros [? ?].
Qed.

Lemma own_NoDup p us bs out : owns p us bs out -> NoDup (owned p us bs out).
Proof. intros H. apply occ_NoDup. intros x. rewrite (own_once _ _ _ _ H). case_decide; lia. Qed.

(** What is the same of the waiting clients, and that those who sleep are woken. *)
Definition waits (p p' : memcached_pool_st) : Prop :=
  wait_count p' = wait_count p /\ cond p' = cond p.
Definition woken (p p' : memcached_pool_st) : Prop :=
  wait_count p' = wait_count p /\ cond p' = if 0 <? wait_count p then 0%nat else cond p.

Lemma waits_refl p : waits p p.
Proof. done. Qed.

Lemma waits_trans p1 p2 p3 : waits p1 p2 -> waits p2 p3 -> waits p1 p3.
Proof. intros [] []. split; congruence. Qed.

Lemma waits_woken p1 p2 p3 : waits p1 p2 -> woken p2 p3 -> woken p1 p3.
Proof. intros [E1 E2] [E3 E4]. rewrite E1, E2 in *. by split. Qed.

Lemma woken_wake_up p : woken p (wake_up p).
Proof. unfold woken, wake_up. by destruct (0 <? wait_count p). Qed.

(** The same places, with other versions, counts of waiting clients and
    contents of handles. *)
Record alike (p p' : memcached_pool_st) : Prop := {
  alike_next : same_next (members p) (members p');
  alike_uh : used_mc_head p' = used_mc_head p;
  alike_ut : used_mc_tail p' = used_mc_tail p;
  alike_bh : used_bk_head p' = used_bk_head p;
  alike_bt : used_bk_tail p' = used_bk_tail p;
  alike_mc : mc_pool p' = mc_pool p;
  alike_bk : bk_pool p' = bk_pool p;
  alike_max : max_size p' = max_size p;
  alike_cur : cur_size p' = cur_size p;
}.

Lemma same_next_refl m : same_next m m.
Proof. by intros x. Qed.

Lemma owns_alike p p' us bs out : alike p p' -> owns p us bs out -> owns p' us bs out.
Proof.
  intros [Hn E1 E2 E3 E4 E5 E6 E7 E8] [H1 H2 H3 H4 H5 H6 H7].
  unfold owned in *. split; unfold owned;
    rewrite ?E1, ?E2, ?E3, ?E4, ?E5, ?E6, ?E7, ?E8; try done.
  - by eapply chain_same.
  - by eapply chain_same.
  - intros x. rewrite H5. apply decide_ext. by apply same_next_dom.
Qed.

(** The contents of a handle change, and not its link. *)
Lemma set_member_alike p mc f :
  is_Some (members p !! mc) -> (forall m, mc_next (f m) = mc_next m) ->
  exists p', set_member p mc f = Some p' /\ alike p p'
             /\ master_version p' = master_version p
             /\ master_ketama_version p' = master_ketama_version p
             /\ waits p p'.
Proof.
  intros [m Hm] Hf. unfold set_member. rewrite Hm. cbn [mbind option_bind].
  eexists. split; [done|]. split; [|done]. split; try done.
  intros x. cbn. destruct (decide (mc = x)) as [<-|Hne].
  - rewrite lookup_insert_eq, Hm. cbn. by rewrite Hf.
  - by rewrite lookup_insert_ne.
Qed.

Lemma member_update_alike ok p mc :
  is_Some (members p !! mc) ->
  exists p', member_update_cachelist ok p mc = Some p' /\ alike p p'
             /\ waits p p'.
Proof.
  intros Hm. destruct (set_member_alike p mc (fun m =>
    if ok then m <| ketama_version := master_ketama_version p |> else m)) as (p' & E & Ha & _ & _ & W);
    [done|by destruct ok|]. by exists p'.
Qed.

Lemma alike_wake_up p : alike p (wake_up p).
Proof. unfold wake_up. destruct (0 <? wait_count p); by split. Qed.

(** The end of what adds a handle. *)
Lemma wake_up_spec p0 p us bs out :
  owns p us bs out -> waits p0 p ->
  owns (wake_up p) us bs out /\ woken p0 (wake_up p).
Proof.
  intros H W. split; [by eapply owns_alike; [apply alike_wake_up|]|].
  eapply waits_woken; [done|apply woken_wake_up].
Qed.

(** ** The operations keep it *)

(** A handle comes off the list: the one being updated first. *)
Lemma mc_list_get_spec update_ok p us bs out :
  owns p us bs out ->
  exists r p', mc_list_get update_ok p = Some (r, p')
    /\ max_size p' = max_size p /\ waits p p'
    /\ match r with
       | Some mc => exists us' bs', owns p' us' bs' (mc :: out)
                    /\ (bs = mc :: bs' /\ us = us' \/ bs = [] /\ bs' = [] /\ us = mc :: us')
                    /\ mc_pool p' = mc_pool p /\ bk_pool p' = bk_pool p
       | None => p' = p /\ us = [] /\ bs = []
       end.
Proof.
  intros H. unfold mc_list_get.
  destruct bs as [|mc bs].
  - rewrite (chain_head _ _ _ (own_bk _ _ _ _ H)). cbn [head].
    destruct us as [|mc us].
    { rewrite (chain_head _ _ _ (own_used _ _ _ _ H)). cbn [head]. by exists None, p. }
    destruct (own_used _ _ _ _ H) as (-> & v & Hv & Hl).
    unfold get_member. rewrite Hv. cbn [mbind option_bind].
    eexists (Some mc), _. split; [done|].
    assert (Ht : owns (if bool_decide (mc_next v = None)
                       then p <| used_mc_head := mc_next v |> <| used_mc_tail := None |>
                       else p <| used_mc_head := mc_next v |>) us [] (mc :: out)).
    { pose proof (own_used_tail _ _ _ _ H) as Hut. destruct H as [_ _ H3 H4 H5 H6 H7].
      destruct us as [|x us].
      - cbn in Hl. rewrite Hl. rewrite bool_decide_eq_true_2 by done.
        reorder H5 H5.
      - destruct Hl as [E Hl]. rewrite bool_decide_eq_false_2 by (by rewrite E).
        reorder H5 E. }
    case_bool_decide; (split; [done|]; split; [done|]; exists us, []; split; [exact Ht|];
      split; [by right|done]).
  - destruct (own_bk _ _ _ _ H) as (-> & v & Hv & Hl).
    unfold get_member. rewrite Hv. cbn [mbind option_bind].
    set (p1 := if bool_decide _ then _ else _).
    assert (Ht : owns p1 us bs (mc :: out) /\ members p1 = members p /\ max_size p1 = max_size p
                 /\ waits p p1 /\ mc_pool p1 = mc_pool p
                 /\ bk_pool p1 = bk_pool p).
    { unfold p1. pose proof (own_bk_tail _ _ _ _ H) as Hbt. destruct H as [H1 H2 _ _ H5 H6 H7].
      destruct bs as [|x bs].
      - cbn in Hl. rewrite Hl. rewrite bool_decide_eq_true_2 by done.
        split; [|done]. reorder H5 H5.
      - destruct Hl as [E Hl]. rewrite bool_decide_eq_false_2 by (by rewrite E).
        split; [|done].
        reorder H5 E. }
    clearbody p1. destruct Ht as (Ho & Em & Ex & Ew & E1 & E2).
    destruct (member_update_alike (update_ok mc) p1 mc) as (p2 & -> & Ha & W);
      [rewrite Em; by eexists|].
    cbn [mbind option_bind]. eexists (Some mc), p2. split; [done|].
    split; [by rewrite (alike_max _ _ Ha)|]. split; [by eapply waits_trans|].
    exists us, bs. split; [by eapply owns_alike|]. split; [by left|].
    by rewrite (alike_mc _ _ Ha), (alike_bk _ _ Ha).
Qed.

Lemma pop_snoc l x : pop (l ++ [x]) = Some (l, x).
Proof. unfold pop. rewrite rev_app_distr. cbn. by rewrite rev_involutive. Qed.

Lemma pop_spec l : match pop l with Some (l', x) => l = l' ++ [x] | None => l = [] end.
Proof.
  destruct l as [|y l] using rev_ind; [done|]. by rewrite pop_snoc.
Qed.

Lemma owns_out p us bs out out' : out ≡ₚ out' -> owns p us bs out -> owns p us bs out'.
Proof.
  intros E [H1 H2 H3 H4 H5 H6 H7].
  assert (forall x, occ x out = occ x out') as Ho by (intros x; unfold occ; by rewrite E).
  apply Permutation_length in E.
  split; try done; [|count; lia]. intros y. specialize (H5 y). specialize (Ho y). count. lia.
Qed.

(** A handle is put in front of the list. *)
Lemma mc_list_add_head p us bs mc out :
  owns p us bs (mc :: out) ->
  exists p', mc_list_add p true mc = Some p' /\ owns p' (mc :: us) bs out
             /\ woken p p' /\ bk_pool p' = bk_pool p /\ max_size p' = max_size p.
Proof.
  intros H. assert (Hmc : is_Some (members p !! mc)) by
    (apply (own_in _ _ _ _ _ H); count; set_solver).
  destruct Hmc as [m Hm]. unfold mc_list_add, set_member. rewrite Hm. cbn [mbind option_bind].
  pose proof (own_once _ _ _ _ H mc) as Hocc.
  rewrite decide_True in Hocc by (by eexists). count. rewrite decide_True in Hocc by done.
  assert ((mc ∉ us) /\ (mc ∉ bs)) as [Hu Hb] by (rewrite !occ_notin; lia).
  assert (Hn : forall l h m', mc ∉ l -> chain (members p) h l -> chain (<[mc:=m']> (members p)) h l).
  { intros l h m' Hl. apply chain_local. intros x Hx. apply lookup_insert_ne. set_solver. }
  assert (Hd : forall m' x, is_Some (<[mc:=m']> (members p) !! x) <-> is_Some (members p !! x)).
  { intros m' x. rewrite lookup_insert_is_Some. split; [|by destruct (decide (mc = x)); [left|right]].
    intros [<-|[_ ?]]; [by eexists|done]. }
  eexists. split; [done|]. cbn.
  pose proof (own_used_tail _ _ _ _ H) as Hut. destruct H as [H1 H2 H3 H4 H5 H6 H7].
  rewrite (alike_bk _ _ (alike_wake_up _)), (alike_max _ _ (alike_wake_up _)).
  apply and_assoc. split; [apply wake_up_spec|by case_bool_decide]; [|by case_bool_decide].
  assert (Ho : forall x, occ x (owned p (mc :: us) bs out)
            = if decide (is_Some (<[mc:=(m <| mc_next := used_mc_head p |>)]> (members p) !! x))
              then 1%nat else 0%nat).
  { intros x. rewrite (decide_ext _ _ _ _ (Hd _ x)). revert x. places H5. }
  destruct (bool_decide_reflect (used_mc_tail p = None)) as [Ht|Ht].
  - assert (us = []) as -> by (rewrite Ht in Hut; by symmetry in Hut; apply last_None in Hut).
    split; cbn; try done; [|by apply Hn|count; lia].
    split; [done|]. eexists. split; [apply lookup_insert_eq|]. cbn. by rewrite (chain_head _ _ _ H1).
  - split; cbn; try done; [| |by apply Hn|count; lia].
    + split; [done|]. eexists. split; [apply lookup_insert_eq|]. cbn. by apply Hn.
    + rewrite Hut in Ht |- *. by destruct us.
Qed.

(** And behind the last one. *)
Lemma mc_list_add_tail p us bs mc out :
  owns p us bs (mc :: out) ->
  exists p', mc_list_add p false mc = Some p' /\ owns p' (us ++ [mc]) bs out
             /\ woken p p'
             /\ mc_pool p' = mc_pool p /\ bk_pool p' = bk_pool p /\ max_size p' = max_size p.
Proof.
  intros H. assert (Hmc : is_Some (members p !! mc)) by
    (apply (own_in _ _ _ _ _ H); count; set_solver).
  destruct Hmc as [m Hm]. unfold mc_list_add, set_member. rewrite Hm. cbn [mbind option_bind].
  pose proof (own_NoDup _ _ _ _ H) as Hnd. unfold owned in Hnd.
  apply NoDup_app in Hnd as (Hndu & _ & _).
  pose proof (own_once _ _ _ _ H mc) as Hocc.
  rewrite decide_True in Hocc by (by eexists). count. rewrite decide_True in Hocc by done.
  assert ((mc ∉ us) /\ (mc ∉ bs)) as [Hu Hb] by (rewrite !occ_notin; lia).
  pose proof (own_used_tail _ _ _ _ H) as Hut. cbn. rewrite Hut.
  pose proof (own_once _ _ _ _ H) as H5.
  set (w := m <| mc_next := None |>).
  destruct (last us) as [t|] eqn:El.
  - assert (Htu : t ∈ us) by (by apply last_Some_elem_of).
    assert (t <> mc) as Hne by (by intros ->).
    destruct (chain_allocated _ _ _ _ (own_used _ _ _ _ H) Htu) as [v Hv].
    rewrite lookup_insert_ne by done. rewrite Hv. cbn.
    eexists. split; [done|].
    rewrite (alike_bk _ _ (alike_wake_up _)), (alike_max _ _ (alike_wake_up _)),
      (alike_mc _ _ (alike_wake_up _)).
    apply and_assoc. split; [|done]. apply wake_up_spec; [|done].
    assert (Htb : t ∉ bs).
    { rewrite occ_notin. apply occ_in in Htu. specialize (H5 t). count.
      destruct (decide (is_Some _)); lia. }
    destruct H as [H1 H2 H3 H4 _ H6 H7]. split; cbn; try done.
    + by apply (chain_snoc _ _ _ t v).
    + by rewrite last_snoc.
    + eapply chain_local; [|exact H3]. intros x Hx.
      rewrite !lookup_insert_ne by set_solver. done.
    + intros x. rewrite (decide_ext _ (is_Some (members p !! x))); [revert x; places H5|].
      destruct (decide (t = x)) as [<-|?]; [rewrite lookup_insert_eq; split; by eexists|].
      rewrite lookup_insert_ne by done.
      destruct (decide (mc = x)) as [<-|?]; [rewrite lookup_insert_eq; split; by eexists|].
      by rewrite lookup_insert_ne.
    + count; lia.
  - cbn. eexists. split; [done|].
    rewrite (alike_bk _ _ (alike_wake_up _)), (alike_max _ _ (alike_wake_up _)),
      (alike_mc _ _ (alike_wake_up _)).
    apply and_assoc. split; [|done]. apply wake_up_spec; [|done].
    apply last_None in El as ->. destruct H as [H1 H2 H3 H4 _ H6 H7]. split; cbn; try done.
    + split; [done|]. eexists. split; [apply lookup_insert_eq|done].
    + eapply chain_local; [|exact H3]. intros x Hx. rewrite lookup_insert_ne by set_solver. done.
    + intros x. rewrite (decide_ext _ (is_Some (members p !! x))); [revert x; places H5|].
      destruct (decide (mc = x)) as [<-|?]; [rewrite lookup_insert_eq; split; by eexists|].
      by rewrite lookup_insert_ne.
    + count; lia.
Qed.

Lemma mc_pool_get_spec update_ok p us bs out :
  owns p us bs out ->
  exists r p', mc_pool_get update_ok p = Some (r, p')
    /\ max_size p' = max_size p /\ waits p p'
    /\ match r with
       | Some mc => owns p' us bs (mc :: out)
                    /\ (bk_pool p' ++ [mc] = bk_pool p /\ mc_pool p' = mc_pool p
                        \/ bk_pool p = [] /\ bk_pool p' = [] /\ mc_pool p' ++ [mc] = mc_pool p)
       | None => p' = p /\ mc_pool p = [] /\ bk_pool p = []
       end.
Proof.
  intros H. unfold mc_pool_get. pose proof (pop_spec (bk_pool p)) as Hb.
  pose proof (own_once _ _ _ _ H) as Ho. pose proof (own_size _ _ _ _ H) as Hs.
  destruct (pop (bk_pool p)) as [[l mc]|].
  - set (p1 := p <| bk_pool := l |>).
    assert (H1 : owns p1 us bs (mc :: out)).
    { destruct H as [H1 H2 H3 H4 _ _ H7]. split; cbn; try done.
      - intros y. specialize (Ho y). unfold p1. count. rewrite Hb in Ho. count. lia.
      - unfold p1. count. rewrite Hb in Hs. count. lia. }
    destruct (member_update_alike (update_ok mc) p1 mc) as (p2 & -> & Ha & W).
    { apply (own_in _ _ _ _ _ H1). unfold owned. set_solver. }
    cbn [mbind option_bind]. eexists (Some mc), p2. split; [done|].
    split; [by rewrite (alike_max _ _ Ha)|].
    split; [exact W|]. split; [by eapply owns_alike|]. left. by rewrite (alike_bk _ _ Ha), (alike_mc _ _ Ha).
  - pose proof (pop_spec (mc_pool p)) as Hm. destruct (pop (mc_pool p)) as [[l mc]|].
    + eexists (Some mc), _. split; [done|]. split; [done|]. split; [done|]. split; [|by right].
      destruct H as [H1 H2 H3 H4 _ _ H7]. split; cbn; try done.
      * intros y. specialize (Ho y). count. rewrite Hm in Ho. count. lia.
      * count. rewrite Hm in Hs. count. lia.
    + by exists None, p.
Qed.

Lemma own_pool_length p us bs out :
  owns p us bs out -> Z.of_nat (length (mc_pool p)) + Z.of_nat (length out) <= cur_size p.
Proof. intros H. rewrite (own_size _ _ _ _ H). count. lia. Qed.

Lemma push_spec p us bs mc out :
  owns p us bs (mc :: out) ->
  exists p', push p mc = Some p' /\ owns p' us bs out /\ waits p p'
             /\ mc_pool p' = mc_pool p ++ [mc] /\ bk_pool p' = bk_pool p.
Proof.
  intros H. pose proof (own_pool_length _ _ _ _ H) as Hl. pose proof (own_max _ _ _ _ H) as Hm.
  cbn [length] in Hl. unfold push. rewrite (proj2 (Z.ltb_lt _ _)) by lia.
  eexists. split; [done|]. split; [|done].
  destruct H as [H1 H2 H3 H4 H5 H6 H7]. split; cbn; try done; [places H5|count; lia].
Qed.

Lemma mc_pool_add_spec p us bs mc out :
  owns p us bs (mc :: out) ->
  exists p', mc_pool_add p mc = Some p' /\ owns p' us bs out /\ woken p p'
             /\ bk_pool p' = bk_pool p.
Proof.
  intros H. destruct (push_spec _ _ _ _ _ H) as (p1 & E & H1 & W & _ & Eb).
  unfold mc_pool_add. rewrite E. eexists. split; [done|].
  rewrite (alike_bk _ _ (alike_wake_up _)), Eb. apply and_assoc. split; [|done].
  by apply wake_up_spec.
Qed.

(** A clone is a new handle. *)
Lemma clone_spec p us bs out addr obj p1 :
  owns p us bs out -> memcached_clone p addr = Some (obj, p1) ->
  members p !! obj = None
  /\ (exists m, p1 = p <| members ::= <[obj := m]> |>)
  /\ (forall x, x ∈ owned p us bs out -> x <> obj).
Proof.
  intros H. unfold memcached_clone. destruct addr as [a|]; [|done].
  destruct (members p !! a) eqn:E; [done|]. intros [= -> <-].
  split; [done|]. split; [by eexists|]. intros x Hx ->.
  apply (own_in _ _ _ _ _ H) in Hx as [? ?]. congruence.
Qed.

Lemma chain_insert_fresh m x v l h : m !! x = None -> chain m h l -> chain (<[x:=v]> m) h l.
Proof.
  intros Hx Hc. eapply chain_local; [|exact Hc]. intros y Hy.
  destruct (chain_allocated _ _ _ _ Hc Hy) as [? Hy']. apply lookup_insert_ne. congruence.
Qed.

Lemma chain_delete m x l h : x ∉ l -> chain m h l -> chain (delete x m) h l.
Proof. intros Hx. apply chain_local. intros y Hy. apply lookup_delete_ne. set_solver. Qed.

Lemma once_insert p us bs out obj m l :
  owns p us bs out -> members p !! obj = None ->
  (forall x, occ x l = (occ x (owned p us bs out) + occ x [obj])%nat) ->
  forall x, occ x l = if decide (is_Some (<[obj := m]> (members p) !! x)) then 1%nat else 0%nat.
Proof.
  intros H E Hl x. rewrite Hl. rewrite (own_once _ _ _ _ H), occ_cons, occ_nil.
  destruct (decide (obj = x)) as [<-|Hne].
  - rewrite lookup_insert_eq, decide_False, decide_True;
      [done|by eexists|rewrite E; by intros [? ?]].
  - rewrite lookup_insert_ne by done. lia.
Qed.

Lemma once_delete p us bs out mc l :
  owns p us bs out -> mc ∈ owned p us bs out ->
  (forall x, (occ x l + occ x [mc])%nat = occ x (owned p us bs out)) ->
  forall x, occ x l = if decide (is_Some (delete mc (members p) !! x)) then 1%nat else 0%nat.
Proof.
  intros H Hin Hl x. specialize (Hl x). rewrite (own_once _ _ _ _ H), occ_cons, occ_nil in Hl.
  destruct (decide (mc = x)) as [<-|Hne].
  - rewrite lookup_delete_eq, (decide_False (P := is_Some None)) by (by intros [? ?]).
    apply (own_in _ _ _ _ _ H) in Hin. rewrite decide_True in Hl by done. lia.
  - rewrite lookup_delete_ne by done. lia.
Qed.

(** A new handle in the array. *)
Lemma grow_pool_spec p us bs out addr :
  owns p us bs out -> cur_size p < max_size p ->
  exists ok p', grow_pool p addr = Some (ok, p') /\ owns p' us bs out
    /\ max_size p' = max_size p /\ waits p p' /\ bk_pool p' = bk_pool p
    /\ (if ok : bool then cur_size p' = cur_size p + 1 /\ exists mc, mc_pool p' = mc_pool p ++ [mc]
        else p' = p).
Proof.
  intros H Hlt. unfold grow_pool.
  destruct (memcached_clone p addr) as [[obj p1]|] eqn:Ec; [|by exists false, p].
  destruct (clone_spec _ _ _ _ _ _ _ H Ec) as (Hf & [m ->] & _).
  pose proof (own_pool_length _ _ _ _ H) as Hl. pose proof (own_max _ _ _ _ H) as Hm.
  unfold push. cbn [mc_pool max_size update].
  rewrite (proj2 (Z.ltb_lt _ _)) by (cbn; lia). cbn [mbind option_bind].
  set (p2 := update _ _ _).
  assert (H2 : owns p2 us bs out).
  { pose proof (once_insert p us bs out obj m) as Ho.
    unfold p2. pose proof (own_size _ _ _ _ H) as Hs. pose proof H as [H1 H3 H4 H5 _ _ H7].
    split; cbn; try done; [by apply chain_insert_fresh..| |count; rewrite u32_small; lia
                          |rewrite u32_small; lia].
    apply Ho; [done|done|]. intros x. count. lia. }
  destruct (set_member_alike p2 obj (fun m => m <| ketama_version := master_ketama_version p2 |>
              <| version := master_version p2 |>)) as (p3 & E3 & Ha & _ & _ & W);
    [cbn; rewrite lookup_insert_eq; by eexists|done|].
  cbn [master_ketama_version master_version] in *. unfold p2 in E3 at 2 3. cbn in E3. cbn.
  rewrite E3. cbn. exists true, p3. split; [done|]. split; [by eapply owns_alike|].
  rewrite (alike_max _ _ Ha), (alike_mc _ _ Ha), (alike_bk _ _ Ha), (alike_cur _ _ Ha).
  split; [done|]. split; [exact W|]. unfold p2. cbn. rewrite u32_small by lia.
  split_and!; try done. by exists obj.
Qed.

(** What an operation of clients leaves of an update that is on. *)
Definition shrinks (bs bs' : list nat) (p p' : memcached_pool_st) : Prop :=
  (bs = [] -> bs' = []) /\ (bk_pool p = [] -> bk_pool p' = []).

(** Nothing is in the pool. *)
Definition drained (p : memcached_pool_st) (us bs : list nat) : Prop :=
  us = [] /\ bs = [] /\ mc_pool p = [] /\ bk_pool p = [].

Definition fetch_post (wait : bool) (p : memcached_pool_st) (us bs out : list nat)
    (r : fetched_result) (p' : memcached_pool_st) : Prop :=
  match r with
  | Fetched mc =>
      waits p p' /\ ~ (drained p us bs /\ cur_size p = max_size p)
      /\ exists us' bs', owns p' us' bs' (mc :: out) /\ shrinks bs bs' p p'
  | Failed rc =>
      p' = p /\ drained p us bs
      /\ (rc = MEMCACHED_MEMORY_ALLOCATION_FAILURE /\ cur_size p < max_size p
          \/ rc = MEMCACHED_NOTFOUND /\ wait = false /\ cur_size p = max_size p)
  | Waiting =>
      p' = p <| wait_count ::= fun n => n ⊞ 1 |> <| cond ::= S |>
      /\ drained p us bs /\ wait = true /\ cur_size p = max_size p
  end.

(** One round of the loop, when there is a handle. *)
Lemma fetch_round update_ok wait p us bs out addr fuel :
  owns p us bs out -> ~ drained p us bs ->
  exists mc p' us' bs', fetch_loop update_ok (S fuel) wait p addr = Some (Fetched mc, p')
    /\ owns p' us' bs' (mc :: out) /\ shrinks bs bs' p p' /\ max_size p' = max_size p
    /\ waits p p'.
Proof.
  intros H Hd. cbn [fetch_loop].
  destruct (mc_list_get_spec update_ok p us bs out H) as (r & p1 & -> & Hx & W & Hr).
  cbn [mbind option_bind]. destruct r as [mc|].
  - destruct Hr as (us' & bs' & Ho & Hcase & E1 & E2). exists mc, p1, us', bs'.
    do 2 (split; [done|]). split; [|done]. split; [|by rewrite E2]. by destruct Hcase as [[-> _]|(-> & -> & _)].
  - destruct Hr as (-> & -> & ->).
    destruct (mc_pool_get_spec update_ok p [] [] out H) as (r & p2 & -> & Hx2 & W2 & Hr).
    cbn [mbind option_bind]. destruct r as [mc|].
    + destruct Hr as (Ho & Hcase). exists mc, p2, [], []. do 2 (split; [done|]). split; [|done]. split; [done|].
      intros E. destruct Hcase as [[E' _]|(_ & -> & _)]; [|done].
      rewrite E in E'. by destruct (bk_pool p2).
    + destruct Hr as (-> & E1 & E2). by destruct Hd.
Qed.

Lemma fetch_spec update_ok wait p us bs out addr :
  owns p us bs out ->
  exists r p', fetch update_ok wait p addr = Some (r, p') /\ max_size p' = max_size p
               /\ fetch_post wait p us bs out r p'.
Proof.
  intros H. unfold fetch.
  destruct (decide (us = [] /\ bs = [] /\ mc_pool p = [] /\ bk_pool p = [])) as [Hd|Hd].
  2:{ destruct (fetch_round update_ok wait p us bs out addr 1 H Hd)
        as (mc & p' & us' & bs' & E & Ho & Hs & Hx & W).
      exists (Fetched mc), p'. split; [done|]. split; [done|]. split; [done|].
      split; [by intros [? _]|]. by exists us', bs'. }
  destruct (mc_list_get_spec update_ok p us bs out H) as (r & p1 & E & _ & _ & Hr).
  change 2%nat with (S 1). cbn [fetch_loop]. rewrite E. cbn [mbind option_bind].
  pose proof Hd as (-> & -> & Em & Eb).
  destruct r as [mc|]; [destruct Hr as (? & ? & _ & [[? _]|(_ & _ & ?)] & _); done|].
  destruct Hr as (-> & _ & _).
  destruct (mc_pool_get_spec update_ok p [] [] out H) as (r & p2 & E2 & _ & _ & Hr). rewrite E2.
  cbn [mbind option_bind].
  destruct r as [mc|].
  { destruct Hr as (_ & [[? _]|(_ & _ & ?)]); rewrite ?Em, ?Eb in *;
      by destruct (bk_pool p2), (mc_pool p2). }
  destruct Hr as (-> & _ & _).
  destruct (Z.ltb_spec (cur_size p) (max_size p)) as [Hlt|Hge].
  - destruct (grow_pool_spec p [] [] out addr H Hlt) as (ok & p2 & -> & Ho & Hx & W & Eb2 & Hok).
    cbn [mbind option_bind]. destruct ok.
    + destruct Hok as (_ & mc & Emc).
      destruct (fetch_round update_ok wait p2 [] [] out addr 0 Ho)
        as (mc' & p3 & us' & bs' & E3 & Ho3 & Hs & Hx3 & W3).
      { intros (_ & _ & E3 & _). rewrite E3 in Emc. by destruct (mc_pool p). }
      exists (Fetched mc'), p3. split; [exact E3|]. split; [congruence|].
      split; [by eapply waits_trans|]. split; [lia|]. exists us', bs'.
      split; [done|]. split; [apply Hs|]. intros _. apply Hs. congruence.
    + subst p2. exists (Failed MEMCACHED_MEMORY_ALLOCATION_FAILURE), p.
      split; [done|]. split; [done|]. split; [done|]. split; [exact Hd|]. by left.
  - assert (cur_size p = max_size p) as Ec by (pose proof (own_max _ _ _ _ H); lia).
    destruct wait; cbn [negb].
    + eexists Waiting, _. by split.
    + eexists (Failed MEMCACHED_NOTFOUND), p. split; [done|]. split; [done|].
      split; [done|]. split; [exact Hd|]. by right.
Qed.

(** A handle is freed and a clone takes its place. *)
Lemma once_swap p us bs out mc obj m l :
  owns p us bs out -> members p !! obj = None -> mc ∈ owned p us bs out ->
  (forall x, (occ x l + occ x [mc])%nat = (occ x (owned p us bs out) + occ x [obj])%nat) ->
  forall x, occ x l
    = if decide (is_Some (delete mc (<[obj := m]> (members p)) !! x)) then 1%nat else 0%nat.
Proof.
  intros H E Hin Hl x. specialize (Hl x). rewrite (own_once _ _ _ _ H), !occ_cons, !occ_nil in Hl.
  apply (own_in _ _ _ _ _ H) in Hin.
  destruct (decide (mc = x)) as [<-|Hne].
  - rewrite lookup_delete_eq, (decide_False (P := is_Some None)) by (by intros [? ?]).
    rewrite decide_True, (decide_False (P := obj = mc)) in Hl; [lia| |done].
    intros ->. rewrite E in Hin. by destruct Hin.
  - rewrite lookup_delete_ne by done. destruct (decide (obj = x)) as [<-|Hne'].
    + rewrite lookup_insert_eq, (decide_True (P := is_Some (Some m))) by (by eexists).
      rewrite decide_False in Hl; [lia|]. rewrite E. by intros [? ?].
    + rewrite lookup_insert_ne by done. lia.
Qed.

Lemma free_clone p addr mc obj p1 us bs out :
  owns p us bs out -> memcached_clone p addr = Some (obj, p1) -> mc ∈ owned p us bs out ->
  members p !! obj = None
  /\ exists m, memcached_free p1 mc
               = Some (p <| members := delete mc (<[obj := m]> (members p)) |>).
Proof.
  intros H Ec Hin. destruct (clone_spec _ _ _ _ _ _ _ H Ec) as (Hf & [m ->] & Hne).
  split; [done|]. exists m. unfold memcached_free. cbn.
  apply (own_in _ _ _ _ _ H) in Hin as Hs. destruct Hs as [v Hv].
  rewrite lookup_insert_ne by (apply not_eq_sym; by apply Hne). by rewrite Hv.
Qed.

Lemma release_spec update_ok p us bs mc out addr :
  owns p us bs (mc :: out) ->
  exists us' p', release update_ok p mc addr = Some p' /\ owns p' us' bs out
                 /\ us' <> [] /\ woken p p' /\ bk_pool p' = bk_pool p
                 /\ max_size p' = max_size p.
Proof.
  intros H. assert (Hin : mc ∈ owned p us bs (mc :: out)) by (unfold owned; set_solver).
  apply (own_in _ _ _ _ _ H) in Hin as Hs. destruct Hs as [m Hm].
  assert (Hall : exists mc' p1,
    (if negb (version m =? master_version p) then
       match memcached_clone p addr with
       | Some (memc, pool) => pool ← memcached_free pool mc; Some (memc, pool)
       | None => Some (mc, p)
       end
     else if negb (ketama_version m =? master_ketama_version p) then
       pool ← member_update_cachelist (update_ok mc) p mc; Some (mc, pool)
     else Some (mc, p)) = Some (mc', p1)
    /\ owns p1 us bs (mc' :: out) /\ waits p p1 /\ bk_pool p1 = bk_pool p
    /\ max_size p1 = max_size p).
  { destruct (negb (version m =? master_version p)).
    - destruct (memcached_clone p addr) as [[obj p1]|] eqn:Ec; [|by exists mc, p].
      destruct (free_clone _ _ _ _ _ _ _ _ H Ec Hin) as (Hf & v & Efree).
      rewrite Efree. cbn [mbind option_bind]. eexists obj, _. split; [done|]. split; [|done].
      assert ((mc ∉ us) /\ (mc ∉ bs)) as [Hu Hb].
      { pose proof (own_once _ _ _ _ H mc) as Ho. rewrite decide_True in Ho by (by eexists). count.
        rewrite decide_True in Ho by done. rewrite !occ_notin. lia. }
      pose proof (once_swap p us bs (mc :: out) mc obj v) as Ho. pose proof H as [H1 H2 H3 H4 _ H6 H7].
      split; cbn; try done.
      + by apply chain_delete, chain_insert_fresh.
      + by apply chain_delete, chain_insert_fresh.
      + apply Ho; try done. intros x. count. lia.
      + count. lia.
    - destruct (negb _); [|by exists mc, p].
      destruct (member_update_alike (update_ok mc) p mc) as (p1 & -> & Ha & W); [by eexists|].
      cbn [mbind option_bind]. exists mc, p1. split; [done|].
      split; [by eapply owns_alike|]. by rewrite (alike_bk _ _ Ha), (alike_max _ _ Ha). }
  destruct Hall as (mc' & p1 & E & Ho & W & Eb & Ex). unfold release, get_member. rewrite Hm.
  cbn [mbind option_bind]. rewrite E. cbn [mbind option_bind].
  destruct (mc_list_add_head p1 us bs mc' out Ho) as (p2 & E2 & Ho2).
  destruct Ho2 as (Ho2 & W2 & Eb2 & Ex2). exists (mc' :: us), p2.
  split; [exact E2|]. split; [exact Ho2|]. split; [done|].
  split; [by eapply waits_woken|]. split; congruence.
Qed.

(** *** All handles *)

(** What the loops over all handles keep besides the places. *)
Definition keeps (p p' : memcached_pool_st) : Prop :=
  max_size p' = max_size p /\ waits p p' /\ bk_pool p' = bk_pool p.

Lemma keeps_refl p : keeps p p.
Proof. done. Qed.

Lemma keeps_trans p1 p2 p3 : keeps p1 p2 -> keeps p2 p3 -> keeps p1 p3.
Proof.
  intros (E1 & W1 & E3) (E4 & W2 & E6). split; [congruence|].
  split; [by eapply waits_trans|congruence].
Qed.

Lemma grow_loop_spec n : forall p us bs out addrs,
  owns p us bs out -> cur_size p + Z.of_nat n <= max_size p ->
  exists p', grow_loop n p addrs = Some p' /\ owns p' us bs out /\ keeps p p'.
Proof.
  induction n as [|n IH]; intros p us bs out addrs H Hn; [by exists p|].
  cbn [grow_loop].
  destruct (grow_pool_spec p us bs out (mjoin (head addrs)) H) as (ok & p1 & -> & H1 & Hx & Hw & Hb & Hok);
    [lia|].
  cbn [mbind option_bind]. destruct ok; [|by exists p1].
  destruct Hok as [Hc _]. destruct (IH p1 us bs out (tail addrs) H1) as (p2 & E & H2 & Hk); [lia|].
  exists p2. split; [done|]. split; [done|]. by apply (keeps_trans p p1).
Qed.

Lemma reclone_loop_spec keep n : forall i p us bs out addrs,
  owns p us bs out -> (i + n <= length (mc_pool p))%nat ->
  exists p' addrs', reclone_loop keep n i p addrs = Some (p', addrs')
    /\ owns p' us bs out /\ keeps p p' /\ cur_size p' = cur_size p
    /\ length (mc_pool p') = length (mc_pool p).
Proof.
  induction n as [|n IH]; intros i p us bs out addrs H Hn; [by exists p, addrs|].
  cbn [reclone_loop]. destruct (lookup_lt_is_Some_2 (mc_pool p) i) as [mc Hmc]; [lia|].
  rewrite Hmc. cbn [mbind option_bind].
  assert (Hin : mc ∈ owned p us bs out).
  { unfold owned. apply list_elem_of_lookup_2 in Hmc. set_solver. }
  destruct (keep mc).
  - destruct (set_member_alike p mc (fun m => m <| version := master_version p |>))
      as (p1 & -> & Ha & _ & _ & W); [by apply (own_in _ _ _ _ _ H)|done|].
    cbn [mbind option_bind].
    destruct (IH (S i) p1 us bs out addrs) as (p2 & a & E & H2 & Hk & Hc & Hlen);
      [by eapply owns_alike|rewrite (alike_mc _ _ Ha); lia|].
    exists p2, a. do 2 (split; [done|]). split; [|rewrite Hc, Hlen, (alike_mc _ _ Ha), (alike_cur _ _ Ha); done].
    apply (keeps_trans p p1); [|done]. split; [apply Ha|]. split; [done|apply Ha].
  - destruct (memcached_clone p (mjoin (head addrs))) as [[obj p1]|] eqn:Ec.
    2:{ cbn [mbind option_bind]. apply IH; [done|lia]. }
    destruct (free_clone _ _ _ _ _ _ _ _ H Ec Hin) as (Hf & v & ->). cbn [mbind option_bind].
    set (p2 := update _ _ _).
    pose proof (take_drop_middle _ _ _ Hmc) as Hsplit.
    assert (Hi : (i < length (mc_pool p))%nat) by lia.
    assert (Hlen : length (mc_pool p2) = length (mc_pool p)) by apply length_insert.
    assert (H2 : owns p2 us bs out).
    { assert ((mc ∉ us) /\ (mc ∉ bs)) as [Hu Hb].
      { pose proof (own_once _ _ _ _ H mc) as Ho.
        rewrite decide_True in Ho by (by apply (own_in _ _ _ _ _ H)).
        unfold owned in Ho. rewrite <-Hsplit in Ho. count. rewrite decide_True in Ho by done.
        rewrite !occ_notin. lia. }
      pose proof (once_swap p us bs out mc obj v) as Ho. pose proof H as [H1 H3 H4 H5 _ H7 H8].
      split; cbn; try done.
      - by apply chain_delete, chain_insert_fresh.
      - by apply chain_delete, chain_insert_fresh.
      - apply Ho; try done. intros x. unfold owned, p2. cbn [mc_pool bk_pool update].
        rewrite (insert_take_drop _ _ _ Hi). rewrite <-Hsplit at 3. count. lia.
      - rewrite H7. unfold owned. rewrite !length_app, Hlen. done. }
    destruct (IH (S i) p2 us bs out (tail addrs) H2) as (p3 & a & E & H3 & Hk & Hc & Hlen3); [lia|].
    exists p3, a. do 4 (split; [done|]). congruence.
Qed.

Lemma length_members p us bs out l :
  owns p us bs out -> NoDup l -> (forall x, x ∈ l -> x ∈ owned p us bs out) ->
  (length l <= base.size (members p))%nat.
Proof.
  intros H Hnd Hl. rewrite <-size_dom, <-(size_list_to_set (C := gset nat) l Hnd).
  apply subseteq_size. intros x Hx. rewrite elem_of_list_to_set in Hx.
  rewrite elem_of_dom. by apply (own_in _ _ _ _ _ H), Hl.
Qed.

Lemma remove_all_spec us : forall fuel p bs out removed,
  owns (p <| used_mc_tail := last us |>) us bs out -> (length us <= fuel)%nat ->
  exists p', mc_list_remove_all fuel p removed = Some ((length us + removed)%nat, p')
    /\ owns p' [] bs out /\ keeps p p' /\ cur_size p' = cur_size p - Z.of_nat (length us)
    /\ mc_pool p' = mc_pool p.
Proof.
  induction us as [|mc us IH]; intros fuel p bs out removed H Hf.
  - destruct fuel; cbn; rewrite (chain_head _ _ _ (own_used _ _ _ _ H) : used_mc_head p = None);
      (eexists; split; [done|]; split; [exact H|]; split; [done|cbn; split; [lia|done]]).
  - destruct fuel as [|fuel]; cbn [length] in Hf; [lia|]. cbn [mc_list_remove_all].
    destruct (own_used _ _ _ _ H) as (E & v & Hv & Hl). cbn in E, Hv, Hl. rewrite E.
    unfold get_member. rewrite Hv. cbn [mbind option_bind]. unfold memcached_free. cbn.
    rewrite Hv. cbn.
    set (p1 := update _ _ _).
    assert (H1 : owns (p1 <| used_mc_tail := last us |>) us bs out).
    { assert ((mc ∉ us) /\ (mc ∉ bs)) as [Hu Hb].
      { pose proof (own_once _ _ _ _ H mc) as Hc. cbn in Hc.
        rewrite decide_True in Hc by (by eexists). count. rewrite decide_True in Hc by done.
        rewrite !occ_notin. lia. }
      destruct H as [H1 H2 H3 H4 H5 H6 H7]. cbn in *.
      split; cbn; try done.
      - by apply chain_delete.
      - by apply chain_delete.
      - intros x. specialize (H5 x). revert H5. unfold p1. count.
        destruct (decide (mc = x)) as [<-|Hne].
        + rewrite lookup_delete_eq, (decide_False (P := is_Some None)) by (by intros [? ?]).
          rewrite (decide_True (P := is_Some (members p !! mc))) by (by eexists). lia.
        + rewrite lookup_delete_ne by done. lia.
      - unfold p1. count. rewrite u32_small; lia.
      - count. rewrite u32_small; lia. }
    destruct (IH fuel p1 bs out (S removed) H1) as (p2 & E2 & H2 & Hk & Hc & Em); [lia|].
    exists p2. rewrite E2. split; [by rewrite Nat.add_succ_r|]. split; [done|]. split; [done|].
    split; [|exact Em].
    rewrite Hc. unfold p1. cbn. pose proof (own_size _ _ _ _ H) as Hs. cbn in Hs.
    pose proof (own_max _ _ _ _ H) as Hm. cbn in Hm. count. rewrite u32_small; lia.
Qed.

Lemma alike_trans p1 p2 p3 : alike p1 p2 -> alike p2 p3 -> alike p1 p3.
Proof.
  intros [] []. split; try congruence.
Qed.

Lemma alike_keeps p p' : alike p p' -> waits p p' -> keeps p p'.
Proof. intros H W. split; [apply H|]. split; [done|apply H]. Qed.

Lemma list_behavior_set_spec set_ok us : forall fuel p prev curr removed,
  chain (members p) curr us -> (length us <= fuel)%nat ->
  (forall x, x ∈ us -> set_ok x = true) ->
  exists p', mc_list_behavior_set fuel set_ok p prev curr removed = Some (removed, p')
    /\ alike p p' /\ waits p p'.
Proof.
  induction us as [|mc us IH]; intros fuel p prev curr removed Hc Hf Hok.
  - cbn in Hc. subst curr. exists p. destruct fuel; by (split; [done|]; split; [by split|done]).
  - destruct fuel as [|fuel]; cbn [length] in Hf; [lia|]. destruct Hc as (-> & v & Hv & Hl).
    cbn [mc_list_behavior_set]. unfold get_member. rewrite Hv. cbn [mbind option_bind].
    rewrite Hok by set_solver.
    destruct (set_member_alike p mc (fun m => m <| version := master_version p |>))
      as (p1 & -> & Ha & _ & _ & W); [by eexists|done|].
    cbn [mbind option_bind].
    destruct (IH fuel p1 (Some mc) (mc_next v) removed) as (p2 & E & Ha2 & W2).
    { eapply chain_same; [apply Ha|done]. }
    { lia. }
    { intros x Hx. apply Hok. set_solver. }
    exists p2. split; [done|]. split; [by eapply alike_trans|by eapply waits_trans].
Qed.

Lemma used_fuel p us bs out : owns p us bs out -> (length us <= base.size (members p))%nat.
Proof.
  intros H. apply (length_members p us bs out us H).
  - pose proof (own_NoDup _ _ _ _ H) as Hnd. by apply NoDup_app in Hnd as (? & _ & _).
  - intros x Hx. unfold owned. set_solver.
Qed.

Lemma bk_fuel p us bs out : owns p us bs out -> (length bs <= base.size (members p))%nat.
Proof.
  intros H. apply (length_members p us bs out bs H).
  - pose proof (own_NoDup _ _ _ _ H) as Hnd. apply NoDup_app in Hnd as (_ & _ & Hnd).
    by apply NoDup_app in Hnd as (? & _ & _).
  - intros x Hx. unfold owned. set_solver.
Qed.

Lemma renew_spec p us bs out addrs :
  owns p us bs out ->
  exists p', renew p addrs = Some p' /\ owns p' [] bs out /\ keeps p p'
    /\ (us = [] -> mc_pool p = [] -> mc_pool p' = [] /\ cur_size p' = cur_size p).
Proof.
  intros H. unfold renew, reclone.
  set (p0 := increment_version (increment_ketama_version p)).
  assert (H0 : owns p0 us bs out) by (eapply owns_alike; [|exact H]; by split).
  destruct (reclone_loop_spec (fun _ => false) (length (mc_pool p0)) 0 p0 us bs out addrs H0)
    as (p1 & a & -> & H1 & Hk1 & Hc1 & Hlen); [lia|].
  cbn [mbind option_bind].
  destruct (remove_all_spec us (base.size (members p1)) p1 bs out 0)
    as (p2 & -> & H2 & Hk2 & Hc & Em).
  { eapply owns_alike; [|exact H1]. split; try done. cbn. symmetry. apply H1. }
  { by eapply used_fuel. }
  cbn [mbind option_bind].
  destruct (grow_loop_spec (length us + 0) p2 [] bs out a H2) as (p3 & E3 & H3 & Hk3).
  { rewrite Hc. destruct Hk2 as (-> & _). pose proof (own_max _ _ _ _ H1). lia. }
  exists p3. split; [done|]. split; [done|].
  split; [apply (keeps_trans p p1); [exact Hk1|]; by apply (keeps_trans p1 p2)|].
  intros -> Emp. cbn in E3. injection E3 as <-. rewrite Em, Hc, Hc1. cbn. split; [|lia].
  apply nil_length_inv. rewrite Hlen. cbn. by rewrite Emp.
Qed.

Lemma behavior_set_spec rc set_ok p us bs out addrs :
  owns p us bs out ->
  (memcached_failed rc = false -> forall mc, mc ∉ mc_pool p -> set_ok mc = true) ->
  exists p', memcached_pool_behavior_set rc set_ok p addrs = Some (rc, negb (memcached_failed rc), p')
    /\ owns p' us bs out /\ keeps p p' /\ cur_size p' = cur_size p
    /\ length (mc_pool p') = length (mc_pool p).
Proof.
  intros H Hok. unfold memcached_pool_behavior_set, reclone.
  destruct (memcached_failed rc); [by exists p|]. specialize (Hok eq_refl).
  set (p0 := increment_version p).
  assert (H0 : owns p0 us bs out) by (eapply owns_alike; [|exact H]; by split).
  destruct (reclone_loop_spec set_ok (length (mc_pool p0)) 0 p0 us bs out addrs H0)
    as (p1 & a & -> & H1 & Hk1 & Hc & Hlen); [lia|].
  cbn [mbind option_bind].
  destruct (list_behavior_set_spec set_ok us (base.size (members p1)) p1 None (used_mc_head p1) 0)
    as (p2 & -> & Ha & W).
  { apply H1. }
  { by eapply used_fuel. }
  { intros x Hx. apply Hok. pose proof (own_once _ _ _ _ H x) as Ho. apply occ_in in Hx.
    rewrite occ_notin. count. destruct (decide (is_Some _)); lia. }
  cbn [mbind option_bind grow_loop]. exists p2. split; [done|].
  split; [by eapply owns_alike|].
  split; [apply (keeps_trans p p1); [exact Hk1|by apply alike_keeps]|].
  rewrite (alike_cur _ _ Ha), (alike_mc _ _ Ha). by split.
Qed.

(** *** Updates of the servers *)

(** The handle that an update has taken out. *)
Definition transit (ph : phase) : list nat :=
  match ph with UpdatingList mc | UpdatingPool mc => [mc] | Idle | Stuck => [] end.

(** What is left to update. *)
Definition phase_ok (ph : phase) (p : memcached_pool_st) (bs : list nat) : Prop :=
  match ph with
  | UpdatingList _ => True
  | UpdatingPool _ => bs = []
  | Idle | Stuck => bs = [] /\ bk_pool p = []
  end.

Lemma phase_shrinks ph p p' bs bs' : shrinks bs bs' p p' -> phase_ok ph p bs -> phase_ok ph p' bs'.
Proof. intros [H1 H2]. destruct ph; cbn; [|done|done|]; intuition. Qed.

Lemma phase_same ph p p' bs : bk_pool p' = bk_pool p -> phase_ok ph p bs -> phase_ok ph p' bs.
Proof. intros E. apply phase_shrinks. by split; [|rewrite E]. Qed.

Lemma update_next_spec p us bs out :
  owns p us bs out ->
  exists ph p' bs', update_next p = Some (ph, p') /\ owns p' us bs' (transit ph ++ out)
    /\ phase_ok ph p' bs' /\ waits p p' /\ max_size p' = max_size p /\ cur_size p' = cur_size p
    /\ mc_pool p' = mc_pool p /\ (ph = Idle \/ ~ drained p us bs).
Proof.
  intros H. unfold update_next. destruct bs as [|mc bs].
  - rewrite (chain_head _ _ _ (own_bk _ _ _ _ H)). cbn [head].
    pose proof (pop_spec (bk_pool p)) as Hb. destruct (pop (bk_pool p)) as [[l mc]|].
    + eexists (UpdatingPool mc), _, []. split; [done|]. split; [|split_and!; try done; right].
      * pose proof (own_once _ _ _ _ H) as Ho. pose proof (own_size _ _ _ _ H) as Hs.
        destruct H as [H1 H2 H3 H4 _ _ H7]. split; cbn; try done.
        -- intros y. specialize (Ho y). count. rewrite Hb in Ho. count. lia.
        -- count. rewrite Hb in Hs. count. lia.
      * intros (_ & _ & _ & E). rewrite Hb in E. by destruct l.
    + exists Idle, p, []. split; [done|]. split; [done|]. split_and!; try done. by left.
  - destruct (own_bk _ _ _ _ H) as (-> & v & Hv & Hl). unfold get_member. rewrite Hv.
    cbn [mbind option_bind]. eexists (UpdatingList mc), _, bs. split; [done|].
    apply and_assoc. split; [|by split_and!; try (by case_bool_decide); right; intros (_ & ? & _)].
    split; [|done].
    pose proof (own_bk_tail _ _ _ _ H) as Hbt. destruct H as [H1 H2 _ _ H5 H6 H7].
    destruct bs as [|x bs].
    + cbn in Hl. rewrite Hl. rewrite bool_decide_eq_true_2 by done. reorder H5 H5.
    + destruct Hl as [E Hl]. rewrite bool_decide_eq_false_2 by (by rewrite E). reorder H5 E.
Qed.

Lemma update_cachelist_spec rc changed init p us out addrs :
  owns p us [] out -> bk_pool p = [] ->
  exists rc' ph p' us' bs',
    memcached_pool_update_cachelist rc changed init p addrs = Some (rc', ph, p')
    /\ owns p' us' bs' (transit ph ++ out) /\ phase_ok ph p' bs' /\ waits p p'
    /\ max_size p' = max_size p
    /\ (drained p us [] -> drained p' us' bs' /\ cur_size p' = cur_size p).
Proof.
  intros H Eb. unfold memcached_pool_update_cachelist. destruct init.
  { destruct (renew_spec p us [] out addrs H) as (p' & -> & H1 & (Ex & W & Eb') & Hd).
    cbn [mbind option_bind]. exists MEMCACHED_SUCCESS, Idle, p', [], [].
    do 2 (split; [done|]). split; [by split; [done|]; rewrite Eb'|]. split; [done|]. split; [done|].
    intros (Eu & _ & Em & _). destruct (Hd Eu Em) as [Em' Ec]. unfold drained; by rewrite ?Eb', ?Eb. }
  destruct (_ && changed); [|by exists rc, Idle, p, us, []].
  set (p0 := if bool_decide _ then _ else _).
  assert (H0 : owns p0 [] us out /\ mc_pool p0 = [] /\ bk_pool p0 = mc_pool p /\ waits p p0
               /\ max_size p0 = max_size p /\ cur_size p0 = cur_size p).
  { unfold p0. pose proof (own_once _ _ _ _ H) as Ho. pose proof (own_size _ _ _ _ H) as Hs.
    cbn. case_bool_decide as Em; cbn; (split; [|split_and!; done || congruence]).
    all: assert (Hl : forall x, occ x (owned p us [] out)
                       = (occ x us + occ x (mc_pool p) + occ x out)%nat)
      by (intros x; unfold owned; rewrite Eb; cbn; rewrite !occ_app; lia).
    all: assert (Hn : length (owned p us [] out) = (length us + length (mc_pool p) + length out)%nat)
      by (unfold owned; rewrite Eb; cbn; rewrite !length_app; lia).
    all: destruct H as [H1 H2 H3 H4 _ _ H7]; split; cbn; try done.
    all: try (intros y; rewrite <-Ho, Hl); try rewrite Hs, Hn; unfold owned; cbn; rewrite ?Em, ?Eb; cbn;
      rewrite ?occ_app, ?occ_nil, ?length_app; cbn; lia. }
  clearbody p0. destruct H0 as (H0 & Em0 & Eb0 & W0 & Ex0 & Ec0).
  destruct (update_next_spec p0 [] us out H0) as (ph & p' & bs' & -> & H1 & Hph & W & Ex & Ec & Em & Hd).
  cbn [mbind option_bind]. exists rc, ph, p', [], bs'. split; [done|]. split; [done|].
  split; [done|]. split; [by eapply waits_trans|]. split; [congruence|].
  intros (-> & _ & Emp & _). destruct Hd as [->|[]]; [|unfold drained; by rewrite ?Em0, ?Eb0, ?Emp].
  destruct Hph as [-> Ebk]. split; [|congruence]. unfold drained. by rewrite Em, Em0, Ebk.
Qed.

Lemma update_continue_spec update_ok ph p us bs out :
  owns p us bs (transit ph ++ out) -> phase_ok ph p bs -> transit ph <> [] ->
  exists ph' p' us' bs', update_continue update_ok ph p = Some (ph', p')
    /\ owns p' us' bs' (transit ph' ++ out) /\ phase_ok ph' p' bs' /\ woken p p'.
Proof.
  intros H Hph Ht. destruct ph as [|mc|mc|]; try done; cbn [update_continue transit app] in *.
  all: destruct (member_update_alike (update_ok mc) p mc) as (p1 & -> & Ha & W1);
    [apply (own_in _ _ _ _ _ H); unfold owned; set_solver|]; cbn [mbind option_bind];
    pose proof (owns_alike _ _ _ _ _ Ha H) as H1.
  - destruct (mc_list_add_tail _ _ _ _ _ H1) as (p2 & -> & H2 & W2 & _). cbn [mbind option_bind].
    destruct (update_next_spec p2 _ _ _ H2) as (ph' & p3 & bs' & E & H3 & Hph' & W3 & _).
    exists ph', p3, (us ++ [mc]), bs'. do 3 (split; [done|]). destruct W3 as [E1 E2].
    destruct (waits_woken _ _ _ W1 W2). split; congruence.
  - destruct (mc_pool_add_spec _ _ _ _ _ H1) as (p2 & -> & H2 & W2 & _). cbn [mbind option_bind].
    destruct (update_next_spec p2 _ _ _ H2) as (ph' & p3 & bs' & E & H3 & Hph' & W3 & _).
    exists ph', p3, us, bs'. do 3 (split; [done|]). destruct W3 as [E1 E2].
    destruct (waits_woken _ _ _ W1 W2). split; congruence.
Qed.

(** *** The invariant of pool and clients *)

(** Who sleeps has been counted, and found nothing: neither is there something in
    the pool nor can it grow. *)
Record sound (c : config) (us bs : list nat) : Prop := {
  sound_owns : owns (the_pool c) us bs (transit (updating c) ++ held c);
  sound_phase : phase_ok (updating c) (the_pool c) bs;
  sound_waiting : wait_count (the_pool c) = Z.of_nat (waiting c);
  sound_bound : Z.of_nat (waiting c) < 2 ^ 32;
  sound_cond : (cond (the_pool c) <= waiting c)%nat;
  sound_sleep : (0 < cond (the_pool c))%nat ->
                drained (the_pool c) us bs /\ cur_size (the_pool c) = max_size (the_pool c);
}.

Lemma sound_woken c us bs p :
  sound c us bs -> woken (the_pool c) p -> wait_count p = Z.of_nat (waiting c) /\ cond p = 0%nat.
Proof.
  intros [_ _ E _ Hc _] [-> ->]. split; [done|]. case_match eqn:Ew; [done|].
  apply Z.ltb_ge in Ew. lia.
Qed.

Lemma fetch_sound c wait r p us bs :
  sound c us bs -> fetch_post wait (the_pool c) us bs (transit (updating c) ++ held c) r p ->
  max_size p = max_size (the_pool c) ->
  Z.of_nat (S (waiting c)) < 2 ^ 32 ->
  exists us' bs', sound (take_result c (r, p)) us' bs'.
Proof.
  intros [H1 H2 H3 H3' H4 H5] Hp Hx Hw. destruct r as [mc|rc|].
  - destruct Hp as ([Ew Ec] & Hd & us' & bs' & Ho & Hs). exists us', bs'. split; cbn.
    + eapply owns_out; [|exact Ho]. apply Permutation_middle.
    + by eapply phase_shrinks.
    + congruence.
    + done.
    + congruence.
    + intros Hc. destruct Hd. apply H5. congruence.
  - destruct Hp as (-> & Hd & _). exists us, bs. by split.
  - destruct Hp as (-> & Hd & _ & Ec). exists us, bs. split; cbn; try done.
    + eapply owns_alike; [|exact H1]. by split.
    + rewrite H3, u32_small; lia.
    + lia.
Qed.

Lemma create_spec initial max v k addrs p :
  0 <= initial -> max < 2 ^ 32 - 1 ->
  memcached_pool_create initial max v k addrs = Some (Some p) ->
  sound {| the_pool := p; held := []; waiting := 0; updating := Idle |} [] [].
Proof.
  intros Hi Hm. unfold memcached_pool_create.
  destruct (Z.eqb_spec initial 0), (Z.eqb_spec max 0); cbn [orb]; [done..|].
  rewrite Z.gtb_ltb. destruct (Z.ltb_spec max initial); [done|].
  set (p0 := {| members := ∅ |}).
  assert (H0 : owns p0 [] [] []).
  { split; cbn; try done. rewrite u32_small; lia. }
  destruct (grow_loop_spec (Z.to_nat initial) p0 [] [] [] addrs H0) as (p1 & -> & H1 & Hx & W & Eb).
  { cbn. rewrite u32_small; lia. }
  cbn [mbind option_bind]. intros [= <-]. destruct W as [W1 W2].
  split; cbn; try done; rewrite ?W1, ?W2; cbn; lia.
Qed.

(** What an operation has to do: it succeeds, and leaves a sound pool. *)
Definition goes_on (update_ok : nat -> bool) (o : op) (c : config) : Prop :=
  exists c' us' bs', run update_ok o c = Some c' /\ sound c' us' bs'.

(** A client that waited goes on. *)
Lemma wake_sound update_ok reason asleep addr c us bs :
  sound c us bs -> allowed (op_wake reason asleep addr) c ->
  goes_on update_ok (op_wake reason asleep addr) c.
Proof.
  intros [H1 H2 H3 H3' H4 H5] Ha. unfold goes_on. cbn [allowed run] in *. unfold fetch_wake.
  assert (Hpos : (0 < waiting c)%nat) by (destruct asleep; lia).
  set (p1 := (if asleep then (the_pool c) <| cond ::= pred |> else the_pool c)
               <| wait_count ::= fun n => n ⊟ 1 |>).
  set (c1 := c <| waiting ::= pred |> <| the_pool := p1 |>).
  assert (Hc : sound c1 us bs).
  { assert (Hal : alike (the_pool c) p1) by (unfold p1; by destruct asleep).
    assert (Hw : wait_count p1 = wait_count (the_pool c) ⊟ 1) by (unfold p1; by destruct asleep).
    assert (Hs : cond p1 = if asleep then pred (cond (the_pool c)) else cond (the_pool c))
      by (unfold p1; by destruct asleep).
    clearbody p1. split; cbn; [by eapply owns_alike|eapply phase_same; [apply Hal|done]| | | |].
    - rewrite Hw, H3, u32_small; lia.
    - lia.
    - rewrite Hs. destruct asleep; lia.
    - rewrite Hs. intros Hp. destruct H5 as [Hd Ec]; [destruct asleep; lia|].
      unfold drained. rewrite (alike_mc _ _ Hal), (alike_bk _ _ Hal), (alike_cur _ _ Hal),
        (alike_max _ _ Hal). by split. }
  destruct reason.
  - destruct (fetch_spec update_ok true p1 us bs _ addr (sound_owns _ _ _ Hc)) as (r & p' & -> & Hx & Hp).
    cbn [mbind option_bind]. eexists. apply (fetch_sound c1 true r p' us bs) in Hp;
      [|done..|cbn; lia]. destruct Hp as (us' & bs' & Hs). exists us', bs'. split; [done|exact Hs].
  - eexists _, us, bs. split; [done|exact Hc].
  - eexists _, us, bs. split; [done|exact Hc].
Qed.

Lemma filter_without (mc : nat) (l : list nat) : mc ∉ l -> filter (fun x => x <> mc) l = l.
Proof.
  induction l as [|y l IH]; [done|]. rewrite not_elem_of_cons. intros [Hne Hl].
  rewrite filter_cons_True by congruence. by rewrite IH.
Qed.

Lemma release_permutation (mc : nat) (l : list nat) :
  NoDup l -> mc ∈ l -> l ≡ₚ mc :: filter (fun x => x <> mc) l.
Proof.
  induction l as [|y l IH]; [by intros _ ?%elem_of_nil|]. intros [Hy Hnd]%NoDup_cons Hmc.
  rewrite filter_cons. destruct (decide (y = mc)) as [->|Hne].
  - rewrite decide_False by (by intros []). constructor.
    by rewrite filter_without.
  - rewrite decide_True by done. apply elem_of_cons in Hmc as [->|Hmc]; [done|].
    rewrite (IH Hnd Hmc) at 1. apply Permutation_swap.
Qed.

Lemma fetch_goes_on update_ok wait addr c us bs :
  sound c us bs -> allowed (op_fetch wait addr) c -> goes_on update_ok (op_fetch wait addr) c.
Proof.
  intros H Ha. unfold goes_on. cbn [run].
  destruct (fetch_spec update_ok wait (the_pool c) us bs _ addr (sound_owns _ _ _ H))
    as (r & p' & -> & Hx & Hp).
  cbn [mbind option_bind]. destruct (fetch_sound c wait r p' us bs H Hp Hx Ha) as (us' & bs' & Hs).
  by eexists _, us', bs'.
Qed.

Lemma held_out c us bs mc :
  sound c us bs -> mc ∈ held c ->
  owns (the_pool c) us bs (mc :: transit (updating c) ++ filter (fun x => x <> mc) (held c)).
Proof.
  intros H Hmc. pose proof (sound_owns _ _ _ H) as Ho. eapply owns_out; [|exact Ho].
  rewrite (release_permutation mc (held c)) at 1; [by rewrite Permutation_middle| |done].
  pose proof (own_NoDup _ _ _ _ Ho) as Hnd. unfold owned in Hnd.
  by repeat (apply NoDup_app in Hnd as (_ & _ & Hnd)).
Qed.

Lemma release_goes_on update_ok mc addr c us bs :
  sound c us bs -> allowed (op_release mc addr) c -> goes_on update_ok (op_release mc addr) c.
Proof.
  intros H Ha. pose proof (held_out _ _ _ _ H Ha) as Ho.
  pose proof H as [_ Hph Hw Hw' Hc Hsl]. unfold goes_on. cbn [run].
  destruct (release_spec update_ok _ _ _ _ _ addr Ho) as (us' & p' & -> & H1 & _ & W & Eb & Ex).
  cbn [mbind option_bind]. eexists _, us', bs. split; [done|].
  destruct (sound_woken _ _ _ _ H W) as [E1 E2].
  split; cbn; try done; [by eapply phase_same|lia|lia].
Qed.

Lemma update_member_goes_on update_ok mc c us bs :
  sound c us bs -> allowed (op_update_member mc) c -> goes_on update_ok (op_update_member mc) c.
Proof.
  intros H Ha. pose proof H as [Ho Hph Hw Hw' Hc Hsl]. cbn [allowed] in Ha.
  unfold goes_on. cbn [run]. unfold memcached_pool_update_member, get_member.
  assert (Hin : is_Some (members (the_pool c) !! mc))
    by (apply (own_in _ _ _ _ _ Ho); unfold owned; set_solver).
  pose proof Hin as [v Hv]. rewrite Hv. cbn [mbind option_bind].
  destruct (negb _); [|by eexists _, us, bs].
  destruct (member_update_alike (update_ok mc) _ _ Hin) as (p' & -> & Hal & W1 & W2).
  cbn [mbind option_bind]. eexists _, us, bs. split; [done|]. split; cbn; try congruence.
  - by eapply owns_alike.
  - eapply phase_same; [apply Hal|done].
  - rewrite W2. intros Hp. unfold drained. rewrite (alike_mc _ _ Hal), (alike_bk _ _ Hal),
      (alike_cur _ _ Hal), (alike_max _ _ Hal). by apply Hsl.
Qed.

Lemma behavior_set_goes_on update_ok rc set_ok addrs c us bs :
  sound c us bs -> allowed (op_behavior_set rc set_ok addrs) c ->
  goes_on update_ok (op_behavior_set rc set_ok addrs) c.
Proof.
  intros [Ho Hph Hw Hw' Hc Hsl] [Hidle Hok]. rewrite Hidle in *. destruct Hph as [-> Hbk].
  destruct (behavior_set_spec rc set_ok _ _ _ _ addrs Ho Hok)
    as (p' & E & H1 & (Ex & [W1 W2] & Eb) & Ec & Hlen).
  unfold goes_on. cbn [run]. rewrite E. cbn [mbind option_bind]. eexists _, us, [].
  split; [done|]. assert (Hph' : bk_pool p' = []) by congruence.
  split; cbn; try congruence; [by destruct (negb _)..|].
  rewrite W2. intros Hp. destruct (Hsl Hp) as [(E1 & _ & E2 & _) E3].
  split; [|congruence]. split; [done|]. split; [done|]. split; [|done].
  apply nil_length_inv. by rewrite Hlen, E2.
Qed.

Lemma repopulate_goes_on update_ok addrs c us bs :
  sound c us bs -> allowed (op_repopulate addrs) c -> goes_on update_ok (op_repopulate addrs) c.
Proof.
  intros [Ho Hph Hw Hw' Hc Hsl] Ha. cbn [allowed] in Ha. rewrite Ha in *.
  destruct Hph as [-> Hbk]. unfold goes_on. cbn [run]. unfold memcached_pool_repopulate.
  destruct (renew_spec _ _ _ _ addrs Ho) as (p' & -> & H1 & (Ex & [W1 W2] & Eb) & Hd).
  cbn [mbind option_bind]. eexists _, [], []. split; [done|].
  split; cbn; try congruence.
  - rewrite Ha. split; [done|]. congruence.
  - rewrite W2. intros Hp. destruct (Hsl Hp) as [(E1 & _ & E2 & _) E3].
    destruct (Hd E1 E2) as [E4 E5]. split; [|congruence]. do 3 (split; [done|]). congruence.
Qed.

Lemma update_goes_on update_ok rc changed init addrs c us bs :
  sound c us bs -> allowed (op_update rc changed init addrs) c ->
  goes_on update_ok (op_update rc changed init addrs) c.
Proof.
  intros [Ho Hph Hw Hw' Hc Hsl] Ha. cbn [allowed] in Ha. rewrite Ha in *.
  destruct Hph as [-> Hbk]. unfold goes_on. cbn [run].
  destruct (update_cachelist_spec rc changed init _ _ _ addrs Ho Hbk)
    as (rc' & ph & p' & us' & bs' & -> & H1 & Hph' & [W1 W2] & Ex & Hd).
  cbn [mbind option_bind]. eexists _, us', bs'. split; [done|].
  split; cbn; try congruence; [done..|].
  rewrite W2. intros Hp. destruct (Hsl Hp) as [E1 E2]. destruct (Hd E1). split; [done|congruence].
Qed.

Lemma continue_goes_on update_ok c us bs :
  sound c us bs -> allowed op_continue c -> goes_on update_ok op_continue c.
Proof.
  intros H Ha. pose proof H as [Ho Hph Hw Hw' Hc Hsl]. cbn [allowed] in Ha.
  unfold goes_on. cbn [run].
  destruct (update_continue_spec update_ok _ _ _ _ _ Ho Hph) as (ph & p' & us' & bs' & -> & H1 & Hph' & W).
  { by destruct (updating c). }
  cbn [mbind option_bind]. eexists _, us', bs'. split; [done|].
  destruct (sound_woken _ _ _ _ H W) as [E1 E2].
  split; cbn; try done; lia.
Qed.

Lemma run_sound update_ok o c us bs : sound c us bs -> allowed o c -> goes_on update_ok o c.
Proof.
  intros H Ha.
  destruct o; eauto using fetch_goes_on, wake_sound, release_goes_on, update_member_goes_on,
    behavior_set_goes_on, repopulate_goes_on, update_goes_on, continue_goes_on.
Qed.

Lemma reachable_sound update_ok c : reachable update_ok c -> exists us bs, sound c us bs.
Proof.
  induction 1 as [initial max v k addrs p Hi Hm Hc|c o c' _ (us & bs & H) Ha Hr].
  - exists [], []. by eapply create_spec.
  - destruct (run_sound update_ok o c us bs H Ha) as (c1 & us' & bs' & E & Hs).
    exists us', bs'. congruence.
Qed.


(** *** The end of the pool *)

(** [p'] is [p] without the handles [l]. *)
Definition without (l : list nat) (p p' : memcached_pool_st) : Prop :=
  forall x, members p' !! x = if decide (x ∈ l) then None else members p !! x.

Lemma without_nil p : without [] p p.
Proof. intros x. by rewrite decide_False by set_solver. Qed.

Lemma without_app l1 l2 p1 p2 p3 :
  without l1 p1 p2 -> without l2 p2 p3 -> without (l1 ++ l2) p1 p3.
Proof.
  intros H1 H2 x. rewrite H2, H1. repeat case_decide; set_solver.
Qed.

Lemma free_without p mc :
  is_Some (members p !! mc) -> exists p', memcached_free p mc = Some p' /\ without [mc] p p'.
Proof.
  intros [v Hv]. unfold memcached_free. rewrite Hv. cbn [mbind option_bind].
  eexists. split; [done|]. intros x. cbn.
  case_decide as Hx; rewrite list_elem_of_singleton in Hx.
  - subst. apply lookup_delete_eq.
  - by apply lookup_delete_ne.
Qed.

Lemma without_other l p p' x : without l p p' -> x ∉ l -> members p' !! x = members p !! x.
Proof. intros H Hx. by rewrite H, decide_False. Qed.

Lemma free_list_spec l : forall fuel p h,
  chain (members p) h l -> NoDup l -> (length l <= fuel)%nat ->
  exists p', free_list fuel p h = Some p' /\ without l p p'.
Proof.
  induction l as [|mc l IH]; intros fuel p h Hc Hnd Hf.
  - cbn in Hc. subst. exists p. split; [by destruct fuel|apply without_nil].
  - destruct fuel as [|fuel]; cbn [length] in Hf; [lia|]. destruct Hc as (-> & v & Hv & Hl).
    apply NoDup_cons in Hnd as [Hmc Hnd]. cbn [free_list]. unfold get_member. rewrite Hv.
    cbn [mbind option_bind]. destruct (free_without p mc) as (p1 & -> & H1); [by eexists|].
    cbn [mbind option_bind]. destruct (IH fuel p1 (mc_next v)) as (p2 & E & H2); [|done|lia|].
    + eapply chain_local; [|exact Hl]. intros x Hx. eapply without_other; [done|]. set_solver.
    + exists p2. split; [done|]. by apply (without_app [mc] l p p1).
Qed.

Lemma free_array_spec l : forall p,
  (forall x, x ∈ l -> is_Some (members p !! x)) -> NoDup l ->
  exists p', free_array l p = Some p' /\ without l p p'.
Proof.
  induction l as [|mc l IH]; intros p Hl Hnd; [exists p; split; [done|apply without_nil]|].
  apply NoDup_cons in Hnd as [Hmc Hnd]. cbn [free_array].
  destruct (free_without p mc) as (p1 & -> & H1); [apply Hl; set_solver|].
  cbn [mbind option_bind]. destruct (IH p1) as (p2 & E & H2); [|done|].
  - intros x Hx. rewrite (without_other _ _ _ _ H1) by set_solver. apply Hl. set_solver.
  - exists p2. split; [done|]. by apply (without_app [mc] l p p1).
Qed.

(** What is left when the pool is gone is what clients hold. *)
Lemma destroy_spec p us bs out :
  owns p us bs out ->
  exists m, memcached_pool_destroy p = Some m /\ forall x, is_Some (m !! x) <-> x ∈ out.
Proof.
  intros H. pose proof (own_NoDup _ _ _ _ H) as Hnd. unfold owned in Hnd.
  apply NoDup_app in Hnd as (Hu & Hub & Hnd). apply NoDup_app in Hnd as (Hb & Hbm & Hnd).
  apply NoDup_app in Hnd as (Hm & Hmk & Hnd). apply NoDup_app in Hnd as (Hk & Hko & _).
  assert (Hall : forall x, x ∈ owned p us bs out -> is_Some (members p !! x))
    by (intros x; apply (own_in _ _ _ _ _ H)).
  unfold owned in Hall. unfold memcached_pool_destroy.
  destruct (free_list_spec bs (base.size (members p)) p _ (own_bk _ _ _ _ H) Hb) as (p1 & -> & H1);
    [exact (bk_fuel _ _ _ _ H)|]. cbn [mbind option_bind].
  destruct (free_list_spec us (base.size (members p)) p1 (used_mc_head p)) as (p2 & -> & H2).
  { eapply chain_local; [|apply H].
    intros x Hx. eapply without_other; [done|]. set_solver. }
  { done. }
  { exact (used_fuel _ _ _ _ H). }
  pose proof (without_app _ _ _ _ _ H1 H2) as H12. cbn [mbind option_bind].
  destruct (free_array_spec (bk_pool p) p2) as (p3 & -> & H3); [|done|].
  { intros x Hx. rewrite (without_other _ _ _ _ H12) by set_solver. apply Hall. set_solver. }
  cbn [mbind option_bind].
  pose proof (without_app _ _ _ _ _ H12 H3) as H13.
  destruct (free_array_spec (mc_pool p) p3) as (p4 & -> & H4); [|done|].
  { intros x Hx. rewrite (without_other _ _ _ _ H13) by set_solver. apply Hall. set_solver. }
  cbn [mbind option_bind]. exists (members p4). split; [done|]. intros x.
  rewrite (without_app _ _ _ _ _ H13 H4).
  case_decide as Hx; [split; [by intros [? ?]|set_solver]|].
  rewrite <-(own_in _ _ _ _ x H). unfold owned. set_solver.
Qed.

(** ** Properties *)

Lemma owns_count p us bs out :
  owns p us bs out -> cur_size p = Z.of_nat (base.size (members p)).
Proof.
  intros H. rewrite (own_size _ _ _ _ H). f_equal.
  rewrite <-size_dom, <-(size_list_to_set (C := gset nat) _ (own_NoDup _ _ _ _ H)).
  f_equal. apply set_eq. intros x. rewrite elem_of_list_to_set, elem_of_dom.
  apply (own_in _ _ _ _ _ H).
Qed.

(** C28: Take a pool whose maximum is below 2^32 - 1, fewer than 2^32 clients that
    only give back what they hold, and updates that come one after the other, with
    behaviors that the handles of the pool accept when the master does.  Whatever
    such clients and updates do with the pool, in whatever order they come by the
    lock, no operation uses a handle that was freed or writes behind an array; no
    handle is given to two clients and none that a client holds is freed; there are
    never more handles than the pool may have, and destroying the pool frees all but
    those that clients hold, each of them once. *)
Theorem pool_safe update_ok c :
  reachable update_ok c ->
  NoDup (held c)
  /\ (forall mc, mc ∈ held c -> is_Some (members (the_pool c) !! mc))
  /\ cur_size (the_pool c) = Z.of_nat (base.size (members (the_pool c)))
  /\ cur_size (the_pool c) <= max_size (the_pool c)
  /\ (forall o, allowed o c -> is_Some (run update_ok o c))
  /\ (updating c = Idle ->
      exists m, memcached_pool_destroy (the_pool c) = Some m
                /\ forall mc, is_Some (m !! mc) <-> mc ∈ held c).
Proof.
  intros (us & bs & H)%reachable_sound. pose proof (sound_owns _ _ _ H) as Ho.
  split; [|split; [|split; [|split; [|split]]]].
  - pose proof (own_NoDup _ _ _ _ Ho) as Hnd. unfold owned in Hnd.
    by repeat (apply NoDup_app in Hnd as (_ & _ & Hnd)).
  - intros mc Hmc. apply (own_in _ _ _ _ _ Ho). unfold owned. set_solver.
  - by eapply owns_count.
  - apply (own_max _ _ _ _ Ho).
  - intros o Ha. destruct (run_sound update_ok o c us bs H Ha) as (c' & _ & _ & E & _).
    by eexists.
  - intros Hi. rewrite Hi in Ho. by apply (destroy_spec _ us bs).
Qed.

(** C29: No wake-up is lost. Clients sleep only while the pool has nothing to give
    and cannot grow; when a handle comes back nobody is left asleep, and the first
    of those who waited that gets the lock gets a handle. *)
Theorem pool_wakes update_ok c :
  reachable update_ok c ->
  ((0 < cond (the_pool c))%nat ->
   used_mc_head (the_pool c) = None /\ used_bk_head (the_pool c) = None
   /\ mc_pool (the_pool c) = [] /\ bk_pool (the_pool c) = []
   /\ cur_size (the_pool c) = max_size (the_pool c))
  /\ forall mc addr, mc ∈ held c ->
     exists c', run update_ok (op_release mc addr) c = Some c' /\ cond (the_pool c') = 0%nat
       /\ forall addr', (0 < waiting c')%nat ->
          exists mc' c'', run update_ok (op_wake Woken false addr') c' = Some c''
            /\ held c'' = mc' :: held c' /\ waiting c'' = pred (waiting c').
Proof.
  intros (us & bs & H)%reachable_sound. split.
  - intros Hc. destruct (sound_sleep _ _ _ H Hc) as [(-> & -> & E1 & E2) E3].
    pose proof (sound_owns _ _ _ H) as Ho.
    by rewrite (chain_head _ _ _ (own_used _ _ _ _ Ho)), (chain_head _ _ _ (own_bk _ _ _ _ Ho)).
  - intros mc addr Hmc. pose proof (held_out _ _ _ _ H Hmc) as Ho.
    destruct (release_spec update_ok _ _ _ _ _ addr Ho) as (us' & p' & E & H1 & Hne & W & _ & _).
    cbn [run]. rewrite E. cbn [mbind option_bind]. eexists. split; [done|].
    destruct (sound_woken _ _ _ _ H W) as [_ E2]. split; [exact E2|].
    intros addr' Hw. unfold fetch_wake, fetch. cbn [the_pool update].
    set (p1 := p' <| wait_count ::= fun n => n ⊟ 1 |>).
    assert (H2 : owns p1 us' bs (transit (updating c) ++ filter (fun x => x <> mc) (held c)))
      by (eapply owns_alike; [|exact H1]; by split).
    destruct (fetch_round update_ok true p1 us' bs _ addr' 1 H2) as (mc' & p2 & us2 & bs2 & E3 & _);
      [by intros [? _]|].
    exists mc'. eexists. split; [rewrite E3; reflexivity|split; reflexivity].
Qed.

(** Two clients hold all there is, and a third one sleeps. *)
Definition new_member : member := {| mc_next := None; version := 0; ketama_version := 0 |}.

Definition first_pool : memcached_pool_st :=
  {| members := {[0%nat := new_member]}; used_mc_head := None; used_mc_tail := None;
     used_bk_head := None; used_bk_tail := None; mc_pool := [0%nat]; bk_pool := []; cond := 0;
     wait_count := 0; max_size := 2; cur_size := 1; master_version := 0;
     master_ketama_version := 0 |}.

Definition crowded : config :=
  {| the_pool := first_pool <| members := <[1%nat := new_member]> {[0%nat := new_member]} |>
       <| mc_pool := [] |> <| cond := 1%nat |> <| wait_count := 1 |> <| cur_size := 2 |>;
     held := [1%nat; 0%nat]; waiting := 1; updating := Idle |}.

Lemma crowded_reachable : reachable (fun _ => true) crowded.
Proof.
  assert (H0 : reachable (fun _ => true)
                 {| the_pool := first_pool; held := []; waiting := 0; updating := Idle |})
    by (apply (reach_create _ 1 1 0 0 [Some 0%nat]); [lia|lia|reflexivity]).
  eapply (reach_step _ _ (op_fetch true None)) in H0; [|cbn; lia|reflexivity].
  eapply (reach_step _ _ (op_fetch true (Some 1%nat))) in H0; [|cbn; lia|reflexivity].
  eapply (reach_step _ _ (op_fetch true None)) in H0; [|cbn; lia|reflexivity].
  exact H0.
Qed.

Lemma pool_safe_witness :
  reachable (fun _ => true) crowded
  /\ is_Some (run (fun _ => true) (op_release 0 None) crowded)
  /\ exists m, memcached_pool_destroy (the_pool crowded) = Some m
               /\ forall mc, is_Some (m !! mc) <-> mc ∈ [1%nat; 0%nat].
Proof.
  split; [exact crowded_reachable|].
  destruct (pool_safe (fun _ => true) crowded crowded_reachable) as (_ & _ & _ & _ & Hr & Hd).
  split; [apply Hr; cbn; set_solver|]. by apply Hd.
Defined.

Lemma pool_wakes_witness :
  (0 < cond (the_pool crowded))%nat /\ mc_pool (the_pool crowded) = []
  /\ exists c', run (fun _ => true) (op_release 0 None) crowded = Some c'
                /\ cond (the_pool c') = 0%nat.
Proof.
  destruct (pool_wakes (fun _ => true) crowded crowded_reachable) as [Hs Hr].
  split; [cbn; lia|]. split; [apply Hs; cbn; lia|].
  destruct (Hr 0%nat None) as (c' & E & Hc & _); [cbn; set_solver|]. by exists c'.
Defined.

(** ** What modelling showed *)

(** When a behavior cannot be set on a handle that is not the first of the list, the
    loop goes on from the handle that it has just freed. *)
Lemma behavior_set_freed :
  memcached_pool_behavior_set MEMCACHED_SUCCESS (fun mc => bool_decide (mc = 0%nat))
    (first_pool <| members := <[1%nat := new_member]>
                                {[0%nat := new_member <| mc_next := Some 1%nat |>]} |>
       <| mc_pool := [] |> <| used_mc_head := Some 0%nat |> <| used_mc_tail := Some 1%nat |>
       <| cur_size := 2 |>) [] = None.
Proof. reflexivity. Qed.

(** Once setting a behavior of the master has failed, [master_lock] is never given
    back, and nothing that takes it is done any more. *)
Lemma master_lock_kept update_ok rc set_ok addrs c :
  memcached_failed rc = true ->
  exists c', run update_ok (op_behavior_set rc set_ok addrs) c = Some c' /\ updating c' = Stuck.
Proof.
  intros Hf. cbn [run]. unfold memcached_pool_behavior_set. rewrite Hf. cbn [mbind option_bind].
  by eexists.
Qed.

Lemma stuck_forever update_ok o c c' :
  updating c = Stuck -> allowed o c -> run update_ok o c = Some c' -> updating c' = Stuck.
Proof.
  intros Hs Ha. destruct o; cbn [run allowed] in *; rewrite ?Hs in *; try done;
    try (by destruct Ha); intros (? & _ & E)%bind_Some; simplify_eq/=; try done;
    by match goal with r : _ * _ |- _ => destruct r end.
Qed.

(** The largest maximum makes room for none. *)
Lemma pool_create_largest :
  memcached_pool_create 1 (2 ^ 32 - 1) 0 0 [Some 0%nat] = None.
Proof. reflexivity. Qed.

(** The size that is reported is not that which was asked for. *)
Lemma pool_size_reported pool max :
  0 <= max < 2 ^ 32 - 1 ->
  max_size pool = u32 (max + 1) -> get_memcached_pool_size pool = (max + 1) mod 2 ^ 16.
Proof. intros Hm. unfold get_memcached_pool_size. intros ->. by rewrite u32_small by lia. Qed.
